(* ===== verification/_CoqProject ===== *)
-Q . S2P
Prelude.v
Endian.v
Format.v
Wire.v
Socket.v
Mpa.v
MpaConnect.v
Printer.v
Memory.v
CQueue.v
BlockPool.v
Allocation.v
ImplicitProducer.v
BlockIndex.v
ProducerFifo.v
ProducerBulk.v
ProducerDestroy.v
ExplicitProducer.v
ExplicitFifo.v
ExplicitBulk.v
ExplicitQueue.v
ExplicitDestroy.v
Threads.v
FreeListRace.v
ProducerRace.v
RaceTickets.v
RaceStorage.v
RaceSteps.v
RaceSafe.v
RaceBulk.v
RaceBulkSteps.v
RaceVirtual.v
RaceBulkAccess.v
RaceBulkSafe.v
RaceProgress.v
ProducerHash.v
HashRace.v
HashRaceInv.v
HashRaceSteps.v
HashRaceSafe.v
HashSwap.v
Producers.v
QueueDestroy.v
ConcurrentQueue.v
QueueRefinement.v
QueueLife.v
Tokens.v
TokenQueue.v
TokenLife.v
TokenSteps.v
TokenDestroy.v
Cq.v
Ddp.v
DdpSegment.v
DdpRoundtrip.v
DdpUntagged.v
Rdmap.v
RdmapView.v
RdmapThreads.v
RdmapTurns.v
RdmapSystem.v
RdmapEndToEnd.v
RdmapLife.v
StreamSetup.v
Verbs.v
Interpose.v
Stubs.v
VerbsApi.v
Cm.v
Daemon.v
CmEvents.v
Ping.v
PingMain.v
Perftest.v
PerftestProofs.v
PerftestRun.v
