(* ===== verification/Prelude.v ===== *)
(** * SoftUiWARP: a verification development

    SoftUiWARP is iWARP (RDMA over TCP) in user space.  This library models the
    protocol stack, the interposition libraries that make it look like an RDMA
    device, its daemon and its benchmark programs, and proves what they do.

    ** The program and the files that model it

    The stack is three layers over a TCP socket.  The application posts work
    requests to a send queue; the send thread turns each into a DDP message; DDP
    cuts it into segments; MPA frames each segment.  The receive thread goes the
    other way: DDP places the payload straight into memory and RDMAP files
    completions.

    - [Prelude.v]: machine integers ([wrap], [swrap]), byte sequences, the [run]
      monad ([Done], [Blocked], [Aborted] for a failed assertion, [Undefined]),
      tactics and hints.
    - [Endian.v]: bytes, little- and big-endian codecs, the class [Codec] of
      fixed-size encodings, bit fields.
    - [Wire.v] ([common/common.h]): constants, enumerations, header structs and
      accessors.
    - [Socket.v]: the TCP socket as the stack sees it: a receive script of data,
      errors and end of stream, the bytes sent so far, and a plan of transmit
      outcomes.  [Memory.v]: memory as a map from addresses to bytes.
    - [Mpa.v] ([suiw/mpa/mpa.cpp]: [mpa_send], [mpa_recv]); [MpaConnect.v] (the
      same file: [mpa_send_rr], [mpa_recv_rr], [mpa_client_connect],
      [mpa_server_accept]).
    - [Format.v]: decimal integers and [snprintf]; [Printer.v]
      ([suiw/mpa/printer.cpp]): the text of a connection header in the log.
    - [CQueue.v] ([common/concurrentqueue.h]): the queue the stack relies on, a
      list of per-thread producers; [Cq.v] ([common/cq.h], [common/cq.cpp]):
      completion and work queues on a heap.
    - The inside of [common/concurrentqueue.h]: [Allocation.v] (aligned pieces, arrays,
      tables behind a header, on bytes), [BlockPool.v] (blocks, the initial
      array, the free list), [ImplicitProducer.v] (one producer's counters, block
      index, enqueue and dequeue, bulk forms, destruction), [ProducerHash.v] (the
      hash tables from thread to producer), [ConcurrentQueue.v] (the container
      and its public operations).  Their theorems: [BlockIndex.v],
      [ProducerFifo.v], [ProducerBulk.v], [ProducerDestroy.v],
      [QueueDestroy.v] (what a destructor relies on), and [QueueRefinement.v], [QueueLife.v]
      for the container against [CQueue.v].
      [HashSwap.v]: the tables of two queues, linked in memory, change places.
    - Its other interface, which the stack does not use: [ExplicitProducer.v] (a
      producer with a token: ring of blocks, index, all operations), with the proofs
      in [ExplicitFifo.v], [ExplicitBulk.v], [ExplicitQueue.v], [ExplicitDestroy.v];
      [Producers.v], the class of what producers of either kind promise to the
      container; [Tokens.v] (producer and consumer tokens, queues that move), [TokenQueue.v]
      (what a consumer token finds), [TokenLife.v], [TokenSteps.v] (a queue in use),
      [TokenDestroy.v] (its destructor).
    - The same header under contention: [FreeListRace.v] (the free list),
      [ProducerRace.v] (one producer, many consumers), [RaceBulk.v] (consumers that
      take many at once) and [HashRace.v] (threads that find or make their producer)
      cut the operations at the accesses to shared variables; only searching a block
      index and giving back a block are one step each.  [Threads.v],
      [RaceTickets.v], [RaceStorage.v], [RaceSteps.v] and [RaceSafe.v] hold the
      invariant and the theorems of one producer; [RaceBulkSteps.v], [RaceVirtual.v],
      [RaceBulkAccess.v] and [RaceBulkSafe.v] those of bulk dequeues, each of which
      stands for several threads that dequeue one element; [RaceProgress.v] shows
      that a dequeue ends after a bounded number of steps; [HashRaceInv.v],
      [HashRaceSteps.v] and [HashRaceSafe.v] those of the hash tables.
    - [Ddp.v] ([suiw/ddp/ddp.cpp], [ddp.h], [buffer.h]): the operations;
      [DdpSegment.v], [DdpRoundtrip.v], [DdpUntagged.v]: their theorems.
    - [Rdmap.v] ([suiw/rdmap/rdmap.cpp] and headers): the turns of [rnic_send]
      and [rnic_recv], posting, registration, [rdmap_init_stream] and
      [rdmap_kill_stream]; [RdmapView.v]: the queues of a stream as a record and
      how each queue operation changes it; [RdmapThreads.v]: one turn of each
      thread; [RdmapTurns.v]: the receive thread's turn cut at the operations other
      threads can see; [RdmapSystem.v]: threads, application and network interleaved;
      [RdmapEndToEnd.v]: two streams; [RdmapLife.v]: set-up, posting, teardown.
    - [Verbs.v] and [Interpose.v] ([libibverbs/verbs.cpp],
      [librdmacm/rdma_cma.cpp], [libsuiw/softuiwarp.cpp]): the device list on a
      C heap, dispatch between the software device and the real library (a
      parameter), symbol binding, rate tables.  [Stubs.v]: the entry points that
      only announce themselves; [VerbsApi.v] ([libibverbs/verbs.h]): the inline
      functions an application compiles in, and what they do on the software
      device.
    - [Cm.v] ([libsuiw/softuiwarp.cpp], [librdmacm/rdma_cma.cpp]): the client
      side of connection management; [Daemon.v] ([libsuiw/libsuiwd.cpp]): the
      daemon and its poll loop; [CmEvents.v]: the two together.
    - [StreamSetup.v]: how both programs below set up their stream;
      [Ping.v], [PingMain.v] ([fake_ping_client.cpp]): the loop and its thread,
      and the way there; [Perftest.v], [PerftestProofs.v] ([perftest/]): options,
      connections, exchange and tests; [PerftestRun.v]: whole runs.

    ** What the theorems show

    - The queue: the blocks, indices and hash tables give the answers of the
      queue of per-thread lists, for every value of the wrapping 64-bit counters
      and every answer of the allocator; bulk enqueues are all or nothing;
      destruction destroys what is queued and frees every block once.  A producer with a token answers like a
      FIFO list as long as no bulk enqueue through it fails; a consumer token finds an element
      wherever there is one; a producer has one token at most; a queue's end leaves
      its tokens invalid.  With the accesses of several threads interleaved, no block
      is handed out twice, no element is lost, returned twice or read before it is
      there, what a bulk dequeue takes are neighbours, and a dequeue never
      has to start over.
    - Memory of the queue: an array is aligned, inside its piece and given back whole;
      the tables behind a header fit what was asked for.
    - Framing: what [mpa_send] sends [mpa_recv] reads back, in one call or in
      pieces and however the network cuts the stream; the connection handshake
      delivers both sides' private data when it arrives together with its header,
      and fails when it does not.
    - Placement: segmentation is exact and terminates; a tagged message of less than
      2 GiB arrives byte for byte at its offset; when it fits the registered buffer nothing
      else changes; refused messages change nothing; the tag registry and the
      untagged queue check are characterised completely.
    - RDMA: Write, Send and Read end to end through the threads of two streams;
      every case of both threads' switches as a change of the queues.
    - Interleaving, one operation on a queue or one DDP call at a time: in every
      reachable state each request that promises a
      completion is in exactly one place, no id is polled twice, pending reads
      complete in order.
    - Interposition, daemon, programs: the device list contract with its
      allocations, the lookup of extended verbs in structures of any version, every
      verb on the software device, the daemon's poll table, delivery of connection events in
      order, one unanswered send of the ping client, the bandwidth tests'
      accounting, what every way out of a benchmark run leaves open and mapped,
      and what it measures.
    - Behaviour that differs from what the code means to do is stated as a
      theorem about the code as it is: a receive loop that never returns, a
      write past the end of a buffer, shared read responses, misplaced untagged
      segments, a misread invalidation tag, and others in the same files.

    ** Conventions, bounds and fuel

    The host is little-endian with 64-bit pointers; structs marked packed have
    no padding.  Integers are [Z] with the conversions written out.  A call that
    may not return gives [None]: [mpa_recv] takes [fuel] turns of its receive
    loop and [ddp_recv] at most [segs] segments; theorems that a call returns say
    which fuel is enough (one turn per delivery, at most one per byte; one
    segment per piece of the message).  Senders need no fuel argument: their
    loops run on the element's length, which strictly decreases.  Uninitialised
    members are parameters ([junk]) of the functions that leave them so.  System
    calls' answers (descriptors, [poll], [accept], thread creation) are
    parameters.  The operations of the concurrent queue run one at a time, except in
    the four race models, whose accesses are sequentially consistent; its loops over
    blocks and hash slots take a fuel (the number of elements, of blocks, or of
    slots) that the theorems show to be enough.  The allocator of the queue answers
    from a list of booleans that says which allocations fail.  The arrays that
    [sg_list] points to are taken to have [num_sge] elements.  A benchmark run and
    its tests spin while the other threads work: a list gives the steps those
    threads take, and a wait that outlasts it is [Blocked]; what the stream's threads
    do before an application has registered its buffer is a parameter too.  The objects of the
    verbs interface are members found by address and name; a member that is not
    there is not allocated, and reading it is [Undefined].

    ** What is not modelled

    The interleaving of other threads inside a DDP call, and data races on the tag
    registry.  Weak memory ordering in the concurrent queue; the single accesses inside
    a search of its block index or a block's way back to the free list as steps of the
    producer's race; contention in bulk enqueues and on its tokens and explicit
    producers; bulk enqueues through a token that fail, beyond one example; its debugging
    statistics, thread-exit callbacks (not compiled in) and the paths for element
    types whose constructors throw (the program has none); the logging
    macros, the unused declarations of the copied API headers, the floating-point
    rates the benchmarks print, and the Python evaluation script. *)

From stdpp Require Export base numbers list option gmap.
From Stdlib Require Export ZArith Lia.
From Stdlib Require Import Strings.Byte.

#[export] Set Default Goal Selector "!".
Global Open Scope Z_scope.

(** ** Machine integers

    The stack runs on a little-endian 64-bit host.  A [w]-bit unsigned integer
    is a [Z] in [[0, 2^w)]; a C conversion to a narrower or unsigned type is
    [wrap]; a conversion to a signed type is [swrap]. *)
Declare Scope word_scope.
Delimit Scope word_scope with word.

Definition wrap (w z : Z) : Z := z mod 2 ^ w.
Definition swrap (w z : Z) : Z := (z + 2 ^ (w - 1)) mod 2 ^ w - 2 ^ (w - 1).

Notation "'u8' z" := (wrap 8 z) (at level 9, z at level 9) : word_scope.
Notation "'u16' z" := (wrap 16 z) (at level 9, z at level 9) : word_scope.
Notation "'u32' z" := (wrap 32 z) (at level 9, z at level 9) : word_scope.
Notation "'u64' z" := (wrap 64 z) (at level 9, z at level 9) : word_scope.
Notation "'i32' z" := (swrap 32 z) (at level 9, z at level 9) : word_scope.
Global Open Scope word_scope.

Definition in_u (w z : Z) : Prop := 0 <= z < 2 ^ w.

#[global] Instance in_u_dec w z : Decision (in_u w z).
Proof. unfold in_u; apply _. Defined.

Create HintDb word discriminated.
Create Rewrite HintDb word.

Lemma wrap_range w z : 0 <= w -> in_u w (wrap w z).
Proof. intros; unfold in_u, wrap; apply Z.mod_pos_bound, Z.pow_pos_nonneg; lia. Qed.

Lemma wrap_small w z : in_u w z -> wrap w z = z.
Proof. intros; unfold wrap; by apply Z.mod_small. Qed.

Lemma wrap_idemp w z : 0 <= w -> wrap w (wrap w z) = wrap w z.
Proof. intros; by apply wrap_small, wrap_range. Qed.

Lemma wrap_add_l w a b : wrap w (wrap w a + b) = wrap w (a + b).
Proof. unfold wrap; apply Zplus_mod_idemp_l. Qed.

Lemma wrap_add_r w a b : wrap w (a + wrap w b) = wrap w (a + b).
Proof. unfold wrap; apply Zplus_mod_idemp_r. Qed.

Lemma swrap_small w z :
  0 < w -> - 2 ^ (w - 1) <= z < 2 ^ (w - 1) -> swrap w z = z.
Proof.
  intros Hw Hz; unfold swrap.
  assert (2 ^ w = 2 * 2 ^ (w - 1)) as Hp.
  { rewrite <- (Z.pow_succ_r 2 (w - 1)) by lia; f_equal; lia. }
  rewrite Z.mod_small by lia; lia.
Qed.

(** Conversions on the way to a sum do not matter. *)
Lemma swrap_add_l w a b : swrap w (swrap w a + b) = swrap w (a + b).
Proof.
  unfold swrap; replace ((a + 2 ^ (w - 1)) mod 2 ^ w - 2 ^ (w - 1) + b + 2 ^ (w - 1))
    with ((a + 2 ^ (w - 1)) mod 2 ^ w + b) by lia.
  rewrite Zplus_mod_idemp_l; do 2 f_equal; lia.
Qed.

(** A value at or above the sign bit becomes negative when it is stored in a
    signed variable of the same width. *)
Lemma swrap_high w z :
  0 < w -> 2 ^ (w - 1) <= z < 2 ^ w -> swrap w z = z - 2 ^ w.
Proof.
  intros Hw Hz; unfold swrap.
  assert (2 ^ w = 2 * 2 ^ (w - 1)) as Hp.
  { rewrite <- (Z.pow_succ_r 2 (w - 1)) by lia; f_equal; lia. }
  rewrite <- (Z.mod_unique (z + 2 ^ (w - 1)) (2 ^ w) 1 (z - 2 ^ (w - 1))); lia.
Qed.

#[export] Hint Resolve wrap_range : word.
#[export] Hint Rewrite wrap_add_l wrap_add_r : word.

(** Closes the arithmetic side conditions that mention [in_u], [wrap] at a
    literal width or a literal power of two. *)
Ltac pow2_cbn :=
  repeat match goal with
  | |- context [2 ^ ?w] =>
      lazymatch isZcst w with
      | true => let v := eval vm_compute in (2 ^ w) in change (2 ^ w) with v
      end
  | H : context [2 ^ ?w] |- _ =>
      lazymatch isZcst w with
      | true => let v := eval vm_compute in (2 ^ w) in change (2 ^ w) with v in H
      end
  end.
Ltac word_lia := unfold in_u in *; pow2_cbn; lia.

(** Splits a conjunctive goal and every conjunctive or existential hypothesis. *)
Ltac split_all :=
  repeat match goal with
  | H : _ ∧ _ |- _ => destruct H
  | H : ∃ _, _ |- _ => destruct H
  | |- _ ∧ _ => split
  end.

(** Case analysis on the boolean comparisons of the source's guards. *)
Ltac case_Z :=
  match goal with
  | |- context [Z.ltb ?a ?b] => destruct (Z.ltb_spec a b)
  | |- context [Z.leb ?a ?b] => destruct (Z.leb_spec a b)
  | |- context [Z.eqb ?a ?b] => destruct (Z.eqb_spec a b)
  end.
Ltac case_Z_in H :=
  match type of H with
  | context [Z.ltb ?a ?b] => destruct (Z.ltb_spec a b)
  | context [Z.leb ?a ?b] => destruct (Z.leb_spec a b)
  | context [Z.eqb ?a ?b] => destruct (Z.eqb_spec a b)
  end.

(** ** Lists with [Z] lengths *)
Definition zlen {A} (l : list A) : Z := Z.of_nat (length l).
Definition ztake {A} (n : Z) (l : list A) : list A := take (Z.to_nat n) l.
Definition zdrop {A} (n : Z) (l : list A) : list A := drop (Z.to_nat n) l.

#[global] Arguments zlen : simpl never.
#[global] Arguments ztake : simpl never.
#[global] Arguments zdrop : simpl never.
#[global] Arguments wrap : simpl never.
#[global] Arguments swrap : simpl never.

Section zlist.
Context {A : Type}.
Implicit Types l k : list A.

Lemma zlen_nonneg l : 0 <= zlen l.
Proof. unfold zlen; lia. Qed.
Lemma zlen_nil : zlen (@nil A) = 0.
Proof. done. Qed.
Lemma zlen_cons x l : zlen (x :: l) = 1 + zlen l.
Proof. unfold zlen; cbn [length]; lia. Qed.
Lemma zlen_app l k : zlen (l ++ k) = zlen l + zlen k.
Proof. unfold zlen; rewrite length_app; lia. Qed.
Lemma zlen_replicate n (x : A) : zlen (replicate n x) = Z.of_nat n.
Proof. unfold zlen; by rewrite length_replicate. Qed.
Lemma zlen_ztake n l : zlen (ztake n l) = Z.min (Z.max 0 n) (zlen l).
Proof. unfold zlen, ztake; rewrite length_take; lia. Qed.
Lemma zlen_zdrop n l : zlen (zdrop n l) = Z.max 0 (zlen l - Z.max 0 n).
Proof. unfold zlen, zdrop; rewrite length_drop; lia. Qed.
Lemma zlen_0_inv l : zlen l <= 0 -> l = [].
Proof. destruct l; [done|unfold zlen; cbn [length]; lia]. Qed.
Lemma ztake_zdrop n l : ztake n l ++ zdrop n l = l.
Proof. apply take_drop. Qed.
Lemma ztake_app_exact n l k : n = zlen l -> ztake n (l ++ k) = l.
Proof. intros ->; unfold ztake, zlen; rewrite Nat2Z.id; apply take_app_length. Qed.
Lemma zdrop_app_exact n l k : n = zlen l -> zdrop n (l ++ k) = k.
Proof. intros ->; unfold zdrop, zlen; rewrite Nat2Z.id; apply drop_app_length. Qed.
Lemma ztake_app_le n l k : n <= zlen l -> ztake n (l ++ k) = ztake n l.
Proof. unfold ztake, zlen; intros; apply take_app_le; lia. Qed.
Lemma zdrop_app_le n l k : n <= zlen l -> zdrop n (l ++ k) = zdrop n l ++ k.
Proof. unfold zdrop, zlen; intros; apply drop_app_le; lia. Qed.
Lemma ztake_ge n l : zlen l <= n -> ztake n l = l.
Proof. unfold ztake, zlen; intros; apply take_ge; lia. Qed.
Lemma zdrop_ge n l : zlen l <= n -> zdrop n l = [].
Proof. unfold zdrop, zlen; intros; apply drop_ge; lia. Qed.
Lemma ztake_nonpos n l : n <= 0 -> ztake n l = [].
Proof. intros; unfold ztake; by replace (Z.to_nat n) with 0%nat by lia. Qed.
Lemma zdrop_nonpos n l : n <= 0 -> zdrop n l = l.
Proof. intros; unfold zdrop; by replace (Z.to_nat n) with 0%nat by lia. Qed.
Lemma zdrop_zdrop n m l : 0 <= n -> 0 <= m -> zdrop n (zdrop m l) = zdrop (m + n) l.
Proof. intros; unfold zdrop; rewrite drop_drop; f_equal; lia. Qed.
Lemma ztake_add a b l :
  0 <= a -> 0 <= b -> ztake (a + b) l = ztake a l ++ ztake b (zdrop a l).
Proof.
  intros; unfold ztake, zdrop; rewrite Z2Nat.inj_add by lia.
  symmetry; apply take_take_drop.
Qed.
Lemma ztake_0 l : ztake 0 l = [].
Proof. by apply ztake_nonpos. Qed.
Lemma zdrop_0 l : zdrop 0 l = l.
Proof. by apply zdrop_nonpos. Qed.
End zlist.

Create Rewrite HintDb zlen.
#[export] Hint Rewrite @zlen_nil @zlen_cons @zlen_app @zlen_replicate
  @zlen_ztake @zlen_zdrop @length_app @length_replicate : zlen.

(** Evaluates the length of the empty list. *)
Ltac znil :=
  repeat match goal with
  | |- context [@zlen ?A []] => change (@zlen A []) with 0
  | H : context [@zlen ?A []] |- _ => change (@zlen A []) with 0 in H
  end.

(** Normalises list lengths and closes the linear goal that remains. *)
Ltac zlen_lia :=
  znil; autorewrite with zlen in *; znil;
  repeat match goal with
  | |- context [zlen ?l] =>
      lazymatch goal with
      | _ : 0 <= zlen l |- _ => fail
      | _ => pose proof (zlen_nonneg l)
      end
  | _ : context [zlen ?l] |- _ =>
      lazymatch goal with
      | _ : 0 <= zlen l |- _ => fail
      | _ => pose proof (zlen_nonneg l)
      end
  end; lia.

(** [overlay new old] is what a buffer that held [old] holds after [new] has
    been stored at its start. *)
Definition overlay {A} (new old : list A) : list A := new ++ drop (length new) old.

(** [store_at k new old] stores [new] at offset [k] of a buffer whose written
    prefix is [old]. *)
Definition store_at {A} (k : Z) (new old : list A) : list A :=
  ztake k old ++ new ++ zdrop (k + zlen new) old.

Section overlay.
Context {A : Type}.
Implicit Types new old l : list A.

Lemma overlay_full new old : (length old <= length new)%nat -> overlay new old = new.
Proof. intros; unfold overlay; rewrite drop_ge by lia; apply app_nil_r. Qed.

Lemma length_overlay new old :
  (length new <= length old)%nat -> length (overlay new old) = length old.
Proof. intros; unfold overlay; rewrite length_app, length_drop; lia. Qed.

Lemma store_at_end new old : store_at (zlen old) new old = old ++ new.
Proof.
  unfold store_at; rewrite ztake_ge by lia.
  rewrite zdrop_ge by zlen_lia; by rewrite app_nil_r.
Qed.
End overlay.

(** ** Sums and folds over the pieces of a message *)
Definition sum_zlen {A} (ls : list (list A)) : Z := zlen (concat ls).

Lemma sum_zlen_cons {A} (l : list A) ls : sum_zlen (l :: ls) = zlen l + sum_zlen ls.
Proof. unfold sum_zlen; cbn [concat]; apply zlen_app. Qed.

(** The loops of the source that accumulate lengths in a fixed-width variable. *)
Lemma fold_wrap_add {A} w (ls : list (list A)) acc :
  fold_left (fun a l => wrap w (a + zlen l)) ls (wrap w acc) = wrap w (acc + sum_zlen ls).
Proof.
  revert acc; induction ls as [|l ls IH]; intros acc; cbn [fold_left].
  - unfold sum_zlen; cbn [concat]; rewrite zlen_nil; f_equal; lia.
  - rewrite wrap_add_l, IH, sum_zlen_cons; f_equal; lia.
Qed.

(** ** Outcomes *)

(** A piece of thread code finishes, waits for the socket for ever, stops at a
    failed [assert] or in [abort], or has no defined behaviour (it uses an object
    that does not exist any more, or the value of a function that returned none). *)
Inductive run (A : Type) := Done (a : A) | Blocked | Aborted | Undefined.
Arguments Done {A} _.
Arguments Blocked {A}.
Arguments Aborted {A}.
Arguments Undefined {A}.

#[global] Instance run_ret : MRet run := @Done.
#[global] Instance run_bind : MBind run := fun A B f r =>
  match r with Done a => f a | Blocked => Blocked | Aborted => Aborted | Undefined => Undefined end.

(** A pointer that must designate a live object; a call that may not return. *)
Definition deref {A} (o : option A) : run A :=
  match o with Some a => Done a | None => Undefined end.
Definition returns {A} (o : option A) : run A :=
  match o with Some a => Done a | None => Blocked end.

Lemma bind_Done {A B} (f : A -> run B) a : (Done a ≫= f) = f a.
Proof. done. Qed.
Lemma bind_Done_inv {A B} (f : A -> run B) r b :
  (r ≫= f) = Done b -> exists a, r = Done a /\ f a = Done b.
Proof. destruct r; [by eauto|done..]. Qed.

(** Partial correctness of a [run]: whatever it returns satisfies [Q]. *)
Definition ensures {A} (r : run A) (Q : A -> Prop) : Prop := forall a, r = Done a -> Q a.

Lemma ensures_ret {A} (a : A) (Q : A -> Prop) : Q a -> ensures (mret a) Q.
Proof. by intros H b [= <-]. Qed.
Lemma ensures_bind {A B} (r : run A) (k : A -> run B) (Q : B -> Prop) :
  ensures r (fun a => ensures (k a) Q) -> ensures (r ≫= k) Q.
Proof. intros H b (a & Ha & Hb)%bind_Done_inv; exact (H a Ha b Hb). Qed.
Lemma ensures_true {A} (r : run A) (Q : A -> Prop) : (forall a, Q a) -> ensures r Q.
Proof. intros H a _; apply H. Qed.
Lemma ensures_weaken {A} (r : run A) (Q R : A -> Prop) : ensures r Q -> (forall a, Q a -> R a) -> ensures r R.
Proof. intros H HR a Ha; by apply HR, H. Qed.
Lemma ensures_deref {A} (o : option A) (Q : A -> Prop) : (forall a, o = Some a -> Q a) -> ensures (deref o) Q.
Proof. intros H a Ha; destruct o; [|done]; by injection Ha as ->; apply H. Qed.
