(* ===== verification/Endian.v ===== *)
(** * Bytes, byte order and packed layouts

    Bytes on the wire and in memory, the little-endian representation of the
    host's integers, and the byte-order conversions the stack uses:
    [htons]/[htonl] of libc, and the [htonll]/[ntohll] macros of
    [common/common.h]. *)

From Stdlib Require Import Strings.Byte.
From S2P Require Import Prelude.

Abbreviation byte := Byte.byte.

#[global] Instance byte_eq_dec : EqDecision byte := Byte.byte_eq_dec.
#[global] Instance byte_inhabited : Inhabited byte := populate x00.

Definition byte_Z (b : byte) : Z := Z.of_N (Byte.to_N b).
Definition Z_byte (z : Z) : byte :=
  match Byte.of_N (Z.to_N (z mod 256)) with Some b => b | None => x00 end.

Lemma byte_Z_range b : 0 <= byte_Z b < 256.
Proof. pose proof (Byte.to_N_bounded b); unfold byte_Z; lia. Qed.

Lemma Z_byte_Z b : Z_byte (byte_Z b) = b.
Proof.
  unfold Z_byte; rewrite Z.mod_small by apply byte_Z_range.
  unfold byte_Z; by rewrite N2Z.id, Byte.of_to_N.
Qed.

Lemma byte_Z_byte z : byte_Z (Z_byte z) = z mod 256.
Proof.
  unfold Z_byte, byte_Z.
  pose proof (Z.mod_pos_bound z 256 ltac:(lia)).
  destruct (Byte.of_N _) eqn:E.
  - apply Byte.to_of_N in E; rewrite E, Z2N.id; lia.
  - apply Byte.of_N_None_iff in E; lia.
Qed.

Lemma Z_byte_mod z : Z_byte (z mod 256) = Z_byte z.
Proof. unfold Z_byte; by rewrite Z.mod_mod. Qed.

#[global] Instance byte_Z_inj : Inj (=) (=) byte_Z.
Proof. intros a b E; by rewrite <- (Z_byte_Z a), E, Z_byte_Z. Qed.

(** ** Little-endian integers *)
Fixpoint le_bytes (n : nat) (z : Z) : list byte :=
  match n with
  | O => []
  | S n => Z_byte z :: le_bytes n (z / 256)
  end.

Fixpoint le_Z (bs : list byte) : Z :=
  match bs with
  | [] => 0
  | b :: bs => byte_Z b + 256 * le_Z bs
  end.

Definition be_bytes (n : nat) (z : Z) : list byte := rev (le_bytes n z).
Definition be_Z (bs : list byte) : Z := le_Z (rev bs).

Lemma length_le_bytes n z : length (le_bytes n z) = n.
Proof. revert z; induction n; intros; cbn; auto. Qed.

Lemma length_be_bytes n z : length (be_bytes n z) = n.
Proof. unfold be_bytes; by rewrite length_rev, length_le_bytes. Qed.

Lemma zlen_le_bytes n z : zlen (le_bytes n z) = Z.of_nat n.
Proof. unfold zlen; by rewrite length_le_bytes. Qed.
Lemma zlen_be_bytes n z : zlen (be_bytes n z) = Z.of_nat n.
Proof. unfold zlen; by rewrite length_be_bytes. Qed.
#[export] Hint Rewrite length_le_bytes length_be_bytes zlen_le_bytes zlen_be_bytes : zlen.

Lemma pow_256_succ n : 2 ^ (8 * Z.of_nat (S n)) = 256 * 2 ^ (8 * Z.of_nat n).
Proof.
  replace (8 * Z.of_nat (S n)) with (8 + 8 * Z.of_nat n) by lia.
  rewrite Z.pow_add_r by lia; done.
Qed.

Lemma le_Z_range bs : 0 <= le_Z bs < 2 ^ (8 * Z.of_nat (length bs)).
Proof.
  induction bs as [|b bs IH]; [cbn; lia|].
  cbn [le_Z length]; rewrite pow_256_succ; pose proof (byte_Z_range b); lia.
Qed.

Lemma le_Z_bytes n z : le_Z (le_bytes n z) = wrap (8 * Z.of_nat n) z.
Proof.
  revert z; induction n as [|n IH]; intros z; cbn [le_bytes le_Z].
  - unfold wrap; by rewrite Z.mod_1_r.
  - rewrite IH, byte_Z_byte; unfold wrap; rewrite pow_256_succ.
    rewrite Z.rem_mul_r; [lia|lia|].
    pose proof (Z.pow_pos_nonneg 2 (8 * Z.of_nat n)); lia.
Qed.

Lemma le_bytes_Z bs : le_bytes (length bs) (le_Z bs) = bs.
Proof.
  induction bs as [|b bs IH]; [done|]; cbn [length le_Z le_bytes].
  pose proof (byte_Z_range b).
  rewrite <- Z_byte_mod, Z.mul_comm, Z.mod_add, (Z.mod_small (byte_Z b)), Z_byte_Z by lia.
  rewrite Z.div_add, Z.div_small, Z.add_0_l by lia; by rewrite IH.
Qed.

Lemma le_bytes_Z_eq n bs : length bs = n -> le_bytes n (le_Z bs) = bs.
Proof. intros <-; apply le_bytes_Z. Qed.

Lemma be_Z_bytes n z : be_Z (be_bytes n z) = wrap (8 * Z.of_nat n) z.
Proof. unfold be_Z, be_bytes; by rewrite rev_involutive, le_Z_bytes. Qed.

(** A packed struct member of [n] bytes: the member, then the rest. *)
Definition get_le (n : nat) (bs : list byte) : Z * list byte :=
  (le_Z (take n bs), drop n bs).

Lemma get_le_bytes n z rest :
  get_le n (le_bytes n z ++ rest) = (wrap (8 * Z.of_nat n) z, rest).
Proof.
  unfold get_le.
  rewrite take_app_length', drop_app_length' by (symmetry; apply length_le_bytes).
  by rewrite le_Z_bytes.
Qed.

(** ** Byte order conversions

    On a little-endian host [htons], [htonl] (and [ntohs], [ntohl], which are
    the same functions) reverse the bytes of their argument. *)
Definition swap (n : nat) (z : Z) : Z := le_Z (be_bytes n z).
Definition htons (z : Z) : Z := swap 2 z.
Definition ntohs (z : Z) : Z := swap 2 z.
Definition htonl (z : Z) : Z := swap 4 z.
Definition ntohl (z : Z) : Z := swap 4 z.

(** The macros of [common.h], which build the 64-bit conversions out of the
    32-bit ones.  The cast to [uint64_t] is on the first operand only; the
    argument of each [htonl] is converted to 32 bits by its parameter type. *)
Definition htonll (x : Z) : Z :=
  Z.lor (u64 (Z.shiftl (htonl (Z.land x 0xFFFFFFFF)) 32)) (htonl (u32 (Z.shiftr x 32))).
Definition ntohll (x : Z) : Z :=
  Z.lor (u64 (Z.shiftl (ntohl (Z.land x 0xFFFFFFFF)) 32)) (ntohl (u32 (Z.shiftr x 32))).

Lemma swap_range n z : in_u (8 * Z.of_nat n) (swap n z).
Proof.
  unfold in_u, swap; pose proof (le_Z_range (be_bytes n z)) as H.
  by rewrite length_be_bytes in H.
Qed.

Lemma le_bytes_swap n z : le_bytes n (swap n z) = be_bytes n z.
Proof. unfold swap; apply le_bytes_Z_eq, length_be_bytes. Qed.

Lemma swap_involutive n z : swap n (swap n z) = wrap (8 * Z.of_nat n) z.
Proof.
  unfold swap at 1; unfold be_bytes; rewrite le_bytes_swap.
  unfold be_bytes; rewrite rev_involutive; apply le_Z_bytes.
Qed.

Lemma le_bytes_app n m z :
  le_bytes (n + m) z = le_bytes n z ++ le_bytes m (z / 2 ^ (8 * Z.of_nat n)).
Proof.
  revert z; induction n as [|n IH]; intros z.
  - cbn [Nat.add le_bytes app]; by rewrite Z.div_1_r.
  - cbn [Nat.add le_bytes app]; rewrite IH, pow_256_succ, Z.div_div; [done|lia|].
    apply Z.pow_pos_nonneg; lia.
Qed.

Lemma le_bytes_wrap n z : le_bytes n (wrap (8 * Z.of_nat n) z) = le_bytes n z.
Proof. rewrite <- le_Z_bytes; apply le_bytes_Z_eq, length_le_bytes. Qed.

(** A high part shifted clear of a low part: [lor] is addition. *)
Lemma lor_shiftl_add a b w :
  0 <= w -> in_u w b -> Z.lor (Z.shiftl a w) b = a * 2 ^ w + b.
Proof.
  intros Hw Hb.
  assert (Z.land (Z.shiftl a w) b = 0) as Hl.
  { apply Z.bits_inj'; intros i Hi; rewrite Z.land_spec, Z.bits_0.
    destruct (Z.lt_ge_cases i w).
    - by rewrite Z.shiftl_spec_low.
    - rewrite <- (Z.mod_small b (2 ^ w)) by exact Hb.
      rewrite Z.mod_pow2_bits_high by lia; apply andb_false_r. }
  rewrite <- Z.lxor_lor, <- Z.add_nocarry_lxor by done.
  by rewrite Z.shiftl_mul_pow2.
Qed.

(** The macro reverses all eight bytes. *)
Lemma htonll_swap x : htonll x = swap 8 x.
Proof.
  unfold htonll, htonl.
  assert (in_u 32 (swap 4 (Z.land x 4294967295))) as Ha by apply (swap_range 4).
  assert (in_u 32 (swap 4 (u32 (Z.shiftr x 32)))) as Hb by apply (swap_range 4).
  rewrite wrap_small by (rewrite Z.shiftl_mul_pow2 by lia; word_lia).
  rewrite lor_shiftl_add by (lia || done).
  change 4294967295 with (Z.ones 32); rewrite Z.land_ones, Z.shiftr_div_pow2 by lia.
  unfold swap, be_bytes.
  change (x mod 2 ^ 32) with (wrap (8 * Z.of_nat 4) x).
  change (u32 (x / 2 ^ 32)) with (wrap (8 * Z.of_nat 4) (x / 2 ^ 32)).
  rewrite !le_bytes_wrap.
  change (le_bytes 8 x) with (le_bytes (4 + 4) x).
  rewrite (le_bytes_app 4 4 x), rev_app_distr.
  change (8 * Z.of_nat 4) with 32.
  cbn [le_bytes rev app le_Z]; ring.
Qed.

Lemma ntohll_swap x : ntohll x = swap 8 x.
Proof. apply htonll_swap. Qed.

(** Round trips between host and network order, at each width. *)
Lemma ntohs_htons z : ntohs (htons z) = u16 z.
Proof. apply (swap_involutive 2). Qed.
Lemma ntohl_htonl z : ntohl (htonl z) = u32 z.
Proof. apply (swap_involutive 4). Qed.
Lemma ntohll_htonll z : ntohll (htonll z) = u64 z.
Proof. rewrite ntohll_swap, htonll_swap; apply (swap_involutive 8). Qed.

Lemma ntohs_range z : in_u 16 (ntohs z).
Proof. apply (swap_range 2). Qed.
Lemma ntohl_range z : in_u 32 (ntohl z).
Proof. apply (swap_range 4). Qed.
Lemma ntohll_range z : in_u 64 (ntohll z).
Proof. rewrite ntohll_swap; apply (swap_range 8). Qed.

#[export] Hint Rewrite ntohs_htons ntohl_htonl ntohll_htonll : word.
#[export] Hint Resolve ntohs_range ntohl_range ntohll_range : word.

(** ** Fixed-size codecs

    A C struct that crosses the wire is sent as its object representation.
    [Codec T n] is what the layers above rely on: an [n]-byte layout from which
    every field can be read back, whatever follows it in the stream. *)
Class Codec (T : Type) (n : nat) := {
  wf_codec : T -> Prop;
  encode : T -> list byte;
  decode : list byte -> T;
  length_encode : forall x, length (encode x) = n;
  decode_encode : forall x rest, wf_codec x -> decode (encode x ++ rest) = x
}.

Lemma decode_encode_nil {T n} `{Codec T n} (x : T) : wf_codec x -> decode (encode x) = x.
Proof. intros; rewrite <- (app_nil_r (encode x)); by apply decode_encode. Qed.

Lemma encode_inj {T n} `{Codec T n} (x y : T) :
  wf_codec x -> wf_codec y -> encode x = encode y -> x = y.
Proof. intros Hx Hy E; by rewrite <- (decode_encode_nil x), E, decode_encode_nil. Qed.

(** ** Bits of swapped integers

    Masks and fields of the protocol headers are written in network order, so
    the accessors of [common.h] mix [&], [|], [~] with byte swaps.  A swap
    permutes the bits, hence commutes with the bitwise operators. *)
Lemma testbit_le_Z bs i :
  0 <= i ->
  Z.testbit (le_Z bs) i =
    match bs !! Z.to_nat (i / 8) with
    | Some b => Z.testbit (byte_Z b) (i mod 8)
    | None => false
    end.
Proof.
  revert i; induction bs as [|b bs IH]; intros i Hi.
  - cbn [le_Z]; rewrite lookup_nil; apply Z.bits_0.
  - cbn [le_Z].
    replace (byte_Z b + 256 * le_Z bs) with (Z.lor (Z.shiftl (le_Z bs) 8) (byte_Z b)).
    2:{ pose proof (byte_Z_range b); rewrite lor_shiftl_add by word_lia; word_lia. }
    rewrite Z.lor_spec; destruct (Z.lt_ge_cases i 8).
    + rewrite Z.shiftl_spec_low, (Z.div_small i 8), (Z.mod_small i 8) by lia; done.
    + rewrite Z.shiftl_spec, IH by lia.
      replace (i - 8) with (i + (-1) * 8) by lia.
      rewrite Z.div_add, Z.mod_add by lia.
      assert (1 <= i / 8) by (apply Z.div_le_lower_bound; lia).
      replace (Z.to_nat (i / 8)) with (S (Z.to_nat (i / 8 + -1))) by lia.
      cbn [lookup list_lookup].
      assert (Z.testbit (byte_Z b) i = false) as ->.
      { rewrite <- (Z.mod_small (byte_Z b) (2 ^ 8)) by apply byte_Z_range.
        by apply Z.mod_pow2_bits_high. }
      apply orb_false_r.
Qed.

Lemma lookup_le_bytes n z k :
  (k < n)%nat -> le_bytes n z !! k = Some (Z_byte (Z.shiftr z (8 * Z.of_nat k))).
Proof.
  revert z k; induction n as [|n IH]; intros z k Hk; [lia|].
  destruct k as [|k]; cbn [le_bytes lookup list_lookup].
  - by rewrite Z.shiftr_0_r.
  - change (list_lookup k (le_bytes n (z / 256))) with (le_bytes n (z / 256) !! k).
    rewrite IH by lia; do 2 f_equal.
    change 256 with (2 ^ 8); rewrite <- Z.shiftr_div_pow2, Z.shiftr_shiftr by lia.
    f_equal; lia.
Qed.

Lemma testbit_Z_byte z j : 0 <= j < 8 -> Z.testbit (byte_Z (Z_byte z)) j = Z.testbit z j.
Proof. intros; rewrite byte_Z_byte; change 256 with (2 ^ 8); apply Z.mod_pow2_bits_low; lia. Qed.

Lemma testbit_swap n z i :
  0 <= i < 8 * Z.of_nat n ->
  Z.testbit (swap n z) i = Z.testbit z (8 * (Z.of_nat n - 1 - i / 8) + i mod 8).
Proof.
  intros Hi; unfold swap; rewrite testbit_le_Z by lia.
  assert (0 <= i / 8 < Z.of_nat n)
    by (split; [apply Z.div_pos|apply Z.div_lt_upper_bound]; lia).
  pose proof (Z.mod_pos_bound i 8 ltac:(lia)).
  unfold be_bytes.
  rewrite rev_alt; change (rev_append ?l []) with (reverse l).
  rewrite reverse_lookup; rewrite length_le_bytes; [|lia].
  rewrite lookup_le_bytes by lia.
  rewrite testbit_Z_byte, Z.shiftr_spec by lia.
  f_equal; lia.
Qed.

Lemma testbit_swap_high n z i : 8 * Z.of_nat n <= i -> Z.testbit (swap n z) i = false.
Proof.
  intros; rewrite <- (Z.mod_small (swap n z) (2 ^ (8 * Z.of_nat n))) by apply swap_range.
  apply Z.mod_pow2_bits_high; lia.
Qed.

Ltac swap_bits :=
  apply Z.bits_inj'; intros i Hi;
  lazymatch goal with
  | |- context [swap ?n _] =>
      destruct (Z.lt_ge_cases i (8 * Z.of_nat n));
      [|by rewrite ?Z.land_spec, ?Z.lor_spec, !testbit_swap_high by done]
  end;
  assert (0 <= i mod 8) by (apply Z.mod_pos_bound; lia);
  rewrite ?Z.land_spec, ?Z.lor_spec, !testbit_swap by lia;
  rewrite ?Z.land_spec, ?Z.lor_spec; done.

Lemma swap_land n a b : swap n (Z.land a b) = Z.land (swap n a) (swap n b).
Proof. swap_bits. Qed.
Lemma swap_lor n a b : swap n (Z.lor a b) = Z.lor (swap n a) (swap n b).
Proof. swap_bits. Qed.

Lemma swap_land_lnot n a m :
  swap n (Z.land a (Z.lnot m)) = Z.land (swap n a) (Z.lnot (swap n m)).
Proof.
  apply Z.bits_inj'; intros i Hi; rewrite Z.land_spec.
  destruct (Z.lt_ge_cases i (8 * Z.of_nat n)).
  - assert (0 <= i mod 8) by (apply Z.mod_pos_bound; lia).
    assert (i / 8 < Z.of_nat n) by (apply Z.div_lt_upper_bound; lia).
    rewrite Z.lnot_spec by lia; rewrite !testbit_swap by lia.
    by rewrite Z.land_spec, Z.lnot_spec by lia.
  - by rewrite !testbit_swap_high by done.
Qed.

(** ** Bit fields

    [field_get s k x] is the [k]-bit field at bit [s]; [field_set] replaces it. *)
Definition field_mask (s k : Z) : Z := Z.shiftl (Z.ones k) s.
Definition field_get (s k x : Z) : Z := Z.shiftr (Z.land x (field_mask s k)) s.
Definition field_set (s k x v : Z) : Z :=
  Z.lor (Z.land x (Z.lnot (field_mask s k))) (Z.land (Z.shiftl v s) (field_mask s k)).

Lemma testbit_field_mask s k i :
  0 <= s -> 0 <= k -> 0 <= i ->
  Z.testbit (field_mask s k) i = bool_decide (s <= i < s + k).
Proof.
  intros; unfold field_mask; rewrite Z.shiftl_spec by lia.
  rewrite Z.testbit_ones by lia; case_bool_decide; lia.
Qed.

Ltac field_bits :=
  apply Z.bits_inj'; intros i Hi; unfold field_get, field_set;
  rewrite ?Z.shiftr_spec, ?Z.land_spec, ?Z.lor_spec, ?Z.land_spec, ?Z.lnot_spec,
    ?Z.shiftl_spec, ?testbit_field_mask by lia;
  repeat case_bool_decide; try lia; cbn [negb].

Lemma field_get_set s k x v :
  0 <= s -> 0 <= k -> field_get s k (field_set s k x v) = wrap k v.
Proof.
  intros; field_bits; rewrite ?andb_false_r, ?andb_true_r.
  - rewrite orb_false_l; unfold wrap; rewrite Z.mod_pow2_bits_low by lia; f_equal; lia.
  - unfold wrap; rewrite Z.mod_pow2_bits_high by lia; done.
Qed.

Lemma field_get_set_other s k s' k' x v :
  0 <= s -> 0 <= k -> 0 <= s' -> 0 <= k' -> (s + k <= s' \/ s' + k' <= s) ->
  field_get s' k' (field_set s k x v) = field_get s' k' x.
Proof.
  intros; field_bits; rewrite ?andb_false_r, ?andb_true_r, ?orb_false_r; done.
Qed.

Lemma field_get_shift s k x : 0 <= s -> 0 <= k -> field_get s k x = wrap k (Z.shiftr x s).
Proof.
  intros; field_bits; rewrite ?andb_false_r, ?andb_true_r.
  - unfold wrap; rewrite Z.mod_pow2_bits_low, Z.shiftr_spec by lia; done.
  - unfold wrap; rewrite Z.mod_pow2_bits_high by lia; done.
Qed.
