(* ===== verification/Format.v ===== *)
(** * What the program uses of [snprintf]

    Decimal integers, and strings of known or bounded length, as bytes. *)

From Stdlib Require Import String.
From S2P Require Import Prelude Endian.

(** [%d]: the decimal digits, most significant first; 11 digits are enough for an
    [int]. *)
Fixpoint digits (fuel : nat) (z : Z) (acc : list byte) : list byte :=
  match fuel with
  | O => acc
  | S fuel =>
      let acc := Z_byte (48 + z mod 10) :: acc in
      if z <? 10 then acc else digits fuel (z / 10) acc
  end.
Definition print_int (z : Z) : list byte :=
  if z <? 0 then Z_byte 45 :: digits 11 (- z) [] else digits 11 z [].

(** A string of the program, without its terminator. *)
Definition text (s : string) : list byte := list_byte_of_string s.

(** [%.*s]: at most [n] bytes, up to a NUL. *)
Fixpoint print_str (n : nat) (bs : list byte) : list byte :=
  match n, bs with
  | S n, b :: bs => if decide (b = Z_byte 0) then [] else b :: print_str n bs
  | _, _ => []
  end.

(** [snprintf(buf, size, ...)]: what is stored, with the final NUL; a text that
    does not fit is cut. *)
Definition snprintf (size : Z) (bs : list byte) : list byte := ztake (size - 1) bs ++ [Z_byte 0].

Definition dec_value (a : Z) (bs : list byte) : Z :=
  fold_left (fun a b => 10 * a + (byte_Z b - 48)) bs a.

Lemma digits_spec fuel k z acc :
  0 <= z < 10 ^ Z.of_nat k -> (0 < k <= fuel)%nat ->
  (length (digits fuel z acc) <= k + length acc)%nat /\
  dec_value 0 (digits fuel z acc) = dec_value z acc.
Proof.
  revert k z acc; induction fuel as [|fuel IH]; intros k z acc Hz Hk; [lia|]; cbn [digits].
  assert (byte_Z (Z_byte (48 + z mod 10)) - 48 = z mod 10) as Hb.
  { pose proof (Z.mod_pos_bound z 10); rewrite byte_Z_byte, Z.mod_small; lia. }
  destruct (Z.ltb_spec z 10) as [H|H].
  - split; [cbn [length]; lia|]; unfold dec_value; cbn [fold_left]; rewrite Hb.
    f_equal; rewrite Z.mod_small by lia; lia.
  - destruct k as [|[|k]]; [lia|change (Z.of_nat 1) with 1 in Hz; lia|].
    destruct (IH (S k) (z / 10) (Z_byte (48 + z mod 10) :: acc)) as [H1 H2].
    + rewrite (Nat2Z.inj_succ (S k)), Z.pow_succ_r in Hz by lia.
      split; [apply Z.div_pos; lia|apply Z.div_lt_upper_bound; lia].
    + lia.
    + split; [cbn [length] in H1; lia|]; rewrite H2; unfold dec_value; cbn [fold_left].
      rewrite Hb; f_equal; symmetry; apply Z.div_mod; lia.
Qed.

Lemma print_int_spec z :
  0 <= z < 2 ^ 31 -> (length (print_int z) <= 10)%nat /\ dec_value 0 (print_int z) = z.
Proof.
  intros Hz; unfold print_int; destruct (Z.ltb_spec z 0); [lia|].
  destruct (digits_spec 11 10 z []) as [H1 H2]; [cbn; lia|lia|].
  by rewrite Nat.add_0_r in H1.
Qed.

Lemma length_print_str n bs : (length (print_str n bs) <= n)%nat.
Proof.
  revert bs; induction n as [|n IH]; intros [|b bs]; cbn; try lia.
  case_decide; cbn; [lia|]; specialize (IH bs); lia.
Qed.

Lemma print_str_full bs : Forall (fun b => b <> Z_byte 0) bs -> print_str (length bs) bs = bs.
Proof.
  induction 1 as [|b bs Hb _ IH]; cbn; [done|]; rewrite decide_False by done; by f_equal.
Qed.
