(* ===== verification/Wire.v ===== *)
(** * iWARP headers ([common/common.h])

    The enumerations, header structs and bit-field accessors every layer of the
    stack shares.  Values tagged [__be16]/[__be32] are kept as the host integer
    the C code sees, that is byte-swapped on the little-endian host. *)

From S2P Require Import Prelude Endian.

(** [__cpu_to_be16] and [__cpu_to_be32] convert their argument to the parameter
    type before swapping. *)
Definition cpu_to_be16 (z : Z) : Z := htons (u16 z).
Definition be16_to_cpu (z : Z) : Z := ntohs (u16 z).
Definition cpu_to_be32 (z : Z) : Z := htonl (u32 z).
Definition be32_to_cpu (z : Z) : Z := ntohl (u32 z).

(** ** Constants *)
Definition RDMAP_VERSION : Z := 1.
Definition DDP_VERSION : Z := 1.
Definition MPA_REVISION_1 : Z := 1.
Definition MPA_REVISION_2 : Z := 2.
Definition MPA_MAX_PRIVDATA : Z := 256.
Definition MPA_IRD_ORD_MASK : Z := 0x3fff.
Definition MPA_RR_KEY_LEN : nat := 16.

(** ** MPA request/reply header *)
Record mpa_rr_params := { rr_bits : Z; rr_pd_len : Z }.

Definition MPA_RR_FLAG_MARKERS : Z := cpu_to_be16 0x8000.
Definition MPA_RR_FLAG_CRC : Z := cpu_to_be16 0x4000.
Definition MPA_RR_FLAG_REJECT : Z := cpu_to_be16 0x2000.
Definition MPA_RR_FLAG_ENHANCED : Z := cpu_to_be16 0x1000.
Definition MPA_RR_RESERVED : Z := cpu_to_be16 0x0f00.
Definition MPA_RR_MASK_REVISION : Z := cpu_to_be16 0x00ff.

Record mpa_rr := { rr_key : list byte; rr_params : mpa_rr_params }.

(** [bits] is replaced by its value with the revision field set. *)
Definition mpa_rr_set_revision (bits rev : Z) : Z :=
  u16 (Z.lor (Z.land bits (Z.lnot MPA_RR_MASK_REVISION))
             (Z.land (cpu_to_be16 rev) MPA_RR_MASK_REVISION)).

Definition mpa_rr_revision (mpa_rr_bits : Z) : Z :=
  let rev := u16 (Z.land mpa_rr_bits MPA_RR_MASK_REVISION) in
  u8 (be16_to_cpu rev).

Inductive mpa_v2_ctrl :=
| MPA_V2_PEER_TO_PEER | MPA_V2_ZERO_LENGTH_RTR | MPA_V2_RDMA_WRITE_RTR
| MPA_V2_RDMA_READ_RTR | MPA_V2_RDMA_NO_RTR | MPA_V2_MASK_IRD_ORD.

Definition mpa_v2_ctrl_val (c : mpa_v2_ctrl) : Z :=
  match c with
  | MPA_V2_PEER_TO_PEER => cpu_to_be16 0x8000
  | MPA_V2_ZERO_LENGTH_RTR => cpu_to_be16 0x4000
  | MPA_V2_RDMA_WRITE_RTR => cpu_to_be16 0x8000
  | MPA_V2_RDMA_READ_RTR => cpu_to_be16 0x4000
  | MPA_V2_RDMA_NO_RTR => cpu_to_be16 0x0000
  | MPA_V2_MASK_IRD_ORD => cpu_to_be16 0x3fff
  end.

Record mpa_v2_data := { v2_ird : Z; v2_ord : Z }.
Record mpa_marker := { mk_rsvd : Z; mk_fpdu_hmd : Z }.
Record mpa_trailer := { tr_pad : list byte; tr_crc : Z }.

(** ** The DDP/RDMAP control word *)
Record iwarp_ctrl := { ic_mpa_len : Z; ic_ddp_rdmap_ctrl : Z }.

Definition DDP_FLAG_TAGGED : Z := cpu_to_be16 0x8000.
Definition DDP_FLAG_LAST : Z := cpu_to_be16 0x4000.
Definition DDP_MASK_RESERVED : Z := cpu_to_be16 0x3C00.
Definition DDP_MASK_VERSION : Z := cpu_to_be16 0x0300.
Definition RDMAP_MASK_VERSION : Z := cpu_to_be16 0x00C0.
Definition RDMAP_MASK_RESERVED : Z := cpu_to_be16 0x0030.
Definition RDMAP_MASK_OPCODE : Z := cpu_to_be16 0x000f.

Definition set_ddp_rdmap_ctrl (c : iwarp_ctrl) (v : Z) : iwarp_ctrl :=
  {| ic_mpa_len := ic_mpa_len c; ic_ddp_rdmap_ctrl := u16 v |}.

Definition ddp_version (ctrl : iwarp_ctrl) : Z :=
  u8 (Z.shiftr (be16_to_cpu (Z.land (ic_ddp_rdmap_ctrl ctrl) DDP_MASK_VERSION)) 8).

Definition ddp_set_version (ctrl : iwarp_ctrl) (version : Z) : iwarp_ctrl :=
  set_ddp_rdmap_ctrl ctrl
    (Z.lor (Z.land (ic_ddp_rdmap_ctrl ctrl) (Z.lnot DDP_MASK_VERSION))
           (Z.land (cpu_to_be16 (Z.shiftl version 8)) DDP_MASK_VERSION)).

Definition rdmap_version (ctrl : iwarp_ctrl) : Z :=
  let ver := u16 (Z.land (ic_ddp_rdmap_ctrl ctrl) RDMAP_MASK_VERSION) in
  u8 (Z.shiftr (be16_to_cpu ver) 6).

Definition rdmap_set_version (ctrl : iwarp_ctrl) (version : Z) : iwarp_ctrl :=
  set_ddp_rdmap_ctrl ctrl
    (Z.lor (Z.land (ic_ddp_rdmap_ctrl ctrl) (Z.lnot RDMAP_MASK_VERSION))
           (Z.land (cpu_to_be16 (Z.shiftl version 6)) RDMAP_MASK_VERSION)).

Definition rdma_opcode_of (ctrl : iwarp_ctrl) : Z :=
  u8 (be16_to_cpu (Z.land (ic_ddp_rdmap_ctrl ctrl) RDMAP_MASK_OPCODE)).

Definition rdmap_set_opcode (ctrl : iwarp_ctrl) (opcode : Z) : iwarp_ctrl :=
  set_ddp_rdmap_ctrl ctrl
    (Z.lor (Z.land (ic_ddp_rdmap_ctrl ctrl) (Z.lnot RDMAP_MASK_OPCODE))
           (Z.land (cpu_to_be16 opcode) RDMAP_MASK_OPCODE)).

(** ** Full headers, as the common header lays them out *)
Record iwarp_rdma_write := { iw_ctrl : iwarp_ctrl; iw_sink_stag : Z; iw_sink_to : Z }.

Record iwarp_rdma_rreq := {
  irq_ctrl : iwarp_ctrl; irq_rsvd : Z; irq_ddp_qn : Z; irq_ddp_msn : Z; irq_ddp_mo : Z;
  irq_sink_stag : Z; irq_sink_to : Z; irq_read_size : Z; irq_source_stag : Z; irq_source_to : Z
}.

Record iwarp_rdma_rresp := { irp_ctrl : iwarp_ctrl; irp_sink_stag : Z; irp_sink_to : Z }.

Record iwarp_send := {
  is_ctrl : iwarp_ctrl; is_rsvd : Z; is_ddp_qn : Z; is_ddp_msn : Z; is_ddp_mo : Z }.

Record iwarp_send_inv := {
  isi_ctrl : iwarp_ctrl; isi_inval_stag : Z; isi_ddp_qn : Z; isi_ddp_msn : Z; isi_ddp_mo : Z }.

Record iwarp_terminate := {
  it_ctrl : iwarp_ctrl; it_rsvd : Z; it_ddp_qn : Z; it_ddp_msn : Z; it_ddp_mo : Z;
  it_term_ctrl : Z }.

Definition RDMAP_TERM_MASK_LAYER : Z := cpu_to_be32 0xf0000000.
Definition RDMAP_TERM_MASK_ETYPE : Z := cpu_to_be32 0x0f000000.
Definition RDMAP_TERM_MASK_ECODE : Z := cpu_to_be32 0x00ff0000.
Definition RDMAP_TERM_FLAG_M : Z := cpu_to_be32 0x00008000.
Definition RDMAP_TERM_FLAG_D : Z := cpu_to_be32 0x00004000.
Definition RDMAP_TERM_FLAG_R : Z := cpu_to_be32 0x00002000.
Definition RDMAP_TERM_MASK_RESVD : Z := cpu_to_be32 0x00001fff.

Definition rdmap_term_layer (ctrl : iwarp_terminate) : Z :=
  u8 (Z.shiftr (be32_to_cpu (Z.land (it_term_ctrl ctrl) RDMAP_TERM_MASK_LAYER)) 28).
Definition rdmap_term_etype (ctrl : iwarp_terminate) : Z :=
  u8 (Z.shiftr (be32_to_cpu (Z.land (it_term_ctrl ctrl) RDMAP_TERM_MASK_ETYPE)) 24).
Definition rdmap_term_ecode (ctrl : iwarp_terminate) : Z :=
  u8 (Z.shiftr (be32_to_cpu (Z.land (it_term_ctrl ctrl) RDMAP_TERM_MASK_ECODE)) 20).

Record iwarp_ctrl_untagged := {
  iu_ctrl : iwarp_ctrl; iu_rsvd : Z; iu_ddp_qn : Z; iu_ddp_msn : Z; iu_ddp_mo : Z }.

Record iwarp_ctrl_tagged := { ig_ctrl : iwarp_ctrl; ig_ddp_stag : Z; ig_ddp_to : Z }.

Inductive iwarp_hdrs :=
| hdr_ctrl (_ : iwarp_ctrl) | hdr_c_untagged (_ : iwarp_ctrl_untagged)
| hdr_c_tagged (_ : iwarp_ctrl_tagged) | hdr_rwrite (_ : iwarp_rdma_write)
| hdr_rreq (_ : iwarp_rdma_rreq) | hdr_rresp (_ : iwarp_rdma_rresp)
| hdr_terminate (_ : iwarp_terminate) | hdr_send (_ : iwarp_send)
| hdr_send_inv (_ : iwarp_send_inv).

(** Object representations: the members have their natural alignment, so none
    of these structs has padding. *)
Definition iwarp_ctrl_bytes (c : iwarp_ctrl) : list byte :=
  le_bytes 2 (ic_mpa_len c) ++ le_bytes 2 (ic_ddp_rdmap_ctrl c).
Definition iwarp_ctrl_tagged_bytes (h : iwarp_ctrl_tagged) : list byte :=
  iwarp_ctrl_bytes (ig_ctrl h) ++ le_bytes 4 (ig_ddp_stag h) ++ le_bytes 8 (ig_ddp_to h).
Definition iwarp_ctrl_untagged_bytes (h : iwarp_ctrl_untagged) : list byte :=
  iwarp_ctrl_bytes (iu_ctrl h) ++ le_bytes 4 (iu_rsvd h) ++ le_bytes 4 (iu_ddp_qn h) ++
  le_bytes 4 (iu_ddp_msn h) ++ le_bytes 4 (iu_ddp_mo h).

(** ** Error types and codes of the Terminate message *)
Inductive ddp_etype :=
| DDP_ETYPE_CATASTROPHIC | DDP_ETYPE_TAGGED_BUF | DDP_ETYPE_UNTAGGED_BUF | DDP_ETYPE_RSVD.
Definition ddp_etype_val (e : ddp_etype) : Z :=
  match e with
  | DDP_ETYPE_CATASTROPHIC => 0 | DDP_ETYPE_TAGGED_BUF => 1
  | DDP_ETYPE_UNTAGGED_BUF => 2 | DDP_ETYPE_RSVD => 3
  end.

Inductive ddp_ecode :=
| DDP_ECODE_CATASTROPHIC
| DDP_ECODE_T_INVALID_STAG | DDP_ECODE_T_BASE_BOUNDS | DDP_ECODE_T_STAG_NOT_ASSOC
| DDP_ECODE_T_TO_WRAP | DDP_ECODE_T_DDP_VERSION
| DDP_ECODE_UT_INVALID_QN | DDP_ECODE_UT_INVALID_MSN_NOBUF | DDP_ECODE_UT_INVALID_MSN_RANGE
| DDP_ECODE_UT_INVALID_MO | DDP_ECODE_UT_MSG_TOOLONG | DDP_ECODE_UT_DDP_VERSION.
Definition ddp_ecode_val (e : ddp_ecode) : Z :=
  match e with
  | DDP_ECODE_CATASTROPHIC => 0
  | DDP_ECODE_T_INVALID_STAG => 0 | DDP_ECODE_T_BASE_BOUNDS => 1
  | DDP_ECODE_T_STAG_NOT_ASSOC => 2 | DDP_ECODE_T_TO_WRAP => 3 | DDP_ECODE_T_DDP_VERSION => 4
  | DDP_ECODE_UT_INVALID_QN => 1 | DDP_ECODE_UT_INVALID_MSN_NOBUF => 2
  | DDP_ECODE_UT_INVALID_MSN_RANGE => 3 | DDP_ECODE_UT_INVALID_MO => 4
  | DDP_ECODE_UT_MSG_TOOLONG => 5 | DDP_ECODE_UT_DDP_VERSION => 6
  end.

Inductive rdmap_untagged_qn :=
| RDMAP_UNTAGGED_QN_SEND | RDMAP_UNTAGGED_QN_RDMA_READ
| RDMAP_UNTAGGED_QN_TERMINATE | RDMAP_UNTAGGED_QN_COUNT.
Definition rdmap_untagged_qn_val (q : rdmap_untagged_qn) : Z :=
  match q with
  | RDMAP_UNTAGGED_QN_SEND => 0 | RDMAP_UNTAGGED_QN_RDMA_READ => 1
  | RDMAP_UNTAGGED_QN_TERMINATE => 2 | RDMAP_UNTAGGED_QN_COUNT => 3
  end.

Inductive rdmap_etype :=
| RDMAP_ETYPE_CATASTROPHIC | RDMAP_ETYPE_REMOTE_PROTECTION | RDMAP_ETYPE_REMOTE_OPERATION.
Definition rdmap_etype_val (e : rdmap_etype) : Z :=
  match e with
  | RDMAP_ETYPE_CATASTROPHIC => 0 | RDMAP_ETYPE_REMOTE_PROTECTION => 1
  | RDMAP_ETYPE_REMOTE_OPERATION => 2
  end.

Inductive rdmap_ecode :=
| RDMAP_ECODE_INVALID_STAG | RDMAP_ECODE_BASE_BOUNDS | RDMAP_ECODE_ACCESS_RIGHTS
| RDMAP_ECODE_STAG_NOT_ASSOC | RDMAP_ECODE_TO_WRAP | RDMAP_ECODE_RDMAP_VERSION
| RDMAP_ECODE_UNEXPECTED_OPCODE | RDMAP_ECODE_CATASTROPHIC_STREAM
| RDMAP_ECODE_CATASTROPHIC_GLOBAL | RDMAP_ECODE_STAG_NOT_INVALIDATE | RDMAP_ECODE_UNSPECIFIED.
Definition rdmap_ecode_val (e : rdmap_ecode) : Z :=
  match e with
  | RDMAP_ECODE_INVALID_STAG => 0 | RDMAP_ECODE_BASE_BOUNDS => 1
  | RDMAP_ECODE_ACCESS_RIGHTS => 2 | RDMAP_ECODE_STAG_NOT_ASSOC => 3
  | RDMAP_ECODE_TO_WRAP => 4 | RDMAP_ECODE_RDMAP_VERSION => 5
  | RDMAP_ECODE_UNEXPECTED_OPCODE => 6 | RDMAP_ECODE_CATASTROPHIC_STREAM => 7
  | RDMAP_ECODE_CATASTROPHIC_GLOBAL => 8 | RDMAP_ECODE_STAG_NOT_INVALIDATE => 9
  | RDMAP_ECODE_UNSPECIFIED => 255
  end.

Inductive rdmap_elayer := RDMAP_ERROR_LAYER_RDMA | RDMAP_ERROR_LAYER_DDP | RDMAP_ERROR_LAYER_LLP.
Definition rdmap_elayer_val (e : rdmap_elayer) : Z :=
  match e with
  | RDMAP_ERROR_LAYER_RDMA => 0 | RDMAP_ERROR_LAYER_DDP => 1 | RDMAP_ERROR_LAYER_LLP => 2
  end.

Inductive llp_ecode :=
| LLP_ECODE_LOCAL_CATASTROPHIC | LLP_ECODE_INSUFFICIENT_IRD | LLP_ECODE_NO_MATCHING_RTR.
Definition llp_ecode_val (e : llp_ecode) : Z :=
  match e with
  | LLP_ECODE_LOCAL_CATASTROPHIC => 5 | LLP_ECODE_INSUFFICIENT_IRD => 6
  | LLP_ECODE_NO_MATCHING_RTR => 7
  end.

Inductive llp_etype := LLP_ETYPE_MPA.
Definition llp_etype_val (e : llp_etype) : Z := match e with LLP_ETYPE_MPA => 0 end.

(** ** RDMAP opcodes (RFC 5040) *)
Inductive rdma_opcode :=
| RDMAP_RDMA_WRITE | RDMAP_RDMA_READ_REQ | RDMAP_RDMA_READ_RESP | RDMAP_SEND
| RDMAP_SEND_INVAL | RDMAP_SEND_SE | RDMAP_SEND_SE_INVAL | RDMAP_TERMINATE
| RDMAP_NOT_SUPPORTED.

#[global] Instance rdma_opcode_eq_dec : EqDecision rdma_opcode.
Proof. solve_decision. Defined.

Definition rdma_opcode_val (o : rdma_opcode) : Z :=
  match o with
  | RDMAP_RDMA_WRITE => 0 | RDMAP_RDMA_READ_REQ => 1 | RDMAP_RDMA_READ_RESP => 2
  | RDMAP_SEND => 3 | RDMAP_SEND_INVAL => 4 | RDMAP_SEND_SE => 5
  | RDMAP_SEND_SE_INVAL => 6 | RDMAP_TERMINATE => 7 | RDMAP_NOT_SUPPORTED => 8
  end.

(** The case labels of a [switch] over a received opcode. *)
Definition rdma_opcode_of_Z (z : Z) : option rdma_opcode :=
  match z with
  | 0 => Some RDMAP_RDMA_WRITE | 1 => Some RDMAP_RDMA_READ_REQ
  | 2 => Some RDMAP_RDMA_READ_RESP | 3 => Some RDMAP_SEND | 4 => Some RDMAP_SEND_INVAL
  | 5 => Some RDMAP_SEND_SE | 6 => Some RDMAP_SEND_SE_INVAL | 7 => Some RDMAP_TERMINATE
  | 8 => Some RDMAP_NOT_SUPPORTED | _ => None
  end.

Lemma rdma_opcode_of_val o : rdma_opcode_of_Z (rdma_opcode_val o) = Some o.
Proof. by destruct o. Qed.

(** ** Scatter/gather elements and received MPA data *)
Record sge := { sge_addr : Z; sge_length : Z; sge_lkey : Z }.

#[global] Instance sge_eq_dec : EqDecision sge.
Proof. solve_decision. Defined.

(** ** Properties of the accessors *)

(** The host view of a control word: its bytes in wire order. *)
Lemma swap_wrap n z : swap n (wrap (8 * Z.of_nat n) z) = swap n z.
Proof. unfold swap, be_bytes; by rewrite le_bytes_wrap. Qed.
Lemma swap_u16 z : swap 2 (u16 z) = swap 2 z.
Proof. apply (swap_wrap 2). Qed.
Lemma swap_u32 z : swap 4 (u32 z) = swap 4 z.
Proof. apply (swap_wrap 4). Qed.

Lemma wrap_land_mask w s k x :
  0 <= s -> 0 <= k -> s + k <= w -> Z.land (wrap w x) (field_mask s k) = Z.land x (field_mask s k).
Proof.
  intros; apply Z.bits_inj'; intros i Hi; rewrite !Z.land_spec, testbit_field_mask by lia.
  case_bool_decide; [|by rewrite !andb_false_r].
  unfold wrap; by rewrite Z.mod_pow2_bits_low by lia.
Qed.

(** Setting a field in network order sets it in the host view. *)
Lemma be16_field_set s k c v :
  0 <= s -> 0 <= k -> s + k <= 16 ->
  swap 2 (Z.lor (Z.land c (Z.lnot (cpu_to_be16 (field_mask s k))))
                (Z.land (cpu_to_be16 (Z.shiftl v s)) (cpu_to_be16 (field_mask s k)))) =
  field_set s k (swap 2 c) v.
Proof.
  intros; unfold field_set, cpu_to_be16, htons; rewrite !swap_u16.
  rewrite swap_lor, swap_land_lnot, swap_land, !swap_involutive.
  change (8 * Z.of_nat 2) with 16.
  assert (u16 (field_mask s k) = field_mask s k) as ->.
  { apply Z.bits_inj'; intros i Hi; rewrite testbit_field_mask by lia.
    unfold wrap; destruct (Z.lt_ge_cases i 16).
    - rewrite Z.mod_pow2_bits_low, testbit_field_mask by lia; done.
    - rewrite Z.mod_pow2_bits_high by lia; case_bool_decide; lia. }
  by rewrite wrap_land_mask.
Qed.

Lemma be16_field_get s k c :
  0 <= s -> 0 <= k -> s + k <= 16 ->
  Z.shiftr (be16_to_cpu (Z.land c (cpu_to_be16 (field_mask s k)))) s = field_get s k (swap 2 c).
Proof.
  intros; unfold be16_to_cpu, cpu_to_be16, ntohs, htons, field_get.
  rewrite !swap_u16, swap_land, swap_involutive; f_equal.
  change (8 * Z.of_nat 2) with 16.
  apply Z.bits_inj'; intros i Hi; rewrite !Z.land_spec; destruct (Z.lt_ge_cases i 16).
  - unfold wrap; by rewrite Z.mod_pow2_bits_low by lia.
  - by rewrite testbit_swap_high.
Qed.

(** The masks of the header are fields of the host view. *)
Lemma field_get_u8 s k x : 0 <= s -> 0 <= k <= 8 -> u8 (field_get s k x) = field_get s k x.
Proof.
  intros; apply wrap_small; rewrite field_get_shift by lia.
  pose proof (wrap_range k (Z.shiftr x s) ltac:(lia)).
  pose proof (Z.pow_le_mono_r 2 k 8); word_lia.
Qed.

Lemma ddp_version_field c : ddp_version c = field_get 8 2 (swap 2 (ic_ddp_rdmap_ctrl c)).
Proof.
  unfold ddp_version, DDP_MASK_VERSION; change 0x0300 with (field_mask 8 2).
  by rewrite be16_field_get, field_get_u8 by lia.
Qed.
Lemma rdmap_version_field c : rdmap_version c = field_get 6 2 (swap 2 (ic_ddp_rdmap_ctrl c)).
Proof.
  unfold rdmap_version, RDMAP_MASK_VERSION; change 0x00C0 with (field_mask 6 2).
  unfold be16_to_cpu; rewrite wrap_idemp by lia; fold (be16_to_cpu
    (Z.land (ic_ddp_rdmap_ctrl c) (cpu_to_be16 (field_mask 6 2)))).
  by rewrite be16_field_get, field_get_u8 by lia.
Qed.
Lemma rdma_opcode_field c : rdma_opcode_of c = field_get 0 4 (swap 2 (ic_ddp_rdmap_ctrl c)).
Proof.
  unfold rdma_opcode_of, RDMAP_MASK_OPCODE; change 0x000f with (field_mask 0 4).
  rewrite <- (Z.shiftr_0_r (be16_to_cpu _)); by rewrite be16_field_get, field_get_u8 by lia.
Qed.

Lemma ddp_set_version_field c v :
  swap 2 (ic_ddp_rdmap_ctrl (ddp_set_version c v)) =
  field_set 8 2 (swap 2 (ic_ddp_rdmap_ctrl c)) v.
Proof.
  unfold ddp_set_version, set_ddp_rdmap_ctrl, DDP_MASK_VERSION; cbn [ic_ddp_rdmap_ctrl].
  change 0x0300 with (field_mask 8 2); rewrite swap_u16; by apply be16_field_set.
Qed.
Lemma rdmap_set_version_field c v :
  swap 2 (ic_ddp_rdmap_ctrl (rdmap_set_version c v)) =
  field_set 6 2 (swap 2 (ic_ddp_rdmap_ctrl c)) v.
Proof.
  unfold rdmap_set_version, set_ddp_rdmap_ctrl, RDMAP_MASK_VERSION; cbn [ic_ddp_rdmap_ctrl].
  change 0x00C0 with (field_mask 6 2); rewrite swap_u16; by apply be16_field_set.
Qed.
Lemma rdmap_set_opcode_field c v :
  swap 2 (ic_ddp_rdmap_ctrl (rdmap_set_opcode c v)) =
  field_set 0 4 (swap 2 (ic_ddp_rdmap_ctrl c)) v.
Proof.
  unfold rdmap_set_opcode, set_ddp_rdmap_ctrl, RDMAP_MASK_OPCODE; cbn [ic_ddp_rdmap_ctrl].
  change 0x000f with (field_mask 0 4); rewrite swap_u16, <- (Z.shiftl_0_r v) at 1.
  by rewrite be16_field_set by lia.
Qed.

Create Rewrite HintDb ctrl.
#[export] Hint Rewrite ddp_version_field rdmap_version_field rdma_opcode_field
  ddp_set_version_field rdmap_set_version_field rdmap_set_opcode_field : ctrl.

Ltac ctrl_fields :=
  autorewrite with ctrl;
  first [ rewrite field_get_set by lia | rewrite field_get_set_other by lia ]; done.

(** The control word of an FPDU: each field set by its setter reads back, and
    setting one field leaves the other two alone. *)
Theorem ctrl_fields_roundtrip (c : iwarp_ctrl) (v : Z) :
  (ddp_version (ddp_set_version c v) = wrap 2 v /\
   rdmap_version (ddp_set_version c v) = rdmap_version c /\
   rdma_opcode_of (ddp_set_version c v) = rdma_opcode_of c) /\
  (rdmap_version (rdmap_set_version c v) = wrap 2 v /\
   ddp_version (rdmap_set_version c v) = ddp_version c /\
   rdma_opcode_of (rdmap_set_version c v) = rdma_opcode_of c) /\
  (rdma_opcode_of (rdmap_set_opcode c v) = wrap 4 v /\
   ddp_version (rdmap_set_opcode c v) = ddp_version c /\
   rdmap_version (rdmap_set_opcode c v) = rdmap_version c).
Proof. split_all; ctrl_fields. Qed.

(** The revision byte of an MPA request or reply reads back, and the flags in
    the upper byte of the word survive. *)
Theorem mpa_rr_revision_roundtrip (bits rev : Z) :
  mpa_rr_revision (mpa_rr_set_revision bits rev) = u8 rev /\
  field_get 8 8 (swap 2 (mpa_rr_set_revision bits rev)) = field_get 8 8 (swap 2 bits).
Proof.
  assert (swap 2 (mpa_rr_set_revision bits rev) = field_set 0 8 (swap 2 bits) rev) as E.
  { unfold mpa_rr_set_revision, MPA_RR_MASK_REVISION; change 0x00ff with (field_mask 0 8).
    rewrite swap_u16, <- (Z.shiftl_0_r rev) at 1; by rewrite be16_field_set by lia. }
  split.
  - unfold mpa_rr_revision, MPA_RR_MASK_REVISION; change 0x00ff with (field_mask 0 8).
    unfold be16_to_cpu; rewrite wrap_idemp by lia.
    change (ntohs (u16 ?z)) with (be16_to_cpu z).
    rewrite <- (Z.shiftr_0_r (be16_to_cpu _)), be16_field_get, field_get_u8, E by lia.
    by apply field_get_set.
  - rewrite E; apply field_get_set_other; lia.
Qed.

(** The error code of a Terminate header is the byte at bits 16 to 23 of the
    word, but the accessor shifts by 20: it returns only the upper half of it. *)
Theorem rdmap_term_ecode_drops_low_nibble (t : iwarp_terminate) :
  rdmap_term_ecode t = field_get 16 8 (swap 4 (it_term_ctrl t)) / 16.
Proof.
  unfold rdmap_term_ecode, RDMAP_TERM_MASK_ECODE, be32_to_cpu, cpu_to_be32, ntohl, htonl.
  rewrite !swap_u32, swap_land, swap_involutive.
  change (8 * Z.of_nat 4) with 32.
  change (u32 0x00ff0000) with (field_mask 16 8).
  replace (Z.shiftr (Z.land (swap 4 (it_term_ctrl t)) (field_mask 16 8)) 20)
    with (field_get 16 8 (swap 4 (it_term_ctrl t)) / 16).
  - apply wrap_small.
    pose proof (field_get_u8 16 8 (swap 4 (it_term_ctrl t)) ltac:(lia) ltac:(lia)) as E.
    pose proof (wrap_range 8 (field_get 16 8 (swap 4 (it_term_ctrl t))) ltac:(lia)) as R.
    rewrite E in R; unfold in_u in *; change (2 ^ 8) with 256 in *.
    split; [apply Z.div_pos|apply Z.div_lt_upper_bound]; lia.
  - unfold field_get; change 16 with (2 ^ 4) at 3.
    by rewrite <- Z.shiftr_div_pow2, Z.shiftr_shiftr by lia.
Qed.
