(* ===== verification/Socket.v ===== *)
(** * The connected TCP socket under the stack

    [recv(2)] and [sendmsg(2)] on a stream socket, as the MPA layer calls them.
    What the peer and the network do is a script the socket carries: the
    deliveries that will arrive, the moments nothing is there, the errors, and
    how much each send accepts.  Every theorem about a socket quantifies over
    the script, so it covers every fragmentation and every error. *)

From S2P Require Import Prelude Endian.

Inductive rx_event :=
| RxData (bs : list byte)   (* bytes that become available together *)
| RxGap                     (* nothing has arrived yet *)
| RxErr (e : Z).            (* the call fails with errno [e] *)

Inductive tx_outcome :=
| TxFull                    (* the whole message is accepted *)
| TxShort (n : Z)           (* at most [n] bytes are accepted *)
| TxFail (e : Z).           (* the call fails with errno [e] *)

(** The end of [rx] is the end of the stream: the peer has closed.  When
    [tx_plan] runs out every further send is accepted in full. *)
Record sock := { rx : list rx_event; tx : list byte; tx_plan : list tx_outcome }.

Definition set_rx (r : list rx_event) (s : sock) : sock :=
  {| rx := r; tx := tx s; tx_plan := tx_plan s |}.

Definition EAGAIN : Z := 11.
Definition ENOMEM : Z := 12.
Definition EPIPE : Z := 32.
Definition EPROTO : Z := 71.

(** Linux caps one transfer at [MAX_RW_COUNT] bytes. *)
Definition MAX_RW_COUNT : Z := 0x7ffff000.

Record recv_res := { rv_ret : Z; rv_data : list byte; rv_errno : Z }.

Definition rv_bytes (bs : list byte) : recv_res :=
  {| rv_ret := zlen bs; rv_data := bs; rv_errno := 0 |}.
Definition rv_fail (e : Z) : recv_res := {| rv_ret := -1; rv_data := []; rv_errno := e |}.

(** One call with a buffer of [len] bytes, [0 < len].  A blocking call waits
    out the gaps; with [MSG_DONTWAIT] a gap is [EAGAIN].  A call returns what
    one delivery holds, at most [len] bytes of it. *)
Fixpoint recv_rx (dontwait : bool) (len : Z) (r : list rx_event)
  : recv_res * list rx_event :=
  match r with
  | [] => (rv_bytes [], [])
  | RxGap :: r => if dontwait then (rv_fail EAGAIN, r) else recv_rx dontwait len r
  | RxErr e :: r => (rv_fail e, r)
  | RxData [] :: r => recv_rx dontwait len r
  | RxData bs :: r => (rv_bytes (ztake len bs), RxData (zdrop len bs) :: r)
  end.

(** [recv(fd, buf, len, flags)], [len] already converted to [size_t]. *)
Definition recv (dontwait : bool) (len : Z) (s : sock) : recv_res * sock :=
  if len =? 0 then (rv_bytes [], s)
  else let '(v, r) := recv_rx dontwait (Z.min len MAX_RW_COUNT) (rx s) in (v, set_rx r s).

(** [sendmsg(fd, &msg, 0)] with the bytes its iovec gathers. *)
Definition sendmsg (bs : list byte) (s : sock) : Z * sock :=
  match tx_plan s with
  | [] | TxFull :: _ =>
      (zlen bs, {| rx := rx s; tx := tx s ++ bs; tx_plan := tail (tx_plan s) |})
  | TxShort n :: p =>
      let sent := ztake n bs in
      (zlen sent, {| rx := rx s; tx := tx s ++ sent; tx_plan := p |})
  | TxFail _ :: p => (-1, {| rx := rx s; tx := tx s; tx_plan := p |})
  end.

(** ** What the receiver will see *)
Definition rx_bytes (e : rx_event) : list byte :=
  match e with RxData bs => bs | _ => [] end.
Definition rx_stream (r : list rx_event) : list byte := concat (map rx_bytes r).

(** No error and no gap is left in the script. *)
Definition is_rx_data (e : rx_event) : bool := match e with RxData _ => true | _ => false end.
Definition rx_clean (r : list rx_event) : Prop := Forall (fun e => is_rx_data e = true) r.

#[global] Instance rx_clean_dec r : Decision (rx_clean r).
Proof. unfold rx_clean; apply _. Defined.

Lemma rx_stream_cons e r : rx_stream (e :: r) = rx_bytes e ++ rx_stream r.
Proof. done. Qed.
Lemma rx_stream_data bs r : rx_stream (RxData bs :: r) = bs ++ rx_stream r.
Proof. done. Qed.

(** A call never invents, drops or reorders bytes: what it returns is the
    beginning of the stream and the rest is still there. *)
Lemma recv_rx_stream dw len r v r' :
  recv_rx dw len r = (v, r') -> rx_stream r = rv_data v ++ rx_stream r'.
Proof.
  induction r as [|[[|b bs]| |e] r IH]; cbn [recv_rx]; intros E.
  - by simplify_eq.
  - by rewrite rx_stream_data, IH by done.
  - simplify_eq; cbn [rv_data rv_bytes].
    by rewrite !rx_stream_data, app_assoc, ztake_zdrop.
  - destruct dw; [by simplify_eq|]; by rewrite rx_stream_cons, IH.
  - by simplify_eq.
Qed.

Lemma recv_stream dw len s v s' :
  recv dw len s = (v, s') -> rx_stream (rx s) = rv_data v ++ rx_stream (rx s').
Proof.
  unfold recv; case_Z; [by intros; simplify_eq|].
  destruct (recv_rx _ _ _) as [v1 r1] eqn:E; intros; simplify_eq.
  by apply recv_rx_stream in E.
Qed.

(** What a call can return: an error, or as many bytes as it stored. *)
Lemma recv_rx_ret dw len r v r' :
  0 < len -> recv_rx dw len r = (v, r') ->
  (rv_ret v = -1 /\ rv_data v = []) \/
  (rv_ret v = zlen (rv_data v) /\ rv_ret v <= len).
Proof.
  intros Hl; induction r as [|[[|b bs]| |e] r IH]; cbn [recv_rx]; intros E;
    try (by simplify_eq; left); try (by apply IH).
  - simplify_eq; right; cbn; rewrite zlen_nil; lia.
  - simplify_eq; right; cbn [rv_ret rv_data rv_bytes]; split; [done|]; zlen_lia.
  - destruct dw; [by simplify_eq; left|by apply IH].
Qed.

Lemma recv_tx dw len s v s' : recv dw len s = (v, s') -> tx s' = tx s /\ tx_plan s' = tx_plan s.
Proof.
  unfold recv; case_Z; [by intros; simplify_eq|].
  destruct (recv_rx _ _ _); intros; by simplify_eq.
Qed.

(** A clean script always yields data until it runs out. *)
Lemma recv_rx_clean dw len r v r' :
  0 < len -> rx_clean r -> recv_rx dw len r = (v, r') ->
  rx_clean r' /\ rv_ret v = zlen (rv_data v) /\
  (rx_stream r <> [] -> 0 < rv_ret v <= len).
Proof.
  intros Hl; induction r as [|[[|b bs]| |e] r IH]; cbn [recv_rx]; intros Hc E;
    try (by apply Forall_cons_1 in Hc as [??]).
  - by simplify_eq.
  - apply Forall_cons_1 in Hc as [_ Hc]; rewrite rx_stream_data; by apply IH.
  - apply Forall_cons_1 in Hc as [_ Hc]; simplify_eq; cbn [rv_ret rv_data rv_bytes].
    split_all; [by constructor|done|]; intros _; split; [|zlen_lia].
    rewrite zlen_ztake, zlen_cons; pose proof (zlen_nonneg bs); lia.
Qed.

(** Reading exactly [len] bytes that are available at once. *)
Lemma recv_exact dw a b r s :
  rx s = RxData (a ++ b) :: r -> a <> [] -> zlen a <= MAX_RW_COUNT ->
  recv dw (zlen a) s = (rv_bytes a, set_rx (RxData b :: r) s).
Proof.
  intros Hr Ha Hm; unfold recv.
  destruct (Z.eqb_spec (zlen a) 0) as [E|_]; [by apply Z.eq_le_incl, zlen_0_inv in E|].
  rewrite Hr, Z.min_l by done; destruct a as [|x a]; [done|].
  change ((x :: a) ++ b) with (x :: (a ++ b)); cbn [recv_rx].
  change (x :: (a ++ b)) with ((x :: a) ++ b).
  by rewrite ztake_app_exact, zdrop_app_exact.
Qed.

Lemma set_rx_set_rx r r' s : set_rx r (set_rx r' s) = set_rx r s.
Proof. done. Qed.
Lemma rx_set_rx r s : rx (set_rx r s) = r.
Proof. done. Qed.
Lemma set_rx_rx s : set_rx (rx s) s = s.
Proof. by destruct s. Qed.

(** An accepted send appends the whole message to the outgoing stream. *)
Lemma sendmsg_full bs s :
  tx_plan s = [] ->
  sendmsg bs s = (zlen bs, {| rx := rx s; tx := tx s ++ bs; tx_plan := [] |}).
Proof. intros H; unfold sendmsg; by rewrite H. Qed.

Lemma sendmsg_tx bs s n s' :
  sendmsg bs s = (n, s') ->
  rx s' = rx s /\ tx s `prefix_of` tx s' /\ (n < 0 -> tx s' = tx s) /\
  (0 <= n -> exists sent, sent `prefix_of` bs /\ tx s' = tx s ++ sent /\ n = zlen sent).
Proof.
  unfold sendmsg; intros E.
  destruct (tx_plan s) as [|[|k|e] p]; simplify_eq; cbn; split_all; try done;
    try (by eexists); intros; try zlen_lia;
    try (eexists; split_all; [|done|done]; try done).
  by exists (zdrop k bs); rewrite ztake_zdrop.
Qed.
