(* ===== verification/Mpa.v ===== *)
(** * MPA: framing over TCP ([suiw/mpa/mpa.h], [suiw/mpa/mpa.cpp])

    The connection handshake ([mpa_send_rr], [mpa_recv_rr],
    [mpa_client_connect], [mpa_server_accept]) and the framing of upper-layer
    PDUs ([mpa_send], [mpa_recv]).

    A scatter/gather element is represented by the bytes it designates, so the
    [length] the code reads is the length of the list.  [mpa_recv] stores the
    payload through [info->ulpdu]; the model returns the bytes stored from that
    address on, and the caller applies them to its own object. *)

From Stdlib Require Import Strings.String.
From S2P Require Import Prelude Endian Wire Socket.

Definition EMSS : Z := 65535.
Definition MULPDU : Z := EMSS - (6 + 4 * (EMSS / 512 + 1) + EMSS mod 4).
Definition MPA_HDR_SIZE : Z := 2.
Definition MPA_CRC_SIZE : Z := 4.

Definition MPA_KEY_REQ : list byte := list_byte_of_string "MPA ID Req Frame".
Definition MPA_KEY_REP : list byte := list_byte_of_string "MPA ID Rep Frame".

(** ** Sending a PDU *)

(** [__u16 len]: the accumulator wraps at 16 bits. *)
Definition mpa_ulpdu_len (sg_list : list (list byte)) : Z :=
  fold_left (fun len sg => u16 (len + zlen sg)) sg_list 0.

Definition mpa_padding (len : Z) : Z := (len + MPA_HDR_SIZE) mod 4.

(** The iovec: header, the elements, the padding bytes one by one, the CRC. *)
Definition mpa_iov (len : Z) (sg_list : list (list byte)) : list (list byte) :=
  [le_bytes 2 (htons len)] ++ sg_list ++
  replicate (Z.to_nat (mpa_padding len)) (le_bytes 1 0) ++ [le_bytes 4 0].

Definition mpa_send (sg_list : list (list byte)) (s : sock) : Z * sock :=
  let len := mpa_ulpdu_len sg_list in
  if EMSS <? len then (-1, s)
  else sendmsg (concat (mpa_iov len sg_list)) s.

(** ** Receiving a PDU, possibly in several calls *)
Record siw_mpa_packet := { ulpdu_len : Z; crc : Z; bytes_rcvd : Z }.

(** The default member initialisers of the struct. *)
Definition new_mpa_packet : siw_mpa_packet := {| ulpdu_len := 0; crc := 0; bytes_rcvd := 0 |}.

Definition set_ulpdu_len (n : Z) (i : siw_mpa_packet) : siw_mpa_packet :=
  {| ulpdu_len := n; crc := crc i; bytes_rcvd := bytes_rcvd i |}.
Definition set_crc (n : Z) (i : siw_mpa_packet) : siw_mpa_packet :=
  {| ulpdu_len := ulpdu_len i; crc := n; bytes_rcvd := bytes_rcvd i |}.
Definition set_bytes_rcvd (n : Z) (i : siw_mpa_packet) : siw_mpa_packet :=
  {| ulpdu_len := ulpdu_len i; crc := crc i; bytes_rcvd := n |}.

Record mpa_out := {
  mo_ret : Z; mo_buf : list byte; mo_info : siw_mpa_packet; mo_sock : sock }.

(** The first two bytes of the PDU, into [info->ulpdu_len]. *)
Definition mpa_recv_header (info : siw_mpa_packet) (s : sock) : bool * siw_mpa_packet * sock :=
  let rcvd0 := bytes_rcvd info in
  let '(v, s) := recv false (u64 (MPA_HDR_SIZE - rcvd0)) s in
  let raw := le_Z (take 2 (store_at rcvd0 (rv_data v) (le_bytes 2 (ulpdu_len info)))) in
  if rv_ret v <? MPA_HDR_SIZE - rcvd0 then (false, set_ulpdu_len raw info, s)
  else (true, set_bytes_rcvd MPA_HDR_SIZE (set_ulpdu_len (ntohs raw) info), s).

(** The [do ... while] loop that fills [info->ulpdu]; [fuel] bounds the number
    of iterations, [None] is a run that has not left the loop yet. *)
Fixpoint mpa_recv_loop (fuel : nat) (n rcvd : Z) (buf : list byte) (s : sock)
  : option (Z * list byte * sock) :=
  match fuel with
  | O => None
  | S fuel =>
      let '(v, s) := recv false (u64 (n - rcvd)) s in
      let buf := store_at rcvd (rv_data v) buf in
      let rcvd := rcvd + rv_ret v in
      if rcvd <=? 0 then Some (rcvd, buf, s)
      else if rcvd <? n then mpa_recv_loop fuel n rcvd buf s
      else Some (rcvd, buf, s)
  end.

(** Padding and CRC, both received into [info->crc]. *)
Definition mpa_recv_trailers (packet_len : Z) (info : siw_mpa_packet) (s : sock)
  : Z * siw_mpa_packet * sock :=
  let padding_len := (packet_len + MPA_HDR_SIZE) mod 4 in
  let '(v, s) := recv false padding_len s in
  let info := set_crc (le_Z (overlay (rv_data v) (le_bytes 4 (crc info)))) info in
  if rv_ret v <? padding_len then (-1, info, s)
  else
    let info := set_bytes_rcvd (bytes_rcvd info + rv_ret v) info in
    let '(v, s) := recv false MPA_CRC_SIZE s in
    let info := set_crc (le_Z (overlay (rv_data v) (le_bytes 4 (crc info)))) info in
    if negb (rv_ret v =? MPA_CRC_SIZE) then (-1, info, s)
    else let info := set_bytes_rcvd (bytes_rcvd info + rv_ret v) info in
         (bytes_rcvd info, info, s).

Definition mpa_recv_body (fuel : nat) (info : siw_mpa_packet) (num_bytes : Z) (s : sock)
  : option mpa_out :=
  let packet_len := ulpdu_len info in
  if packet_len <=? 0
  then Some {| mo_ret := -2; mo_buf := []; mo_info := info; mo_sock := s |}
  else
    let ulpdu_rem_size := packet_len - (bytes_rcvd info - MPA_HDR_SIZE) in
    let read_trailers := ulpdu_rem_size <=? num_bytes in
    let num_bytes_to_read := if read_trailers then ulpdu_rem_size else num_bytes in
    match mpa_recv_loop fuel num_bytes_to_read 0 [] s with
    | None => None
    | Some (rcvd, buf, s) =>
        if negb (rcvd =? num_bytes_to_read)
        then Some {| mo_ret := -1; mo_buf := buf; mo_info := info; mo_sock := s |}
        else
          let info := set_bytes_rcvd (bytes_rcvd info + rcvd) info in
          if read_trailers then
            let '(ret, info, s) := mpa_recv_trailers packet_len info s in
            Some {| mo_ret := ret; mo_buf := buf; mo_info := info; mo_sock := s |}
          else Some {| mo_ret := bytes_rcvd info; mo_buf := buf; mo_info := info; mo_sock := s |}
    end.

Definition mpa_recv (fuel : nat) (info : siw_mpa_packet) (num_bytes : Z) (s : sock)
  : option mpa_out :=
  if bytes_rcvd info <? MPA_HDR_SIZE then
    match mpa_recv_header info s with
    | (false, info, s) => Some {| mo_ret := -1; mo_buf := []; mo_info := info; mo_sock := s |}
    | (true, info, s) => mpa_recv_body fuel info num_bytes s
    end
  else mpa_recv_body fuel info num_bytes s.

(** ** Properties of sending *)
Definition mpa_trailer (len : Z) : list byte :=
  replicate (Z.to_nat (mpa_padding len)) (Z_byte 0) ++ le_bytes 4 0.

(** The FPDU of an upper-layer PDU: what RFC 5044 calls the frame, with the
    padding this implementation chooses and a zero CRC. *)
Definition fpdu (ulpdu : list byte) : list byte :=
  be_bytes 2 (zlen ulpdu) ++ ulpdu ++ mpa_trailer (zlen ulpdu).

Lemma mpa_padding_range len : 0 <= mpa_padding len < 4.
Proof. apply Z.mod_pos_bound; lia. Qed.

Lemma mpa_ulpdu_len_sum sgl : mpa_ulpdu_len sgl = u16 (sum_zlen sgl).
Proof.
  unfold mpa_ulpdu_len; change 0 with (u16 0) at 1.
  by rewrite (fold_wrap_add 16), Z.add_0_l.
Qed.

Lemma concat_replicate_singleton {A} n (x : A) : concat (replicate n [x]) = replicate n x.
Proof. induction n; cbn; by f_equal. Qed.

Lemma concat_mpa_iov len sgl :
  concat (mpa_iov len sgl) = be_bytes 2 len ++ concat sgl ++ mpa_trailer len.
Proof.
  unfold mpa_iov, mpa_trailer; cbn [app concat]; rewrite !concat_app; cbn [concat].
  unfold htons; rewrite le_bytes_swap, app_nil_r.
  change (le_bytes 1 0) with [Z_byte 0]; by rewrite concat_replicate_singleton.
Qed.

Lemma mpa_send_sendmsg sgl s :
  mpa_send sgl s = sendmsg (concat (mpa_iov (mpa_ulpdu_len sgl) sgl)) s.
Proof.
  unfold mpa_send; destruct (Z.ltb_spec EMSS (mpa_ulpdu_len sgl)) as [H|]; [|done].
  exfalso; rewrite mpa_ulpdu_len_sum in H.
  pose proof (wrap_range 16 (sum_zlen sgl) ltac:(lia)); unfold EMSS in *; word_lia.
Qed.

(** Below 64 KiB the frame is exactly the one the PDU calls for. *)
Lemma mpa_send_fpdu sgl s :
  sum_zlen sgl < 2 ^ 16 -> mpa_send sgl s = sendmsg (fpdu (concat sgl)) s.
Proof.
  intros H; rewrite mpa_send_sendmsg, concat_mpa_iov, mpa_ulpdu_len_sum.
  unfold fpdu; fold (sum_zlen sgl).
  by rewrite wrap_small by (split; [apply zlen_nonneg|done]).
Qed.

Lemma zlen_mpa_trailer len : zlen (mpa_trailer len) = mpa_padding len + MPA_CRC_SIZE.
Proof.
  unfold mpa_trailer; pose proof (mpa_padding_range len).
  rewrite zlen_app, zlen_replicate, zlen_le_bytes; unfold MPA_CRC_SIZE; lia.
Qed.

Lemma zlen_fpdu p : zlen (fpdu p) = MPA_HDR_SIZE + zlen p + mpa_padding (zlen p) + MPA_CRC_SIZE.
Proof.
  unfold fpdu; rewrite !zlen_app, zlen_mpa_trailer, zlen_be_bytes; unfold MPA_HDR_SIZE; lia.
Qed.

(** ** Properties of receiving *)

(** A packet of which [k] payload bytes have been taken. *)
Definition mpa_at (len k c : Z) : siw_mpa_packet :=
  {| ulpdu_len := len; crc := c; bytes_rcvd := MPA_HDR_SIZE + k |}.

(** What is left to read of a frame after [k] payload bytes. *)
Definition fpdu_rest (ulpdu : list byte) (k : Z) : list byte :=
  zdrop k ulpdu ++ mpa_trailer (zlen ulpdu).

Lemma mpa_recv_loop_avail fuel a b r s :
  rx s = RxData (a ++ b) :: r -> a <> [] -> zlen a <= MAX_RW_COUNT ->
  mpa_recv_loop (S fuel) (zlen a) 0 [] s = Some (zlen a, a, set_rx (RxData b :: r) s).
Proof.
  intros Hr Ha Hm; cbn [mpa_recv_loop].
  assert (0 < zlen a) by (destruct a; [done|zlen_lia]).
  rewrite Z.sub_0_r, wrap_small by (unfold MAX_RW_COUNT in *; word_lia).
  rewrite (recv_exact false a b r s) by done; cbn [rv_ret rv_data rv_bytes].
  rewrite Z.add_0_l; do 2 case_Z; try lia.
  unfold store_at; rewrite ztake_0, zdrop_ge by zlen_lia.
  by rewrite app_nil_r.
Qed.

Lemma mpa_recv_header_avail len tl r s c :
  rx s = RxData (be_bytes 2 len ++ tl) :: r -> in_u 16 len ->
  mpa_recv_header {| ulpdu_len := 0; crc := c; bytes_rcvd := 0 |} s =
    (true, mpa_at len 0 c, set_rx (RxData tl :: r) s).
Proof.
  intros Hr Hl; unfold mpa_recv_header; cbn [bytes_rcvd].
  change (u64 (MPA_HDR_SIZE - 0)) with 2.
  pose proof (recv_exact false (be_bytes 2 len) tl r s Hr) as E.
  rewrite zlen_be_bytes in E; change (Z.of_nat 2) with 2 in E.
  rewrite E; [|done|done]; cbn [rv_ret rv_data rv_bytes].
  rewrite zlen_be_bytes; change (Z.of_nat 2 <? MPA_HDR_SIZE - 0) with false; cbv iota.
  unfold store_at; rewrite ztake_0, zdrop_ge by (rewrite zlen_be_bytes; done).
  rewrite app_nil_l, app_nil_r, take_ge by (rewrite length_be_bytes; lia).
  unfold ntohs; change (le_Z (be_bytes 2 len)) with (swap 2 len).
  rewrite swap_involutive, wrap_small by done.
  done.
Qed.

Lemma mpa_recv_trailers_avail len tl r s info :
  rx s = RxData (mpa_trailer len ++ tl) :: r ->
  mpa_recv_trailers len info s =
    (bytes_rcvd info + mpa_padding len + MPA_CRC_SIZE,
     {| ulpdu_len := ulpdu_len info; crc := 0;
        bytes_rcvd := bytes_rcvd info + mpa_padding len + MPA_CRC_SIZE |},
     set_rx (RxData tl :: r) s).
Proof.
  intros Hr; unfold mpa_recv_trailers; fold (mpa_padding len).
  pose proof (mpa_padding_range len) as Hp.
  set (pads := replicate (Z.to_nat (mpa_padding len)) (Z_byte 0)).
  assert (zlen pads = mpa_padding len) as Hz by (unfold pads; rewrite zlen_replicate; lia).
  assert (recv false (mpa_padding len) s =
    (rv_bytes pads, set_rx (RxData (le_bytes 4 0 ++ tl) :: r) s)) as ->.
  { unfold mpa_trailer in Hr; fold pads in Hr; rewrite <- app_assoc in Hr.
    destruct (Z.eq_dec (mpa_padding len) 0) as [E|E].
    - rewrite E in *.
      apply Z.eq_le_incl, zlen_0_inv in Hz; rewrite Hz in *; rewrite app_nil_l in Hr.
      unfold recv; by rewrite Z.eqb_refl, <- Hr, set_rx_rx.
    - rewrite <- Hz; apply recv_exact; [done| |unfold MAX_RW_COUNT; lia].
      intros Hn; rewrite Hn, zlen_nil in Hz; lia. }
  cbn [rv_ret rv_data rv_bytes]; rewrite Hz, Z.ltb_irrefl; cbv iota zeta.
  pose proof (recv_exact false (le_bytes 4 0) tl r (set_rx (RxData (le_bytes 4 0 ++ tl) :: r) s)
    eq_refl) as E; rewrite zlen_le_bytes in E; unfold MPA_CRC_SIZE.
  change (Z.of_nat 4) with 4 in E; rewrite E by done; cbn [rv_ret rv_data rv_bytes].
  rewrite zlen_le_bytes; change (Z.of_nat 4 =? 4) with true; cbn [negb].
  rewrite overlay_full by (rewrite !length_le_bytes; lia).
  by rewrite set_rx_set_rx.
Qed.

Definition mpa_done (len : Z) : siw_mpa_packet :=
  {| ulpdu_len := len; crc := 0;
     bytes_rcvd := MPA_HDR_SIZE + len + mpa_padding len + MPA_CRC_SIZE |}.

(** One call that stops short of the end of the PDU. *)
Lemma mpa_recv_part fuel len k c a tl r s :
  rx s = RxData (a ++ tl) :: r -> a <> [] -> 0 <= k -> zlen a < len - k -> in_u 16 len ->
  mpa_recv (S fuel) (mpa_at len k c) (zlen a) s =
    Some {| mo_ret := MPA_HDR_SIZE + (k + zlen a); mo_buf := a;
            mo_info := mpa_at len (k + zlen a) c; mo_sock := set_rx (RxData tl :: r) s |}.
Proof.
  intros Hr Ha Hk Hlt Hl; unfold mpa_recv, mpa_recv_body, mpa_at; cbn [bytes_rcvd ulpdu_len].
  pose proof (zlen_nonneg a).
  destruct (Z.ltb_spec (MPA_HDR_SIZE + k) MPA_HDR_SIZE); [lia|].
  destruct (Z.leb_spec len 0); [lia|].
  destruct (Z.leb_spec (len - (MPA_HDR_SIZE + k - MPA_HDR_SIZE)) (zlen a)); [lia|].
  rewrite (mpa_recv_loop_avail fuel a tl r s) by (done || unfold MAX_RW_COUNT; word_lia).
  rewrite Z.eqb_refl; cbn [negb set_bytes_rcvd ulpdu_len bytes_rcvd crc].
  by rewrite Z.add_assoc.
Qed.

(** The call that reaches the end of the PDU also takes the trailers. *)
Lemma mpa_recv_last fuel len k c n a tl r s :
  rx s = RxData (a ++ mpa_trailer len ++ tl) :: r -> a <> [] -> 0 <= k ->
  zlen a = len - k -> len - k <= n -> in_u 16 len ->
  mpa_recv (S fuel) (mpa_at len k c) n s =
    Some {| mo_ret := bytes_rcvd (mpa_done len); mo_buf := a; mo_info := mpa_done len;
            mo_sock := set_rx (RxData tl :: r) s |}.
Proof.
  intros Hr Ha Hk Hlt Hn Hl; unfold mpa_recv, mpa_recv_body, mpa_at; cbn [bytes_rcvd ulpdu_len].
  assert (0 < zlen a) by (destruct a; [done|zlen_lia]).
  destruct (Z.ltb_spec (MPA_HDR_SIZE + k) MPA_HDR_SIZE); [lia|].
  destruct (Z.leb_spec len 0); [lia|].
  destruct (Z.leb_spec (len - (MPA_HDR_SIZE + k - MPA_HDR_SIZE)) n); [|lia].
  replace (len - (MPA_HDR_SIZE + k - MPA_HDR_SIZE)) with (zlen a) by lia.
  rewrite (mpa_recv_loop_avail fuel a _ r s Hr) by (done || unfold MAX_RW_COUNT; word_lia).
  rewrite Z.eqb_refl; cbn [negb].
  rewrite (mpa_recv_trailers_avail len tl r) by done.
  cbn [set_bytes_rcvd ulpdu_len bytes_rcvd crc mpa_done].
  replace (MPA_HDR_SIZE + k + zlen a) with (MPA_HDR_SIZE + len) by lia.
  done.
Qed.

(** The first call on a fresh packet takes the header and continues. *)
Lemma mpa_recv_first fuel len c n tl r s :
  rx s = RxData (be_bytes 2 len ++ tl) :: r -> in_u 16 len ->
  mpa_recv fuel {| ulpdu_len := 0; crc := c; bytes_rcvd := 0 |} n s =
    mpa_recv fuel (mpa_at len 0 c) n (set_rx (RxData tl :: r) s).
Proof.
  intros Hr Hl; unfold mpa_recv at 1; cbn [bytes_rcvd]; change (0 <? MPA_HDR_SIZE) with true.
  by rewrite (mpa_recv_header_avail len tl r s c Hr Hl).
Qed.

(** Later frames reuse the packet: only [bytes_rcvd] is reset, and the stale
    [ulpdu_len] is overwritten by the new header. *)
Lemma mpa_recv_next fuel len old c n tl r s :
  rx s = RxData (be_bytes 2 len ++ tl) :: r -> in_u 16 len ->
  mpa_recv fuel {| ulpdu_len := old; crc := c; bytes_rcvd := 0 |} n s =
    mpa_recv fuel (mpa_at len 0 c) n (set_rx (RxData tl :: r) s).
Proof.
  intros Hr Hl; rewrite <- (mpa_recv_first fuel len c n tl r s Hr Hl).
  unfold mpa_recv; cbn [bytes_rcvd]; change (0 <? MPA_HDR_SIZE) with true; cbv iota.
  unfold mpa_recv_header; cbn [bytes_rcvd ulpdu_len].
  change (u64 (MPA_HDR_SIZE - 0)) with 2.
  pose proof (recv_exact false (be_bytes 2 len) tl r s Hr) as E.
  rewrite zlen_be_bytes in E; change (Z.of_nat 2) with 2 in E.
  rewrite E; [|done|done]; cbn [rv_ret rv_data rv_bytes].
  unfold store_at; rewrite !ztake_0, !zdrop_ge by (rewrite zlen_be_bytes, zlen_le_bytes; done).
  done.
Qed.

(** ** The framing contract *)

(** C11: The frame [mpa_send] puts on the wire for elements of 1 to 65535 bytes
    in total is read back by one [mpa_recv] call that asks for at least that
    much: the stored bytes are the concatenation of the elements, the frame is
    consumed exactly (what follows it in the stream is untouched), and the two
    calls return the same byte count. *)
Theorem mpa_send_recv_roundtrip sgl s1 s2 r rest num fuel :
  0 < sum_zlen sgl < 2 ^ 16 -> tx s1 = [] -> tx_plan s1 = [] -> sum_zlen sgl <= num ->
  rx s2 = RxData (tx (mpa_send sgl s1).2 ++ rest) :: r ->
  mpa_recv (S fuel) new_mpa_packet num s2 =
    Some {| mo_ret := (mpa_send sgl s1).1; mo_buf := concat sgl;
            mo_info := mpa_done (sum_zlen sgl); mo_sock := set_rx (RxData rest :: r) s2 |}.
Proof.
  intros Hs Ht Hp Hn Hr; rewrite mpa_send_fpdu in * by lia.
  rewrite sendmsg_full in * by done; cbn [fst snd tx] in *; rewrite Ht, app_nil_l in Hr.
  unfold fpdu in Hr; rewrite <- !app_assoc in Hr; fold (sum_zlen sgl) in *.
  assert (in_u 16 (sum_zlen sgl)) by (split; lia).
  unfold new_mpa_packet; rewrite (mpa_recv_first _ _ _ _ _ _ _ Hr) by done.
  rewrite (mpa_recv_last fuel _ 0 0 num (concat sgl) rest r);
    [|done| |lia|unfold sum_zlen; lia|lia|done].
  - by rewrite zlen_fpdu.
  - intros E; unfold sum_zlen in *; rewrite E, zlen_nil in *; lia.
Qed.

Lemma mpa_send_recv_roundtrip_witness :
  (mpa_recv 1 new_mpa_packet 3
    {| rx := [RxData (tx (mpa_send [[Z_byte 7]; [Z_byte 8; Z_byte 9]]
         {| rx := []; tx := []; tx_plan := [] |}).2 ++ [Z_byte 1])]; tx := []; tx_plan := [] |})
  = Some {| mo_ret := 10; mo_buf := [Z_byte 7; Z_byte 8; Z_byte 9]; mo_info := mpa_done 3;
            mo_sock := {| rx := [RxData [Z_byte 1]]; tx := []; tx_plan := [] |} |}.
Proof.
  etransitivity.
  - apply (mpa_send_recv_roundtrip [[Z_byte 7]; [Z_byte 8; Z_byte 9]]
      {| rx := []; tx := []; tx_plan := [] |} _ [] [Z_byte 1] 3 0);
      [vm_compute; split; reflexivity|reflexivity|reflexivity|vm_compute; congruence|reflexivity].
  - vm_compute; reflexivity.
Defined.

(** The 64 KiB size check of [mpa_send] is dead code: the length is summed in
    a 16-bit variable, so every call, whatever the total size, proceeds to
    [sendmsg] with a header that holds the total modulo 65536. *)
Theorem mpa_send_size_check_dead sgl s :
  mpa_send sgl s =
    sendmsg (be_bytes 2 (sum_zlen sgl) ++ concat sgl ++ mpa_trailer (u16 (sum_zlen sgl))) s.
Proof.
  rewrite mpa_send_sendmsg, concat_mpa_iov, mpa_ulpdu_len_sum; f_equal.
  unfold be_bytes; by rewrite (le_bytes_wrap 2).
Qed.

(** The iovec array of [mpa_send] has [5 + num_sge] slots; the header, the
    elements, the padding and the CRC never need more. *)
Theorem mpa_iov_bound sgl :
  zlen (mpa_iov (mpa_ulpdu_len sgl) sgl) <= 5 + zlen sgl.
Proof.
  unfold mpa_iov; pose proof (mpa_padding_range (mpa_ulpdu_len sgl)).
  rewrite !zlen_app, zlen_replicate, !zlen_cons, !zlen_nil; lia.
Qed.

(** The padding rule takes [(len + 2) mod 4] bytes instead of the complement
    to the next multiple of four, so a frame ends on the 32-bit boundary MPA
    requires exactly when the PDU has an even length. *)
Theorem fpdu_aligned_iff_even p : zlen (fpdu p) mod 4 = 0 <-> Z.Even (zlen p).
Proof.
  rewrite zlen_fpdu; unfold mpa_padding, MPA_HDR_SIZE, MPA_CRC_SIZE.
  rewrite <- Z.even_spec, Zeven_mod; pose proof (zlen_nonneg p); generalize (zlen p); intros n.
  rewrite Z.eqb_eq; Z.div_mod_to_equations; lia.
Qed.

(** ** Fragmentation *)
Lemma mpa_recv_loop_step fuel n rcvd buf s v s' :
  recv false (u64 (n - rcvd)) s = (v, s') -> 0 < rcvd + rv_ret v < n ->
  mpa_recv_loop (S fuel) n rcvd buf s =
    mpa_recv_loop fuel n (rcvd + rv_ret v) (store_at rcvd (rv_data v) buf) s'.
Proof. intros E H; cbn [mpa_recv_loop]; rewrite E; do 2 case_Z; try lia; done. Qed.

Lemma mpa_recv_loop_frag fuel n buf s :
  rx_clean (rx s) -> zlen buf < n <= MAX_RW_COUNT ->
  n - zlen buf <= zlen (rx_stream (rx s)) -> (Z.to_nat (n - zlen buf) <= fuel)%nat ->
  exists r', mpa_recv_loop fuel n (zlen buf) buf s =
      Some (n, buf ++ ztake (n - zlen buf) (rx_stream (rx s)), set_rx r' s) /\
    rx_clean r' /\ rx_stream r' = zdrop (n - zlen buf) (rx_stream (rx s)).
Proof.
  revert buf s; induction fuel as [|fuel IH]; intros buf s Hc Hn Hs Hf; [lia|].
  pose proof (zlen_nonneg buf).
  destruct (recv_rx false (n - zlen buf) (rx s)) as [v r1] eqn:E.
  pose proof (recv_rx_stream _ _ _ _ _ E) as Es.
  apply recv_rx_clean in E as E'; [|lia|done]; destruct E' as (Hc1&Hret&Hpos).
  assert (0 < rv_ret v <= n - zlen buf) as Hv.
  { apply Hpos; intros En; rewrite En, zlen_nil in Hs; lia. }
  assert (recv false (u64 (n - zlen buf)) s = (v, set_rx r1 s)) as Er.
  { unfold recv; rewrite wrap_small by (unfold MAX_RW_COUNT in *; word_lia).
    destruct (Z.eqb_spec (n - zlen buf) 0); [lia|].
    by rewrite Z.min_l, E by lia. }
  rewrite Es, zlen_app in Hs.
  destruct (Z.lt_ge_cases (zlen buf + rv_ret v) n) as [Hlt|Hge].
  - rewrite (mpa_recv_loop_step _ _ _ _ _ _ _ Er) by lia; rewrite store_at_end.
    assert (zlen (buf ++ rv_data v) = zlen buf + rv_ret v) as Hl by (rewrite zlen_app; lia).
    destruct (IH (buf ++ rv_data v) (set_rx r1 s)) as (r'&He&Hc'&Hs');
      [done|lia|rewrite rx_set_rx; lia|lia|].
    rewrite Hl in *; rewrite rx_set_rx in *; exists r'; rewrite He, set_rx_set_rx; split_all.
    + do 3 f_equal; rewrite Es, <- app_assoc; f_equal.
      replace (n - zlen buf) with (zlen (rv_data v) + (n - (zlen buf + rv_ret v))) by lia.
      by rewrite ztake_add, ztake_app_exact, zdrop_app_exact by lia.
    + done.
    + rewrite Hs', Es.
      replace (n - zlen buf) with (zlen (rv_data v) + (n - (zlen buf + rv_ret v))) by lia.
      by rewrite <- zdrop_zdrop, zdrop_app_exact by lia.
  - cbn [mpa_recv_loop]; rewrite Er; do 2 case_Z; try lia.
    rewrite store_at_end; exists r1; rewrite Es, ztake_app_exact, zdrop_app_exact by lia.
    split_all; [|done|done]; do 3 f_equal; lia.
Qed.

(** C21: However the network cuts the payload, the receive loop terminates within
    as many iterations as there are bytes to read, and returns exactly the next
    [n] bytes of the stream. *)
Theorem mpa_recv_loop_any_fragmentation n s :
  rx_clean (rx s) -> 0 < n <= MAX_RW_COUNT -> n <= zlen (rx_stream (rx s)) ->
  exists r', mpa_recv_loop (Z.to_nat n) n 0 [] s =
      Some (n, ztake n (rx_stream (rx s)), set_rx r' s) /\
    rx_clean r' /\ rx_stream r' = zdrop n (rx_stream (rx s)).
Proof.
  intros Hc Hn Hs; destruct (mpa_recv_loop_frag (Z.to_nat n) n [] s) as (r'&H1&H2&H3);
    rewrite ?zlen_nil; try lia; [done|].
  exists r'; rewrite zlen_nil, Z.sub_0_r in *; done.
Qed.

Lemma mpa_recv_loop_any_fragmentation_witness :
  exists r', mpa_recv_loop 3 3 0 []
      {| rx := [RxData [Z_byte 1]; RxData []; RxData [Z_byte 2]; RxData [Z_byte 3; Z_byte 4]];
         tx := []; tx_plan := [] |} =
      Some (3, [Z_byte 1; Z_byte 2; Z_byte 3], {| rx := r'; tx := []; tx_plan := [] |}) /\
    rx_clean r' /\ rx_stream r' = [Z_byte 4].
Proof.
  apply (mpa_recv_loop_any_fragmentation 3
    {| rx := [RxData [Z_byte 1]; RxData []; RxData [Z_byte 2]; RxData [Z_byte 3; Z_byte 4]];
       tx := []; tx_plan := [] |}).
  - repeat constructor.
  - vm_compute; split; congruence.
  - vm_compute; congruence.
Defined.

(** C40: When the peer closes after part of the payload has arrived, [recv]
    returns 0 for ever, the counter stays positive and below the target, and the
    loop never leaves: no amount of fuel produces a result. *)
Theorem mpa_recv_loop_eof_diverges n a s fuel :
  rx s = [RxData a] -> 0 < zlen a < n -> n <= MAX_RW_COUNT ->
  mpa_recv_loop fuel n 0 [] s = None.
Proof.
  intros Hr Ha Hn.
  assert (forall f buf r, (r = [RxData []] \/ r = []) ->
    mpa_recv_loop f n (zlen a) buf (set_rx r s) = None) as Hloop.
  { intros f; induction f as [|f IH]; intros buf r Hd; [done|].
    rewrite (mpa_recv_loop_step f n _ _ _ (rv_bytes []) (set_rx [] s)).
    - cbn [rv_ret rv_data rv_bytes]; rewrite zlen_nil, Z.add_0_r; apply IH; by right.
    - unfold recv; rewrite wrap_small by (unfold MAX_RW_COUNT in *; word_lia).
      destruct (Z.eqb_spec (n - zlen a) 0); [lia|]; by destruct Hd as [-> | ->].
    - cbn [rv_ret rv_bytes]; znil; lia. }
  destruct fuel as [|fuel]; [done|].
  rewrite (mpa_recv_loop_step fuel n 0 [] s (rv_bytes a) (set_rx [RxData []] s)).
  - cbn [rv_ret rv_bytes rv_data]; apply Hloop; by left.
  - unfold recv; rewrite Z.sub_0_r, wrap_small by (unfold MAX_RW_COUNT in *; word_lia).
    destruct (Z.eqb_spec n 0); [lia|]; rewrite Hr, Z.min_l by lia.
    destruct a as [|x a]; [znil; lia|]; cbn [recv_rx].
    by rewrite ztake_ge, zdrop_ge by lia.
  - cbn [rv_ret rv_bytes]; lia.
Qed.

Lemma mpa_recv_loop_eof_diverges_witness :
  mpa_recv_loop 1000 3 0 [] {| rx := [RxData [Z_byte 1]]; tx := []; tx_plan := [] |} = None.
Proof.
  apply (mpa_recv_loop_eof_diverges 3 [Z_byte 1]);
    [reflexivity|vm_compute; split; congruence|vm_compute; congruence].
Defined.

(** A transient [recv] error in the middle of the payload is added to the
    byte counter as -1: the loop goes on one byte short, the next delivery
    overwrites the last byte already stored, and the call ends as a success on
    a payload that lacks that byte. *)
Theorem mpa_recv_loop_error_drops_byte a b e r s fuel :
  rx s = RxData a :: RxErr e :: RxData b :: r ->
  2 <= zlen a -> 0 < zlen b -> zlen a + zlen b - 1 <= MAX_RW_COUNT ->
  zlen a < zlen a + zlen b - 1 ->
  mpa_recv_loop (S (S (S (S fuel)))) (zlen a + zlen b - 1) 0 [] s =
    Some (zlen a + zlen b - 1, ztake (zlen a - 1) a ++ b, set_rx (RxData [] :: r) s).
Proof.
  intros Hr Ha Hb Hm Hlt; unfold MAX_RW_COUNT in *.
  rewrite (mpa_recv_loop_step _ _ _ _ _ (rv_bytes a)
    (set_rx (RxData [] :: RxErr e :: RxData b :: r) s)); [|  |cbn; lia].
  2:{ unfold recv; rewrite wrap_small by word_lia.
      destruct (Z.eqb_spec (zlen a + zlen b - 1 - 0) 0); [lia|].
      rewrite Hr, Z.min_l by (unfold MAX_RW_COUNT; lia).
      destruct a as [|x a]; [znil; lia|]; cbn [recv_rx].
      by rewrite ztake_ge, zdrop_ge by lia. }
  cbn [rv_ret rv_bytes rv_data]; rewrite Z.add_0_l.
  change (store_at 0 a []) with (store_at (zlen (@nil byte)) a []); rewrite store_at_end, app_nil_l.
  rewrite (mpa_recv_loop_step _ _ _ _ _ (rv_fail e) (set_rx (RxData b :: r) s)); [|  |cbn; lia].
  2:{ unfold recv; rewrite wrap_small by word_lia.
      destruct (Z.eqb_spec (zlen a + zlen b - 1 - zlen a) 0); [lia|]; done. }
  cbn [rv_ret rv_fail rv_data].
  assert (store_at (zlen a) [] a = a) as -> by (by rewrite store_at_end, app_nil_r).
  cbn [mpa_recv_loop].
  replace (zlen a + zlen b - 1 - (zlen a + -1)) with (zlen b) by lia.
  rewrite wrap_small by word_lia.
  pose proof (recv_exact false b [] r (set_rx (RxData b :: r) s)) as E.
  rewrite E; [|by rewrite app_nil_r|intros ->; znil; lia|unfold MAX_RW_COUNT; lia].
  cbn [rv_ret rv_bytes rv_data]; do 2 case_Z; try lia.
  unfold store_at; rewrite (zdrop_ge _ a) by lia; rewrite app_nil_r.
  replace (zlen a + -1 + zlen b) with (zlen a + zlen b - 1) by lia.
  by replace (zlen a + -1) with (zlen a - 1) by lia.
Qed.

Lemma mpa_recv_loop_error_drops_byte_witness :
  mpa_recv_loop 4 3 0 []
    {| rx := [RxData [Z_byte 1; Z_byte 2]; RxErr 4; RxData [Z_byte 3; Z_byte 4]];
       tx := []; tx_plan := [] |} =
  Some (3, [Z_byte 1; Z_byte 3; Z_byte 4], {| rx := [RxData []]; tx := []; tx_plan := [] |}).
Proof.
  apply (mpa_recv_loop_error_drops_byte [Z_byte 1; Z_byte 2] [Z_byte 3; Z_byte 4] 4 []
    {| rx := [RxData [Z_byte 1; Z_byte 2]; RxErr 4; RxData [Z_byte 3; Z_byte 4]];
       tx := []; tx_plan := [] |} 0);
    [reflexivity|vm_compute; congruence|vm_compute; congruence|vm_compute; congruence|
     vm_compute; congruence].
Defined.

(** ** Reading one PDU in several calls *)

(** The calls of a client that takes the payload in pieces of the given sizes. *)
Fixpoint mpa_recv_pieces (fuel : nat) (info : siw_mpa_packet) (sizes : list Z) (s : sock)
  : option (list (list byte) * siw_mpa_packet * sock) :=
  match sizes with
  | [] => Some ([], info, s)
  | n :: sizes =>
      match mpa_recv fuel info n s with
      | None => None
      | Some o =>
          match mpa_recv_pieces fuel (mo_info o) sizes (mo_sock o) with
          | None => None
          | Some (bufs, info, s) => Some (mo_buf o :: bufs, info, s)
          end
      end
  end.

Lemma mpa_recv_pieces_at fuel len k c ps p rest r s :
  rx s = RxData (concat ps ++ p ++ mpa_trailer len ++ rest) :: r ->
  Forall (fun q => q <> []) ps -> p <> [] -> 0 <= k -> in_u 16 len ->
  k + sum_zlen ps + zlen p = len ->
  mpa_recv_pieces (S fuel) (mpa_at len k c) (map zlen ps ++ [zlen p]) s =
    Some (ps ++ [p], mpa_done len, set_rx (RxData rest :: r) s).
Proof.
  revert k s; induction ps as [|q ps IH]; intros k s Hr Hps Hp Hk Hl Hsum;
    cbn [map app mpa_recv_pieces].
  - unfold sum_zlen in Hsum; cbn [concat] in *; znil; rewrite app_nil_l in Hr.
    by rewrite (mpa_recv_last fuel len k c (zlen p) p rest r s) by (done || lia).
  - apply Forall_cons_1 in Hps as [Hq Hps]; cbn [concat] in Hr.
    rewrite <- app_assoc in Hr; rewrite sum_zlen_cons in Hsum.
    assert (0 < zlen p) by (destruct p; [done|zlen_lia]).
    assert (0 <= sum_zlen ps) by apply zlen_nonneg; pose proof (zlen_nonneg q).
    rewrite (mpa_recv_part fuel len k c q _ r s Hr) by (done || lia); cbn [mo_info mo_sock mo_buf].
    by rewrite (IH (k + zlen q) (set_rx _ s)) by (done || lia).
Qed.

(** C36: [mpa_recv] may be called several times for one PDU: if the whole frame has
    arrived and the requested sizes, none of them 0, add up to the PDU's length, each
    call stores the next piece of the payload, the last one also consumes the padding
    and the CRC, and the stream is left at the first byte after the frame. *)
Theorem mpa_recv_in_pieces fuel ps p rest r s :
  Forall (fun q => q <> []) ps -> p <> [] -> sum_zlen (ps ++ [p]) < 2 ^ 16 ->
  rx s = RxData (fpdu (concat (ps ++ [p])) ++ rest) :: r ->
  mpa_recv_pieces (S fuel) new_mpa_packet (map zlen (ps ++ [p])) s =
    Some (ps ++ [p], mpa_done (sum_zlen (ps ++ [p])), set_rx (RxData rest :: r) s).
Proof.
  intros Hps Hp Hlt Hr; unfold fpdu in Hr; fold (sum_zlen (ps ++ [p])) in Hr.
  set (len := sum_zlen (ps ++ [p])) in *.
  assert (in_u 16 len) by (split; [apply zlen_nonneg|done]).
  rewrite <- !app_assoc, concat_app in Hr; cbn [concat] in Hr; rewrite app_nil_r in Hr.
  rewrite <- !app_assoc in Hr.
  assert (mpa_recv_pieces (S fuel) (mpa_at len 0 0) (map zlen (ps ++ [p]))
    (set_rx (RxData (concat ps ++ p ++ mpa_trailer len ++ rest) :: r) s) =
    Some (ps ++ [p], mpa_done len, set_rx (RxData rest :: r) s)) as E.
  { rewrite map_app; rewrite (mpa_recv_pieces_at fuel len 0 0 ps p rest r); try done.
    unfold len, sum_zlen; rewrite concat_app; cbn [concat]; zlen_lia. }
  rewrite <- E; destruct (map zlen (ps ++ [p])) as [|n ns] eqn:En; [by destruct ps|].
  cbn [mpa_recv_pieces]; unfold new_mpa_packet.
  by rewrite (mpa_recv_first (S fuel) len 0 n _ r s Hr).
Qed.

Lemma mpa_recv_in_pieces_witness :
  mpa_recv_pieces 1 new_mpa_packet [1; 2]
    {| rx := [RxData (fpdu [Z_byte 1; Z_byte 2; Z_byte 3] ++ [Z_byte 9])]; tx := []; tx_plan := [] |}
  = Some ([[Z_byte 1]; [Z_byte 2; Z_byte 3]], mpa_done 3,
          {| rx := [RxData [Z_byte 9]]; tx := []; tx_plan := [] |}).
Proof.
  apply (mpa_recv_in_pieces 0 [[Z_byte 1]] [Z_byte 2; Z_byte 3] [Z_byte 9] []
    {| rx := [RxData (fpdu [Z_byte 1; Z_byte 2; Z_byte 3] ++ [Z_byte 9])]; tx := []; tx_plan := [] |});
    [repeat constructor; congruence|congruence|vm_compute; reflexivity|reflexivity].
Defined.
