(* ===== verification/MpaConnect.v ===== *)
(** * MPA: connection setup ([suiw/mpa/mpa.cpp])

    The request/reply exchange that precedes framing: [mpa_send_rr],
    [mpa_recv_rr], [mpa_client_connect] and [mpa_server_accept], with the
    [USE_TAS] workarounds disabled as [common.h] ships them.

    A buffer argument is the list of its bytes; [pdata = None] is a null
    pointer.  The global [mpa_protocol_version] is threaded explicitly. *)

From S2P Require Import Prelude Endian Wire Socket Mpa.

(** ** The request/reply header on the wire *)
Definition MPA_RR_SIZE : Z := 20.

Definition mpa_rr_bytes (h : mpa_rr) : list byte :=
  take MPA_RR_KEY_LEN (rr_key h ++ replicate MPA_RR_KEY_LEN (Z_byte 0)) ++
  le_bytes 2 (rr_bits (rr_params h)) ++ le_bytes 2 (rr_pd_len (rr_params h)).

Definition mpa_rr_of_bytes (bs : list byte) : mpa_rr :=
  let '(bits, bs') := get_le 2 (drop MPA_RR_KEY_LEN bs) in
  {| rr_key := take MPA_RR_KEY_LEN bs;
     rr_params := {| rr_bits := bits; rr_pd_len := (get_le 2 bs').1 |} |}.

Definition wf_mpa_rr (h : mpa_rr) : Prop :=
  length (rr_key h) = MPA_RR_KEY_LEN /\
  in_u 16 (rr_bits (rr_params h)) /\ in_u 16 (rr_pd_len (rr_params h)).

Lemma mpa_rr_roundtrip h rest :
  wf_mpa_rr h -> mpa_rr_of_bytes (mpa_rr_bytes h ++ rest) = h.
Proof.
  destruct h as [key [bits pd]]; intros (Hk&Hb&Hp); cbn [rr_key rr_params rr_bits rr_pd_len] in *.
  unfold mpa_rr_of_bytes, mpa_rr_bytes; cbn [rr_key rr_params rr_bits rr_pd_len].
  rewrite take_app_length' by done; rewrite <- !app_assoc.
  rewrite drop_app_length', take_app_length' by done.
  rewrite get_le_bytes, get_le_bytes; cbn [fst].
  by rewrite !wrap_small.
Qed.

Lemma length_mpa_rr_bytes h : length (mpa_rr_bytes h) = 20%nat.
Proof.
  unfold mpa_rr_bytes, MPA_RR_KEY_LEN.
  rewrite !length_app, length_take, length_app, length_replicate, !length_le_bytes; lia.
Qed.

#[global] Instance mpa_rr_codec : Codec mpa_rr 20 := {|
  wf_codec := wf_mpa_rr; encode := mpa_rr_bytes; decode := mpa_rr_of_bytes;
  length_encode := length_mpa_rr_bytes; decode_encode := mpa_rr_roundtrip |}.

(** ** Sending *)
Definition mpa_rr_header (req : bool) (pd_len : Z) : mpa_rr :=
  {| rr_key := if req then MPA_KEY_REQ else MPA_KEY_REP;
     rr_params := {| rr_bits := mpa_rr_set_revision 0 MPA_REVISION_1;
                     rr_pd_len := cpu_to_be16 pd_len |} |}.

Definition mpa_send_rr (pdata : list byte) (pd_len : Z) (req : bool) (s : sock) : Z * sock :=
  let hdr := mpa_rr_header req pd_len in
  let iov := encode hdr :: (if pd_len =? 0 then [] else [ztake pd_len pdata]) in
  sendmsg (concat iov) s.

(** ** Receiving *)
Record siw_mpa_info := {
  info_hdr : mpa_rr; info_v2_ctrl : mpa_v2_data; info_v2_ctrl_req : mpa_v2_data;
  info_pdata : option (list byte); info_bytes_rcvd : Z }.

Definition zero_mpa_rr : mpa_rr :=
  {| rr_key := replicate MPA_RR_KEY_LEN (Z_byte 0); rr_params := {| rr_bits := 0; rr_pd_len := 0 |} |}.

(** [memset(&info, 0, sizeof info)] followed by [info.pdata = pdata_recv]. *)
Definition new_mpa_info (pdata_recv : option (list byte)) : siw_mpa_info :=
  {| info_hdr := zero_mpa_rr; info_v2_ctrl := {| v2_ird := 0; v2_ord := 0 |};
     info_v2_ctrl_req := {| v2_ird := 0; v2_ord := 0 |};
     info_pdata := pdata_recv; info_bytes_rcvd := 0 |}.

Definition set_info_hdr (h : mpa_rr) (i : siw_mpa_info) : siw_mpa_info :=
  {| info_hdr := h; info_v2_ctrl := info_v2_ctrl i; info_v2_ctrl_req := info_v2_ctrl_req i;
     info_pdata := info_pdata i; info_bytes_rcvd := info_bytes_rcvd i |}.
Definition set_info_pdata (p : option (list byte)) (i : siw_mpa_info) : siw_mpa_info :=
  {| info_hdr := info_hdr i; info_v2_ctrl := info_v2_ctrl i;
     info_v2_ctrl_req := info_v2_ctrl_req i; info_pdata := p; info_bytes_rcvd := info_bytes_rcvd i |}.

(** [strncmp(MPA_KEY_REQ, key, 16) == 0]: the key has no null byte, so the
    strings agree exactly when all sixteen bytes do. *)
Definition is_mpa_req (h : mpa_rr) : bool := bool_decide (rr_key h = MPA_KEY_REQ).

(** [malloc_ok] says whether [malloc] succeeds.  A freshly allocated buffer has
    no known content, so it starts as the bytes that are then received. *)
Definition mpa_recv_rr (malloc_ok : bool) (info : siw_mpa_info) (s : sock)
  : Z * siw_mpa_info * sock :=
  let '(v, s) := recv false MPA_RR_SIZE s in
  let info := set_info_hdr (decode (overlay (rv_data v) (encode (info_hdr info)))) info in
  (* [int < size_t]: the comparison is unsigned *)
  if u64 (rv_ret v) <? MPA_RR_SIZE then (-1, info, s)
  else
    let hdr := info_hdr info in
    let pd_len := be16_to_cpu (rr_pd_len (rr_params hdr)) in
    let is_req := is_mpa_req hdr in
    if pd_len =? 0 then
      if is_req then
        let '(v, s) := recv true 4 s in
        if (rv_ret v =? -1) && (rv_errno v =? EAGAIN) then (0, info, s)
        else if 0 <? rv_ret v then (rv_ret v, info, s)
        else if rv_ret v <? 0 then (rv_ret v, info, s)
        else (- EPIPE, info, s)
      else (MPA_RR_SIZE, info, s)
    else
      match info_pdata info, malloc_ok with
      | None, false => (- ENOMEM, info, s)
      | old, _ =>
          let '(v, s) := recv true (if is_req then pd_len + 4 else pd_len) s in
          let info := set_info_pdata (Some (overlay (rv_data v) (default [] old))) info in
          if rv_ret v <? 0 then (rv_ret v, info, s)
          else if pd_len <? rv_ret v then (- EPROTO, info, s)
          else (rv_ret v, info, s)
      end.

(** ** The two endpoints *)
Definition mpa_client_connect (malloc_ok : bool) (pdata_send : list byte) (pd_len : Z)
    (pdata_recv : option (list byte)) (version : Z) (s : sock) : Z * Z * siw_mpa_info * sock :=
  let '(ret, s) := mpa_send_rr pdata_send pd_len true s in
  if ret <? 0 then (ret, version, new_mpa_info pdata_recv, s)
  else
    let '(ret, info, s) := mpa_recv_rr malloc_ok (new_mpa_info pdata_recv) s in
    if ret <? 0 then (ret, version, info, s)
    else (0, mpa_rr_revision (rr_bits (rr_params (info_hdr info))), info, s).

Definition mpa_server_accept (malloc_ok : bool) (pdata_send : list byte) (pd_len : Z)
    (pdata_recv : option (list byte)) (version : Z) (s : sock) : Z * Z * siw_mpa_info * sock :=
  let '(ret, info, s) := mpa_recv_rr malloc_ok (new_mpa_info pdata_recv) s in
  if ret <? 0 then (ret, version, info, s)
  else
    let version := mpa_rr_revision (rr_bits (rr_params (info_hdr info))) in
    let '(ret, s) := mpa_send_rr pdata_send pd_len false s in
    if ret <? 0 then (ret, version, info, s) else (0, version, info, s).

(** ** Lemmas *)
Lemma wf_mpa_rr_header req pd : in_u 8 pd -> wf_mpa_rr (mpa_rr_header req pd).
Proof.
  intros H; unfold wf_mpa_rr; split_all.
  - destruct req; reflexivity.
  - split; vm_compute; congruence.
  - cbn [rr_params rr_pd_len mpa_rr_header]; apply (swap_range 2).
Qed.

Lemma rr_header_pd_len req pd :
  in_u 8 pd -> be16_to_cpu (rr_pd_len (rr_params (mpa_rr_header req pd))) = pd.
Proof.
  intros H; cbn [rr_params rr_pd_len mpa_rr_header]; unfold be16_to_cpu, cpu_to_be16.
  rewrite (wrap_small 16 pd), (wrap_small 16 (htons pd)), ntohs_htons, wrap_small;
    try word_lia; apply (swap_range 2).
Qed.

Lemma rr_header_revision req pd :
  mpa_rr_revision (rr_bits (rr_params (mpa_rr_header req pd))) = MPA_REVISION_1.
Proof. vm_compute; reflexivity. Qed.

Lemma rr_header_is_req req pd : is_mpa_req (mpa_rr_header req pd) = req.
Proof. destruct req; vm_compute; reflexivity. Qed.

Lemma mpa_send_rr_full pdata req s :
  zlen pdata < 2 ^ 8 -> tx_plan s = [] ->
  mpa_send_rr pdata (zlen pdata) req s =
    (MPA_RR_SIZE + zlen pdata,
     {| rx := rx s; tx := tx s ++ encode (mpa_rr_header req (zlen pdata)) ++ pdata; tx_plan := [] |}).
Proof.
  intros Hl Hp; unfold mpa_send_rr.
  assert (concat (encode (mpa_rr_header req (zlen pdata)) ::
    (if zlen pdata =? 0 then [] else [ztake (zlen pdata) pdata])) =
    encode (mpa_rr_header req (zlen pdata)) ++ pdata) as ->.
  { destruct (Z.eqb_spec (zlen pdata) 0) as [E|E]; cbn [concat].
    - apply Z.eq_le_incl, zlen_0_inv in E; by rewrite E.
    - by rewrite app_nil_r, ztake_ge by lia. }
  rewrite sendmsg_full by done; f_equal.
  rewrite zlen_app; unfold zlen at 1; by rewrite length_encode.
Qed.

(** The header part of [mpa_recv_rr], once its twenty bytes are there. *)
Lemma recv_rr_header s req pd tl r :
  rx s = RxData (encode (mpa_rr_header req pd) ++ tl) :: r ->
  recv false MPA_RR_SIZE s =
    (rv_bytes (encode (mpa_rr_header req pd)), set_rx (RxData tl :: r) s).
Proof.
  intros Hr; pose proof (recv_exact false _ tl r s Hr) as E.
  assert (zlen (encode (mpa_rr_header req pd)) = MPA_RR_SIZE) as Hz.
  { unfold zlen; by rewrite length_encode. }
  rewrite Hz in E; apply E; [|vm_compute; congruence].
  intros En; rewrite En in Hz; done.
Qed.

Lemma overlay_encode {T n} `{Codec T n} (x y : T) : overlay (encode x) (encode y) = encode x.
Proof. apply overlay_full; rewrite !length_encode; lia. Qed.

(** Reception of a well-formed request or reply with its private data. *)
Lemma mpa_recv_rr_ok req pdata old r s :
  zlen pdata < 2 ^ 8 ->
  rx s = RxData (encode (mpa_rr_header req (zlen pdata)) ++ pdata) :: RxGap :: r ->
  exists ret info s',
    mpa_recv_rr true (new_mpa_info (Some old)) s = (ret, info, s') /\ 0 <= ret /\
    info_hdr info = mpa_rr_header req (zlen pdata) /\
    info_pdata info = Some (overlay pdata old) /\
    tx s' = tx s /\ tx_plan s' = tx_plan s /\ rx_stream (rx s') = rx_stream r.
Proof.
  intros Hl Hr; unfold mpa_recv_rr; rewrite (recv_rr_header s req _ _ _ Hr).
  cbn [rv_ret rv_bytes rv_data info_hdr new_mpa_info set_info_hdr info_pdata].
  assert (in_u 8 (zlen pdata)) as Hu by (split; [apply zlen_nonneg|done]).
  rewrite overlay_encode, decode_encode_nil by (by apply wf_mpa_rr_header).
  assert (zlen (encode (mpa_rr_header req (zlen pdata))) = MPA_RR_SIZE) as ->.
  { unfold zlen; by rewrite length_encode. }
  change (u64 MPA_RR_SIZE <? MPA_RR_SIZE) with false; cbv iota.
  rewrite rr_header_pd_len, rr_header_is_req by done.
  destruct (Z.eqb_spec (zlen pdata) 0) as [E|E].
  - apply Z.eq_le_incl, zlen_0_inv in E as ->; destruct req.
    + unfold recv; cbn; do 3 eexists; split_all; try done; lia.
    + do 3 eexists; split_all; try done; vm_compute; congruence.
  - assert (recv true (if req then zlen pdata + 4 else zlen pdata)
      (set_rx (RxData pdata :: RxGap :: r) s) =
      (rv_bytes pdata, set_rx (RxData [] :: RxGap :: r) s)) as ->.
    { unfold recv; destruct pdata as [|x p]; [done|].
      pose proof (zlen_nonneg (x :: p)); set (n := if req then _ else _).
      assert (zlen (x :: p) <= n <= 260) as Hn by (unfold n; destruct req; word_lia).
      destruct (Z.eqb_spec n 0); [lia|]; cbn [rx set_rx recv_rx].
      by rewrite ztake_ge, zdrop_ge by (unfold MAX_RW_COUNT; lia). }
    cbn [rv_ret rv_bytes rv_data].
    pose proof (zlen_nonneg pdata).
    destruct (Z.ltb_spec (zlen pdata) 0); [lia|]; rewrite Z.ltb_irrefl.
    do 3 eexists; split_all; done.
Qed.

(** The header alone, the private data later: the second [recv] does not wait. *)
Lemma mpa_recv_rr_late req (pdata old : list byte) late r s :
  zlen pdata < 2 ^ 8 -> pdata <> [] ->
  rx s = RxData (encode (mpa_rr_header req (zlen pdata))) :: RxGap :: late :: r ->
  exists info s', mpa_recv_rr true (new_mpa_info (Some old)) s = (-1, info, s') /\ tx s' = tx s.
Proof.
  intros Hl Hne Hr; rewrite <- (app_nil_r (encode _)) in Hr; unfold mpa_recv_rr.
  rewrite (recv_rr_header s req _ _ _ Hr).
  cbn [rv_ret rv_bytes rv_data info_hdr new_mpa_info set_info_hdr info_pdata].
  assert (in_u 8 (zlen pdata)) as Hu by (split; [apply zlen_nonneg|done]).
  rewrite overlay_encode, decode_encode_nil by (by apply wf_mpa_rr_header).
  assert (zlen (encode (mpa_rr_header req (zlen pdata))) = MPA_RR_SIZE) as ->.
  { unfold zlen; by rewrite length_encode. }
  change (u64 MPA_RR_SIZE <? MPA_RR_SIZE) with false; cbv iota.
  rewrite rr_header_pd_len, rr_header_is_req by done; pose proof (zlen_nonneg pdata).
  destruct (Z.eqb_spec (zlen pdata) 0) as [E|E]; [by apply Z.eq_le_incl, zlen_0_inv in E|].
  unfold recv; destruct (Z.eqb_spec (if req then zlen pdata + 4 else zlen pdata) 0); [destruct req; lia|].
  by do 2 eexists.
Qed.

(** ** The handshake *)

(** The network between the two endpoints: what [a] wrote is delivered to [b] in
    one piece, and nothing more arrives for the moment. *)
Definition deliver (a b : sock) : sock := set_rx (RxData (tx a) :: RxGap :: rx b) b.

Definition fresh_sock : sock := {| rx := []; tx := []; tx_plan := [] |}.

(** The same bytes, but the private data arrives after the header has been read. *)
Definition deliver_apart (a b : sock) : sock :=
  set_rx (RxData (ztake MPA_RR_SIZE (tx a)) :: RxGap :: RxData (zdrop MPA_RR_SIZE (tx a)) :: rx b) b.

(** C30: A client and a server exchange private data of up to 255 bytes, into buffers
    that can hold it.  If a request and its reply each arrive in one piece, and nothing
    behind them yet, both ends complete the handshake: the server's accept and the
    client's connect return 0, both read revision 1 from the peer's header, and each
    buffer begins with exactly the private data the other side sent.  If the private
    data arrives after the header has been read, the end that reads it, which does not
    wait, fails with -1 instead, and a server does so without replying. *)
Theorem mpa_handshake cdata sdata cbuf sbuf v0 :
  zlen cdata < 2 ^ 8 -> zlen sdata < 2 ^ 8 ->
  zlen cdata <= zlen sbuf -> zlen sdata <= zlen cbuf ->
  let c1 := (mpa_send_rr cdata (zlen cdata) true fresh_sock).2 in
  let s1 := (mpa_send_rr sdata (zlen sdata) false fresh_sock).2 in
  (exists sinfo s2 cinfo c2,
    mpa_server_accept true sdata (zlen sdata) (Some sbuf) v0 (deliver c1 fresh_sock) =
      (0, MPA_REVISION_1, sinfo, s2) /\ tx s2 = tx s1 /\
    mpa_client_connect true cdata (zlen cdata) (Some cbuf) v0 (deliver s2 fresh_sock) =
      (0, MPA_REVISION_1, cinfo, c2) /\
    info_pdata sinfo = Some (overlay cdata sbuf) /\ info_pdata cinfo = Some (overlay sdata cbuf)) /\
  (cdata <> [] -> exists sinfo s2,
    mpa_server_accept true sdata (zlen sdata) (Some sbuf) v0 (deliver_apart c1 fresh_sock) =
      (-1, v0, sinfo, s2) /\ tx s2 = []) /\
  (sdata <> [] -> exists cinfo c2,
    mpa_client_connect true cdata (zlen cdata) (Some cbuf) v0 (deliver_apart s1 fresh_sock) =
      (-1, v0, cinfo, c2)).
Proof.
  intros Hc Hs _ _ c1 s1.
  assert (forall req (d : list byte), zlen d < 2 ^ 8 -> (mpa_send_rr d (zlen d) req fresh_sock).2 =
    {| rx := []; tx := encode (mpa_rr_header req (zlen d)) ++ d; tx_plan := [] |}) as Hsend.
  { intros req d Hd; by rewrite mpa_send_rr_full. }
  assert (forall req d (l : list byte), ztake MPA_RR_SIZE (encode (mpa_rr_header req d) ++ l) = encode (mpa_rr_header req d)) as Htake.
  { intros req d l; apply take_app_length'; by rewrite length_encode. }
  unfold c1, s1; rewrite !Hsend by done; clear c1 s1 Hsend; pose proof (zlen_nonneg cdata); pose proof (zlen_nonneg sdata).
  split; [|split].
  - destruct (mpa_recv_rr_ok true cdata sbuf [] (deliver
      {| rx := []; tx := encode (mpa_rr_header true (zlen cdata)) ++ cdata; tx_plan := [] |}
      fresh_sock)) as (ret&sinfo&s1&E&Hret&Hh&Hpd&Htx&Hpl&_); [done..|].
    destruct (mpa_recv_rr_ok false sdata cbuf []
      {| rx := [RxData (encode (mpa_rr_header false (zlen sdata)) ++ sdata); RxGap];
         tx := encode (mpa_rr_header true (zlen cdata)) ++ cdata; tx_plan := [] |})
      as (ret'&cinfo&s3&E'&Hret'&Hh'&Hpd'&_&_&_); [done..|].
    do 4 eexists; split_all; [| | |exact Hpd|exact Hpd'].
    + unfold mpa_server_accept; rewrite E, Hh, rr_header_revision.
      destruct (Z.ltb_spec ret 0); [lia|].
      rewrite mpa_send_rr_full by (done || by rewrite Hpl); unfold MPA_RR_SIZE.
      destruct (Z.ltb_spec (20 + zlen sdata) 0); [lia|done].
    + cbn [tx]; by rewrite Htx.
    + unfold mpa_client_connect; rewrite mpa_send_rr_full by done; unfold MPA_RR_SIZE.
      destruct (Z.ltb_spec (20 + zlen cdata) 0); [lia|].
      unfold deliver; cbn [set_rx rx tx tx_plan]; rewrite Htx, app_nil_l.
      cbn [deliver set_rx tx rx fresh_sock]; rewrite app_nil_l, E', Hh', rr_header_revision.
      destruct (Z.ltb_spec ret' 0); [lia|done].
  - intros Hne; unfold mpa_server_accept.
    edestruct (mpa_recv_rr_late true cdata sbuf) as (info & s' & -> & Htx); [done|done| |].
    { unfold deliver_apart; cbn [tx rx set_rx fresh_sock]; rewrite Htake; reflexivity. }
    by do 2 eexists.
  - intros Hne; unfold mpa_client_connect; rewrite mpa_send_rr_full by done; unfold MPA_RR_SIZE.
    destruct (Z.ltb_spec (20 + zlen cdata) 0); [lia|].
    edestruct (mpa_recv_rr_late false sdata cbuf) as (info & s' & -> & Htx); [done|done| |].
    { unfold deliver_apart; cbn [tx rx set_rx fresh_sock]; rewrite Htake; reflexivity. }
    by do 2 eexists.
Qed.

Lemma mpa_handshake_witness :
  let cdata := [Z_byte 1; Z_byte 2] in let sdata := [Z_byte 5] in
  let buf := replicate 3 (Z_byte 0) in
  let c1 := (mpa_send_rr cdata 2 true fresh_sock).2 in
  let s1 := (mpa_send_rr sdata 1 false fresh_sock).2 in
  (exists sinfo s2 cinfo c2,
    mpa_server_accept true sdata 1 (Some buf) 0 (deliver c1 fresh_sock) = (0, MPA_REVISION_1, sinfo, s2) /\
    tx s2 = tx s1 /\
    mpa_client_connect true cdata 2 (Some buf) 0 (deliver s2 fresh_sock) = (0, MPA_REVISION_1, cinfo, c2) /\
    info_pdata sinfo = Some (overlay cdata buf) /\ info_pdata cinfo = Some (overlay sdata buf)) /\
  (cdata <> [] -> exists sinfo s2,
    mpa_server_accept true sdata 1 (Some buf) 0 (deliver_apart c1 fresh_sock) = (-1, 0, sinfo, s2) /\ tx s2 = []) /\
  (sdata <> [] -> exists cinfo c2,
    mpa_client_connect true cdata 2 (Some buf) 0 (deliver_apart s1 fresh_sock) = (-1, 0, cinfo, c2)).
Proof.
  apply (mpa_handshake [Z_byte 1; Z_byte 2] [Z_byte 5] (replicate 3 (Z_byte 0)) (replicate 3 (Z_byte 0)) 0);
    vm_compute; congruence.
Defined.

(** [mpa_recv_rr] compares the result of [recv] with [sizeof] as unsigned
    numbers, so a failed [recv] is not an error: a client whose socket fails
    while it waits for the reply reports a successful connection, with protocol
    revision 0 read from the zeroed header. *)
Theorem mpa_client_connect_ignores_recv_error pdata v0 e r plan :
  zlen pdata < 2 ^ 8 -> plan = [] ->
  exists info s',
    mpa_client_connect true pdata (zlen pdata) None v0
      {| rx := RxErr e :: r; tx := []; tx_plan := plan |} = (0, 0, info, s').
Proof.
  intros Hl ->; unfold mpa_client_connect; rewrite mpa_send_rr_full by done.
  pose proof (zlen_nonneg pdata); unfold MPA_RR_SIZE.
  destruct (Z.ltb_spec (20 + zlen pdata) 0); [lia|].
  unfold mpa_recv_rr, recv; cbn [rx set_rx]; change (MPA_RR_SIZE =? 0) with false; cbv iota.
  cbn [recv_rx rv_ret rv_fail rv_data info_hdr new_mpa_info set_info_hdr info_pdata].
  change (u64 (-1) <? MPA_RR_SIZE) with false; cbv iota.
  assert (decode (overlay [] (encode zero_mpa_rr)) = zero_mpa_rr) as ->
    by (vm_compute; reflexivity).
  change (be16_to_cpu (rr_pd_len (rr_params zero_mpa_rr)) =? 0) with true.
  change (is_mpa_req zero_mpa_rr) with false.
  change (MPA_RR_SIZE <? 0) with false.
  change (mpa_rr_revision (rr_bits (rr_params zero_mpa_rr))) with 0.
  do 2 eexists; reflexivity.
Qed.

Lemma mpa_client_connect_ignores_recv_error_witness :
  exists info s',
    mpa_client_connect true [] 0 None 1 {| rx := [RxErr 104]; tx := []; tx_plan := [] |} =
      (0, 0, info, s').
Proof.
  apply (mpa_client_connect_ignores_recv_error [] 1 104 [] []); [vm_compute; congruence|reflexivity].
Defined.

(** A request without private data that is followed at once by other bytes is
    reported in the log but accepted: the server returns 0, and up to four bytes
    of the stream that follows the request are consumed and lost. *)
Theorem mpa_server_accept_swallows_garbage garbage r v0 :
  garbage <> [] ->
  exists info s',
    mpa_server_accept true [] 0 None v0
      {| rx := RxData (encode (mpa_rr_header true 0) ++ garbage) :: r; tx := []; tx_plan := [] |} =
      (0, MPA_REVISION_1, info, s') /\
    rx_stream (rx s') = zdrop 4 garbage ++ rx_stream r.
Proof.
  intros Hg; destruct garbage as [|g gs]; [done|].
  set (s0 := {| rx := _; tx := []; tx_plan := [] |}).
  unfold mpa_server_accept, mpa_recv_rr.
  rewrite (recv_rr_header s0 true 0 (g :: gs) r eq_refl).
  cbn [rv_ret rv_bytes rv_data info_hdr new_mpa_info set_info_hdr info_pdata].
  rewrite overlay_encode, decode_encode_nil by (apply wf_mpa_rr_header; word_lia).
  change (u64 (zlen (encode (mpa_rr_header true 0))) <? MPA_RR_SIZE) with false; cbv iota.
  rewrite rr_header_pd_len, rr_header_is_req by word_lia; rewrite Z.eqb_refl.
  unfold recv; cbn [rx set_rx recv_rx]; change (4 =? 0) with false; cbv iota.
  change (Z.min 4 MAX_RW_COUNT) with 4; cbn [rv_ret rv_bytes rv_data rv_errno].
  assert (0 < zlen (ztake 4 (g :: gs))) as Hpos.
  { rewrite zlen_ztake, zlen_cons; pose proof (zlen_nonneg gs); lia. }
  destruct (Z.eqb_spec (zlen (ztake 4 (g :: gs))) (-1)); [lia|].
  destruct (Z.ltb_spec 0 (zlen (ztake 4 (g :: gs)))); [|lia]; cbn [andb].
  destruct (Z.ltb_spec (zlen (ztake 4 (g :: gs))) 0); [lia|].
  cbn [info_hdr set_info_hdr]; rewrite rr_header_revision.
  change (mpa_send_rr [] 0 false) with (mpa_send_rr [] (zlen (@nil byte)) false).
  rewrite mpa_send_rr_full by done; change (MPA_RR_SIZE + zlen (@nil byte) <? 0) with false.
  do 2 eexists; split; [reflexivity|]; cbn [rx set_rx]; by rewrite rx_stream_data.
Qed.

Lemma mpa_server_accept_swallows_garbage_witness :
  exists info s',
    mpa_server_accept true [] 0 None 0
      {| rx := [RxData (encode (mpa_rr_header true 0) ++ [Z_byte 1])]; tx := []; tx_plan := [] |} =
      (0, MPA_REVISION_1, info, s') /\
    rx_stream (rx s') = zdrop 4 [Z_byte 1] ++ rx_stream [].
Proof. apply (mpa_server_accept_swallows_garbage [Z_byte 1] [] 0); congruence. Defined.

(** A peer that closes right after a request without private data, or that
    sends only part of the header, makes the server's accept fail, with
    [-EPIPE] and -1 respectively, before any reply is sent. *)
Theorem mpa_server_accept_errors (short : list byte) v0 :
  0 < zlen short < MPA_RR_SIZE ->
  (exists info s',
     mpa_server_accept true [] 0 None v0
       {| rx := [RxData (encode (mpa_rr_header true 0))]; tx := []; tx_plan := [] |} =
       (- EPIPE, v0, info, s') /\ tx s' = []) /\
  (exists info s',
     mpa_server_accept true [] 0 None v0
       {| rx := [RxData short]; tx := []; tx_plan := [] |} = (-1, v0, info, s') /\ tx s' = []).
Proof.
  intros Hs; split.
  - do 2 eexists; split; [vm_compute; reflexivity|reflexivity].
  - unfold mpa_server_accept, mpa_recv_rr, recv; cbn [rx].
    change (MPA_RR_SIZE =? 0) with false; cbv iota.
    destruct short as [|x xs]; [znil; lia|]; cbn [recv_rx].
    change (Z.min MPA_RR_SIZE MAX_RW_COUNT) with 20; unfold MPA_RR_SIZE in *.
    rewrite ztake_ge by lia; cbn [rv_ret rv_bytes rv_data].
    rewrite wrap_small by word_lia.
    destruct (Z.ltb_spec (zlen (x :: xs)) 20); [|lia].
    do 2 eexists; split; [reflexivity|done].
Qed.

Lemma mpa_server_accept_errors_witness :
  (exists info s',
     mpa_server_accept true [] 0 None 1
       {| rx := [RxData (encode (mpa_rr_header true 0))]; tx := []; tx_plan := [] |} =
       (- EPIPE, 1, info, s') /\ tx s' = []) /\
  (exists info s',
     mpa_server_accept true [] 0 None 1
       {| rx := [RxData [Z_byte 77]]; tx := []; tx_plan := [] |} = (-1, 1, info, s') /\ tx s' = []).
Proof. apply (mpa_server_accept_errors [Z_byte 77] 1); vm_compute; split; congruence. Defined.
