(* ===== verification/Printer.v ===== *)
(** * The header printer ([suiw/mpa/printer.cpp])

    [mpa_send_rr] and [mpa_recv_rr] log every connection header they send or
    receive through [print_mpa_rr], into a buffer of 1024 bytes; a received header
    is printed before its content is looked at. *)

From Stdlib Require Import String.
From S2P Require Import Prelude Endian Format Wire Socket Mpa MpaConnect.

(** The 1024 of the calls; the file's [MAX_BUF_LEN] is not used. *)
Definition LOG_BUF_LEN : Z := 1024.

(** [strncmp(key, hdr->key, MPA_RR_KEY_LEN)], as a condition: the bytes differ
    (a key has no NUL, so no difference hides behind one). *)
Definition key_differs (key : list byte) (h : mpa_rr) : bool := negb (bool_decide (rr_key h = key)).

Definition flag_set (bits flag : Z) : Z := if 0 <? Z.land bits flag then 1 else 0.

(** The text. *)
Definition mpa_rr_text (h : mpa_rr) : list byte :=
  let bits := rr_bits (rr_params h) in
  text "iWARP MPA RR Header" ++ [Z_byte 10; Z_byte 9] ++
  text "Key: " ++ print_str MPA_RR_KEY_LEN (rr_key h) ++ [Z_byte 10; Z_byte 9] ++
  text "Marker Flag: " ++ print_int (flag_set bits MPA_RR_FLAG_MARKERS) ++ [Z_byte 10; Z_byte 9] ++
  text "CRC Flag: " ++ print_int (flag_set bits MPA_RR_FLAG_CRC) ++ [Z_byte 10; Z_byte 9] ++
  text "Connection Rejected Flag: " ++ print_int (flag_set bits MPA_RR_FLAG_REJECT) ++ [Z_byte 10; Z_byte 9] ++
  text "Revision: " ++ print_int (mpa_rr_revision bits) ++ [Z_byte 10; Z_byte 9] ++
  text "PD Length: " ++ print_int (be16_to_cpu (rr_pd_len (rr_params h))) ++ [Z_byte 10].
(** [None]: nothing is printed and the buffer keeps what it held. *)
Definition print_mpa_rr (h : mpa_rr) : option (list byte) :=
  if key_differs MPA_KEY_REQ h || key_differs MPA_KEY_REP h
  then Some (snprintf LOG_BUF_LEN (mpa_rr_text h)) else None.

Definition print_ddp : list byte := snprintf LOG_BUF_LEN (text "iWARP DDP Header" ++ [Z_byte 10]).

(** ** The text fits, whatever the peer sent *)
Lemma print_flag_len bits flag : (length (print_int (flag_set bits flag)) <= 1)%nat.
Proof. unfold flag_set; destruct (0 <? _); vm_compute; lia. Qed.

Lemma print_u16_len z : in_u 16 z -> (length (print_int z) <= 10)%nat.
Proof. intros [H1 H2]; apply print_int_spec; change (2 ^ 16) with 65536 in H2; change (2 ^ 31) with 2147483648; lia. Qed.

Lemma print_revision_len bits : (length (print_int (mpa_rr_revision bits)) <= 10)%nat.
Proof.
  apply print_u16_len; unfold mpa_rr_revision.
  destruct (wrap_range 8 (be16_to_cpu (u16 (Z.land bits MPA_RR_MASK_REVISION))) ltac:(lia)) as [H1 H2].
  split; [exact H1|]; etrans; [exact H2|reflexivity].
Qed.

Lemma mpa_rr_text_len h : (length (mpa_rr_text h) <= 160)%nat.
Proof.
  unfold mpa_rr_text; rewrite !length_app.
  pose proof (length_print_str MPA_RR_KEY_LEN (rr_key h)) as Hk; unfold MPA_RR_KEY_LEN in *.
  pose proof (print_flag_len (rr_bits (rr_params h)) MPA_RR_FLAG_MARKERS).
  pose proof (print_flag_len (rr_bits (rr_params h)) MPA_RR_FLAG_CRC).
  pose proof (print_flag_len (rr_bits (rr_params h)) MPA_RR_FLAG_REJECT).
  pose proof (print_revision_len (rr_bits (rr_params h))).
  assert (length (print_int (be16_to_cpu (rr_pd_len (rr_params h)))) <= 10)%nat
    by apply print_u16_len, ntohs_range.
  repeat match goal with |- context [length (text ?s)] =>
    let n := eval vm_compute in (length (text s)) in change (length (text s)) with n end.
  cbn [length]; lia.
Qed.

(** Every header, also one a peer made up, is printed (a key cannot equal both of
    the keys it is compared with), and its text with the final NUL takes at most 161
    bytes: it fits the log buffer and is never cut.  The key of a proper request or
    reply appears in full. *)
Theorem print_mpa_rr_fits h :
  print_mpa_rr h = Some (mpa_rr_text h ++ [Z_byte 0]) /\
  zlen (mpa_rr_text h ++ [Z_byte 0]) <= 161 /\
  (rr_key h = MPA_KEY_REQ \/ rr_key h = MPA_KEY_REP -> print_str MPA_RR_KEY_LEN (rr_key h) = rr_key h).
Proof.
  pose proof (mpa_rr_text_len h) as Hl; split; [|split].
  - unfold print_mpa_rr, key_differs, snprintf, LOG_BUF_LEN.
    rewrite ztake_ge by (unfold zlen; lia).
    destruct (bool_decide_reflect (rr_key h = MPA_KEY_REQ)) as [->|]; [|done].
    by rewrite bool_decide_false by (by vm_compute).
  - rewrite zlen_app; unfold zlen; cbn [length]; lia.
  - intros [-> | ->]; reflexivity.
Qed.
