(* ===== verification/Memory.v ===== *)
(** * The process's memory

    The stack hands raw addresses to the socket layer: an RDMA Write lands at the
    address the peer put in the header, a work request names its payload by
    address and length.  Memory is a finite map from 64-bit addresses to bytes;
    address arithmetic wraps at 2^64.  Cells that were never written read as
    zero, so the model has no notion of an unmapped page. *)

From S2P Require Import Prelude Endian.

Abbreviation mem := (gmap Z byte).

Definition mem_get (m : mem) (a : Z) : byte := default (Z_byte 0) (m !! u64 a).

Fixpoint mem_write (m : mem) (a : Z) (bs : list byte) : mem :=
  match bs with
  | [] => m
  | b :: bs => mem_write (<[u64 a := b]> m) (a + 1) bs
  end.

Fixpoint mem_read_nat (m : mem) (a : Z) (n : nat) : list byte :=
  match n with
  | O => []
  | S n => mem_get m a :: mem_read_nat m (a + 1) n
  end.

Definition mem_read (m : mem) (a n : Z) : list byte := mem_read_nat m a (Z.to_nat n).

Lemma length_mem_read_nat m a n : length (mem_read_nat m a n) = n.
Proof. revert a; induction n; intros; cbn; by f_equal. Qed.

Lemma zlen_mem_read m a n : zlen (mem_read m a n) = Z.max 0 n.
Proof. unfold zlen, mem_read; rewrite length_mem_read_nat; lia. Qed.
#[export] Hint Rewrite zlen_mem_read : zlen.

Lemma mem_write_app m a xs ys :
  mem_write m a (xs ++ ys) = mem_write (mem_write m a xs) (a + zlen xs) ys.
Proof.
  revert m a; induction xs as [|x xs IH]; intros m a; cbn [app mem_write].
  - znil; by rewrite Z.add_0_r.
  - rewrite IH, zlen_cons; f_equal; lia.
Qed.

Lemma mem_write_u64 m a bs : mem_write m (u64 a) bs = mem_write m a bs.
Proof.
  revert m a; assert (forall m a a', u64 a = u64 a' -> mem_write m a bs = mem_write m a' bs) as H.
  { induction bs as [|b bs IH]; intros m a a' E; cbn [mem_write]; [done|].
    rewrite E; apply IH; by rewrite <- wrap_add_l, E, wrap_add_l. }
  intros m a; apply H, wrap_idemp; lia.
Qed.

Lemma mem_get_u64 m a : mem_get m (u64 a) = mem_get m a.
Proof. unfold mem_get; by rewrite wrap_idemp. Qed.

(** The cell at [x] after a write at [a]: the written byte at that distance, or
    the old content. *)
Lemma mem_get_write m a bs x :
  zlen bs <= 2 ^ 64 ->
  mem_get (mem_write m a bs) x = default (mem_get m x) (bs !! Z.to_nat (u64 (x - a))).
Proof.
  revert m a; induction bs as [|b bs IH]; intros m a Hl; cbn [mem_write]; [done|].
  rewrite zlen_cons in Hl; rewrite IH by lia.
  pose proof (zlen_nonneg bs) as Hnn; pose proof (wrap_range 64 (x - a) ltac:(lia)) as Hr.
  destruct (Z.eq_dec (u64 (x - a)) 0) as [E|E].
  - assert (u64 (x - (a + 1)) = 2 ^ 64 - 1) as ->.
    { replace (x - (a + 1)) with ((x - a) + (- 1)) by lia; rewrite <- wrap_add_l, E; done. }
    rewrite lookup_ge_None_2 by (unfold zlen in *; lia); rewrite E; cbn.
    unfold mem_get; assert (u64 x = u64 a) as ->.
    { replace x with ((x - a) + a) by lia; by rewrite <- wrap_add_l, E. }
    by rewrite lookup_insert_eq.
  - assert (u64 (x - (a + 1)) = u64 (x - a) - 1) as ->.
    { replace (x - (a + 1)) with ((x - a) + (- 1)) by lia; rewrite <- wrap_add_l.
      apply wrap_small; unfold in_u in *; lia. }
    unfold in_u in Hr.
    replace (Z.to_nat (u64 (x - a))) with (S (Z.to_nat (u64 (x - a) - 1))) by lia; cbn.
    unfold mem_get; rewrite lookup_insert_ne; [done|].
    intros Ea; apply E; rewrite <- (Z.add_opp_r x a), <- wrap_add_l, <- Ea, wrap_add_l.
    by rewrite Z.add_opp_r, Z.sub_diag.
Qed.

(** [[a, a+n)] and [[b, b+k)] share no cell. *)
Definition disjoint (a n b k : Z) : Prop :=
  forall i j, 0 <= i < n -> 0 <= j < k -> u64 (a + i) <> u64 (b + j).

Lemma mem_read_ext m m' a n :
  (forall i, 0 <= i < n -> mem_get m (a + i) = mem_get m' (a + i)) ->
  mem_read m a n = mem_read m' a n.
Proof.
  unfold mem_read; intros H.
  assert (forall i, 0 <= i < Z.of_nat (Z.to_nat n) -> mem_get m (a + i) = mem_get m' (a + i)) as H'
    by (intros; apply H; lia).
  clear H; revert a H'; induction (Z.to_nat n) as [|k IH]; intros a H; cbn [mem_read_nat]; [done|].
  f_equal; [by specialize (H 0); rewrite Z.add_0_r in H; apply H; lia|].
  apply IH; intros i Hi; replace (a + 1 + i) with (a + (1 + i)) by lia; apply H; lia.
Qed.

Lemma mem_read_write_disjoint m a bs b k :
  zlen bs <= 2 ^ 64 -> disjoint b k a (zlen bs) ->
  mem_read (mem_write m a bs) b k = mem_read m b k.
Proof.
  intros Hl Hd; apply mem_read_ext; intros i Hi; rewrite mem_get_write by done.
  destruct (bs !! _) as [x|] eqn:E; [exfalso|done].
  apply lookup_lt_Some in E.
  pose proof (wrap_range 64 (b + i - a) ltac:(lia)) as [Hr _].
  eapply (Hd i (u64 (b + i - a))); [done|unfold zlen; lia|].
  rewrite wrap_add_r; f_equal; lia.
Qed.

Lemma lookup_mem_read_nat m a n i :
  (i < n)%nat -> mem_read_nat m a n !! i = Some (mem_get m (a + Z.of_nat i)).
Proof.
  revert a i; induction n as [|n IH]; intros a i Hi; [lia|].
  destruct i as [|i]; cbn [mem_read_nat].
  - cbn; by rewrite Z.add_0_r.
  - cbn [lookup list_lookup]; change (list_lookup i ?l) with (l !! i).
    rewrite IH by lia; do 2 f_equal; lia.
Qed.

(** What was written is what is read. *)
Lemma mem_read_write m a bs :
  zlen bs <= 2 ^ 64 -> mem_read (mem_write m a bs) a (zlen bs) = bs.
Proof.
  intros Hl; unfold mem_read, zlen; rewrite Nat2Z.id; apply list_eq_same_length with (length bs);
    [done|by rewrite length_mem_read_nat|].
  intros i x y Hi Hx Hy; rewrite lookup_mem_read_nat in Hx by done; simplify_eq.
  rewrite mem_get_write by done.
  assert (u64 (a + Z.of_nat i - a) = Z.of_nat i) as ->.
  { replace (a + Z.of_nat i - a) with (Z.of_nat i) by lia.
    apply wrap_small; unfold zlen in Hl; word_lia. }
  by rewrite Nat2Z.id, Hy.
Qed.

(** Bytes read from one memory, written to another and read back. *)
Lemma mem_read_copied m m' a b n :
  0 <= n <= 2 ^ 64 -> mem_read (mem_write m a (mem_read m' b n)) a n = mem_read m' b n.
Proof.
  intros Hn; assert (zlen (mem_read m' b n) = n) as Hl by (rewrite zlen_mem_read; lia).
  pose proof (mem_read_write m a (mem_read m' b n)) as H; rewrite Hl in H; apply H; lia.
Qed.
Lemma mem_read_app m a n k :
  0 <= n -> 0 <= k -> mem_read m a (n + k) = mem_read m a n ++ mem_read m (a + n) k.
Proof.
  intros Hn Hk; unfold mem_read; rewrite Z2Nat.inj_add by done.
  rewrite <- (Z2Nat.id n) at 3 by done; generalize (Z.to_nat n), (Z.to_nat k); clear.
  intros n k; revert a; induction n as [|n IH]; intros a; cbn [Nat.add mem_read_nat app].
  - by rewrite Z.add_0_r.
  - f_equal; rewrite IH; do 2 f_equal; lia.
Qed.
