(* ===== verification/CQueue.v ===== *)
(** * The multi-producer queue ([common/concurrentqueue.h])

    [moodycamel::ConcurrentQueue] as the stack uses it: no tokens, one implicit
    producer per enqueuing thread.  The queue is the list of its producers in
    the order of [producerListTail] (most recently added first); each producer
    keeps its own elements in FIFO order.  There is no global order: which
    producer a dequeue serves is decided by the scoring loop of [try_dequeue].

    Operations are atomic and allocation succeeds (an enqueue fails only when
    [malloc] does).  This is what the rest of the stack relies on;
    [ConcurrentQueue.v] models how the header implements it and
    [QueueRefinement.v] shows that it does. *)

From S2P Require Import Prelude.

Record producer (A : Type) := Producer { p_thread : nat; p_items : list A }.
Arguments Producer {A} _ _.
Arguments p_thread {A} _.
Arguments p_items {A} _.

Abbreviation cqueue A := (list (producer A)).

(** A freshly constructed queue has no producer. *)
Definition cq_new {A} : cqueue A := [].

(** [get_or_add_implicit_producer]: the calling thread's producer, added at the
    front of the list on its first enqueue; [f] is what the caller then does to
    its elements. *)
Fixpoint update_producer {A} (t : nat) (f : list A -> list A) (q : cqueue A)
  : option (cqueue A) :=
  match q with
  | [] => None
  | p :: q =>
      if decide (p_thread p = t) then Some (Producer t (f (p_items p)) :: q)
      else (p ::.) <$> update_producer t f q
  end.

Definition with_producer {A} (t : nat) (f : list A -> list A) (q : cqueue A) : cqueue A :=
  match update_producer t f q with
  | Some q => q
  | None => Producer t (f []) :: q
  end.

Definition enqueue {A} (t : nat) (x : A) (q : cqueue A) : cqueue A :=
  with_producer t (fun l => l ++ [x]) q.

Definition enqueue_bulk {A} (t : nat) (xs : list A) (q : cqueue A) : cqueue A :=
  with_producer t (fun l => l ++ xs) q.

(** The scoring loop: among the first three non-empty producers, the position of
    the largest one (the first of them on ties). *)
Fixpoint best_producer {A} (q : cqueue A) (pos nonEmptyCount : nat) (bestSize : Z)
    (best : option nat) : option nat :=
  match q with
  | [] => best
  | p :: q =>
      if decide (nonEmptyCount < 3)%nat then
        let size := zlen (p_items p) in
        if 0 <? size then
          if bestSize <? size then best_producer q (S pos) (S nonEmptyCount) size (Some pos)
          else best_producer q (S pos) (S nonEmptyCount) bestSize best
        else best_producer q (S pos) nonEmptyCount bestSize best
      else best
  end.

(** [ptr->dequeue(item)] on the producer at position [i]. *)
Definition dequeue_at {A} (i : nat) (q : cqueue A) : option (A * cqueue A) :=
  p ← q !! i;
  match p_items p with
  | [] => None
  | x :: l => Some (x, <[i := Producer (p_thread p) l]> q)
  end.

(** The second loop of [try_dequeue]: every producer but [best], in order. *)
Fixpoint dequeue_others {A} (best : nat) (n pos : nat) (q : cqueue A) : option (A * cqueue A) :=
  match n with
  | O => None
  | S n =>
      if decide (pos = best) then dequeue_others best n (S pos) q
      else match dequeue_at pos q with
           | Some r => Some r
           | None => dequeue_others best n (S pos) q
           end
  end.

Definition try_dequeue {A} (q : cqueue A) : option (A * cqueue A) :=
  match best_producer q 0 0 0 None with
  | None => None
  | Some best =>
      match dequeue_at best q with
      | Some r => Some r
      | None => dequeue_others best (length q) 0 q
      end
  end.

(** [try_dequeue_bulk(it, max)]: producers in list order, as many as fit. *)
Fixpoint try_dequeue_bulk {A} (max : nat) (q : cqueue A) : list A * cqueue A :=
  match q with
  | [] => ([], [])
  | p :: q =>
      let got := take max (p_items p) in
      let p' := Producer (p_thread p) (drop max (p_items p)) in
      if decide (length got = max) then (got, p' :: q)
      else let '(more, q') := try_dequeue_bulk (max - length got) q in (got ++ more, p' :: q')
  end.

(** [size_approx()]: the sum over the producers. *)
Definition size_approx {A} (q : cqueue A) : Z :=
  fold_right (fun p n => zlen (p_items p) + n) 0 q.

(** ** What a client relies on *)
Definition q_items {A} (q : cqueue A) : list A := concat (map p_items q).
Definition q_of {A} (t : nat) (q : cqueue A) : list A :=
  concat (map (fun p => if decide (p_thread p = t) then p_items p else []) q).

(** Each thread has at most one implicit producer. *)
Definition wf_queue {A} (q : cqueue A) : Prop := NoDup (map p_thread q).

Section queue.
Context {A : Type}.
Implicit Types (q : cqueue A) (x : A) (t : nat).

Lemma q_items_app q1 q2 : q_items (q1 ++ q2) = q_items q1 ++ q_items q2.
Proof. unfold q_items; by rewrite map_app, concat_app. Qed.
Lemma q_items_cons p q : q_items (p :: q) = p_items p ++ q_items q.
Proof. done. Qed.
Lemma q_of_app t q1 q2 : q_of t (q1 ++ q2) = q_of t q1 ++ q_of t q2.
Proof. unfold q_of; by rewrite map_app, concat_app. Qed.
Lemma q_of_cons_eq t (l : list A) q : q_of t (Producer t l :: q) = l ++ q_of t q.
Proof. unfold q_of; cbn; by rewrite decide_True. Qed.
Lemma q_of_cons_ne t t' (l : list A) q : t' <> t -> q_of t (Producer t' l :: q) = q_of t q.
Proof. intros; unfold q_of; cbn; by rewrite decide_False. Qed.
Lemma q_of_notin t q : t ∉ map p_thread q -> q_of t q = [].
Proof.
  induction q as [|[t' l] q IH]; [done|]; cbn [map p_thread].
  intros [??]%not_elem_of_cons; rewrite q_of_cons_ne by done; by apply IH.
Qed.

(** A producer [t] isolated in a well-formed queue. *)
Lemma wf_queue_middle q1 t (l l' : list A) q2 :
  wf_queue (q1 ++ Producer t l :: q2) ->
  (t ∉ map p_thread q1) /\ (t ∉ map p_thread q2) /\ wf_queue (q1 ++ Producer t l' :: q2).
Proof.
  unfold wf_queue; rewrite !map_app; cbn [map p_thread]; intros H; split_all; [| |done].
  - apply NoDup_app in H as (_&H&_); intros Hin; apply (H t Hin), elem_of_cons; by left.
  - apply NoDup_app in H as (_&_&H); by apply NoDup_cons in H as [? _].
Qed.

Lemma q_of_middle t (l : list A) q1 q2 :
  t ∉ map p_thread q1 -> t ∉ map p_thread q2 -> q_of t (q1 ++ Producer t l :: q2) = l.
Proof.
  intros; rewrite q_of_app, q_of_cons_eq, !q_of_notin by done; by rewrite app_nil_r.
Qed.

Lemma q_of_middle_ne t t' (l l' : list A) q1 q2 :
  t' <> t -> q_of t (q1 ++ Producer t' l :: q2) = q_of t (q1 ++ Producer t' l' :: q2).
Proof. intros; by rewrite !q_of_app, !q_of_cons_ne. Qed.

Lemma with_producer_cases t f q :
  ((t ∉ map p_thread q) /\ with_producer t f q = Producer t (f []) :: q) \/
  (exists q1 l q2, q = q1 ++ Producer t l :: q2 /\
     with_producer t f q = q1 ++ Producer t (f l) :: q2).
Proof.
  assert (match update_producer t f q with
    | None => t ∉ map p_thread q
    | Some q' => exists q1 l q2, q = q1 ++ Producer t l :: q2 /\ q' = q1 ++ Producer t (f l) :: q2
    end) as H.
  { induction q as [|[t' l] q IH]; cbn [update_producer map p_thread]; [apply not_elem_of_nil|].
    destruct (decide (t' = t)) as [->|Hne]; [by exists [], l, q|].
    destruct (update_producer t f q) as [q'|]; cbn [fmap option_fmap option_map].
    - destruct IH as (q1&l'&q2&->&->); by exists (Producer t' l :: q1), l', q2.
    - by apply not_elem_of_cons. }
  unfold with_producer; destruct (update_producer t f q) as [q'|]; [right|left]; done.
Qed.

(** Enqueuing appends to the caller's own sequence and touches no other. *)
Lemma enqueue_bulk_spec t xs q :
  wf_queue q ->
  wf_queue (enqueue_bulk t xs q) /\
  q_of t (enqueue_bulk t xs q) = q_of t q ++ xs /\
  (forall t', t' <> t -> q_of t' (enqueue_bulk t xs q) = q_of t' q) /\
  q_items (enqueue_bulk t xs q) ≡ₚ q_items q ++ xs.
Proof.
  intros Hwf; unfold enqueue_bulk.
  destruct (with_producer_cases t (fun l => l ++ xs) q) as [[Hn ->]|(q1&l&q2&->&->)].
  - split_all.
    + by apply NoDup_cons.
    + rewrite q_of_cons_eq, q_of_notin by done; by rewrite app_nil_r.
    + intros t' Ht; by apply q_of_cons_ne.
    + rewrite q_items_cons; cbn [p_items]; rewrite app_nil_l; apply Permutation_app_comm.
  - destruct (wf_queue_middle q1 t l (l ++ xs) q2 Hwf) as (?&?&?); split_all; [done| | |].
    + by rewrite !q_of_middle.
    + intros t' Ht; by apply q_of_middle_ne.
    + rewrite !q_items_app, !q_items_cons; cbn [p_items]; rewrite <- !app_assoc.
      do 2 apply Permutation_app_head; apply Permutation_app_comm.
Qed.

Lemma enqueue_as_bulk t x q : enqueue t x q = enqueue_bulk t [x] q.
Proof. done. Qed.

(** ** Dequeuing *)
Lemma dequeue_at_Some i q x q' :
  dequeue_at i q = Some (x, q') ->
  exists q1 t l q2, q = q1 ++ Producer t (x :: l) :: q2 /\ q' = q1 ++ Producer t l :: q2.
Proof.
  unfold dequeue_at; intros H; apply bind_Some in H as ([t l]&Hi&H); cbn [p_items p_thread] in H.
  destruct l as [|y l]; [done|]; simplify_eq.
  exists (take i q), t, l, (drop (S i) q); split.
  - by rewrite take_drop_middle.
  - apply lookup_lt_Some in Hi; by rewrite insert_take_drop.
Qed.

Lemma best_producer_keeps q pos n bs b : best_producer q pos n bs (Some b) <> None.
Proof.
  revert pos n bs b; induction q as [|p q IH]; intros; cbn [best_producer]; [done|].
  case_decide; [|done]; repeat case_match; apply IH.
Qed.

Lemma best_producer_None q pos n :
  (n < 3)%nat -> best_producer q pos n 0 None = None -> q_items q = [].
Proof.
  revert pos; induction q as [|p q IH]; intros pos Hn; cbn [best_producer]; [done|].
  rewrite decide_True by done; intros H; rewrite q_items_cons; cbv zeta in H.
  destruct (Z.ltb_spec 0 (zlen (p_items p))) as [Hlt|Hge].
  - by apply best_producer_keeps in H.
  - rewrite (zlen_0_inv _ Hge), (IH (S pos)); done.
Qed.

Lemma best_producer_Some q pos n bs best i :
  best_producer q pos n bs best = Some i ->
  best = Some i \/ exists j p, i = (pos + j)%nat /\ q !! j = Some p /\ p_items p <> [].
Proof.
  revert pos n bs best; induction q as [|p q IH]; intros pos n bs best; cbn [best_producer];
    [by left|].
  case_decide; [|by left]; cbv zeta.
  assert (forall b, b = Some i \/ (exists j p0, i = (S pos + j)%nat /\ q !! j = Some p0 /\
    p_items p0 <> []) -> b = Some i \/ exists j p0, i = (pos + j)%nat /\ (p :: q) !! j = Some p0 /\
    p_items p0 <> []) as Hshift.
  { intros b [->|(j&p0&->&?&?)]; [by left|right; exists (S j), p0; split_all; done || lia]. }
  destruct (Z.ltb_spec 0 (zlen (p_items p))) as [Hlt|Hge].
  - destruct (bs <? zlen (p_items p)); intros Hb; apply IH in Hb; [|by apply Hshift].
    destruct Hb as [[= <-]|Hb]; [right|destruct (Hshift None) as [?|?]; [by right|done|by right]].
    exists 0%nat, p; split_all; [lia|done|]; intros E; rewrite E in Hlt; znil; lia.
  - intros Hb; apply IH in Hb; by apply Hshift.
Qed.

(** [try_dequeue] fails only on an empty queue, and otherwise takes the oldest
    element of some producer. *)
Lemma try_dequeue_cases q :
  match try_dequeue q with
  | None => q_items q = []
  | Some (x, q') =>
      exists q1 t l q2, q = q1 ++ Producer t (x :: l) :: q2 /\ q' = q1 ++ Producer t l :: q2
  end.
Proof.
  unfold try_dequeue; destruct (best_producer q 0 0 0 None) as [i|] eqn:E.
  - apply best_producer_Some in E as [?|(j&p&->&Hj&Hp)]; [done|]; cbn [Nat.add].
    destruct (dequeue_at j q) as [[x q']|] eqn:Ed; [by apply dequeue_at_Some in Ed|].
    exfalso; unfold dequeue_at in Ed; rewrite Hj in Ed; cbn in Ed; by destruct (p_items p).
  - by apply best_producer_None in E; [|lia].
Qed.

(** As multisets. *)
Lemma enqueue_bulk_items t xs q : q_items (enqueue_bulk t xs q) ≡ₚ xs ++ q_items q.
Proof.
  unfold enqueue_bulk.
  destruct (with_producer_cases t (fun l => l ++ xs) q) as [[_ ->]|(q1&l&q2&->&->)]; [done|].
  rewrite !q_items_app, !q_items_cons; cbn [p_items]; solve_Permutation.
Qed.
Lemma enqueue_items t x q : q_items (enqueue t x q) ≡ₚ x :: q_items q.
Proof. apply (enqueue_bulk_items t [x]). Qed.
Lemma try_dequeue_items q x q' : try_dequeue q = Some (x, q') -> q_items q ≡ₚ x :: q_items q'.
Proof.
  intros E; pose proof (try_dequeue_cases q) as H; rewrite E in H.
  destruct H as (q1&t&l&q2&->&->); rewrite !q_items_app, !q_items_cons; cbn [p_items].
  cbn [app]; solve_Permutation.
Qed.

(** A queue only thread [t] ever enqueued to. *)
Definition only (t : nat) q : Prop := q = [] \/ exists l, q = [Producer t l].

Lemma only_enqueue_bulk t xs q :
  only t q -> only t (enqueue_bulk t xs q) /\ q_items (enqueue_bulk t xs q) = q_items q ++ xs.
Proof.
  intros [->|[l ->]]; unfold enqueue_bulk, with_producer; cbn [update_producer p_thread p_items].
  - split; [by right; eexists|]; unfold q_items; cbn; by rewrite app_nil_r.
  - rewrite decide_True by done; split; [by right; eexists|]; unfold q_items; cbn.
    by rewrite !app_nil_r.
Qed.
Lemma only_try_dequeue t q :
  only t q ->
  match try_dequeue q with
  | None => q_items q = []
  | Some (x, q') => only t q' /\ q_items q = x :: q_items q'
  end.
Proof.
  intros Ho; pose proof (try_dequeue_cases q) as H; destruct (try_dequeue q) as [[x q']|]; [|done].
  destruct H as (q1&t'&l&q2&->&->); destruct Ho as [Hn|[l' E]]; [by destruct q1|].
  destruct q1 as [|p q1]; [|by destruct q1]; cbn in *; simplify_eq.
  split; [by right; eexists|done].
Qed.
End queue.

(** ** The queue contract *)

(** The queue keeps every thread's elements in the order that thread enqueued
    them.  Enqueuing appends to the caller's sequence and leaves the others
    alone; a dequeue fails only when every sequence is empty, and otherwise
    removes the oldest element of exactly one of them. *)
Theorem queue_per_producer_fifo {A} (q : cqueue A) (t : nat) (xs : list A) :
  wf_queue q ->
  (wf_queue (enqueue_bulk t xs q) /\ q_of t (enqueue_bulk t xs q) = q_of t q ++ xs /\
   forall t', t' <> t -> q_of t' (enqueue_bulk t xs q) = q_of t' q) /\
  match try_dequeue q with
  | None => q_items q = []
  | Some (x, q') =>
      wf_queue q' /\ q_items q ≡ₚ x :: q_items q' /\
      exists u, q_of u q = x :: q_of u q' /\ forall t', t' <> u -> q_of t' q' = q_of t' q
  end.
Proof.
  intros Hwf; split; [by destruct (enqueue_bulk_spec t xs q Hwf) as (?&?&?&_)|].
  pose proof (try_dequeue_cases q) as H; destruct (try_dequeue q) as [[x q']|]; [|done].
  destruct H as (q1&u&l&q2&->&->).
  destruct (wf_queue_middle q1 u (x :: l) l q2 Hwf) as (?&?&?); split_all; [done| |].
  - rewrite !q_items_app, !q_items_cons; cbn [p_items app]; symmetry; apply Permutation_middle.
  - exists u; rewrite !q_of_middle by done; split; [done|].
    intros t' Ht; by apply q_of_middle_ne.
Qed.

Lemma queue_per_producer_fifo_witness :
  (wf_queue (enqueue_bulk 1 [7] [Producer 2 [5; 6]; Producer 1 [3]]) /\
   q_of 1 (enqueue_bulk 1 [7] [Producer 2 [5; 6]; Producer 1 [3]]) = [3; 7] /\
   forall t', t' <> 1%nat ->
     q_of t' (enqueue_bulk 1 [7] [Producer 2 [5; 6]; Producer 1 [3]]) =
     q_of t' [Producer 2 [5; 6]; Producer 1 [3]]) /\
  (wf_queue [Producer 2 [6]; Producer 1 [3]] /\
   q_items [Producer 2 [5; 6]; Producer 1 [3]] ≡ₚ 5 :: q_items [Producer 2 [6]; Producer 1 [3]] /\
   exists u, q_of u [Producer 2 [5; 6]; Producer 1 [3]] = 5 :: q_of u [Producer 2 [6]; Producer 1 [3]] /\
     forall t', t' <> u ->
       q_of t' [Producer 2 [6]; Producer 1 [3]] = q_of t' [Producer 2 [5; 6]; Producer 1 [3]]).
Proof.
  apply (queue_per_producer_fifo [Producer 2 [5; 6]; Producer 1 [3]] 1 [7]).
  unfold wf_queue; cbn; apply (bool_decide_unpack _); vm_compute; exact I.
Defined.

(** ** With a single producer the queue is a FIFO *)
Lemma try_dequeue_single {A} t (l : list A) :
  try_dequeue [Producer t l] =
    match l with [] => None | x :: l => Some (x, [Producer t l]) end.
Proof.
  destruct l as [|x l]; [done|]; unfold try_dequeue; cbn [best_producer p_items].
  rewrite decide_True by lia.
  by destruct (Z.ltb_spec 0 (zlen (x :: l))) as [H|H]; [|zlen_lia].
Qed.

Lemma enqueue_single {A} t (x : A) l : enqueue t x [Producer t l] = [Producer t (l ++ [x])].
Proof. unfold enqueue, with_producer; cbn [update_producer p_thread]; by rewrite decide_True. Qed.

Lemma enqueue_new {A} t (x : A) : enqueue t x cq_new = [Producer t [x]].
Proof. done. Qed.

Lemma try_dequeue_bulk_facts {A} (q : cqueue A) (max : nat) :
  length (try_dequeue_bulk max q).1 = Nat.min max (length (q_items q)) /\
  q_items q ≡ₚ (try_dequeue_bulk max q).1 ++ q_items (try_dequeue_bulk max q).2 /\
  map p_thread (try_dequeue_bulk max q).2 = map p_thread q /\
  forall t l, q = [Producer t l] ->
    try_dequeue_bulk max q = (take max l, [Producer t (drop max l)]).
Proof.
  split_all.
  - revert max; induction q as [|[t l] q IH]; intros max; cbn [try_dequeue_bulk p_items p_thread fst].
    + cbn; lia.
    + rewrite q_items_cons, length_app; cbn [p_items]; rewrite length_take.
      case_decide; cbn [fst]; rewrite ?length_take; [lia|].
      specialize (IH (max - Nat.min max (length l))%nat).
      destruct (try_dequeue_bulk _ q); cbn [fst] in *; rewrite length_app, length_take; lia.
  - revert max; induction q as [|[t l] q IH]; intros max; cbn [try_dequeue_bulk p_items p_thread];
      [done|].
    rewrite q_items_cons; cbn [p_items]; case_decide; cbn [fst snd].
    + rewrite q_items_cons; cbn [p_items]; by rewrite app_assoc, take_drop.
    + specialize (IH (max - length (take max l))%nat).
      destruct (try_dequeue_bulk _ q) as [more q']; cbn [fst snd] in *.
      rewrite q_items_cons, IH; cbn [p_items].
      rewrite <- (take_drop max l) at 1; rewrite <- !app_assoc; apply Permutation_app_head.
      rewrite !app_assoc; apply Permutation_app_tail, Permutation_app_comm.
  - revert max; induction q as [|[t l] q IH]; intros max; cbn [try_dequeue_bulk p_items p_thread];
      [done|].
    case_decide; cbn [snd map p_thread]; [done|].
    specialize (IH (max - length (take max l))%nat).
    destruct (try_dequeue_bulk _ q); cbn [snd map p_thread] in *; by f_equal.
  - intros t l ->; cbn [try_dequeue_bulk p_items p_thread]; case_decide; [done|].
    by rewrite app_nil_r.
Qed.

(** [try_dequeue_bulk] returns as many elements as it was asked for, or the
    whole queue if there are fewer, loses none, and drains a single producer's
    elements in FIFO order. *)
Theorem try_dequeue_bulk_spec {A} (q : cqueue A) (max : nat) :
  length (try_dequeue_bulk max q).1 = Nat.min max (length (q_items q)) /\
  q_items q ≡ₚ (try_dequeue_bulk max q).1 ++ q_items (try_dequeue_bulk max q).2 /\
  map p_thread (try_dequeue_bulk max q).2 = map p_thread q /\
  forall t l, q = [Producer t l] ->
    try_dequeue_bulk max q = (take max l, [Producer t (drop max l)]).
Proof. apply try_dequeue_bulk_facts. Qed.
