(* ===== verification/BlockPool.v ===== *)
(** * Inside the concurrent queue: blocks and their pool ([common/concurrentqueue.h])

    Elements live in blocks of 32 slots.  A block comes from an array allocated
    with the queue, from the free list, or from [malloc]; a block whose elements
    have all been dequeued goes back to the free list.  The operations run one at
    a time: a compare-and-swap succeeds at the first attempt and a loop that
    waits for another thread is [Blocked].  Assertions are on.  Elements are of
    plain types, as everywhere in the stack: constructing and moving them does
    not throw. *)

From S2P Require Import Prelude.

Definition BLOCK_SIZE : Z := 32.
Definition MAX_SUBQUEUE_SIZE : Z := 2 ^ 64 - 1.

(** [a] is before [b] on the circle of 64-bit indices. *)
Definition circular_less_than (a b : Z) : bool := 2 ^ 63 <? u64 (a - b).

Definition check (b : bool) : run unit := if b then Done tt else Aborted.

(** ** Blocks *)

(** [b_elements] holds the constructed elements by slot.  [b_emptyFlags], which only
    explicit producers use, is uninitialised at first: an empty list. *)
Record block (A : Type) := Block {
  b_elements : gmap Z A; b_next : Z; b_elementsCompletelyDequeued : Z; b_emptyFlags : list bool;
  b_freeListRefs : Z; b_freeListNext : Z; b_dynamicallyAllocated : bool }.
Arguments Block {A} _ _ _ _ _ _ _.
Arguments b_elements {A} _.
Arguments b_next {A} _.
Arguments b_elementsCompletelyDequeued {A} _.
Arguments b_emptyFlags {A} _.
Arguments b_freeListRefs {A} _.
Arguments b_freeListNext {A} _.
Arguments b_dynamicallyAllocated {A} _.

Definition new_block {A} (dynamic : bool) : block A := Block ∅ 0 0 [] 0 0 dynamic.

Definition set_b_elements {A} (v : gmap Z A) (b : block A) : block A :=
  Block v (b_next b) (b_elementsCompletelyDequeued b) (b_emptyFlags b) (b_freeListRefs b) (b_freeListNext b)
    (b_dynamicallyAllocated b).
Definition set_b_next {A} (v : Z) (b : block A) : block A :=
  Block (b_elements b) v (b_elementsCompletelyDequeued b) (b_emptyFlags b) (b_freeListRefs b) (b_freeListNext b)
    (b_dynamicallyAllocated b).
Definition set_b_dequeued {A} (v : Z) (b : block A) : block A :=
  Block (b_elements b) (b_next b) v (b_emptyFlags b) (b_freeListRefs b) (b_freeListNext b)
    (b_dynamicallyAllocated b).
Definition set_b_flags {A} (v : list bool) (b : block A) : block A :=
  Block (b_elements b) (b_next b) (b_elementsCompletelyDequeued b) v (b_freeListRefs b) (b_freeListNext b)
    (b_dynamicallyAllocated b).
Definition set_b_refs {A} (v : Z) (b : block A) : block A :=
  Block (b_elements b) (b_next b) (b_elementsCompletelyDequeued b) (b_emptyFlags b) v (b_freeListNext b)
    (b_dynamicallyAllocated b).
Definition set_b_freeListNext {A} (v : Z) (b : block A) : block A :=
  Block (b_elements b) (b_next b) (b_elementsCompletelyDequeued b) (b_emptyFlags b) (b_freeListRefs b) v
    (b_dynamicallyAllocated b).

(** The slot of an index: [idx & (BLOCK_SIZE - 1)]. *)
Definition slot (idx : Z) : Z := Z.land idx (BLOCK_SIZE - 1).

(** In the implicit context a block counts its dequeued elements. *)
Definition is_empty {A} (b : block A) : run bool :=
  if b_elementsCompletelyDequeued b =? BLOCK_SIZE then mret true
  else _ ← check (b_elementsCompletelyDequeued b <=? BLOCK_SIZE); mret false.
Definition set_empty {A} (b : block A) : run (bool * block A) :=
  let prevVal := b_elementsCompletelyDequeued b in
  _ ← check (prevVal <? BLOCK_SIZE);
  mret (prevVal =? BLOCK_SIZE - 1, set_b_dequeued (u64 (prevVal + 1)) b).
Definition set_many_empty {A} (count : Z) (b : block A) : run (bool * block A) :=
  let prevVal := b_elementsCompletelyDequeued b in
  _ ← check (u64 (prevVal + count) <=? BLOCK_SIZE);
  mret (u64 (prevVal + count) =? BLOCK_SIZE, set_b_dequeued (u64 (prevVal + count)) b).
Definition set_all_empty {A} (b : block A) : block A := set_b_dequeued BLOCK_SIZE b.
Definition reset_empty {A} (b : block A) : block A := set_b_dequeued 0 b.

(** ** The pool *)

(** Blocks by address; the array allocated with the queue is [po_initialBlockPool],
    [+ 1], ... (addresses count blocks).  [po_brk] is the next address [malloc]
    gives out, [po_mallocs] the answers still to come ([[]] is success). *)
Record pool (A : Type) := Pool {
  po_blocks : gmap Z (block A); po_freeListHead : Z; po_initialBlockPool : Z;
  po_initialBlockPoolSize : Z; po_initialBlockPoolIndex : Z; po_brk : Z; po_mallocs : list bool }.
Arguments Pool {A} _ _ _ _ _ _ _.
Arguments po_blocks {A} _.
Arguments po_freeListHead {A} _.
Arguments po_initialBlockPool {A} _.
Arguments po_initialBlockPoolSize {A} _.
Arguments po_initialBlockPoolIndex {A} _.
Arguments po_brk {A} _.
Arguments po_mallocs {A} _.

Section pool.
Context {A : Type}.
Implicit Types (po : pool A) (b : block A).

Definition set_blocks (v : gmap Z (block A)) po : pool A :=
  Pool v (po_freeListHead po) (po_initialBlockPool po) (po_initialBlockPoolSize po)
    (po_initialBlockPoolIndex po) (po_brk po) (po_mallocs po).
Definition set_freeListHead (v : Z) po : pool A :=
  Pool (po_blocks po) v (po_initialBlockPool po) (po_initialBlockPoolSize po)
    (po_initialBlockPoolIndex po) (po_brk po) (po_mallocs po).
Definition set_poolIndex (v : Z) po : pool A :=
  Pool (po_blocks po) (po_freeListHead po) (po_initialBlockPool po) (po_initialBlockPoolSize po)
    v (po_brk po) (po_mallocs po).
Definition set_heap (brk : Z) (ms : list bool) po : pool A :=
  Pool (po_blocks po) (po_freeListHead po) (po_initialBlockPool po) (po_initialBlockPoolSize po)
    (po_initialBlockPoolIndex po) brk ms.

Definition load po (p : Z) : run (block A) := deref (po_blocks po !! p).
Definition store (p : Z) b po : pool A := set_blocks (<[p := b]> (po_blocks po)) po.

(** Whether the next allocation succeeds. *)
Definition malloc_ok po : bool * pool A :=
  (default true (head (po_mallocs po)), set_heap (po_brk po) (tail (po_mallocs po)) po).

(** *** The free list *)
Definition REFS_MASK : Z := 0x7FFFFFFF.
Definition SHOULD_BE_ON_FREELIST : Z := 0x80000000.

Definition add_knowing_refcount_is_zero (node : Z) po : run (pool A) :=
  b ← load po node;
  mret (set_freeListHead node
          (store node (set_b_refs 1 (set_b_freeListNext (po_freeListHead po) b)) po)).
Definition free_list_add (node : Z) po : run (pool A) :=
  b ← load po node;
  let refs := b_freeListRefs b in
  let po := store node (set_b_refs (u32 (refs + SHOULD_BE_ON_FREELIST)) b) po in
  if refs =? 0 then add_knowing_refcount_is_zero node po else mret po.
Definition free_list_try_get po : run (Z * pool A) :=
  let head := po_freeListHead po in
  if head =? 0 then mret (0, po)
  else
    b ← load po head;
    let refs := b_freeListRefs b in
    if Z.land refs REFS_MASK =? 0 then Blocked
    else
      let refs := u32 (refs + 1) in
      _ ← check (Z.land refs SHOULD_BE_ON_FREELIST =? 0);
      mret (head, set_freeListHead (b_freeListNext b) (store head (set_b_refs (u32 (refs - 2)) b) po)).

(** *** Getting and returning blocks *)
Definition try_get_block_from_initial_pool po : Z * pool A :=
  if po_initialBlockPoolSize po <=? po_initialBlockPoolIndex po then (0, po)
  else
    let index := po_initialBlockPoolIndex po in
    (if index <? po_initialBlockPoolSize po then po_initialBlockPool po + index else 0,
     set_poolIndex (u64 (index + 1)) po).

Definition add_block_to_free_list (p : Z) po : run (pool A) := free_list_add p po.
Fixpoint add_blocks_to_free_list (fuel : nat) (p : Z) po : run (pool A) :=
  match fuel with
  | O => Blocked
  | S fuel =>
      if p =? 0 then mret po
      else b ← load po p; po ← add_block_to_free_list p po; add_blocks_to_free_list fuel (b_next b) po
  end.
(** Walking the free list: the blocks given to [destroy]. *)
Fixpoint destroy_free_list (fuel : nat) (block : Z) (po : pool A) : run (list Z) :=
  if block =? 0 then mret []
  else
    match fuel with
    | O => Blocked
    | S fuel =>
        b ← load po block;
        rest ← destroy_free_list fuel (b_freeListNext b) po;
        mret (if b_dynamicallyAllocated b then block :: rest else rest)
    end.
Definition try_get_block_from_free_list po : run (Z * pool A) := free_list_try_get po.

(** [create<Block>()]. *)
Definition create_block po : Z * pool A :=
  let '(ok, po) := malloc_ok po in
  if ok then (po_brk po, set_heap (po_brk po + 1) (po_mallocs po) (store (po_brk po) (new_block true) po))
  else (0, po).

Definition requisition_block (canAlloc : bool) po : run (Z * pool A) :=
  let '(p, po) := try_get_block_from_initial_pool po in
  if negb (p =? 0) then mret (p, po)
  else
    '(p, po) ← try_get_block_from_free_list po;
    if negb (p =? 0) then mret (p, po)
    else if canAlloc then mret (create_block po) else mret (0, po).

(** [populate_initial_block_list], on a heap where [brk] is free. *)
Definition populate_initial_block_list (blockCount brk : Z) (ms : list bool) : pool A :=
  if blockCount =? 0 then Pool ∅ 0 0 0 0 brk ms
  else if default true (head ms) then
    Pool (list_to_map (map (fun i => (brk + i, new_block false)) (seqZ 0 blockCount)))
      0 brk blockCount 0 (brk + blockCount) (tail ms)
  else Pool ∅ 0 0 0 0 brk (tail ms).
(** The block count of [ConcurrentQueue(capacity)]. *)
Definition initial_blocks (capacity : Z) : Z :=
  capacity / BLOCK_SIZE + (if Z.land capacity (BLOCK_SIZE - 1) =? 0 then 0 else 1).

(** ** Ownership

    [free] are the blocks of the free list in order, [used] the blocks producers
    hold, and [fresh] the ones of the initial array not handed out yet: no block
    is in two places. *)
Fixpoint chain (bs : gmap Z (block A)) (head : Z) (l : list Z) : Prop :=
  match l with
  | [] => head = 0
  | p :: l => head = p /\ exists b, bs !! p = Some b /\ b_freeListRefs b = 1 /\
                                  chain bs (b_freeListNext b) l
  end.

Definition fresh po : list Z :=
  map (Z.add (po_initialBlockPool po))
    (seqZ (po_initialBlockPoolIndex po) (po_initialBlockPoolSize po - po_initialBlockPoolIndex po)).

(** The block is one of the array allocated with the queue. *)
Definition in_array po (p : Z) : bool :=
  (po_initialBlockPool po <=? p) && (p <? po_initialBlockPool po + po_initialBlockPoolSize po).

Definition held (bs : gmap Z (block A)) (p : Z) : Prop :=
  exists b, bs !! p = Some b /\ b_freeListRefs b = 0.

Record pool_inv po (free used : list Z) : Prop := {
  pi_chain : chain (po_blocks po) (po_freeListHead po) free;
  pi_held : Forall (held (po_blocks po)) (used ++ fresh po);
  pi_nodup : NoDup (free ++ used ++ fresh po);
  pi_range : forall p b, po_blocks po !! p = Some b -> 0 < p < po_brk po;
  pi_index : 0 <= po_initialBlockPoolIndex po <= po_initialBlockPoolSize po;
  pi_size : po_initialBlockPoolSize po < 2 ^ 64; pi_brk : 0 < po_brk po;
  pi_all : forall p b, po_blocks po !! p = Some b ->
    p ∈ free ++ used ++ fresh po /\ b_dynamicallyAllocated b = negb (in_array po p);
  pi_array : po_initialBlockPool po + po_initialBlockPoolSize po <= po_brk po }.

Lemma chain_ext bs bs' head l :
  (forall p, p ∈ l -> bs' !! p = bs !! p) -> chain bs head l -> chain bs' head l.
Proof.
  revert head; induction l as [|p l IH]; intros head Hext; cbn [chain]; [done|].
  intros (-> & b & Hb & Hr & Hc); split; [done|]; exists b; split_all; try done.
  - rewrite Hext; [done|set_solver].
  - apply IH; [|done]; intros; apply Hext; set_solver.
Qed.

Lemma chain_dom bs head l p : chain bs head l -> p ∈ l -> exists b, bs !! p = Some b.
Proof.
  revert head; induction l as [|q l IH]; intros head; cbn [chain]; [set_solver|].
  intros (-> & b & Hb & _ & Hc) [->|Hp]%elem_of_cons; [by exists b|by eapply IH].
Qed.

Lemma held_ext bs bs' l :
  (forall p, p ∈ l -> bs' !! p = bs !! p) -> Forall (held bs) l -> Forall (held bs') l.
Proof.
  intros Hext; rewrite !Forall_forall; intros H p Hp; destruct (H p Hp) as (b & Hb & Hr).
  exists b; by rewrite Hext.
Qed.

Lemma pool_inv_perm po free used used' :
  used ≡ₚ used' -> pool_inv po free used -> pool_inv po free used'.
Proof. intros Hp [? ? ? ? ? ? ? ? ?]; split; try done; by setoid_rewrite <- Hp. Qed.

Lemma all_ext (bs bs' : gmap Z (block A)) (f : Z -> bool) l l' :
  (forall p b, bs !! p = Some b -> p ∈ l /\ b_dynamicallyAllocated b = negb (f p)) ->
  (forall p b', bs' !! p = Some b' ->
     exists b, bs !! p = Some b /\ b_dynamicallyAllocated b' = b_dynamicallyAllocated b) ->
  l ≡ₚ l' ->
  forall p b, bs' !! p = Some b -> p ∈ l' /\ b_dynamicallyAllocated b = negb (f p).
Proof.
  intros Ha Hb Hl p b' Hp; destruct (Hb p b' Hp) as (b & Hp0 & ->); rewrite <- Hl; by apply Ha.
Qed.
Lemma insert_dynamic (bs : gmap Z (block A)) q b0 b1 :
  bs !! q = Some b0 -> b_dynamicallyAllocated b1 = b_dynamicallyAllocated b0 ->
  forall p b', <[q := b1]> bs !! p = Some b' ->
    exists b, bs !! p = Some b /\ b_dynamicallyAllocated b' = b_dynamicallyAllocated b.
Proof.
  intros Hq Hd p b'; destruct (decide (q = p)) as [->|].
  - rewrite lookup_insert_eq; intros [= <-]; by exists b0.
  - rewrite lookup_insert_ne by done; by exists b'.
Qed.

(** Writing to a block does not change who owns it. *)
Definition same_owner (b b' : block A) : Prop :=
  b_freeListRefs b' = b_freeListRefs b /\ b_dynamicallyAllocated b' = b_dynamicallyAllocated b.

Lemma pool_inv_store po free used p b b' :
  p ∈ used -> po_blocks po !! p = Some b -> same_owner b b' ->
  pool_inv po free used -> pool_inv (store p b' po) free used.
Proof.
  intros Hp Hb [Hr Hdy] [Hc Hh Hn Hg Hi Hs Hk Ha Har]; split; cbn; try done.
  - apply (chain_ext (po_blocks po)); [|done]; intros q Hq; apply lookup_insert_ne; intros ->.
    apply NoDup_app in Hn as (_ & Hd & _); apply (Hd q Hq); set_solver.
  - change (fresh (store p b' po)) with (fresh po) in *; rewrite Forall_forall in *.
    intros q Hq; unfold held; cbn; destruct (decide (p = q)) as [->|].
    + exists b'; rewrite lookup_insert_eq; split; [done|]; destruct (Hh q Hq) as (b0 & Hb0 & ?); congruence.
    + rewrite lookup_insert_ne by done; by apply Hh.
  - intros q b0; destruct (decide (p = q)) as [->|]; [|rewrite lookup_insert_ne by done; eauto]; eauto.
  - intros q b0; destruct (decide (p = q)) as [->|]; [|rewrite lookup_insert_ne by done; apply Ha].
    rewrite lookup_insert_eq; intros [= <-]; rewrite Hdy; by apply Ha.
Qed.

(** The effect of an operation on the blocks nobody gave it. *)
Definition keeps (l : list Z) po po' : Prop :=
  forall p, p ∈ l -> po_blocks po' !! p = po_blocks po !! p.

(** Returning a block. *)
Lemma add_block_ok po free used p :
  pool_inv po free (p :: used) ->
  exists po', add_block_to_free_list p po = Done po' /\ pool_inv po' (p :: free) used /\
    keeps used po po' /\ po_mallocs po' = po_mallocs po.
Proof.
  intros [Hc Hh Hn Hg Hi Hs Hk Ha Har].
  assert (exists b, po_blocks po !! p = Some b /\ b_freeListRefs b = 0) as (b & Hb & Hr).
  { cbn [app] in Hh; by apply Forall_cons in Hh as [? _]. }
  assert (NoDup ((p :: free) ++ used ++ fresh po)) as Hn'.
  { revert Hn; cbn [app]; by rewrite <- Permutation_middle. }
  assert (p ∉ free ++ used ++ fresh po) as Hp by (by inversion Hn').
  eexists; unfold add_block_to_free_list, free_list_add, load; rewrite Hb; cbn [deref].
  rewrite bind_Done, Hr, Z.eqb_refl; unfold add_knowing_refcount_is_zero, load.
  cbn [store set_blocks po_blocks]; rewrite lookup_insert_eq; cbn [deref]; rewrite bind_Done.
  split; [reflexivity|]; split; [split; cbn|split; [|done]].
  - split; [done|]; eexists; rewrite lookup_insert_eq; split_all; try done; cbn.
    apply (chain_ext (po_blocks po)); [|done]; intros q Hq.
    rewrite !lookup_insert_ne; [done|set_solver..].
  - apply (held_ext (po_blocks po)); [|by apply Forall_cons in Hh as [_ Hh]].
    intros q Hq; rewrite !lookup_insert_ne; [done|set_solver..].
  - done.
  - intros q b'; destruct (decide (q = p)) as [->|]; [eauto|rewrite !lookup_insert_ne by done; eauto].
  - done.
  - done.
  - done.
  - eapply all_ext; [exact Ha| |cbn [app]; symmetry; apply Permutation_middle].
    rewrite insert_insert_eq; by eapply insert_dynamic.
  - done.
  - intros q Hq; cbn; rewrite !lookup_insert_ne; [done|set_solver..].
Qed.

Lemma fresh_cons po :
  po_initialBlockPoolIndex po < po_initialBlockPoolSize po ->
  fresh po = (po_initialBlockPool po + po_initialBlockPoolIndex po) ::
    map (Z.add (po_initialBlockPool po)) (seqZ (po_initialBlockPoolIndex po + 1)
      (po_initialBlockPoolSize po - (po_initialBlockPoolIndex po + 1))).
Proof.
  intros H; unfold fresh; rewrite seqZ_cons by lia; cbn [map]; do 3 f_equal; lia.
Qed.

(** What a successful request yields: a block held by the caller alone. *)
Definition got po (used : list Z) (p : Z) po' : Prop :=
  p <> 0 /\ (exists free', pool_inv po' free' (p :: used)) /\ keeps used po po'.

Lemma initial_pool_ok po free used :
  pool_inv po free used ->
  let '(p, po') := try_get_block_from_initial_pool po in
  (p = 0 /\ po' = po /\ fresh po = []) \/ (got po used p po' /\ po_mallocs po' = po_mallocs po).
Proof.
  intros [Hc Hh Hn Hg Hi Hs Hk Ha Har]; unfold try_get_block_from_initial_pool.
  destruct (Z.leb_spec (po_initialBlockPoolSize po) (po_initialBlockPoolIndex po)).
  { left; split_all; [done..|]; unfold fresh; by rewrite seqZ_nil by lia. }
  right; destruct (Z.ltb_spec (po_initialBlockPoolIndex po) (po_initialBlockPoolSize po)); [|lia].
  rewrite wrap_small by (unfold in_u; lia).
  rewrite (fresh_cons po) in Hh, Hn, Ha by lia; set (p := _ + _) in *; set (r := map _ _) in *.
  assert (fresh (set_poolIndex (po_initialBlockPoolIndex po + 1) po) = r) as Hr by done.
  split; [|done]; split; [|split; [exists free; split|done]]; rewrite ?Hr; cbn; try done; try lia.
  - apply Forall_app in Hh as [_ [(b & Hb & _) _]%Forall_cons]; apply Hg in Hb; lia.
  - rewrite Permutation_middle; done.
  - revert Hn; by rewrite <- Permutation_middle.
  - eapply all_ext; [exact Ha|by eauto|]; cbn [app]; by rewrite <- (Permutation_middle used).
Qed.

Lemma free_list_ok po free used :
  pool_inv po free used ->
  match free with
  | [] => try_get_block_from_free_list po = Done (0, po)
  | p :: free => exists po', try_get_block_from_free_list po = Done (p, po') /\
      got po used p po' /\ po_mallocs po' = po_mallocs po
  end.
Proof.
  intros [Hc Hh Hn Hg Hi Hs Hk Ha Har]; unfold try_get_block_from_free_list, free_list_try_get.
  destruct free as [|p free]; cbn [chain] in Hc; [by rewrite Hc|].
  destruct Hc as (-> & b & Hb & Hr & Hc); pose proof (Hg p b Hb).
  destruct (Z.eqb_spec p 0); [lia|]; unfold load; rewrite Hb; cbn [deref]; rewrite bind_Done, Hr.
  cbn [Z.land Pos.land REFS_MASK Z.eqb].
  eexists; split; [reflexivity|]; split; [|done]; split; [done|split].
  - exists free; split; cbn; try done.
    + apply (chain_ext (po_blocks po)); [|done]; intros q Hq; apply lookup_insert_ne; intros ->.
      inversion Hn; set_solver.
    + apply Forall_cons; split; [exists (set_b_refs 0 b); by rewrite lookup_insert_eq|].
      apply (held_ext (po_blocks po)); [|done]; intros q Hq; apply lookup_insert_ne; intros ->.
      inversion Hn; set_solver.
    + revert Hn; cbn [app]; by rewrite <- Permutation_middle.
    + intros q b'; destruct (decide (q = p)) as [->|]; [eauto|rewrite lookup_insert_ne by done; eauto].
    + eapply all_ext; [exact Ha|by eapply insert_dynamic|]; cbn [app]; apply Permutation_middle.
  - intros q Hq; apply lookup_insert_ne; intros ->; inversion Hn; set_solver.
Qed.

Lemma create_block_ok po free used :
  pool_inv po free used ->
  let '(p, po') := create_block po in
  (p = 0 /\ pool_inv po' free used /\ keeps used po po' /\ po_mallocs po <> []) \/
  (got po used p po' /\ po_mallocs po' = tail (po_mallocs po)).
Proof.
  intros [Hc Hh Hn Hg Hi Hs Hk Ha Har]; unfold create_block, malloc_ok.
  destruct (default true (head (po_mallocs po))) eqn:Em; cbn [po_brk set_heap].
  2:{ left; split; [done|]; split; [|split; [done|by destruct (po_mallocs po)]]; by split. }
  right; split; [|done]; set (p := po_brk po).
  assert (forall q, q ∈ free ++ used ++ fresh po -> q <> p) as Hne.
  { intros q [Hq|[Hq|Hq]%elem_of_app]%elem_of_app.
    - destruct (chain_dom _ _ _ _ Hc Hq) as [b Hb]; apply Hg in Hb; lia.
    - rewrite Forall_forall in Hh; destruct (Hh q) as (b & Hb & _); [set_solver|apply Hg in Hb; lia].
    - rewrite Forall_forall in Hh; destruct (Hh q) as (b & Hb & _); [set_solver|apply Hg in Hb; lia]. }
  split; [lia|]; split; [exists free; split; cbn; try done|].
  - apply (chain_ext (po_blocks po)); [|done]; intros q Hq; apply lookup_insert_ne, not_eq_sym, Hne.
    set_solver.
  - apply Forall_cons; split; [exists (new_block true); by rewrite lookup_insert_eq|].
    apply (held_ext (po_blocks po)); [|done]; intros q Hq; apply lookup_insert_ne, not_eq_sym, Hne.
    apply elem_of_app; by right.
  - rewrite <- Permutation_middle; apply NoDup_cons; split; [|done]; intros Hp; by apply (Hne p Hp).
  - intros q b'; destruct (decide (q = p)) as [->|]; [unfold p; lia|].
    rewrite lookup_insert_ne by done; intros Hb; apply Hg in Hb; lia.
  - lia.
  - intros q b'; destruct (decide (p = q)) as [<-|].
    + rewrite lookup_insert_eq; intros [= <-]; split; [set_solver|]; unfold in_array; cbn.
      destruct (Z.ltb_spec p (po_initialBlockPool po + po_initialBlockPoolSize po)); [lia|by rewrite andb_false_r].
    + rewrite lookup_insert_ne by done; intros Hb; destruct (Ha q b' Hb) as [Hq ->]; split; [set_solver|done].
  - lia.
  - intros q Hq; apply lookup_insert_ne, not_eq_sym, Hne; set_solver.
Qed.

Lemma requisition_ok canAlloc po free used :
  pool_inv po free used ->
  exists p po', requisition_block canAlloc po = Done (p, po') /\
    (po_mallocs po = [] -> po_mallocs po' = []) /\
    ((p = 0 /\ pool_inv po' free used /\ keeps used po po' /\ (canAlloc = true -> po_mallocs po <> []))
     \/ got po used p po').
Proof.
  intros Hinv; unfold requisition_block; pose proof (initial_pool_ok po free used Hinv) as Hp.
  destruct (try_get_block_from_initial_pool po) as [p po1]; destruct Hp as [(-> & -> & Hf)|[Hg Hm]].
  2:{ exists p, po1; pose proof Hg as [Hne _]; destruct (Z.eqb_spec p 0); [done|].
      split; [done|]; rewrite Hm; auto. }
  cbn [Z.eqb negb]; pose proof (free_list_ok po free used Hinv) as Hp; destruct free as [|p free].
  2:{ destruct Hp as (po' & -> & Hg & Hm); rewrite bind_Done; exists p, po'; pose proof Hg as [Hne _].
      destruct (Z.eqb_spec p 0); [done|]; split; [done|]; rewrite Hm; auto. }
  rewrite Hp, bind_Done; cbn [Z.eqb negb]; destruct canAlloc.
  2:{ exists 0, po; split; [done|]; split; [done|left]; split_all; try done. }
  pose proof (create_block_ok po [] used Hinv) as Hc; destruct (create_block po) as [p po1] eqn:E.
  exists p, po1; split; [done|]; destruct Hc as [(-> & ? & ? & Hm)|[Hg Hm]]; split.
  - done.
  - left; split_all; done.
  - intros Hn; by rewrite Hm, Hn.
  - by right.
Qed.

(** A new pool. *)
Definition array_blocks (brk n : Z) : gmap Z (block A) :=
  list_to_map (map (fun i => (brk + i, new_block false)) (seqZ 0 n)).

Lemma array_blocks_lookup brk n p b :
  array_blocks brk n !! p = Some b <-> b = new_block false /\ brk <= p < brk + n.
Proof.
  unfold array_blocks; rewrite <- elem_of_list_to_map, list_elem_of_fmap.
  - split.
    + intros (i & [= -> ->] & Hi%elem_of_seqZ); split; [done|lia].
    + intros [-> Hp]; exists (p - brk); split; [f_equal; lia|apply elem_of_seqZ; lia].
  - rewrite <- list_fmap_compose; apply NoDup_fmap_2_strong; [|apply NoDup_seqZ]; cbn; intros; lia.
Qed.

Lemma populate_ok n brk ms :
  0 <= n < 2 ^ 64 -> 0 < brk -> pool_inv (populate_initial_block_list n brk ms) [] [].
Proof.
  intros Hn Hb; unfold populate_initial_block_list.
  assert (forall ms', pool_inv (Pool ∅ 0 0 0 0 brk ms' : pool A) [] []) as Hempty.
  { intros ms'; split; cbn; try done; [by apply NoDup_nil|lia]. }
  destruct (Z.eqb_spec n 0); [done|]; destruct (default true (head ms)); [|done].
  fold (array_blocks brk n); split; cbn [po_blocks po_brk po_freeListHead po_initialBlockPoolIndex po_initialBlockPoolSize po_initialBlockPool app].
  - done.
  - rewrite Forall_forall; unfold fresh; cbn; intros p Hp; apply list_elem_of_fmap in Hp as (i & -> & Hi%elem_of_seqZ).
    exists (new_block false); rewrite array_blocks_lookup; split; [split; [done|lia]|done].
  - unfold fresh; cbn; apply NoDup_fmap_2_strong; [intros; lia|apply NoDup_seqZ].
  - intros p b [_ Hp]%array_blocks_lookup; lia.
  - lia.
  - lia.
  - lia.
  - intros p b [-> Hp]%array_blocks_lookup; split.
    + unfold fresh; cbn; apply list_elem_of_fmap; exists (p - brk); split; [lia|apply elem_of_seqZ; lia].
    + unfold in_array; cbn; destruct (Z.leb_spec brk p), (Z.ltb_spec p (brk + n)); done || lia.
  - lia.
Qed.
End pool.
