(* ===== verification/Allocation.v ===== *)
(** * Allocation in the concurrent queue ([common/concurrentqueue.h])

    Everything the queue keeps outside itself is allocated as raw bytes: a type that is
    aligned more than [malloc] guarantees gets a larger piece with the address of the
    piece in front of the object ([aligned_malloc], [aligned_free]); arrays are
    constructed element by element ([create_array], [destroy_array]); block indices and
    hash tables lie behind their header in one piece.  Here memory is bytes, and an
    access outside a piece that [malloc] has returned is [Undefined]. *)

From S2P Require Import Prelude Endian Memory BlockPool.

(** [sizeof] and [std::alignment_of] of a type. *)
Record ctype := { sizeof : Z; alignment_of : Z }.

(** [std::alignment_of<details::max_align_t>], and the size of a pointer. *)
Definition MAX_ALIGN : Z := 16.
Definition SIZEOF_PTR : Z := 8.

Record ctype_ok (U : ctype) : Prop := {
  ty_pow2 : exists k, 0 <= k < 64 /\ alignment_of U = 2 ^ k;
  ty_size : 0 < sizeof U;
  ty_stride : (alignment_of U | sizeof U) }.

(** ** The heap *)

(** The pieces that are allocated, by address, with their sizes; the addresses of the
    objects that have been constructed and not destroyed. *)
Record arena := Arena { a_mem : mem; a_live : gmap Z Z; a_objects : gset Z }.

Definition within (a : arena) (p n : Z) : bool :=
  existsb (fun '(q, m) => (q <=? p) && (p + n <=? q + m)) (map_to_list (a_live a)).

(** [got] is where the allocator finds a piece, if it does. *)
Definition raw_malloc (got : option Z) (size : Z) (a : arena) : Z * arena :=
  match got with
  | Some raw => (raw, Arena (a_mem a) (<[raw := size]> (a_live a)) (a_objects a))
  | None => (0, a)
  end.
Definition raw_free (p : Z) (a : arena) : run arena :=
  if p =? 0 then mret a
  else
    match a_live a !! p with
    | Some _ => mret (Arena (a_mem a) (delete p (a_live a)) (a_objects a))
    | None => Undefined
    end.

Definition store_pointer (p v : Z) (a : arena) : run arena :=
  if within a p SIZEOF_PTR then mret (Arena (mem_write (a_mem a) p (le_bytes 8 v)) (a_live a) (a_objects a))
  else Undefined.
Definition load_pointer (p : Z) (a : arena) : run Z :=
  if within a p SIZEOF_PTR then mret (le_Z (mem_read (a_mem a) p SIZEOF_PTR)) else Undefined.

(** ** Aligned pieces *)

Definition align_for (U : ctype) (ptr : Z) : Z :=
  let alignment := alignment_of U in
  u64 (ptr + (alignment - ptr mod alignment) mod alignment).

(** What [aligned_malloc] asks [malloc] for. *)
Definition malloc_request (TAlign : ctype) (size : Z) : Z :=
  if alignment_of TAlign <=? MAX_ALIGN then size else u64 (size + alignment_of TAlign - 1 + SIZEOF_PTR).

Definition aligned_malloc (TAlign : ctype) (got : option Z) (size : Z) (a : arena) : run (Z * arena) :=
  let '(raw, a) := raw_malloc got (malloc_request TAlign size) a in
  if alignment_of TAlign <=? MAX_ALIGN then mret (raw, a)
  else if raw =? 0 then mret (0, a)
  else
    let ptr := align_for TAlign (u64 (raw + SIZEOF_PTR)) in
    a ← store_pointer (u64 (ptr - SIZEOF_PTR)) raw a;
    mret (ptr, a).

Definition aligned_free (TAlign : ctype) (ptr : Z) (a : arena) : run arena :=
  if alignment_of TAlign <=? MAX_ALIGN then raw_free ptr a
  else if ptr =? 0 then raw_free 0 a
  else raw ← load_pointer (u64 (ptr - SIZEOF_PTR)) a; raw_free raw a.

(** ** Objects *)

(** [new (p) U()], which writes [init], and [p->~U()]. *)
Definition construct (U : ctype) (init : list byte) (p : Z) (a : arena) : run arena :=
  if within a p (sizeof U) then
    mret (Arena (mem_write (a_mem a) p init) (a_live a) ({[p]} ∪ a_objects a))
  else Undefined.
Definition destruct_object (p : Z) (a : arena) : run arena :=
  if decide (p ∈ a_objects a) then mret (Arena (a_mem a) (a_live a) (a_objects a ∖ {[p]})) else Undefined.

(** [for (size_t i = 0; i != count; ++i) new (p + i) U();] *)
Fixpoint construct_each (U : ctype) (init : list byte) (n : nat) (p : Z) (a : arena) : run arena :=
  match n with
  | O => mret a
  | S n => a ← construct U init p a; construct_each U init n (u64 (p + sizeof U)) a
  end.
(** [for (size_t i = count; i != 0; ) (p + --i)->~U();] *)
Fixpoint destruct_each (U : ctype) (n : nat) (p : Z) (a : arena) : run arena :=
  match n with
  | O => mret a
  | S i => a ← destruct_object (u64 (p + Z.of_nat i * sizeof U)) a; destruct_each U i p a
  end.

Definition create_array (U : ctype) (got : option Z) (init : list byte) (count : Z) (a : arena) : run (Z * arena) :=
  _ ← check (0 <? count);
  '(p, a) ← aligned_malloc U got (u64 (sizeof U * count)) a;
  if p =? 0 then mret (0, a)
  else a ← construct_each U init (Z.to_nat count) p a; mret (p, a).

Definition destroy_array (U : ctype) (p count : Z) (a : arena) : run arena :=
  a ← (if p =? 0 then mret a
       else _ ← check (0 <? count); destruct_each U (Z.to_nat count) p a);
  aligned_free U p a.

(** [create], with or without an argument for the constructor, and [destroy]. *)
Definition create (U : ctype) (got : option Z) (init : list byte) (a : arena) : run (Z * arena) :=
  '(p, a) ← aligned_malloc U got (sizeof U) a;
  if p =? 0 then mret (0, a) else a ← construct U init p a; mret (p, a).
Definition destroy (U : ctype) (p : Z) (a : arena) : run arena :=
  a ← (if p =? 0 then mret a else destruct_object p a);
  aligned_free U p a.

(** ** Tables behind a header *)

(** Where [new_block_index] of an explicit producer and the hash tables put their
    entries, and what they ask for. *)
Definition table_request (header : Z) (U : ctype) (n : Z) : Z :=
  u64 (header + alignment_of U - 1 + sizeof U * n).
Definition table_entries (header : Z) (U : ctype) (raw : Z) : Z := align_for U (u64 (raw + header)).

(** [new_block_index] of an implicit producer: the entries, and behind them an array
    of pointers. *)
Definition pointer_type : ctype := {| sizeof := SIZEOF_PTR; alignment_of := SIZEOF_PTR |}.
Definition index_request (header : Z) (U : ctype) (n capacity : Z) : Z :=
  u64 (header + alignment_of U - 1 + sizeof U * n + alignment_of pointer_type - 1 + sizeof pointer_type * capacity).
Definition index_pointers (header : Z) (U : ctype) (n raw : Z) : Z :=
  align_for pointer_type (u64 (table_entries header U raw + sizeof U * n)).

(** ** Alignment *)

Lemma align_for_spec U p :
  ctype_ok U -> 0 <= p -> p + alignment_of U - 1 < 2 ^ 64 ->
  p <= align_for U p <= p + alignment_of U - 1 /\ (alignment_of U | align_for U p).
Proof.
  intros [(k & Hk & E) _ _] Hp Hlt; unfold align_for; cbv zeta; set (n := alignment_of U) in *.
  assert (0 < n) as Hn by lia; pose proof (Z.mod_pos_bound p n Hn) as Hm; pose proof (Z.div_mod p n ltac:(lia)) as Hd.
  destruct (Z.eq_dec (p mod n) 0) as [E0|E0].
  - rewrite E0, Z.sub_0_r, Z.mod_same, Z.add_0_r, wrap_small by (unfold in_u; lia).
    split; [lia|]; exists (p / n); lia.
  - rewrite (Z.mod_small (n - p mod n)), wrap_small by (unfold in_u; lia).
    split; [lia|]; exists (p / n + 1); lia.
Qed.
Lemma alignment_pos U : ctype_ok U -> 1 <= alignment_of U.
Proof. intros [(k & Hk & ->) _ _]; lia. Qed.

(** [malloc] aligns enough for the types that do not need more. *)
Lemma malloc_aligned U raw : ctype_ok U -> alignment_of U <= MAX_ALIGN -> (MAX_ALIGN | raw) -> (alignment_of U | raw).
Proof.
  intros [(k & Hk & E) _ _] Hle Hr; eapply Z.divide_trans; [|exact Hr]; rewrite E in *.
  exists (2 ^ (4 - k)); unfold MAX_ALIGN in *; assert (k <= 4) by (apply (Z.pow_le_mono_r_iff 2); lia).
  rewrite <- Z.pow_add_r by lia; by replace (4 - k + k) with 4 by lia.
Qed.

(** The entries of a table are aligned, and lie between its header and its end. *)
Lemma table_fits header U n raw :
  ctype_ok U -> 0 <= header -> 0 <= n -> 0 <= raw -> raw + header + alignment_of U + sizeof U * n < 2 ^ 64 ->
  let entries := table_entries header U raw in
  raw + header <= entries /\ (alignment_of U | entries) /\ entries + sizeof U * n <= raw + table_request header U n.
Proof.
  intros HU Hh Hn Hr Hlt; pose proof (alignment_pos U HU); pose proof (ty_size U HU).
  assert (0 <= sizeof U * n) by nia; unfold table_entries, table_request; rewrite !wrap_small by (unfold in_u; lia).
  destruct (align_for_spec U (raw + header) HU) as [Hb Ha]; [lia..|]; cbv zeta; split_all; [lia|done|lia].
Qed.

Lemma pointer_ok : ctype_ok pointer_type.
Proof. split; [by exists 3|done|by exists 1]. Qed.

(** So do the two arrays of an implicit producer's block index, one behind the other. *)
Lemma index_fits header U n capacity raw :
  ctype_ok U -> 0 <= header -> 0 <= n -> 0 <= capacity -> 0 <= raw ->
  raw + header + alignment_of U + sizeof U * n + 8 + 8 * capacity < 2 ^ 64 ->
  let entries := table_entries header U raw in let index := index_pointers header U n raw in
  raw + header <= entries /\ (alignment_of U | entries) /\ entries + sizeof U * n <= index /\ (8 | index) /\
  index + 8 * capacity <= raw + index_request header U n capacity.
Proof.
  intros HU Hh Hn Hc Hr Hlt; pose proof (alignment_pos U HU); pose proof (ty_size U HU); assert (0 <= sizeof U * n) by nia.
  destruct (table_fits header U n raw HU Hh Hn Hr) as (Hb1 & Hb2 & Hb3); [lia|].
  unfold table_request in Hb3; rewrite wrap_small in Hb3 by (unfold in_u; lia).
  unfold index_pointers, index_request; cbn [sizeof alignment_of pointer_type]; unfold SIZEOF_PTR.
  rewrite !wrap_small by (unfold in_u; lia).
  destruct (align_for_spec pointer_type (table_entries header U raw + sizeof U * n) pointer_ok) as [Hb Ha]; cbn [alignment_of pointer_type] in *; unfold SIZEOF_PTR in *; [lia..|].
  cbv zeta; split_all; try done; lia.
Qed.

(** ** Pieces *)

Lemma within_spec a p n :
  within a p n = true <-> exists q m, a_live a !! q = Some m /\ q <= p /\ p + n <= q + m.
Proof.
  unfold within; rewrite existsb_exists; split.
  - intros ([q m] & Hin%list_elem_of_In%elem_of_map_to_list & [?%Z.leb_le ?%Z.leb_le]%andb_true_iff); by exists q, m.
  - intros (q & m & Hq & H1 & H2); exists (q, m); split; [by apply list_elem_of_In, elem_of_map_to_list|].
    apply andb_true_iff; split; by apply Z.leb_le.
Qed.

(** What the C library promises of a new piece of [n] bytes. *)
Record fresh (raw n : Z) (a : arena) : Prop := {
  fr_pos : 0 < raw;
  fr_aligned : (MAX_ALIGN | raw);
  fr_range : 0 <= n /\ raw + n < 2 ^ 64;
  fr_new : a_live a !! raw = None;
  fr_apart : forall q m, a_live a !! q = Some m -> q + m <= raw \/ raw + n <= q;
  fr_unused : forall o, o ∈ a_objects a -> o < raw \/ raw + n <= o }.

(** The same bytes outside [[p, p + n)]. *)
Definition same_outside (p n : Z) (a a' : arena) : Prop :=
  forall x, 0 <= x < 2 ^ 64 -> ~ p <= x < p + n -> mem_get (a_mem a') x = mem_get (a_mem a) x.

(** The piece at [raw] has been allocated for [size] bytes at [p]. *)
Record placed (U : ctype) (raw p size : Z) (a a' : arena) : Prop := {
  pl_low : raw <= p;
  pl_high : p + size <= raw + malloc_request U size;
  pl_aligned : (alignment_of U | p);
  pl_live : a_live a' = <[raw := malloc_request U size]> (a_live a);
  pl_objects : a_objects a' = a_objects a;
  pl_memory : same_outside raw (malloc_request U size) a a';
  pl_front : if alignment_of U <=? MAX_ALIGN then p = raw else raw + 8 <= p /\ le_Z (mem_read (a_mem a') (p - 8) 8) = raw }.

Lemma mem_write_outside m p bs x :
  0 <= p -> p + zlen bs <= 2 ^ 64 -> 0 <= x < 2 ^ 64 -> ~ p <= x < p + zlen bs -> mem_get (mem_write m p bs) x = mem_get m x.
Proof.
  intros Hp Hl Hx Hn; rewrite mem_get_write by lia; destruct (bs !! _) as [b|] eqn:E; [exfalso|done].
  apply lookup_lt_Some in E; unfold zlen in *.
  destruct (Z.le_gt_cases p x) as [Hle|Hgt].
  - rewrite wrap_small in E by (unfold in_u; lia); lia.
  - assert (u64 (x - p) = x - p + 2 ^ 64) as E2; [|rewrite E2 in E; lia].
    unfold wrap; rewrite <- (Z.mod_add _ 1) by lia; apply Z.mod_small; lia.
Qed.

Lemma aligned_malloc_ok U raw size a :
  ctype_ok U -> 0 <= size -> size + alignment_of U + 8 < 2 ^ 64 -> fresh raw (malloc_request U size) a ->
  exists p a', aligned_malloc U (Some raw) size a = Done (p, a') /\ placed U raw p size a a'.
Proof.
  intros HU Hs Hlt Hf; pose proof (alignment_pos U HU); destruct Hf as [Hp Ha [Hn Hr] _ _ _].
  unfold aligned_malloc; cbn [raw_malloc].
  assert (size <= malloc_request U size) as Hreq.
  { unfold malloc_request, SIZEOF_PTR; destruct (Z.leb_spec (alignment_of U) MAX_ALIGN); [lia|rewrite wrap_small by (unfold in_u; lia); lia]. }
  destruct (Z.leb_spec (alignment_of U) MAX_ALIGN) as [Hle|Hgt].
  { eexists _, _; split; [reflexivity|]; split; try done; [lia|by apply malloc_aligned|].
    destruct (Z.leb_spec (alignment_of U) MAX_ALIGN); [done|lia]. }
  assert (malloc_request U size = size + alignment_of U - 1 + 8) as Er.
  { unfold malloc_request, SIZEOF_PTR; destruct (Z.leb_spec (alignment_of U) MAX_ALIGN); [lia|by rewrite wrap_small by (unfold in_u; lia)]. }
  rewrite Er in *; destruct (Z.eqb_spec raw 0); [lia|]; unfold SIZEOF_PTR; rewrite wrap_small by (unfold in_u; lia).
  destruct (align_for_spec U (raw + 8) HU) as [Hb Hd]; [lia..|]; set (p := align_for U (raw + 8)) in *.
  rewrite wrap_small by (unfold in_u; lia); unfold store_pointer.
  rewrite (proj2 (within_spec _ _ _)); [|exists raw, (size + alignment_of U - 1 + 8); cbn; rewrite lookup_insert_eq; unfold SIZEOF_PTR; split_all; [done|lia..]].
  rewrite bind_Done; eexists _, _; split; [reflexivity|]; split; cbn [a_live a_objects a_mem]; rewrite ?Er; try done; try lia.
  - intros x Hx Hne; apply mem_write_outside; rewrite ?zlen_le_bytes; lia.
  - destruct (Z.leb_spec (alignment_of U) MAX_ALIGN); [lia|]; split; [lia|].
    pose proof (mem_read_write (a_mem a) (p - 8) (le_bytes 8 raw)) as E; rewrite zlen_le_bytes in E; change (Z.of_nat 8) with 8 in E; rewrite E by lia.
    rewrite le_Z_bytes; apply wrap_small; unfold in_u; lia.
Qed.

(** The piece goes back whatever has been written to the [size] bytes. *)
Lemma aligned_free_ok U raw p size a a' a'' :
  ctype_ok U -> 0 <= size -> fresh raw (malloc_request U size) a -> placed U raw p size a a' ->
  a_live a'' = a_live a' -> same_outside p size a' a'' ->
  aligned_free U p a'' = Done (Arena (a_mem a'') (a_live a) (a_objects a'')).
Proof.
  intros HU Hs [Hp _ [Hn Hr] Hnew _ _] [Hlo Hhi _ Hl _ _ Hfr] El Hout; unfold aligned_free.
  assert (raw_free raw a'' = Done (Arena (a_mem a'') (a_live a) (a_objects a''))) as Hfree.
  { unfold raw_free; destruct (Z.eqb_spec raw 0); [lia|]; rewrite El, Hl, lookup_insert_eq; by rewrite delete_insert_id. }
  destruct (alignment_of U <=? MAX_ALIGN); [by subst p|].
  destruct Hfr as [Hp8 Hread]; destruct (Z.eqb_spec p 0); [lia|]; unfold load_pointer, SIZEOF_PTR.
  rewrite wrap_small by (unfold in_u; lia); rewrite (proj2 (within_spec _ _ _)).
  2:{ exists raw, (malloc_request U size); rewrite El, Hl, lookup_insert_eq; split_all; [done|lia..]. }
  rewrite bind_Done, (mem_read_ext (a_mem a'') (a_mem a')); [by rewrite Hread|].
  intros i Hi; apply Hout; lia.
Qed.

(** ** Arrays *)

Fixpoint addresses (U : ctype) (n : nat) (p : Z) : gset Z :=
  match n with O => ∅ | S n => {[p]} ∪ addresses U n (p + sizeof U) end.

Lemma elem_of_addresses U n : forall p x,
  x ∈ addresses U n p <-> exists i, 0 <= i < Z.of_nat n /\ x = p + i * sizeof U.
Proof.
  induction n as [|n IH]; intros p x; cbn [addresses]; [split; [set_solver|intros (i & ? & _); lia]|].
  rewrite elem_of_union, elem_of_singleton, IH; split.
  - intros [->|(i & Hi & ->)]; [exists 0; lia|exists (i + 1); lia].
  - intros (i & Hi & ->); destruct (Z.eq_dec i 0) as [->|]; [left; lia|right; exists (i - 1); lia].
Qed.

(** [n] objects have been constructed from [p] on. *)
Record constructed (U : ctype) (init : list byte) (n : nat) (p : Z) (a a' : arena) : Prop := {
  cs_live : a_live a' = a_live a;
  cs_objects : a_objects a' = addresses U n p ∪ a_objects a;
  cs_memory : same_outside p (Z.of_nat n * sizeof U) a a';
  cs_init : forall i, 0 <= i < Z.of_nat n -> mem_read (a_mem a') (p + i * sizeof U) (sizeof U) = init }.

Lemma within_sub a p n p' n' : within a p n = true -> p <= p' -> p' + n' <= p + n -> within a p' n' = true.
Proof. rewrite !within_spec; intros (q & m & ? & ? & ?) ? ?; exists q, m; split_all; [done|lia..]. Qed.

Lemma construct_each_ok U init n : 0 < sizeof U -> zlen init = sizeof U -> forall p a,
  0 <= p -> p + Z.of_nat n * sizeof U < 2 ^ 64 -> within a p (Z.of_nat n * sizeof U) = true ->
  exists a', construct_each U init n p a = Done a' /\ constructed U init n p a a'.
Proof.
  intros Hs Hi; induction n as [|n IH]; intros p a Hp Hlt Hw; cbn [construct_each].
  { exists a; split; [done|split; try done; [set_solver|intros; lia]]. }
  assert (0 <= Z.of_nat n * sizeof U) by nia.
  unfold construct; rewrite (within_sub _ _ _ p (sizeof U) Hw), bind_Done, wrap_small by (unfold in_u; lia).
  destruct (IH (p + sizeof U) (Arena (mem_write (a_mem a) p init) (a_live a) ({[p]} ∪ a_objects a))) as (a' & -> & [Hl Ho Hm Hr]);
    [lia|lia|eapply (within_sub a); [exact Hw|lia|lia]|]; cbn [a_live a_objects a_mem] in *.
  exists a'; split; [done|]; split; [done|rewrite Ho; cbn [addresses]; set_solver| |].
  - intros x Hx Hn; rewrite Hm by lia; cbn [a_mem]; apply mem_write_outside; lia.
  - intros i Hi'; destruct (Z.eq_dec i 0) as [->|Hne].
    + rewrite <- (mem_read_write (a_mem a) p init), Hi by lia; replace (p + 0 * sizeof U) with p by lia.
      apply mem_read_ext; intros k Hk; apply Hm; lia.
    + rewrite <- (Hr (i - 1)) by lia; f_equal; lia.
Qed.

Lemma destruct_each_ok U n : 0 < sizeof U -> forall p a,
  0 <= p -> p + Z.of_nat n * sizeof U < 2 ^ 64 -> addresses U n p ⊆ a_objects a ->
  destruct_each U n p a = Done (Arena (a_mem a) (a_live a) (a_objects a ∖ addresses U n p)).
Proof.
  intros Hs; induction n as [|n IH]; intros p a Hp Hlt Hsub; cbn [destruct_each].
  { destruct a; cbn; do 2 f_equal; set_solver. }
  assert (0 <= Z.of_nat n * sizeof U) by nia; rewrite wrap_small by (unfold in_u; lia); unfold destruct_object.
  set (last := p + Z.of_nat n * sizeof U).
  assert (forall x, x ∈ addresses U (S n) p <-> x ∈ addresses U n p \/ x = last) as Hsnoc.
  { intros x; rewrite !elem_of_addresses; split.
    - intros (i & Hi & ->); destruct (Z.eq_dec i (Z.of_nat n)) as [->|]; [by right|left; exists i; split; [lia|done]].
    - intros [(i & Hi & ->)| ->]; [exists i|exists (Z.of_nat n)]; (split; [lia|done]). }
  assert (last ∉ addresses U n p) as Hlast by (rewrite elem_of_addresses; intros (i & Hi & E); unfold last in E; nia).
  rewrite decide_True by (apply Hsub, Hsnoc; by right); rewrite bind_Done, IH; [|lia|lia|]; cbn [a_mem a_live a_objects].
  - do 2 f_equal; apply set_eq; intros x; rewrite !elem_of_difference, Hsnoc, elem_of_singleton; tauto.
  - intros x Hx; apply elem_of_difference; split; [apply Hsub, Hsnoc; by left|]; intros ->%elem_of_singleton; done.
Qed.

(** C23: [create_array] puts [count] objects, one behind the other and aligned, into the
    piece [malloc] gives it, or returns null; [destroy_array] destroys them and gives
    the piece back, whatever has been written to the objects in between.  The request,
    alignment and stored pointer included, is to be less than [2 ^ 64] bytes. *)
Theorem array_round_trip U got init count a :
  ctype_ok U -> zlen init = sizeof U -> 0 < count -> count * sizeof U + alignment_of U + 8 < 2 ^ 64 ->
  (forall raw, got = Some raw -> fresh raw (malloc_request U (count * sizeof U)) a) ->
  match got with
  | None => create_array U got init count a = Done (0, a) /\ destroy_array U 0 count a = Done a
  | Some raw => exists p a', create_array U got init count a = Done (p, a') /\
      0 < p /\ (alignment_of U | p) /\ raw <= p /\ p + count * sizeof U <= raw + malloc_request U (count * sizeof U) /\
      (forall i, 0 <= i < count -> mem_read (a_mem a') (p + i * sizeof U) (sizeof U) = init) /\
      a_objects a' = addresses U (Z.to_nat count) p ∪ a_objects a /\
      same_outside raw (malloc_request U (count * sizeof U)) a a' /\
      forall a'', a_live a'' = a_live a' -> a_objects a'' = a_objects a' -> same_outside p (count * sizeof U) a' a'' ->
        exists a3, destroy_array U p count a'' = Done a3 /\ a_mem a3 = a_mem a'' /\ a_live a3 = a_live a /\ a_objects a3 = a_objects a
  end.
Proof.
  intros HU Hi Hc Hlt Hfresh; pose proof (ty_size U HU); pose proof (alignment_pos U HU).
  unfold create_array, destroy_array; rewrite (proj2 (Z.ltb_lt 0 count)) by done; cbn [check].
  rewrite (Z.mul_comm (sizeof U)), (wrap_small 64 (count * sizeof U)) by (unfold in_u; nia).
  destruct got as [raw|].
  2:{ unfold aligned_malloc, aligned_free, raw_free; cbn [raw_malloc]; rewrite bind_Done, Z.eqb_refl, bind_Done.
      by destruct (alignment_of U <=? MAX_ALIGN). }
  pose proof (Hfresh raw eq_refl) as Hf.
  destruct (aligned_malloc_ok U raw (count * sizeof U) a HU) as (p & a1 & -> & Hpl); [nia|lia|done|].
  pose proof Hf as [Hp _ [Hn Hr] _ _ Hun]; pose proof Hpl as [Hlo Hhi Hal Hl Ho Hm Hfr].
  rewrite !bind_Done; destruct (Z.eqb_spec p 0); [lia|].
  destruct (construct_each_ok U init (Z.to_nat count)) with (p := p) (a := a1) as (a' & E & [Hcl Hco Hcm Hci]);
    rewrite ?Z2Nat.id by lia; [done|done|lia|lia| |].
  { apply within_spec; exists raw, (malloc_request U (count * sizeof U)); rewrite Hl, lookup_insert_eq; split_all; [done|lia..]. }
  rewrite Z2Nat.id in * by lia; rewrite E, bind_Done; exists p, a'; split; [done|].
  split; [lia|]; split; [done|]; split; [done|]; split; [done|]; split; [done|]; split; [by rewrite Hco, Ho|]; split.
  { intros x Hx Hne; rewrite Hcm by lia; by apply Hm. }
  intros a'' El Eo Hout; rewrite bind_Done, destruct_each_ok; rewrite ?Z2Nat.id by lia; [|done|lia|lia|rewrite Eo, Hco; set_solver].
  rewrite (proj2 (Z.eqb_neq p 0)), bind_Done by done; rewrite (aligned_free_ok U raw p (count * sizeof U) a a1); cbn [a_mem a_live a_objects]; try done; [|nia|congruence|].
  - eexists; split; [reflexivity|]; split; [done|]; split; [done|]; cbn [a_objects]; rewrite Eo, Hco, Ho.
    apply set_eq; intros x; rewrite elem_of_difference, elem_of_union; split; [tauto|]; intros Hx; split; [by right|].
    intros (i & Hi' & ->)%elem_of_addresses; destruct (Hun _ Hx); nia.
  - intros x Hx Hne; rewrite Hout by done; by apply Hcm.
Qed.

(** One object is an array of one. *)
Lemma create_one U got init a : ctype_ok U -> sizeof U < 2 ^ 64 -> create U got init a = create_array U got init 1 a.
Proof.
  intros HU Hlt; pose proof (ty_size U HU); unfold create, create_array; cbn [check Z.ltb Z.compare].
  rewrite bind_Done, Z.mul_1_r, wrap_small by (unfold in_u; lia).
  destruct (aligned_malloc U got (sizeof U) a) as [[p a']| | |]; try done; rewrite !bind_Done; destruct (p =? 0); [done|].
  change (Z.to_nat 1) with 1%nat; cbn [construct_each]; destruct (construct U init p a'); rewrite ?bind_Done; done.
Qed.

(** The size of an array is computed modulo [2^64], and nobody looks whether it went
    round: with enough elements asked for, the piece does not hold the first. *)
Theorem create_array_overflow U raw init count a :
  ctype_ok U -> alignment_of U <= MAX_ALIGN -> 0 < count -> 0 < u64 (sizeof U * count) < sizeof U ->
  fresh raw (u64 (sizeof U * count)) a -> create_array U (Some raw) init count a = Undefined.
Proof.
  intros HU Hal Hc Hsz [Hp _ [Hn Hr] _ Hap _]; unfold create_array, aligned_malloc; cbn [raw_malloc].
  rewrite (proj2 (Z.ltb_lt 0 count)), (proj2 (Z.leb_le _ _) Hal) by done; cbn [check]; rewrite !bind_Done.
  destruct (Z.eqb_spec raw 0); [lia|]; destruct (Z.to_nat count) as [|c] eqn:E; [lia|]; cbn [construct_each]; unfold construct.
  destruct (within _ raw (sizeof U)) eqn:Hw; [exfalso|done].
  apply within_spec in Hw as (q & m & Hq & H1 & H2); cbn [a_live] in Hq.
  unfold malloc_request in Hq; rewrite (proj2 (Z.leb_le _ _) Hal) in Hq.
  apply lookup_insert_Some in Hq as [[<- <-]|[Hne Hq]]; [lia|]; destruct (Hap q m Hq); lia.
Qed.

(** Two objects of 64 bytes, aligned to 32, in a piece at an address that is not. *)
Definition cache_line : ctype := {| sizeof := 64; alignment_of := 32 |}.
Definition no_memory : arena := Arena ∅ ∅ ∅.

Lemma array_round_trip_witness :
  exists a', create_array cache_line (Some 4112) (replicate 64 (Z_byte 7)) 2 no_memory = Done (4128, a') /\
    mem_read (a_mem a') 4192 64 = replicate 64 (Z_byte 7) /\
    exists a3, destroy_array cache_line 4128 2 a' = Done a3 /\ a_live a3 = ∅ /\ a_objects a3 = ∅.
Proof.
  destruct (array_round_trip cache_line (Some 4112) (replicate 64 (Z_byte 7)) 2 no_memory)
    as (p & a' & E & _ & _ & _ & _ & Hi & _ & _ & Hd); [|reflexivity|reflexivity|reflexivity| |].
  - split; [exists 5; split; [lia|reflexivity]|reflexivity|exists 2; reflexivity].
  - intros raw [= <-]; split; [reflexivity|exists 257; reflexivity|vm_compute; split; congruence|reflexivity| |].
    + intros q m [=].
    + intros o Ho; exfalso; by apply not_elem_of_empty in Ho.
  - assert (p = 4128) as ->.
    { assert (fst <$> match create_array cache_line (Some 4112) (replicate 64 (Z_byte 7)) 2 no_memory with Done x => Some x | _ => None end = Some 4128) as E2 by (vm_compute; reflexivity).
      rewrite E in E2; by injection E2. }
    exists a'; split; [exact E|split; [exact (Hi 1 ltac:(lia))|]].
    destruct (Hd a' eq_refl eq_refl ltac:(intros x _ _; reflexivity)) as (a3 & E3 & _ & Hl & Ho); by exists a3.
Defined.
