(* ===== verification/ImplicitProducer.v ===== *)
(** * Inside the concurrent queue: one producer ([common/concurrentqueue.h])

    [ImplicitProducer] keeps the elements one thread has enqueued in blocks of the
    pool.  Head and tail are 64-bit counters that may wrap; a circular array of
    entries, the block index, leads from an index to its block and doubles when it
    is full.  [BlockIndex.v] and [ProducerFifo.v] hold the proofs. *)

From S2P Require Import Prelude BlockPool.

Definition INVALID_BLOCK_BASE : Z := 1.
Definition IMPLICIT_INITIAL_INDEX_SIZE : Z := 32.

Record BlockIndexEntry := { bie_key : Z; bie_value : Z }.
(** [bih_index] holds entries by their number in the producer's [ip_entries]; the
    chain of previous headers only serves to free them. *)
Record BlockIndexHeader := { bih_capacity : Z; bih_tail : Z; bih_index : list nat }.

Record ImplicitProducer := {
  ip_tailIndex : Z; ip_headIndex : Z; ip_dequeueOptimisticCount : Z; ip_dequeueOvercommit : Z;
  ip_tailBlock : Z; ip_nextBlockIndexCapacity : Z; ip_entries : list BlockIndexEntry;
  ip_blockIndex : option BlockIndexHeader }.

Definition set_tailIndex (v : Z) (p : ImplicitProducer) : ImplicitProducer :=
  {| ip_tailIndex := v; ip_headIndex := ip_headIndex p;
     ip_dequeueOptimisticCount := ip_dequeueOptimisticCount p;
     ip_dequeueOvercommit := ip_dequeueOvercommit p; ip_tailBlock := ip_tailBlock p;
     ip_nextBlockIndexCapacity := ip_nextBlockIndexCapacity p; ip_entries := ip_entries p;
     ip_blockIndex := ip_blockIndex p |}.
(** The three counters a dequeue moves. *)
Definition set_counts (head opt over : Z) (p : ImplicitProducer) : ImplicitProducer :=
  {| ip_tailIndex := ip_tailIndex p; ip_headIndex := head; ip_dequeueOptimisticCount := opt;
     ip_dequeueOvercommit := over; ip_tailBlock := ip_tailBlock p;
     ip_nextBlockIndexCapacity := ip_nextBlockIndexCapacity p; ip_entries := ip_entries p;
     ip_blockIndex := ip_blockIndex p |}.
Definition set_tailBlock (v : Z) (p : ImplicitProducer) : ImplicitProducer :=
  {| ip_tailIndex := ip_tailIndex p; ip_headIndex := ip_headIndex p;
     ip_dequeueOptimisticCount := ip_dequeueOptimisticCount p;
     ip_dequeueOvercommit := ip_dequeueOvercommit p; ip_tailBlock := v;
     ip_nextBlockIndexCapacity := ip_nextBlockIndexCapacity p; ip_entries := ip_entries p;
     ip_blockIndex := ip_blockIndex p |}.
Definition set_index (next : Z) (es : list BlockIndexEntry) (h : option BlockIndexHeader)
    (p : ImplicitProducer) : ImplicitProducer :=
  {| ip_tailIndex := ip_tailIndex p; ip_headIndex := ip_headIndex p;
     ip_dequeueOptimisticCount := ip_dequeueOptimisticCount p;
     ip_dequeueOvercommit := ip_dequeueOvercommit p; ip_tailBlock := ip_tailBlock p;
     ip_nextBlockIndexCapacity := next; ip_entries := es; ip_blockIndex := h |}.

(** [index & ~(BLOCK_SIZE - 1)]. *)
Definition block_base (index : Z) : Z := Z.land index (u64 (Z.lnot (BLOCK_SIZE - 1))).

(** ** The block index *)

Definition load_entry (id : nat) (p : ImplicitProducer) : run BlockIndexEntry :=
  deref (ip_entries p !! id).
Definition store_entry (id : nat) (e : BlockIndexEntry) (p : ImplicitProducer) : ImplicitProducer :=
  set_index (ip_nextBlockIndexCapacity p) (<[id := e]> (ip_entries p)) (ip_blockIndex p) p.
Definition store_value (id : nat) (v : Z) (p : ImplicitProducer) : run ImplicitProducer :=
  e ← load_entry id p; mret (store_entry id {| bie_key := bie_key e; bie_value := v |} p).
Definition store_tail (t : Z) (h : BlockIndexHeader) (p : ImplicitProducer) : ImplicitProducer :=
  set_index (ip_nextBlockIndexCapacity p) (ip_entries p)
    (Some {| bih_capacity := bih_capacity h; bih_tail := t; bih_index := bih_index h |}) p.
Definition index_at (h : BlockIndexHeader) (pos : Z) : run nat :=
  deref (bih_index h !! Z.to_nat pos).

(** [pos & (capacity - 1)]. *)
Definition ring (h : BlockIndexHeader) (pos : Z) : Z := Z.land (u64 pos) (u64 (bih_capacity h - 1)).

(** The loop that copies the old index, oldest entry first. *)
Fixpoint copy_index (fuel : nat) (prev : BlockIndexHeader) (prevPos : Z) : run (list nat) :=
  match fuel with
  | O => Blocked
  | S fuel =>
      let prevPos := ring prev (prevPos + 1) in
      id ← index_at prev prevPos;
      if prevPos =? bih_tail prev then mret [id]
      else rest ← copy_index fuel prev prevPos; mret (id :: rest)
  end.

Section producer.
Context {A : Type}.
Implicit Types (po : pool A).

(** What the uninitialised [value] of a new entry contains. *)
Variable junk : Z.

Definition new_block_index po (p : ImplicitProducer) : run (bool * pool A * ImplicitProducer) :=
  let prevCapacity := match ip_blockIndex p with None => 0 | Some prev => bih_capacity prev end in
  let entryCount :=
    match ip_blockIndex p with None => ip_nextBlockIndexCapacity p | Some _ => prevCapacity end in
  let '(ok, po) := malloc_ok po in
  if negb ok then mret (false, po, p)
  else
    old ← match ip_blockIndex p with
          | None => mret []
          | Some prev => copy_index (Z.to_nat prevCapacity) prev (bih_tail prev)
          end;
    _ ← check (Z.of_nat (length old) =? prevCapacity);
    let n := length (ip_entries p) in
    let next := ip_nextBlockIndexCapacity p in
    let header := {| bih_capacity := next; bih_tail := Z.land (u64 (prevCapacity - 1)) (u64 (next - 1));
                     bih_index := old ++ seq n (Z.to_nat entryCount) |} in
    mret (true, po,
          set_index (u64 (Z.shiftl next 1))
            (ip_entries p ++ replicate (Z.to_nat entryCount)
               {| bie_key := INVALID_BLOCK_BASE; bie_value := junk |}) (Some header) p).

Definition insert_block_index_entry (canAlloc : bool) (blockStartIndex : Z) po (p : ImplicitProducer)
  : run (option nat * pool A * ImplicitProducer) :=
  match ip_blockIndex p with
  | None => mret (None, po, p)
  | Some h =>
      let newTail := ring h (bih_tail h + 1) in
      id ← index_at h newTail; e ← load_entry id p;
      if (bie_key e =? INVALID_BLOCK_BASE) || (bie_value e =? 0) then
        mret (Some id, po, store_tail newTail h
               (store_entry id {| bie_key := blockStartIndex; bie_value := bie_value e |} p))
      else if negb canAlloc then mret (None, po, p)
      else
        '(ok, po, p) ← new_block_index po p;
        if negb (ok : bool) then mret (None, po, p)
        else
          h ← deref (ip_blockIndex p);
          let newTail := ring h (bih_tail h + 1) in
          id ← index_at h newTail; e ← load_entry id p;
          _ ← check (bie_key e =? INVALID_BLOCK_BASE);
          mret (Some id, po, store_tail newTail h
                 (store_entry id {| bie_key := blockStartIndex; bie_value := bie_value e |} p))
  end.

Definition rewind_block_index_tail (p : ImplicitProducer) : run ImplicitProducer :=
  h ← deref (ip_blockIndex p); mret (store_tail (ring h (bih_tail h - 1)) h p).

(** The offset is divided as an unsigned number: [BLOCK_SIZE] is a [size_t]. *)
Definition get_block_index_index_for_index (index : Z) (p : ImplicitProducer)
  : run (Z * BlockIndexHeader) :=
  let index := block_base index in
  h ← deref (ip_blockIndex p);
  id ← index_at h (bih_tail h); e ← load_entry id p;
  let tailBase := bie_key e in
  _ ← check (negb (tailBase =? INVALID_BLOCK_BASE));
  let offset := u64 (index - tailBase) / BLOCK_SIZE in
  let idx := ring h (bih_tail h + offset) in
  id ← index_at h idx; e ← load_entry id p;
  _ ← check ((bie_key e =? index) && negb (bie_value e =? 0));
  mret (idx, h).
Definition get_block_index_entry_for_index (index : Z) (p : ImplicitProducer) : run nat :=
  '(idx, h) ← get_block_index_index_for_index index p; index_at h idx.

(** ** Enqueuing *)

(** The constructor. *)
Definition new_producer po : run (pool A * ImplicitProducer) :=
  '(_, po, p) ← new_block_index po
     {| ip_tailIndex := 0; ip_headIndex := 0; ip_dequeueOptimisticCount := 0;
        ip_dequeueOvercommit := 0; ip_tailBlock := 0;
        ip_nextBlockIndexCapacity := IMPLICIT_INITIAL_INDEX_SIZE; ip_entries := [];
        ip_blockIndex := None |};
  mret (po, p).

Definition full (currentTailIndex head : Z) : bool :=
  negb (circular_less_than head (u64 (currentTailIndex + BLOCK_SIZE))) ||
  (negb (MAX_SUBQUEUE_SIZE =? 2 ^ 64 - 1) &&
   ((MAX_SUBQUEUE_SIZE =? 0) ||
    (MAX_SUBQUEUE_SIZE - BLOCK_SIZE <? u64 (currentTailIndex - head)))).

(** Entering a new block for [base] into the index; on failure the index is as
    before and no block is kept. *)
Definition start_block (canAlloc : bool) (base : Z) po (p : ImplicitProducer)
  : run (option Z * pool A * ImplicitProducer) :=
  '(inserted, po, p) ← insert_block_index_entry canAlloc base po p;
  match inserted with
  | None => mret (None, po, p)
  | Some id =>
      '(newBlock, po) ← requisition_block canAlloc po;
      if newBlock =? 0 then
        p ← rewind_block_index_tail p; p ← store_value id 0 p; mret (None, po, p)
      else
        b ← load po newBlock;
        p ← store_value id newBlock p;
        mret (Some newBlock, store newBlock (reset_empty b) po, p)
  end.

Definition ip_enqueue (canAlloc : bool) (x : A) po (p : ImplicitProducer)
  : run (bool * pool A * ImplicitProducer) :=
  let currentTailIndex := ip_tailIndex p in
  let newTailIndex := u64 (1 + currentTailIndex) in
  '(ok, po, p) ←
    (if slot currentTailIndex =? 0 then
       _ ← check (negb (circular_less_than currentTailIndex (ip_headIndex p)));
       if full currentTailIndex (ip_headIndex p) then mret (false, po, p)
       else
         '(newBlock, po, p) ← start_block canAlloc currentTailIndex po p;
         match newBlock with
         | None => mret (false, po, p)
         | Some q => mret (true, po, set_tailBlock q p)
         end
     else mret (true, po, p));
  if negb (ok : bool) then mret (false, po, p)
  else
    b ← load po (ip_tailBlock p);
    mret (true, store (ip_tailBlock p)
                  (set_b_elements (<[slot currentTailIndex := x]> (b_elements b)) b) po,
          set_tailIndex newTailIndex p).

(** ** Dequeuing *)

(** The block has lost its last element: out of the index, back to the pool. *)
Definition release_block (now_empty : bool) (id : nat) (q : Z) po (p : ImplicitProducer)
  : run (pool A * ImplicitProducer) :=
  if now_empty then
    p ← store_value id 0 p; po ← add_block_to_free_list q po; mret (po, p)
  else mret (po, p).

Definition ip_dequeue po (p : ImplicitProducer) : run (option A * pool A * ImplicitProducer) :=
  let tail := ip_tailIndex p in
  let overcommit := ip_dequeueOvercommit p in
  let opt := ip_dequeueOptimisticCount p in
  if circular_less_than (u64 (opt - overcommit)) tail then
    let opt' := u64 (opt + 1) in
    if circular_less_than (u64 (opt - overcommit)) tail then
      let index := ip_headIndex p in
      let p := set_counts (u64 (index + 1)) opt' overcommit p in
      id ← get_block_index_entry_for_index index p; e ← load_entry id p;
      b ← load po (bie_value e);
      x ← deref (b_elements b !! slot index);
      '(now_empty, b) ← set_empty (set_b_elements (delete (slot index) (b_elements b)) b);
      '(po, p) ← release_block now_empty id (bie_value e) (store (bie_value e) b po) p;
      mret (Some x, po, p)
    else mret (None, po, set_counts (ip_headIndex p) opt' (u64 (overcommit + 1)) p)
  else mret (None, po, p).

(** ** Bulk operations *)

(** Undoing the blocks entered so far, by following their [next] pointers. *)
Fixpoint revert_index (fuel : nat) (block currentTailIndex : Z) po (p : ImplicitProducer)
  : run ImplicitProducer :=
  match fuel with
  | O => Blocked
  | S fuel =>
      if block =? 0 then mret p
      else
        let currentTailIndex := u64 (currentTailIndex + BLOCK_SIZE) in
        id ← get_block_index_entry_for_index currentTailIndex p;
        p ← store_value id 0 p; p ← rewind_block_index_tail p;
        b ← load po block; revert_index fuel (b_next b) currentTailIndex po p
  end.
Definition revert_bulk (fuel : nat) (startTailIndex startBlock firstAllocatedBlock : Z) po
    (p : ImplicitProducer) : run (pool A * ImplicitProducer) :=
  p ← revert_index fuel firstAllocatedBlock (block_base (u64 (startTailIndex - 1))) po p;
  po ← add_blocks_to_free_list fuel firstAllocatedBlock po;
  mret (po, set_tailBlock startBlock p).

(** Chaining a new block: its [next] is null, and the block before leads to it. *)
Definition link_block (startTailIndex first newBlock : Z) po (p : ImplicitProducer) : run (pool A) :=
  b ← load po newBlock;
  let po := store newBlock (set_b_next 0 b) po in
  if negb (slot startTailIndex =? 0) || negb (first =? 0) then
    _ ← check (negb (ip_tailBlock p =? 0));
    tb ← load po (ip_tailBlock p);
    mret (store (ip_tailBlock p) (set_b_next newBlock tb) po)
  else mret po.

(** [while (blockBaseDiff > 0)]: one block per turn; the result is the first and
    the last block of the chain, or [None] where the allocation failed. *)
Fixpoint bulk_allocate (total fuel : nat) (canAlloc : bool) (startTailIndex startBlock diff cur first last : Z)
    po (p : ImplicitProducer) : run (option (Z * Z) * pool A * ImplicitProducer) :=
  if diff =? 0 then mret (Some (first, last), po, p)
  else
    match fuel with
    | O => Blocked
    | S fuel =>
        let diff := u64 (diff - BLOCK_SIZE) in
        let cur := u64 (cur + BLOCK_SIZE) in
        let head := ip_headIndex p in
        _ ← check (negb (circular_less_than cur head));
        '(newBlock, po, p) ←
          (if full cur head then mret (None, po, p) else start_block canAlloc cur po p);
        match newBlock with
        | None =>
            '(po, p) ← revert_bulk total startTailIndex startBlock first po p; mret (None, po, p)
        | Some q =>
            po ← link_block startTailIndex first q po p;
            bulk_allocate total fuel canAlloc startTailIndex startBlock diff cur
              (if first =? 0 then q else first) q po (set_tailBlock q p)
        end
    end.

(** [while (currentTailIndex != stopIndex)]: constructing elements in one block. *)
Fixpoint fill_block (fuel : nat) (stopIndex cur : Z) (xs : list A) (b : block A)
  : run (Z * list A * block A) :=
  if cur =? stopIndex then mret (cur, xs, b)
  else
    match fuel, xs with
    | O, _ => Blocked
    | S fuel, x :: xs =>
        fill_block fuel stopIndex (u64 (cur + 1)) xs
          (set_b_elements (<[slot cur := x]> (b_elements b)) b)
    | S fuel, [] => Undefined
    end.

Definition stop_index (index last : Z) : Z :=
  let stopIndex := u64 (block_base index + BLOCK_SIZE) in
  if circular_less_than last stopIndex then last else stopIndex.

(** [while (true)]: one block per turn, up to [endBlock]. *)
Fixpoint bulk_fill (fuel : nat) (newTailIndex endBlock cur : Z) (xs : list A) po (p : ImplicitProducer)
  : run (pool A * ImplicitProducer) :=
  match fuel with
  | O => Blocked
  | S fuel =>
      let q := ip_tailBlock p in
      let stopIndex := stop_index cur newTailIndex in
      '(cur, xs, po) ←
        (if cur =? stopIndex then mret (cur, xs, po)
         else
           b ← load po q;
           '(cur, xs, b) ← fill_block (Z.to_nat BLOCK_SIZE) stopIndex cur xs b;
           mret (cur, xs, store q b po));
      if q =? endBlock then _ ← check (cur =? newTailIndex); mret (po, p)
      else
        b ← load po q; bulk_fill fuel newTailIndex endBlock cur xs po (set_tailBlock (b_next b) p)
  end.

Definition ip_enqueue_bulk (canAlloc : bool) (xs : list A) po (p : ImplicitProducer)
  : run (bool * pool A * ImplicitProducer) :=
  let count := Z.of_nat (length xs) in
  let startTailIndex := ip_tailIndex p in
  let startBlock := ip_tailBlock p in
  let blockBaseDiff := u64 (block_base (u64 (startTailIndex + count - 1)) -
                            block_base (u64 (startTailIndex - 1))) in
  let cur := block_base (u64 (startTailIndex - 1)) in
  let fuel := S (Z.to_nat (blockBaseDiff / BLOCK_SIZE)) in
  '(chain, po, p) ← bulk_allocate fuel fuel canAlloc startTailIndex startBlock blockBaseDiff cur 0
                      startBlock po p;
  match chain with
  | None => mret (false, po, p)
  | Some (first, last) =>
      let newTailIndex := u64 (startTailIndex + count) in
      _ ← check (negb (slot startTailIndex =? 0) || negb (first =? 0) || (count =? 0));
      let p := set_tailBlock (if (slot startTailIndex =? 0) && negb (first =? 0) then first
                              else startBlock) p in
      '(po, p) ← bulk_fill (S fuel) newTailIndex last startTailIndex xs po p;
      mret (true, po, set_tailIndex newTailIndex p)
  end.

(** [while (index != endIndex)]: moving elements out of one block. *)
Fixpoint take_block (fuel : nat) (endIndex index : Z) (b : block A) : run (list A * block A) :=
  if index =? endIndex then mret ([], b)
  else
    match fuel with
    | O => Blocked
    | S fuel =>
        x ← deref (b_elements b !! slot index);
        '(xs, b) ← take_block fuel endIndex (u64 (index + 1))
                     (set_b_elements (delete (slot index) (b_elements b)) b);
        mret (x :: xs, b)
    end.

(** [do ... while (index != firstIndex + actualCount)]. *)
Fixpoint bulk_take (fuel : nat) (h : BlockIndexHeader) (last index indexIndex : Z) po
    (p : ImplicitProducer) : run (list A * pool A * ImplicitProducer) :=
  match fuel with
  | O => Blocked
  | S fuel =>
      let endIndex := stop_index index last in
      id ← index_at h indexIndex; e ← load_entry id p;
      b ← load po (bie_value e);
      '(xs, b) ← take_block (Z.to_nat BLOCK_SIZE) endIndex index b;
      '(now_empty, b) ← set_many_empty (u64 (endIndex - index)) b;
      '(po, p) ← release_block now_empty id (bie_value e) (store (bie_value e) b po) p;
      if endIndex =? last then mret (xs, po, p)
      else
        '(ys, po, p) ← bulk_take fuel h last endIndex (ring h (indexIndex + 1)) po p;
        mret (xs ++ ys, po, p)
  end.

Definition ip_dequeue_bulk (max : Z) po (p : ImplicitProducer)
  : run (list A * pool A * ImplicitProducer) :=
  let tail := ip_tailIndex p in
  let overcommit := ip_dequeueOvercommit p in
  let opt := ip_dequeueOptimisticCount p in
  let desiredCount := u64 (tail - u64 (opt - overcommit)) in
  if circular_less_than 0 desiredCount then
    let desiredCount := if desiredCount <? max then desiredCount else max in
    let opt' := u64 (opt + desiredCount) in
    let actualCount := u64 (tail - u64 (opt - overcommit)) in
    if circular_less_than 0 actualCount then
      let actualCount := if desiredCount <? actualCount then desiredCount else actualCount in
      let over' := if actualCount <? desiredCount then u64 (overcommit + (desiredCount - actualCount))
                   else overcommit in
      let firstIndex := ip_headIndex p in
      let last := u64 (firstIndex + actualCount) in
      let p := set_counts last opt' over' p in
      '(indexIndex, h) ← get_block_index_index_for_index firstIndex p;
      bulk_take (S (Z.to_nat (actualCount / BLOCK_SIZE + 1))) h last firstIndex indexIndex po p
    else mret ([], po, set_counts (ip_headIndex p) opt' (u64 (overcommit + desiredCount)) p)
  else mret ([], po, p).

(** ** The destructor *)

(** [while (index != tail)]: destroying the elements, giving back each block when
    the next one is entered.  The elements destroyed, in this order, are returned. *)
Fixpoint destroy_elements (fuel : nat) (tail index block : Z) po (p : ImplicitProducer) : run (list A * pool A) :=
  if index =? tail then mret ([], po)
  else
    match fuel with
    | O => Blocked
    | S fuel =>
        '(block, po) ←
          (if (slot index =? 0) || (block =? 0) then
             po ← (if negb (block =? 0) then add_block_to_free_list block po else mret po);
             id ← get_block_index_entry_for_index index p; e ← load_entry id p;
             mret (bie_value e, po)
           else mret (block, po));
        b ← load po block;
        x ← deref (b_elements b !! slot index);
        '(xs, po) ← destroy_elements fuel tail (u64 (index + 1)) block
          (store block (set_b_elements (delete (slot index) (b_elements b)) b) po) p;
        mret (x :: xs, po)
    end.

(** [~ImplicitProducer], up to freeing the index. *)
Definition destroy_producer po (p : ImplicitProducer) : run (list A * pool A) :=
  let tail := ip_tailIndex p in
  let index := ip_headIndex p in
  _ ← check ((index =? tail) || circular_less_than index tail);
  let forceFreeLastBlock := negb (index =? tail) in
  '(xs, po) ← destroy_elements (Z.to_nat (u64 (tail - index))) tail index 0 po p;
  po ← (if negb (ip_tailBlock p =? 0) && (forceFreeLastBlock || negb (slot tail =? 0))
        then add_block_to_free_list (ip_tailBlock p) po else mret po);
  mret (xs, po).

(** [ProducerBase::size_approx]. *)
Definition ip_size_approx (p : ImplicitProducer) : Z :=
  if circular_less_than (ip_headIndex p) (ip_tailIndex p)
  then u64 (ip_tailIndex p - ip_headIndex p) else 0.
End producer.
