(* ===== verification/BlockIndex.v ===== *)
(** * Inside the concurrent queue: the block index

    Arithmetic on the circle of 64-bit indices, the invariant of the circular
    block index and what looking up, entering, dropping and growing do to it. *)

From S2P Require Import Prelude BlockPool ImplicitProducer.

(** ** Circular arithmetic *)

Lemma slot_mod i : slot i = i mod 32.
Proof. unfold slot; apply (Z.land_ones i 5); lia. Qed.
Lemma slot_u64 i : slot (u64 i) = i mod 32.
Proof.
  rewrite slot_mod; unfold wrap; apply Z.mod_mod_divide; exists (2 ^ 59); reflexivity.
Qed.

Lemma block_base_div i : in_u 64 i -> block_base i = 32 * (i / 32).
Proof.
  intros Hi; unfold block_base, wrap; rewrite <- Z.land_ones by lia.
  change (BLOCK_SIZE - 1) with (Z.ones 5).
  rewrite (Z.land_comm (Z.lnot _)), Z.land_assoc, Z.land_ones by lia.
  rewrite (Z.mod_small i) by apply Hi.
  rewrite <- Z.ldiff_land, Z.ldiff_ones_r, Z.shiftl_mul_pow2, Z.shiftr_div_pow2 by lia.
  change (2 ^ 5) with 32; lia.
Qed.
Lemma div_u64 i : u64 i / 32 = i / 32 - 2 ^ 59 * (i / 2 ^ 64).
Proof.
  unfold wrap; rewrite Z.mod_eq by lia.
  replace (i - 2 ^ 64 * (i / 2 ^ 64)) with (i + (- 2 ^ 59 * (i / 2 ^ 64)) * 32) by lia.
  rewrite Z.div_add by lia; lia.
Qed.
Lemma u64_add_mult i q : u64 (i + 2 ^ 64 * q) = u64 i.
Proof. unfold wrap; rewrite Z.mul_comm; apply Z.mod_add; lia. Qed.
Lemma block_base_u64 i : block_base (u64 i) = u64 (32 * (i / 32)).
Proof.
  assert (in_u 64 (u64 i)) as Hr by (apply wrap_range; lia).
  rewrite block_base_div by done; rewrite <- (u64_add_mult (32 * (i / 32)) (- (i / 2 ^ 64))).
  rewrite div_u64; replace (32 * (i / 32) + 2 ^ 64 * - (i / 2 ^ 64))
    with (32 * (i / 32 - 2 ^ 59 * (i / 2 ^ 64))) by lia.
  symmetry; apply wrap_small; rewrite <- div_u64; unfold in_u in *.
  pose proof (Z.mod_pos_bound (u64 i) 32); rewrite Z.mod_eq in H by lia; lia.
Qed.

Lemma u64_sub a b : u64 (u64 a - u64 b) = u64 (a - b).
Proof. unfold wrap; symmetry; apply Zminus_mod. Qed.
Lemma u64_add a b : u64 (u64 a + b) = u64 (a + b).
Proof. apply wrap_add_l. Qed.
(** A counter that moves along with another one. *)
Lemma u64_move o v H n : u64 (o - v) = u64 H -> u64 (u64 (o + n) - v) = u64 (H + n).
Proof. intros E; rewrite <- (u64_add H n), <- E, u64_add; unfold wrap; rewrite Zminus_mod_idemp_l; f_equal; lia. Qed.

Lemma clt_u64 a b :
  - 2 ^ 63 < a - b <= 2 ^ 63 -> circular_less_than (u64 a) (u64 b) = (a <? b).
Proof.
  intros H; unfold circular_less_than; rewrite u64_sub; unfold wrap.
  destruct (Z.ltb_spec a b).
  - rewrite <- (Z.mod_add _ 1) by lia; rewrite Z.mod_small by lia; apply Z.ltb_lt; lia.
  - rewrite Z.mod_small by lia; apply Z.ltb_ge; lia.
Qed.

Lemma ring_mod h c pos : bih_capacity h = 2 ^ c -> 0 <= c <= 63 -> ring h pos = pos mod 2 ^ c.
Proof.
  intros Hc Hr; unfold ring; rewrite Hc.
  assert (0 < 2 ^ c) by (apply Z.pow_pos_nonneg; lia).
  assert (2 ^ c <= 2 ^ 63) by (apply Z.pow_le_mono_r; lia).
  rewrite (wrap_small 64 (2 ^ c - 1)) by (unfold in_u; lia).
  replace (2 ^ c - 1) with (Z.ones c) by (rewrite Z.ones_equiv; lia).
  rewrite Z.land_ones by lia; unfold wrap; apply Z.mod_mod_divide.
  exists (2 ^ (64 - c)); rewrite <- Z.pow_add_r by lia; f_equal; lia.
Qed.

(** ** The block index *)

(** The position of the entry for block number [k] when [kt] is the number after
    the newest block's, and the entry there. *)
Definition position (h : BlockIndexHeader) (kt k : Z) : nat :=
  Z.to_nat ((bih_tail h + (k - kt + 1)) mod bih_capacity h).
Definition entry_for (p : ImplicitProducer) (h : BlockIndexHeader) (kt k : Z)
  : option (nat * BlockIndexEntry) :=
  id ← bih_index h !! position h kt k; e ← ip_entries p !! id; Some (id, e).

Definition vacant (e : BlockIndexEntry) : Prop := bie_key e = INVALID_BLOCK_BASE \/ bie_value e = 0.

(** The shape of the index, and its contents: an entry for each of the blocks
    [ps], numbered from [kh] to [kt - 1], and vacant entries everywhere else. *)
Record ring_ok (p : ImplicitProducer) (h : BlockIndexHeader) (c : Z) : Prop := {
  ro_header : ip_blockIndex p = Some h;
  ro_capacity : bih_capacity h = 2 ^ c;
  ro_range : 1 <= c <= 59;
  ro_length : length (bih_index h) = Z.to_nat (2 ^ c);
  ro_tail : 0 <= bih_tail h < 2 ^ c;
  ro_nodup : NoDup (bih_index h);
  ro_ids : Forall (fun id => (id < length (ip_entries p))%nat) (bih_index h);
  ro_next : ip_nextBlockIndexCapacity p = 2 ^ (c + 1) }.

Record index_ok (p : ImplicitProducer) (h : BlockIndexHeader) (c kh kt : Z) (ps : list Z) : Prop := {
  io_ring : ring_ok p h c;
  io_count : kt - kh = Z.of_nat (length ps);
  io_room : kt - kh <= 2 ^ c;
  io_live : forall m q, ps !! m = Some q ->
    exists id, entry_for p h kt (kh + Z.of_nat m) =
      Some (id, {| bie_key := u64 (32 * (kh + Z.of_nat m)); bie_value := q |});
  io_free : forall k, kt - 2 ^ c <= k < kh ->
    exists id e, entry_for p h kt k = Some (id, e) /\ vacant e }.

Section ring.
Context (p : ImplicitProducer) (h : BlockIndexHeader) (c : Z) (Hr : ring_ok p h c).

Lemma ring_pow : 2 <= 2 ^ c <= 2 ^ 59.
Proof.
  destruct Hr; split; [change 2 with (2 ^ 1) at 1|]; apply Z.pow_le_mono_r; lia.
Qed.

Lemma position_lt kt k : (position h kt k < length (bih_index h))%nat.
Proof.
  pose proof ring_pow; destruct Hr; unfold position; rewrite ro_capacity0, ro_length0.
  pose proof (Z.mod_pos_bound (bih_tail h + (k - kt + 1)) (2 ^ c)); lia.
Qed.

Lemma entry_exists kt k : exists id e, entry_for p h kt k = Some (id, e).
Proof.
  unfold entry_for; destruct (lookup_lt_is_Some_2 (bih_index h) _ (position_lt kt k)) as [id Hid].
  pose proof (ro_ids _ _ _ Hr) as Hids; rewrite Forall_forall in Hids.
  assert (id < length (ip_entries p))%nat as Hlt.
  { apply Hids, list_elem_of_lookup; eauto. }
  apply lookup_lt_is_Some_2 in Hlt as [e He]; exists id, e; rewrite Hid; cbn; by rewrite He.
Qed.

Lemma position_inj kt k k' :
  position h kt k = position h kt k' -> - 2 ^ c < k - k' < 2 ^ c -> k = k'.
Proof.
  pose proof ring_pow; destruct Hr; unfold position; rewrite ro_capacity0; intros E Hk.
  pose proof (Z.mod_pos_bound (bih_tail h + (k - kt + 1)) (2 ^ c)).
  pose proof (Z.mod_pos_bound (bih_tail h + (k' - kt + 1)) (2 ^ c)).
  apply Z2Nat.inj in E; [|lia..].
  rewrite !Z.mod_eq in E by lia.
  set (a := (bih_tail h + (k - kt + 1)) / 2 ^ c) in *; set (b := (bih_tail h + (k' - kt + 1)) / 2 ^ c) in *.
  assert (k - k' = 2 ^ c * (a - b)) by lia; assert (a - b = 0) by nia; lia.
Qed.

(** Changing the entry of one block leaves the others alone. *)
Lemma entry_store kt k k' id e e' :
  entry_for p h kt k = Some (id, e) -> - 2 ^ c < k - k' < 2 ^ c ->
  entry_for (store_entry id e' p) h kt k' =
  if decide (k = k') then Some (id, e') else entry_for p h kt k'.
Proof.
  unfold entry_for; intros He Hk.
  apply bind_Some in He as (i & Hi & He); apply bind_Some in He as (x & Hx & [= -> ->]).
  cbn [store_entry set_index ip_entries]; case_decide as Hkk.
  - subst k'; rewrite Hi; cbn; rewrite list_lookup_insert_eq; [done|by eapply lookup_lt_Some].
  - destruct (bih_index h !! position h kt k') as [j|] eqn:Hj; [|done]; cbn.
    rewrite list_lookup_insert_ne; [done|]; intros ->; apply Hkk.
    eapply position_inj; [|done]; by eapply NoDup_lookup; [apply (ro_nodup _ _ _ Hr)|..].
Qed.

Lemma ring_ok_store id e : ring_ok (store_entry id e p) h c.
Proof. destruct Hr; split; cbn; try done; by rewrite length_insert. Qed.
End ring.

Lemma u64_base_valid k : u64 (32 * k) <> INVALID_BLOCK_BASE.
Proof.
  unfold INVALID_BLOCK_BASE; intros E; pose proof (slot_u64 (32 * k)) as Hs.
  rewrite E, Z.mul_comm, Z.mod_mul in Hs by lia; done.
Qed.
Lemma offset_mod d : u64 (32 * d) / 32 = d mod 2 ^ 59.
Proof.
  unfold wrap; change (2 ^ 64) with (32 * 2 ^ 59); rewrite Z.mul_mod_distr_l by lia.
  rewrite Z.mul_comm; apply Z.div_mul; lia.
Qed.

(** Finding the entry of a block, ahead of the tail or behind it. *)
Lemma find_index p h c kt k i idt et id e :
  ring_ok p h c ->
  entry_for p h kt (kt - 1) = Some (idt, et) -> bie_key et = u64 (32 * (kt - 1)) ->
  entry_for p h kt k = Some (id, e) -> bie_key e = u64 (32 * k) -> bie_value e <> 0 ->
  i / 32 = k ->
  get_block_index_index_for_index (u64 i) p = Done (Z.of_nat (position h kt k), h).
Proof.
  intros Hr Ht Hkt He Hk Hv Hi; pose proof (ring_pow _ _ _ Hr); pose proof Hr as [].
  unfold entry_for in Ht, He; apply bind_Some in Ht as (i1 & Hi1 & Ht).
  apply bind_Some in Ht as (e1 & He1 & [= -> ->]); apply bind_Some in He as (i2 & Hi2 & He).
  apply bind_Some in He as (e2 & He2 & [= -> ->]).
  unfold get_block_index_index_for_index; rewrite ro_header0; cbn [deref]; rewrite bind_Done.
  assert (position h kt (kt - 1) = Z.to_nat (bih_tail h)) as Hp.
  { unfold position; rewrite ro_capacity0, Z.mod_small by lia; f_equal; lia. }
  assert (index_at h (bih_tail h) = Done idt) as -> by (unfold index_at; by rewrite <- Hp, Hi1).
  assert (load_entry idt p = Done et) as Hl by (unfold load_entry; by rewrite He1).
  rewrite bind_Done, Hl, bind_Done, Hkt; clear Hl.
  destruct (Z.eqb_spec (u64 (32 * (kt - 1))) INVALID_BLOCK_BASE) as [E|_].
  { by apply u64_base_valid in E. }
  cbn [check negb]; rewrite bind_Done, block_base_u64, Hi, u64_sub.
  replace (32 * k - 32 * (kt - 1)) with (32 * (k - kt + 1)) by lia.
  change BLOCK_SIZE with 32; rewrite offset_mod, (ring_mod h c) by (done || lia).
  assert ((bih_tail h + (k - kt + 1) mod 2 ^ 59) mod 2 ^ c = (bih_tail h + (k - kt + 1)) mod 2 ^ c) as ->.
  { rewrite <- Z.add_mod_idemp_r by lia; rewrite Z.mod_mod_divide; [by rewrite Z.add_mod_idemp_r by lia|].
    exists (2 ^ (59 - c)); rewrite <- Z.pow_add_r by lia; f_equal; lia. }
  pose proof (Z.mod_pos_bound (bih_tail h + (k - kt + 1)) (2 ^ c)).
  assert (Z.of_nat (position h kt k) = (bih_tail h + (k - kt + 1)) mod 2 ^ c) as <-.
  { unfold position; rewrite ro_capacity0; lia. }
  unfold index_at; rewrite Nat2Z.id, Hi2; cbn [deref]; rewrite bind_Done.
  unfold load_entry; rewrite He2; cbn [deref]; rewrite bind_Done, Hk, Z.eqb_refl.
  by destruct (Z.eqb_spec (bie_value e) 0).
Qed.

Lemma find_entry p h c kt k i idt et id e :
  ring_ok p h c ->
  entry_for p h kt (kt - 1) = Some (idt, et) -> bie_key et = u64 (32 * (kt - 1)) ->
  entry_for p h kt k = Some (id, e) -> bie_key e = u64 (32 * k) -> bie_value e <> 0 ->
  i / 32 = k ->
  get_block_index_entry_for_index (u64 i) p = Done id /\ load_entry id p = Done e.
Proof.
  intros Hr Ht Hkt He Hk Hv Hi; unfold get_block_index_entry_for_index.
  rewrite (find_index p h c kt k i idt et id e) by done; rewrite bind_Done.
  unfold index_at, load_entry; rewrite Nat2Z.id; unfold entry_for in He.
  apply bind_Some in He as (j & -> & He); by apply bind_Some in He as (x & Hx & [= -> ->]); rewrite Hx.
Qed.

(** The index does not depend on the other members. *)
Lemma index_ok_ext p p' h c kh kt ps :
  ip_blockIndex p' = ip_blockIndex p -> ip_entries p' = ip_entries p ->
  ip_nextBlockIndexCapacity p' = ip_nextBlockIndexCapacity p ->
  index_ok p h c kh kt ps -> index_ok p' h c kh kt ps.
Proof.
  intros E1 E2 E3 [[] ? ? Hl Hf]; split; [split; by rewrite ?E1, ?E2, ?E3|done|done|..].
  - intros m q Hm; destruct (Hl m q Hm) as [id Hid]; exists id; unfold entry_for; by rewrite E2.
  - intros k Hk; destruct (Hf k Hk) as (id & e & He & Hv); exists id, e; unfold entry_for; by rewrite E2.
Qed.

Section index.
Context (p : ImplicitProducer) (h : BlockIndexHeader) (c kh kt : Z) (ps : list Z).
Hypothesis (Hio : index_ok p h c kh kt ps).

(** The entry of a live block, found through any index of the block. *)
Lemma live_entry i m q :
  ps !! m = Some q -> q <> 0 -> i / 32 = kh + Z.of_nat m ->
  exists id, entry_for p h kt (i / 32) = Some (id, {| bie_key := u64 (32 * (i / 32)); bie_value := q |}) /\
    get_block_index_index_for_index (u64 i) p = Done (Z.of_nat (position h kt (i / 32)), h) /\
    get_block_index_entry_for_index (u64 i) p = Done id /\
    load_entry id p = Done {| bie_key := u64 (32 * (i / 32)); bie_value := q |}.
Proof.
  intros Hq Hq0 Hi; destruct Hio as [Hr Hc Hm Hl Hf].
  destruct (Hl m q Hq) as [id Hid]; rewrite <- Hi in Hid; exists id.
  assert (exists q', ps !! (length ps - 1)%nat = Some q') as [q' Hq'].
  { apply lookup_lt_is_Some_2; apply lookup_lt_Some in Hq; lia. }
  destruct (Hl _ _ Hq') as [idt Hidt]; apply lookup_lt_Some in Hq.
  replace (kh + Z.of_nat (length ps - 1)) with (kt - 1) in Hidt by lia.
  pose proof (find_index p h c kt (i / 32) i idt _ id _ Hr Hidt eq_refl Hid eq_refl Hq0 eq_refl).
  pose proof (find_entry p h c kt (i / 32) i idt _ id _ Hr Hidt eq_refl Hid eq_refl Hq0 eq_refl).
  by split_all.
Qed.

(** Dropping the oldest block. *)
Lemma index_pop q ps' id e :
  ps = q :: ps' -> entry_for p h kt kh = Some (id, e) ->
  exists p', store_value id 0 p = Done p' /\ index_ok p' h c (kh + 1) kt ps' /\
    p' = set_index (ip_nextBlockIndexCapacity p) (ip_entries p') (ip_blockIndex p) p.
Proof.
  intros -> He; destruct Hio as [Hr Hc Hm Hl Hf]; pose proof (ring_pow _ _ _ Hr); cbn [length] in Hc.
  exists (store_entry id {| bie_key := bie_key e; bie_value := 0 |} p); split; [|split; [split|done]].
  - unfold store_value, load_entry; unfold entry_for in He.
    apply bind_Some in He as (j & _ & He); apply bind_Some in He as (x & Hx & [= -> ->]); by rewrite Hx.
  - by apply ring_ok_store.
  - lia.
  - lia.
  - intros m r Hmr; rewrite (entry_store p h c Hr kt kh) with (e := e);
      [|done|apply lookup_lt_Some in Hmr; lia].
    rewrite decide_False by lia.
    destruct (Hl (S m) r Hmr) as [id' Hid']; exists id'.
    replace (kh + 1 + Z.of_nat m) with (kh + Z.of_nat (S m)) by lia; done.
  - intros k Hk; rewrite (entry_store p h c Hr kt kh) with (e := e); [|done|lia].
    case_decide as Hkk; [|apply Hf; lia]; eexists _, _; split; [done|by right].
Qed.
End index.

(** *** Growing the index *)

Lemma copy_index_ok prev c d : forall fuel pos,
  bih_capacity prev = 2 ^ c -> 1 <= c <= 59 -> length (bih_index prev) = Z.to_nat (2 ^ c) ->
  0 < Z.of_nat d <= 2 ^ c -> (d <= fuel)%nat -> (pos + Z.of_nat d) mod 2 ^ c = bih_tail prev ->
  exists l, copy_index fuel prev pos = Done l /\ length l = d /\
    forall i, (i < d)%nat -> l !! i = bih_index prev !! Z.to_nat ((pos + 1 + Z.of_nat i) mod 2 ^ c).
Proof.
  induction d as [|d IH]; intros fuel pos Hc Hr Hl Hd Hf Ht; [lia|].
  destruct fuel as [|fuel]; [lia|]; cbn [copy_index]; rewrite (ring_mod prev c) by (done || lia).
  pose proof (Z.mod_pos_bound (pos + 1) (2 ^ c)); set (pos' := (pos + 1) mod 2 ^ c) in *.
  destruct (lookup_lt_is_Some_2 (bih_index prev) (Z.to_nat pos')) as [id Hid]; [lia|].
  unfold index_at; rewrite Hid; cbn [deref]; rewrite bind_Done.
  assert ((pos' + Z.of_nat d) mod 2 ^ c = bih_tail prev) as Ht'.
  { unfold pos'; rewrite Z.add_mod_idemp_l by lia; rewrite <- Ht; f_equal; lia. }
  destruct (decide (d = O)) as [->|Hd0].
  { replace (pos' + Z.of_nat 0) with pos' in Ht' by lia; rewrite Z.mod_small in Ht' by lia.
    rewrite Ht', Z.eqb_refl; exists [id]; split_all; [done..|]; intros i Hi.
    assert (i = O) as -> by lia; cbn [lookup list_lookup]; rewrite <- Hid; unfold pos'; do 3 f_equal; lia. }
  destruct (Z.eqb_spec pos' (bih_tail prev)) as [E|_].
  { exfalso; rewrite <- E in Ht'; rewrite Z.mod_eq in Ht' by lia.
    set (q := (pos' + Z.of_nat d) / 2 ^ c) in *; assert (Z.of_nat d = 2 ^ c * q) by lia.
    assert (q <= 0 \/ 1 <= q) as [|] by lia; nia. }
  destruct (IH fuel pos') as (l & -> & Hlen & Hlk); [done|done|done|lia|lia|done|].
  rewrite bind_Done; exists (id :: l); split_all; [done|cbn; lia|]; intros [|i] Hi; cbn.
  - rewrite <- Hid; unfold pos'; do 3 f_equal; lia.
  - rewrite Hlk by lia; unfold pos'; do 2 f_equal; rewrite <- Z.add_assoc, Z.add_mod_idemp_l by lia.
    f_equal; lia.
Qed.

Section grow.
Context {A : Type} (junk : Z) (p : ImplicitProducer) (h : BlockIndexHeader) (c kh kt : Z) (ps : list Z).
Hypothesis (Hio : index_ok p h c kh kt ps) (Hc58 : c <= 58).

Definition blank : BlockIndexEntry := {| bie_key := INVALID_BLOCK_BASE; bie_value := junk |}.
Definition grown (old : list nat) : ImplicitProducer :=
  set_index (2 ^ (c + 2)) (ip_entries p ++ replicate (Z.to_nat (2 ^ c)) blank)
    (Some {| bih_capacity := 2 ^ (c + 1); bih_tail := 2 ^ c - 1;
             bih_index := old ++ seq (length (ip_entries p)) (Z.to_nat (2 ^ c)) |}) p.

Lemma new_block_index_run (po : pool A) :
  default true (head (po_mallocs po)) = true ->
  exists old, new_block_index junk po p = Done (true, (malloc_ok po).2, grown old) /\
    length old = Z.to_nat (2 ^ c) /\
    forall i, 0 <= i < 2 ^ c ->
      old !! Z.to_nat i = bih_index h !! Z.to_nat ((bih_tail h + 1 + i) mod 2 ^ c).
Proof.
  intros Hm; destruct Hio as [Hr _ _ _ _]; pose proof (ring_pow _ _ _ Hr); pose proof Hr as [].
  unfold new_block_index, malloc_ok; rewrite Hm, ro_header0, ro_capacity0; cbn [negb].
  destruct (copy_index_ok h c (Z.to_nat (2 ^ c)) (Z.to_nat (2 ^ c)) (bih_tail h))
    as (old & -> & Hl & Hlk); try done; try lia.
  { rewrite Z2Nat.id by lia; rewrite <- (Z.mod_add _ (-1)) by lia.
    replace (bih_tail h + 2 ^ c + -1 * 2 ^ c) with (bih_tail h) by lia; apply Z.mod_small; lia. }
  rewrite bind_Done, Hl, Z2Nat.id by lia; rewrite Z.eqb_refl; cbn [check]; rewrite bind_Done.
  exists old; split; [|split; [done|]].
  - assert (2 ^ (c + 1) = 2 * 2 ^ c) as E by (rewrite Z.pow_add_r by lia; lia).
    assert (u64 (Z.shiftl (2 ^ (c + 1)) 1) = 2 ^ (c + 2)) as Hs.
    { rewrite Z.shiftl_mul_pow2 by lia; rewrite <- Z.pow_add_r by lia.
      rewrite wrap_small; [f_equal; lia|]; split; [apply Z.pow_nonneg; lia|apply Z.pow_lt_mono_r; lia]. }
    assert (Z.land (u64 (2 ^ c - 1)) (u64 (2 ^ (c + 1) - 1)) = 2 ^ c - 1) as Hl1.
    { rewrite !wrap_small by (unfold in_u; lia).
      replace (2 ^ (c + 1) - 1) with (Z.ones (c + 1)) by (rewrite Z.ones_equiv; lia).
      rewrite Z.land_ones, Z.mod_small by lia; done. }
    by rewrite ro_next0, Hs, Hl1.
  - intros i Hi; rewrite Hlk by lia; by rewrite Z2Nat.id by lia.
Qed.

(** The new header. *)
Definition grown_header (old : list nat) : BlockIndexHeader :=
  {| bih_capacity := 2 ^ (c + 1); bih_tail := 2 ^ c - 1;
     bih_index := old ++ seq (length (ip_entries p)) (Z.to_nat (2 ^ c)) |}.

Section old.
Context (old : list nat).
Hypothesis (Hlen : length old = Z.to_nat (2 ^ c))
  (Hold : forall i, 0 <= i < 2 ^ c ->
      old !! Z.to_nat i = bih_index h !! Z.to_nat ((bih_tail h + 1 + i) mod 2 ^ c)).

Lemma pow_succ : 2 ^ (c + 1) = 2 * 2 ^ c.
Proof. destruct Hio as [[] _ _ _ _]; rewrite Z.pow_add_r by lia; lia. Qed.

(** Entries of the old window are found where they were, the rest are blank. *)
Lemma grown_entry k :
  kt - 2 ^ (c + 1) <= k < kt ->
  if decide (kt - 2 ^ c <= k) then entry_for (grown old) (grown_header old) kt k = entry_for p h kt k
  else exists id, entry_for (grown old) (grown_header old) kt k = Some (id, blank).
Proof.
  intros Hk; destruct Hio as [Hr _ _ _ _]; pose proof (ring_pow _ _ _ Hr); pose proof pow_succ.
  pose proof Hr as []; unfold entry_for, position; cbn [grown_header bih_tail bih_capacity bih_index].
  case_decide as Hin.
  - rewrite Z.mod_small by lia; rewrite lookup_app_l by lia.
    rewrite Hold by lia; rewrite ro_capacity0.
    replace (bih_tail h + 1 + (2 ^ c - 1 + (k - kt + 1))) with (bih_tail h + (k - kt + 1) + 1 * 2 ^ c) by lia.
    rewrite Z.mod_add by lia; set (n := Z.to_nat _).
    destruct (bih_index h !! n) as [id|] eqn:Hid; [|done]; cbn.
    rewrite lookup_app_l; [done|]; rewrite Forall_forall in ro_ids0; apply ro_ids0.
    apply list_elem_of_lookup; eauto.
  - rewrite <- (Z.mod_add _ 1) by lia; rewrite Z.mod_small by lia.
    rewrite lookup_app_r by lia; rewrite lookup_seq_lt by lia; cbn; eexists.
    rewrite lookup_app_r by lia; rewrite lookup_replicate_2 by lia; done.
Qed.

Lemma old_nodup : NoDup old.
Proof.
  destruct Hio as [Hr _ _ _ _]; pose proof (ring_pow _ _ _ Hr); pose proof Hr as [].
  apply NoDup_alt; intros i j x Hi Hj; pose proof (lookup_lt_Some _ _ _ Hi).
  pose proof (lookup_lt_Some _ _ _ Hj).
  rewrite <- (Nat2Z.id i), Hold in Hi by lia; rewrite <- (Nat2Z.id j), Hold in Hj by lia.
  pose proof (NoDup_lookup _ _ _ _ ro_nodup0 Hi Hj) as E.
  pose proof (Z.mod_pos_bound (bih_tail h + 1 + Z.of_nat i) (2 ^ c)).
  pose proof (Z.mod_pos_bound (bih_tail h + 1 + Z.of_nat j) (2 ^ c)).
  apply Z2Nat.inj in E; [|lia..]; rewrite !Z.mod_eq in E by lia.
  set (a := (bih_tail h + 1 + Z.of_nat i) / _) in *; set (b := (bih_tail h + 1 + Z.of_nat j) / _) in *.
  assert (Z.of_nat i - Z.of_nat j = 2 ^ c * (a - b)) by lia; assert (a - b = 0) by nia; lia.
Qed.

Lemma grown_ok : index_ok (grown old) (grown_header old) (c + 1) kh kt ps.
Proof.
  pose proof Hio as [Hr Hc Hm Hl Hf]; pose proof (ring_pow _ _ _ Hr); pose proof pow_succ.
  pose proof Hr as []; split.
  - assert (forall id, id ∈ old -> (id < length (ip_entries p))%nat) as Hids.
    { intros id [i Hi]%list_elem_of_lookup; pose proof (lookup_lt_Some _ _ _ Hi).
      rewrite <- (Nat2Z.id i), Hold in Hi by lia; rewrite Forall_forall in ro_ids0; apply ro_ids0.
      apply list_elem_of_lookup; eauto. }
    split; cbn; try done; try lia.
    + rewrite length_app, length_seq; lia.
    + apply NoDup_app; split; [apply old_nodup|split; [|apply NoDup_seq]].
      intros id Hid Hs; apply Hids in Hid; apply elem_of_seq in Hs; lia.
    + rewrite length_app, length_replicate, Forall_forall; intros id [Hid|Hs]%elem_of_app.
      * apply Hids in Hid; lia.
      * apply elem_of_seq in Hs; lia.
    + f_equal; lia.
  - done.
  - lia.
  - intros m q Hq; pose proof (lookup_lt_Some _ _ _ Hq).
    pose proof (grown_entry (kh + Z.of_nat m)) as Hg; rewrite decide_True in Hg by lia.
    rewrite Hg by lia; by apply Hl.
  - intros k Hk; pose proof (grown_entry k) as Hg; case_decide.
    + rewrite Hg by lia; apply Hf; lia.
    + destruct Hg as [id Hid]; [lia|]; exists id, blank; split; [done|by left].
Qed.
End old.
End grow.

(** *** Entering a block *)

Definition with_tail (t : Z) (h : BlockIndexHeader) : BlockIndexHeader :=
  {| bih_capacity := bih_capacity h; bih_tail := t; bih_index := bih_index h |}.

(** What an operation on the index leaves alone. *)
Definition same_data (p p' : ImplicitProducer) : Prop :=
  p' = set_index (ip_nextBlockIndexCapacity p') (ip_entries p') (ip_blockIndex p') p.

Section insert.
Context (p : ImplicitProducer) (h : BlockIndexHeader) (c kh kt : Z) (ps : list Z).
Hypothesis (Hio : index_ok p h c kh kt ps) (Hroom : kt - kh < 2 ^ c).

Definition next_tail : Z := (bih_tail h + 1) mod 2 ^ c.

Lemma next_position : position h kt (kt - 2 ^ c) = Z.to_nat next_tail.
Proof.
  destruct Hio as [[] _ _ _ _]; unfold position, next_tail; rewrite ro_capacity0; f_equal.
  rewrite <- (Z.mod_add (bih_tail h + (kt - 2 ^ c - kt + 1)) 1) by lia; f_equal; lia.
Qed.

(** Seen from the new tail, the window has moved on by one block. *)
Lemma advance_entry id e k :
  entry_for (store_tail next_tail h (store_entry id e p)) (with_tail next_tail h) (kt + 1) k =
  entry_for (store_entry id e p) h kt k.
Proof.
  destruct Hio as [Hr _ _ _ _]; pose proof (ring_pow _ _ _ Hr); destruct Hr.
  unfold entry_for, position; cbn [with_tail bih_tail bih_capacity bih_index].
  assert ((next_tail + (k - (kt + 1) + 1)) mod bih_capacity h =
          (bih_tail h + (k - kt + 1)) mod bih_capacity h) as ->; [|done].
  unfold next_tail; rewrite ro_capacity0, Z.add_mod_idemp_l by lia; f_equal; lia.
Qed.

Lemma ring_ok_advance id e : ring_ok (store_tail next_tail h (store_entry id e p)) (with_tail next_tail h) c.
Proof.
  destruct Hio as [Hr _ _ _ _]; pose proof (ring_pow _ _ _ Hr); destruct Hr; split; cbn; try done.
  - unfold next_tail; apply Z.mod_pos_bound; lia.
  - by rewrite length_insert.
Qed.

(** After the entry of the new block has been filled in. *)
Lemma index_push id e q :
  entry_for p h kt (kt - 2 ^ c) = Some (id, e) ->
  index_ok (store_tail next_tail h (store_entry id {| bie_key := u64 (32 * kt); bie_value := q |} p))
    (with_tail next_tail h) c kh (kt + 1) (ps ++ [q]).
Proof.
  intros He; pose proof Hio as [Hr Hc Hm Hl Hf]; pose proof (ring_pow _ _ _ Hr).
  assert (forall k, kt - 2 ^ c < k < kt ->
    entry_for (store_tail next_tail h (store_entry id {| bie_key := u64 (32 * kt); bie_value := q |} p))
      (with_tail next_tail h) (kt + 1) k = entry_for p h kt k) as Hother.
  { intros k Hk; rewrite advance_entry, (entry_store p h c Hr kt (kt - 2 ^ c)) with (e := e); [|done|lia].
    by rewrite decide_False by lia. }
  split.
  - apply ring_ok_advance.
  - rewrite length_app; cbn [length]; lia.
  - lia.
  - intros m r [Hm'|[Hge Hm']]%lookup_app_Some.
    + pose proof (lookup_lt_Some _ _ _ Hm'); rewrite Hother by lia; by apply Hl.
    + apply list_lookup_singleton_Some in Hm' as [? <-].
      replace (kh + Z.of_nat m) with kt by lia; exists id; rewrite advance_entry.
      assert (forall P, entry_for P h kt kt = entry_for P h kt (kt - 2 ^ c)) as ->.
      { intros P; unfold entry_for, position; destruct Hr; rewrite ro_capacity0.
        rewrite <- (Z.mod_add (bih_tail h + (kt - 2 ^ c - kt + 1)) 1) by lia; do 4 f_equal; lia. }
      rewrite (entry_store p h c Hr kt (kt - 2 ^ c)) with (e := e); [by rewrite decide_True|done|lia].
  - intros k Hk; rewrite Hother by lia; apply Hf; lia.
Qed.

(** After backing out: the entry keeps the new key, without a block. *)
Lemma index_unpush id e :
  entry_for p h kt (kt - 2 ^ c) = Some (id, e) ->
  index_ok (store_entry id {| bie_key := u64 (32 * kt); bie_value := 0 |} p) h c kh kt ps.
Proof.
  intros He; pose proof Hio as [Hr Hc Hm Hl Hf]; pose proof (ring_pow _ _ _ Hr); split.
  - by apply ring_ok_store.
  - done.
  - done.
  - intros m r Hm'; pose proof (lookup_lt_Some _ _ _ Hm').
    rewrite (entry_store p h c Hr kt (kt - 2 ^ c)) with (e := e); [|done|lia].
    rewrite decide_False by lia; by apply Hl.
  - intros k Hk; rewrite (entry_store p h c Hr kt (kt - 2 ^ c)) with (e := e); [|done|lia].
    case_decide; [|apply Hf; lia]; eexists _, _; split; [done|by right].
Qed.

Lemma ring_next : ring h (bih_tail h + 1) = next_tail.
Proof. destruct Hio as [[] _ _ _ _]; by rewrite (ring_mod h c) by (done || lia). Qed.

Lemma rewind_next id e :
  rewind_block_index_tail (store_tail next_tail h (store_entry id e p)) = Done (store_entry id e p).
Proof.
  destruct Hio as [Hr _ _ _ _]; pose proof (ring_pow _ _ _ Hr); destruct Hr.
  unfold rewind_block_index_tail; cbn; rewrite (ring_mod _ c) by (done || lia).
  unfold next_tail; rewrite Zminus_mod_idemp_l; replace (bih_tail h + 1 - 1) with (bih_tail h) by lia.
  rewrite Z.mod_small by lia; destruct h; unfold store_entry, store_tail, set_index; cbn.
  by rewrite ro_header0.
Qed.
End insert.

Lemma same_data_refl p : same_data p p.
Proof. by destruct p. Qed.
Lemma same_data_trans p1 p2 p3 : same_data p1 p2 -> same_data p2 p3 -> same_data p1 p3.
Proof. unfold same_data; intros -> ->; by destruct p1. Qed.
Lemma same_data_index n es h p : same_data p (set_index n es h p).
Proof. done. Qed.
#[export] Hint Resolve same_data_refl same_data_index : word.

Section start.
Context {A : Type} (junk : Z).
Implicit Types (po : pool A).

Lemma insert_step canAlloc base po p h c kt id e :
  ring_ok p h c -> entry_for p h kt (kt - 2 ^ c) = Some (id, e) ->
  index_at h (ring h (bih_tail h + 1)) = Done id /\ load_entry id p = Done e /\
  (vacant e -> insert_block_index_entry junk canAlloc base po p =
     Done (Some id, po, store_tail (next_tail h c) h
       (store_entry id {| bie_key := base; bie_value := bie_value e |} p))).
Proof.
  intros Hr He; pose proof (ring_pow _ _ _ Hr); pose proof Hr as []; unfold entry_for in He.
  assert (position h kt (kt - 2 ^ c) = Z.to_nat (next_tail h c)) as Hp.
  { unfold position, next_tail; rewrite ro_capacity0; f_equal.
    rewrite <- (Z.mod_add (bih_tail h + (kt - 2 ^ c - kt + 1)) 1) by lia; f_equal; lia. }
  rewrite Hp in He; apply bind_Some in He as (j & Hj & He); apply bind_Some in He as (x & Hx & [= -> ->]).
  assert (ring h (bih_tail h + 1) = next_tail h c) as Hn by (by rewrite (ring_mod h c) by (done || lia)).
  assert (index_at h (next_tail h c) = Done id) as Hi by (unfold index_at; by rewrite Hj).
  assert (load_entry id p = Done e) as Hl by (unfold load_entry; by rewrite Hx).
  split_all; [by rewrite Hn|done|]; intros Hv; unfold insert_block_index_entry.
  rewrite ro_header0, Hn, Hi, bind_Done, Hl, bind_Done.
  destruct (Z.eqb_spec (bie_key e) INVALID_BLOCK_BASE); [done|]; cbn [orb].
  by destruct (Z.eqb_spec (bie_value e) 0); [|destruct Hv].
Qed.

(** The index after an insertion: possibly grown, with room for one more. *)
Definition inserted (p : ImplicitProducer) (base kh kt : Z) (ps : list Z) (id : nat)
    (p1 : ImplicitProducer) : Prop :=
  exists p0 h0 c0 e, index_ok p0 h0 c0 kh kt ps /\ same_data p p0 /\ kt - kh < 2 ^ c0 /\
    entry_for p0 h0 kt (kt - 2 ^ c0) = Some (id, e) /\
    p1 = store_tail (next_tail h0 c0) h0
           (store_entry id {| bie_key := base; bie_value := bie_value e |} p0).

Lemma insert_ok canAlloc base po p h c kh kt ps :
  index_ok p h c kh kt ps -> Forall (fun q => q <> 0) ps -> (kt - kh = 2 ^ c -> c <= 58) ->
  exists r po1 p1, insert_block_index_entry junk canAlloc base po p = Done (r, po1, p1) /\
    (po1 = po \/ po1 = (malloc_ok po).2) /\
    match r with
    | None => p1 = p /\ (canAlloc = true -> po_mallocs po <> [])
    | Some id => inserted p base kh kt ps id p1
    end.
Proof.
  intros Hio Hne Hc58; pose proof Hio as [Hr Hc Hm Hl Hf]; pose proof (ring_pow _ _ _ Hr).
  destruct (decide (kt - kh < 2 ^ c)) as [Hroom|Hfull].
  { destruct (Hf (kt - 2 ^ c)) as (id & e & He & Hv); [lia|].
    destruct (insert_step canAlloc base po p h c kt id e Hr He) as (_ & _ & Hs).
    exists (Some id), po, (store_tail (next_tail h c) h
      (store_entry id {| bie_key := base; bie_value := bie_value e |} p)); split; [by apply Hs|].
    split; [by left|]; exists p, h, c, e; split_all; auto with word. }
  assert (kt - kh = 2 ^ c) as Hfu by lia; specialize (Hc58 Hfu).
  destruct (lookup_lt_is_Some_2 ps 0) as [q Hq]; [lia|].
  destruct (Hl 0%nat q Hq) as [id He]; replace (kh + Z.of_nat 0) with (kt - 2 ^ c) in He by lia.
  destruct (insert_step canAlloc base po p h c kt id _ Hr He) as (Hi & Hle & _).
  unfold insert_block_index_entry; pose proof Hr as []; rewrite ro_header0, Hi, bind_Done, Hle, bind_Done.
  cbn [bie_key bie_value]; rewrite Forall_lookup in Hne; pose proof (Hne _ _ Hq).
  destruct (Z.eqb_spec (u64 (32 * (kt - 2 ^ c))) INVALID_BLOCK_BASE) as [E|_].
  { by apply u64_base_valid in E. }
  destruct (Z.eqb_spec q 0); [done|]; cbn [orb]; destruct canAlloc; cbn [negb].
  2:{ exists None, po, p; split_all; [done|by left|done|done]. }
  destruct (default true (head (po_mallocs po))) eqn:Hml.
  2:{ assert (new_block_index junk po p = Done (false, (malloc_ok po).2, p)) as ->.
      { unfold new_block_index, malloc_ok; by rewrite Hml. }
      rewrite bind_Done; exists None, (malloc_ok po).2, p; split_all; [done|by right|done|by destruct (po_mallocs po)]. }
  destruct (new_block_index_run junk p h c kh kt ps Hio Hc58 po Hml) as (old & -> & Hlen & Hold).
  rewrite bind_Done; cbn [negb grown ip_blockIndex set_index deref]; rewrite bind_Done.
  fold (grown_header p c old) (grown junk p c old).
  pose proof (grown_ok junk p h c kh kt ps Hio Hc58 old Hlen Hold) as Hgo.
  pose proof (grown_entry junk p h c kh kt ps Hio old Hlen Hold (kt - 2 ^ (c + 1))) as Hge.
  pose proof (pow_succ p h c kh kt ps Hio old Hlen); rewrite decide_False in Hge by lia.
  destruct Hge as [id' He']; [lia|].
  destruct (insert_step true base (malloc_ok po).2 (grown junk p c old) (grown_header p c old) (c + 1) kt id' _
    (io_ring _ _ _ _ _ _ Hgo) He') as (Hi' & Hle' & _).
  assert (ring (grown_header p c old) (bih_tail (grown_header p c old) + 1) =
    next_tail (grown_header p c old) (c + 1)) as Hn by (by eapply ring_next).
  rewrite Hi', bind_Done, Hle', bind_Done; cbn [blank bie_key check Z.eqb INVALID_BLOCK_BASE].
  rewrite Pos.eqb_refl; cbn [check]; rewrite bind_Done, Hn.
  eexists (Some id'), _, _; split; [reflexivity|]; split; [by right|].
  exists (grown junk p c old), (grown_header p c old), (c + 1), (blank junk); split_all; try done; lia.
Qed.

Lemma entry_for_lookup p h kt k id e : entry_for p h kt k = Some (id, e) -> ip_entries p !! id = Some e.
Proof.
  unfold entry_for; intros H; apply bind_Some in H as (j & _ & H).
  by apply bind_Some in H as (x & Hx & [= -> ->]).
Qed.

Lemma store_value_entry id e v p :
  (exists e0, ip_entries p !! id = Some e0) ->
  store_value id v (store_entry id e p) =
  Done (store_entry id {| bie_key := bie_key e; bie_value := v |} p).
Proof.
  intros [e0 He]; unfold store_value, load_entry; cbn [store_entry set_index ip_entries].
  rewrite list_lookup_insert_eq by (by eapply lookup_lt_Some); cbn [deref]; rewrite bind_Done.
  unfold store_entry, set_index; cbn; by rewrite list_insert_insert_eq.
Qed.
Lemma store_value_tail id v t h p :
  store_value id v (store_tail t h p) = p ← store_value id v p; mret (store_tail t h p).
Proof.
  unfold store_value, load_entry; cbn [store_tail set_index ip_entries].
  by destruct (ip_entries p !! id).
Qed.

Lemma pool_inv_malloc po free used : pool_inv po free used -> pool_inv (malloc_ok po).2 free used.
Proof. by intros []. Qed.
Lemma used_nonzero po free ps others :
  pool_inv po free (ps ++ others) -> Forall (fun q => q <> 0) ps.
Proof.
  intros [_ Hh _ Hg _ _ _ _ _]; rewrite Forall_forall in *; intros q Hq.
  destruct (Hh q) as (b & Hb & _); [set_solver|]; apply Hg in Hb; lia.
Qed.

(** The result of entering a block: the new block is the newest one, empty and
    owned by this producer; or nothing has changed. *)
Definition started (canAlloc : bool) po (kh kt : Z) (ps others : list Z) (r : option Z) po'
    (p' : ImplicitProducer) : Prop :=
  match r with
  | None =>
      (exists h' c', index_ok p' h' c' kh kt ps) /\ (exists free', pool_inv po' free' (ps ++ others)) /\
      (canAlloc = true -> po_mallocs po <> [])
  | Some q =>
      (exists h' c', index_ok p' h' c' kh (kt + 1) (ps ++ [q])) /\
      (exists free', pool_inv po' free' (q :: ps ++ others)) /\
      exists b, po_blocks po' !! q = Some b /\ b_elementsCompletelyDequeued b = 0
  end.

Lemma start_block_ok canAlloc po p h c kh kt ps others free :
  index_ok p h c kh kt ps -> pool_inv po free (ps ++ others) -> (kt - kh = 2 ^ c -> c <= 58) ->
  exists r po' p', start_block junk canAlloc (u64 (32 * kt)) po p = Done (r, po', p') /\
    same_data p p' /\ keeps (ps ++ others) po po' /\ (po_mallocs po = [] -> po_mallocs po' = []) /\
    started canAlloc po kh kt ps others r po' p'.
Proof.
  intros Hio Hp Hc58; unfold start_block.
  destruct (insert_ok canAlloc (u64 (32 * kt)) po p h c kh kt ps Hio (used_nonzero _ _ _ _ Hp) Hc58)
    as (r & po1 & p1 & -> & Hpo1 & Hins); rewrite bind_Done.
  assert (pool_inv po1 free (ps ++ others) /\ po_blocks po1 = po_blocks po /\
          (po_mallocs po = [] -> po_mallocs po1 = [])) as (Hp1 & Hb1 & Hm1).
  { destruct Hpo1 as [->| ->]; [done|]; split; [by apply pool_inv_malloc|]; split; [done|].
    cbn; by intros ->. }
  destruct r as [id|].
  2:{ destruct Hins as [-> Hm]; exists None, po1, p; split_all; try done.
      - apply same_data_refl.
      - intros q _; by rewrite Hb1.
      - split; [by exists h, c|split; [by exists free|done]]. }
  destruct Hins as (p0 & h0 & c0 & e & Hio0 & Hsd & Hroom & He & ->).
  assert (exists e0, ip_entries p0 !! id = Some e0) as Hid by (exists e; by eapply entry_for_lookup).
  destruct (requisition_ok canAlloc po1 free (ps ++ others) Hp1) as (q & po2 & -> & Hm2 & Hq).
  rewrite bind_Done; destruct Hq as [(-> & Hp2 & Hk & Hca)|(Hne & (free' & Hp2) & Hk)].
  - rewrite Z.eqb_refl, (rewind_next p0 h0 c0 kh kt ps Hio0), bind_Done, store_value_entry, bind_Done by done.
    eexists None, _, _; split; [reflexivity|]; split; [|split; [|split; [auto|split; [|split]]]].
    + by eapply same_data_trans.
    + intros x Hx; rewrite Hk by done; by rewrite Hb1.
    + eexists _, _; by eapply index_unpush.
    + by eexists.
    + intros ->; specialize (Hca eq_refl); intros Hn; by apply Hca, Hm1.
  - destruct (Z.eqb_spec q 0); [done|].
    assert (exists b, po_blocks po2 !! q = Some b /\ b_freeListRefs b = 0) as (b & Hb & Hr).
    { pose proof (pi_held _ _ _ Hp2) as Hh; cbn [app] in Hh; by apply Forall_cons in Hh as [? _]. }
    unfold load; rewrite Hb; cbn [deref]; rewrite bind_Done, store_value_tail, store_value_entry by done.
    rewrite !bind_Done; eexists (Some q), _, _; split; [reflexivity|].
    assert (q ∉ ps ++ others) as Hni.
    { pose proof (pi_nodup _ _ _ Hp2) as Hn; apply NoDup_app in Hn as (_ & _ & Hn).
      inversion Hn as [|? ? Hx _]; intros ?; apply Hx; set_solver. }
    split; [by eapply same_data_trans|]; split; [|split; [auto|split; [|split]]].
    + intros x Hx; cbn; rewrite lookup_insert_ne by (by intros ->); rewrite Hk by done; by rewrite Hb1.
    + eexists _, _; by eapply index_push.
    + exists free'; by eapply pool_inv_store; [set_solver|..].
    + exists (reset_empty b); cbn; by rewrite lookup_insert_eq.
Qed.
End start.
