(* ===== verification/ProducerFifo.v ===== *)
(** * Inside the concurrent queue: a producer is a FIFO queue

    The invariant of a producer, and what its operations do to the sequence of
    its elements, for every value of the 64-bit counters, wrap-around included,
    and whatever the allocator answers. *)

From S2P Require Import Prelude BlockPool ImplicitProducer BlockIndex.

Section fifo.
Context {A : Type} (junk : Z).
Implicit Types (po : pool A) (p : ImplicitProducer) (items : list A).

(** Block [m] of [ps] holds the elements whose index [i] has [i / 32 = H / 32 + m],
    and counts the ones already taken out. *)
Definition data_ok po (H T : Z) items (ps : list Z) : Prop :=
  forall m q, ps !! m = Some q ->
    exists b, po_blocks po !! q = Some b /\
      b_elementsCompletelyDequeued b = (if decide (m = O) then H mod 32 else 0) /\
      forall i, H <= i < T -> i / 32 = H / 32 + Z.of_nat m ->
        b_elements b !! (i mod 32) = items !! Z.to_nat (i - H).

(** [H] and [T] count all elements ever taken out and put in; the counters of
    the code are their low 64 bits.  [ps] are the producer's blocks, oldest first;
    [others] are the blocks of the other producers. *)
Record fifo po p (H T : Z) items (ps others : list Z) : Prop := {
  ff_tail : ip_tailIndex p = u64 T;
  ff_head : ip_headIndex p = u64 H;
  ff_opt : u64 (ip_dequeueOptimisticCount p - ip_dequeueOvercommit p) = u64 H;
  ff_len : T - H = Z.of_nat (length items);
  ff_bound : 32 * ((T + 31) / 32) - H < 2 ^ 63;
  ff_index : exists h c, index_ok p h c (H / 32) ((T + 31) / 32) ps;
  ff_tailBlock : ps <> [] -> last ps = Some (ip_tailBlock p);
  ff_pool : exists free, pool_inv po free (ps ++ others);
  ff_data : data_ok po H T items ps }.

Lemma ceil_div T : T mod 32 = 0 -> (T + 31) / 32 = T / 32.
Proof.
  intros Hm; symmetry; apply Z.div_unique with 31; [lia|].
  pose proof (Z.div_mod T 32); lia.
Qed.
Lemma ceil_div_ne T : T mod 32 <> 0 -> (T + 31) / 32 = T / 32 + 1.
Proof.
  intros Hm; pose proof (Z.div_mod T 32); pose proof (Z.mod_pos_bound T 32).
  symmetry; apply Z.div_unique with (T mod 32 - 1); lia.
Qed.
Lemma ceil_div_succ T : (T + 1 + 31) / 32 = T / 32 + 1.
Proof. replace (T + 1 + 31) with (T + 1 * 32) by lia; rewrite Z.div_add by lia; lia. Qed.

Lemma pool_nodup po free ps others : pool_inv po free (ps ++ others) -> NoDup ps.
Proof.
  intros Hp; pose proof (pi_nodup _ _ _ Hp) as Hn; apply NoDup_app in Hn as (_ & _ & Hn).
  by apply NoDup_app in Hn as (Hn & _ & _); apply NoDup_app in Hn as (? & _ & _).
Qed.
Lemma pool_refs po free ps others q b :
  pool_inv po free (ps ++ others) -> q ∈ ps -> po_blocks po !! q = Some b -> b_freeListRefs b = 0.
Proof.
  intros Hp Hq Hb; pose proof (pi_held _ _ _ Hp) as Hh; rewrite Forall_forall in Hh.
  destruct (Hh q) as (b' & Hb' & Hr); [set_solver|congruence].
Qed.
Lemma pool_disjoint po free ps others q :
  pool_inv po free (ps ++ others) -> q ∈ ps -> q ∉ others.
Proof.
  intros Hp Hq Ho; pose proof (pi_nodup _ _ _ Hp) as Hn; apply NoDup_app in Hn as (_ & _ & Hn).
  apply NoDup_app in Hn as (Hn & _ & _); apply NoDup_app in Hn as (_ & Hd & _); by apply (Hd q).
Qed.

(** The index cannot be full and at its largest size at once. *)
Lemma room_to_grow H T c :
  1 <= c -> 32 * ((T + 31) / 32) - H < 2 ^ 63 -> (T + 31) / 32 - H / 32 = 2 ^ c -> c <= 58.
Proof.
  intros Hc Hb E; pose proof (Z.div_mod H 32); pose proof (Z.mod_pos_bound H 32).
  apply (Z.pow_le_mono_r_iff 2); lia.
Qed.

Lemma data_ok_keeps po po' H T items ps :
  keeps ps po po' -> data_ok po H T items ps -> data_ok po' H T items ps.
Proof.
  intros Hk Hd m q Hq; destruct (Hd m q Hq) as (b & Hb & ?); exists b; split; [|done].
  rewrite Hk; [done|]; apply list_elem_of_lookup; eauto.
Qed.

(** Writing the next element into the block it belongs to. *)
Lemma data_write po H T items ps x m q b :
  data_ok po H T items ps -> NoDup ps -> T - H = Z.of_nat (length items) -> H <= T ->
  ps !! m = Some q -> T / 32 = H / 32 + Z.of_nat m -> po_blocks po !! q = Some b ->
  data_ok (store q (set_b_elements (<[T mod 32 := x]> (b_elements b)) b) po) H (T + 1) (items ++ [x]) ps.
Proof.
  intros Hd Hn Hlen Hle Hq HT Hb n r Hr.
  destruct (Hd n r Hr) as (b' & Hb' & Hdq & Hel); cbn.
  assert (forall i, H <= i < T -> (items ++ [x]) !! Z.to_nat (i - H) = items !! Z.to_nat (i - H)) as Hold.
  { intros i Hi; apply lookup_app_l; lia. }
  destruct (decide (q = r)) as [<-|Hne].
  - pose proof (NoDup_lookup _ _ _ _ Hn Hr Hq) as ->; rewrite lookup_insert_eq; eexists; split; [done|].
    assert (b' = b) as -> by congruence; split; [done|]; intros i Hi Hk; cbn.
    destruct (decide (i = T)) as [->|]; [|].
    + rewrite lookup_insert_eq, lookup_app_r by lia.
      replace (Z.to_nat (T - H) - length items)%nat with 0%nat by lia; done.
    + pose proof (Z.div_mod i 32); pose proof (Z.div_mod T 32).
      rewrite lookup_insert_ne by lia; rewrite Hold by lia; apply Hel; lia.
  - rewrite lookup_insert_ne by done; exists b'; split; [done|split; [done|]]; intros i Hi Hk.
    assert (n <> m) by (intros ->; congruence).
    assert (i <> T) by (intros ->; lia); rewrite Hold by lia; apply Hel; lia.
Qed.

(** A new block at the end holds nothing yet. *)
Lemma data_extend po H T items ps q b :
  data_ok po H T items ps -> H <= T -> (T + 31) / 32 <= H / 32 + Z.of_nat (length ps) ->
  po_blocks po !! q = Some b -> b_elementsCompletelyDequeued b = 0 ->
  data_ok po H T items (ps ++ [q]).
Proof.
  intros Hd Hle HT Hb Hz m r [Hr|[Hge Hr]]%lookup_app_Some; [by apply Hd|].
  apply list_lookup_singleton_Some in Hr as [Hm0 <-]; assert (m = length ps) as -> by lia.
  pose proof (Z.div_mod (T + 31) 32); pose proof (Z.mod_pos_bound (T + 31) 32).
  pose proof (Z.div_mod H 32); pose proof (Z.mod_pos_bound H 32).
  exists b; split; [done|split].
  - case_decide; lia.
  - intros i Hi Hk; pose proof (Z.div_mod i 32); pose proof (Z.mod_pos_bound i 32); lia.
Qed.

(** Storing the element: the last step of [enqueue]. *)
Lemma fifo_write po p H T items ps others x q h c :
  ip_tailIndex p = u64 T -> ip_headIndex p = u64 H ->
  u64 (ip_dequeueOptimisticCount p - ip_dequeueOvercommit p) = u64 H ->
  T - H = Z.of_nat (length items) -> 32 * (T / 32 + 1) - H < 2 ^ 63 ->
  index_ok p h c (H / 32) (T / 32 + 1) ps -> last ps = Some q -> ip_tailBlock p = q ->
  (exists free, pool_inv po free (ps ++ others)) -> data_ok po H T items ps ->
  exists b, load po q = Done b /\
    let po' := store q (set_b_elements (<[T mod 32 := x]> (b_elements b)) b) po in
    fifo po' (set_tailIndex (u64 (1 + u64 T)) p) H (T + 1) (items ++ [x]) ps others /\
    keeps others po po'.
Proof.
  intros Ht Hh Ho Hlen Hb Hio Hlast Htb [free Hp] Hd; pose proof (io_count _ _ _ _ _ _ Hio) as Hc.
  assert (q ∈ ps) as Hq by (rewrite last_lookup in Hlast; apply list_elem_of_lookup; eauto).
  destruct (proj1 (list_elem_of_lookup _ _) Hq) as [m Hm]; destruct (Hd m q Hm) as (b & Hbl & _).
  exists b; unfold load; rewrite Hbl; split; [done|]; cbv zeta; split; [split|].
  - cbn; rewrite wrap_add_r; f_equal; lia.
  - done.
  - done.
  - rewrite length_app; cbn [length]; lia.
  - by rewrite ceil_div_succ.
  - rewrite ceil_div_succ; exists h, c; by eapply index_ok_ext; [..|exact Hio].
  - intros _; cbn; by rewrite Htb.
  - exists free; by eapply pool_inv_store; [set_solver|..].
  - rewrite last_lookup in Hlast; pose proof (lookup_lt_Some _ _ _ Hlast).
    by apply (data_write po H T items ps x (Nat.pred (length ps))); [|eapply pool_nodup|lia..| |lia|].
  - intros r Hr; cbn; apply lookup_insert_ne; intros ->; by eapply pool_disjoint.
Qed.

Lemma full_spec H T :
  0 <= T - H < 2 ^ 63 -> full (u64 T) (u64 H) = (2 ^ 63 <=? T + 32 - H).
Proof.
  intros Hr; unfold full; change (negb (MAX_SUBQUEUE_SIZE =? 2 ^ 64 - 1)) with false.
  rewrite andb_false_l, orb_false_r; change BLOCK_SIZE with 32; rewrite u64_add.
  destruct (Z.leb_spec (2 ^ 63) (T + 32 - H)).
  - apply negb_true_iff; unfold circular_less_than; rewrite u64_sub; unfold wrap; apply Z.ltb_ge.
    rewrite <- (Z.mod_add _ 1), Z.mod_small by lia; lia.
  - rewrite clt_u64 by lia; apply negb_false_iff, Z.ltb_lt; lia.
Qed.

(** Why an enqueue can fail: the queue is full, the caller forbids allocation, or
    an allocation fails. *)
Definition may_fail (canAlloc : bool) (room : Z) po : Prop :=
  room < 32 \/ canAlloc = false \/ po_mallocs po <> [].

Lemma ip_enqueue_ok canAlloc x po p H T items ps others :
  fifo po p H T items ps others ->
  exists ok po' p', ip_enqueue junk canAlloc x po p = Done (ok, po', p') /\ keeps others po po' /\
    (po_mallocs po = [] -> po_mallocs po' = []) /\
    if ok then exists ps', fifo po' p' H (T + 1) (items ++ [x]) ps' others
    else fifo po' p' H T items ps others /\ may_fail canAlloc (2 ^ 63 - 1 - (T - H)) po.
Proof.
  intros Hf; pose proof Hf as [Ht Hh Ho Hlen Hb (h & c & Hio) Htb [free Hp] Hd].
  pose proof (Z.div_mod T 32); pose proof (Z.mod_pos_bound T 32); pose proof (Z.div_mod H 32).
  pose proof (Z.mod_pos_bound H 32).
  unfold ip_enqueue; rewrite Ht, Hh, slot_u64; destruct (Z.eqb_spec (T mod 32) 0) as [Hm|Hm].
  2:{ rewrite bind_Done; cbn [negb]; rewrite ceil_div_ne in * by done.
      destruct (fifo_write po p H T items ps others x (ip_tailBlock p) h c) as (b & -> & Hf' & Hk);
        try done; [by apply Htb; intros ->; pose proof (io_count _ _ _ _ _ _ Hio) as Hc; cbn in Hc; lia|by exists free|].
      rewrite bind_Done; eexists true, _, _; split_all; [reflexivity|done|done|by exists ps]. }
  rewrite ceil_div in * by done; rewrite clt_u64 by lia.
  destruct (Z.ltb_spec T H); [lia|]; cbn [check negb]; rewrite bind_Done, full_spec by lia.
  destruct (Z.leb_spec (2 ^ 63) (T + 32 - H)).
  { rewrite bind_Done; cbn [negb]; exists false, po, p; split_all; try done; left; lia. }
  assert (u64 (32 * (T / 32)) = u64 T) as Hu by (f_equal; lia).
  destruct (start_block_ok junk canAlloc po p h c (H / 32) (T / 32) ps others free Hio Hp)
    as (r & po1 & p1 & Hrun & Hsd & Hk & Hml & Hst).
  { intros Hfull; apply (room_to_grow H T); [apply Hio|rewrite ceil_div by done; lia|by rewrite ceil_div]. }
  rewrite Hu in Hrun; rewrite Hrun, bind_Done; pose proof (io_count _ _ _ _ _ _ Hio) as Hc.
  assert (keeps others po po1) as Hko by (intros q Hq; apply Hk; set_solver).
  assert (data_ok po1 H T items ps) as Hd1.
  { eapply data_ok_keeps; [|done]; intros q Hq; apply Hk; set_solver. }
  destruct r as [q|]; rewrite bind_Done; cbn [negb].
  - destruct Hst as ((h' & c' & Hio') & (free' & Hp') & b0 & Hb0 & Hz); cbn [ip_tailBlock set_tailBlock].
    destruct (fifo_write po1 (set_tailBlock q p1) H T items (ps ++ [q]) others x q h' c')
      as (b & -> & Hf' & Hk').
    1-3: by rewrite Hsd.
    + done.
    + lia.
    + by eapply index_ok_ext; [..|exact Hio'].
    + by rewrite last_snoc.
    + done.
    + exists free'; eapply pool_inv_perm; [|done].
      rewrite <- app_assoc; apply Permutation_middle.
    + eapply data_extend; try done; rewrite ceil_div by done; lia.
    + rewrite bind_Done; eexists true, _, _; split; [reflexivity|]; split_all; [|auto|by exists (ps ++ [q])].
      intros r Hr; rewrite Hk' by done; by apply Hko.
  - destruct Hst as ((h' & c' & Hio') & (free' & Hp') & Hca).
    eexists false, _, _; split; [reflexivity|]; split_all; [done|auto| |].
    + split; rewrite ?ceil_div by done; [by rewrite Hsd..|done|lia|by exists h', c'|by rewrite Hsd|by exists free'|done].
    + right; destruct canAlloc; [right; auto|by left].
Qed.

(** ** Taking elements out *)

(** The part of the invariant that does not mention the counters. *)
Record core po p (h : BlockIndexHeader) (c H T : Z) items (ps others : list Z) : Prop := {
  co_index : index_ok p h c (H / 32) ((T + 31) / 32) ps;
  co_len : T - H = Z.of_nat (length items);
  co_tailBlock : ps <> [] -> last ps = Some (ip_tailBlock p);
  co_pool : exists free, pool_inv po free (ps ++ others);
  co_data : data_ok po H T items ps }.

Lemma fifo_core po p H T items ps others :
  fifo po p H T items ps others -> exists h c, core po p h c H T items ps others.
Proof. intros [? ? ? ? ? (h & c & Hio) ? ? ?]; exists h, c; by split. Qed.

Lemma div_add_block H n :
  0 <= n -> H mod 32 + n <= 32 -> (H + n) / 32 = H / 32 + (if H mod 32 + n =? 32 then 1 else 0).
Proof.
  intros Hn Hm; pose proof (Z.div_mod H 32); pose proof (Z.mod_pos_bound H 32).
  symmetry; destruct (Z.eqb_spec (H mod 32 + n) 32).
  - apply Z.div_unique with 0; lia.
  - apply Z.div_unique with (H mod 32 + n); lia.
Qed.
Lemma mod_add_block H n :
  0 <= n -> H mod 32 + n <= 32 -> (H + n) mod 32 = if H mod 32 + n =? 32 then 0 else H mod 32 + n.
Proof.
  intros Hn Hm; rewrite Z.mod_eq, div_add_block by lia; pose proof (Z.div_mod H 32).
  destruct (Z.eqb_spec (H mod 32 + n) 32); lia.
Qed.

(** The oldest block [q] gives up [n] elements and becomes [b']. *)
Lemma data_take po H T items q ps n b b' :
  data_ok po H T items (q :: ps) -> NoDup (q :: ps) -> 0 <= n -> H mod 32 + n <= 32 -> H + n <= T ->
  po_blocks po !! q = Some b ->
  b_elementsCompletelyDequeued b' = H mod 32 + n ->
  (forall i, H + n <= i < T -> i / 32 = H / 32 -> b_elements b' !! (i mod 32) = b_elements b !! (i mod 32)) ->
  data_ok (store q b' po) (H + n) T (drop (Z.to_nat n) items)
    (if H mod 32 + n =? 32 then ps else q :: ps).
Proof.
  intros Hd Hnd Hn Hm HT Hb Hdq Hel.
  assert (forall i, H + n <= i -> drop (Z.to_nat n) items !! Z.to_nat (i - (H + n)) =
                                  items !! Z.to_nat (i - H)) as Hdrop.
  { intros i Hi; rewrite lookup_drop; f_equal; lia. }
  assert (forall m r, ps !! m = Some r -> po_blocks (store q b' po) !! r = po_blocks po !! r) as Hps.
  { intros m r Hr; cbn; apply lookup_insert_ne; intros ->; inversion Hnd as [|? ? Hx _]; apply Hx.
    apply list_elem_of_lookup; eauto. }
  pose proof (div_add_block H n Hn Hm) as Hdiv; pose proof (mod_add_block H n Hn Hm) as Hmod.
  destruct (Z.eqb_spec (H mod 32 + n) 32) as [E|E]; intros m r Hr.
  - destruct (Hd (S m) r Hr) as (br & Hbr & Hdr & Her); exists br; rewrite (Hps m r Hr); split; [done|].
    split; [rewrite Hdr; repeat case_decide; lia|]; intros i Hi Hk; rewrite Hdrop by lia; apply Her; lia.
  - destruct m as [|m]; cbn in Hr.
    + injection Hr as <-; exists b'; cbn; rewrite lookup_insert_eq; split; [done|]; split; [case_decide; lia|].
      intros i Hi Hk; rewrite Hdrop by lia; rewrite Hel by lia.
      destruct (Hd O q eq_refl) as (b0 & Hb0 & _ & He0); assert (b0 = b) as -> by congruence.
      apply He0; lia.
    + destruct (Hd (S m) r Hr) as (br & Hbr & Hdr & Her); exists br; rewrite (Hps m r Hr); split; [done|].
      split; [rewrite Hdr; repeat case_decide; lia|]; intros i Hi Hk; rewrite Hdrop by lia; apply Her; lia.
Qed.

Lemma release_ok po p h c H T items q ps others n b b' id e :
  core po p h c H T items (q :: ps) others -> 0 <= n -> H mod 32 + n <= 32 -> H + n <= T ->
  entry_for p h ((T + 31) / 32) (H / 32) = Some (id, e) ->
  po_blocks po !! q = Some b -> same_owner b b' ->
  b_elementsCompletelyDequeued b' = H mod 32 + n ->
  (forall i, H + n <= i < T -> i / 32 = H / 32 -> b_elements b' !! (i mod 32) = b_elements b !! (i mod 32)) ->
  exists po' p' ps', release_block (H mod 32 + n =? 32) id q (store q b' po) p = Done (po', p') /\
    core po' p' h c (H + n) T (drop (Z.to_nat n) items) ps' others /\ same_data p p' /\
    keeps others po po' /\ po_mallocs po' = po_mallocs po.
Proof.
  intros [Hio Hlen Htb [free Hp] Hd] Hn Hm HT He Hb Hr Hdq Hel.
  pose proof (pool_nodup _ _ _ _ Hp) as Hnd.
  assert (pool_inv (store q b' po) free ((q :: ps) ++ others)) as Hp1.
  { by eapply pool_inv_store; [set_solver|..]. }
  pose proof (data_take po H T items q ps n b b' Hd Hnd Hn Hm HT Hb Hdq Hel) as Hd1.
  assert (keeps others po (store q b' po)) as Hk1.
  { intros r Ho; cbn; apply lookup_insert_ne; intros ->; eapply (pool_disjoint po); [done| |done]; set_solver. }
  assert (T - (H + n) = Z.of_nat (length (drop (Z.to_nat n) items))) as Hlen1.
  { rewrite length_drop; lia. }
  pose proof (div_add_block H n Hn Hm) as Hdiv; unfold release_block.
  destruct (Z.eqb_spec (H mod 32 + n) 32) as [E|E].
  2:{ eexists _, _, (q :: ps); split; [reflexivity|]; split; [|auto with word].
      split; try done; [|by exists free]; rewrite Hdiv, Z.add_0_r; done. }
  destruct (index_pop p h c _ _ (q :: ps) Hio q ps id e eq_refl He) as (p' & -> & Hio' & Hsd).
  rewrite bind_Done; cbn [app] in Hp1.
  destruct (add_block_ok _ _ _ _ Hp1) as (po' & -> & Hp' & Hk' & Hml); rewrite bind_Done.
  exists po', p', ps; split; [done|]; split; [split|split; [|split; [|done]]].
  - by rewrite Hdiv.
  - done.
  - intros Hne; rewrite Hsd; cbn; destruct ps as [|q' ps]; [done|]; by apply Htb.
  - by eexists.
  - eapply data_ok_keeps; [|exact Hd1]; intros r Hr'; apply Hk'; set_solver.
  - by rewrite Hsd.
  - intros r Hr'; rewrite Hk' by set_solver; by apply Hk1.
Qed.

(** A non-empty queue has an oldest block, found from the head index. *)
Lemma oldest_block po p h c H T items ps others :
  core po p h c H T items ps others -> H < T ->
  exists q ps' b id, ps = q :: ps' /\ po_blocks po !! q = Some b /\ b_freeListRefs b = 0 /\
    b_elementsCompletelyDequeued b = H mod 32 /\
    entry_for p h ((T + 31) / 32) (H / 32) = Some (id, {| bie_key := u64 (32 * (H / 32)); bie_value := q |}) /\
    get_block_index_index_for_index (u64 H) p = Done (Z.of_nat (position h ((T + 31) / 32) (H / 32)), h) /\
    get_block_index_entry_for_index (u64 H) p = Done id /\
    load_entry id p = Done {| bie_key := u64 (32 * (H / 32)); bie_value := q |} /\
    forall i, H <= i < T -> i / 32 = H / 32 -> b_elements b !! (i mod 32) = items !! Z.to_nat (i - H).
Proof.
  intros [Hio Hlen Htb [free Hp] Hd] HT; pose proof (io_count _ _ _ _ _ _ Hio) as Hc.
  destruct ps as [|q ps'].
  { exfalso; cbn in Hc; pose proof (Z.div_mod H 32); pose proof (Z.mod_pos_bound H 32).
    pose proof (Z.div_mod (T + 31) 32); pose proof (Z.mod_pos_bound (T + 31) 32); lia. }
  destruct (Hd O q eq_refl) as (b & Hb & Hdq & Hel).
  pose proof (used_nonzero _ _ _ _ Hp) as Hne; apply Forall_cons in Hne as [Hne _].
  destruct (live_entry p h c _ _ _ Hio H O q eq_refl Hne) as (id & He & Hx & Hi & Hl); [lia|].
  exists q, ps', b, id; split_all; try done; [apply (pool_refs po free (q :: ps') others q); [done|set_solver|done]|].
  intros i Hi' Hk; apply Hel; lia.
Qed.

Lemma core_counts po p h c H T items ps others hd o v :
  core po p h c H T items ps others -> core po (set_counts hd o v p) h c H T items ps others.
Proof. intros [Hio ? ? ? ?]; split; try done; by eapply index_ok_ext; [..|exact Hio]. Qed.

(** The invariant after the counters have moved along with the elements. *)
Lemma core_fifo po p0 p h c H T items ps others n o v H0 :
  core po p h c (H0 + n) T items ps others -> same_data (set_counts (u64 (u64 H0 + n)) o v p0) p ->
  ip_tailIndex p0 = u64 T -> u64 (o - v) = u64 (H0 + n) -> 0 <= n -> H = H0 + n ->
  32 * ((T + 31) / 32) - H0 < 2 ^ 63 -> fifo po p H T items ps others.
Proof.
  intros [Hio Hlen Htb Hp Hd] Hsd Ht Ho Hn -> Hb; rewrite Hsd; split; cbn; try done.
  - by rewrite wrap_add_l.
  - lia.
  - exists h, c; by eapply index_ok_ext; [..|exact Hio].
  - rewrite Hsd in Htb; done.
Qed.

Lemma fifo_not_empty po p H T items ps others :
  fifo po p H T items ps others ->
  circular_less_than (u64 (ip_dequeueOptimisticCount p - ip_dequeueOvercommit p)) (ip_tailIndex p) =
  (H <? T) /\ 0 <= T - H < 2 ^ 63.
Proof.
  intros [Ht Hh Ho Hlen Hb _ _ _ _]; pose proof (Z.div_mod (T + 31) 32).
  pose proof (Z.mod_pos_bound (T + 31) 32); split; [|lia]; rewrite Ho, Ht; apply clt_u64; lia.
Qed.

Lemma ip_dequeue_ok po p H T items ps others :
  fifo po p H T items ps others ->
  match items with
  | [] => ip_dequeue po p = Done (None, po, p)
  | x :: items' => exists po' p' ps', ip_dequeue po p = Done (Some x, po', p') /\
      fifo po' p' (H + 1) T items' ps' others /\ keeps others po po' /\
      po_mallocs po' = po_mallocs po
  end.
Proof.
  intros Hf; destruct (fifo_not_empty _ _ _ _ _ _ _ Hf) as [Hne Hr].
  pose proof Hf as [Ht Hh Ho Hlen Hb _ _ _ _]; unfold ip_dequeue; rewrite Hne.
  destruct items as [|x items']; cbn [length] in Hlen; destruct (Z.ltb_spec H T); [lia|done| |lia].
  destruct (fifo_core _ _ _ _ _ _ _ Hf) as (h & c & Hco).
  apply (core_counts _ _ _ _ _ _ _ _ _ (u64 (ip_headIndex p + 1)) (u64 (ip_dequeueOptimisticCount p + 1))
    (ip_dequeueOvercommit p)) in Hco; rewrite Hh in *; set (p1 := set_counts _ _ _ p) in *.
  destruct (oldest_block _ _ _ _ _ _ _ _ _ Hco) as (q & ps' & b & id & -> & Hbq & Hrf & Hdq & He & _ & -> & Hl & Hel);
    [lia|].
  rewrite bind_Done, Hl, bind_Done; cbn [bie_value]; unfold load; rewrite Hbq; cbn [deref].
  rewrite bind_Done, slot_u64, (Hel H) by lia; rewrite Z.sub_diag.
  change (deref ((x :: items') !! Z.to_nat 0)) with (Done x).
  pose proof (Z.mod_pos_bound H 32); unfold set_empty.
  cbn [b_elementsCompletelyDequeued set_b_elements]; rewrite bind_Done, Hdq.
  destruct (Z.ltb_spec (H mod 32) BLOCK_SIZE) as [_|Hbad]; [|unfold BLOCK_SIZE in Hbad; lia].
  cbn [check]; rewrite !bind_Done; rewrite (wrap_small 64) by (unfold in_u; lia).
  replace (H mod 32 =? BLOCK_SIZE - 1) with (H mod 32 + 1 =? 32)
    by (unfold BLOCK_SIZE; destruct (Z.eqb_spec (H mod 32 + 1) 32), (Z.eqb_spec (H mod 32) (32 - 1)); lia).
  match goal with |- context [store q ?bb po] => set (b' := bb) end.
  destruct (release_ok po p1 h c H T (x :: items') q ps' others 1 b b' id
              {| bie_key := u64 (32 * (H / 32)); bie_value := q |} Hco)
    as (po' & p' & ps2 & -> & Hco' & Hsd & Hk & Hml); try done; try lia.
  { intros i Hi Hk; cbn; apply lookup_delete_ne; intros E.
    pose proof (Z.div_mod i 32); pose proof (Z.div_mod H 32); lia. }
  rewrite bind_Done; exists po', p', ps2; split_all; try done.
  eapply core_fifo with (n := 1) (H0 := H); try done; try lia; by apply u64_move.
Qed.

(** *** Several at once *)

Lemma u64_neq a k : 0 < k < 2 ^ 64 -> u64 a <> u64 (a + k).
Proof.
  intros Hk E; unfold wrap in E.
  assert ((a + k - a) mod 2 ^ 64 = 0) as Hz by (rewrite Zminus_mod, E, Z.sub_diag; done).
  replace (a + k - a) with k in Hz by lia; rewrite Z.mod_small in Hz; lia.
Qed.

Lemma take_block_ok k : forall fuel H items (b : block A),
  (k <= fuel)%nat -> (k <= 32)%nat -> (k <= length items)%nat ->
  (forall j, (j < k)%nat -> b_elements b !! ((H + Z.of_nat j) mod 32) = items !! j) ->
  H mod 32 + Z.of_nat k <= 32 ->
  exists b', take_block fuel (u64 (H + Z.of_nat k)) (u64 H) b = Done (take k items, b') /\
    same_owner b b' /\
    b_elementsCompletelyDequeued b' = b_elementsCompletelyDequeued b /\
    forall s, (forall j, (j < k)%nat -> s <> (H + Z.of_nat j) mod 32) -> b_elements b' !! s = b_elements b !! s.
Proof.
  induction k as [|k IH]; intros fuel H items b Hf Hk Hl Hel Hm.
  { destruct fuel; cbn [take_block]; rewrite Z.add_0_r, Z.eqb_refl; by exists b. }
  destruct fuel as [|fuel]; [lia|]; cbn [take_block].
  destruct (Z.eqb_spec (u64 H) (u64 (H + Z.of_nat (S k)))) as [E|_].
  { apply u64_neq in E; [done|lia]. }
  destruct items as [|x items]; cbn [length] in Hl; [lia|].
  pose proof (Hel O ltac:(lia)) as H0; rewrite Z.add_0_r in H0; rewrite slot_u64, H0; cbn [lookup list_lookup deref].
  rewrite bind_Done, u64_add.
  assert (forall j, (j < k)%nat -> H mod 32 <> (H + 1 + Z.of_nat j) mod 32) as Hne.
  { intros j Hj E; pose proof (mod_add_block H (1 + Z.of_nat j) ltac:(lia) ltac:(lia)) as Hmod.
    rewrite <- Z.add_assoc, Hmod in E; destruct (Z.eqb_spec (H mod 32 + (1 + Z.of_nat j)) 32); lia. }
  destruct (decide (k = O)) as [->|Hk0].
  { destruct fuel; cbn [take_block]; rewrite Z.eqb_refl, bind_Done; eexists; split_all; try done.
    all: intros s Hs; cbn; apply lookup_delete_ne; specialize (Hs O ltac:(lia)); rewrite Z.add_0_r in Hs; done. }
  assert ((H + 1) mod 32 = H mod 32 + 1) as Hm1.
  { rewrite mod_add_block by lia; destruct (Z.eqb_spec (H mod 32 + 1) 32); lia. }
  destruct (IH fuel (H + 1) items (set_b_elements (delete (H mod 32) (b_elements b)) b))
    as (b' & Hrun & Hr & Hd & He); try lia.
  { intros j Hj; cbn; rewrite lookup_delete_ne by (by apply Hne).
    transitivity ((x :: items) !! S j); [|done]; rewrite <- Hel by lia; do 2 f_equal; lia. }
  replace (H + 1 + Z.of_nat k) with (H + Z.of_nat (S k)) in Hrun by lia.
  rewrite Hrun, bind_Done; exists b'; split_all; try done.
  intros s Hs; rewrite He; [cbn; apply lookup_delete_ne|].
  - specialize (Hs O ltac:(lia)); rewrite Z.add_0_r in Hs; done.
  - intros j Hj; specialize (Hs (S j) ltac:(lia)); intros ->; apply Hs; f_equal; lia.
Qed.

(** Where a block's share of the elements up to [H + n] ends. *)
Definition share (H n : Z) : Z := Z.min n (32 - H mod 32).

Lemma stop_index_share H n :
  0 <= n < 2 ^ 63 -> stop_index (u64 H) (u64 (H + n)) = u64 (H + share H n).
Proof.
  intros Hn; unfold stop_index, share; rewrite block_base_u64; change BLOCK_SIZE with 32; rewrite u64_add.
  pose proof (Z.div_mod H 32); pose proof (Z.mod_pos_bound H 32); rewrite clt_u64 by lia.
  destruct (Z.ltb_spec (H + n) (32 * (H / 32) + 32)); f_equal; lia.
Qed.

(** One turn of the loop: [k] elements leave the oldest block. *)
Lemma take_turn po p h c H T items ps others k :
  core po p h c H T items ps others -> H < T -> 0 <= k -> H mod 32 + k <= 32 -> H + k <= T ->
  exists po' p' ps',
    (forall B (K : list A -> pool A -> ImplicitProducer -> run B),
       (id ← index_at h (Z.of_nat (position h ((T + 31) / 32) (H / 32))); e ← load_entry id p;
        b ← load po (bie_value e);
        '(xs, b) ← take_block (Z.to_nat BLOCK_SIZE) (u64 (H + k)) (u64 H) b;
        '(now_empty, b) ← set_many_empty (u64 (u64 (H + k) - u64 H)) b;
        '(po, p) ← release_block now_empty id (bie_value e) (store (bie_value e) b po) p;
        K xs po p) = K (take (Z.to_nat k) items) po' p') /\
    core po' p' h c (H + k) T (drop (Z.to_nat k) items) ps' others /\ same_data p p' /\
    keeps others po po' /\ po_mallocs po' = po_mallocs po.
Proof.
  intros Hco HT Hk Hk32 HkT; destruct (oldest_block _ _ _ _ _ _ _ _ _ Hco HT)
    as (q & ps' & b & id & -> & Hbq & Hrf & Hdq & He & _ & _ & Hl & Hel).
  pose proof (co_len _ _ _ _ _ _ _ _ _ Hco) as Hlen; pose proof (Z.mod_pos_bound H 32 ltac:(lia)) as Hm.
  assert (index_at h (Z.of_nat (position h ((T + 31) / 32) (H / 32))) = Done id) as Hat.
  { unfold index_at, entry_for in *; rewrite Nat2Z.id; apply bind_Some in He as (j & -> & He).
    by apply bind_Some in He as (x & _ & [= -> _]). }
  destruct (take_block_ok (Z.to_nat k) (Z.to_nat BLOCK_SIZE) H items b) as (b' & Hrun & Hr' & Hd' & He');
    try (unfold BLOCK_SIZE; lia).
  { intros j Hj; rewrite Hel by (try lia; rewrite div_add_block by lia;
      destruct (Z.eqb_spec (H mod 32 + Z.of_nat j) 32); lia).
    f_equal; lia. }
  rewrite Z2Nat.id in Hrun by lia; set (b2 := set_b_dequeued (H mod 32 + k) b').
  destruct (release_ok po p h c H T items q ps' others k b b2 id
              {| bie_key := u64 (32 * (H / 32)); bie_value := q |} Hco)
    as (po1 & p1 & ps1 & Hrel & Hco1 & Hsd1 & Hk1 & Hml1); try done; try lia.
  { intros i Hi Hi32; cbn; apply He'; intros j Hj E.
    pose proof (Z.div_mod i 32); pose proof (Z.div_mod (H + Z.of_nat j) 32).
    rewrite div_add_block in * by lia; destruct (Z.eqb_spec (H mod 32 + Z.of_nat j) 32); lia. }
  exists po1, p1, ps1; split; [|done]; intros B K; rewrite Hat, bind_Done, Hl, bind_Done.
  cbn [bie_value]; unfold load; rewrite Hbq; cbn [deref]; rewrite bind_Done, Hrun, bind_Done, u64_sub.
  replace (H + k - H) with k by lia; rewrite (wrap_small 64 k) by (unfold in_u; lia).
  unfold set_many_empty; rewrite Hd', Hdq, (wrap_small 64 (H mod 32 + k)) by (unfold in_u; lia).
  change BLOCK_SIZE with 32; destruct (Z.leb_spec (H mod 32 + k) 32) as [_|Hbad]; [|lia].
  cbn [check]; rewrite !bind_Done; fold b2; by rewrite Hrel, bind_Done.
Qed.

Lemma bulk_take_ok fuel : forall po p h c H T items ps others n,
  core po p h c H T items ps others -> H < T -> 0 <= n -> H + n <= T -> T - H < 2 ^ 63 ->
  (H mod 32 + n) / 32 < Z.of_nat fuel ->
  exists po' p' ps',
    bulk_take fuel h (u64 (H + n)) (u64 H) (Z.of_nat (position h ((T + 31) / 32) (H / 32))) po p =
      Done (take (Z.to_nat n) items, po', p') /\
    core po' p' h c (H + n) T (drop (Z.to_nat n) items) ps' others /\ same_data p p' /\
    keeps others po po' /\ po_mallocs po' = po_mallocs po.
Proof.
  induction fuel as [|fuel IH]; intros po p h c H T items ps others n Hco HT Hn HnT Hb Hf.
  { pose proof (Z.mod_pos_bound H 32); pose proof (Z.div_pos (H mod 32 + n) 32); lia. }
  pose proof (co_len _ _ _ _ _ _ _ _ _ Hco) as Hlen; pose proof (Z.mod_pos_bound H 32 ltac:(lia)) as Hm.
  set (k := share H n); assert (0 <= k <= n /\ H mod 32 + k <= 32) as [Hk Hk32] by (unfold k, share; lia).
  cbn [bulk_take]; rewrite stop_index_share by lia; fold k.
  destruct (take_turn po p h c H T items ps others k Hco HT) as (po1 & p1 & ps1 & -> & Hco1 & Hsd1 & Hk1 & Hml1);
    [lia..|].
  destruct (decide (k = n)) as [Hkn|Hkn].
  { rewrite Hkn, Z.eqb_refl; rewrite Hkn in *; exists po1, p1, ps1; by split_all. }
  destruct (Z.eqb_spec (u64 (H + k)) (u64 (H + n))) as [E|_].
  { replace (H + n) with (H + k + (n - k)) in E by lia; apply u64_neq in E; [done|lia]. }
  assert (H mod 32 + k = 32) as E32 by (unfold k, share in *; lia).
  pose proof (div_add_block H k ltac:(lia) ltac:(lia)) as Hdiv; rewrite E32, Z.eqb_refl in Hdiv.
  pose proof (mod_add_block H k ltac:(lia) ltac:(lia)) as Hmod; rewrite E32, Z.eqb_refl in Hmod.
  pose proof (co_index _ _ _ _ _ _ _ _ _ Hco1) as Hio1; pose proof (io_ring _ _ _ _ _ _ Hio1) as Hr1.
  assert (ring h (Z.of_nat (position h ((T + 31) / 32) (H / 32)) + 1) =
          Z.of_nat (position h ((T + 31) / 32) ((H + k) / 32))) as ->.
  { pose proof (ring_pow _ _ _ Hr1); destruct Hr1; rewrite (ring_mod h c) by (done || lia).
    unfold position; rewrite ro_capacity, Hdiv.
    pose proof (Z.mod_pos_bound (bih_tail h + (H / 32 - (T + 31) / 32 + 1)) (2 ^ c)).
    pose proof (Z.mod_pos_bound (bih_tail h + (H / 32 + 1 - (T + 31) / 32 + 1)) (2 ^ c)).
    rewrite !Z2Nat.id by lia; rewrite Z.add_mod_idemp_l by lia; f_equal; lia. }
  replace (H + n) with (H + k + (n - k)) by lia.
  destruct (IH po1 p1 h c (H + k) T (drop (Z.to_nat k) items) ps1 others (n - k) Hco1)
    as (po2 & p2 & ps2 & -> & Hco2 & Hsd2 & Hk2 & Hml2); try lia.
  { rewrite Hmod, Z.add_0_l; replace (H mod 32 + n) with (n - k + 1 * 32) in Hf by lia.
    rewrite Z.div_add in Hf by lia; lia. }
  rewrite bind_Done, drop_drop in *; exists po2, p2, ps2; split; [|split; [|split; [|split]]].
  - rewrite take_take_drop; do 4 f_equal; lia.
  - replace (Z.to_nat k + Z.to_nat (n - k))%nat with (Z.to_nat n) in Hco2 by lia; done.
  - by eapply same_data_trans.
  - intros r Hr; rewrite Hk2, Hk1; done.
  - congruence.
Qed.

Lemma clt_0 d : 0 <= d < 2 ^ 63 -> circular_less_than 0 d = (0 <? d).
Proof.
  intros Hd; rewrite <- (wrap_small 64 0), <- (wrap_small 64 d) at 1 by (unfold in_u; lia).
  apply clt_u64; lia.
Qed.

Lemma take_drop_min items max :
  0 <= max ->
  take (Z.to_nat (Z.min max (Z.of_nat (length items)))) items = take (Z.to_nat max) items /\
  drop (Z.to_nat (Z.min max (Z.of_nat (length items)))) items = drop (Z.to_nat max) items.
Proof.
  intros Hm; destruct (decide (max <= Z.of_nat (length items))); [by rewrite Z.min_l by lia|].
  rewrite !take_ge, !drop_ge by lia; done.
Qed.

Lemma ip_dequeue_bulk_ok max po p H T items ps others :
  fifo po p H T items ps others -> 0 <= max < 2 ^ 64 ->
  exists po' p' ps', ip_dequeue_bulk max po p = Done (take (Z.to_nat max) items, po', p') /\
    fifo po' p' (H + Z.min max (T - H)) T (drop (Z.to_nat max) items) ps' others /\
    keeps others po po' /\ po_mallocs po' = po_mallocs po.
Proof.
  intros Hf Hmax; destruct (fifo_not_empty _ _ _ _ _ _ _ Hf) as [_ Hr].
  pose proof Hf as [Ht Hh Ho Hlen Hb _ _ _ _]; unfold ip_dequeue_bulk; rewrite Ho, Ht, u64_sub.
  rewrite (wrap_small 64 (T - H)) by (unfold in_u; lia); rewrite clt_0 by lia.
  destruct (Z.ltb_spec 0 (T - H)) as [Hpos|Hz].
  2:{ destruct items; [|cbn in Hlen; lia]; rewrite take_nil, drop_nil.
      exists po, p, ps; split_all; try done; replace (H + Z.min max (T - H)) with H by lia; done. }
  set (n := if T - H <? max then T - H else max).
  assert (n = Z.min max (T - H)) as Hn by (unfold n; destruct (Z.ltb_spec (T - H) max); lia).
  assert ((if n <? T - H then n else T - H) = n) as -> by (destruct (Z.ltb_spec n (T - H)); lia).
  rewrite Z.ltb_irrefl; destruct (fifo_core _ _ _ _ _ _ _ Hf) as (h & c & Hco).
  apply (core_counts _ _ _ _ _ _ _ _ _ (u64 (ip_headIndex p + n)) (u64 (ip_dequeueOptimisticCount p + n))
    (ip_dequeueOvercommit p)) in Hco; rewrite Hh in *; set (p1 := set_counts _ _ _ p) in *.
  destruct (oldest_block _ _ _ _ _ _ _ _ _ Hco) as (q & ps' & b & id & E & _ & _ & _ & _ & -> & _); [lia|].
  rewrite bind_Done, u64_add.
  destruct (bulk_take_ok (S (Z.to_nat (n / BLOCK_SIZE + 1))) po p1 h c H T items ps others n Hco)
    as (po' & p' & ps2 & -> & Hco' & Hsd & Hk & Hml); try lia.
  { change BLOCK_SIZE with 32; pose proof (Z.mod_pos_bound H 32); pose proof (Z.div_pos n 32).
    assert ((H mod 32 + n) / 32 <= (n + 1 * 32) / 32) by (apply Z.div_le_mono; lia).
    rewrite Z.div_add in * by lia; lia. }
  exists po', p', ps2; destruct (take_drop_min items max) as [<- <-]; [lia|]; rewrite <- Hlen, <- Hn.
  split_all; try done; eapply core_fifo with (n := n) (H0 := H); try done; try lia; by apply u64_move.
Qed.
End fifo.
