(* ===== verification/ProducerBulk.v ===== *)
(** * Inside the concurrent queue: enqueuing many elements at once

    [enqueue_bulk] first gets all the blocks it needs, chained by [next], and gives
    them all back where one cannot be had; then it fills them.  It is all or
    nothing: every element is appended, or the queue is as before. *)

From S2P Require Import Prelude BlockPool ImplicitProducer BlockIndex ProducerFifo.

Section bulk.
Context {A : Type} (junk : Z).
Implicit Types (po : pool A) (p : ImplicitProducer) (items : list A).

(** ** Chains of blocks *)

(** Following [next] from [head] meets the blocks [l] and arrives at [z]. *)
Fixpoint seg (bs : gmap Z (block A)) (head : Z) (l : list Z) (z : Z) : Prop :=
  match l with
  | [] => head = z
  | q :: l => head = q /\ exists b, bs !! q = Some b /\ seg bs (b_next b) l z
  end.

Lemma seg_ext bs bs' head l z :
  (forall q, q ∈ l -> bs' !! q = bs !! q) -> seg bs head l z -> seg bs' head l z.
Proof.
  revert head; induction l as [|q l IH]; intros head Hext; cbn [seg]; [done|].
  intros (-> & b & Hb & Hs); split; [done|]; exists b; split; [rewrite Hext; [done|set_solver]|].
  apply IH; [|done]; intros; apply Hext; set_solver.
Qed.

Lemma seg_app bs head l1 l2 z :
  seg bs head (l1 ++ l2) z <-> exists y, seg bs head l1 y /\ seg bs y l2 z.
Proof.
  revert head; induction l1 as [|q l1 IH]; intros head; cbn [seg app].
  - split; [by exists head|by intros (y & -> & ?)].
  - split.
    + intros (-> & b & Hb & Hs); apply IH in Hs as (y & ? & ?); exists y; split; [|done].
      split; [done|by exists b].
    + intros (y & (-> & b & Hb & Hs) & Hy); split; [done|]; exists b; split; [done|].
      apply IH; by exists y.
Qed.

Lemma seg_head bs head q l z : seg bs head (q :: l) z -> head = q.
Proof. by intros [-> _]. Qed.

(** Linking the last block of a chain to another one. *)
Lemma seg_relink bs head l q z b y :
  seg bs head (l ++ [q]) z -> NoDup (l ++ [q]) -> bs !! q = Some b ->
  seg (<[q := set_b_next y b]> bs) head (l ++ [q]) y.
Proof.
  intros (x & Hs & Hx)%seg_app Hn Hb; apply seg_app; exists q; split.
  - apply seg_head in Hx as ->; eapply seg_ext; [|done]; intros r Hr; apply lookup_insert_ne; intros ->.
    apply NoDup_app in Hn as (_ & Hd & _); by apply (Hd r Hr), list_elem_of_singleton.
  - split; [done|]; eexists; by rewrite lookup_insert_eq.
Qed.

(** Giving back a chain of blocks. *)
Lemma add_blocks_ok qs : forall fuel head po free used,
  pool_inv po free (qs ++ used) -> seg (po_blocks po) head qs 0 -> (length qs < fuel)%nat ->
  exists po' free', add_blocks_to_free_list fuel head po = Done po' /\ pool_inv po' free' used /\
    keeps used po po' /\ po_mallocs po' = po_mallocs po.
Proof.
  induction qs as [|q qs IH]; intros fuel head po free used Hp Hs Hf;
    (destruct fuel as [|fuel]; [cbn in Hf; lia|]); cbn [add_blocks_to_free_list seg] in *.
  { subst; rewrite Z.eqb_refl; by exists po, free. }
  destruct Hs as (-> & b & Hb & Hs); pose proof (pi_range _ _ _ Hp q b Hb).
  destruct (Z.eqb_spec q 0); [lia|]; unfold load; rewrite Hb; cbn [deref]; rewrite bind_Done.
  cbn [app] in Hp; destruct (add_block_ok _ _ _ _ Hp) as (po1 & -> & Hp1 & Hk1 & Hm1); rewrite bind_Done.
  destruct (IH fuel (b_next b) po1 (q :: free) used) as (po' & free' & -> & Hp' & Hk' & Hm').
  - done.
  - eapply seg_ext; [|done]; intros r Hr; apply Hk1; set_solver.
  - cbn in Hf; lia.
  - exists po', free'; split_all; try done; [|congruence]; intros r Hr; rewrite Hk' by done; apply Hk1; set_solver.
Qed.

(** ** Taking blocks out of the index again *)

(** The entries for blocks [kh], [kh + 1], ... hold [l], whatever the tail [t]. *)
Record entries (p : ImplicitProducer) (h : BlockIndexHeader) (c t kh : Z) (l : list Z) : Prop := {
  en_ring : ring_ok p h c;
  en_room : Z.of_nat (length l) <= 2 ^ c;
  en_live : forall m q, l !! m = Some q ->
    exists id, entry_for p h t (kh + Z.of_nat m) =
      Some (id, {| bie_key := u64 (32 * (kh + Z.of_nat m)); bie_value := q |});
  en_free : forall k, kh + Z.of_nat (length l) - 2 ^ c <= k < kh ->
    exists id e, entry_for p h t k = Some (id, e) /\ vacant e }.

Definition prev_tail (h : BlockIndexHeader) (c : Z) : Z := (bih_tail h - 1) mod 2 ^ c.

Lemma rewind_entry p h c t k :
  ring_ok p h c ->
  entry_for (store_tail (prev_tail h c) h p) (with_tail (prev_tail h c) h) (t - 1) k = entry_for p h t k.
Proof.
  intros Hr; pose proof (ring_pow _ _ _ Hr); pose proof (ro_capacity _ _ _ Hr) as Hcap.
  unfold entry_for, position; cbn [with_tail bih_tail bih_capacity bih_index].
  assert ((prev_tail h c + (k - (t - 1) + 1)) mod bih_capacity h =
          (bih_tail h + (k - t + 1)) mod bih_capacity h) as ->; [|done].
  unfold prev_tail; rewrite Hcap, Z.add_mod_idemp_l by lia; f_equal; lia.
Qed.

Lemma rewind_tail_ok p h c :
  ring_ok p h c ->
  rewind_block_index_tail p = Done (store_tail (prev_tail h c) h p) /\
  ring_ok (store_tail (prev_tail h c) h p) (with_tail (prev_tail h c) h) c.
Proof.
  intros Hr; pose proof (ring_pow _ _ _ Hr); destruct Hr as [Hh ? ? ? ? ? ? ?].
  unfold rewind_block_index_tail; split.
  - rewrite Hh; cbn; by rewrite (ring_mod h c) by (done || lia).
  - split; cbn; try done; unfold prev_tail; apply Z.mod_pos_bound; lia.
Qed.

(** One turn of the loop: the entry of a block is emptied, the tail moves back. *)
Lemma revert_entry p h c t kh l m q :
  entries p h c t kh l -> kh <= t - 1 < kh + Z.of_nat (length l) -> l !! m = Some q -> q <> 0 ->
  exists id p1 p2 h2, get_block_index_entry_for_index (u64 (32 * (kh + Z.of_nat m))) p = Done id /\
    store_value id 0 p = Done p1 /\ rewind_block_index_tail p1 = Done p2 /\ same_data p p2 /\
    entries p2 h2 c (t - 1) kh (<[m := 0]> l).
Proof.
  intros [Hr Hm Hl Hf] Ht Hq Hq0; pose proof (ring_pow _ _ _ Hr).
  destruct (Hl m q Hq) as [id He].
  destruct (lookup_lt_is_Some_2 l (Z.to_nat (t - 1 - kh))) as [qt Hqt]; [lia|].
  destruct (Hl _ _ Hqt) as [idt Het]; replace (kh + Z.of_nat (Z.to_nat (t - 1 - kh))) with (t - 1) in Het by lia.
  destruct (find_entry p h c t (kh + Z.of_nat m) (32 * (kh + Z.of_nat m)) idt _ id _ Hr Het eq_refl He eq_refl Hq0)
    as [Hg Hle].
  { rewrite Z.mul_comm; apply Z.div_mul; lia. }
  set (e' := {| bie_key := u64 (32 * (kh + Z.of_nat m)); bie_value := 0 |}).
  pose proof (ring_ok_store p h c Hr id e') as Hr1.
  destruct (rewind_tail_ok _ h c Hr1) as [Hw Hr2].
  eexists id, (store_entry id e' p), _, _; split_all; [done| |exact Hw| |split; [exact Hr2|..]].
  - unfold store_value; by rewrite Hle.
  - done.
  - by rewrite length_insert.
  - intros n r Hn; rewrite rewind_entry by done; pose proof (lookup_lt_Some _ _ _ Hn) as Hlt.
    rewrite length_insert in Hlt; pose proof (lookup_lt_Some _ _ _ Hq).
    rewrite (entry_store p h c Hr t (kh + Z.of_nat m) (kh + Z.of_nat n) id _ e' He) by lia.
    case_decide as Hmn.
    + assert (m = n) as <- by lia; rewrite list_lookup_insert_eq in Hn by done; injection Hn as <-; by exists id.
    + rewrite list_lookup_insert_ne in Hn by (intros ->; lia); by apply Hl.
  - rewrite length_insert; intros k Hk; rewrite rewind_entry by done; pose proof (lookup_lt_Some _ _ _ Hq).
    rewrite (entry_store p h c Hr t (kh + Z.of_nat m) k id _ e' He) by lia.
    rewrite decide_False by lia; by apply Hf.
Qed.

Lemma entries_of p h c kh kt l : index_ok p h c kh kt l -> entries p h c kt kh l.
Proof.
  intros [Hr Hc Hm Hl Hf]; split; [done|lia|done|]; intros k Hk; apply Hf; lia.
Qed.

(** Where all blocks after [ps] are out, the index is that of [ps]. *)
Lemma entries_index p h c kh ps n :
  entries p h c (kh + Z.of_nat (length ps)) kh (ps ++ replicate n 0) ->
  index_ok p h c kh (kh + Z.of_nat (length ps)) ps.
Proof.
  intros [Hr Hm Hl Hf]; rewrite length_app, length_replicate in *; pose proof (ring_pow _ _ _ Hr).
  split; [done|lia|lia|..].
  - intros m q Hq; apply Hl; by apply lookup_app_l_Some.
  - intros k Hk; destruct (decide (kh + Z.of_nat (length ps + n) - 2 ^ c <= k)); [apply Hf; lia|].
    destruct (Hl (Z.to_nat (k + 2 ^ c - kh)) 0) as [id He].
    { rewrite lookup_app_r by lia; apply lookup_replicate; split; [done|lia]. }
    replace (kh + Z.of_nat (Z.to_nat (k + 2 ^ c - kh))) with (k + 2 ^ c) in He by lia.
    assert (entry_for p h (kh + Z.of_nat (length ps)) k =
            entry_for p h (kh + Z.of_nat (length ps)) (k + 2 ^ c)) as ->.
    { unfold entry_for, position; rewrite (ro_capacity _ _ _ Hr).
      rewrite <- (Z.mod_add _ 1) by lia; do 4 f_equal; lia. }
    eexists _, _; split; [done|by right].
Qed.

(** The loop: [d] entries are out already, those of [qs] follow. *)
Lemma revert_index_ok po H0 ps qs : forall fuel d p h c head,
  entries p h c (H0 + Z.of_nat (length ps + length qs)) H0 (ps ++ replicate d 0 ++ qs) ->
  Forall (fun q => q <> 0) qs -> seg (po_blocks po) head qs 0 -> (length qs < fuel)%nat ->
  exists p' h', revert_index fuel head (u64 (32 * (H0 + Z.of_nat (length ps + d) - 1))) po p = Done p' /\
    same_data p p' /\ entries p' h' c (H0 + Z.of_nat (length ps)) H0 (ps ++ replicate (d + length qs) 0).
Proof.
  induction qs as [|q qs IH]; intros fuel d p h c head He Hne Hs Hf;
    (destruct fuel as [|fuel]; [cbn in Hf; lia|]); cbn [revert_index seg] in *.
  { subst; rewrite Z.eqb_refl; exists p, h; split_all; [done|auto with word|].
    cbn [length] in *; by rewrite app_nil_r, !Nat.add_0_r in *. }
  destruct Hs as (-> & b & Hb & Hs); apply Forall_cons in Hne as [Hq0 Hne].
  destruct (Z.eqb_spec q 0); [done|]; change BLOCK_SIZE with 32; rewrite u64_add.
  replace (32 * (H0 + Z.of_nat (length ps + d) - 1) + 32) with (32 * (H0 + Z.of_nat (length ps + d))) by lia.
  destruct (revert_entry p h c _ _ _ (length ps + d) q He) as (id & p1 & p2 & h2 & -> & Hs1 & Hw & Hsd & He2).
  { rewrite !length_app, length_replicate; cbn [length]; lia. }
  { rewrite lookup_app_r by lia; rewrite lookup_app_r by (rewrite length_replicate; lia).
    rewrite length_replicate; by replace (length ps + d - length ps - d)%nat with O by lia. }
  { done. }
  rewrite bind_Done, Hs1, bind_Done, Hw, bind_Done; unfold load; rewrite Hb; cbn [deref]; rewrite bind_Done.
  destruct (IH fuel (S d) p2 h2 c (b_next b)) as (p' & h' & Hrun & Hsd' & He').
  - rewrite insert_app_r_alt in He2 by lia; replace (length ps + d - length ps)%nat with d in He2 by lia.
    rewrite insert_app_r_alt in He2 by (rewrite length_replicate; lia); rewrite length_replicate, Nat.sub_diag in He2.
    cbn [insert list_insert length] in He2; rewrite replicate_S_end, <- app_assoc; cbn [app].
    replace (H0 + Z.of_nat (length ps + length qs)) with (H0 + Z.of_nat (length ps + S (length qs)) - 1) by lia; done.
  - done.
  - done.
  - cbn in Hf; lia.
  - replace (32 * (H0 + Z.of_nat (length ps + S d) - 1)) with (32 * (H0 + Z.of_nat (length ps + d))) in Hrun by lia.
    exists p', h'; split; [done|]; split; [by eapply same_data_trans|].
    cbn [length]; by replace (d + S (length qs))%nat with (S d + length qs)%nat by lia.
Qed.

(** ** Getting the blocks *)

Lemma data_ok_next po H T items ps q b v :
  data_ok po H T items ps -> po_blocks po !! q = Some b ->
  data_ok (store q (set_b_next v b) po) H T items ps.
Proof.
  intros Hd Hb m r Hr; destruct (Hd m r Hr) as (b' & Hb' & Hrest); cbn.
  destruct (decide (q = r)) as [<-|]; [|by exists b'; rewrite lookup_insert_ne].
  assert (b' = b) as -> by congruence; eexists; by rewrite lookup_insert_eq.
Qed.

(** The counters are the same. *)
Definition same_counts p p' : Prop :=
  ip_tailIndex p' = ip_tailIndex p /\ ip_headIndex p' = ip_headIndex p /\
  ip_dequeueOptimisticCount p' = ip_dequeueOptimisticCount p /\
  ip_dequeueOvercommit p' = ip_dequeueOvercommit p.
Lemma same_data_counts p p' : same_data p p' -> same_counts p p' /\ ip_tailBlock p' = ip_tailBlock p.
Proof. by intros ->. Qed.
Lemma same_counts_trans p1 p2 p3 : same_counts p1 p2 -> same_counts p2 p3 -> same_counts p1 p3.
Proof. unfold same_counts; naive_solver congruence. Qed.

(** The block being filled when the operation starts, if there is one. *)
Definition partial (T startBlock : Z) : list Z := if T mod 32 =? 0 then [] else [startBlock].

(** While blocks are being allocated: [qs] are the new ones, and [next] leads
    through the partial block and all of them. *)
Record growing po p (H T : Z) items (ps qs others : list Z) (startBlock first : Z) : Prop := {
  gr_le : H <= T;
  gr_index : exists h c, index_ok p h c (H / 32) ((T + 31) / 32 + Z.of_nat (length qs)) (ps ++ qs);
  gr_bound : 32 * ((T + 31) / 32 + Z.of_nat (length qs)) - H < 2 ^ 63;
  gr_pool : exists free, pool_inv po free ((ps ++ qs) ++ others);
  gr_data : data_ok po H T items (ps ++ qs);
  gr_partial : T mod 32 <> 0 -> last ps = Some startBlock;
  gr_chain : exists head z, seg (po_blocks po) head (partial T startBlock ++ qs) z /\ (qs <> [] -> z = 0);
  gr_tailBlock : last (startBlock :: qs) = Some (ip_tailBlock p);
  gr_first : first = default 0 (hd_error qs) }.

Lemma partial_sub T startBlock ps qs :
  (T mod 32 <> 0 -> last ps = Some startBlock) -> NoDup (ps ++ qs) ->
  NoDup (partial T startBlock ++ qs) /\ forall q, q ∈ partial T startBlock ++ qs -> q ∈ ps ++ qs.
Proof.
  intros Hl Hn; unfold partial; destruct (Z.eqb_spec (T mod 32) 0) as [|Hm].
  { apply NoDup_app in Hn as (_ & _ & ?); split; [done|set_solver]. }
  apply last_Some in Hl as [l ->]; [|done]; rewrite <- app_assoc in *; cbn [app] in *.
  apply NoDup_app in Hn as (_ & _ & ?); split; [done|set_solver].
Qed.

Lemma partial_last T startBlock ps qs :
  (T mod 32 <> 0 -> last ps = Some startBlock) ->
  (T mod 32 =? 0) && (default 0 (hd_error qs) =? 0) = false -> Forall (fun q => q <> 0) qs ->
  exists l q, partial T startBlock ++ qs = l ++ [q] /\ last (startBlock :: qs) = Some q.
Proof.
  intros Hl Hc Hne; unfold partial; destruct (decide (qs = [])) as [->|Hqs].
  - cbn in Hc; rewrite andb_true_r in Hc; rewrite Hc; by exists [], startBlock.
  - destruct (exists_last Hqs) as (l & q & ->); exists ((if T mod 32 =? 0 then [] else [startBlock]) ++ l), q.
    by rewrite app_assoc, app_comm_cons, last_snoc.
Qed.

Lemma hd_error_zero (qs : list Z) :
  Forall (fun q => q <> 0) qs -> (default 0 (hd_error qs) =? 0) = bool_decide (qs = []).
Proof.
  destruct qs as [|q qs]; [done|]; intros [Hq _]%Forall_cons; by apply Z.eqb_neq.
Qed.

Lemma link_block_ok po0 p0 po p H T items ps qs others startBlock first q b free :
  growing po0 p0 H T items ps qs others startBlock first -> keeps (ps ++ qs) po0 po ->
  ip_tailBlock p = ip_tailBlock p0 ->
  pool_inv po free (((ps ++ qs) ++ [q]) ++ others) -> po_blocks po !! q = Some b ->
  b_elementsCompletelyDequeued b = 0 ->
  exists po', link_block (u64 T) first q po p = Done po' /\ keeps others po po' /\
    po_mallocs po' = po_mallocs po /\
    pool_inv po' free (((ps ++ qs) ++ [q]) ++ others) /\ data_ok po' H T items ((ps ++ qs) ++ [q]) /\
    exists head, seg (po_blocks po') head (partial T startBlock ++ qs ++ [q]) 0.
Proof.
  intros [Hle (h & c & Hio) _ _ Hd0 Hpl (head & z & Hs0 & Hz0) Htb ->] Hk0 Htb0 Hp Hb Hz.
  pose proof (data_ok_keeps _ _ _ _ _ _ Hk0 Hd0) as Hd; rewrite <- Htb0 in Htb.
  pose proof (io_count _ _ _ _ _ _ Hio) as Hc; pose proof (pool_nodup _ _ _ _ Hp) as Hnd.
  apply NoDup_app in Hnd as (Hnd & Hni & _).
  assert (q ∉ ps ++ qs) as Hq by (intros Hq; by apply (Hni q Hq), list_elem_of_singleton).
  destruct (partial_sub T startBlock ps qs Hpl Hnd) as [Hndc Hsub].
  assert (seg (po_blocks po) head (partial T startBlock ++ qs) z) as Hs.
  { eapply seg_ext; [|done]; intros r Hr; by apply Hk0, Hsub. }
  set (po1 := store q (set_b_next 0 b) po).
  assert (pool_inv po1 free (((ps ++ qs) ++ [q]) ++ others)) as Hp1.
  { by eapply pool_inv_store; [set_solver|..]. }
  assert (data_ok po1 H T items ((ps ++ qs) ++ [q])) as Hd1.
  { apply data_ok_next; [|done]; eapply data_extend; try done; lia. }
  assert (keeps others po po1) as Hk1.
  { intros r Hr; cbn; apply lookup_insert_ne; intros ->; eapply (pool_disjoint po); [done| |done]; set_solver. }
  assert (seg (po_blocks po1) head (partial T startBlock ++ qs) z) as Hs1.
  { eapply seg_ext; [|done]; intros r Hr; cbn; apply lookup_insert_ne; intros ->; auto. }
  unfold link_block, load; rewrite Hb; cbn [deref]; rewrite bind_Done; fold po1.
  pose proof (used_nonzero po free _ _ Hp) as Hne; apply Forall_app in Hne as [Hne _].
  rewrite slot_u64, <- negb_andb; destruct (_ && _) eqn:Hlink; cbn [negb].
  - apply andb_true_iff in Hlink as [Hm%Z.eqb_eq Hf]; apply Forall_app in Hne as [_ Hne].
    rewrite hd_error_zero in Hf by done; apply bool_decide_eq_true in Hf as ->.
    exists po1; split_all; try done; exists q; unfold partial; rewrite Hm; cbn.
    split; [done|]; eexists; by rewrite lookup_insert_eq.
  - destruct (partial_last T startBlock ps qs Hpl Hlink) as (l & t & El & Hlast);
      [by apply Forall_app in Hne as []|].
    rewrite Htb in Hlast; injection Hlast as ->; rewrite El in *.
    assert (t ∈ ps ++ qs) as Ht by (apply Hsub; set_solver).
    rewrite Forall_forall in Hne; destruct (Z.eqb_spec t 0) as [->|]; [by apply Hne in Ht|].
    cbn [negb check]; rewrite bind_Done.
    apply list_elem_of_lookup in Ht as [m Hm]; destruct (Hd1 m t) as (bt & Hbt & _); [by apply lookup_app_l_Some|].
    rewrite Hbt; cbn [deref]; rewrite bind_Done; eexists; split; [reflexivity|]; split_all.
    + intros r Hr; cbn; rewrite lookup_insert_ne; [by apply Hk1|]; intros ->.
      eapply (pool_disjoint po); [done| |done]; apply list_elem_of_lookup_2 in Hm; set_solver.
    + done.
    + apply list_elem_of_lookup_2 in Hm; by eapply pool_inv_store; [set_solver|..].
    + by apply data_ok_next.
    + exists head; rewrite app_assoc, El; apply seg_app; exists q; split; [by eapply seg_relink|].
      split; [done|]; eexists; cbn; rewrite lookup_insert_ne.
      * rewrite lookup_insert_eq; by split.
      * intros ->; apply Hq, Hsub; set_solver.
Qed.

Lemma seg_first bs head T startBlock qs z :
  seg bs head (partial T startBlock ++ qs) z -> (qs <> [] -> z = 0) ->
  seg bs (default 0 (hd_error qs)) qs 0.
Proof.
  intros (y & _ & Hy)%seg_app Hz; destruct qs as [|q qs]; [done|].
  rewrite Hz in Hy by done; by rewrite (seg_head _ _ _ _ _ Hy) in Hy.
Qed.

Lemma base_before T : block_base (u64 (u64 T - 1)) = u64 (32 * ((T + 31) / 32 - 1)).
Proof.
  change (u64 T - 1) with (u64 T + -1); rewrite u64_add, block_base_u64; do 2 f_equal.
  replace (T + 31) with (T + -1 + 1 * 32) by lia; rewrite Z.div_add by lia; lia.
Qed.

(** Other blocks and a larger index do not matter to the allocation so far. *)
Lemma growing_keeps po p po' p' H T items ps qs others startBlock first h c free :
  growing po p H T items ps qs others startBlock first -> keeps (ps ++ qs) po po' -> same_data p p' ->
  index_ok p' h c (H / 32) ((T + 31) / 32 + Z.of_nat (length qs)) (ps ++ qs) ->
  pool_inv po' free ((ps ++ qs) ++ others) ->
  growing po' p' H T items ps qs others startBlock first.
Proof.
  intros [Hle _ Hb _ Hd Hpl (head & z & Hs & Hz) Htb Hfi] Hk [_ Htb']%same_data_counts Hio Hp.
  destruct (partial_sub T startBlock ps qs Hpl (pool_nodup _ _ _ _ Hp)) as [_ Hsub].
  split; try done; [by exists h, c|by exists free|by eapply data_ok_keeps| |by rewrite Htb'].
  exists head, z; split; [|done]; eapply seg_ext; [|done]; intros r Hr; by apply Hk, Hsub.
Qed.

(** Backing out gives all new blocks back and restores the index. *)
Lemma revert_bulk_ok po p H T items ps qs others startBlock first fuel :
  growing po p H T items ps qs others startBlock first -> (length qs < fuel)%nat ->
  exists po' p' h' c', revert_bulk fuel (u64 T) startBlock first po p = Done (po', p') /\
    index_ok p' h' c' (H / 32) ((T + 31) / 32) ps /\ (exists free, pool_inv po' free (ps ++ others)) /\
    data_ok po' H T items ps /\ same_counts p p' /\ ip_tailBlock p' = startBlock /\
    keeps others po po' /\ po_mallocs po' = po_mallocs po.
Proof.
  intros [Hle (h & c & Hio) _ (free & Hp) Hd Hpl (head & z & Hs & Hz) Htb ->] Hf.
  pose proof (io_count _ _ _ _ _ _ Hio) as Hc; rewrite length_app in Hc.
  pose proof (seg_first _ _ _ _ _ _ Hs Hz) as Hsq.
  assert ((T + 31) / 32 = H / 32 + Z.of_nat (length ps)) as Hkt by lia.
  pose proof (used_nonzero _ _ _ _ Hp) as Hne; apply Forall_app in Hne as [_ Hne].
  apply entries_of in Hio; unfold revert_bulk; rewrite base_before, Hkt in *.
  destruct (revert_index_ok po (H / 32) ps qs fuel 0 p h c (default 0 (hd_error qs))) as (p' & h' & Hrun & Hsd & He).
  { by replace (H / 32 + Z.of_nat (length ps + length qs)) with (H / 32 + Z.of_nat (length ps) + Z.of_nat (length qs)) by lia. }
  1-3: done.
  rewrite Nat.add_0_r in Hrun; rewrite Hrun, bind_Done.
  destruct (add_blocks_ok qs fuel (default 0 (hd_error qs)) po free (ps ++ others)) as (po' & free' & -> & Hp' & Hk & Hm).
  { eapply pool_inv_perm; [|done]; rewrite <- app_assoc; apply Permutation_app_swap_app. }
  1-2: done.
  rewrite bind_Done; eexists po', _, h', c; split; [reflexivity|]; split_all.
  - apply (index_ok_ext p'); [done..|]; by eapply entries_index.
  - by exists free'.
  - eapply (data_ok_keeps po); [intros r Hr; apply Hk; set_solver|].
    intros m r Hr; apply Hd; by apply lookup_app_l_Some.
  - by apply same_data_counts in Hsd as [? _].
  - done.
  - intros r Hr; apply Hk; set_solver.
  - done.
Qed.

(** A block has been entered and chained: the allocation is one block further. *)
Lemma grow_step po p po1 p1 H T items ps qs others startBlock first q b h c free :
  growing po p H T items ps qs others startBlock first -> keeps (ps ++ qs) po po1 -> same_data p p1 ->
  index_ok p1 h c (H / 32) ((T + 31) / 32 + Z.of_nat (length qs) + 1) ((ps ++ qs) ++ [q]) ->
  pool_inv po1 free (q :: (ps ++ qs) ++ others) -> po_blocks po1 !! q = Some b ->
  b_elementsCompletelyDequeued b = 0 -> 32 * ((T + 31) / 32 + Z.of_nat (length qs) + 1) - H < 2 ^ 63 ->
  exists po2, link_block (u64 T) first q po1 p1 = Done po2 /\ keeps others po1 po2 /\
    po_mallocs po2 = po_mallocs po1 /\
    growing po2 (set_tailBlock q p1) H T items ps (qs ++ [q]) others startBlock
      (if first =? 0 then q else first).
Proof.
  intros Hg Hk Hsd Hio Hp Hb Hz Hbd; pose proof Hg as [Hle _ _ (free0 & Hp0) _ Hpl _ _ Hfi].
  assert (pool_inv po1 free (((ps ++ qs) ++ [q]) ++ others)) as Hp1.
  { eapply pool_inv_perm; [|done]; rewrite <- (app_assoc (ps ++ qs)); apply Permutation_middle. }
  pose proof (same_data_counts _ _ Hsd) as [_ Htb1].
  destruct (link_block_ok po p po1 p1 H T items ps qs others startBlock first q b free)
    as (po2 & Hl & Hk2 & Hm2 & Hp2 & Hd2 & head2 & Hs2); try done.
  exists po2; split_all; try done.
  pose proof (used_nonzero _ _ _ _ Hp0) as Hne; apply Forall_app in Hne as [_ Hne].
  split; rewrite ?app_assoc, ?length_app; cbn [length]; try done.
  - exists h, c; apply (index_ok_ext p1); [done..|].
    by replace ((T + 31) / 32 + Z.of_nat (length qs + 1)) with ((T + 31) / 32 + Z.of_nat (length qs) + 1) by lia.
  - lia.
  - by exists free.
  - exists head2, 0; by rewrite <- app_assoc.
  - by rewrite app_comm_cons, last_snoc.
  - rewrite Hfi, hd_error_zero by done; by destruct qs.
Qed.

(** What allocating [n] more blocks after [qs] comes to: all of them, or as before. *)
Definition allocated canAlloc (H T : Z) items ps others (startBlock : Z) qs n po p
    (r : option (Z * Z)) po' p' : Prop :=
  same_counts p p' /\ keeps others po po' /\ (po_mallocs po = [] -> po_mallocs po' = []) /\
  match r with
  | Some (first', last') => exists qs', length qs' = n /\
      growing po' p' H T items ps (qs ++ qs') others startBlock first' /\ last' = ip_tailBlock p'
  | None => (exists h c, index_ok p' h c (H / 32) ((T + 31) / 32) ps) /\
      (exists free, pool_inv po' free (ps ++ others)) /\ data_ok po' H T items ps /\
      ip_tailBlock p' = startBlock /\
      (2 ^ 63 <= 32 * ((T + 31) / 32 + Z.of_nat (length qs + n)) - H \/
       canAlloc = false \/ po_mallocs po <> [])
  end.

Lemma allocated_none canAlloc H T items ps others startBlock first total qs n po p po1 p1 :
  growing po1 p1 H T items ps qs others startBlock first -> (length qs < total)%nat ->
  same_counts p p1 -> keeps others po po1 -> (po_mallocs po = [] -> po_mallocs po1 = []) ->
  2 ^ 63 <= 32 * ((T + 31) / 32 + Z.of_nat (length qs + n)) - H \/ canAlloc = false \/ po_mallocs po <> [] ->
  exists po' p', revert_bulk total (u64 T) startBlock first po1 p1 = Done (po', p') /\
    allocated canAlloc H T items ps others startBlock qs n po p None po' p'.
Proof.
  intros Hg Ht Hsc Hk Hm Hwhy; destruct (revert_bulk_ok po1 p1 H T items ps qs others startBlock first total Hg Ht)
    as (po' & p' & h' & c' & -> & Hio' & Hp' & Hd' & Hsc' & Htb' & Hk' & Hm').
  exists po', p'; split; [done|]; unfold allocated; split; [by eapply same_counts_trans|].
  split; [intros r Hr; rewrite Hk' by done; by apply Hk|]; split; [by rewrite Hm'|].
  split; [by exists h', c'|]; split; [done|]; by split_all.
Qed.

Lemma allocated_more canAlloc H T items ps others startBlock qs n q po p po1 p1 r po' p' :
  same_counts p p1 -> keeps others po po1 -> (po_mallocs po = [] -> po_mallocs po1 = []) ->
  allocated canAlloc H T items ps others startBlock (qs ++ [q]) n po1 p1 r po' p' ->
  allocated canAlloc H T items ps others startBlock qs (S n) po p r po' p'.
Proof.
  intros Hsc Hk Hm (Hsc' & Hk' & Hm' & Hr); split; [by eapply same_counts_trans|].
  split; [intros b Hb; rewrite Hk' by done; by apply Hk|]; split; [auto|]; destruct r as [[first' last']|].
  - destruct Hr as (qs' & Hl & Hg & ->); exists (q :: qs'); cbn [length]; split; [lia|]; by rewrite <- app_assoc in Hg.
  - destruct Hr as (? & ? & ? & ? & Hwhy); do 4 (split; [done|]); rewrite length_app in Hwhy; cbn [length] in Hwhy.
    replace (length qs + 1 + n)%nat with (length qs + S n)%nat in Hwhy by lia.
    destruct Hwhy as [|[|Hne]]; [by left|by right; left|right; right; auto].
Qed.

(** The loop that allocates them. *)
Lemma bulk_allocate_ok canAlloc H T items ps others startBlock total n : forall fuel qs po p first,
  growing po p H T items ps qs others startBlock first ->
  ip_headIndex p = u64 H -> (n <= fuel)%nat -> (length qs + n < total)%nat -> 32 * Z.of_nat n < 2 ^ 64 ->
  exists r po' p', bulk_allocate junk total fuel canAlloc (u64 T) startBlock (32 * Z.of_nat n)
      (u64 (32 * ((T + 31) / 32 + Z.of_nat (length qs) - 1))) first (ip_tailBlock p) po p = Done (r, po', p') /\
    allocated canAlloc H T items ps others startBlock qs n po p r po' p'.
Proof.
  induction n as [|n IH]; intros fuel qs po p first Hg Hh Hf Ht Hn.
  { destruct fuel; cbn; (eexists _, po, p; split; [reflexivity|]; do 3 (split; [done|]);
      exists []; rewrite app_nil_r; by split_all). }
  destruct fuel as [|fuel]; [lia|]; cbn [bulk_allocate].
  destruct (Z.eqb_spec (32 * Z.of_nat (S n)) 0); [lia|]; change BLOCK_SIZE with 32.
  rewrite (wrap_small 64 (32 * Z.of_nat (S n) - 32)) by (unfold in_u; lia).
  replace (32 * Z.of_nat (S n) - 32) with (32 * Z.of_nat n) by lia; rewrite u64_add.
  pose proof Hg as [Hle (h & c & Hio) Hb (free & Hp) Hd _ _ _ _].
  set (k := (T + 31) / 32 + Z.of_nat (length qs)) in *.
  replace (32 * (k - 1) + 32) with (32 * k) by lia; rewrite Hh.
  assert (H <= 32 * k) as Hk by (pose proof (Z.div_mod (T + 31) 32); pose proof (Z.mod_pos_bound (T + 31) 32); lia).
  rewrite clt_u64 by lia; destruct (Z.ltb_spec (32 * k) H); [lia|]; cbn [negb check]; rewrite bind_Done, full_spec by lia.
  pose proof (Z.div_mod H 32); pose proof (Z.mod_pos_bound H 32).
  destruct (Z.leb_spec (2 ^ 63) (32 * k + 32 - H)) as [Hfull|Hroom].
  { rewrite bind_Done; destruct (allocated_none canAlloc H T items ps others startBlock first total qs (S n) po p po p Hg)
      as (po' & p' & -> & Ha); [lia|done|done|done|left; lia|]; rewrite bind_Done; by exists None, po', p'. }
  destruct (start_block_ok junk canAlloc po p h c (H / 32) k (ps ++ qs) others free Hio Hp)
    as (r & po1 & p1 & -> & Hsd & Hk1 & Hml & Hst).
  { intros Hfull; pose proof (io_ring _ _ _ _ _ _ Hio) as []; apply (Z.pow_le_mono_r_iff 2); lia. }
  rewrite bind_Done; pose proof (same_data_counts _ _ Hsd) as [Hsc1 _].
  assert (keeps others po po1) as Hko by (intros r' Hr'; apply Hk1; set_solver).
  assert (keeps (ps ++ qs) po po1) as Hkq by (intros r' Hr'; apply Hk1; set_solver).
  destruct r as [q|]; destruct Hst as ((h' & c' & Hio') & (free' & Hp') & Hst).
  - destruct Hst as (b0 & Hb0 & Hz0); destruct (grow_step po p po1 p1 H T items ps qs others startBlock first q b0 h' c' free')
      as (po2 & -> & Hk2 & Hm2 & Hg2); try done; [lia|].
    rewrite bind_Done; destruct (IH fuel (qs ++ [q]) po2 (set_tailBlock q p1) (if first =? 0 then q else first))
      as (r & po' & p' & Hrun & Ha); rewrite ?length_app; cbn [length]; [done|cbn; by destruct Hsc1 as (_ & -> & _)|lia..|].
    rewrite length_app in Hrun; cbn [length ip_tailBlock set_tailBlock] in Hrun.
    replace (32 * ((T + 31) / 32 + Z.of_nat (length qs + 1) - 1)) with (32 * k) in Hrun by lia.
    exists r, po', p'; split; [exact Hrun|]; eapply allocated_more; [| | |exact Ha]; [done| |intros E; rewrite Hm2; auto].
    intros r' Hr'; rewrite Hk2 by done; by apply Hko.
  - destruct (allocated_none canAlloc H T items ps others startBlock first total qs (S n) po p po1 p1)
      as (po' & p' & -> & Ha); [by eapply growing_keeps|lia|done|done|auto|right; destruct canAlloc; [right; auto|by left]|].
    rewrite bind_Done; by exists None, po', p'.
Qed.

(** ** Filling the blocks *)

Lemma store_store q b b' po : store q b' (store q b po) = store q b' po.
Proof. unfold store, set_blocks; cbn; by rewrite insert_insert_eq. Qed.
Lemma store_same q b po : po_blocks po !! q = Some b -> store q b po = po.
Proof. intros Hb; unfold store, set_blocks; rewrite insert_id by done; by destruct po. Qed.

(** What writing elements leaves alone in a block. *)
Definition same_links (b b' : block A) : Prop :=
  b_next b' = b_next b /\ same_owner b b'.

Lemma fill_block_ok H ps m q k : forall fuel C items xs b po,
  data_ok po H C items ps -> NoDup ps -> C - H = Z.of_nat (length items) -> H <= C ->
  ps !! m = Some q -> C / 32 = H / 32 + Z.of_nat m -> po_blocks po !! q = Some b ->
  (k <= fuel)%nat -> (k <= length xs)%nat -> C mod 32 + Z.of_nat k <= 32 ->
  exists b', fill_block fuel (u64 (C + Z.of_nat k)) (u64 C) xs b = Done (u64 (C + Z.of_nat k), drop k xs, b') /\
    data_ok (store q b' po) H (C + Z.of_nat k) (items ++ take k xs) ps /\ same_links b b'.
Proof.
  induction k as [|k IH]; intros fuel C items xs b po Hd Hn Hlen Hle Hq HC Hb Hf Hx Hm.
  { exists b; rewrite Z.add_0_r, app_nil_r, store_same by done; split; [|by split].
    destruct fuel; cbn; by rewrite Z.eqb_refl. }
  pose proof (Z.mod_pos_bound C 32); destruct fuel as [|fuel]; [lia|]; cbn [fill_block].
  destruct (Z.eqb_spec (u64 C) (u64 (C + Z.of_nat (S k)))) as [E|_].
  { by apply u64_neq in E; [|lia]. }
  destruct xs as [|x xs]; [cbn in Hx; lia|]; rewrite u64_add, slot_u64.
  pose proof (data_write po H C items ps x m q b Hd Hn Hlen Hle Hq HC Hb) as Hd1.
  set (b1 := set_b_elements _ b) in *.
  destruct (decide (k = O)) as [->|Hk].
  { exists b1; split; [|by split]; destruct fuel; cbn; by rewrite Z.eqb_refl. }
  pose proof (div_add_block C 1); pose proof (mod_add_block C 1).
  destruct (Z.eqb_spec (C mod 32 + 1) 32); [lia|].
  destruct (IH fuel (C + 1) (items ++ [x]) xs b1 (store q b1 po)) as (b' & Hrun & Hd' & Hl'); try done.
  - rewrite length_app; cbn [length]; lia.
  - lia.
  - lia.
  - cbn; by rewrite lookup_insert_eq.
  - lia.
  - cbn in Hx; lia.
  - lia.
  - replace (C + 1 + Z.of_nat k) with (C + Z.of_nat (S k)) in * by lia.
    exists b'; split; [exact Hrun|]; rewrite store_store, <- app_assoc in Hd'; by split.
Qed.

(** One turn of the loop: as many elements as the block still takes. *)
Lemma fill_turn H ps others m q C items xs po free k b :
  data_ok po H C items ps -> C - H = Z.of_nat (length items) -> ps !! m = Some q ->
  C / 32 = H / 32 + Z.of_nat m -> pool_inv po free (ps ++ others) -> po_blocks po !! q = Some b ->
  (0 < k <= length xs)%nat -> C mod 32 + Z.of_nat k <= 32 ->
  exists b', (if u64 C =? u64 (C + Z.of_nat k) then mret (u64 C, xs, po)
              else b ← load po q;
                   '(cur, xs, b) ← fill_block (Z.to_nat BLOCK_SIZE) (u64 (C + Z.of_nat k)) (u64 C) xs b;
                   mret (cur, xs, store q b po)) = Done (u64 (C + Z.of_nat k), drop k xs, store q b' po) /\
    data_ok (store q b' po) H (C + Z.of_nat k) (items ++ take k xs) ps /\
    pool_inv (store q b' po) free (ps ++ others) /\ keeps others po (store q b' po) /\ b_next b' = b_next b.
Proof.
  intros Hd Hlen Hq HC Hp Hb Hk Hm; pose proof (Z.mod_pos_bound C 32).
  assert (q ∈ ps) as Hqin by (by eapply list_elem_of_lookup_2).
  destruct (fill_block_ok H ps m q k (Z.to_nat BLOCK_SIZE) C items xs b po) as (b' & Hrun & Hd' & Hnx & Hrf);
    try done; [by eapply pool_nodup|lia|change BLOCK_SIZE with 32; lia|lia|].
  destruct (Z.eqb_spec (u64 C) (u64 (C + Z.of_nat k))) as [E|_]; [by apply u64_neq in E; [|lia]|].
  exists b'; unfold load; rewrite Hb; cbn [deref]; rewrite bind_Done, Hrun, bind_Done.
  split_all; try done.
  - eapply pool_inv_store; [apply elem_of_app; by left|exact Hb|exact Hrf|done].
  - intros r Hr; cbn; apply lookup_insert_ne; intros ->; exact (pool_disjoint _ _ _ _ _ Hp Hqin Hr).
Qed.

(** One block at a time, up to the last block [e] of the chain. *)
Lemma bulk_fill_ok H ps others e rest : forall fuel pre q C items xs po p free z,
  data_ok po H C items ps -> C - H = Z.of_nat (length items) -> ps = pre ++ q :: rest ->
  C / 32 = H / 32 + Z.of_nat (length pre) -> 0 < Z.of_nat (length xs) < 2 ^ 63 ->
  (C + Z.of_nat (length xs) + 31) / 32 = H / 32 + Z.of_nat (length ps) ->
  pool_inv po free (ps ++ others) -> ip_tailBlock p = q -> seg (po_blocks po) q (q :: rest) z ->
  last (q :: rest) = Some e -> (length rest < fuel)%nat ->
  exists po', bulk_fill fuel (u64 (C + Z.of_nat (length xs))) e (u64 C) xs po p = Done (po', set_tailBlock e p) /\
    data_ok po' H (C + Z.of_nat (length xs)) (items ++ xs) ps /\ pool_inv po' free (ps ++ others) /\
    keeps others po po' /\ po_mallocs po' = po_mallocs po.
Proof.
  induction rest as [|q' rest IH]; intros fuel pre q C items xs po p free z Hd Hlen Hps HC Hx Hend Hp Htb Hs Hlast Hf;
    (destruct fuel as [|fuel]; [cbn in Hf; lia|]); cbn [bulk_fill]; rewrite Htb, stop_index_share by lia;
    pose proof (Z.div_mod C 32); pose proof (Z.mod_pos_bound C 32);
    pose proof (Z.div_mod (C + Z.of_nat (length xs) + 31) 32);
    pose proof (Z.mod_pos_bound (C + Z.of_nat (length xs) + 31) 32);
    (assert (ps !! length pre = Some q) as Hq by (rewrite Hps; by apply list_lookup_middle));
    destruct Hs as (_ & b & Hb & Hs).
  - rewrite Hps, length_app in Hend; cbn [length] in Hend.
    assert (share C (Z.of_nat (length xs)) = Z.of_nat (length xs)) as -> by (unfold share; lia).
    destruct (fill_turn H ps others (length pre) q C items xs po free (length xs) b)
      as (b' & -> & Hd' & Hp' & Hk' & _); try done; [lia|lia|].
    rewrite bind_Done; injection Hlast as <-; rewrite !Z.eqb_refl; cbn [check]; rewrite bind_Done.
    rewrite take_ge in Hd' by lia; eexists; split; [|by split_all]; do 2 f_equal; rewrite <- Htb; by destruct p.
  - pose proof Hend as Hend'; rewrite Hps, length_app in Hend; cbn [length] in Hend.
    set (k := Z.to_nat (32 - C mod 32)).
    assert (share C (Z.of_nat (length xs)) = Z.of_nat k) as -> by (unfold share; lia).
    destruct (fill_turn H ps others (length pre) q C items xs po free k b)
      as (b' & -> & Hd' & Hp' & Hk' & Hnx); try done; [lia|lia|]; rewrite bind_Done.
    pose proof (pool_nodup _ _ _ _ Hp) as Hn; rewrite Hps in Hn; apply NoDup_app in Hn as (_ & _ & Hn).
    apply NoDup_cons in Hn as [Hn _].
    destruct (Z.eqb_spec q e) as [->|_].
    { exfalso; apply Hn; rewrite last_cons_cons in Hlast; rewrite last_lookup in Hlast; by eapply list_elem_of_lookup_2. }
    unfold load; cbn [po_blocks store set_blocks]; rewrite lookup_insert_eq; cbn [deref]; rewrite bind_Done, Hnx.
    pose proof (seg_head _ _ _ _ _ Hs) as Hb1; rewrite Hb1 in *.
    destruct (IH fuel (pre ++ [q]) q' (C + Z.of_nat k) (items ++ take k xs) (drop k xs) (store q b' po)
      (set_tailBlock q' p) free z) as (po' & Hrun & Hd2 & Hp2 & Hk2 & Hm2); try done.
    + rewrite length_app, length_take; lia.
    + by rewrite <- app_assoc.
    + pose proof (div_add_block C (Z.of_nat k)) as Hdv; rewrite Hdv by lia; destruct (Z.eqb_spec (C mod 32 + Z.of_nat k) 32); [|lia].
      rewrite length_app; cbn [length]; lia.
    + rewrite length_drop; lia.
    + rewrite length_drop, <- Hend'; f_equal; lia.
    + apply (seg_ext (po_blocks po)); [|exact Hs]; intros r Hr; cbn; apply lookup_insert_ne; by intros ->.
    + cbn in Hf; lia.
    + rewrite length_drop in *; replace (C + Z.of_nat k + Z.of_nat (length xs - k)) with (C + Z.of_nat (length xs)) in * by lia.
      exists po'; split; [exact Hrun|]; rewrite <- app_assoc, take_drop in Hd2; split_all; try done.
      intros r Hr; rewrite Hk2 by done; by apply Hk'.
Qed.

(** ** The whole operation *)

Lemma fifo_growing po p H T items ps others :
  fifo po p H T items ps others -> growing po p H T items ps [] others (ip_tailBlock p) 0.
Proof.
  intros [Ht Hh Ho Hlen Hb (h & c & Hio) Htb [free Hp] Hd].
  assert (T mod 32 <> 0 -> last ps = Some (ip_tailBlock p)) as Hpl.
  { intros Hm; apply Htb; intros ->; pose proof (io_count _ _ _ _ _ _ Hio) as Hc; cbn in Hc.
    rewrite ceil_div_ne in Hc by done; assert (H / 32 <= T / 32) by (apply Z.div_le_mono; lia); lia. }
  split; rewrite ?app_nil_r, ?Z.add_0_r; try done; [lia|by exists h, c|by exists free|].
  unfold partial; destruct (Z.eqb_spec (T mod 32) 0) as [|Hm]; cbn; [by exists 0, 0|].
  specialize (Hpl Hm); rewrite last_lookup in Hpl; destruct (Hd _ _ Hpl) as (b & Hb' & _).
  exists (ip_tailBlock p), (b_next b); split; [|done]; split; [done|by exists b].
Qed.

(** Where the filling starts. *)
Lemma growing_start po p H T items ps qs others startBlock first :
  growing po p H T items ps qs others startBlock first -> (T mod 32 = 0 -> qs <> []) ->
  exists pre s rest z, ps ++ qs = pre ++ s :: rest /\ T / 32 = H / 32 + Z.of_nat (length pre) /\
    (if (T mod 32 =? 0) && negb (first =? 0) then first else startBlock) = s /\
    seg (po_blocks po) s (s :: rest) z /\ last (s :: rest) = Some (ip_tailBlock p) /\
    (length rest <= length qs)%nat.
Proof.
  intros [Hle (h & c & Hio) _ (free & Hp) _ Hpl (head & z & Hs & Hz) Htb ->] Hqs.
  pose proof (io_count _ _ _ _ _ _ Hio) as Hc; rewrite length_app in Hc.
  pose proof (used_nonzero _ _ _ _ Hp) as Hne; apply Forall_app in Hne as [_ Hne].
  rewrite hd_error_zero by done; unfold partial in Hs; destruct (Z.eqb_spec (T mod 32) 0) as [Hm|Hm].
  - destruct qs as [|q qs]; [by specialize (Hqs Hm)|]; rewrite ceil_div in Hc by done.
    pose proof (seg_head _ _ _ _ _ Hs) as ->; exists ps, q, qs, z; split_all; try done; cbn; lia.
  - specialize (Hpl Hm); apply last_Some in Hpl as [l ->]; rewrite ceil_div_ne in Hc by done.
    pose proof (seg_head _ _ _ _ _ Hs) as ->; exists l, startBlock, qs, z; split_all; try done.
    + by rewrite <- app_assoc.
    + rewrite length_app in Hc; cbn in Hc; lia.
Qed.

Lemma blocks_needed T n :
  0 <= n < 2 ^ 63 ->
  u64 (block_base (u64 (u64 T + n - 1)) - block_base (u64 (u64 T - 1))) =
    32 * ((T + n + 31) / 32 - (T + 31) / 32) /\
  0 <= (T + n + 31) / 32 - (T + 31) / 32 < 2 ^ 59.
Proof.
  intros Hn; pose proof (Z.div_mod (T + n + 31) 32); pose proof (Z.mod_pos_bound (T + n + 31) 32).
  pose proof (Z.div_mod (T + 31) 32); pose proof (Z.mod_pos_bound (T + 31) 32).
  split; [|lia]; replace (u64 (u64 T + n - 1)) with (u64 (u64 (T + n) - 1)).
  - rewrite !base_before, u64_sub; rewrite wrap_small by (unfold in_u; lia); lia.
  - replace (u64 T + n - 1) with (u64 T + (n - 1)) by lia; change (u64 (T + n) - 1) with (u64 (T + n) + -1).
    rewrite !u64_add; f_equal; lia.
Qed.

(** The blocks are there: the elements go in. *)
Lemma bulk_finish po p H T items ps qs others startBlock first xs fuel :
  growing po p H T items ps qs others startBlock first -> ip_headIndex p = u64 H ->
  u64 (ip_dequeueOptimisticCount p - ip_dequeueOvercommit p) = u64 H ->
  T - H = Z.of_nat (length items) -> 0 < Z.of_nat (length xs) < 2 ^ 63 ->
  (T + Z.of_nat (length xs) + 31) / 32 = (T + 31) / 32 + Z.of_nat (length qs) -> (length qs < fuel)%nat ->
  (T mod 32 = 0 -> qs <> []) ->
  let T' := T + Z.of_nat (length xs) in
  let s := if (T mod 32 =? 0) && negb (first =? 0) then first else startBlock in
  exists po' p', bulk_fill fuel (u64 T') (ip_tailBlock p) (u64 T) xs po (set_tailBlock s p) = Done (po', p') /\
    keeps others po po' /\ po_mallocs po' = po_mallocs po /\
    fifo po' (set_tailIndex (u64 T') p') H T' (items ++ xs) (ps ++ qs) others.
Proof.
  intros Hg Hh Ho Hlen Hx Hn Hf Hqs T' s; destruct (growing_start _ _ _ _ _ _ _ _ _ _ Hg Hqs)
    as (pre & s' & rest & z & Hps & HT & Hs' & Hseg & Hlast & Hrest); subst s'; fold s in Hps, Hseg, Hlast.
  pose proof Hg as [Hle (h & c & Hio) Hb (free & Hp) Hd _ _ _ _].
  pose proof (io_count _ _ _ _ _ _ Hio) as Hc; fold T' in Hn.
  destruct (bulk_fill_ok H (ps ++ qs) others (ip_tailBlock p) rest fuel pre s T items xs po
    (set_tailBlock s p) free z) as (po' & Hrun & Hd' & Hp' & Hk' & Hm'); try done; [fold T'; lia|lia|].
  eexists po', _; split; [exact Hrun|]; split; [done|]; split; [done|]; split; try done; rewrite ?Hn.
  - rewrite length_app; lia.
  - done.
  - exists h, c; by apply (index_ok_ext p).
  - intros _; cbn; by rewrite Hps, last_app_cons.
  - by exists free.
Qed.

Lemma ip_enqueue_bulk_nil canAlloc po p T :
  ip_tailIndex p = u64 T -> ip_enqueue_bulk junk canAlloc [] po p = Done (true, po, p).
Proof.
  intros Ht; unfold ip_enqueue_bulk; rewrite Ht; change (Z.of_nat (length (@nil A))) with 0; cbv zeta.
  destruct (blocks_needed T 0) as [-> _]; [lia|]; rewrite !Z.add_0_r, Z.sub_diag; cbn [Z.mul Z.div bulk_allocate].
  change (32 * 0 =? 0) with true; change (0 =? 0) with true; cbn [negb]; rewrite bind_Done, orb_true_r, andb_false_r; cbn [check]; rewrite bind_Done.
  cbn [bulk_fill ip_tailBlock set_tailBlock]; replace (u64 (u64 T)) with (u64 (T + 0)) by (rewrite <- u64_add; f_equal; lia).
  rewrite stop_index_share by lia; replace (share T 0) with 0 by (unfold share; pose proof (Z.mod_pos_bound T 32); lia).
  rewrite Z.add_0_r, !Z.eqb_refl, bind_Done, Z.eqb_refl; cbn [check]; rewrite !bind_Done,  <- Ht; by destruct p.
Qed.

(** All elements are appended, or nothing changes and there is a reason. *)
Lemma ip_enqueue_bulk_ok canAlloc xs po p H T items ps others :
  fifo po p H T items ps others -> Z.of_nat (length xs) < 2 ^ 63 ->
  exists ok po' p', ip_enqueue_bulk junk canAlloc xs po p = Done (ok, po', p') /\ keeps others po po' /\
    (po_mallocs po = [] -> po_mallocs po' = []) /\
    if ok then exists ps', fifo po' p' H (T + Z.of_nat (length xs)) (items ++ xs) ps' others
    else fifo po' p' H T items ps others /\
         (2 ^ 63 <= 32 * ((T + Z.of_nat (length xs) + 31) / 32) - H \/ canAlloc = false \/ po_mallocs po <> []).
Proof.
  intros Hf Hx; pose proof Hf as [Ht Hh Ho Hlen Hb _ Htb _ _]; destruct (decide (xs = [])) as [->|Hne].
  { rewrite (ip_enqueue_bulk_nil canAlloc po p T) by done; exists true, po, p; split_all; try done.
    exists ps; by rewrite app_nil_r, Z.add_0_r. }
  assert (0 < Z.of_nat (length xs)) as Hx0 by (destruct xs; cbn; [done|lia]).
  pose proof (fifo_growing _ _ _ _ _ _ _ Hf) as Hg.
  unfold ip_enqueue_bulk; rewrite Ht; set (cnt := Z.of_nat (length xs)) in *.
  destruct (blocks_needed T cnt) as [Hdiff Hrange]; [lia|]; rewrite Hdiff, base_before.
  destruct (Z_of_nat_complete _ (proj1 Hrange)) as [n Hn]; rewrite Hn in Hrange |- *.
  change BLOCK_SIZE with 32; rewrite (Z.mul_comm 32 (Z.of_nat n)), Z.div_mul, Nat2Z.id by lia.
  rewrite (Z.mul_comm (Z.of_nat n)).
  destruct (bulk_allocate_ok canAlloc H T items ps others (ip_tailBlock p) (S n) n (S n) [] po p 0 Hg Hh)
    as (r & po1 & p1 & Hrun & (E1 & E2 & E3 & E4) & Hk1 & Hm1 & Hres); [lia|cbn; lia|lia|].
  cbn [length] in Hrun; rewrite Z.add_0_r in Hrun; rewrite Hrun, bind_Done; clear Hrun.
  destruct r as [[first' last']|].
  2:{ destruct Hres as (Hio' & Hp' & Hd' & Htb' & Hfail); exists false, po1, p1.
      split; [done|]; split; [done|]; split; [done|]; split.
      - split; rewrite ?E1, ?E2, ?E3, ?E4; try done; by rewrite Htb'.
      - cbn [length] in Hfail; destruct Hfail as [|Hfail]; [left; lia|by right]. }
  destruct Hres as (qs & Hl & Hg1 & ->); cbn [app] in Hg1.
  assert (T mod 32 = 0 -> qs <> []) as Hqs.
  { intros Hm ->; cbn in Hl; pose proof (Z.div_mod (T + cnt + 31) 32); pose proof (Z.mod_pos_bound (T + cnt + 31) 32).
    pose proof (ceil_div T Hm); pose proof (Z.div_mod T 32); lia. }
  rewrite slot_u64, u64_add.
  destruct (bulk_finish po1 p1 H T items ps qs others (ip_tailBlock p) first' xs (S (S n)) Hg1)
    as (po2 & p2 & Hrun & Hk2 & Hm2 & Hf2); try done; [by rewrite E2|by rewrite E3, E4|fold cnt; lia|lia|].
  assert (negb (T mod 32 =? 0) || negb (first' =? 0) || (cnt =? 0) = true) as ->.
  { destruct (Z.eqb_spec (T mod 32) 0) as [Hm|]; [|done]; cbn [negb orb].
    pose proof Hg1 as [_ _ _ (free & Hp) _ _ _ _ ->]; pose proof (used_nonzero _ _ _ _ Hp) as Hnz.
    apply Forall_app in Hnz as [_ Hnz]; rewrite hd_error_zero by done.
    by rewrite bool_decide_eq_false_2 by auto. }
  cbv zeta in Hrun; fold cnt in Hrun; cbn [check]; rewrite bind_Done, Hrun, bind_Done; eexists true, po2, _; split; [reflexivity|].
  split; [intros r Hr; rewrite Hk2 by done; by apply Hk1|]; split; [by rewrite Hm2|by exists (ps ++ qs)].
Qed.
End bulk.
