(* ===== verification/ProducerDestroy.v ===== *)
(** * Inside the concurrent queue: the destructor of a producer

    [~ImplicitProducer] destroys the elements still queued, each once, in their order,
    and gives
    back every block the producer holds, so nothing is lost and nothing is given
    back twice.  [retires] says which blocks have been freed. *)

From S2P Require Import Prelude BlockPool ImplicitProducer BlockIndex ProducerFifo.

Section destroy.
Context {A : Type}.
Implicit Types (po : pool A) (p : ImplicitProducer).
Context (p : ImplicitProducer) (h : BlockIndexHeader) (c H T : Z) (items : list A) (ps others : list Z).
Hypothesis (Hio : index_ok p h c (H / 32) ((T + 31) / 32) ps) (Hnd : NoDup ps).
Hypothesis (Hlen : T - H < 2 ^ 63) (Hit : T - H = Z.of_nat (length items)).

(** The elements from index [C] on are in their blocks. *)
Definition stored po (C : Z) : Prop :=
  forall i, C <= i < T -> exists q b, ps !! Z.to_nat (i / 32 - H / 32) = Some q /\
    po_blocks po !! q = Some b /\
    exists x, b_elements b !! (i mod 32) = Some x /\ items !! Z.to_nat (i - H) = Some x.

(** The loop is at index [C] with [block] in hand; [rs] are not given back yet. *)
Record destroying po (C block : Z) (pre rs : list Z) : Prop := {
  de_range : H <= C;
  de_split : ps = pre ++ rs;
  de_block : (block = 0 /\ C = H /\ pre = []) \/
    (block <> 0 /\ (C - 1) / 32 = H / 32 + Z.of_nat (length pre) /\ exists rs', rs = block :: rs');
  de_pool : exists free, pool_inv po free (rs ++ others);
  de_stored : stored po C }.

Lemma next_block C : C mod 32 = 0 -> C / 32 = (C - 1) / 32 + 1.
Proof.
  intros Hm; pose proof (Z.div_mod C 32); replace (C - 1) with (31 + (C / 32 - 1) * 32) by lia.
  rewrite Z.div_add by lia; change (31 / 32) with 0; lia.
Qed.
Lemma same_block C : C mod 32 <> 0 -> C / 32 = (C - 1) / 32.
Proof.
  intros Hm; pose proof (Z.div_mod C 32); pose proof (Z.mod_pos_bound C 32).
  apply Z.div_unique with (C mod 32 - 1); lia.
Qed.

(** The block for index [C] is found; the one before has been given back. *)
Lemma select_block po C block pre rs :
  destroying po C block pre rs -> C < T ->
  exists q po1 pre1 rs1,
    (if (slot (u64 C) =? 0) || (block =? 0) then
       po ← (if negb (block =? 0) then add_block_to_free_list block po else mret po);
       id ← get_block_index_entry_for_index (u64 C) p; e ← load_entry id p;
       mret (bie_value e, po)
     else mret (block, po)) = Done (q, po1) /\
    ps = pre1 ++ q :: rs1 /\ q <> 0 /\ C / 32 = H / 32 + Z.of_nat (length pre1) /\
    (exists free, pool_inv po1 free ((q :: rs1) ++ others)) /\ keeps ((q :: rs1) ++ others) po po1.
Proof.
  intros [Hr Hs Hb (free & Hp) Hst] HC; destruct (Hst C) as (q & b & Hq & Hbq & _); [lia|].
  assert (H / 32 <= C / 32) by (apply Z.div_le_mono; lia).
  assert (q <> 0) as Hq0 by (apply (pi_range _ _ _ Hp) in Hbq; lia).
  destruct (live_entry p h c _ _ _ Hio C _ q Hq Hq0) as (id & _ & _ & Hg & Hl); [lia|].
  rewrite slot_u64; destruct Hb as [(-> & -> & ->)|(Hb0 & Hk & rs' & ->)].
  - rewrite orb_true_r; cbn [negb Z.eqb]; rewrite bind_Done, Hg, bind_Done, Hl, bind_Done; cbn [bie_value].
    rewrite Z.sub_diag in Hq; destruct ps as [|q0 rs1] eqn:E; [done|]; injection Hq as ->.
    exists q, po, [], rs1; split_all; first [done|cbn; lia|exists free; by rewrite Hs].
  - destruct (Z.eqb_spec block 0); [done|]; cbn [negb]; rewrite orb_false_r.
    destruct (Z.eqb_spec (C mod 32) 0) as [Hm|Hm].
    + rewrite (next_block C Hm) in *; destruct (add_block_ok po free (rs' ++ others) block Hp) as (po1 & -> & Hp1 & Hk1 & _).
      rewrite bind_Done, Hg, bind_Done, Hl, bind_Done; cbn [bie_value].
      replace (Z.to_nat ((C - 1) / 32 + 1 - H / 32)) with (S (length pre)) in Hq by lia.
      rewrite Hs, lookup_app_r in Hq by lia; replace (S (length pre) - length pre)%nat with 1%nat in Hq by lia.
      destruct rs' as [|q0 rs1]; [done|]; injection Hq as ->.
      exists q, po1, (pre ++ [block]), rs1; rewrite <- app_assoc, length_app; cbn [length].
      split_all; first [done|lia|by eexists].
    + rewrite (same_block C Hm) in *; exists block, po, pre, rs'; split_all; first [done|lia|by eexists].
Qed.

(** The loop: all elements are destroyed; the last block is still held. *)
Lemma destroy_elements_ok n : forall po C block pre rs,
  destroying po C block pre rs -> C + Z.of_nat n = T ->
  exists po', destroy_elements n (u64 T) (u64 C) block po p = Done (drop (Z.to_nat (C - H)) items, po') /\
    keeps others po po' /\
    ((n = O /\ po' = po) \/
     exists pre' q free', n <> O /\ ps = pre' ++ [q] /\ pool_inv po' free' ([q] ++ others)).
Proof.
  induction n as [|n IH]; intros po C block pre rs Hde Hn.
  { assert (C = T) as -> by lia; exists po; cbn; rewrite Z.eqb_refl, drop_ge by lia; split_all; auto; done. }
  pose proof Hde as [Hr Hs Hb Hp Hst]; cbn [destroy_elements].
  destruct (Z.eqb_spec (u64 C) (u64 T)) as [E|_].
  { replace T with (C + Z.of_nat (S n)) in E by lia; apply u64_neq in E; [done|lia]. }
  destruct (select_block po C block pre rs Hde) as (q & po1 & pre1 & rs1 & -> & Hs1 & Hq0 & HC & (free1 & Hp1) & Hk1); [lia|].
  assert (H / 32 <= C / 32) by (apply Z.div_le_mono; lia).
  destruct (Hst C) as (q' & b & Hq & Hbq & x & Hx & Hxi); [lia|].
  assert (q' = q) as ->.
  { replace (Z.to_nat (C / 32 - H / 32)) with (length pre1) in Hq by lia.
    rewrite Hs1, list_lookup_middle in Hq by done; congruence. }
  rewrite bind_Done; unfold load; rewrite Hk1 by set_solver; rewrite Hbq; cbn [deref].
  rewrite bind_Done, slot_u64, Hx; cbn [deref]; rewrite bind_Done, u64_add.
  set (b' := set_b_elements _ b); set (po2 := store q b' po1).
  assert (destroying po2 (C + 1) q pre1 (q :: rs1)) as Hde2.
  { split.
    - lia.
    - done.
    - right; replace (C + 1 - 1) with C by lia; eauto.
    - exists free1; eapply pool_inv_store; [set_solver|rewrite Hk1 by set_solver; exact Hbq|done|done].
    - intros i Hi; destruct (Hst i) as (r & br & Hr' & Hbr & y & Hxr & Hyi); [lia|].
      assert (C / 32 <= i / 32) by (apply Z.div_le_mono; lia).
      assert (r ∈ q :: rs1) as Hin.
      { rewrite Hs1, lookup_app_r in Hr' by lia; by eapply list_elem_of_lookup_2. }
      exists r; unfold po2; cbn [store set_blocks po_blocks]; destruct (decide (q = r)) as [<-|].
      + exists b'; rewrite lookup_insert_eq; split_all; try done; exists y; split; [|done].
        assert (br = b) as -> by congruence; pose proof (NoDup_lookup _ _ _ _ Hnd Hr' Hq) as E.
        cbn; rewrite lookup_delete_ne; [done|]; intros Em.
        pose proof (Z.div_mod i 32); pose proof (Z.div_mod C 32); lia.
      + exists br; rewrite lookup_insert_ne, Hk1 by (done || set_solver); split_all; try done; by exists y. }
  destruct (IH po2 (C + 1) q pre1 (q :: rs1) Hde2) as (po' & Hrun & Hk & Hres); [lia|].
  exists po'; rewrite Hrun, bind_Done; split.
  { rewrite (drop_S items x (Z.to_nat (C - H)) Hxi); by replace (Z.to_nat (C + 1 - H)) with (S (Z.to_nat (C - H))) by lia. }
  split.
  { intros r Hr'; rewrite Hk by done; unfold po2; cbn; rewrite lookup_insert_ne, Hk1; [done|set_solver|].
    intros ->; by eapply (pool_disjoint po1 free1 (r :: rs1) others r); [|set_solver|]. }
  right; destruct Hres as [[-> ->]|(pre' & q' & free' & _ & Hres)]; [|by exists pre', q', free'].
  exists pre1, q, free1; split; [done|].
  pose proof (io_count _ _ _ _ _ _ Hio) as Hc; rewrite Hs1, length_app in Hc; cbn [length] in Hc.
  replace (T + 31) with (C + 1 * 32) in Hc by lia; rewrite Z.div_add in Hc by lia.
  destruct rs1; [|cbn in Hc; lia]; split; [done|].
  eapply pool_inv_store; [set_solver|rewrite Hk1 by set_solver; exact Hbq|done|done].
Qed.
End destroy.

(** Every block of the producer goes back to the pool, once. *)
Lemma destroy_producer_ok {A} (po : pool A) p H T items ps others :
  fifo po p H T items ps others ->
  exists po' free', destroy_producer po p = Done (items, po') /\ pool_inv po' free' others /\ keeps others po po'.
Proof.
  intros [Ht Hh Ho Hlen Hb (h & c & Hio) Htb [free Hp] Hd]; unfold destroy_producer; rewrite Ht, Hh, u64_sub.
  pose proof (Z.div_mod (T + 31) 32); pose proof (Z.mod_pos_bound (T + 31) 32).
  rewrite (wrap_small 64 (T - H)) by (unfold in_u; lia).
  assert ((u64 H =? u64 T) = (H =? T)) as ->.
  { destruct (Z.eqb_spec H T) as [->|]; [by apply Z.eqb_refl|]; apply Z.eqb_neq.
    replace T with (H + (T - H)) by lia; apply u64_neq; lia. }
  rewrite clt_u64, slot_u64 by lia.
  assert ((H =? T) || (H <? T) = true) as -> by (destruct (Z.eqb_spec H T), (Z.ltb_spec H T); done || lia).
  cbn [check]; rewrite bind_Done.
  assert (destroying H T items ps others po H 0 [] ps) as Hde.
  { split; [lia|done|by left|by exists free|]; intros i Hi.
    assert (H / 32 <= i / 32) by (apply Z.div_le_mono; lia).
    assert (i / 32 < (T + 31) / 32).
    { assert (i / 32 <= (T - 1) / 32) by (apply Z.div_le_mono; lia).
      replace (T - 1) with (T + 31 + -1 * 32) in * by lia; rewrite Z.div_add in * by lia; lia. }
    pose proof (io_count _ _ _ _ _ _ Hio) as Hc.
    destruct (lookup_lt_is_Some_2 ps (Z.to_nat (i / 32 - H / 32))) as [q Hq]; [lia|].
    destruct (Hd _ _ Hq) as (b & Hbq & _ & Hel); exists q, b; split_all; try done.
    destruct (lookup_lt_is_Some_2 items (Z.to_nat (i - H))) as [x Hx]; [lia|]; exists x; by rewrite Hel by lia. }
  destruct (destroy_elements_ok p h c H T items ps others Hio (pool_nodup _ _ _ _ Hp) ltac:(lia) ltac:(lia)
    (Z.to_nat (T - H)) po H 0 [] ps Hde) as (po1 & -> & Hk1 & Hres); [lia|]; rewrite bind_Done, Z.sub_diag, drop_0.
  destruct Hres as [[Hn ->]|(pre & q & free1 & Hn0 & Hps & Hp1)].
  - assert (H = T) as -> by lia; rewrite Z.eqb_refl; cbn [negb orb]; pose proof (io_count _ _ _ _ _ _ Hio) as Hc.
    destruct (Z.eqb_spec (T mod 32) 0) as [Hm|Hm].
    + rewrite ceil_div in Hc by done; rewrite andb_false_r; destruct ps; [|cbn in Hc; lia]; by exists po, free.
    + rewrite ceil_div_ne in Hc by done; destruct ps as [|q [|]]; [cbn in Hc; lia| |cbn in Hc; lia].
      injection (Htb ltac:(done)) as Hq; rewrite <- Hq; pose proof (used_nonzero _ _ _ _ Hp) as [Hq0 _]%Forall_cons.
      destruct (Z.eqb_spec q 0); [done|]; cbn [negb andb].
      destruct (add_block_ok _ _ _ _ Hp) as (po' & -> & Hp' & Hk' & _); rewrite bind_Done; by exists po', (q :: free).
  - rewrite Hps, last_snoc in Htb; injection (Htb ltac:(by destruct pre)) as Hq; rewrite <- Hq.
    pose proof (used_nonzero _ _ _ _ Hp1) as [Hq0 _]%Forall_cons; destruct (Z.eqb_spec q 0); [done|].
    assert (negb (H =? T) = true) as ->.
    { apply negb_true_iff, Z.eqb_neq; lia. }
    cbn [negb andb orb]; destruct (add_block_ok _ _ _ _ Hp1) as (po' & -> & Hp' & Hk' & _).
    rewrite bind_Done; exists po', (q :: free1); split_all; try done; intros r Hr; rewrite Hk' by done; by apply Hk1.
Qed.

(** ** What is allocated *)

Section heap.
Context {A : Type}.
Implicit Types (po : pool A) (b : block A).

(** The same blocks, allocated in the same way, and the same array. *)
Definition same_heap po po' : Prop :=
  b_dynamicallyAllocated <$> po_blocks po' = b_dynamicallyAllocated <$> po_blocks po /\
  po_initialBlockPool po' = po_initialBlockPool po /\ po_initialBlockPoolSize po' = po_initialBlockPoolSize po /\ po_brk po' = po_brk po.

Lemma same_heap_refl po : same_heap po po.
Proof. done. Qed.
Lemma same_heap_store po p b b' :
  po_blocks po !! p = Some b -> b_dynamicallyAllocated b' = b_dynamicallyAllocated b -> same_heap po (store p b' po).
Proof.
  intros Hb Hd; split; [|done]; cbn; rewrite fmap_insert; apply insert_id; by rewrite lookup_fmap, Hb, Hd.
Qed.
Lemma same_heap_dom po po' : same_heap po po' -> dom (po_blocks po') = dom (po_blocks po).
Proof. intros [E _]; by rewrite <- (dom_fmap_L b_dynamicallyAllocated), E, dom_fmap_L. Qed.
Lemma same_heap_array po po' p : same_heap po po' -> in_array po' p = in_array po p.
Proof. intros (_ & E1 & E2 & _); unfold in_array; by rewrite E1, E2. Qed.
Lemma same_heap_trans po po1 po2 : same_heap po po1 -> same_heap po1 po2 -> same_heap po po2.
Proof. intros (? & ? & ? & ?) (? & ? & ? & ?); unfold same_heap; split_all; congruence. Qed.
Lemma load_Done po p b : load po p = Done b -> po_blocks po !! p = Some b.
Proof. unfold load; destruct (po_blocks po !! p); cbn; congruence. Qed.

Lemma add_block_heap p po po' : add_block_to_free_list p po = Done po' -> same_heap po po'.
Proof.
  unfold add_block_to_free_list, free_list_add; intros H.
  apply bind_Done_inv in H as (b & Hb%load_Done & H); cbv zeta in H.
  pose proof (same_heap_store po p b (set_b_refs (u32 (b_freeListRefs b + SHOULD_BE_ON_FREELIST)) b) Hb eq_refl) as H1.
  destruct (b_freeListRefs b =? 0); [|by injection H as <-].
  unfold add_knowing_refcount_is_zero in H; apply bind_Done_inv in H as (b' & Hb'%load_Done & H); injection H as <-.
  eapply same_heap_trans; [exact H1|]; by eapply (same_heap_store _ p b').
Qed.

Lemma destroy_elements_heap fuel : forall tail index block po p xs po',
  destroy_elements fuel tail index block po p = Done (xs, po') -> same_heap po po'.
Proof.
  induction fuel as [|fuel IH]; intros tail index blk po p xs po'; cbn [destroy_elements];
    (destruct (index =? tail); [by intros [= _ <-]|]); [done|]; intros H.
  apply bind_Done_inv in H as ([q po1] & Hsel & H); apply bind_Done_inv in H as (b & Hb%load_Done & H).
  apply bind_Done_inv in H as (x & _ & H); apply bind_Done_inv in H as ([ys po2] & H%IH & [= _ <-]).
  assert (same_heap po po1) as H1.
  { destruct (_ || _); [|by injection Hsel as <- <-]; apply bind_Done_inv in Hsel as (po3 & Hadd & Hsel).
    apply bind_Done_inv in Hsel as (id & _ & Hsel); apply bind_Done_inv in Hsel as (e & _ & [= <- <-]).
    destruct (negb (blk =? 0)); [by eapply add_block_heap|by injection Hadd as <-]. }
  eapply same_heap_trans; [exact H1|]; eapply same_heap_trans; [|exact H]; by apply (same_heap_store _ _ b).
Qed.

Lemma destroy_producer_heap po p xs po' : destroy_producer po p = Done (xs, po') -> same_heap po po'.
Proof.
  unfold destroy_producer; intros H; apply bind_Done_inv in H as (? & _ & H).
  apply bind_Done_inv in H as ([ys po1] & H1%destroy_elements_heap & H).
  apply bind_Done_inv in H as (po2 & H & [= _ <-]).
  destruct (_ && _); [apply add_block_heap in H; by eapply same_heap_trans|by injection H as <-].
Qed.

(** Every block is of the array or was allocated by itself, and says which. *)
Definition kinds_ok po : Prop := forall q b, po_blocks po !! q = Some b -> b_dynamicallyAllocated b = negb (in_array po q).
Lemma kinds_same po po' : same_heap po po' -> kinds_ok po -> kinds_ok po'.
Proof.
  intros Hs Hk q b' Hq; rewrite (same_heap_array _ _ _ Hs); destruct Hs as [E _].
  assert ((b_dynamicallyAllocated <$> po_blocks po') !! q = Some (b_dynamicallyAllocated b')) as E' by (by rewrite lookup_fmap, Hq).
  rewrite E, lookup_fmap in E'; destruct (po_blocks po !! q) as [b|] eqn:Hb; [|done]; injection E' as <-; by apply Hk.
Qed.

(** The blocks [freed], each once, have been freed, and no others. *)
Record retires po po' (freed : list Z) : Prop := {
  rt_dom : forall q, q ∈ dom (po_blocks po) <-> q ∈ freed \/ q ∈ dom (po_blocks po');
  rt_gone : forall q, q ∈ freed -> q ∉ dom (po_blocks po');
  rt_nodup : NoDup freed;
  rt_own : Forall (fun q => in_array po q = false) freed;
  rt_array : po_initialBlockPool po' = po_initialBlockPool po /\ po_initialBlockPoolSize po' = po_initialBlockPoolSize po;
  rt_brk : po_brk po' = po_brk po }.

Lemma retires_none po po' : same_heap po po' -> retires po po' [].
Proof.
  intros Hs; pose proof (same_heap_dom _ _ Hs) as Hd; destruct Hs as (_ & ? & ? & ?); split; try done.
  - intros q; rewrite Hd; split; [by right|by intros [?%elem_of_nil|]].
  - by intros q ?%elem_of_nil.
  - apply NoDup_nil_2.
Qed.
Lemma retires_trans po po1 po2 l1 l2 : retires po po1 l1 -> retires po1 po2 l2 -> retires po po2 (l1 ++ l2).
Proof.
  intros [D1 G1 N1 O1 [A1 S1] B1] [D2 G2 N2 O2 [A2 S2] B2].
  assert (forall q, q ∈ l2 -> q ∉ l1) as Hdis by (intros q Hq Hq1; apply (G1 q Hq1), D2; by left).
  split; [| | | |split; congruence|congruence].
  - intros q; rewrite D1, D2, elem_of_app; tauto.
  - intros q [Hq|Hq]%elem_of_app Hd; [apply (G1 q Hq), D2; by right|by apply (G2 q Hq)].
  - apply NoDup_app; split_all; try done; intros q Hq Hq2; by apply (Hdis q).
  - apply Forall_app; split; [done|]; eapply Forall_impl; [exact O2|]; intros q; unfold in_array; by rewrite A1, S1.
Qed.
Lemma retires_one po q b :
  kinds_ok po -> po_blocks po !! q = Some b -> b_dynamicallyAllocated b = true -> retires po (set_blocks (delete q (po_blocks po)) po) [q].
Proof.
  intros Hk Hb Hd; split; try done; cbn.
  - intros r; rewrite list_elem_of_singleton, dom_delete, elem_of_difference, elem_of_singleton; split.
    + intros Hr; destruct (decide (r = q)); auto.
    + intros [->|[? _]]; [by apply elem_of_dom_2 in Hb|done].
  - intros r ->%list_elem_of_singleton; rewrite dom_delete, elem_of_difference, elem_of_singleton; tauto.
  - apply NoDup_singleton.
  - apply Forall_singleton; rewrite (Hk q b Hb) in Hd; by apply negb_true_iff in Hd.
Qed.
Lemma kinds_delete po q : kinds_ok po -> kinds_ok (set_blocks (delete q (po_blocks po)) po).
Proof. intros Hk r b Hr; cbn in Hr; apply lookup_delete_Some in Hr as [_ Hb]; by apply Hk. Qed.
End heap.
