(* ===== verification/ExplicitProducer.v ===== *)
(** * Inside the concurrent queue: a producer with a token ([common/concurrentqueue.h])

    [ExplicitProducer] keeps its blocks for ever, in a ring that [next] links: the
    block after the tail block is the oldest.  Each block has a flag per slot that
    says whether its element has been dequeued; a block whose flags are all set is
    used again.  A circular index of pairs leads from an index to its block.
    Operations run one at a time, as in [ImplicitProducer.v].  The stack makes no
    tokens; [ExplicitFifo.v] has the proofs. *)

From S2P Require Import Prelude BlockPool ImplicitProducer.

Definition EXPLICIT_INITIAL_INDEX_SIZE : Z := 32.
Definition EXPLICIT_BLOCK_EMPTY_COUNTER_THRESHOLD : Z := 32.

(** [details::ceil_to_pow_2] on a [size_t]. *)
Definition or_shift (x n : Z) : Z := Z.lor x (Z.shiftr x n).
Definition ceil_to_pow_2 (x : Z) : Z :=
  let x := u64 (x - 1) in
  let x := or_shift (or_shift (or_shift x 1) 2) 4 in
  let x := fold_left (fun x i => or_shift x (Z.shiftl i 3)) [1; 2; 4] x in
  u64 (x + 1).

(** ** The flags of a block

    [BLOCK_SIZE <= EXPLICIT_BLOCK_EMPTY_COUNTER_THRESHOLD], so the explicit context
    uses the flags and not the counter. *)
Section flags.
Context {A : Type}.
Implicit Types (b : block A).

Fixpoint all_flags (fs : list bool) (n : nat) (i : nat) : run bool :=
  match n with
  | O => mret true
  | S n => f ← deref (fs !! i); if (f : bool) then all_flags fs n (S i) else mret false
  end.
Definition ex_is_empty b : run bool := all_flags (b_emptyFlags b) (Z.to_nat BLOCK_SIZE) 0.

(** The flag of index [i]. *)
Definition flag_of (i : Z) : Z := BLOCK_SIZE - 1 - slot i.
Definition raise_flag (j : Z) b : run (block A) :=
  f ← deref (b_emptyFlags b !! Z.to_nat j);
  _ ← check (negb f);
  mret (set_b_flags (<[Z.to_nat j := true]> (b_emptyFlags b)) b).
Definition ex_set_empty (i : Z) b : run (block A) := raise_flag (flag_of i) b.
Fixpoint raise_flags (count : nat) (j : Z) b : run (block A) :=
  match count with
  | O => mret b
  | S count => b ← raise_flag j b; raise_flags count (u64 (j + 1)) b
  end.
Definition ex_set_many_empty (i count : Z) b : run (block A) :=
  raise_flags (Z.to_nat count) (u64 (flag_of i - count + 1)) b.
Definition ex_set_all_empty b : block A := set_b_flags (replicate (Z.to_nat BLOCK_SIZE) true) b.
Definition ex_reset_empty b : block A := set_b_flags (replicate (Z.to_nat BLOCK_SIZE) false) b.
End flags.

(** ** The producer *)

Record ExplicitIndexEntry := { eie_base : Z; eie_block : Z }.
(** [eih_entries] has [None] where nothing has been written. *)
Record ExplicitIndexHeader := { eih_size : Z; eih_front : Z; eih_entries : list (option ExplicitIndexEntry) }.

(** [ep_headers] is the chain from [pr_blockIndexRaw]: its head is also what
    [blockIndex] points to, with the array [pr_blockIndexEntries]; no header is a
    null pointer. *)
Record ExplicitProducer := {
  ep_tailIndex : Z; ep_headIndex : Z; ep_dequeueOptimisticCount : Z; ep_dequeueOvercommit : Z; ep_tailBlock : Z;
  ep_headers : list ExplicitIndexHeader;
  ep_blockIndexSlotsUsed : Z; ep_blockIndexSize : Z; ep_blockIndexFront : Z }.

Definition set_ep_tailIndex (v : Z) (p : ExplicitProducer) : ExplicitProducer :=
  {| ep_tailIndex := v; ep_headIndex := ep_headIndex p; ep_dequeueOptimisticCount := ep_dequeueOptimisticCount p;
     ep_dequeueOvercommit := ep_dequeueOvercommit p; ep_tailBlock := ep_tailBlock p; ep_headers := ep_headers p;
     ep_blockIndexSlotsUsed := ep_blockIndexSlotsUsed p; ep_blockIndexSize := ep_blockIndexSize p;
     ep_blockIndexFront := ep_blockIndexFront p |}.
Definition set_ep_counts (head opt over : Z) (p : ExplicitProducer) : ExplicitProducer :=
  {| ep_tailIndex := ep_tailIndex p; ep_headIndex := head; ep_dequeueOptimisticCount := opt;
     ep_dequeueOvercommit := over; ep_tailBlock := ep_tailBlock p; ep_headers := ep_headers p;
     ep_blockIndexSlotsUsed := ep_blockIndexSlotsUsed p; ep_blockIndexSize := ep_blockIndexSize p;
     ep_blockIndexFront := ep_blockIndexFront p |}.
Definition set_ep_tailBlock (v : Z) (p : ExplicitProducer) : ExplicitProducer :=
  {| ep_tailIndex := ep_tailIndex p; ep_headIndex := ep_headIndex p;
     ep_dequeueOptimisticCount := ep_dequeueOptimisticCount p;
     ep_dequeueOvercommit := ep_dequeueOvercommit p; ep_tailBlock := v; ep_headers := ep_headers p;
     ep_blockIndexSlotsUsed := ep_blockIndexSlotsUsed p; ep_blockIndexSize := ep_blockIndexSize p;
     ep_blockIndexFront := ep_blockIndexFront p |}.
Definition set_ep_index (hs : list ExplicitIndexHeader) (used size front : Z) (p : ExplicitProducer)
  : ExplicitProducer :=
  {| ep_tailIndex := ep_tailIndex p; ep_headIndex := ep_headIndex p;
     ep_dequeueOptimisticCount := ep_dequeueOptimisticCount p;
     ep_dequeueOvercommit := ep_dequeueOvercommit p; ep_tailBlock := ep_tailBlock p; ep_headers := hs;
     ep_blockIndexSlotsUsed := used; ep_blockIndexSize := size; ep_blockIndexFront := front |}.
Definition set_ep_slots (used front : Z) (p : ExplicitProducer) : ExplicitProducer :=
  set_ep_index (ep_headers p) used (ep_blockIndexSize p) front p.

(** [i & (pr_blockIndexSize - 1)]. *)
Definition ex_ring (size i : Z) : Z := Z.land (u64 i) (u64 (size - 1)).

(** The loop that copies the old entries, oldest first, from [i] up to [front];
    there is [room] for that many. *)
Fixpoint ex_copy (room : nat) (old : list (option ExplicitIndexEntry)) (size front i : Z)
  : run (list (option ExplicitIndexEntry)) :=
  match room with
  | O => Undefined
  | S room =>
      e ← deref (old !! Z.to_nat i);
      let i := ex_ring size (i + 1) in
      if i =? front then mret [e]
      else rest ← ex_copy room old size front i; mret (e :: rest)
  end.

Section producer.
Context {A : Type}.
Implicit Types (po : pool A) (p : ExplicitProducer).

Definition ex_new_block_index (numberOfFilledSlotsToExpose : Z) po p : run (bool * pool A * ExplicitProducer) :=
  let size := ep_blockIndexSize p in
  let newSize := u64 (Z.shiftl size 1) in
  let '(ok, po) := malloc_ok po in
  if negb ok then mret (false, po, p)
  else
    copied ← (if negb (ep_blockIndexSlotsUsed p =? 0) then
                h ← deref (head (ep_headers p));
                ex_copy (Z.to_nat newSize) (eih_entries h) size (ep_blockIndexFront p)
                  (ex_ring size (ep_blockIndexFront p - ep_blockIndexSlotsUsed p))
              else mret []);
    let j := Z.of_nat (length copied) in
    let header := {| eih_size := newSize; eih_front := u64 (numberOfFilledSlotsToExpose - 1);
                     eih_entries := copied ++ replicate (Z.to_nat newSize - length copied) None |} in
    mret (true, po, set_ep_index (header :: ep_headers p) (ep_blockIndexSlotsUsed p) newSize j p).

(** The constructor; [initialBlockPoolSize] is the queue's. *)
Definition new_explicit_producer po : run (pool A * ExplicitProducer) :=
  let size := Z.shiftr EXPLICIT_INITIAL_INDEX_SIZE 1 in
  let poolBasedIndexSize := Z.shiftr (ceil_to_pow_2 (po_initialBlockPoolSize po)) 1 in
  '(_, po, p) ← ex_new_block_index 0 po
     {| ep_tailIndex := 0; ep_headIndex := 0; ep_dequeueOptimisticCount := 0; ep_dequeueOvercommit := 0;
        ep_tailBlock := 0; ep_headers := []; ep_blockIndexSlotsUsed := 0;
        ep_blockIndexSize := if size <? poolBasedIndexSize then poolBasedIndexSize else size;
        ep_blockIndexFront := 0 |};
  mret (po, p).

(** Writing the entry at [pr_blockIndexFront] for the tail block, and moving on. *)
Definition push_entry (base : Z) p : run ExplicitProducer :=
  h ← deref (head (ep_headers p));
  _ ← deref (eih_entries h !! Z.to_nat (ep_blockIndexFront p));
  let h := {| eih_size := eih_size h; eih_front := eih_front h;
              eih_entries := <[Z.to_nat (ep_blockIndexFront p) := Some {| eie_base := base; eie_block := ep_tailBlock p |}]>
                               (eih_entries h) |} in
  mret (set_ep_index (h :: tail (ep_headers p)) (ep_blockIndexSlotsUsed p) (ep_blockIndexSize p)
          (ex_ring (ep_blockIndexSize p) (ep_blockIndexFront p + 1)) p).
(** [blockIndex->front.store(...)]. *)
Definition publish_front (front : Z) p : run ExplicitProducer :=
  h ← deref (head (ep_headers p));
  mret (set_ep_index ({| eih_size := eih_size h; eih_front := front; eih_entries := eih_entries h |} :: tail (ep_headers p))
          (ep_blockIndexSlotsUsed p) (ep_blockIndexSize p) (ep_blockIndexFront p) p).

(** A new block after the tail block, which it becomes. *)
Definition link_ring (newBlock : Z) po p : run (pool A * ExplicitProducer) :=
  po ← (if ep_tailBlock p =? 0 then
          b ← load po newBlock; mret (store newBlock (set_b_next newBlock b) po)
        else
          tb ← load po (ep_tailBlock p);
          b ← load po newBlock;
          let po := store newBlock (set_b_next (b_next tb) b) po in
          tb ← load po (ep_tailBlock p);
          mret (store (ep_tailBlock p) (set_b_next newBlock tb) po));
  mret (po, set_ep_slots (u64 (ep_blockIndexSlotsUsed p + 1)) (ep_blockIndexFront p) (set_ep_tailBlock newBlock p)).

(** Whether the block after the tail block can be used again. *)
Definition next_is_empty po p : run bool :=
  if ep_tailBlock p =? 0 then mret false
  else tb ← load po (ep_tailBlock p); nb ← load po (b_next tb); ex_is_empty nb.

(** ** Enqueuing *)

(** A full index, or none, is replaced by one twice as large. *)
Definition make_room (canAlloc : bool) (numberOfFilledSlotsToExpose : Z) po p : run (bool * pool A * ExplicitProducer) :=
  if bool_decide (ep_headers p = []) || (ep_blockIndexSlotsUsed p =? ep_blockIndexSize p) then
    if negb canAlloc then mret (false, po, p) else ex_new_block_index numberOfFilledSlotsToExpose po p
  else mret (true, po, p).
Definition next_new (canAlloc : bool) po p : run (bool * pool A * ExplicitProducer) :=
  '(ok, po, p) ← make_room canAlloc (ep_blockIndexSlotsUsed p) po p;
  if negb (ok : bool) then mret (false, po, p)
  else
    '(newBlock, po) ← requisition_block canAlloc po;
    if newBlock =? 0 then mret (false, po, p)
    else
      b ← load po newBlock;
      '(po, p) ← link_ring newBlock (store newBlock (ex_reset_empty b) po) p;
      mret (true, po, p).

(** The start of a new block; [false] is an early return. *)
Definition next_block (canAlloc : bool) po p : run (bool * pool A * ExplicitProducer) :=
  let currentTailIndex := ep_tailIndex p in
  again ← next_is_empty po p;
  if (again : bool) then
    tb ← load po (ep_tailBlock p);
    nb ← load po (b_next tb);
    mret (true, store (b_next tb) (ex_reset_empty nb) po, set_ep_tailBlock (b_next tb) p)
  else
    let head := ep_headIndex p in
    _ ← check (negb (circular_less_than currentTailIndex head));
    if full currentTailIndex head then mret (false, po, p) else next_new canAlloc po p.

Definition ep_enqueue (canAlloc : bool) (x : A) po p : run (bool * pool A * ExplicitProducer) :=
  let currentTailIndex := ep_tailIndex p in
  let newTailIndex := u64 (1 + currentTailIndex) in
  '(ok, po, p) ←
    (if slot currentTailIndex =? 0 then
       '(ok, po, p) ← next_block canAlloc po p;
       if negb (ok : bool) then mret (false, po, p)
       else
         let front := ep_blockIndexFront p in
         p ← push_entry currentTailIndex p; p ← publish_front front p; mret (true, po, p)
     else mret (true, po, p));
  if negb (ok : bool) then mret (false, po, p)
  else
    b ← load po (ep_tailBlock p);
    mret (true, store (ep_tailBlock p)
                  (set_b_elements (<[slot currentTailIndex := x]> (b_elements b)) b) po,
          set_ep_tailIndex newTailIndex p).

(** ** Dequeuing *)

(** The entry that leads to [index]: its number, and the header.  The offset is
    divided as an unsigned number, as in [ImplicitProducer.v]. *)
Definition locate (index : Z) p : run (Z * ExplicitIndexHeader) :=
  h ← deref (head (ep_headers p));
  e ← deref (eih_entries h !! Z.to_nat (eih_front h)); e ← deref e;
  let offset := u64 (block_base index - eie_base e) / BLOCK_SIZE in
  mret (ex_ring (eih_size h) (eih_front h + offset), h).
Definition entry_at (h : ExplicitIndexHeader) (i : Z) : run ExplicitIndexEntry :=
  e ← deref (eih_entries h !! Z.to_nat i); deref e.

Definition ep_dequeue po p : run (option A * pool A * ExplicitProducer) :=
  let tail := ep_tailIndex p in
  let overcommit := ep_dequeueOvercommit p in
  let opt := ep_dequeueOptimisticCount p in
  if circular_less_than (u64 (opt - overcommit)) tail then
    let opt' := u64 (opt + 1) in
    if circular_less_than (u64 (opt - overcommit)) tail then
      let index := ep_headIndex p in
      let p := set_ep_counts (u64 (index + 1)) opt' overcommit p in
      '(i, h) ← locate index p; e ← entry_at h i;
      b ← load po (eie_block e);
      x ← deref (b_elements b !! slot index);
      b ← ex_set_empty index (set_b_elements (delete (slot index) (b_elements b)) b);
      mret (Some x, store (eie_block e) b po, p)
    else mret (None, po, set_ep_counts (ep_headIndex p) opt' (u64 (overcommit + 1)) p)
  else mret (None, po, p).

(** ** Bulk operations *)

(** Taking the empty blocks ahead: what is still to be had, the last base, the
    first block taken. *)
Fixpoint bulk_ahead (fuel : nat) (diff cur first : Z) po p : run (Z * Z * Z * ExplicitProducer) :=
  if (diff =? 0) || (ep_tailBlock p =? 0) then mret (diff, cur, first, p)
  else
    tb ← load po (ep_tailBlock p);
    if b_next tb =? first then mret (diff, cur, first, p)
    else
      nb ← load po (b_next tb);
      again ← ex_is_empty nb;
      if negb (again : bool) then mret (diff, cur, first, p)
      else
        match fuel with
        | O => Blocked
        | S fuel =>
            let cur := u64 (cur + BLOCK_SIZE) in
            p ← push_entry cur (set_ep_tailBlock (b_next tb) p);
            bulk_ahead fuel (u64 (diff - BLOCK_SIZE)) cur (if first =? 0 then b_next tb else first) po p
        end.

(** Undoing a bulk operation that failed; the blocks had stay in the ring. *)
Definition undo_bulk (startBlock front used first : Z) p : ExplicitProducer :=
  set_ep_tailBlock (if startBlock =? 0 then first else startBlock) (set_ep_slots used front p).

(** Allocating the rest: the first block of the operation, or [None] after undoing. *)
Fixpoint bulk_requisition (fuel : nat) (canAlloc : bool) (startBlock front used diff cur first : Z) po p
  : run (option Z * pool A * ExplicitProducer) :=
  if diff =? 0 then mret (Some first, po, p)
  else
    match fuel with
    | O => Blocked
    | S fuel =>
        let diff := u64 (diff - BLOCK_SIZE) in
        let cur := u64 (cur + BLOCK_SIZE) in
        let head := ep_headIndex p in
        _ ← check (negb (circular_less_than cur head));
        '(ok, front, po, p) ←
          (if bool_decide (ep_headers p = []) || (ep_blockIndexSlotsUsed p =? ep_blockIndexSize p) || full cur head
           then
             if negb canAlloc || full cur head then mret (false, front, po, p)
             else '(ok, po, p) ← ex_new_block_index used po p; mret (ok, (if (ok : bool) then used else front), po, p)
           else mret (true, front, po, p));
        if negb (ok : bool) then mret (None, po, undo_bulk startBlock front used first p)
        else
          '(newBlock, po) ← requisition_block canAlloc po;
          if newBlock =? 0 then mret (None, po, undo_bulk startBlock front used first p)
          else
            b ← load po newBlock;
            '(po, p) ← link_ring newBlock (store newBlock (ex_set_all_empty b) po) p;
            p ← push_entry cur p;
            bulk_requisition fuel canAlloc startBlock front used diff cur (if first =? 0 then newBlock else first) po p
    end.

(** [reset_empty] on the blocks of the operation, up to the tail block. *)
Fixpoint reset_blocks (fuel : nat) (block last : Z) po : run (pool A) :=
  match fuel with
  | O => Blocked
  | S fuel =>
      b ← load po block;
      let po := store block (ex_reset_empty b) po in
      if block =? last then mret po else reset_blocks fuel (b_next b) last po
  end.

Fixpoint ex_bulk_fill (fuel : nat) (newTailIndex endBlock cur : Z) (xs : list A) po p
  : run (pool A * ExplicitProducer) :=
  match fuel with
  | O => Blocked
  | S fuel =>
      let q := ep_tailBlock p in
      let stopIndex := stop_index cur newTailIndex in
      '(cur, xs, po) ←
        (if cur =? stopIndex then mret (cur, xs, po)
         else
           b ← load po q;
           '(cur, xs, b) ← fill_block (Z.to_nat BLOCK_SIZE) stopIndex cur xs b;
           mret (cur, xs, store q b po));
      if q =? endBlock then _ ← check (cur =? newTailIndex); mret (po, p)
      else
        b ← load po q; ex_bulk_fill fuel newTailIndex endBlock cur xs po (set_ep_tailBlock (b_next b) p)
  end.

(** The blocks for a bulk enqueue: the first one, 0 when none was needed. *)
Definition bulk_blocks (fuel : nat) (canAlloc : bool) (blockBaseDiff cur : Z) po p
  : run (option Z * pool A * ExplicitProducer) :=
  if blockBaseDiff =? 0 then mret (Some 0, po, p)
  else
    let startBlock := ep_tailBlock p in
    '(diff, cur, first, p') ← bulk_ahead fuel blockBaseDiff cur 0 po p;
    '(r, po, p) ← bulk_requisition fuel canAlloc startBlock (ep_blockIndexFront p) (ep_blockIndexSlotsUsed p)
                    diff cur first po p';
    match r with
    | None => mret (None, po, p)
    | Some first =>
        po ← reset_blocks fuel first (ep_tailBlock p) po;
        p ← publish_front (ex_ring (ep_blockIndexSize p) (ep_blockIndexFront p - 1)) p;
        mret (Some first, po, p)
    end.

Definition ep_enqueue_bulk (canAlloc : bool) (xs : list A) po p : run (bool * pool A * ExplicitProducer) :=
  let count := Z.of_nat (length xs) in
  let startTailIndex := ep_tailIndex p in
  let startBlock := ep_tailBlock p in
  let blockBaseDiff := u64 (block_base (u64 (startTailIndex + count - 1)) -
                            block_base (u64 (startTailIndex - 1))) in
  let fuel := S (Z.to_nat (blockBaseDiff / BLOCK_SIZE)) in
  '(r, po, p) ← bulk_blocks fuel canAlloc blockBaseDiff (block_base (u64 (startTailIndex - 1))) po p;
  match r with
  | None => mret (false, po, p)
  | Some first =>
      let newTailIndex := u64 (startTailIndex + count) in
      let endBlock := ep_tailBlock p in
      _ ← check (negb (slot startTailIndex =? 0) || negb (first =? 0) || (count =? 0));
      let p := set_ep_tailBlock (if (slot startTailIndex =? 0) && negb (first =? 0) then first
                                 else startBlock) p in
      '(po, p) ← ex_bulk_fill (S fuel) newTailIndex endBlock startTailIndex xs po p;
      mret (true, po, set_ep_tailIndex newTailIndex p)
  end.

(** [do ... while (index != firstIndex + actualCount)]. *)
Fixpoint ex_bulk_take (fuel : nat) (h : ExplicitIndexHeader) (last index indexIndex : Z) po
  : run (list A * pool A) :=
  match fuel with
  | O => Blocked
  | S fuel =>
      let endIndex := stop_index index last in
      e ← entry_at h indexIndex;
      b ← load po (eie_block e);
      '(xs, b) ← take_block (Z.to_nat BLOCK_SIZE) endIndex index b;
      b ← ex_set_many_empty index (u64 (endIndex - index)) b;
      let po := store (eie_block e) b po in
      if endIndex =? last then mret (xs, po)
      else
        '(ys, po) ← ex_bulk_take fuel h last endIndex (ex_ring (eih_size h) (indexIndex + 1)) po;
        mret (xs ++ ys, po)
  end.

Definition ep_dequeue_bulk (max : Z) po p : run (list A * pool A * ExplicitProducer) :=
  let tail := ep_tailIndex p in
  let overcommit := ep_dequeueOvercommit p in
  let opt := ep_dequeueOptimisticCount p in
  let desiredCount := u64 (tail - u64 (opt - overcommit)) in
  if circular_less_than 0 desiredCount then
    let desiredCount := if desiredCount <? max then desiredCount else max in
    let opt' := u64 (opt + desiredCount) in
    let actualCount := u64 (tail - u64 (opt - overcommit)) in
    if circular_less_than 0 actualCount then
      let actualCount := if desiredCount <? actualCount then desiredCount else actualCount in
      let over' := if actualCount <? desiredCount then u64 (overcommit + (desiredCount - actualCount))
                   else overcommit in
      let firstIndex := ep_headIndex p in
      let last := u64 (firstIndex + actualCount) in
      let p := set_ep_counts last opt' over' p in
      '(indexIndex, h) ← locate firstIndex p;
      '(xs, po) ← ex_bulk_take (S (Z.to_nat (actualCount / BLOCK_SIZE + 1))) h last firstIndex indexIndex po;
      mret (xs, po, p)
    else mret ([], po, set_ep_counts (ep_headIndex p) opt' (u64 (overcommit + desiredCount)) p)
  else mret ([], po, p).

(** ** The destructor *)

(** The entry of the block that is partially dequeued. *)
Fixpoint half_dequeued (fuel : nat) (h : ExplicitIndexHeader) (size headIndex i : Z) : run ExplicitIndexEntry :=
  e ← entry_at h i;
  if circular_less_than (u64 (eie_base e + BLOCK_SIZE)) headIndex then
    match fuel with O => Blocked | S fuel => half_dequeued fuel h size headIndex (ex_ring size (i + 1)) end
  else mret e.

(** Destroying the elements of one block, from slot [i] to slot [stop]; they are
    returned in this order. *)
Fixpoint destroy_slots (n : nat) (i : Z) b : run (list A * block A) :=
  match n with
  | O => mret ([], b)
  | S n =>
      x ← deref (b_elements b !! i);
      '(xs, b) ← destroy_slots n (i + 1) (set_b_elements (delete i (b_elements b)) b);
      mret (x :: xs, b)
  end.
(** The elements left in [block], none if it is empty. *)
Definition ex_destroy_block (half block : Z) po p : run (list A * pool A) :=
  b ← load po block;
  empty ← ex_is_empty b;
  if (empty : bool) then mret ([], po)
  else
    let i := if block =? half then slot (ep_headIndex p) else 0 in
    let stop := if (block =? ep_tailBlock p) && negb (slot (ep_tailIndex p) =? 0)
                then slot (ep_tailIndex p) else BLOCK_SIZE in
    '(xs, b) ← (if (block =? ep_tailBlock p) && (stop <? i)
         then destroy_slots (Z.to_nat (BLOCK_SIZE - i)) i b
         else destroy_slots (Z.to_nat (stop - i)) i b);
    mret (xs, store block b po).
(** [do ... while (block != this->tailBlock)]. *)
Fixpoint ex_destroy_elements (fuel : nat) (half : Z) (block : Z) po p : run (list A * pool A) :=
  match fuel with
  | O => Blocked
  | S fuel =>
      b ← load po block;
      let block := b_next b in
      '(xs, po) ← ex_destroy_block half block po p;
      if block =? ep_tailBlock p then mret (xs, po)
      else '(ys, po) ← ex_destroy_elements fuel half block po p; mret (xs ++ ys, po)
  end.

(** Destroying the blocks: those allocated one by one are freed, the others go to
    the free list. *)
Fixpoint ex_destroy_blocks (fuel : nat) (block : Z) po p : run (list Z * pool A) :=
  match fuel with
  | O => Blocked
  | S fuel =>
      b ← load po block;
      '(freed, po) ← (if b_dynamicallyAllocated b then mret ([block], set_blocks (delete block (po_blocks po)) po)
                      else po ← add_block_to_free_list block po; mret ([], po));
      if b_next b =? ep_tailBlock p then mret (freed, po)
      else '(rest, po) ← ex_destroy_blocks fuel (b_next b) po p; mret (freed ++ rest, po)
  end.

(** The elements destroyed, the blocks freed, and how many block indices. *)
Definition destroy_explicit po p : run (list A * list Z * nat * pool A) :=
  if ep_tailBlock p =? 0 then mret ([], [], length (ep_headers p), po)
  else
    half ← (if slot (ep_headIndex p) =? 0 then mret 0
            else
              h ← deref (head (ep_headers p));
              e ← half_dequeued (Z.to_nat (ep_blockIndexSize p)) h (ep_blockIndexSize p) (ep_headIndex p)
                    (ex_ring (ep_blockIndexSize p) (ep_blockIndexFront p - ep_blockIndexSlotsUsed p));
              _ ← check (circular_less_than (eie_base e) (ep_headIndex p));
              mret (eie_block e));
    let fuel := S (size (po_blocks po)) in
    '(xs, po) ← ex_destroy_elements fuel half (ep_tailBlock p) po p;
    '(freed, po) ← ex_destroy_blocks fuel (ep_tailBlock p) po p;
    mret (xs, freed, length (ep_headers p), po).
End producer.
