(* ===== verification/ExplicitFifo.v ===== *)
(** * Inside the concurrent queue: a producer with a token is a FIFO queue

    The invariant of [ExplicitProducer.v]: the ring of blocks, their flags, the
    circular index of pairs, and what enqueuing and dequeuing do to the sequence of
    elements, for every value of the 64-bit counters.  [ExplicitBulk.v] has the bulk
    operations. *)

From S2P Require Import Prelude BlockPool ImplicitProducer BlockIndex ProducerFifo ExplicitProducer.

(** ** Flags *)

(** The flags of block [k] when the indices below [H] have been dequeued. *)
Definition flags (H k : Z) : list bool := map (fun j => bool_decide (32 * k + 31 - j < H)) (seqZ 0 32).

Lemma flags_length H k : length (flags H k) = 32%nat.
Proof. unfold flags; by rewrite length_map, length_seqZ. Qed.
Lemma flags_lookup H k j :
  (j < 32)%nat -> flags H k !! j = Some (bool_decide (32 * k + 31 - Z.of_nat j < H)).
Proof.
  intros Hj; unfold flags; change (map ?f ?l) with (f <$> l); rewrite list_lookup_fmap, lookup_seqZ_lt by lia; cbn.
  do 3 f_equal; lia.
Qed.
Lemma flags_ext fs H k :
  length fs = 32%nat -> (forall j, (j < 32)%nat -> fs !! j = Some (bool_decide (32 * k + 31 - Z.of_nat j < H))) ->
  fs = flags H k.
Proof.
  intros Hl Hj; apply list_eq; intros j; destruct (decide (j < 32)%nat) as [Hlt|Hge].
  - by rewrite Hj, flags_lookup.
  - rewrite !lookup_ge_None_2; [done|rewrite flags_length; lia|lia].
Qed.

Lemma flags_done H k : 32 * k + 32 <= H -> flags H k = replicate 32 true.
Proof.
  intros Hk; symmetry; apply flags_ext; [done|]; intros j Hj; rewrite lookup_replicate_2 by done.
  f_equal; symmetry; apply bool_decide_eq_true; lia.
Qed.
Lemma flags_none H k : H <= 32 * k -> flags H k = replicate 32 false.
Proof.
  intros Hk; symmetry; apply flags_ext; [done|]; intros j Hj; rewrite lookup_replicate_2 by done.
  f_equal; symmetry; apply bool_decide_eq_false; lia.
Qed.
(** Dequeuing in another block. *)
Lemma flags_other H H' k : H <= H' -> (forall i, H <= i < H' -> i / 32 <> k) -> flags H' k = flags H k.
Proof.
  intros Hle Hi; apply flags_ext; [apply flags_length|]; intros j Hj; rewrite flags_lookup by done; f_equal.
  apply bool_decide_ext; split; [|lia]; intros Hlt; destruct (decide (32 * k + 31 - Z.of_nat j < H)); [done|].
  exfalso; apply (Hi (32 * k + 31 - Z.of_nat j)); [lia|].
  symmetry; apply Z.div_unique with (31 - Z.of_nat j); lia.
Qed.

Section flags.
Context {A : Type}.
Implicit Types (b : block A).

Lemma all_flags_spec fs n : forall i,
  (i + n <= length fs)%nat -> exists r, all_flags fs n i = Done r /\
    (r = true <-> forall j, (i <= j < i + n)%nat -> fs !! j = Some true).
Proof.
  induction n as [|n IH]; intros i Hl; cbn [all_flags].
  { exists true; split; [done|]; split; [|done]; intros _ j Hj; lia. }
  destruct (lookup_lt_is_Some_2 fs i ltac:(lia)) as [f Hf]; rewrite Hf; cbn [deref]; rewrite bind_Done.
  destruct f.
  - destruct (IH (S i) ltac:(lia)) as (r & Hr & Hiff); exists r; split; [done|]; rewrite Hiff; split.
    + intros Hall j Hj; destruct (decide (j = i)) as [->|]; [done|apply Hall; lia].
    + intros Hall j Hj; apply Hall; lia.
  - exists false; split; [done|]; split; [done|]; intros Hall; specialize (Hall i ltac:(lia)); congruence.
Qed.

Lemma ex_is_empty_flags b H k :
  b_emptyFlags b = flags H k -> ex_is_empty b = Done (bool_decide (32 * k + 32 <= H)).
Proof.
  intros Hb; unfold ex_is_empty; rewrite Hb; change (Z.to_nat BLOCK_SIZE) with 32%nat.
  destruct (all_flags_spec (flags H k) 32 0) as (r & -> & Hiff); [by rewrite flags_length|]; f_equal.
  destruct (decide (32 * k + 32 <= H)) as [Hle|Hgt].
  - rewrite bool_decide_true by done; apply Hiff; intros j Hj; rewrite flags_lookup by lia.
    f_equal; apply bool_decide_eq_true; lia.
  - rewrite bool_decide_false by done; destruct r; [|done]; exfalso.
    pose proof (proj1 Hiff eq_refl O ltac:(lia)) as H0; rewrite flags_lookup in H0 by lia.
    injection H0 as H0%bool_decide_eq_true; lia.
Qed.

(** Raising [count] flags from [j] on. *)
Lemma raise_flags_spec count : forall j b,
  length (b_emptyFlags b) = 32%nat -> 0 <= j -> j + Z.of_nat count <= 32 ->
  (forall i, (Z.to_nat j <= i < Z.to_nat j + count)%nat -> b_emptyFlags b !! i = Some false) ->
  exists fs, raise_flags count j b = Done (set_b_flags fs b) /\ length fs = 32%nat /\
    forall i, (i < 32)%nat ->
      fs !! i = if decide (Z.to_nat j <= i < Z.to_nat j + count)%nat then Some true else b_emptyFlags b !! i.
Proof.
  induction count as [|count IH]; intros j b Hl Hj Hle Hf; cbn [raise_flags].
  { exists (b_emptyFlags b); split; [by destruct b|]; split; [done|]; intros i Hi; rewrite decide_False by lia; done. }
  unfold raise_flag; rewrite (Hf (Z.to_nat j)) by lia; cbn [deref]; rewrite bind_Done; cbn [check negb].
  rewrite bind_Done; unfold mret at 1, run_ret; rewrite bind_Done, wrap_small by (unfold in_u; lia).
  destruct (IH (j + 1) (set_b_flags (<[Z.to_nat j := true]> (b_emptyFlags b)) b)) as (fs & -> & Hlen & Hfs);
    cbn [b_emptyFlags set_b_flags] in *; try lia.
  - by rewrite length_insert.
  - intros i Hi; rewrite list_lookup_insert_ne by lia; apply Hf; lia.
  - exists fs; split; [done|]; split; [done|]; intros i Hi; rewrite Hfs by done.
    destruct (decide (i = Z.to_nat j)) as [->|Hne].
    + rewrite decide_False, decide_True by lia; apply list_lookup_insert_eq; lia.
    + rewrite list_lookup_insert_ne by done; case_decide; [rewrite decide_True by lia|rewrite decide_False by lia]; done.
Qed.

(** Dequeuing [k] elements of one block raises their flags. *)
Lemma ex_set_many_empty_ok H k b :
  b_emptyFlags b = flags H (H / 32) -> 0 <= k -> H mod 32 + k <= 32 ->
  ex_set_many_empty (u64 H) k b = Done (set_b_flags (flags (H + k) (H / 32)) b).
Proof.
  intros Hb Hk Hle; pose proof (Z.div_mod H 32); pose proof (Z.mod_pos_bound H 32).
  unfold ex_set_many_empty, flag_of; rewrite slot_u64; change (BLOCK_SIZE - 1) with 31.
  rewrite wrap_small by (unfold in_u; lia).
  destruct (raise_flags_spec (Z.to_nat k) (31 - H mod 32 - k + 1) b) as (fs & -> & Hl & Hfs);
    rewrite ?Hb, ?flags_length; try lia.
  - intros i Hi; rewrite flags_lookup by lia; f_equal; apply bool_decide_eq_false; lia.
  - do 2 f_equal; apply flags_ext; [done|]; intros j Hj; rewrite Hfs, Hb by done; case_decide.
    + f_equal; symmetry; apply bool_decide_eq_true; lia.
    + rewrite flags_lookup by done; f_equal; apply bool_decide_ext; lia.
Qed.
Lemma ex_set_empty_ok H b :
  b_emptyFlags b = flags H (H / 32) ->
  ex_set_empty (u64 H) b = Done (set_b_flags (flags (H + 1) (H / 32)) b).
Proof.
  intros Hb; pose proof (Z.mod_pos_bound H 32); rewrite <- (ex_set_many_empty_ok H 1 b) by (done || lia).
  unfold ex_set_many_empty, ex_set_empty; replace (flag_of (u64 H) - 1 + 1) with (flag_of (u64 H)) by lia.
  rewrite (wrap_small 64 (flag_of _)).
  { change (Z.to_nat 1) with 1%nat; cbn [raise_flags]; by destruct (raise_flag _ b). }
  unfold flag_of; rewrite slot_u64; change (BLOCK_SIZE - 1) with 31; unfold in_u; lia.
Qed.
End flags.

(** ** The index *)

(** [kt] is the number of blocks ever started; the ring [bks], oldest block first,
    holds the last ones: block [m] of the ring has number [kt - length bks + m]. *)
Definition number (kt : Z) (bks : list Z) (m : nat) : Z := kt - Z.of_nat (length bks) + Z.of_nat m.
Definition entry_pos (p : ExplicitProducer) (c : Z) (bks : list Z) (m : nat) : nat :=
  Z.to_nat ((ep_blockIndexFront p - Z.of_nat (length bks) + Z.of_nat m) mod 2 ^ c).

Definition entries_ok (p : ExplicitProducer) (c kt : Z) (bks : list Z) (es : list (option ExplicitIndexEntry)) : Prop :=
  length es = Z.to_nat (2 ^ c) /\
  forall m q, bks !! m = Some q ->
    es !! entry_pos p c bks m = Some (Some {| eie_base := u64 (32 * number kt bks m); eie_block := q |}).

Record ex_index (p : ExplicitProducer) (c kt : Z) (bks : list Z) : Prop := {
  xi_size : ep_blockIndexSize p = 2 ^ c;
  xi_exp : 4 <= c <= 59;
  xi_front : 0 <= ep_blockIndexFront p < 2 ^ c;
  xi_fit : Z.of_nat (length bks) <= 2 ^ c;
  xi_header : match ep_headers p with
    | [] => bks = [] /\ c <= 58
    | h :: _ => eih_size h = 2 ^ c /\ entries_ok p c kt bks (eih_entries h)
    end }.

(** The header's front is the newest entry. *)
Definition published (p : ExplicitProducer) (c : Z) : Prop :=
  exists h hs, ep_headers p = h :: hs /\ eih_front h = (ep_blockIndexFront p - 1) mod 2 ^ c.

(** All but the index. *)
Definition same_rest (p p' : ExplicitProducer) : Prop :=
  ep_tailIndex p' = ep_tailIndex p /\ ep_headIndex p' = ep_headIndex p /\
  ep_dequeueOptimisticCount p' = ep_dequeueOptimisticCount p /\
  ep_dequeueOvercommit p' = ep_dequeueOvercommit p /\ ep_tailBlock p' = ep_tailBlock p.

Lemma ex_ring_mod c i : 0 <= c <= 63 -> ex_ring (2 ^ c) i = i mod 2 ^ c.
Proof.
  intros Hc; unfold ex_ring; assert (0 < 2 ^ c) by (apply Z.pow_pos_nonneg; lia).
  assert (2 ^ c <= 2 ^ 63) by (apply Z.pow_le_mono_r; lia).
  rewrite (wrap_small 64 (2 ^ c - 1)) by (unfold in_u; lia).
  replace (2 ^ c - 1) with (Z.ones c) by (rewrite Z.ones_equiv; lia); rewrite Z.land_ones by lia.
  unfold wrap; apply Z.mod_mod_divide; exists (2 ^ (64 - c)); rewrite <- Z.pow_add_r by lia; f_equal; lia.
Qed.

Lemma add_mod_59 a d c : 0 <= c <= 59 -> (a mod 2 ^ c + d mod 2 ^ 59) mod 2 ^ c = (a + d) mod 2 ^ c.
Proof.
  intros Hc; assert (0 < 2 ^ c) by (apply Z.pow_pos_nonneg; lia).
  rewrite Z.add_mod_idemp_l, <- Z.add_mod_idemp_r, Z.mod_mod_divide, Z.add_mod_idemp_r by (try lia; exists (2 ^ (59 - c)); rewrite <- Z.pow_add_r by lia; f_equal; lia).
  done.
Qed.

(** Distinct places of a window no larger than the ring. *)
Lemma mod_neq a b n : 0 < n -> 0 < b - a < n -> a mod n <> b mod n.
Proof.
  intros Hn Hd E; assert ((b - a) mod n = 0) as Hz by (rewrite Zminus_mod, E, Z.sub_diag; done).
  rewrite Z.mod_small in Hz; lia.
Qed.

Lemma number_drop kt bks d m : (d <= length bks)%nat -> number kt (drop d bks) m = number kt bks (d + m).
Proof. intros Hd; unfold number; rewrite length_drop; lia. Qed.
Lemma entry_pos_drop p c bks d m : (d <= length bks)%nat -> entry_pos p c (drop d bks) m = entry_pos p c bks (d + m).
Proof. intros Hd; unfold entry_pos; rewrite length_drop; do 2 f_equal; lia. Qed.

Section index.
Context (p : ExplicitProducer) (c kt : Z) (bks : list Z) (Hio : ex_index p c kt bks).

Lemma xi_pow : 16 <= 2 ^ c <= 2 ^ 59.
Proof using Hio.
  pose proof (xi_exp _ _ _ _ Hio) as Hc; split; [change 16 with (2 ^ 4)|]; apply Z.pow_le_mono_r; lia.
Qed.

Lemma ex_index_ext p' :
  ep_headers p' = ep_headers p -> ep_blockIndexSize p' = ep_blockIndexSize p ->
  ep_blockIndexFront p' = ep_blockIndexFront p -> ex_index p' c kt bks.
Proof using Hio.
  intros E1 E3 E4; destruct Hio as [Hs He Hf Hu Hh]; split; rewrite ?E1, ?E3, ?E4; try done.
  destruct (ep_headers p) as [|h hs]; [done|]; unfold entries_ok, entry_pos in *; by rewrite E4.
Qed.

(** The oldest blocks may be left out. *)
Lemma ex_index_drop d : (d <= length bks)%nat -> ex_index p c kt (drop d bks).
Proof using Hio.
  intros Hd; destruct Hio as [Hs He Hf Hu Hh]; split; try done; [rewrite length_drop; lia|].
  destruct (ep_headers p) as [|h hs]; [destruct Hh as [-> ?]; by destruct d|]; destruct Hh as (? & ? & Hent); split; [done|]; split; [done|].
  intros m q; rewrite lookup_drop, number_drop, entry_pos_drop by done; apply Hent.
Qed.

(** The entry that leads to a block of the ring. *)
Lemma locate_ok m q i :
  published p c -> bks !! m = Some q -> i / 32 = number kt bks m ->
  exists h, locate (u64 i) p = Done (Z.of_nat (entry_pos p c bks m), h) /\
    head (ep_headers p) = Some h /\ eih_size h = 2 ^ c /\
    entry_at h (Z.of_nat (entry_pos p c bks m)) = Done {| eie_base := u64 (32 * number kt bks m); eie_block := q |}.
Proof using Hio.
  intros (h & hs & Eh & Hfront) Hq Hi; pose proof xi_pow as Hpow; pose proof (lookup_lt_Some _ _ _ Hq) as Hlt.
  destruct Hio as [_ Hc Hf _ Hh]; rewrite Eh in Hh; destruct Hh as (Hsz & _ & Hent).
  exists h; rewrite Eh; split_all; [|done|done|unfold entry_at; rewrite Nat2Z.id, (Hent m q Hq); done].
  unfold locate; rewrite Eh; cbn [deref head]; rewrite bind_Done, Hfront.
  destruct (lookup_lt_is_Some_2 bks (length bks - 1)) as [ql Hql]; [lia|].
  assert (Z.to_nat ((ep_blockIndexFront p - 1) mod 2 ^ c) = entry_pos p c bks (length bks - 1)) as ->.
  { unfold entry_pos; do 2 f_equal; lia. }
  rewrite (Hent _ ql Hql); cbn [deref]; rewrite bind_Done; cbn [deref]; rewrite bind_Done; cbn [eie_base].
  rewrite block_base_u64, Hi, u64_sub; replace (32 * number kt bks m - 32 * number kt bks (length bks - 1))
    with (32 * (number kt bks m - number kt bks (length bks - 1))) by lia.
  change BLOCK_SIZE with 32; rewrite offset_mod, Hsz, ex_ring_mod, add_mod_59 by lia; unfold mret, run_ret; do 2 f_equal.
  unfold entry_pos, number; rewrite Z2Nat.id by (apply Z.mod_pos_bound; lia); f_equal; lia.
Qed.

(** Entering the tail block as block number [kt]. *)
Lemma push_entry_ok h hs :
  ep_headers p = h :: hs -> Z.of_nat (length bks) < 2 ^ c ->
  exists p', push_entry (u64 (32 * kt)) p = Done p' /\ same_rest p p' /\
    ep_blockIndexSlotsUsed p' = ep_blockIndexSlotsUsed p /\
    ep_blockIndexFront p' = (ep_blockIndexFront p + 1) mod 2 ^ c /\
    ep_headers p' <> [] /\ ex_index p' c (kt + 1) (bks ++ [ep_tailBlock p]).
Proof using Hio.
  intros Eh Hfit; pose proof xi_pow as Hpow; pose proof Hio as [Hsz He Hf _ Hh]; rewrite Eh in Hh.
  destruct Hh as (Hs & Hlen & Hent); unfold push_entry; rewrite Eh; cbn [head deref tail]; rewrite bind_Done.
  destruct (lookup_lt_is_Some_2 (eih_entries h) (Z.to_nat (ep_blockIndexFront p))) as [e Hlk]; [lia|].
  rewrite Hlk; cbn [deref]; rewrite bind_Done, Hsz, ex_ring_mod by lia; eexists; split; [reflexivity|].
  split; [done|]; split; [done|]; split; [done|]; split; [done|].
  pose proof (Z.mod_pos_bound (ep_blockIndexFront p + 1) (2 ^ c)).
  split; cbn; try done; [lia|rewrite length_app; cbn; lia|]; split; [done|]; split; [by rewrite length_insert|].
  assert (forall m, Z.to_nat (((ep_blockIndexFront p + 1) mod 2 ^ c - Z.of_nat (length (bks ++ [ep_tailBlock p])) + Z.of_nat m) mod 2 ^ c)
    = Z.to_nat ((ep_blockIndexFront p - Z.of_nat (length bks) + Z.of_nat m) mod 2 ^ c)) as Hpos.
  { intros m; rewrite length_app; cbn [length]; rewrite <- Z.add_sub_swap, <- Z.add_sub_assoc, Z.add_mod_idemp_l by lia.
    do 2 f_equal; lia. }
  intros m q Hq; unfold entry_pos; cbn; rewrite Hpos; apply lookup_app_Some in Hq as [Hq|[Hge Hq]].
  - apply lookup_lt_Some in Hq as Hlt; rewrite list_lookup_insert_ne.
    + fold (entry_pos p c bks m); rewrite (Hent m q Hq); unfold number; rewrite length_app; cbn [length]; do 4 f_equal; lia.
    + intros E; pose proof (mod_neq (ep_blockIndexFront p - Z.of_nat (length bks) + Z.of_nat m) (ep_blockIndexFront p) (2 ^ c)) as Hne.
      pose proof (Z.mod_pos_bound (ep_blockIndexFront p - Z.of_nat (length bks) + Z.of_nat m) (2 ^ c)).
      rewrite (Z.mod_small (ep_blockIndexFront p)) in Hne by lia; lia.
  - apply list_lookup_singleton_Some in Hq as [Hm <-]; assert (m = length bks) as -> by lia.
    replace (ep_blockIndexFront p - Z.of_nat (length bks) + Z.of_nat (length bks)) with (ep_blockIndexFront p) by lia.
    rewrite Z.mod_small by lia; rewrite list_lookup_insert_eq by lia; unfold number; rewrite length_app; cbn [length].
    do 4 f_equal; lia.
Qed.

Lemma publish_ok h hs :
  ep_headers p = h :: hs ->
  exists p', publish_front ((ep_blockIndexFront p - 1) mod 2 ^ c) p = Done p' /\ same_rest p p' /\
    ep_blockIndexSlotsUsed p' = ep_blockIndexSlotsUsed p /\ published p' c /\ ex_index p' c kt bks.
Proof using Hio.
  intros Eh; unfold publish_front; rewrite Eh; cbn [head deref tail]; rewrite bind_Done; eexists; split; [reflexivity|].
  split; [done|]; split; [done|]; split; [by eexists _, hs|].
  destruct Hio as [Hsz He Hf Hu Hh]; rewrite Eh in Hh; by split.
Qed.
End index.

(** Growing the index. *)
Lemma ex_copy_ok old c front : 0 <= c <= 59 -> length old = Z.to_nat (2 ^ c) -> 0 <= front < 2 ^ c ->
  forall k room, (0 < k)%nat -> Z.of_nat k <= 2 ^ c -> (k <= room)%nat ->
  exists l, ex_copy room old (2 ^ c) front ((front - Z.of_nat k) mod 2 ^ c) = Done l /\ length l = k /\
    forall j, (j < k)%nat -> l !! j = old !! Z.to_nat ((front - Z.of_nat k + Z.of_nat j) mod 2 ^ c).
Proof.
  intros Hc Hlen Hf k; induction k as [|k IH]; intros room Hk Hle Hroom; [lia|].
  destruct room as [|room]; [lia|]; cbn [ex_copy]; pose proof (Z.mod_pos_bound (front - Z.of_nat (S k)) (2 ^ c)).
  destruct (lookup_lt_is_Some_2 old (Z.to_nat ((front - Z.of_nat (S k)) mod 2 ^ c))) as [e He]; [lia|].
  rewrite He; cbn [deref]; rewrite bind_Done, ex_ring_mod, Z.add_mod_idemp_l by lia.
  replace (front - Z.of_nat (S k) + 1) with (front - Z.of_nat k) by lia.
  destruct (Z.eqb_spec ((front - Z.of_nat k) mod 2 ^ c) front) as [E|Hne].
  - assert (k = O) as ->.
    { destruct (decide (k = O)) as [|Hk0]; [done|]; exfalso.
      apply (mod_neq (front - Z.of_nat k) front (2 ^ c)); [lia|lia|]; by rewrite (Z.mod_small front) by lia. }
    exists [e]; split; [done|]; split; [done|]; intros [|j] Hj; [|lia]; by rewrite Z.add_0_r, He.
  - destruct (decide (k = O)) as [->|Hk0].
    { exfalso; apply Hne; rewrite Z.sub_0_r; by apply Z.mod_small. }
    destruct (IH room) as (l & -> & Hl & Hlk); [lia..|]; rewrite bind_Done; exists (e :: l); split; [done|].
    split; [cbn; lia|]; intros [|j] Hj; cbn [lookup list_lookup]; [by rewrite Z.add_0_r, He|].
    rewrite Hlk by lia; do 3 f_equal; lia.
Qed.

Section grow.
Context {A : Type}.
Implicit Types (po : pool A).

Lemma ex_new_block_index_ok n' po p c kt bks :
  ex_index p c kt bks -> ep_blockIndexSlotsUsed p = Z.of_nat (length bks) -> c <= 58 ->
  (bks = [] \/ Z.of_nat (length bks) = 2 ^ c) ->
  exists ok p', ex_new_block_index n' po p = Done (ok, (malloc_ok po).2, p') /\
    if (ok : bool) then
      same_rest p p' /\ ep_blockIndexSlotsUsed p' = ep_blockIndexSlotsUsed p /\ ex_index p' (c + 1) kt bks /\
      ep_blockIndexFront p' = Z.of_nat (length bks) /\
      exists h hs, ep_headers p' = h :: hs /\ eih_front h = u64 (n' - 1)
    else p' = p /\ po_mallocs po <> [].
Proof.
  intros Hio Hused Hc Hfull; pose proof (xi_pow _ _ _ _ Hio) as Hpow; pose proof Hio as [Hsz He Hf Hfit Hh].
  assert (2 ^ (c + 1) = 2 * 2 ^ c) as Hdbl by (rewrite Z.pow_add_r; lia).
  unfold ex_new_block_index, malloc_ok; cbn [fst snd]; destruct (default true (head (po_mallocs po))) eqn:Em; cbn [negb].
  2:{ exists false, p; split; [done|]; split; [done|]; intros E; rewrite E in Em; done. }
  assert (u64 (Z.shiftl (ep_blockIndexSize p) 1) = 2 ^ (c + 1)) as ->.
  { rewrite Hsz, Z.shiftl_mul_pow2, wrap_small by (unfold in_u; lia); lia. }
  assert (exists copied, (if negb (ep_blockIndexSlotsUsed p =? 0) then
      h ← deref (head (ep_headers p));
      ex_copy (Z.to_nat (2 ^ (c + 1))) (eih_entries h) (ep_blockIndexSize p) (ep_blockIndexFront p)
        (ex_ring (ep_blockIndexSize p) (ep_blockIndexFront p - ep_blockIndexSlotsUsed p)) else mret []) = Done copied /\
    length copied = length bks /\ forall m q, bks !! m = Some q ->
      copied !! m = Some (Some {| eie_base := u64 (32 * number kt bks m); eie_block := q |})) as (copied & -> & Hcl & Hce).
  { rewrite Hused; destruct (Z.eqb_spec (Z.of_nat (length bks)) 0) as [E|Hne]; cbn [negb].
    { exists []; destruct bks; [|done]; split; [done|]; split; [done|]; intros m q; by rewrite lookup_nil. }
    destruct (ep_headers p) as [|h hs]; [by destruct Hh as [-> _]|]; destruct Hh as (_ & Hlen & Hent); cbn [head deref].
    rewrite bind_Done, Hsz, ex_ring_mod by lia.
    destruct (ex_copy_ok (eih_entries h) c (ep_blockIndexFront p) ltac:(lia) Hlen Hf (length bks) (Z.to_nat (2 ^ (c + 1))))
      as (l & -> & Hl & Hlk); [lia..|]; exists l; split; [done|]; split; [done|]; intros m q Hq.
    rewrite Hlk by (by eapply lookup_lt_Some); by apply Hent. }
  rewrite bind_Done; eexists true, _; split; [reflexivity|]; split; [done|]; split; [done|].
  split; [|split; [cbn; lia|by eexists _, _]].
  split; cbn; try lia; split; [done|]; split; [rewrite length_app, length_replicate; lia|].
  intros m q Hq; apply lookup_lt_Some in Hq as Hlt; unfold entry_pos; cbn; rewrite Hcl.
  replace (Z.of_nat (length bks) - Z.of_nat (length bks) + Z.of_nat m) with (Z.of_nat m) by lia.
  rewrite Z.mod_small, Nat2Z.id by lia; rewrite lookup_app_l by lia; by apply Hce.
Qed.
End grow.

(** ** The ring and what is in it *)

Section data.
Context {A : Type}.
Implicit Types (po : pool A) (items : list A) (bks : list Z).

Definition succ_of bks (m : nat) : option Z := if decide (S m < length bks)%nat then bks !! S m else bks !! O.

(** A block is led to by the one before it; its flags are those of its number, all
    set when the number is [raw] or more; it holds its share of the elements. *)
Definition ex_data po (H T : Z) items (kt raw : Z) bks : Prop :=
  forall m q, bks !! m = Some q ->
    exists b, po_blocks po !! q = Some b /\ succ_of bks m = Some (b_next b) /\
      b_emptyFlags b = (if decide (number kt bks m < raw) then flags H (number kt bks m) else replicate 32 true) /\
      forall i, H <= i < T -> i / 32 = number kt bks m -> b_elements b !! (i mod 32) = items !! Z.to_nat (i - H).

Lemma ex_data_keeps po po' H T items kt raw bks :
  keeps bks po po' -> ex_data po H T items kt raw bks -> ex_data po' H T items kt raw bks.
Proof.
  intros Hk Hd m q Hq; destruct (Hd m q Hq) as (b & Hb & ?); exists b; split; [|done].
  rewrite Hk; [done|]; by eapply list_elem_of_lookup_2.
Qed.

(** The oldest block, all of whose elements are gone, becomes the newest. *)
Lemma ex_data_rotate po H T items kt raw q0 rest b0 :
  ex_data po H T items kt raw (q0 :: rest) -> po_blocks po !! q0 = Some b0 -> b_emptyFlags b0 = replicate 32 true ->
  raw <= kt -> T <= 32 * kt -> ex_data po H T items (kt + 1) raw (rest ++ [q0]).
Proof.
  intros Hd Hb0 Hf Hr HT m q Hq; assert (length (rest ++ [q0]) = length (q0 :: rest)) as Hl by (rewrite length_app; cbn; lia).
  apply lookup_lt_Some in Hq as Hlt; rewrite Hl in Hlt; unfold succ_of, number; rewrite Hl.
  apply lookup_app_Some in Hq as [Hq|[Hge Hq]].
  - apply lookup_lt_Some in Hq as Hltm; destruct (Hd (S m) q Hq) as (b & Hb & Hs & Hfl & Hel).
    exists b; unfold succ_of, number in *; cbn [length] in *.
    replace (kt + 1 - Z.of_nat (S (length rest)) + Z.of_nat m) with (kt - Z.of_nat (S (length rest)) + Z.of_nat (S m)) by lia.
    split; [done|]; split; [|done]; rewrite decide_True by lia.
    destruct (decide (S (S m) < S (length rest))%nat).
    + rewrite lookup_app_l by lia; done.
    + rewrite lookup_app_r by lia; cbn [lookup list_lookup] in Hs; by replace (S m - length rest)%nat with O by lia.
  - apply list_lookup_singleton_Some in Hq as [Hm <-]; assert (m = length rest) as -> by lia.
    destruct (Hd O q0 eq_refl) as (b & Hb & Hs & _); assert (b = b0) as -> by congruence; exists b0; split; [done|].
    unfold succ_of in Hs; cbn [length] in *; split; [|split].
    + rewrite decide_False by lia; destruct rest as [|q1 rest]; [done|]; rewrite decide_True in Hs by (cbn; lia); done.
    + rewrite decide_False by lia; done.
    + intros i Hi Hk; pose proof (Z.div_mod i 32); pose proof (Z.mod_pos_bound i 32); lia.
Qed.

(** Clearing the flags of block [raw]. *)
Lemma ex_data_reset po H T items kt raw bks m q b :
  ex_data po H T items kt raw bks -> NoDup bks -> bks !! m = Some q -> number kt bks m = raw ->
  po_blocks po !! q = Some b -> H <= 32 * raw ->
  ex_data (store q (ex_reset_empty b) po) H T items kt (raw + 1) bks.
Proof.
  intros Hd Hn Hq Hraw Hb HH m' q' Hq'; destruct (Hd m' q' Hq') as (b' & Hb' & Hs & Hf & Hel); cbn.
  destruct (decide (q = q')) as [<-|Hne].
  - pose proof (NoDup_lookup _ _ _ _ Hn Hq Hq') as <-; rewrite lookup_insert_eq; assert (b' = b) as -> by congruence.
    eexists; split; [done|]; split; [done|]; split; [|done]; rewrite decide_True by lia; cbn.
    by rewrite Hraw, flags_none.
  - rewrite lookup_insert_ne by done; exists b'; split; [done|]; split; [done|]; split; [|done].
    assert (m' <> m) by (intros ->; congruence); assert (number kt bks m' <> raw) by (rewrite <- Hraw; unfold number; lia).
    rewrite Hf; do 2 case_decide; try lia; done.
Qed.

(** Linking a new block. *)
Lemma link_first po p q b :
  ep_tailBlock p = 0 -> po_blocks po !! q = Some b ->
  link_ring q po p = Done (store q (set_b_next q b) po,
    set_ep_slots (u64 (ep_blockIndexSlotsUsed p + 1)) (ep_blockIndexFront p) (set_ep_tailBlock q p)).
Proof. intros E Hb; unfold link_ring, load; by rewrite E, Z.eqb_refl, Hb. Qed.
Lemma link_after po p q b tb :
  ep_tailBlock p <> 0 -> ep_tailBlock p <> q -> po_blocks po !! q = Some b -> po_blocks po !! ep_tailBlock p = Some tb ->
  link_ring q po p = Done (store (ep_tailBlock p) (set_b_next q tb) (store q (set_b_next (b_next tb) b) po),
    set_ep_slots (u64 (ep_blockIndexSlotsUsed p + 1)) (ep_blockIndexFront p) (set_ep_tailBlock q p)).
Proof.
  intros E Hne Hb Ht; unfold link_ring, load; destruct (Z.eqb_spec (ep_tailBlock p) 0); [done|].
  rewrite Ht; cbn [deref]; rewrite bind_Done, Hb; cbn [deref]; rewrite bind_Done; cbn [store set_blocks po_blocks].
  by rewrite lookup_insert_ne, Ht by done.
Qed.

(** The ring with [q] after [t]. *)
Lemma succ_snoc l t q m :
  (m < length (l ++ [t]))%nat ->
  succ_of ((l ++ [t]) ++ [q]) m = if decide (m = length l) then Some q else succ_of (l ++ [t]) m.
Proof.
  intros Hm; unfold succ_of; rewrite ?length_app in *; cbn [length] in *; rewrite decide_True by lia; case_decide.
  - rewrite lookup_app_r by (rewrite length_app; cbn; lia); rewrite length_app; cbn [length].
    by replace (S m - (length l + 1))%nat with O by lia.
  - rewrite decide_True by lia; apply lookup_app_l; rewrite length_app; cbn; lia.
Qed.
Lemma succ_last l t q : succ_of ((l ++ [t]) ++ [q]) (length (l ++ [t])) = (l ++ [t]) !! O.
Proof.
  unfold succ_of; rewrite decide_False by (rewrite (length_app (l ++ [t])); cbn; lia).
  by destruct l.
Qed.

Lemma ex_data_link po H T items kt raw raw' l t q b tb :
  ex_data po H T items kt raw (l ++ [t]) -> NoDup (q :: l ++ [t]) -> po_blocks po !! q = Some b ->
  po_blocks po !! t = Some tb ->
  b_emptyFlags b = (if decide (kt < raw') then flags H kt else replicate 32 true) ->
  (forall k, k < kt -> k < raw <-> k < raw') -> T <= 32 * kt ->
  ex_data (store t (set_b_next q tb) (store q (set_b_next (b_next tb) b) po)) H T items (kt + 1) raw' ((l ++ [t]) ++ [q]).
Proof.
  intros Hd Hn Hb Ht Hf Hraw HT m r Hr; apply NoDup_cons in Hn as [Hq Hn].
  assert (t <> q) as Htq by (intros ->; set_solver).
  assert (forall n, (n < length (l ++ [t]))%nat -> number (kt + 1) ((l ++ [t]) ++ [q]) n = number kt (l ++ [t]) n) as Hnum.
  { intros n _; unfold number; rewrite (length_app (l ++ [t])); cbn [length]; lia. }
  cbn; apply lookup_app_Some in Hr as [Hr|[Hge Hr]].
  - apply lookup_lt_Some in Hr as Hlt; destruct (Hd m r Hr) as (b' & Hb' & Hs & Hfl & Hel).
    rewrite succ_snoc, Hnum by done; assert (number kt (l ++ [t]) m < kt) as Hlk by (unfold number; lia).
    rewrite (decide_ext _ _ _ _ (Hraw _ Hlk)) in Hfl; assert (r <> q) by (intros ->; apply Hq; by eapply list_elem_of_lookup_2).
    destruct (decide (r = t)) as [->|Hrt].
    + rewrite lookup_insert_eq; assert (b' = tb) as -> by congruence; eexists; split; [done|].
      assert ((l ++ [t]) !! length l = Some t) as Hl by (by apply list_lookup_middle).
      pose proof (NoDup_lookup _ _ _ _ Hn Hr Hl) as ->; by rewrite decide_True.
    + rewrite !lookup_insert_ne by done; exists b'; split; [done|]; rewrite decide_False; [done|].
      intros ->; rewrite list_lookup_middle in Hr by done; congruence.
  - apply list_lookup_singleton_Some in Hr as [Hm <-]; assert (m = length (l ++ [t])) as -> by lia.
    rewrite lookup_insert_ne, lookup_insert_eq, succ_last by done; eexists; split; [done|]; cbn.
    assert (number (kt + 1) ((l ++ [t]) ++ [q]) (length (l ++ [t])) = kt) as ->.
    { unfold number; rewrite (length_app (l ++ [t])); cbn [length]; lia. }
    split; [|split; [done|]].
    + destruct (Hd (length l) t) as (b' & Hb' & Hs & _); [by apply list_lookup_middle|]; assert (b' = tb) as -> by congruence.
      unfold succ_of in Hs; by rewrite decide_False in Hs by (rewrite length_app; cbn; lia).
    + intros i Hi Hk; pose proof (Z.div_mod i 32); pose proof (Z.mod_pos_bound i 32); lia.
Qed.

Lemma link_ring_ok po p H T items kt raw raw' bks q b free others :
  ex_data po H T items kt raw bks -> ep_tailBlock p = default 0 (last bks) ->
  pool_inv po free (q :: bks ++ others) -> po_blocks po !! q = Some b ->
  b_emptyFlags b = (if decide (kt < raw') then flags H kt else replicate 32 true) ->
  (forall k, k < kt -> k < raw <-> k < raw') -> T <= 32 * kt ->
  exists po', link_ring q po p = Done (po', set_ep_slots (u64 (ep_blockIndexSlotsUsed p + 1)) (ep_blockIndexFront p)
      (set_ep_tailBlock q p)) /\
    ex_data po' H T items (kt + 1) raw' (bks ++ [q]) /\ pool_inv po' free (q :: bks ++ others) /\
    keeps others po po' /\ po_mallocs po' = po_mallocs po.
Proof.
  intros Hd Htb Hp Hb Hf Hraw HT; pose proof (pool_nodup po free (q :: bks) others Hp) as Hn.
  assert (forall r, r ∈ others -> r <> q) as Hoq.
  { intros r Hr ->; apply (pool_disjoint po free (q :: bks) others q Hp); [set_solver|done]. }
  destruct bks as [|t l _] using rev_ind.
  { rewrite (link_first po p q b) by done; eexists; split; [reflexivity|]; split; [|split; [|split; [|done]]].
    - intros [|m] r; [|done]; intros [= <-]; cbn; rewrite lookup_insert_eq; eexists; split; [done|].
      unfold number; cbn [length]; replace (kt + 1 - Z.of_nat 1 + Z.of_nat 0) with kt by lia.
      split; [done|]; split; [done|]; intros i Hi Hk; pose proof (Z.div_mod i 32); pose proof (Z.mod_pos_bound i 32); lia.
    - eapply pool_inv_store; [|done|by split|done]; set_solver.
    - intros r Hr; cbn; apply lookup_insert_ne; by apply not_eq_sym, Hoq. }
  rewrite last_snoc in Htb; cbn [default id] in Htb; destruct (Hd (length l) t) as (tb & Ht & _); [by apply list_lookup_middle|].
  pose proof (used_nonzero po free (q :: l ++ [t]) others Hp) as Hnz; apply Forall_cons in Hnz as [_ Hnz].
  apply Forall_app in Hnz as [_ Hnz]; apply Forall_cons in Hnz as [Hnz _].
  assert (t <> q) as Htq by (apply NoDup_cons in Hn as [Hn _]; intros ->; apply Hn; set_solver).
  rewrite (link_after po p q b tb) by (rewrite ?Htb; done); rewrite Htb; eexists; split; [reflexivity|].
  split; [by eapply ex_data_link|]; split; [|split; [|done]].
  - eapply (pool_inv_store _ _ _ t tb); [set_solver|cbn; by rewrite lookup_insert_ne|done|].
    eapply pool_inv_store; [set_solver|exact Hb|done|done].
  - intros r Hr; cbn; assert (r <> t).
    { intros ->; apply (pool_disjoint po free (q :: l ++ [t]) others t Hp); [set_solver|done]. }
    rewrite !lookup_insert_ne; [done|by apply not_eq_sym, Hoq|done].
Qed.

(** The elements of a block. *)
Lemma ex_data_take po H T items kt bks m q n b b' :
  ex_data po H T items kt kt bks -> NoDup bks -> bks !! m = Some q -> number kt bks m = H / 32 ->
  0 <= n -> H mod 32 + n <= 32 -> po_blocks po !! q = Some b ->
  b_emptyFlags b' = flags (H + n) (H / 32) -> b_next b' = b_next b ->
  (forall i, H + n <= i < T -> i / 32 = H / 32 -> b_elements b' !! (i mod 32) = b_elements b !! (i mod 32)) ->
  ex_data (store q b' po) (H + n) T (drop (Z.to_nat n) items) kt kt bks.
Proof.
  intros Hd Hnd Hq Hm Hn Hle Hb Hf Hnx He m' q' Hq'; destruct (Hd m' q' Hq') as (b1 & Hb1 & Hs & Hfl & Hel).
  assert (number kt bks m' < kt) as Hlt by (apply lookup_lt_Some in Hq'; unfold number; lia); rewrite decide_True in Hfl by done.
  assert (forall i, H + n <= i -> drop (Z.to_nat n) items !! Z.to_nat (i - (H + n)) = items !! Z.to_nat (i - H)) as Hdrop.
  { intros i Hi; rewrite lookup_drop; f_equal; lia. }
  cbn; destruct (decide (q = q')) as [<-|Hne].
  - pose proof (NoDup_lookup _ _ _ _ Hnd Hq Hq') as <-; rewrite lookup_insert_eq; assert (b1 = b) as -> by congruence.
    exists b'; split; [done|]; split; [by rewrite Hnx|]; split; [by rewrite decide_True, Hm by done|].
    intros i Hi Hk; rewrite Hdrop, He by (lia || congruence); apply Hel; lia.
  - rewrite lookup_insert_ne by done; exists b1; split; [done|]; split; [done|].
    assert (number kt bks m' <> H / 32) as Hnum.
    { intros E; apply Hne; assert (m' = m) as -> by (unfold number in *; lia); congruence. }
    split; [|intros i Hi Hk; rewrite Hdrop by lia; apply Hel; lia].
    rewrite decide_True, Hfl by done; symmetry; apply flags_other; [lia|]; intros i Hi E; apply Hnum; rewrite <- E.
    pose proof (Z.div_mod H 32); pose proof (Z.mod_pos_bound H 32); symmetry; apply Z.div_unique with (i - 32 * (H / 32)); lia.
Qed.

Lemma ex_data_write po H T items kt raw bks x m q b :
  ex_data po H T items kt raw bks -> NoDup bks -> T - H = Z.of_nat (length items) ->
  bks !! m = Some q -> number kt bks m = T / 32 -> po_blocks po !! q = Some b ->
  ex_data (store q (set_b_elements (<[T mod 32 := x]> (b_elements b)) b) po) H (T + 1) (items ++ [x]) kt raw bks.
Proof.
  intros Hd Hnd Hlen Hq Hm Hb m' q' Hq'; destruct (Hd m' q' Hq') as (b1 & Hb1 & Hs & Hfl & Hel).
  assert (forall i, H <= i < T -> (items ++ [x]) !! Z.to_nat (i - H) = items !! Z.to_nat (i - H)) as Hold.
  { intros i Hi; apply lookup_app_l; lia. }
  cbn; destruct (decide (q = q')) as [<-|Hne].
  - pose proof (NoDup_lookup _ _ _ _ Hnd Hq Hq') as <-; rewrite lookup_insert_eq; assert (b1 = b) as -> by congruence.
    eexists; split; [done|]; split; [done|]; split; [done|]; intros i Hi Hk; cbn.
    destruct (decide (i = T)) as [->|].
    + rewrite lookup_insert_eq, lookup_app_r by lia.
      by replace (Z.to_nat (T - H) - length items)%nat with 0%nat by lia.
    + pose proof (Z.div_mod i 32); pose proof (Z.div_mod T 32).
      rewrite lookup_insert_ne by lia; rewrite Hold by lia; apply Hel; lia.
  - rewrite lookup_insert_ne by done; exists b1; split; [done|]; split; [done|]; split; [done|].
    intros i Hi Hk; assert (m' <> m) by (intros ->; congruence).
    assert (i <> T) by (intros ->; unfold number in *; lia); rewrite Hold by lia; apply Hel; lia.
Qed.
End data.

(** ** The invariant *)

Section fifo.
Context {A : Type}.
Implicit Types (po : pool A) (p : ExplicitProducer) (items : list A) (bks : list Z).

(** What does not depend on the counters.  [kt] blocks have been started, those with
    numbers from [raw] on are marked as free. *)
Record ex_held po p (H T : Z) items (kt raw : Z) (bks others : list Z) : Prop := {
  ec_len : T - H = Z.of_nat (length items);
  ec_used : ep_blockIndexSlotsUsed p = Z.of_nat (length bks);
  ec_tailBlock : ep_tailBlock p = default 0 (last bks);
  ec_window : 32 * (kt - Z.of_nat (length bks)) <= H;
  ec_bound : 32 * kt - H < 2 ^ 63;
  ec_pool : exists free, pool_inv po free (bks ++ others);
  ec_data : ex_data po H T items kt raw bks }.
Definition ex_core po p (H T : Z) items (kt : Z) (bks others : list Z) : Prop := ex_held po p H T items kt kt bks others.

Definition ex_counters p (H T : Z) : Prop :=
  ep_tailIndex p = u64 T /\ ep_headIndex p = u64 H /\
  u64 (ep_dequeueOptimisticCount p - ep_dequeueOvercommit p) = u64 H.

(** [H] and [T] count the elements ever taken out and put in; [bks] is the ring of
    blocks, oldest first, and [others] the blocks of the other producers. *)
Record ex_fifo po p (H T : Z) items (bks others : list Z) : Prop := {
  ef_counters : ex_counters p H T;
  ef_index : exists c, ex_index p c ((T + 31) / 32) bks /\ (bks <> [] -> published p c);
  ef_core : ex_core po p H T items ((T + 31) / 32) bks others }.

(** No more blocks than addresses. *)
Lemma pool_count po free (bks others : list Z) :
  pool_inv po free (bks ++ others) -> Z.of_nat (length bks) < po_brk po.
Proof.
  intros Hp; pose proof (pool_nodup _ _ _ _ Hp) as Hn; pose proof (pi_brk _ _ _ Hp).
  assert (bks ⊆ seqZ 1 (po_brk po - 1)) as Hs.
  { intros q Hq; apply elem_of_seqZ; pose proof (pi_held _ _ _ Hp) as Hh; rewrite Forall_forall in Hh.
    destruct (Hh q) as (b & Hb & _); [set_solver|]; apply (pi_range _ _ _ Hp) in Hb; lia. }
  apply (NoDup_submseteq _ _ Hn), submseteq_length in Hs; rewrite length_seqZ in Hs; lia.
Qed.

Lemma started_mod T : T mod 32 = 0 -> (T + 31) / 32 = T / 32 /\ 32 * (T / 32) = T.
Proof. intros Hm; split; [by apply ceil_div|]; pose proof (Z.div_mod T 32); lia. Qed.

(** A new block has been put at the end of the ring and is not in the index yet. *)
Record ready po p (H T : Z) items (old : list Z) (q : Z) (others : list Z) : Prop := {
  rd_counters : ex_counters p H T;
  rd_index : exists c, ex_index p c (T / 32) old /\ ep_headers p <> [] /\ Z.of_nat (length old) < 2 ^ c;
  rd_core : ex_core po p H T items (T / 32 + 1) (old ++ [q]) others }.

Lemma number_last kt (l : list Z) q : number (kt + 1) (l ++ [q]) (length l) = kt.
Proof. unfold number; rewrite length_app; cbn [length]; lia. Qed.

(** Using the oldest block again. *)
Lemma reuse_ok po p H T items q0 rest others c b0 :
  T mod 32 = 0 -> ex_counters p H T -> ex_index p c (T / 32) (q0 :: rest) -> published p c ->
  ex_core po p H T items (T / 32) (q0 :: rest) others -> 32 * number (T / 32) (q0 :: rest) 0 + 32 <= H ->
  po_brk po <= 2 ^ 58 -> po_blocks po !! q0 = Some b0 ->
  ready (store q0 (ex_reset_empty b0) po) (set_ep_tailBlock q0 p) H T items rest q0 others.
Proof.
  intros Hm Hc Hio (h & hs & Eh & _) [Hlen Hu Htb Hw Hb (free & Hp) Hd] Hold Hbrk Hb0.
  pose proof (pool_count _ _ _ _ Hp) as Hcnt; pose proof (pool_nodup _ _ _ _ Hp) as Hn; apply NoDup_cons in Hn as [Hn0 Hn].
  destruct (started_mod T Hm) as [_ HT]; unfold number in Hold; cbn [length] in *; split; [done|exists c; split|split].
  - apply (ex_index_ext p); try done; by apply (ex_index_drop p c (T / 32) (q0 :: rest) Hio 1%nat ltac:(cbn; lia)).
  - cbn; split; [by rewrite Eh|]; pose proof (xi_fit _ _ _ _ Hio); cbn [length] in *; lia.
  - done.
  - cbn; rewrite Hu, length_app; cbn [length]; lia.
  - by rewrite last_snoc.
  - rewrite length_app; cbn [length]; lia.
  - lia.
  - exists free; eapply pool_inv_store; [set_solver|exact Hb0|done|].
    eapply pool_inv_perm; [|exact Hp]; by rewrite (Permutation_app_comm rest).
  - destruct (Hd O q0 eq_refl) as (b & Hb' & Hs & Hf & He); assert (b = b0) as -> by congruence.
    rewrite decide_True in Hf by (unfold number; cbn [length]; lia).
    assert (b_emptyFlags b0 = replicate 32 true) as Hf0 by (rewrite Hf; apply flags_done; unfold number; cbn [length]; lia).
    apply (ex_data_reset _ _ _ _ _ _ _ (length rest)); [|rewrite <- Permutation_cons_append; by apply NoDup_cons|by apply list_lookup_middle|apply number_last|done|lia].
    by apply (ex_data_rotate _ _ _ _ _ _ _ _ b0); [..|lia].
Qed.

(** Whether the block after the tail block is free. *)
Lemma next_is_empty_ok po p H T items kt bks others :
  ex_core po p H T items kt bks others ->
  match bks with
  | [] => ep_tailBlock p = 0 /\ next_is_empty po p = Done false
  | q0 :: _ => exists tb b0, ep_tailBlock p <> 0 /\ po_blocks po !! ep_tailBlock p = Some tb /\ b_next tb = q0 /\
      po_blocks po !! q0 = Some b0 /\ next_is_empty po p = Done (bool_decide (32 * number kt bks 0 + 32 <= H))
  end.
Proof.
  intros [_ _ Htb _ _ (free & Hp) Hd]; unfold next_is_empty; destruct bks as [|q0 rest]; [by rewrite Htb|].
  destruct (@last_is_Some _ (q0 :: rest)) as [_ [t Ht]]; [done|]; rewrite Ht in Htb; cbn [default id] in Htb.
  rewrite last_lookup in Ht; pose proof (lookup_lt_Some _ _ _ Ht) as Hlt.
  destruct (Hd _ t Ht) as (tb & Htbk & Hs & _); destruct (Hd O q0 eq_refl) as (b0 & Hb0 & _ & Hf0 & _).
  rewrite decide_True in Hf0 by (unfold number; cbn [length]; lia).
  unfold succ_of in Hs; rewrite decide_False in Hs by (cbn [length Nat.pred] in *; lia); injection Hs as Hs.
  pose proof (used_nonzero _ _ _ _ Hp) as Hnz; rewrite Forall_lookup in Hnz; pose proof (Hnz _ _ Ht).
  exists tb, b0; rewrite Htb; destruct (Z.eqb_spec t 0); [done|]; unfold load; rewrite Htbk; cbn [deref].
  rewrite bind_Done, <- Hs, Hb0; cbn [deref]; rewrite bind_Done; split_all; try done; by apply ex_is_empty_flags.
Qed.

(** Making room in the index. *)
Lemma same_rest_refl p : same_rest p p.
Proof. by split_all. Qed.

Lemma make_room_ok canAlloc n' po p c kt bks :
  ex_index p c kt bks -> ep_blockIndexSlotsUsed p = Z.of_nat (length bks) -> (Z.of_nat (length bks) = 2 ^ c -> c <= 58) ->
  exists ok po' p', make_room canAlloc n' po p = Done (ok, po', p') /\ (po' = po \/ po' = (malloc_ok po).2) /\
    if ok then same_rest p p' /\ ep_blockIndexSlotsUsed p' = ep_blockIndexSlotsUsed p /\
      exists c', ex_index p' c' kt bks /\ ep_headers p' <> [] /\ Z.of_nat (length bks) < 2 ^ c' /\
        (p' = p /\ c' = c \/ ep_blockIndexFront p' = Z.of_nat (length bks) /\
                             exists h hs, ep_headers p' = h :: hs /\ eih_front h = u64 (n' - 1))
    else p' = p /\ (canAlloc = true -> po_mallocs po <> []).
Proof.
  intros Hio Hu Hc; pose proof (xi_pow _ _ _ _ Hio) as Hpow; pose proof Hio as [Hsz He Hf Hfit Hh]; unfold make_room.
  rewrite Hu, Hsz; case_bool_decide as Hnil; [|destruct (Z.eqb_spec (Z.of_nat (length bks)) (2 ^ c)) as [E|Hne]]; cbn [orb].
  3:{ exists true, po, p; split; [done|]; split; [by left|]; split; [apply same_rest_refl|]; split; [done|].
      exists c; split; [done|]; split; [done|]; split; [lia|by left]. }
  1-2: destruct canAlloc; cbn [negb]; [|exists false, po, p; split_all; try done; by left].
  1-2: destruct (ex_new_block_index_ok n' po p c kt bks Hio Hu) as (ok & p' & -> & Hok);
    [rewrite ?Hnil in Hh; (by apply Hh) || by apply Hc|rewrite ?Hnil in Hh; (by left; apply Hh) || by right|].
  1-2: exists ok, (malloc_ok po).2, p'; split; [done|]; split; [by right|]; destruct ok; [|by destruct Hok].
  1-2: destruct Hok as (Hs & Hu' & Hio' & Hf' & h & hs & Eh & Hfr); split; [done|]; split; [by rewrite Hu', Hu|].
  1-2: exists (c + 1); split; [done|]; split; [by rewrite Eh|]; rewrite Z.pow_add_r by lia; split; [lia|right].
  1-2: split; [done|by exists h, hs].
Qed.

Lemma ex_core_rest po po' p p' H T items kt bks others :
  ex_core po p H T items kt bks others -> same_rest p p' -> ep_blockIndexSlotsUsed p' = ep_blockIndexSlotsUsed p ->
  po_blocks po' = po_blocks po -> (forall free, pool_inv po free (bks ++ others) -> exists free', pool_inv po' free' (bks ++ others)) ->
  ex_core po' p' H T items kt bks others.
Proof.
  intros [Hlen Hu Htb Hw Hb (free & Hp) Hd] (_ & _ & _ & _ & E) Eu Eb Hinv; split; rewrite ?E, ?Eu; try done; [by eapply Hinv|].
  intros m q Hq; destruct (Hd m q Hq) as (b & Hb' & ?); exists b; by rewrite Eb.
Qed.

(** Getting a new block. *)
Lemma take_new_ok po0 po p H T items bks others c q b free :
  T mod 32 = 0 -> ex_counters p H T -> ex_index p c (T / 32) bks -> ep_headers p <> [] -> Z.of_nat (length bks) < 2 ^ c ->
  ex_core po0 p H T items (T / 32) bks others -> keeps bks po0 po -> T + 32 - H < 2 ^ 63 ->
  pool_inv po free (q :: bks ++ others) -> po_blocks po !! q = Some b ->
  exists po' p', link_ring q (store q (ex_reset_empty b) po) p = Done (po', p') /\ ready po' p' H T items bks q others /\
    keeps others po po' /\ po_mallocs po' = po_mallocs po.
Proof.
  intros Hm Hc Hio Hne Hr [Hlen Hu Htb Hw Hb _ Hd] Hks Hfull Hp Hbq; apply (ex_data_keeps _ _ _ _ _ _ _ _ Hks) in Hd; destruct (started_mod T Hm) as [_ HT].
  pose proof (pool_nodup po free (q :: bks) others Hp) as Hn; apply NoDup_cons in Hn as [Hq Hn].
  destruct (link_ring_ok (store q (ex_reset_empty b) po) p H T items (T / 32) (T / 32) (T / 32 + 1) bks q (ex_reset_empty b) free others)
    as (po' & Hrun & Hd' & Hp' & Hk' & Hml').
  - eapply ex_data_keeps; [|exact Hd]; intros r Hr'; cbn; apply lookup_insert_ne; by intros ->.
  - done.
  - eapply pool_inv_store; [set_solver|exact Hbq|done|done].
  - cbn; by rewrite lookup_insert_eq.
  - rewrite decide_True by lia; cbn; symmetry; change (Z.to_nat BLOCK_SIZE) with 32%nat; apply flags_none; lia.
  - intros k Hk; lia.
  - lia.
  - eexists po', _; split; [exact Hrun|]; split; [split|split; [|done]].
    + done.
    + exists c; split; [by apply (ex_index_ext p)|done].
    + pose proof (xi_fit _ _ _ _ Hio); pose proof (xi_pow _ _ _ _ Hio); split; cbn.
      * done.
      * rewrite Hu, length_app; cbn [length]; rewrite wrap_small by (unfold in_u; lia); lia.
      * by rewrite last_snoc.
      * rewrite length_app; cbn [length]; lia.
      * lia.
      * exists free; eapply pool_inv_perm; [|exact Hp']; rewrite <- app_assoc; apply Permutation_middle.
      * done.
    + intros r Hr'; rewrite Hk' by done; cbn; apply lookup_insert_ne; intros ->.
      apply (pool_disjoint po free (r :: bks) others r Hp); [set_solver|done].
Qed.

(** The index has the largest size only when the limit on the elements is near. *)
Lemma room_to_double H kt bks c :
  4 <= c -> 32 * (kt + 1) - H < 2 ^ 63 -> H < 32 * number kt bks 0 + 32 -> Z.of_nat (length bks) = 2 ^ c -> c <= 58.
Proof. intros Hc Hb Hold E; unfold number in Hold; apply (Z.pow_le_mono_r_iff 2); lia. Qed.

(** Getting a new block when none can be used again. *)
Lemma next_new_ok canAlloc po p H T items bks others c :
  T mod 32 = 0 -> ex_counters p H T -> ex_index p c (T / 32) bks -> (bks <> [] -> published p c) ->
  ex_core po p H T items (T / 32) bks others -> (bks <> [] -> H < 32 * number (T / 32) bks 0 + 32) ->
  T + 32 - H < 2 ^ 63 ->
  exists ok po' p', next_new canAlloc po p = Done (ok, po', p') /\
    keeps others po po' /\ (po_mallocs po = [] -> po_mallocs po' = []) /\
    if ok then exists old q, ready po' p' H T items old q others
    else ex_fifo po' p' H T items bks others /\ (canAlloc = false \/ po_mallocs po <> []).
Proof.
  intros Hm Hc Hio Hpub Hco Hold Hfull; destruct (started_mod T Hm) as [Hkt HT].
  pose proof Hco as [Hlen Hu _ _ _ (free & Hp) _]; unfold next_new.
  destruct (make_room_ok canAlloc (ep_blockIndexSlotsUsed p) po p c (T / 32) bks Hio Hu) as (ok & po1 & p1 & -> & Hpo1 & Hroom).
  { intros E; apply (room_to_double H (T / 32) bks); [apply Hio|lia| |done]; apply Hold; intros ->; cbn in E.
    pose proof (xi_pow _ _ _ _ Hio); lia. }
  rewrite bind_Done; assert (pool_inv po1 free (bks ++ others) /\ po_blocks po1 = po_blocks po /\
    (po_mallocs po = [] -> po_mallocs po1 = [])) as (Hp1 & Hb1 & Hm1).
  { destruct Hpo1 as [->| ->]; [done|]; split; [by apply pool_inv_malloc|]; split; [done|]; cbn; by intros ->. }
  assert (keeps others po po1) as Hk1 by (intros r _; by rewrite Hb1).
  destruct ok; cbn [negb].
  2:{ destruct Hroom as [-> Hca]; exists false, po1, p; split; [done|]; split; [done|]; split; [done|].
      split; [|destruct canAlloc; [right; auto|by left]]; split; rewrite ?Hkt; [done|by exists c|].
      apply (ex_core_rest po po1 p p); try done; by exists free. }
  destruct Hroom as (Hs1 & Hu1 & c1 & Hio1 & Hne1 & Hr1 & Hfront).
  assert (ex_counters p1 H T) as Hc1 by (destruct Hs1 as (E1 & E2 & E3 & E4 & _); unfold ex_counters; by rewrite E1, E2, E3, E4).
  destruct (requisition_ok canAlloc po1 free (bks ++ others) Hp1) as (q & po2 & -> & Hm2 & Hq); rewrite bind_Done.
  destruct Hq as [(-> & Hp2 & Hk2 & Hca)|(Hnz & (free2 & Hp2) & Hk2)].
  - rewrite Z.eqb_refl; exists false, po2, p1; split; [done|]; split; [|split; [auto|split]].
    + intros r Hr; rewrite Hk2 by set_solver; by apply Hk1.
    + split; rewrite ?Hkt; [done| |].
      * exists c1; split; [done|]; intros Hbne; destruct Hfront as [[-> ->]|(Ef & h & hs & Eh & Eh')]; [by apply Hpub|].
        exists h, hs; split; [done|]; rewrite Eh', Ef, Hu; destruct bks as [|q0 rest]; [done|]; cbn [length] in *.
        pose proof (xi_pow _ _ _ _ Hio1); rewrite (Z.mod_small _ (2 ^ c1)) by lia; rewrite wrap_small by (unfold in_u; lia); done.
      * destruct Hco as [? ? ? ? ? ? Hd]; destruct Hs1 as (_ & _ & _ & _ & Etb); split; rewrite ?Etb, ?Hu1; try done; [by exists free|].
        apply (ex_data_keeps po); [|done]; intros r Hr; rewrite Hk2 by set_solver; by rewrite Hb1.
    + destruct canAlloc; [right|by left]; specialize (Hca eq_refl); intros Hnil; by apply Hca, Hm1.
  - destruct (Z.eqb_spec q 0); [done|].
    assert (exists b, po_blocks po2 !! q = Some b) as (b & Hbq).
    { pose proof (pi_held _ _ _ Hp2) as Hh; cbn [app] in Hh; apply Forall_cons in Hh as [(b & ? & _) _]; by exists b. }
    unfold load at 1; rewrite Hbq; cbn [deref]; rewrite bind_Done.
    destruct (take_new_ok po po2 p1 H T items bks others c1 q b free2) as (po3 & p3 & -> & Hrd & Hk3 & Hm3); try done.
    { destruct Hco as [? ? ? ? ? ? Hd]; destruct Hs1 as (_ & _ & _ & _ & Etb); split; rewrite ?Etb, ?Hu1; try done; by exists free. }
    { intros r Hr; rewrite Hk2 by set_solver; by rewrite Hb1. }
    rewrite bind_Done; exists true, po3, p3; split; [done|]; split; [|split; [rewrite Hm3; auto|by exists bks, q]].
    intros r Hr; rewrite Hk3 by done; rewrite Hk2 by set_solver; by apply Hk1.
Qed.

Lemma next_block_ok canAlloc po p H T items bks others :
  T mod 32 = 0 -> ex_fifo po p H T items bks others -> po_brk po <= 2 ^ 58 ->
  exists ok po' p', next_block canAlloc po p = Done (ok, po', p') /\
    keeps others po po' /\ (po_mallocs po = [] -> po_mallocs po' = []) /\
    if ok then exists old q, ready po' p' H T items old q others
    else ex_fifo po' p' H T items bks others /\ may_fail canAlloc (2 ^ 63 - 1 - (T - H)) po.
Proof.
  intros Hm Hf Hbrk; pose proof Hf as [Hc (c & Hio & Hpub) Hco]; destruct (started_mod T Hm) as [Hkt HT].
  rewrite Hkt in *; pose proof (next_is_empty_ok _ _ _ _ _ _ _ _ Hco) as Hne; pose proof Hco as [Hlen _ _ _ Hb (free & Hp) _].
  assert (forall b : bool, next_is_empty po p = Done b -> (b = true -> exists q0 rest, bks = q0 :: rest /\ 32 * number (T / 32) bks 0 + 32 <= H) ->
    (b = false -> bks <> [] -> H < 32 * number (T / 32) bks 0 + 32) ->
    exists ok po' p', next_block canAlloc po p = Done (ok, po', p') /\
    keeps others po po' /\ (po_mallocs po = [] -> po_mallocs po' = []) /\
    if ok then exists old q, ready po' p' H T items old q others
    else ex_fifo po' p' H T items bks others /\ may_fail canAlloc (2 ^ 63 - 1 - (T - H)) po) as Hcase.
  { intros again Ha Htrue Hfalse; unfold next_block; rewrite Ha, bind_Done; destruct again.
    - destruct (Htrue eq_refl) as (q0 & rest & -> & Hold); destruct Hne as (tb & b0 & _ & Ht & Hnx & Hb0 & _).
      unfold load; rewrite Ht; cbn [deref]; rewrite bind_Done, Hnx, Hb0; cbn [deref]; rewrite bind_Done.
      eexists true, _, _; split; [reflexivity|]; split; [|split; [done|]].
      + intros r Hr; cbn; apply lookup_insert_ne; intros ->; apply (pool_disjoint _ _ _ _ _ Hp) in Hr; [done|set_solver].
      + exists rest, q0; eapply reuse_ok; try done; by apply Hpub.
    - pose proof Hc as (Et & Eh & _); rewrite Et, Eh, clt_u64 by lia; destruct (Z.ltb_spec T H); [lia|].
      cbn [negb check]; rewrite bind_Done, full_spec by lia; destruct (Z.leb_spec (2 ^ 63) (T + 32 - H)).
      { exists false, po, p; split_all; try done; left; lia. }
      destruct (next_new_ok canAlloc po p H T items bks others c) as (ok & po' & p' & -> & Hk & Hml & Hres); try done; [by apply Hfalse|].
      exists ok, po', p'; split_all; try done; destruct ok; [done|]; destruct Hres as [? ?]; split; [done|by right]. }
  destruct bks as [|q0 rest].
  - destruct Hne as [_ Hne]; by apply (Hcase false).
  - destruct Hne as (tb & b0 & _ & _ & _ & _ & Hne); apply (Hcase _ Hne).
    + intros Ht%bool_decide_eq_true; by exists q0, rest.
    + intros Hfl%bool_decide_eq_false _; lia.
Qed.

(** Entering it into the index. *)
Lemma ready_enter po p H T items old q others :
  T mod 32 = 0 -> ready po p H T items old q others ->
  exists p1 p2, push_entry (u64 T) p = Done p1 /\ publish_front (ep_blockIndexFront p) p1 = Done p2 /\
    ex_counters p2 H T /\ ex_core po p2 H T items (T / 32 + 1) (old ++ [q]) others /\
    exists c, ex_index p2 c (T / 32 + 1) (old ++ [q]) /\ published p2 c.
Proof.
  intros Hm [(Et & Eh & Eo) (c & Hio & Hne & Hr) [Hlen Hu Htb Hw Hb Hp Hd]]; destruct (started_mod T Hm) as [_ HT].
  destruct (ep_headers p) as [|h hs] eqn:Ehd; [done|]; rewrite last_snoc in Htb; cbn [default id] in Htb.
  destruct (push_entry_ok p c (T / 32) old Hio h hs Ehd Hr) as (p1 & Hrun & Hs1 & Hu1 & Hf1 & Hne1 & Hio1); rewrite HT in Hrun.
  rewrite Htb in Hio1; destruct (ep_headers p1) as [|h1 hs1] eqn:Ehd1; [done|].
  destruct (publish_ok p1 c (T / 32 + 1) (old ++ [q]) Hio1 h1 hs1 Ehd1) as (p2 & Hrun2 & Hs2 & Hu2 & Hpub & Hio2).
  pose proof (xi_front _ _ _ _ Hio); pose proof (xi_pow _ _ _ _ Hio).
  assert ((ep_blockIndexFront p1 - 1) mod 2 ^ c = ep_blockIndexFront p) as Hfr.
  { rewrite Hf1, Zminus_mod_idemp_l; replace (ep_blockIndexFront p + 1 - 1) with (ep_blockIndexFront p) by lia.
    apply Z.mod_small; lia. }
  rewrite Hfr in Hrun2; exists p1, p2; split; [done|]; split; [done|].
  destruct Hs1 as (A1 & A2 & A3 & A4 & A5), Hs2 as (B1 & B2 & B3 & B4 & B5).
  split; [unfold ex_counters; by rewrite B1, A1, B2, A2, B3, A3, B4, A4|]; split; [|by exists c].
  split; rewrite ?B5, ?A5, ?Hu2, ?Hu1; try done; by rewrite Htb, last_snoc.
Qed.

(** Writing an element into the tail block. *)
Lemma write_ok po p H T items bks others x c :
  ex_counters p H T -> ex_index p c (T / 32 + 1) bks -> published p c -> ex_core po p H T items (T / 32 + 1) bks others ->
  bks <> [] -> exists b, load po (ep_tailBlock p) = Done b /\
    let po' := store (ep_tailBlock p) (set_b_elements (<[slot (u64 T) := x]> (b_elements b)) b) po in
    ex_fifo po' (set_ep_tailIndex (u64 (1 + u64 T)) p) H (T + 1) (items ++ [x]) bks others /\ keeps others po po'.
Proof.
  intros (Et & Eh & Eo) Hio Hpub [Hlen Hu Htb Hw Hb (free & Hp) Hd] Hne; rewrite slot_u64.
  destruct (last bks) as [q|] eqn:Hlast; [|by apply last_None in Hlast]; cbn [default id] in Htb.
  rewrite last_lookup in Hlast; destruct (Hd _ q Hlast) as (b & Hbq & _); exists b; unfold load; rewrite Htb, Hbq.
  split; [done|]; cbv zeta; assert (q ∈ bks) as Hq by (by eapply list_elem_of_lookup_2).
  split; [split|]; rewrite ?ceil_div_succ.
  - split; [|done]; cbn; rewrite wrap_add_r; f_equal; lia.
  - exists c; split; [by apply (ex_index_ext p)|done].
  - split; cbn; try done.
    + rewrite length_app; cbn [length]; lia.
    + by rewrite Htb, last_lookup, Hlast.
    + exists free; eapply pool_inv_store; [set_solver|exact Hbq|done|done].
    + eapply ex_data_write; try done; [by eapply pool_nodup|]; unfold number; apply lookup_lt_Some in Hlast; lia.
  - intros r Hr; cbn; apply lookup_insert_ne; intros ->; by apply (pool_disjoint _ _ _ _ _ Hp) in Hq.
Qed.

Lemma ep_enqueue_ok canAlloc x po p H T items bks others :
  ex_fifo po p H T items bks others -> po_brk po <= 2 ^ 58 ->
  exists ok po' p', ep_enqueue canAlloc x po p = Done (ok, po', p') /\ keeps others po po' /\
    (po_mallocs po = [] -> po_mallocs po' = []) /\
    if ok then exists bks', ex_fifo po' p' H (T + 1) (items ++ [x]) bks' others
    else ex_fifo po' p' H T items bks others /\ may_fail canAlloc (2 ^ 63 - 1 - (T - H)) po.
Proof.
  intros Hf Hbrk; pose proof Hf as [(Et & Eh & Eo) (c & Hio & Hpub) Hco]; unfold ep_enqueue; rewrite Et, slot_u64.
  destruct (Z.eqb_spec (T mod 32) 0) as [Hm|Hm].
  - destruct (next_block_ok canAlloc po p H T items bks others Hm Hf Hbrk) as (ok & po1 & p1 & -> & Hk1 & Hml1 & Hres).
    rewrite bind_Done; destruct ok; cbn [negb].
    2:{ rewrite bind_Done; cbn [negb]; exists false, po1, p1; by split_all. }
    destruct Hres as (old & q & Hrd); destruct (ready_enter _ _ _ _ _ _ _ _ Hm Hrd)
      as (p2 & p3 & -> & Hpub2 & Hc3 & Hco3 & c3 & Hio3 & Hpub3); rewrite bind_Done, Hpub2, !bind_Done; cbn [negb].
    destruct (write_ok po1 p3 H T items (old ++ [q]) others x c3) as (b & -> & Hf' & Hk'); try done; [by destruct old|].
    rewrite bind_Done; rewrite slot_u64 in *; eexists true, _, _; split; [reflexivity|]; split_all; [|done|by eexists].
    intros r Hr; rewrite Hk' by done; by apply Hk1.
  - rewrite bind_Done; cbn [negb]; rewrite ceil_div_ne in * by done.
    assert (bks <> []) as Hne.
    { intros ->; destruct Hco as [Hlen _ _ Hw _ _ _]; cbn in Hw; pose proof (Z.div_mod T 32); pose proof (Z.mod_pos_bound T 32); lia. }
    destruct (write_ok po p H T items bks others x c) as (b & -> & Hf' & Hk'); try done; [by apply Hpub|].
    rewrite bind_Done; rewrite slot_u64 in *; eexists true, _, _; split; [reflexivity|]; split_all; [done|done|by exists bks].
Qed.

(** ** Taking elements out *)

(** The block of the oldest element. *)
Lemma live_block po p H T items kt bks others :
  ex_core po p H T items kt bks others -> H < T -> T <= 32 * kt ->
  exists m q b, bks !! m = Some q /\ number kt bks m = H / 32 /\ po_blocks po !! q = Some b /\
    b_emptyFlags b = flags H (H / 32) /\
    forall i, H <= i < T -> i / 32 = H / 32 -> b_elements b !! (i mod 32) = items !! Z.to_nat (i - H).
Proof.
  intros [Hlen Hu Htb Hw Hb _ Hd] HT Hkt; pose proof (Z.div_mod H 32); pose proof (Z.mod_pos_bound H 32).
  set (m := Z.to_nat (H / 32 - (kt - Z.of_nat (length bks)))).
  destruct (lookup_lt_is_Some_2 bks m) as [q Hq]; [unfold m; lia|].
  assert (number kt bks m = H / 32) as Hn by (unfold number, m; lia).
  destruct (Hd m q Hq) as (b & Hbq & _ & Hf & He); rewrite Hn in *; exists m, q, b; split_all; try done.
  rewrite decide_True in Hf by lia; done.
Qed.

(** [n] elements leave the block of the oldest one. *)
Lemma ex_core_take po p p' H T items kt bks others m q b b' n :
  ex_core po p H T items kt bks others -> ep_tailBlock p' = ep_tailBlock p ->
  ep_blockIndexSlotsUsed p' = ep_blockIndexSlotsUsed p -> bks !! m = Some q -> number kt bks m = H / 32 -> po_blocks po !! q = Some b ->
  0 <= n -> H mod 32 + n <= 32 -> H + n <= T -> same_owner b b' ->
  b_emptyFlags b' = flags (H + n) (H / 32) -> b_next b' = b_next b ->
  (forall i, H + n <= i < T -> i / 32 = H / 32 -> b_elements b' !! (i mod 32) = b_elements b !! (i mod 32)) ->
  ex_core (store q b' po) p' (H + n) T (drop (Z.to_nat n) items) kt bks others /\ keeps others po (store q b' po).
Proof.
  intros [Hlen Hu Htb Hw Hb (free & Hp) Hd] Etb Eu Hq Hn Hbq Hn0 Hle HT Hso Hf Hnx He.
  assert (q ∈ bks) as Hin by (by eapply list_elem_of_lookup_2); split; [split|]; rewrite ?Etb, ?Eu; try done; try lia.
  - rewrite length_drop; lia.
  - exists free; eapply pool_inv_store; [set_solver|exact Hbq|done|done].
  - eapply ex_data_take; try done; by eapply pool_nodup.
  - intros r Hr; cbn; apply lookup_insert_ne; intros ->; by apply (pool_disjoint _ _ _ _ _ Hp) in Hin.
Qed.

Lemma ex_not_empty po p H T items bks others :
  ex_fifo po p H T items bks others ->
  circular_less_than (u64 (ep_dequeueOptimisticCount p - ep_dequeueOvercommit p)) (ep_tailIndex p) = (H <? T) /\
  0 <= T - H < 2 ^ 63 /\ T <= 32 * ((T + 31) / 32).
Proof.
  intros [(Et & Eh & Eo) _ [Hlen _ _ _ Hb _ _]]; pose proof (Z.div_mod (T + 31) 32).
  pose proof (Z.mod_pos_bound (T + 31) 32); split; [|lia]; rewrite Eo, Et; apply clt_u64; lia.
Qed.

Lemma ep_dequeue_ok po p H T items bks others :
  ex_fifo po p H T items bks others ->
  match items with
  | [] => ep_dequeue po p = Done (None, po, p)
  | x :: items' => exists po' p', ep_dequeue po p = Done (Some x, po', p') /\
      ex_fifo po' p' (H + 1) T items' bks others /\ keeps others po po' /\ po_mallocs po' = po_mallocs po
  end.
Proof.
  intros Hf; destruct (ex_not_empty _ _ _ _ _ _ _ Hf) as (Hne & Hr & Hkt).
  pose proof Hf as [(Et & Eh & Eo) (c & Hio & Hpub) Hco]; pose proof (ec_len _ _ _ _ _ _ _ _ _ Hco) as Hlen.
  unfold ep_dequeue; rewrite Hne; destruct items as [|x items']; cbn [length] in Hlen; destruct (Z.ltb_spec H T); [lia|done| |lia].
  destruct (live_block _ _ _ _ _ _ _ _ Hco) as (m & q & b & Hq & Hm & Hbq & Hfl & Hel); [lia..|].
  rewrite Eh, u64_add; set (p1 := set_ep_counts _ _ _ p).
  assert (ex_index p1 c ((T + 31) / 32) bks) as Hio1 by (by apply (ex_index_ext p)).
  assert (published p1 c) as Hpub1 by (by apply Hpub; intros ->).
  destruct (locate_ok p1 c _ bks Hio1 m q H Hpub1 Hq) as (h & -> & _ & _ & Hent); [done|].
  rewrite bind_Done, Hent, bind_Done; cbn [eie_block]; unfold load; rewrite Hbq; cbn [deref].
  rewrite bind_Done, slot_u64, (Hel H) by lia; rewrite Z.sub_diag; change (deref ((x :: items') !! Z.to_nat 0)) with (Done x).
  rewrite bind_Done, ex_set_empty_ok, bind_Done by done; pose proof (Z.mod_pos_bound H 32).
  match goal with |- context [store q ?bb po] => set (b' := bb) end.
  destruct (ex_core_take po p p1 H T (x :: items') _ bks others m q b b' 1 Hco) as [Hco' Hk]; try done; try lia.
  { intros i Hi Hk; cbn; apply lookup_delete_ne; intros E; pose proof (Z.div_mod i 32); pose proof (Z.div_mod H 32); lia. }
  eexists _, _; split; [reflexivity|]; split_all; try done.
  split; [|by exists c|done]; unfold ex_counters; cbn; split_all; try done; by apply u64_move.
Qed.
End fifo.
