(* ===== verification/ExplicitBulk.v ===== *)
(** * Inside the concurrent queue: many elements at once through a token

    [dequeue_bulk] takes what there is, up to a maximum, block by block.
    [enqueue_bulk] first takes the free blocks ahead and allocates the rest, then
    fills them. *)

From S2P Require Import Prelude BlockPool ImplicitProducer BlockIndex ProducerFifo ProducerBulk ExplicitProducer ExplicitFifo.

Section take.
Context {A : Type}.
Implicit Types (po : pool A) (p : ExplicitProducer) (items : list A) (bks : list Z).

(** Only elements change. *)
Lemma take_block_only fuel : forall last i (b : block A) xs b',
  take_block fuel last i b = Done (xs, b') -> b' = set_b_elements (b_elements b') b.
Proof.
  induction fuel as [|fuel IH]; intros last i b xs b'; cbn [take_block]; destruct (i =? last).
  1,3: intros [= _ <-]; by destruct b.
  { done. }
  destruct (b_elements b !! slot i) as [x|]; cbn [deref]; [|done]; rewrite bind_Done.
  destruct (take_block fuel last _ _) as [[ys b1]| | |] eqn:E; try done; rewrite bind_Done; intros [= _ <-].
  apply IH in E as ->; by destruct b.
Qed.

Lemma entry_pos_next p c kt bks m :
  ex_index p c kt bks -> ex_ring (2 ^ c) (Z.of_nat (entry_pos p c bks m) + 1) = Z.of_nat (entry_pos p c bks (S m)).
Proof.
  intros Hio; pose proof (xi_pow _ _ _ _ Hio); pose proof (xi_exp _ _ _ _ Hio); rewrite ex_ring_mod by lia.
  unfold entry_pos; pose proof (Z.mod_pos_bound (ep_blockIndexFront p - Z.of_nat (length bks) + Z.of_nat m) (2 ^ c)).
  pose proof (Z.mod_pos_bound (ep_blockIndexFront p - Z.of_nat (length bks) + Z.of_nat (S m)) (2 ^ c)).
  rewrite !Z2Nat.id by lia; rewrite Z.add_mod_idemp_l by lia; f_equal; lia.
Qed.

(** One turn of the loop. *)
Lemma ex_take_turn po p H T items kt bks others c h k :
  ex_core po p H T items kt bks others -> ex_index p c kt bks -> head (ep_headers p) = Some h ->
  H < T -> T <= 32 * kt -> 0 <= k -> H mod 32 + k <= 32 -> H + k <= T ->
  exists m q b po' b1, number kt bks m = H / 32 /\
    entry_at h (Z.of_nat (entry_pos p c bks m)) = Done {| eie_base := u64 (32 * (H / 32)); eie_block := q |} /\
    load po q = Done b /\ take_block (Z.to_nat BLOCK_SIZE) (u64 (H + k)) (u64 H) b = Done (take (Z.to_nat k) items, b1) /\
    ex_set_many_empty (u64 H) (u64 (u64 (H + k) - u64 H)) b1 = Done (set_b_flags (flags (H + k) (H / 32)) b1) /\
    po' = store q (set_b_flags (flags (H + k) (H / 32)) b1) po /\
    ex_core po' p (H + k) T (drop (Z.to_nat k) items) kt bks others /\ keeps others po po'.
Proof.
  intros Hco Hio Hh HT Hkt Hk Hk32 HkT; destruct (live_block _ _ _ _ _ _ _ _ Hco HT Hkt) as (m & q & b & Hq & Hm & Hbq & Hf & Hel).
  pose proof (ec_len _ _ _ _ _ _ _ _ _ Hco) as Hlen; pose proof (Z.mod_pos_bound H 32 ltac:(lia)).
  destruct (take_block_ok (Z.to_nat k) (Z.to_nat BLOCK_SIZE) H items b) as (b1 & Hrun & Hso & _ & He1); try (unfold BLOCK_SIZE; lia).
  { intros j Hj; rewrite Hel by (try lia; rewrite div_add_block by lia; destruct (Z.eqb_spec (H mod 32 + Z.of_nat j) 32); lia).
    f_equal; lia. }
  rewrite Z2Nat.id in Hrun by lia; pose proof (take_block_only _ _ _ _ _ _ Hrun) as Hb1.
  assert (b_emptyFlags b1 = flags H (H / 32)) as Hf1 by (by rewrite Hb1).
  destruct (ex_core_take po p p H T items kt bks others m q b (set_b_flags (flags (H + k) (H / 32)) b1) k Hco)
    as [Hco' Hks]; try done.
  { by rewrite Hb1. }
  { intros i Hi Hi32; cbn; apply He1; intros j Hj E; pose proof (Z.div_mod i 32); pose proof (Z.div_mod (H + Z.of_nat j) 32).
    rewrite div_add_block in * by lia; destruct (Z.eqb_spec (H mod 32 + Z.of_nat j) 32); lia. }
  eexists m, q, b, _, b1; split; [done|]; split; [|split; [|split; [exact Hrun|split; [|split; [reflexivity|done]]]]].
  - pose proof (xi_header _ _ _ _ Hio) as Hx; destruct (ep_headers p) as [|h' hs]; [done|]; injection Hh as ->.
    destruct Hx as (_ & _ & Hent); unfold entry_at; by rewrite Nat2Z.id, (Hent m q Hq), Hm.
  - unfold load; by rewrite Hbq.
  - rewrite u64_sub; replace (H + k - H) with k by lia; rewrite (wrap_small 64 k) by (unfold in_u; lia).
    by apply ex_set_many_empty_ok.
Qed.

Lemma ex_bulk_take_ok p T kt bks others c h fuel : forall po H items n m,
  ex_index p c kt bks -> head (ep_headers p) = Some h -> eih_size h = 2 ^ c ->
  ex_core po p H T items kt bks others -> number kt bks m = H / 32 -> H < T -> T <= 32 * kt -> 0 <= n ->
  H + n <= T -> T - H < 2 ^ 63 -> (H mod 32 + n) / 32 < Z.of_nat fuel ->
  exists po', ex_bulk_take fuel h (u64 (H + n)) (u64 H) (Z.of_nat (entry_pos p c bks m)) po = Done (take (Z.to_nat n) items, po') /\
    ex_core po' p (H + n) T (drop (Z.to_nat n) items) kt bks others /\ keeps others po po' /\ po_mallocs po' = po_mallocs po.
Proof.
  induction fuel as [|fuel IH]; intros po H items n m Hio Hh Hsz Hco Hm HT Hkt Hn HnT Hb Hf.
  { pose proof (Z.mod_pos_bound H 32); pose proof (Z.div_pos (H mod 32 + n) 32); lia. }
  pose proof (Z.mod_pos_bound H 32 ltac:(lia)); pose proof (ec_len _ _ _ _ _ _ _ _ _ Hco).
  set (k := share H n); assert (0 <= k <= n /\ H mod 32 + k <= 32) as [Hk Hk32] by (unfold k, share; lia).
  cbn [ex_bulk_take]; rewrite stop_index_share by lia; fold k.
  destruct (ex_take_turn po p H T items kt bks others c h k Hco Hio Hh) as (m' & q & b & po1 & b1 & Hm' & Hent & Hl & Hrun & Hfl & Epo & Hco1 & Hk1);
    [lia..|]; assert (m' = m) as -> by (unfold number in *; lia).
  rewrite Hent, bind_Done; cbn [eie_block]; rewrite Hl, bind_Done, Hrun, bind_Done, Hfl, bind_Done, <- Epo.
  assert (po_mallocs po1 = po_mallocs po) as Hml1 by (by rewrite Epo).
  destruct (decide (k = n)) as [E|Hne].
  { rewrite E, Z.eqb_refl in *; by exists po1. }
  destruct (Z.eqb_spec (u64 (H + k)) (u64 (H + n))) as [E|_].
  { replace (H + n) with (H + k + (n - k)) in E by lia; apply u64_neq in E; [done|lia]. }
  assert (H mod 32 + k = 32) as E32 by (unfold k, share in *; lia).
  pose proof (div_add_block H k ltac:(lia) ltac:(lia)) as Hdiv; pose proof (mod_add_block H k ltac:(lia) ltac:(lia)) as Hmod.
  rewrite E32, Z.eqb_refl in *; rewrite Hsz, (entry_pos_next p c kt) by done; replace (H + n) with (H + k + (n - k)) by lia.
  destruct (IH po1 (H + k) (drop (Z.to_nat k) items) (n - k) (S m)) as (po2 & -> & Hco2 & Hk2 & Hml2); try done; try lia.
  { unfold number in *; lia. }
  { rewrite Hmod, Z.add_0_l; replace (H mod 32 + n) with (n - k + 1 * 32) in Hf by lia; rewrite Z.div_add in Hf by lia; lia. }
  rewrite bind_Done, drop_drop in *; exists po2; split; [|split; [|split]].
  - rewrite take_take_drop; do 3 f_equal; lia.
  - by replace (Z.to_nat k + Z.to_nat (n - k))%nat with (Z.to_nat n) in Hco2 by lia.
  - intros r Hr; rewrite Hk2, Hk1; done.
  - congruence.
Qed.

Lemma ep_dequeue_bulk_ok max po p H T items bks others :
  ex_fifo po p H T items bks others -> 0 <= max < 2 ^ 64 ->
  exists po' p', ep_dequeue_bulk max po p = Done (take (Z.to_nat max) items, po', p') /\
    ex_fifo po' p' (H + Z.min max (T - H)) T (drop (Z.to_nat max) items) bks others /\
    keeps others po po' /\ po_mallocs po' = po_mallocs po.
Proof.
  intros Hf Hmax; destruct (ex_not_empty _ _ _ _ _ _ _ Hf) as (_ & Hr & Hkt).
  pose proof Hf as [(Et & Eh & Eo) (c & Hio & Hpub) Hco]; pose proof (ec_len _ _ _ _ _ _ _ _ _ Hco) as Hlen.
  unfold ep_dequeue_bulk; rewrite Eo, Et, u64_sub, (wrap_small 64 (T - H)), clt_0 by (unfold in_u; lia).
  destruct (Z.ltb_spec 0 (T - H)) as [Hpos|Hz].
  2:{ destruct items; [|cbn in Hlen; lia]; rewrite take_nil, drop_nil.
      exists po, p; split_all; try done; by replace (H + Z.min max (T - H)) with H by lia. }
  set (n := if T - H <? max then T - H else max).
  assert (n = Z.min max (T - H)) as Hn by (unfold n; destruct (Z.ltb_spec (T - H) max); lia).
  assert ((if n <? T - H then n else T - H) = n) as -> by (destruct (Z.ltb_spec n (T - H)); lia).
  rewrite Z.ltb_irrefl, Eh, u64_add; set (p1 := set_ep_counts _ _ _ p).
  destruct (live_block _ _ _ _ _ _ _ _ Hco) as (m & q & b & Hq & Hm & _); [lia..|].
  assert (ex_index p1 c ((T + 31) / 32) bks) as Hio1 by (by apply (ex_index_ext p)).
  assert (published p1 c) as Hpub1 by (by apply Hpub; intros ->).
  destruct (locate_ok p1 c _ bks Hio1 m q H Hpub1 Hq) as (h & -> & Hh & Hsz & _); [done|]; rewrite bind_Done.
  assert (ex_core po p1 H T items ((T + 31) / 32) bks others) as Hco1 by (by destruct Hco).
  destruct (ex_bulk_take_ok p1 T _ bks others c h (S (Z.to_nat (n / BLOCK_SIZE + 1))) po H items n m Hio1 Hh Hsz Hco1 Hm)
    as (po' & -> & Hco' & Hk & Hml); try lia.
  { change BLOCK_SIZE with 32; pose proof (Z.mod_pos_bound H 32); pose proof (Z.div_pos n 32).
    assert ((H mod 32 + n) / 32 <= (n + 1 * 32) / 32) by (apply Z.div_le_mono; lia).
    rewrite Z.div_add in * by lia; lia. }
  rewrite bind_Done; exists po', p1; destruct (take_drop_min items max) as [<- <-]; [lia|]; rewrite <- Hlen, <- Hn.
  split_all; try done; split; [|by exists c|done]; unfold ex_counters; cbn; split_all; try done; by apply u64_move.
Qed.
End take.

(** ** Getting the blocks *)

Section grow.
Context {A : Type}.
Implicit Types (po : pool A) (p : ExplicitProducer) (items : list A) (bks : list Z).

Lemma same_rest_trans p1 p2 p3 : same_rest p1 p2 -> same_rest p2 p3 -> same_rest p1 p3.
Proof. unfold same_rest; intros (? & ? & ? & ? & ?) (? & ? & ? & ? & ?); split_all; congruence. Qed.

(** The first of the blocks with numbers from [kt0] on. *)
Definition first_block (kt0 k : Z) bks : Z :=
  if decide (k = kt0) then 0 else default 0 (bks !! Z.to_nat (Z.of_nat (length bks) - (k - kt0))).

(** A bulk operation has got the blocks up to number [k]; they are in the index but
    still marked as free.  [c] is the size of the index. *)
Record ex_growing po p (H T : Z) items (kt0 k : Z) bks others (start first c : Z) : Prop := {
  eg_held : ex_held po p H T items k kt0 bks others;
  eg_index : ex_index p c k bks;
  eg_range : kt0 <= k <= kt0 + Z.of_nat (length bks);
  eg_tail : T <= 32 * kt0;
  eg_le : H <= T;
  eg_first : first = first_block kt0 k bks;
  eg_start : T mod 32 <> 0 -> bks !! Z.to_nat (Z.of_nat (length bks) - 1 - (k - kt0)) = Some start }.

Lemma first_block_zero po free kt0 k bks others :
  pool_inv po free (bks ++ others) -> kt0 <= k <= kt0 + Z.of_nat (length bks) ->
  (first_block kt0 k bks =? 0) = bool_decide (k = kt0).
Proof.
  intros Hp Hr; unfold first_block; case_decide as Hk; [by rewrite bool_decide_eq_true_2|].
  rewrite bool_decide_eq_false_2 by done; apply Z.eqb_neq.
  destruct (lookup_lt_is_Some_2 bks (Z.to_nat (Z.of_nat (length bks) - (k - kt0)))) as [q Hq]; [lia|]; rewrite Hq.
  pose proof (used_nonzero _ _ _ _ Hp) as Hnz; rewrite Forall_lookup in Hnz; by apply (Hnz _ _ Hq).
Qed.

(** One more block at the end. *)
Lemma first_block_snoc kt0 k bks q :
  kt0 <= k <= kt0 + Z.of_nat (length bks) ->
  first_block kt0 (k + 1) (bks ++ [q]) = if decide (k = kt0) then q else first_block kt0 k bks.
Proof.
  intros Hr; unfold first_block; rewrite (decide_False (P := k + 1 = kt0)) by lia; rewrite length_app; cbn [length].
  destruct (decide (k = kt0)) as [->|Hne].
  - rewrite list_lookup_middle by lia; done.
  - rewrite lookup_app_l by lia; do 3 f_equal; lia.
Qed.
Lemma first_block_rotate kt0 k q0 rest :
  kt0 <= k < kt0 + Z.of_nat (length (q0 :: rest)) ->
  first_block kt0 (k + 1) (rest ++ [q0]) = if decide (k = kt0) then q0 else first_block kt0 k (q0 :: rest).
Proof.
  cbn [length]; intros Hr; unfold first_block; rewrite (decide_False (P := k + 1 = kt0)) by lia; rewrite length_app; cbn [length].
  destruct (decide (k = kt0)) as [->|Hne].
  - rewrite list_lookup_middle by lia; done.
  - rewrite lookup_app_l by lia.
    replace (Z.to_nat (Z.of_nat (S (length rest)) - (k - kt0))) with (S (Z.to_nat (Z.of_nat (length rest + 1) - (k + 1 - kt0)))) by lia.
    done.
Qed.

(** What [bulk_ahead] looks at. *)
Lemma ahead_ok po p H T items kt0 k bks others start first c :
  ex_growing po p H T items kt0 k bks others start first c ->
  match bks with
  | [] => ep_tailBlock p = 0
  | q0 :: rest => exists tb b0, ep_tailBlock p <> 0 /\ po_blocks po !! ep_tailBlock p = Some tb /\ b_next tb = q0 /\
      po_blocks po !! q0 = Some b0 /\ (q0 =? first) = bool_decide (k = kt0 + Z.of_nat (length bks)) /\
      (k < kt0 + Z.of_nat (length bks) ->
         b_emptyFlags b0 = flags H (number k bks 0) /\ ex_is_empty b0 = Done (bool_decide (32 * number k bks 0 + 32 <= H)))
  end.
Proof.
  intros [[_ _ Htb _ _ (free & Hp) Hd] _ Hr HT _ -> _]; destruct bks as [|q0 rest]; [by rewrite Htb|].
  destruct (@last_is_Some _ (q0 :: rest)) as [_ [t Ht]]; [done|]; rewrite Ht in Htb; cbn [default id] in Htb.
  rewrite last_lookup in Ht; pose proof (lookup_lt_Some _ _ _ Ht) as Hlt.
  destruct (Hd _ t Ht) as (tb & Htbk & Hs & _); destruct (Hd O q0 eq_refl) as (b0 & Hb0 & _ & Hf0 & _).
  unfold succ_of in Hs; rewrite decide_False in Hs by (cbn [length Nat.pred] in *; lia); injection Hs as Hs.
  pose proof (used_nonzero _ _ _ _ Hp) as Hnz; rewrite Forall_lookup in Hnz; pose proof (Hnz _ _ Ht) as Ht0; pose proof (Hnz O q0 eq_refl) as Hq0.
  exists tb, b0; rewrite Htb; split_all; try done.
  - unfold first_block; destruct (decide (k = kt0)) as [Hk|Hk].
    + symmetry; apply eq_trans with false; [apply bool_decide_eq_false_2; cbn [length]; lia|symmetry; by apply Z.eqb_neq].
    + case_bool_decide as Hc.
      * rewrite Hc; replace (Z.to_nat _) with O by lia; cbn; apply Z.eqb_refl.
      * destruct (lookup_lt_is_Some_2 (q0 :: rest) (Z.to_nat (Z.of_nat (length (q0 :: rest)) - (k - kt0)))) as [q Hq]; [lia|].
        rewrite Hq; cbn [default id]; apply Z.eqb_neq; intros ->.
        pose proof (NoDup_lookup _ O _ _ (pool_nodup _ _ _ _ Hp) eq_refl Hq); lia.
  - intros Hlt'; rewrite decide_True in Hf0 by (unfold number; lia); split; [done|]; by apply ex_is_empty_flags.
Qed.

(** Taking the block ahead. *)
Lemma ahead_step po p H T items kt0 k q0 rest others start first c :
  ex_growing po p H T items kt0 k (q0 :: rest) others start first c -> k < kt0 + Z.of_nat (length (q0 :: rest)) ->
  32 * number k (q0 :: rest) 0 + 32 <= H -> po_brk po <= 2 ^ 58 ->
  exists p', push_entry (u64 (32 * k)) (set_ep_tailBlock q0 p) = Done p' /\
    ex_growing po p' H T items kt0 (k + 1) (rest ++ [q0]) others start (if first =? 0 then q0 else first) c /\
    same_rest (set_ep_tailBlock q0 p) p'.
Proof.
  intros Hg Hk Hold Hbrk; pose proof Hg as [[Hlen Hu Htb Hw Hb (free & Hp) Hd] Hio Hr HT Hle -> Hstart].
  pose proof (xi_header _ _ _ _ Hio) as Hh; destruct (ep_headers p) as [|h hs] eqn:Ehd; [destruct Hh; done|].
  assert (ex_index (set_ep_tailBlock q0 p) c k rest) as Hio1.
  { apply (ex_index_ext p); try done; by apply (ex_index_drop p c k (q0 :: rest) Hio 1%nat ltac:(cbn; lia)). }
  destruct (push_entry_ok _ c k rest Hio1 h hs) as (p' & Hrun & Hs & Hu' & _ & _ & Hio').
  { done. }
  { pose proof (xi_fit _ _ _ _ Hio); cbn [length] in *; lia. }
  exists p'; split; [done|]; split; [|done]; destruct (ahead_ok _ _ _ _ _ _ _ _ _ _ _ _ Hg) as (tb & b0 & _ & _ & _ & Hb0 & _ & Hfl).
  destruct (Hfl Hk) as [Hf0 _]; pose proof (pool_count _ _ _ _ Hp); unfold number in Hold; cbn [length] in *.
  pose proof Hs as (_ & _ & _ & _ & Etb); split; try done; [split; rewrite ?Etb, ?Hu'; try done| | |].
  - cbn; rewrite Hu, length_app; cbn [length]; lia.
  - cbn; by rewrite last_snoc.
  - rewrite length_app; cbn [length]; lia.
  - lia.
  - exists free; eapply pool_inv_perm; [|exact Hp]; by rewrite (Permutation_app_comm rest).
  - eapply ex_data_rotate; try done; [|lia..]; rewrite Hf0; apply flags_done; unfold number; cbn [length]; lia.
  - rewrite length_app; cbn [length]; lia.
  - rewrite first_block_rotate by (cbn [length]; lia); rewrite (first_block_zero po free kt0 k (q0 :: rest) others) by (done || (cbn [length]; lia)).
    destruct (decide (k = kt0)) as [E|E]; [by rewrite bool_decide_eq_true_2|by rewrite bool_decide_eq_false_2].
  - intros Hm; specialize (Hstart Hm); pose proof (Z.div_mod T 32); pose proof (Z.mod_pos_bound T 32).
    rewrite length_app in *; cbn [length] in *; rewrite lookup_app_l by lia.
    replace (Z.to_nat (Z.of_nat (S (length rest)) - 1 - (k - kt0))) with (S (Z.to_nat (Z.of_nat (length rest + 1) - 1 - (k + 1 - kt0)))) in Hstart by lia.
    done.
Qed.

Lemma block_steps k n : u64 (32 * Z.of_nat (S n) - BLOCK_SIZE) = u64 (32 * Z.of_nat n) /\ u64 (u64 (32 * (k - 1)) + BLOCK_SIZE) = u64 (32 * k).
Proof. change BLOCK_SIZE with 32; rewrite u64_add; split; f_equal; lia. Qed.

(** The loop: the rest of the blocks, where the next one is not free. *)
Definition ahead_result po p (H T : Z) items (kt0 : Z) others (start c goal : Z) (r : run (Z * Z * Z * ExplicitProducer)) : Prop :=
  exists n' k' bks' p' first', r = Done (32 * Z.of_nat n', u64 (32 * (k' - 1)), first', p') /\
    ex_growing po p' H T items kt0 k' bks' others start first' c /\ k' + Z.of_nat n' = goal /\
    (n' <> O -> bks' <> [] -> H < 32 * number k' bks' 0 + 32) /\ same_rest (set_ep_tailBlock (ep_tailBlock p') p) p'.

Lemma bulk_ahead_ok po H T items kt0 others start : forall fuel n k bks p first c,
  ex_growing po p H T items kt0 k bks others start first c -> po_brk po <= 2 ^ 58 -> 32 * Z.of_nat n < 2 ^ 64 -> (n <= fuel)%nat ->
  ahead_result po p H T items kt0 others start c (k + Z.of_nat n) (bulk_ahead fuel (32 * Z.of_nat n) (u64 (32 * (k - 1))) first po p).
Proof.
  induction fuel as [|fuel IH]; intros n k bks p first c Hg Hbrk Hn Hf;
    (assert ((n <> O -> bks <> [] -> H < 32 * number k bks 0 + 32) ->
      ahead_result po p H T items kt0 others start c (k + Z.of_nat n) (mret (32 * Z.of_nat n, u64 (32 * (k - 1)), first, p))) as Hstop
      by (intros Hs; exists n, k, bks, p, first; by split_all)); cbn [bulk_ahead].
  1: replace n with O in * by lia; by apply Hstop.
  destruct (Z.eqb_spec (32 * Z.of_nat n) 0) as [E|Hne]; [apply Hstop; lia|]; cbn [orb].
  pose proof (ahead_ok _ _ _ _ _ _ _ _ _ _ _ _ Hg) as Ha; pose proof Hg as [_ _ Hr HT Hle _ _].
  destruct bks as [|q0 rest]; [rewrite Ha; by apply Hstop|]; destruct Ha as (tb & b0 & Hnz & Ht & Hnx & Hb0 & Heq & Hfl).
  destruct (Z.eqb_spec (ep_tailBlock p) 0); [done|]; unfold load; rewrite Ht; cbn [deref]; rewrite bind_Done, Hnx, Heq.
  destruct (bool_decide_reflect (k = kt0 + Z.of_nat (length (q0 :: rest)))) as [Hc|Hc].
  { apply Hstop; intros _ _; unfold number; cbn [length] in *; lia. }
  destruct Hfl as [_ He]; [lia|]; rewrite Hb0; cbn [deref]; rewrite bind_Done, He, bind_Done.
  case_bool_decide as Hold; cbn [negb]; [|apply Hstop; lia].
  destruct (ahead_step po p H T items kt0 k q0 rest others start first c Hg) as (p1 & Hrun & Hg1 & Hs1); [lia|done|done|].
  destruct n as [|n]; [lia|]; destruct (block_steps k n) as [E1 E2]; rewrite E1, E2, Hrun, bind_Done, (wrap_small 64 (32 * Z.of_nat n)) by (unfold in_u; lia).
  destruct (IH n (k + 1) (rest ++ [q0]) p1 _ c Hg1) as (n' & k' & bks' & p' & first' & Hrun' & Hg' & Hk' & Hst & Hs');
    [done|lia..|]; replace (k + 1 - 1) with k in Hrun' by lia; rewrite Hrun'.
  exists n', k', bks', p', first'; split_all; try done; [lia|]; unfold same_rest in *; cbn in *; intuition congruence.
Qed.

(** *** The blocks that are not there yet *)

(** A new block, linked and entered. *)
Lemma new_step po0 po p H T items kt0 k bks others start first c q b free :
  ex_growing po0 p H T items kt0 k bks others start first c -> ep_headers p <> [] -> Z.of_nat (length bks) < 2 ^ c ->
  keeps bks po0 po -> 32 * k + 32 - H < 2 ^ 63 -> pool_inv po free (q :: bks ++ others) -> po_blocks po !! q = Some b ->
  exists po' p1 p', link_ring q (store q (ex_set_all_empty b) po) p = Done (po', p1) /\
    push_entry (u64 (32 * k)) p1 = Done p' /\
    ex_growing po' p' H T items kt0 (k + 1) (bks ++ [q]) others start (if first =? 0 then q else first) c /\
    same_rest (set_ep_tailBlock q p) p' /\ keeps others po po' /\ po_mallocs po' = po_mallocs po.
Proof.
  intros [[Hlen Hu Htb Hw Hb (free0 & Hp0) Hd] Hio Hr HT Hle -> Hstart] Hne Hroom Hks Hfull Hp Hbq.
  apply (ex_data_keeps _ _ _ _ _ _ _ _ Hks) in Hd; pose proof (pool_nodup po free (q :: bks) others Hp) as Hn.
  apply NoDup_cons in Hn as [Hq Hn]; pose proof (xi_pow _ _ _ _ Hio).
  destruct (link_ring_ok (store q (ex_set_all_empty b) po) p H T items k kt0 kt0 bks q (ex_set_all_empty b) free others)
    as (po' & Hrun & Hd' & Hp' & Hk' & Hml'); try done.
  - eapply ex_data_keeps; [|exact Hd]; intros r Hr'; cbn; apply lookup_insert_ne; by intros ->.
  - eapply pool_inv_store; [set_solver|exact Hbq|done|done].
  - cbn; by rewrite lookup_insert_eq.
  - by rewrite decide_False by lia.
  - lia.
  - set (p1 := set_ep_slots _ _ _) in Hrun; assert (ex_index p1 c k bks) as Hio1 by (by apply (ex_index_ext p)).
    destruct (ep_headers p) as [|h hs] eqn:Eh; [done|].
    destruct (push_entry_ok p1 c k bks Hio1 h hs) as (p' & Hrun2 & Hs & Hu' & _ & _ & Hio'); [done|done|].
    exists po', p1, p'; split; [done|]; split; [done|]; split; [|split; [done|split; [|done]]].
    + pose proof Hs as (_ & _ & _ & _ & Etb); split; try done; [split; rewrite ?Etb, ?Hu'; try done|..].
      * cbn; rewrite Hu, length_app; cbn [length]; rewrite wrap_small by (unfold in_u; lia); lia.
      * cbn; by rewrite last_snoc.
      * rewrite length_app; cbn [length]; lia.
      * lia.
      * exists free; eapply pool_inv_perm; [|exact Hp']; rewrite <- app_assoc; apply Permutation_middle.
      * rewrite length_app; cbn [length]; lia.
      * rewrite first_block_snoc by lia; rewrite (first_block_zero po0 free0 kt0 k bks others) by (done || lia).
        destruct (decide (k = kt0)) as [E|E]; [by rewrite bool_decide_eq_true_2|by rewrite bool_decide_eq_false_2].
      * intros Hm; specialize (Hstart Hm); rewrite length_app; cbn [length]; apply lookup_app_l_Some; rewrite <- Hstart; f_equal; lia.
    + intros r Hr'; rewrite Hk' by done; cbn; apply lookup_insert_ne; intros ->.
      apply (pool_disjoint po free (r :: bks) others r Hp); [set_solver|done].
Qed.

(** Making room, as [bulk_requisition] does it. *)
Lemma bulk_room canAlloc front used po p ok po' p' :
  make_room canAlloc used po p = Done (ok, po', p') ->
  exists front',
    (if bool_decide (ep_headers p = []) || (ep_blockIndexSlotsUsed p =? ep_blockIndexSize p) || false then
       if negb canAlloc || false then mret (false, front, po, p)
       else '(ok, po, p) ← ex_new_block_index used po p; mret (ok, (if (ok : bool) then used else front), po, p)
     else mret (true, front, po, p)) = Done (ok, front', po', p').
Proof.
  unfold make_room; rewrite !orb_false_r; destruct (bool_decide _ || _).
  - destruct canAlloc; cbn [negb]; [intros ->; rewrite bind_Done|intros [= <- <- <-]]; by eexists.
  - intros [= <- <- <-]; by eexists.
Qed.

Definition requisitioned canAlloc po p (H T : Z) items (kt0 : Z) others (start goal : Z)
    (r : run (option Z * pool A * ExplicitProducer)) : Prop :=
  exists res po' p', r = Done (res, po', p') /\ keeps others po po' /\ (po_mallocs po = [] -> po_mallocs po' = []) /\
    match res with
    | Some first => exists bks' c', ex_growing po' p' H T items kt0 goal bks' others start first c' /\
        same_rest (set_ep_tailBlock (ep_tailBlock p') p) p'
    | None => 2 ^ 63 <= 32 * goal - H \/ canAlloc = false \/ po_mallocs po <> []
    end.

Lemma bulk_requisition_ok canAlloc startBlock used H T items kt0 others : forall fuel n k bks po p first c front,
  ex_growing po p H T items kt0 k bks others startBlock first c -> ep_headIndex p = u64 H ->
  (n <> O -> bks <> [] -> H < 32 * number k bks 0 + 32) -> 32 * Z.of_nat n < 2 ^ 64 -> (n <= fuel)%nat ->
  requisitioned canAlloc po p H T items kt0 others startBlock (k + Z.of_nat n)
    (bulk_requisition fuel canAlloc startBlock front used (32 * Z.of_nat n) (u64 (32 * (k - 1))) first po p).
Proof.
  induction fuel as [|fuel IH]; intros n k bks po p first c front Hg Hh Hst Hn Hf; cbn [bulk_requisition];
    (destruct (Z.eqb_spec (32 * Z.of_nat n) 0) as [E|Hne]; [replace n with O in * by lia; rewrite Z.add_0_r;
      exists (Some first), po, p; split_all; try done; by exists bks, c|]); [lia|].
  destruct n as [|n]; [done|]; destruct (block_steps k n) as [E1 E2]; rewrite E1, E2, (wrap_small 64 (32 * Z.of_nat n)) by (unfold in_u; lia).
  pose proof Hg as [[Hlen Hu Htb Hw Hb (free & Hp) Hd] Hio Hr HT Hle Hfi Hstart]; rewrite Hh, clt_u64 by lia.
  destruct (Z.ltb_spec (32 * k) H); [lia|]; cbn [negb check]; rewrite bind_Done, full_spec by lia.
  destruct (Z.leb_spec (2 ^ 63) (32 * k + 32 - H)) as [Hful|Hful].
  { rewrite !orb_true_r, bind_Done; cbn [negb]; exists None, po, (undo_bulk startBlock front used first p); split_all; try done; left; lia. }
  destruct (make_room_ok canAlloc used po p c k bks Hio Hu) as (ok & po1 & p1 & Hroom & Hpo1 & Hres).
  { intros E; apply (room_to_double H k bks); [apply Hio|lia| |done]; apply Hst; [done|]; intros ->; cbn in E; pose proof (xi_pow _ _ _ _ Hio); lia. }
  destruct (bulk_room canAlloc front used po p ok po1 p1 Hroom) as [front' ->]; rewrite bind_Done.
  assert (pool_inv po1 free (bks ++ others) /\ po_blocks po1 = po_blocks po /\ (po_mallocs po = [] -> po_mallocs po1 = [])) as (Hp1 & Hb1 & Hm1).
  { destruct Hpo1 as [->| ->]; [done|]; split; [by apply pool_inv_malloc|]; split; [done|]; cbn; by intros ->. }
  assert (keeps others po po1) as Hk1 by (intros r _; by rewrite Hb1).
  destruct ok; cbn [negb].
  2:{ destruct Hres as [-> Hca]; exists None, po1, (undo_bulk startBlock front' used first p); split_all; try done; right; destruct canAlloc; [right; auto|by left]. }
  destruct Hres as (Hs1 & Hu1 & c1 & Hio1 & Hne1 & Hr1 & _).
  assert (ex_growing po p1 H T items kt0 k bks others startBlock first c1) as Hg1.
  { pose proof Hs1 as (_ & _ & _ & _ & Etb); split; try done; split; rewrite ?Etb, ?Hu1; try done; by exists free. }
  destruct (requisition_ok canAlloc po1 free (bks ++ others) Hp1) as (q & po2 & -> & Hm2 & Hq); rewrite bind_Done.
  destruct Hq as [(-> & Hp2 & Hk2 & Hca)|(Hnz & (free2 & Hp2) & Hk2)].
  - rewrite Z.eqb_refl; exists None, po2, (undo_bulk startBlock front' used first p1); split; [done|]; split; [|split; [auto|]].
    + intros r Hr'; rewrite Hk2 by set_solver; by apply Hk1.
    + right; destruct canAlloc; [right|by left]; specialize (Hca eq_refl); intros Hnil; by apply Hca, Hm1.
  - destruct (Z.eqb_spec q 0); [done|]; pose proof (pi_held _ _ _ Hp2) as Hhd; cbn [app] in Hhd; apply Forall_cons in Hhd as [(b & Hbq & _) _].
    unfold load at 1; rewrite Hbq; cbn [deref]; rewrite bind_Done.
    destruct (new_step po po2 p1 H T items kt0 k bks others startBlock first c1 q b free2 Hg1 Hne1 Hr1)
      as (po3 & p2 & p3 & -> & Hpush & Hg3 & Hs3 & Hk3 & Hm3); try done; [intros r Hr'; rewrite Hk2 by set_solver; by rewrite Hb1|].
    rewrite bind_Done, Hpush, bind_Done.
    assert (same_rest (set_ep_tailBlock q p) p3) as Hsq by (unfold same_rest in *; cbn in *; intuition congruence).
    destruct (IH n (k + 1) (bks ++ [q]) po3 p3 _ c1 front' Hg3) as (res & po4 & p4 & Hrun & Hk4 & Hm4 & Hres).
    + destruct Hsq as (_ & E & _); by rewrite E.
    + intros _ _; specialize (Hst ltac:(done)); unfold number in *; rewrite length_app; cbn [length].
      destruct bks as [|q0 bks]; [cbn [length]; lia|]; specialize (Hst ltac:(done)); lia.
    + lia.
    + lia.
    + replace (k + 1 - 1) with k in Hrun by lia; rewrite Hrun; replace (k + 1 + Z.of_nat n) with (k + Z.of_nat (S n)) in * by lia.
      exists res, po4, p4; split; [done|]; split; [|split; [intros Hnil; apply Hm4; rewrite Hm3; auto|]].
      * intros r Hr'; rewrite Hk4, Hk3 by done; rewrite Hk2 by set_solver; by apply Hk1.
      * destruct res as [first'|].
        -- destruct Hres as (bks' & c' & Hg' & Hs'); exists bks', c'; split; [done|]; unfold same_rest in *; cbn in *; intuition congruence.
        -- destruct Hres as [|[|Hml]]; auto; right; right; intros Hnil; apply Hml; rewrite Hm3; auto.
Qed.
End grow.

(** ** Filling the blocks *)

Section fill.
Context {A : Type}.
Implicit Types (po : pool A) (p : ExplicitProducer) (items : list A) (bks : list Z).

(** Marking the blocks of the operation as used. *)
Lemma reset_blocks_ok H T items bks others free last : forall j fuel k po q,
  ex_data po H T items k (k - Z.of_nat (S j)) bks -> pool_inv po free (bks ++ others) -> H <= 32 * (k - Z.of_nat (S j)) ->
  (S j <= length bks)%nat -> bks !! (length bks - S j)%nat = Some q -> bks !! (length bks - 1)%nat = Some last -> (j < fuel)%nat ->
  exists po', reset_blocks fuel q last po = Done po' /\ ex_data po' H T items k k bks /\ pool_inv po' free (bks ++ others) /\
    keeps others po po' /\ po_mallocs po' = po_mallocs po.
Proof.
  induction j as [|j IH]; intros fuel k po q Hd Hp HH Hj Hq Hl Hf; (destruct fuel as [|fuel]; [lia|]); cbn [reset_blocks];
    pose proof (pool_nodup _ _ _ _ Hp) as Hn; destruct (Hd _ q Hq) as (b & Hbq & Hs & _); unfold load; rewrite Hbq; cbn [deref];
    rewrite bind_Done; (assert (q ∈ bks) as Hin by (by eapply list_elem_of_lookup_2));
    (assert (pool_inv (store q (ex_reset_empty b) po) free (bks ++ others)) as Hp1 by (eapply pool_inv_store; [set_solver|exact Hbq|done|done]));
    (assert (keeps others po (store q (ex_reset_empty b) po)) as Hk1 by
      (intros r Hr; cbn; apply lookup_insert_ne; intros ->; by apply (pool_disjoint _ _ _ _ _ Hp) in Hin)).
  - assert (q = last) as -> by congruence; rewrite Z.eqb_refl; eexists; split; [reflexivity|]; split; [|done].
    replace k with (k - Z.of_nat 1 + 1) at 2 by lia; eapply ex_data_reset; try done; unfold number; lia.
  - destruct (Z.eqb_spec q last) as [->|_]; [pose proof (NoDup_lookup _ _ _ _ Hn Hq Hl); lia|].
    unfold succ_of in Hs; rewrite decide_True in Hs by lia.
    destruct (IH fuel k (store q (ex_reset_empty b) po) (b_next b)) as (po' & -> & Hd' & Hp' & Hk' & Hm'); try done; try lia.
    + replace (k - Z.of_nat (S j)) with (k - Z.of_nat (S (S j)) + 1) by lia; eapply ex_data_reset; try done; unfold number; lia.
    + rewrite <- Hs; f_equal; lia.
    + exists po'; split_all; try done; intros r Hr; rewrite Hk' by done; by apply Hk1.
Qed.

(** Constructing [k] elements in one block. *)
Lemma fill_block_run k : forall fuel C (xs : list A) (b : block A),
  (k <= fuel)%nat -> (k <= length xs)%nat -> C mod 32 + Z.of_nat k <= 32 ->
  exists els, fill_block fuel (u64 (C + Z.of_nat k)) (u64 C) xs b = Done (u64 (C + Z.of_nat k), drop k xs, set_b_elements els b) /\
    (forall j, (j < k)%nat -> els !! (C mod 32 + Z.of_nat j) = xs !! j) /\
    forall s, ~ C mod 32 <= s < C mod 32 + Z.of_nat k -> els !! s = b_elements b !! s.
Proof.
  induction k as [|k IH]; intros fuel C xs b Hf Hx Hm; pose proof (Z.mod_pos_bound C 32 ltac:(lia)).
  { exists (b_elements b); rewrite Z.add_0_r; destruct fuel; cbn [fill_block]; rewrite Z.eqb_refl, drop_0;
      (split; [by destruct b|split; [lia|done]]). }
  destruct fuel as [|fuel]; [lia|]; cbn [fill_block]; destruct (Z.eqb_spec (u64 C) (u64 (C + Z.of_nat (S k)))) as [E|_].
  { by apply u64_neq in E; [|lia]. }
  destruct xs as [|x xs]; [cbn in Hx; lia|]; rewrite u64_add, slot_u64.
  destruct (decide (k = O)) as [->|Hk].
  { exists (<[C mod 32 := x]> (b_elements b)); split; [destruct fuel; cbn; by rewrite Z.eqb_refl|]; split.
    - intros j Hj; replace j with O by lia; rewrite Z.add_0_r; cbn; by rewrite lookup_insert_eq.
    - intros s Hs; apply lookup_insert_ne; lia. }
  assert ((C + 1) mod 32 = C mod 32 + 1) as Hmod by (rewrite mod_add_block by lia; destruct (Z.eqb_spec (C mod 32 + 1) 32); lia).
  destruct (IH fuel (C + 1) xs (set_b_elements (<[C mod 32 := x]> (b_elements b)) b)) as (els & Hrun & Hin & Hout);
    [lia|cbn in Hx; lia|lia|]; rewrite Hmod in *.
  replace (C + 1 + Z.of_nat k) with (C + Z.of_nat (S k)) in Hrun by lia; exists els; split; [exact Hrun|]; split.
  - intros [|j] Hj; cbn.
    + rewrite Z.add_0_r, Hout by lia; cbn; by rewrite lookup_insert_eq.
    + rewrite <- Hin by lia; f_equal; lia.
  - intros s Hs; rewrite Hout by lia; cbn; apply lookup_insert_ne; lia.
Qed.

Lemma ex_data_fill po H C items kt raw bks m q b els xs k :
  ex_data po H C items kt raw bks -> NoDup bks -> C - H = Z.of_nat (length items) -> bks !! m = Some q ->
  number kt bks m = C / 32 -> po_blocks po !! q = Some b -> (k <= length xs)%nat -> C mod 32 + Z.of_nat k <= 32 ->
  (forall j, (j < k)%nat -> els !! (C mod 32 + Z.of_nat j) = xs !! j) ->
  (forall s, ~ C mod 32 <= s < C mod 32 + Z.of_nat k -> els !! s = b_elements b !! s) ->
  ex_data (store q (set_b_elements els b) po) H (C + Z.of_nat k) (items ++ take k xs) kt raw bks.
Proof.
  intros Hd Hnd Hlen Hq Hm Hb Hx Hk Hin Hout m' q' Hq'; destruct (Hd m' q' Hq') as (b1 & Hb1 & Hs & Hfl & Hel).
  pose proof (Z.div_mod C 32); pose proof (Z.mod_pos_bound C 32).
  assert (forall i, H <= i < C -> (items ++ take k xs) !! Z.to_nat (i - H) = items !! Z.to_nat (i - H)) as Hold.
  { intros i Hi; apply lookup_app_l; lia. }
  cbn; destruct (decide (q = q')) as [<-|Hne].
  - pose proof (NoDup_lookup _ _ _ _ Hnd Hq Hq') as <-; rewrite lookup_insert_eq; assert (b1 = b) as -> by congruence.
    eexists; split; [done|]; split; [done|]; split; [done|]; intros i Hi Hki; cbn; rewrite Hm in Hki.
    pose proof (Z.div_mod i 32); destruct (decide (i < C)).
    + rewrite Hout, Hold by lia; apply Hel; lia.
    + rewrite lookup_app_r by lia; rewrite lookup_take_lt by lia.
      replace (i mod 32) with (C mod 32 + Z.of_nat (Z.to_nat (i - C))) by lia; rewrite Hin by lia; f_equal; lia.
  - rewrite lookup_insert_ne by done; exists b1; split; [done|]; split; [done|]; split; [done|].
    intros i Hi Hki; assert (m' <> m) by (intros ->; congruence).
    destruct (decide (i < C)); [rewrite Hold by lia; apply Hel; lia|].
    exfalso; assert (i / 32 = C / 32) by (symmetry; apply Z.div_unique with (i - 32 * (C / 32)); lia); unfold number in *; lia.
Qed.

(** One turn of the loop: as many elements as the block still takes. *)
Lemma ex_fill_turn H kt raw bks others free m q C items xs po k b :
  ex_data po H C items kt raw bks -> C - H = Z.of_nat (length items) -> bks !! m = Some q -> number kt bks m = C / 32 ->
  pool_inv po free (bks ++ others) -> po_blocks po !! q = Some b -> (0 < k <= length xs)%nat -> C mod 32 + Z.of_nat k <= 32 ->
  exists po', (if u64 C =? u64 (C + Z.of_nat k) then mret (u64 C, xs, po)
               else b ← load po q;
                    '(cur, xs, b) ← fill_block (Z.to_nat BLOCK_SIZE) (u64 (C + Z.of_nat k)) (u64 C) xs b;
                    mret (cur, xs, store q b po)) = Done (u64 (C + Z.of_nat k), drop k xs, po') /\
    ex_data po' H (C + Z.of_nat k) (items ++ take k xs) kt raw bks /\ pool_inv po' free (bks ++ others) /\
    keeps others po po' /\ po_mallocs po' = po_mallocs po /\ exists b', po_blocks po' !! q = Some b' /\ b_next b' = b_next b.
Proof.
  intros Hd Hlen Hq Hm Hp Hbq Hk Hle; pose proof (Z.mod_pos_bound C 32).
  destruct (fill_block_run k (Z.to_nat BLOCK_SIZE) C xs b) as (els & Hrun & Hin & Hout); [change BLOCK_SIZE with 32; lia|lia|done|].
  destruct (Z.eqb_spec (u64 C) (u64 (C + Z.of_nat k))) as [E|_]; [by apply u64_neq in E; [|lia]|].
  unfold load; rewrite Hbq; cbn [deref]; rewrite bind_Done, Hrun, bind_Done; eexists; split; [reflexivity|].
  assert (q ∈ bks) as Hqin by (by eapply list_elem_of_lookup_2); split_all.
  - eapply ex_data_fill; try done; by eapply pool_nodup.
  - eapply pool_inv_store; [apply elem_of_app; by left|exact Hbq|done|done].
  - intros r Hr; cbn; apply lookup_insert_ne; intros ->; by apply (pool_disjoint _ _ _ _ _ Hp) in Hqin.
  - done.
  - eexists; split; [cbn; apply lookup_insert_eq|done].
Qed.

(** The loop over the blocks, from the one with the next element up to the last. *)
Lemma ex_bulk_fill_ok H kt bks others free e : forall d fuel m q C items xs po p,
  ex_data po H C items kt kt bks -> C - H = Z.of_nat (length items) -> bks !! m = Some q -> number kt bks m = C / 32 ->
  (m + S d = length bks)%nat -> bks !! (length bks - 1)%nat = Some e -> 0 < Z.of_nat (length xs) < 2 ^ 63 ->
  (C + Z.of_nat (length xs) + 31) / 32 = kt -> pool_inv po free (bks ++ others) -> ep_tailBlock p = q -> (d < fuel)%nat ->
  exists po', ex_bulk_fill fuel (u64 (C + Z.of_nat (length xs))) e (u64 C) xs po p = Done (po', set_ep_tailBlock e p) /\
    ex_data po' H (C + Z.of_nat (length xs)) (items ++ xs) kt kt bks /\ pool_inv po' free (bks ++ others) /\
    keeps others po po' /\ po_mallocs po' = po_mallocs po.
Proof.
  induction d as [|d IH]; intros fuel m q C items xs po p Hd Hlen Hq Hm Hmd Hlast Hx Hend Hp Htb Hf;
    (destruct fuel as [|fuel]; [lia|]); cbn [ex_bulk_fill]; rewrite Htb, stop_index_share by lia;
    pose proof (Z.div_mod C 32); pose proof (Z.mod_pos_bound C 32);
    pose proof (Z.div_mod (C + Z.of_nat (length xs) + 31) 32); pose proof (Z.mod_pos_bound (C + Z.of_nat (length xs) + 31) 32);
    destruct (Hd _ q Hq) as (b & Hbq & Hs & _); pose proof (pool_nodup _ _ _ _ Hp) as Hn; pose proof Hm as Hnum; unfold number in Hnum.
  - assert (share C (Z.of_nat (length xs)) = Z.of_nat (length xs)) as -> by (unfold share; lia).
    destruct (ex_fill_turn H kt kt bks others free m q C items xs po (length xs) b) as (po' & -> & Hd' & Hp' & Hk' & Hm' & _); try done; [lia|lia|].
    assert (q = e) as -> by (replace m with (length bks - 1)%nat in Hq by lia; congruence).
    rewrite bind_Done, !Z.eqb_refl; cbn [check]; rewrite bind_Done, take_ge in * by lia.
    exists po'; split; [|by split_all]; do 2 f_equal; rewrite <- Htb; by destruct p.
  - set (k := Z.to_nat (32 - C mod 32)); assert (share C (Z.of_nat (length xs)) = Z.of_nat k) as -> by (unfold share; lia).
    destruct (ex_fill_turn H kt kt bks others free m q C items xs po k b) as (po1 & -> & Hd1 & Hp1 & Hk1 & Hm1 & b1 & Hb1 & Hnx); try done; [lia|lia|].
    rewrite bind_Done; destruct (Z.eqb_spec q e) as [->|_]; [pose proof (NoDup_lookup _ _ _ _ Hn Hq Hlast); lia|].
    unfold load; rewrite Hb1; cbn [deref]; rewrite bind_Done, Hnx.
    unfold succ_of in Hs; rewrite decide_True in Hs by lia.
    pose proof (div_add_block C (Z.of_nat k)) as Hdv; rewrite (proj2 (Z.eqb_eq (C mod 32 + Z.of_nat k) 32)) in Hdv by lia.
    destruct (IH fuel (S m) (b_next b) (C + Z.of_nat k) (items ++ take k xs) (drop k xs) po1 (set_ep_tailBlock (b_next b) p))
      as (po' & Hrun & Hd2 & Hp2 & Hk2 & Hm2); try done.
    + rewrite length_app, length_take; lia.
    + unfold number in *; lia.
    + lia.
    + rewrite length_drop; lia.
    + rewrite length_drop, <- Hend; f_equal; lia.
    + lia.
    + rewrite length_drop in *; replace (C + Z.of_nat k + Z.of_nat (length xs - k)) with (C + Z.of_nat (length xs)) in * by lia.
      exists po'; split; [exact Hrun|]; rewrite <- app_assoc, take_drop in Hd2; split_all; try done; [|congruence].
      intros r Hr; rewrite Hk2 by done; by apply Hk1.
Qed.

(** All blocks of a bulk operation are there, ready to be filled. *)
Record bulk_ready po p (H T : Z) items (kt : Z) (n : nat) bks others (start first : Z) : Prop := {
  br_held : ex_core po p H T items kt bks others;
  br_index : exists c, ex_index p c kt bks /\ published p c;
  br_count : (n <= length bks)%nat;
  br_start : T mod 32 <> 0 -> bks !! Z.to_nat (Z.of_nat (length bks) - 1 - Z.of_nat n) = Some start;
  br_first : bks !! (length bks - n)%nat = Some first }.

Lemma growing_finish po p H T items kt0 n bks others start first c :
  ex_growing po p H T items kt0 (kt0 + Z.of_nat (S n)) bks others start first c ->
  exists po' p', reset_blocks (S (S n)) first (ep_tailBlock p) po = Done po' /\
    publish_front (ex_ring (ep_blockIndexSize p) (ep_blockIndexFront p - 1)) p = Done p' /\
    bulk_ready po' p' H T items (kt0 + Z.of_nat (S n)) (S n) bks others start first /\ same_rest p p' /\
    keeps others po po' /\ po_mallocs po' = po_mallocs po.
Proof.
  intros [[Hlen Hu Htb Hw Hb (free & Hp) Hd] Hio Hr HT Hle Hf Hstart]; unfold first_block in Hf; rewrite decide_False in Hf by lia.
  replace (Z.to_nat (Z.of_nat (length bks) - (kt0 + Z.of_nat (S n) - kt0))) with (length bks - S n)%nat in Hf by lia.
  destruct (lookup_lt_is_Some_2 bks (length bks - S n)) as [q Hq]; [lia|]; rewrite Hq in Hf; cbn [default id] in Hf; subst q.
  destruct (lookup_lt_is_Some_2 bks (length bks - 1)) as [t Ht]; [lia|].
  assert (last bks = Some t) as Hlast by (rewrite last_lookup; by replace (Nat.pred (length bks)) with (length bks - 1)%nat by lia).
  rewrite Hlast in Htb; cbn [default id] in Htb; rewrite Htb.
  destruct (reset_blocks_ok H T items bks others free t n (S (S n)) (kt0 + Z.of_nat (S n)) po first) as (po' & Hrun & Hd' & Hp' & Hk' & Hm');
    try done; try lia.
  { by replace (kt0 + Z.of_nat (S n) - Z.of_nat (S n)) with kt0 by lia. }
  pose proof (xi_header _ _ _ _ Hio) as Hh; pose proof (xi_exp _ _ _ _ Hio); rewrite (xi_size _ _ _ _ Hio), ex_ring_mod by lia.
  destruct (ep_headers p) as [|h hs] eqn:Eh; [destruct Hh as [-> _]; done|].
  destruct (publish_ok p c _ bks Hio h hs Eh) as (p' & Hrun2 & Hs & Hu' & Hpub & Hio').
  exists po', p'; split_all; try done; split; try done; [|by exists c|lia|intros Hm; rewrite <- (Hstart Hm); do 2 f_equal; lia].
  pose proof Hs as (_ & _ & _ & _ & Etb); split; rewrite ?Etb, ?Hu'; try done; [by rewrite Hlast|by exists free].
Qed.

Lemma bulk_blocks_ok canAlloc po p H T items bks others n :
  ex_fifo po p H T items bks others -> po_brk po <= 2 ^ 58 -> 32 * Z.of_nat (S n) < 2 ^ 64 ->
  exists r po' p', bulk_blocks (S (S n)) canAlloc (32 * Z.of_nat (S n)) (u64 (32 * ((T + 31) / 32 - 1))) po p = Done (r, po', p') /\
    keeps others po po' /\ (po_mallocs po = [] -> po_mallocs po' = []) /\
    match r with
    | Some first => exists bks', bulk_ready po' p' H T items ((T + 31) / 32 + Z.of_nat (S n)) (S n) bks' others (ep_tailBlock p) first /\
        same_rest (set_ep_tailBlock (ep_tailBlock p') p) p'
    | None => 2 ^ 63 <= 32 * ((T + 31) / 32 + Z.of_nat (S n)) - H \/ canAlloc = false \/ po_mallocs po <> []
    end.
Proof.
  intros Hf Hbrk Hn; pose proof (ex_not_empty _ _ _ _ _ _ _ Hf) as (_ & Hr & Hkt); pose proof Hf as [(Et & Eh & Eo) (c & Hio & Hpub) Hco].
  assert (ex_growing po p H T items ((T + 31) / 32) ((T + 31) / 32) bks others (ep_tailBlock p) 0 c) as Hg.
  { split; try done; [lia|lia|unfold first_block; by rewrite decide_True|]; intros Hm; destruct Hco as [Hlen _ Htb Hw _ _ _].
    destruct bks as [|q0 rest]; [cbn in Hw; rewrite ceil_div_ne in Hw by done; pose proof (Z.div_mod T 32); pose proof (Z.mod_pos_bound T 32); lia|].
    destruct (@last_is_Some _ (q0 :: rest)) as [_ [t Ht]]; [done|]; rewrite Htb, Ht; cbn [default id]; rewrite last_lookup in Ht.
    rewrite <- Ht; f_equal; lia. }
  unfold bulk_blocks; destruct (Z.eqb_spec (32 * Z.of_nat (S n)) 0); [lia|].
  destruct (bulk_ahead_ok po H T items _ others (ep_tailBlock p) (S (S n)) (S n) _ bks p 0 c Hg Hbrk Hn) as (n' & k' & bks1 & p1 & first1 & -> & Hg1 & Hk1 & Hst & Hs1);
    [lia|]; rewrite bind_Done.
  destruct (bulk_requisition_ok canAlloc (ep_tailBlock p) (ep_blockIndexSlotsUsed p) H T items _ others (S (S n)) n' k' bks1 po p1 first1 c
    (ep_blockIndexFront p) Hg1) as (r & po2 & p2 & -> & Hk2 & Hm2 & Hres); try done; try (pose proof (eg_range _ _ _ _ _ _ _ _ _ _ _ _ Hg1); lia).
  { by destruct Hs1 as (_ & E & _); rewrite E. }
  rewrite bind_Done, Hk1 in *; destruct r as [first|]; [|exists None, po2, p2; by split_all].
  destruct Hres as (bks2 & c2 & Hg2 & Hs2); destruct (growing_finish _ _ _ _ _ _ _ _ _ _ _ _ Hg2) as (po3 & p3 & -> & Hrun & Hbr & Hs3 & Hk3 & Hm3).
  rewrite bind_Done, Hrun, bind_Done; exists (Some first), po3, p3; split; [done|]; split; [|split; [by rewrite Hm3|exists bks2; split; [done|]]].
  - intros r Hr'; rewrite Hk3 by done; by apply Hk2.
  - unfold same_rest in *; cbn in *; intuition congruence.
Qed.

(** ** The whole operation *)

(** The blocks are there: the elements go in. *)
Lemma ex_bulk_finish po p H T items n bks others start first xs fuel c :
  ex_core po p H T items ((T + 31) / 32 + Z.of_nat n) bks others -> ex_counters p H T ->
  ex_index p c ((T + 31) / 32 + Z.of_nat n) bks -> published p c ->
  (T mod 32 <> 0 -> bks !! Z.to_nat (Z.of_nat (length bks) - 1 - Z.of_nat n) = Some start) ->
  (T mod 32 = 0 -> (0 < n)%nat /\ bks !! (length bks - n)%nat = Some first) -> (n < length bks)%nat \/ T mod 32 = 0 /\ (n <= length bks)%nat ->
  0 < Z.of_nat (length xs) < 2 ^ 63 -> (T + Z.of_nat (length xs) + 31) / 32 = (T + 31) / 32 + Z.of_nat n -> (n < fuel)%nat ->
  let T' := T + Z.of_nat (length xs) in
  let s := if T mod 32 =? 0 then first else start in
  exists po' p', ex_bulk_fill fuel (u64 T') (ep_tailBlock p) (u64 T) xs po (set_ep_tailBlock s p) = Done (po', p') /\
    ex_fifo po' (set_ep_tailIndex (u64 T') p') H T' (items ++ xs) bks others /\ keeps others po po' /\ po_mallocs po' = po_mallocs po.
Proof.
  intros [Hlen Hu Htb Hw Hb (free & Hp) Hd] Hc Hio Hpub Hst Hfi Hn Hx Hkt Hf T' s; pose proof (Z.div_mod T 32); pose proof (Z.mod_pos_bound T 32).
  destruct (lookup_lt_is_Some_2 bks (length bks - 1)) as [e He]; [lia|].
  assert (last bks = Some e) as Hlast by (rewrite last_lookup; by replace (Nat.pred (length bks)) with (length bks - 1)%nat by lia).
  rewrite Hlast in Htb; cbn [default id] in Htb; rewrite Htb.
  assert (exists m d, bks !! m = Some s /\ number ((T + 31) / 32 + Z.of_nat n) bks m = T / 32 /\ (m + S d = length bks)%nat /\ (d <= n)%nat)
    as (m & d & Hs & Hm & Hmd & Hdn).
  { unfold s, number; destruct (Z.eqb_spec (T mod 32) 0) as [Hm|Hm].
    - destruct (Hfi Hm) as [Hn0 Hfirst]; rewrite ceil_div by done; exists (length bks - n)%nat, (n - 1)%nat; split_all; try done; lia.
    - specialize (Hst Hm); rewrite ceil_div_ne by done; exists (length bks - 1 - n)%nat, n; split_all; try lia.
      rewrite <- Hst; f_equal; lia. }
  destruct (ex_bulk_fill_ok H _ bks others free e d fuel m s T items xs po (set_ep_tailBlock s p) Hd Hlen Hs Hm Hmd He Hx Hkt Hp)
    as (po' & Hrun & Hd' & Hp' & Hk' & Hm'); [done|lia|]; fold T' in Hrun, Hkt, Hd'.
  eexists po', _; split; [exact Hrun|]; split; [split; rewrite ?Hkt|by split].
  - destruct Hc as (_ & ? & ?); by split_all.
  - exists c; split; [by apply (ex_index_ext p)|by intros _].
  - split; try done; [rewrite length_app; lia|cbn; by rewrite Hlast|by exists free].
Qed.

Lemma ep_enqueue_bulk_nil canAlloc po p T :
  ep_tailIndex p = u64 T -> ep_enqueue_bulk canAlloc [] po p = Done (true, po, p).
Proof.
  intros Ht; unfold ep_enqueue_bulk; rewrite Ht; change (Z.of_nat (length (@nil A))) with 0; cbv zeta.
  destruct (blocks_needed T 0) as [-> _]; [lia|]; rewrite !Z.add_0_r, Z.sub_diag; unfold bulk_blocks.
  change (32 * 0 =? 0) with true; change (0 =? 0) with true; cbn [negb]; rewrite bind_Done, orb_true_r, andb_false_r; cbn [check].
  rewrite bind_Done; cbn [ex_bulk_fill ep_tailBlock set_ep_tailBlock]; replace (u64 (u64 T)) with (u64 (T + 0)) by (rewrite <- u64_add; f_equal; lia).
  rewrite stop_index_share by lia; replace (share T 0) with 0 by (unfold share; pose proof (Z.mod_pos_bound T 32); lia).
  rewrite Z.add_0_r, !Z.eqb_refl, bind_Done, Z.eqb_refl; cbn [check]; rewrite !bind_Done, <- Ht; by destruct p.
Qed.

(** All elements are appended, or the operation says that it failed; then there is a
    reason. *)
Lemma ep_enqueue_bulk_ok canAlloc xs po p H T items bks others :
  ex_fifo po p H T items bks others -> Z.of_nat (length xs) < 2 ^ 63 -> po_brk po <= 2 ^ 58 ->
  exists ok po' p', ep_enqueue_bulk canAlloc xs po p = Done (ok, po', p') /\ keeps others po po' /\
    (po_mallocs po = [] -> po_mallocs po' = []) /\
    if ok then exists bks', ex_fifo po' p' H (T + Z.of_nat (length xs)) (items ++ xs) bks' others
    else 2 ^ 63 <= 32 * ((T + Z.of_nat (length xs) + 31) / 32) - H \/ canAlloc = false \/ po_mallocs po <> [].
Proof.
  intros Hf Hx Hbrk; pose proof Hf as [Hc (c & Hio & Hpub) Hco]; pose proof Hc as (Et & Eh & Eo).
  destruct (decide (xs = [])) as [->|Hne].
  { rewrite (ep_enqueue_bulk_nil canAlloc po p T) by done; exists true, po, p; split_all; try done; exists bks; by rewrite app_nil_r, Z.add_0_r. }
  assert (0 < Z.of_nat (length xs)) as Hx0 by (destruct xs; cbn; [done|lia]).
  unfold ep_enqueue_bulk; rewrite Et; set (cnt := Z.of_nat (length xs)) in *.
  destruct (blocks_needed T cnt) as [Hdiff Hrange]; [lia|]; rewrite Hdiff, base_before.
  destruct (Z_of_nat_complete _ (proj1 Hrange)) as [n Hn]; rewrite Hn in Hrange |- *; change BLOCK_SIZE with 32.
  rewrite (Z.mul_comm 32 (Z.of_nat n)), Z.div_mul, Nat2Z.id, (Z.mul_comm (Z.of_nat n)), slot_u64, u64_add by lia.
  assert ((T + cnt + 31) / 32 = (T + 31) / 32 + Z.of_nat n) as Hkt by lia.
  assert (T mod 32 <> 0 -> bks <> []) as Hbne.
  { intros Hm ->; destruct Hco as [Hlen _ _ Hw _ _ _]; cbn in Hw; rewrite ceil_div_ne in Hw by done.
    pose proof (Z.div_mod T 32); pose proof (Z.mod_pos_bound T 32); lia. }
  destruct n as [|n].
  - change (bulk_blocks 1 canAlloc (32 * Z.of_nat 0) _ po p) with (Done (Some 0, po, p)); rewrite bind_Done.
    assert (T mod 32 <> 0) as Hm.
    { intros Hm; rewrite (ceil_div T Hm) in Hkt; pose proof (Z.div_mod T 32); pose proof (Z.div_mod (T + cnt + 31) 32);
      pose proof (Z.mod_pos_bound (T + cnt + 31) 32); lia. }
    specialize (Hbne Hm); destruct (Z.eqb_spec (T mod 32) 0); [done|]; cbn [negb orb andb check]; rewrite bind_Done.
    rewrite Z.add_0_r in Hkt; destruct (ex_bulk_finish po p H T items 0 bks others (ep_tailBlock p) 0 xs 2 c)
      as (po' & p' & Hrun & Hf' & Hk' & Hm'); try done; rewrite ?Z.add_0_r; try done.
    + by apply Hpub.
    + intros _; destruct Hco as [_ _ Htb _ _ _ _]; destruct (last bks) as [t|] eqn:Hl; [|by apply last_None in Hl].
      cbn [default id] in Htb; rewrite Htb, <- Hl, last_lookup; f_equal; lia.
    + left; destruct bks; [done|cbn; lia].
    + lia.
    + rewrite (proj2 (Z.eqb_neq _ _) n) in Hrun; fold cnt in Hrun; rewrite Hrun, bind_Done; eexists true, po', _; split; [reflexivity|].
      split_all; [done|by rewrite Hm'|by exists bks].
  - destruct (bulk_blocks_ok canAlloc po p H T items bks others n Hf Hbrk) as (r & po1 & p1 & -> & Hk1 & Hm1 & Hres); [lia|].
    rewrite bind_Done; destruct r as [first|]; [|exists false, po1, p1; rewrite Hkt; by split_all].
    destruct Hres as (bks' & [Hco1 (c1 & Hio1 & Hpub1) Hcnt Hst Hfi] & Hs1).
    assert (ex_counters p1 H T) as Hc1 by (destruct Hs1 as (E1 & E2 & E3 & E4 & _); unfold ex_counters; by rewrite E1, E2, E3, E4).
    assert (first <> 0) as Hnz.
    { destruct Hco1 as [_ _ _ _ _ (free & Hp) _]; pose proof (used_nonzero _ _ _ _ Hp) as Hnz; rewrite Forall_lookup in Hnz; by apply (Hnz _ _ Hfi). }
    rewrite (proj2 (Z.eqb_neq first 0)) by done; cbn [negb]; rewrite orb_true_r, andb_true_r; cbn [check orb]; rewrite bind_Done.
    destruct (ex_bulk_finish po1 p1 H T items (S n) bks' others (ep_tailBlock p) first xs (S (S (S n))) c1)
      as (po2 & p2 & Hrun & Hf2 & Hk2 & Hm2); try done; [| |lia|].
    + intros _; split; [lia|done].
    + destruct (decide (T mod 32 = 0)) as [Hm|Hm]; [by right|left]; destruct Hco1 as [Hlen _ _ Hw _ _ _].
      rewrite ceil_div_ne in Hw by done; pose proof (Z.div_mod T 32); pose proof (Z.mod_pos_bound T 32); lia.
    + fold cnt in Hrun; rewrite Hrun, bind_Done; eexists true, po2, _; split; [reflexivity|].
      split; [intros r Hr; rewrite Hk2 by done; by apply Hk1|]; split; [by rewrite Hm2|by exists bks'].
Qed.
End fill.
