(* ===== verification/ExplicitQueue.v ===== *)
(** * Inside the concurrent queue: a producer with a token, from its construction on

    Any sequence of operations on a new producer answers as a FIFO list does, as long
    as no bulk enqueue fails; one that fails can leave the block index in a state
    from which later operations return the wrong elements. *)

From S2P Require Import Prelude BlockPool ImplicitProducer BlockIndex ProducerFifo ProducerBulk ExplicitProducer ExplicitFifo ExplicitBulk.

(** ** Powers of two *)

(** Bit [i] of [y] is set when one of the bits [i], ..., [i + n - 1] of [x] is. *)
Definition smeared (x y n : Z) : Prop :=
  0 <= y /\ forall i, 0 <= i -> Z.testbit y i = true <-> exists j, i <= j < i + n /\ Z.testbit x j = true.

Lemma smeared_start x : 0 <= x -> smeared x x 1.
Proof.
  intros Hx; split; [done|]; intros i Hi; split; [intros H; exists i; split; [lia|done]|].
  intros (j & Hj & H); by replace i with j by lia.
Qed.
Lemma smeared_shift x y n : 0 < n -> smeared x y n -> smeared x (or_shift y n) (2 * n).
Proof.
  intros Hn [Hy H]; unfold or_shift; split.
  { apply Z.lor_nonneg; split; [done|]; by apply Z.shiftr_nonneg. }
  intros i Hi; rewrite Z.lor_spec, Z.shiftr_spec, orb_true_iff, !H by lia; split.
  - intros [(j & Hj & ?)|(j & Hj & ?)]; exists j; split; try done; lia.
  - intros (j & Hj & ?); destruct (decide (j < i + n)); [left|right]; exists j; split; try done; lia.
Qed.

Lemma smeared_ones x y n : 0 < x < 2 ^ n -> 0 <= n -> smeared x y n -> y = Z.ones (Z.log2 x + 1).
Proof.
  intros Hx Hn [Hy H]; pose proof (Z.log2_nonneg x); pose proof (Z.log2_spec x); assert (Z.log2 x < n) by (apply Z.log2_lt_pow2; lia).
  apply Z.bits_inj'; intros i Hi; apply eq_true_iff_eq; rewrite H by lia; rewrite Z.ones_spec_iff by lia; split.
  - intros (j & Hj & Ht); destruct (decide (i <= Z.log2 x)); [lia|]; rewrite Z.bits_above_log2 in Ht by lia; done.
  - intros Hl; exists (Z.log2 x); split; [lia|]; apply Z.bit_log2; lia.
Qed.

(** The smallest power of two that is not less. *)
Lemma ceil_to_pow_2_ok x : 0 < x <= 2 ^ 63 -> ceil_to_pow_2 x = 2 ^ Z.log2_up x.
Proof.
  intros Hx; unfold ceil_to_pow_2; rewrite (wrap_small 64 (x - 1)) by (unfold in_u; lia); cbn [fold_left].
  destruct (decide (x = 1)) as [->|Hne]; [done|].
  set (z := or_shift _ _); assert (smeared (x - 1) z 64) as Hz.
  { unfold z; change 64 with (2 * 32); change (Z.shiftl 4 3) with 32; apply smeared_shift; [lia|].
    change (smeared (x - 1) (or_shift (or_shift (or_shift (or_shift (or_shift (x - 1) 1) 2) 4) 8) 16) (2 * 16)); apply smeared_shift; [lia|].
    apply (smeared_shift _ _ 8), (smeared_shift _ _ 4), (smeared_shift _ _ 2), (smeared_shift _ _ 1), smeared_start; lia. }
  apply smeared_ones in Hz as ->; [|lia..]; rewrite Z.log2_up_eqn by lia; rewrite Z.ones_equiv, Z.sub_1_r.
  replace (Z.pred x) with (x - 1) by lia; unfold Z.succ; pose proof (Z.log2_nonneg (x - 1)).
  assert (Z.log2 (x - 1) < 63) by (apply Z.log2_lt_pow2; lia).
  rewrite wrap_small by (pose proof (Z.pow_le_mono_r 2 (Z.log2 (x - 1) + 1) 63); unfold in_u; lia); lia.
Qed.

(** ** The constructor *)

Section construct.
Context {A : Type}.
Implicit Types (po : pool A).

Lemma initial_size_ok s :
  0 <= s <= 2 ^ 58 ->
  exists c, 4 <= c <= 57 /\
    (if 16 <? Z.shiftr (ceil_to_pow_2 s) 1 then Z.shiftr (ceil_to_pow_2 s) 1 else 16) = 2 ^ c.
Proof.
  intros Hs; destruct (Z.ltb_spec 16 (Z.shiftr (ceil_to_pow_2 s) 1)) as [Hl|]; [|by exists 4].
  destruct (decide (s = 0)) as [->|Hne]; [done|]; rewrite ceil_to_pow_2_ok in * by lia.
  pose proof (Z.log2_up_nonneg s); assert (Z.log2_up s <= 58) by (apply Z.log2_up_le_pow2; lia).
  destruct (decide (Z.log2_up s = 0)) as [E|E]; [rewrite E in Hl; done|].
  rewrite Z.shiftr_div_pow2 in * by lia; rewrite <- Z.pow_sub_r in * by lia; exists (Z.log2_up s - 1); split; [|done].
  assert (2 ^ 4 < 2 ^ (Z.log2_up s - 1)) as H4 by (change (2 ^ 4) with 16; lia); apply Z.pow_lt_mono_r_iff in H4; lia.
Qed.

Lemma new_explicit_producer_ok po free others :
  pool_inv po free others -> po_initialBlockPoolSize po <= 2 ^ 58 ->
  exists po' p, new_explicit_producer po = Done (po', p) /\ ex_fifo po' p 0 0 [] [] others /\
    keeps others po po' /\ po_brk po' = po_brk po /\ (po_mallocs po = [] -> po_mallocs po' = []).
Proof.
  intros Hp Hs; pose proof (pi_index _ _ _ Hp); unfold new_explicit_producer.
  change (Z.shiftr EXPLICIT_INITIAL_INDEX_SIZE 1) with 16; destruct (initial_size_ok (po_initialBlockPoolSize po)) as (c & Hc & ->); [lia|].
  set (p0 := {| ep_tailIndex := 0 |}); assert (0 < 2 ^ c) by (apply Z.pow_pos_nonneg; lia).
  assert (ex_index p0 c 0 []) as Hio by (split; try done; cbn; try lia; split; [done|lia]).
  destruct (ex_new_block_index_ok 0 po p0 c 0 [] Hio) as (ok & p' & -> & Hok); [done|lia|by left|]; rewrite bind_Done.
  exists (malloc_ok po).2, p'; split; [done|]; split; [|split; [done|split; [done|cbn; by intros ->]]].
  assert (same_rest p0 p' /\ ep_blockIndexSlotsUsed p' = 0 /\ exists c', ex_index p' c' 0 []) as (Hs' & Hu & c' & Hio').
  { destruct ok; [destruct Hok as (? & ? & ? & _); split_all; try done; by eexists|destruct Hok as [-> _]; split_all; try done; by exists c]. }
  destruct Hs' as (E1 & E2 & E3 & E4 & E5); split; [unfold ex_counters; by rewrite E1, E2, E3, E4|by exists c'|].
  split; rewrite ?E5; try done; exists free; by apply pool_inv_malloc.
Qed.
End construct.


(** ** Fresh addresses

    How many blocks an operation may create. *)

Section brk.
Context {A : Type}.
Implicit Types (po : pool A) (p : ExplicitProducer).

(** At most [n] more addresses are in use afterwards. *)
Definition creates (n : Z) po {B} (r : run B) (after : B -> pool A) : Prop :=
  ensures r (fun x => po_brk (after x) <= po_brk po + n).

(** One step into a run. *)
Ltac creates_step :=
  match goal with
  | |- ensures (mret _) _ => apply ensures_ret; cbn; lia
  | |- ensures (Done _) _ => apply ensures_ret; cbn; lia
  | |- ensures (deref _) _ => apply ensures_deref; intros ? _
  | |- ensures (load _ _) _ => apply ensures_deref; intros ? _
  | |- ensures (check ?b) _ => destruct b; [intros [] _|done]
  | |- ensures (_ ≫= _) _ => apply ensures_bind
  | |- ensures (if ?b then _ else _) _ => destruct b
  | |- ensures (match ?x with _ => _ end) _ => destruct x
  | |- ensures _ _ => done
  end; cbv beta iota zeta.
(** Using what is known of a call. *)
Ltac creates_from H := eapply ensures_weaken; [apply H|]; cbv beta; intros; cbv beta.

Lemma free_list_creates po : creates 0 po (try_get_block_from_free_list po) snd.
Proof. unfold creates, try_get_block_from_free_list, free_list_try_get; repeat creates_step. Qed.

Lemma requisition_creates canAlloc po : creates 1 po (requisition_block canAlloc po) snd.
Proof.
  unfold creates, requisition_block; assert (po_brk (try_get_block_from_initial_pool po).2 = po_brk po) as Hi.
  { unfold try_get_block_from_initial_pool; by destruct (_ <=? _). }
  destruct (try_get_block_from_initial_pool po) as [q1 po1]; cbn in Hi; repeat creates_step.
  creates_from free_list_creates; destruct a as [q2 po2]; cbn in H; destruct (negb _); [creates_step|].
  destruct canAlloc; [|creates_step]; unfold create_block, malloc_ok; destruct (default true _); creates_step.
Qed.

Lemma new_index_creates n' po p : creates 0 po (ex_new_block_index n' po p) (fun r => r.1.2).
Proof.
  unfold creates, ex_new_block_index, malloc_ok; destruct (default true _); cbn [negb]; [|creates_step].
  apply ensures_bind; intros copied _; creates_step.
Qed.
Lemma make_room_creates canAlloc n' po p : creates 0 po (make_room canAlloc n' po p) (fun r => r.1.2).
Proof. unfold creates, make_room; creates_step; [|creates_step]; destruct canAlloc; cbn [negb]; [apply new_index_creates|creates_step]. Qed.
Lemma link_creates q po p : creates 0 po (link_ring q po p) fst.
Proof.
  unfold creates, link_ring; apply ensures_bind; eapply ensures_weaken with (Q := fun po' => po_brk po' = po_brk po).
  - repeat (creates_step || (apply ensures_ret; done)).
  - intros po' E; apply ensures_ret; cbn; lia.
Qed.

Lemma next_new_creates canAlloc po p : creates 1 po (next_new canAlloc po p) (fun r => r.1.2).
Proof.
  unfold creates, next_new; creates_step; creates_from make_room_creates; destruct a as [[ok po1] p1]; cbn in H.
  destruct (negb ok); [creates_step|]; creates_step; creates_from requisition_creates; destruct a as [q po2]; cbn in H0.
  destruct (q =? 0); [creates_step|]; repeat creates_step; creates_from link_creates; destruct a0 as [po3 p3]; cbn in H1.
  creates_step.
Qed.
Lemma next_block_creates canAlloc po p : creates 1 po (next_block canAlloc po p) (fun r => r.1.2).
Proof.
  unfold creates, next_block; creates_step; intros again _; destruct again; [repeat creates_step|].
  repeat creates_step; apply next_new_creates.
Qed.
Lemma ep_enqueue_creates canAlloc x po p : creates 1 po (ep_enqueue canAlloc x po p) (fun r => r.1.2).
Proof.
  unfold creates, ep_enqueue; creates_step.
  eapply ensures_weaken with (Q := fun r => po_brk r.1.2 <= po_brk po + 1); [|intros [[ok po1] p1] H; cbn in H; repeat creates_step].
  creates_step; [|creates_step]; creates_step; creates_from next_block_creates; destruct a as [[ok po1] p1]; cbn in H.
  destruct (negb ok); [creates_step|]; creates_step; intros p2 _; creates_step; intros p3 _; creates_step.
Qed.

Lemma reset_blocks_creates fuel : forall q last po, creates 0 po (reset_blocks fuel q last po) id.
Proof.
  induction fuel as [|fuel IH]; intros q last po; unfold creates; cbn [reset_blocks]; [done|].
  creates_step; creates_step; creates_step; [creates_step|]; exact (IH _ _ _).
Qed.
Lemma bulk_requisition_creates canAlloc start used fuel : forall front diff cur first po p,
  creates (Z.of_nat fuel) po (bulk_requisition fuel canAlloc start front used diff cur first po p) (fun r => r.1.2).
Proof.
  induction fuel as [|fuel IH]; intros front diff cur first po p; unfold creates; cbn [bulk_requisition]; creates_step;
    [creates_step|done|creates_step|]; cbv zeta; creates_step; creates_step; creates_step.
  eapply ensures_weaken with (Q := fun r => po_brk r.1.2 <= po_brk po).
  { creates_step; [|creates_step]; creates_step; [creates_step|]; creates_step; creates_from new_index_creates.
    destruct a as [[ok po1] p1]; cbn in H; creates_step. }
  intros [[[ok front'] po1] p1] H1; cbn in H1; destruct (negb ok); [creates_step|].
  creates_step; creates_from requisition_creates; destruct a as [q po2]; cbn in H; destruct (q =? 0); [creates_step|].
  repeat creates_step; creates_from link_creates; destruct a0 as [po3 p3]; cbn in H0; creates_step; intros p4 _.
  creates_from IH; cbn in H2; lia.
Qed.
Lemma fill_creates newTail endBlock fuel : forall cur (xs : list A) po p,
  creates 0 po (ex_bulk_fill fuel newTail endBlock cur xs po p) fst.
Proof.
  induction fuel as [|fuel IH]; intros cur xs po p; unfold creates; cbn [ex_bulk_fill]; [done|]; creates_step.
  eapply ensures_weaken with (Q := fun r => po_brk r.2 = po_brk po).
  { creates_step; [by apply ensures_ret|]; creates_step; creates_step; creates_step; intros [[c ys] b] _; by apply ensures_ret. }
  intros [[c ys] po1] H; cbn in H; creates_step; [repeat creates_step|]; creates_step; creates_step.
  creates_from IH; lia.
Qed.

Lemma ep_enqueue_bulk_creates canAlloc (xs : list A) po p T :
  ep_tailIndex p = u64 T -> Z.of_nat (length xs) < 2 ^ 63 ->
  creates (Z.of_nat (length xs) + 1) po (ep_enqueue_bulk canAlloc xs po p) (fun r => r.1.2).
Proof.
  intros Ht Hx; unfold creates, ep_enqueue_bulk; rewrite Ht; set (cnt := Z.of_nat (length xs)) in *.
  destruct (blocks_needed T cnt) as [-> Hr]; [lia|]; change BLOCK_SIZE with 32; rewrite (Z.mul_comm 32), Z.div_mul by lia.
  set (n := (T + cnt + 31) / 32 - (T + 31) / 32) in *; assert (n <= cnt) as Hn.
  { unfold n; destruct (decide (cnt = 0)) as [->|]; [rewrite Z.add_0_r; lia|].
    assert ((T + cnt + 31) / 32 <= (T + 31 + cnt * 32) / 32) as H by (apply Z.div_le_mono; lia); rewrite Z.div_add in H by lia; lia. }
  creates_step; eapply ensures_weaken with (Q := fun r => po_brk r.1.2 <= po_brk po + cnt + 1).
  - unfold bulk_blocks; creates_step; [creates_step|]; creates_step; intros [[[diff c] first] p'] _.
    creates_step; creates_from bulk_requisition_creates; destruct a as [[res po1] p1]; cbn [fst snd] in H.
    destruct res as [first'|]; [|apply ensures_ret; cbn; lia].
    creates_step; creates_from reset_blocks_creates; creates_step; intros p2 _; apply ensures_ret; cbn in *; lia.
  - intros [[res po1] p1] H; cbn in H; destruct res as [first|]; [|creates_step]; creates_step; creates_step.
    creates_step; creates_from fill_creates; destruct a as [po2 p2]; cbn in H0; creates_step.
Qed.

Lemma ep_dequeue_creates po p : creates 0 po (ep_dequeue po p) (fun r => r.1.2).
Proof.
  unfold creates, ep_dequeue; cbv zeta; creates_step; [|creates_step].
  creates_step; intros [i h] _; creates_step; intros e _; creates_step; creates_step; creates_step; creates_step.
  creates_step; intros b _; creates_step.
Qed.
Lemma bulk_take_creates h last fuel : forall index i po, creates 0 po (ex_bulk_take fuel h last index i po) snd.
Proof.
  induction fuel as [|fuel IH]; intros index i po; unfold creates; cbn [ex_bulk_take]; [done|].
  creates_step; intros e _; creates_step; creates_step; creates_step; intros [xs b] _; creates_step; intros b' _.
  creates_step; [creates_step|]; creates_step; creates_from IH; destruct a0 as [ys po1]; cbn in H; creates_step.
Qed.
Lemma ep_dequeue_bulk_creates max po p : creates 0 po (ep_dequeue_bulk max po p) (fun r => r.1.2).
Proof.
  unfold creates, ep_dequeue_bulk; cbv zeta; creates_step; [|creates_step].
  creates_step; intros [i h] _; creates_step; creates_from bulk_take_creates; destruct a as [xs po1]; cbn in H; creates_step.
Qed.
End brk.

(** ** Sequences of operations *)

Inductive ex_op (A : Type) :=
  | ExEnqueue (canAlloc : bool) (x : A) | ExEnqueueBulk (canAlloc : bool) (xs : list A)
  | ExDequeue | ExDequeueBulk (max : Z).
Arguments ExEnqueue {A} _ _.
Arguments ExEnqueueBulk {A} _ _.
Arguments ExDequeue {A}.
Arguments ExDequeueBulk {A} _.

Inductive ex_answer (A : Type) := Enqueued (ok : bool) | Dequeued (xs : list A).
Arguments Enqueued {A} _.
Arguments Dequeued {A} _.

Section ops.
Context {A : Type}.
Implicit Types (po : pool A) (p : ExplicitProducer) (items : list A) (ops : list (ex_op A)).

Definition ex_do (op : ex_op A) po p : run (ex_answer A * pool A * ExplicitProducer) :=
  match op with
  | ExEnqueue canAlloc x => '(ok, po, p) ← ep_enqueue canAlloc x po p; mret (Enqueued ok, po, p)
  | ExEnqueueBulk canAlloc xs => '(ok, po, p) ← ep_enqueue_bulk canAlloc xs po p; mret (Enqueued ok, po, p)
  | ExDequeue => '(x, po, p) ← ep_dequeue po p; mret (Dequeued (option_list x), po, p)
  | ExDequeueBulk max => '(xs, po, p) ← ep_dequeue_bulk max po p; mret (Dequeued xs, po, p)
  end.
(** A bulk enqueue has failed. *)
Definition bulk_failed (op : ex_op A) (r : ex_answer A) : bool :=
  match op, r with ExEnqueueBulk _ _, Enqueued false => true | _, _ => false end.
(** The operations in turn, up to a bulk enqueue that fails. *)
Fixpoint ex_run ops po p : run (list (ex_answer A) * pool A * ExplicitProducer) :=
  match ops with
  | [] => mret ([], po, p)
  | op :: ops =>
      '(r, po, p) ← ex_do op po p;
      if bulk_failed op r then mret ([r], po, p)
      else '(rs, po, p) ← ex_run ops po p; mret (r :: rs, po, p)
  end.

(** What a FIFO list does: its next contents, or [None] where the operation failed
    and is a bulk enqueue. *)
Definition fifo_next (op : ex_op A) (r : ex_answer A) items : option (list A) :=
  match op, r with
  | ExEnqueue _ x, Enqueued ok => Some (if ok then items ++ [x] else items)
  | ExEnqueueBulk _ xs, Enqueued ok => if ok then Some (items ++ xs) else None
  | ExDequeue, Dequeued _ => Some (tail items)
  | ExDequeueBulk max, Dequeued _ => Some (drop (Z.to_nat max) items)
  | _, _ => None
  end.
(** Its answers; [sure] says that no allocation fails. *)
Definition fifo_answer (sure : Prop) (op : ex_op A) (r : ex_answer A) items : Prop :=
  match op, r with
  | ExEnqueue canAlloc _, Enqueued ok | ExEnqueueBulk canAlloc _, Enqueued ok => sure -> canAlloc = true -> ok = true
  | ExDequeue, Dequeued xs => xs = option_list (head items)
  | ExDequeueBulk max, Dequeued xs => xs = take (Z.to_nat max) items
  | _, _ => False
  end.

Definition ex_valid (op : ex_op A) : Prop := match op with ExDequeueBulk max => 0 <= max < 2 ^ 64 | _ => True end.
(** A bound on the blocks and the elements it adds. *)
Definition ex_weight (op : ex_op A) : Z :=
  match op with ExEnqueue _ _ => 1 | ExEnqueueBulk _ xs => Z.of_nat (length xs) + 1 | _ => 0 end.

(** One operation. *)
Lemma ex_do_ok op po p H T items bks others :
  ex_fifo po p H T items bks others -> ex_valid op -> T - H + ex_weight op <= 2 ^ 59 -> po_brk po + ex_weight op <= 2 ^ 58 ->
  exists r po' p', ex_do op po p = Done (r, po', p') /\ keeps others po po' /\ (po_mallocs po = [] -> po_mallocs po' = []) /\
    po_brk po' <= po_brk po + ex_weight op /\ fifo_answer (po_mallocs po = []) op r items /\
    forall items', fifo_next op r items = Some items' ->
      exists H' T' bks', ex_fifo po' p' H' T' items' bks' others /\ T' - H' <= T - H + ex_weight op.
Proof.
  intros Hf Hv Hw Hbrk; pose proof (ef_counters _ _ _ _ _ _ _ Hf) as (Et & _); pose proof (ec_len _ _ _ _ _ _ _ _ _ (ef_core _ _ _ _ _ _ _ Hf)) as Hlen.
  destruct op as [canAlloc x|canAlloc xs| |max]; cbn [ex_do ex_weight ex_valid] in *.
  - pose proof (ep_enqueue_creates canAlloc x po p) as Hc.
    destruct (ep_enqueue_ok canAlloc x po p H T items bks others Hf) as (ok & po' & p' & E & Hk & Hm & Hres); [lia|].
    rewrite E in *; specialize (Hc _ eq_refl); rewrite bind_Done; exists (Enqueued ok), po', p'; split_all; try done.
    + destruct ok; [done|]; intros Hs ->; destruct Hres as (_ & [?|[?|?]]); [lia|done|done].
    + intros items' [= <-]; destruct ok; [destruct Hres as [bks' ?]; exists H, (T + 1), bks'; split; [done|lia]|].
      destruct Hres as [? _]; exists H, T, bks; split; [done|lia].
  - pose proof (ep_enqueue_bulk_creates canAlloc xs po p T Et) as Hc; pose proof (Z.div_mod (T + Z.of_nat (length xs) + 31) 32).
    pose proof (Z.mod_pos_bound (T + Z.of_nat (length xs) + 31) 32).
    destruct (ep_enqueue_bulk_ok canAlloc xs po p H T items bks others Hf) as (ok & po' & p' & E & Hk & Hm & Hres); [lia..|].
    rewrite E in *; specialize (Hc ltac:(lia) _ eq_refl); rewrite bind_Done; exists (Enqueued ok), po', p'; cbn in Hc; split_all; try done.
    + destruct ok; [done|]; intros Hs ->; destruct Hres as [?|[?|?]]; [lia|done|done].
    + destruct ok; [|done]; intros items' [= <-]; destruct Hres as [bks' ?]; exists H, (T + Z.of_nat (length xs)), bks'; split; [done|lia].
  - pose proof (ep_dequeue_creates po p) as Hc; pose proof (ep_dequeue_ok po p H T items bks others Hf) as Hd.
    destruct items as [|x items].
    + rewrite Hd, bind_Done; exists (Dequeued []), po, p; split_all; try done; [lia|]; intros items' [= <-]; exists H, T, bks; split; [done|lia].
    + destruct Hd as (po' & p' & E & Hf' & Hk & Hm); rewrite E in *; specialize (Hc _ eq_refl); rewrite bind_Done.
      exists (Dequeued [x]), po', p'; split_all; try done; [by rewrite Hm|]; intros items' [= <-]; exists (H + 1), T, bks; split; [done|lia].
  - pose proof (ep_dequeue_bulk_creates max po p) as Hc; destruct (ep_dequeue_bulk_ok max po p H T items bks others Hf Hv) as (po' & p' & E & Hf' & Hk & Hm).
    rewrite E in *; specialize (Hc _ eq_refl); rewrite bind_Done; exists (Dequeued (take (Z.to_nat max) items)), po', p'; split_all; try done.
    + by rewrite Hm.
    + intros items' [= <-]; eexists _, T, bks; split; [done|lia].
Qed.

(** The answers to a sequence are those of a list, up to a bulk enqueue that fails. *)
Fixpoint fifo_answers (sure : Prop) ops (rs : list (ex_answer A)) items : Prop :=
  match ops, rs with
  | [], [] => True
  | op :: ops, r :: rs =>
      fifo_answer sure op r items /\
      match fifo_next op r items with Some items => fifo_answers sure ops rs items | None => rs = [] end
  | _, _ => False
  end.

Definition ex_total ops : Z := foldr (fun op n => ex_weight op + n) 0 ops.

Lemma ex_weight_nonneg (op : ex_op A) : 0 <= ex_weight op.
Proof. destruct op; cbn; lia. Qed.
Lemma ex_total_nonneg ops : 0 <= ex_total ops.
Proof.
  induction ops as [|op ops IH]; [done|]; change (ex_total (op :: ops)) with (ex_weight op + ex_total ops).
  pose proof (ex_weight_nonneg op); lia.
Qed.

Lemma fifo_answers_sure (P Q : Prop) ops : forall rs items, (Q -> P) -> fifo_answers P ops rs items -> fifo_answers Q ops rs items.
Proof.
  induction ops as [|op ops IH]; intros [|r rs] items HQ; cbn; try done; intros [Ha Hn]; split.
  - destruct op, r; cbn in *; auto.
  - destruct (fifo_next op r items); [by apply IH|done].
Qed.

(** No bulk enqueue has failed. *)
Definition all_kept ops (rs : list (ex_answer A)) : Prop := Forall2 (fun op r => bulk_failed op r = false) ops rs.

Lemma ex_run_ok ops : forall po p H T items bks others,
  ex_fifo po p H T items bks others -> Forall ex_valid ops -> T - H + ex_total ops <= 2 ^ 59 -> po_brk po + ex_total ops <= 2 ^ 58 ->
  exists rs po' p', ex_run ops po p = Done (rs, po', p') /\ keeps others po po' /\ fifo_answers (po_mallocs po = []) ops rs items /\
    (all_kept ops rs -> po_brk po' <= 2 ^ 58 /\ exists H' T' items' bks', ex_fifo po' p' H' T' items' bks' others).
Proof.
  induction ops as [|op ops IH]; intros po p H T items bks others Hf Hv Hw Hbrk; cbn [ex_run].
  { exists [], po, p; split_all; try done; intros _; split; [cbn in Hbrk; lia|by exists H, T, items, bks]. }
  change (ex_total (op :: ops)) with (ex_weight op + ex_total ops) in *; pose proof (ex_weight_nonneg op); pose proof (ex_total_nonneg ops); apply Forall_cons in Hv as [Hv1 Hv].
  destruct (ex_do_ok op po p H T items bks others Hf Hv1) as (r & po1 & p1 & -> & Hk1 & Hm1 & Hb1 & Ha & Hn); [lia|lia|].
  rewrite bind_Done; destruct (fifo_next op r items) as [items'|] eqn:En.
  - assert (bulk_failed op r = false) as -> by (destruct op, r as [[]|]; done).
    destruct (Hn _ eq_refl) as (H' & T' & bks' & Hf' & Hw'); destruct (IH po1 p1 H' T' items' bks' others Hf' Hv) as (rs & po2 & p2 & -> & Hk2 & Hrs & Hlast); [lia|lia|].
    rewrite bind_Done; exists (r :: rs), po2, p2; split; [done|]; split; [intros q Hq; rewrite Hk2 by done; by apply Hk1|].
    split; [cbn; rewrite En; split; [done|]; by apply (fifo_answers_sure _ _ _ _ _ Hm1)|by intros [_ Hrest]%Forall2_cons; apply Hlast].
  - assert (bulk_failed op r = true) as Ebf by (destruct op, r as [[]|]; done).
    rewrite Ebf; exists [r], po1, p1; split; [done|]; split; [done|]; split; [cbn; by rewrite En|].
    intros [Hno _]%Forall2_cons; congruence.
Qed.

(** C17: a new producer with a token, whatever the allocator answers: as long as no
    bulk enqueue fails, the answers of any sequence of enqueues and dequeues, single
    and bulk, are those of a FIFO list, and the blocks of the other producers stay as
    they are.  Nothing fails when allocation is allowed and succeeds.  The bound
    leaves room for the blocks in the address space. *)
Theorem explicit_producer_fifo ops po free others :
  pool_inv po free others -> po_initialBlockPoolSize po <= 2 ^ 58 -> Forall ex_valid ops -> po_brk po + ex_total ops <= 2 ^ 58 ->
  exists po1 p1 rs po' p', new_explicit_producer po = Done (po1, p1) /\ ex_run ops po1 p1 = Done (rs, po', p') /\
    keeps others po po' /\ fifo_answers (po_mallocs po = []) ops rs [].
Proof.
  intros Hp Hs Hv Hbrk; destruct (new_explicit_producer_ok po free others Hp Hs) as (po1 & p1 & Hrun & Hf & Hk & Hb & Hm).
  pose proof (pi_brk _ _ _ Hp); destruct (ex_run_ok ops po1 p1 0 0 [] [] others Hf Hv) as (rs & po' & p' & Hrs & Hk' & Ha & _); [lia|lia|].
  exists po1, p1, rs, po', p'; split_all; try done; [intros q Hq; rewrite Hk' by done; by apply Hk|].
  by apply (fifo_answers_sure _ _ _ _ _ Hm).
Qed.
End ops.

Lemma explicit_producer_fifo_witness :
  exists po1 p1 rs po' p', new_explicit_producer (populate_initial_block_list 2 1 [true; true; false]) = Done (po1, p1) /\
    ex_run [ExEnqueueBulk true (seqZ 0 70); ExDequeueBulk 40; ExEnqueue false 70; ExEnqueueBulk true (seqZ 71 40); ExDequeue;
            ExEnqueueBulk true (seqZ 111 60)] po1 p1 = Done (rs, po', p') /\
    keeps [] (populate_initial_block_list 2 1 [true; true; false]) po' /\
    fifo_answers (po_mallocs (populate_initial_block_list (A := Z) 2 1 [true; true; false]) = [])
      [ExEnqueueBulk true (seqZ 0 70); ExDequeueBulk 40; ExEnqueue false 70; ExEnqueueBulk true (seqZ 71 40); ExDequeue;
       ExEnqueueBulk true (seqZ 111 60)] rs [].
Proof.
  apply (explicit_producer_fifo _ _ [] []).
  - apply populate_ok; lia.
  - vm_compute; discriminate.
  - repeat constructor; cbn; lia.
  - vm_compute; discriminate.
Defined.

(** ** A bulk enqueue that fails *)

(** The second block of a bulk enqueue cannot be had; the operation fails and leaves
    the first one in the ring of blocks, which is then longer than the number of
    slots in use says.  When the block index has been gone through, a new entry
    replaces that of the oldest block. *)
Definition after_failed_bulk : run (bool * list (ex_answer Z) * option Z * pool Z * ExplicitProducer) :=
  '(po, p) ← new_explicit_producer (populate_initial_block_list 0 1 [true; true; false]);
  '(ok, po, p) ← ep_enqueue_bulk true (replicate 64 0) po p;
  '(rs, po, p) ← ex_run (map (ExEnqueue true) (seqZ 1 1025)) po p;
  '(x, po, p) ← ep_dequeue po p;
  mret (ok, rs, x, po, p).

(** the FIFO order is lost after a bulk enqueue through a token that fails: with
    a second block refused by the allocator, a bulk enqueue of 64 elements fails as
    it should; of the 1025 elements enqueued one by one afterwards, all successfully,
    the first dequeue yields the last one and the next dequeue reads a slot without
    an element. *)
Theorem explicit_failed_bulk_order :
  exists po p, after_failed_bulk = Done (false, replicate 1025 (Enqueued true), Some 1025, po, p) /\
    ep_dequeue po p = Undefined.
Proof.
  assert (match after_failed_bulk with
          | Done (ok, rs, x, po, p) =>
              ok = false /\ rs = replicate 1025 (Enqueued true) /\ x = Some 1025 /\ ep_dequeue po p = Undefined
          | _ => False
          end) as H by (vm_compute; by split_all).
  destruct after_failed_bulk as [[[[[ok rs] x] po] p]| | |]; try done; destruct H as (-> & -> & -> & H); by exists po, p.
Qed.
