(* ===== verification/ExplicitDestroy.v ===== *)
(** * The destructor of a producer with a token

    [~ExplicitProducer] goes round the ring of blocks twice: it destroys the elements
    still queued, each once, in their order, then frees the blocks that were allocated one by one and
    gives the others back. *)

From S2P Require Import Prelude BlockPool ImplicitProducer BlockIndex ProducerFifo ProducerBulk ProducerDestroy ExplicitProducer ExplicitFifo ExplicitBulk ExplicitQueue.

Section blocks.
Context {A : Type}.
Implicit Types (po : pool A) (b : block A).

(** A block that is freed is in nobody's hands. *)
Lemma pool_inv_free po free used q b :
  pool_inv po free (q :: used) -> po_blocks po !! q = Some b -> b_dynamicallyAllocated b = true ->
  pool_inv (set_blocks (delete q (po_blocks po)) po) free used /\ keeps used po (set_blocks (delete q (po_blocks po)) po).
Proof.
  intros [Hc Hh Hn Hg Hi Hs Hk Ha Har] Hb Hd; cbn [app] in *.
  assert ((q ∉ free ++ used ++ fresh po) /\ NoDup (free ++ used ++ fresh po)) as [Hq Hn'] by (by rewrite <- Permutation_middle in Hn; apply NoDup_cons in Hn).
  rewrite !not_elem_of_app in Hq; destruct Hq as (Hf & Hu & Hfr).
  assert (forall p, p <> q -> delete q (po_blocks po) !! p = po_blocks po !! p) as Hext by (intros; by apply lookup_delete_ne).
  split; [|intros p Hp; cbn; apply Hext; by intros ->].
  split; cbn; try done.
  - eapply chain_ext; [|exact Hc]; intros p Hp; apply Hext; congruence.
  - apply Forall_cons in Hh as [_ Hh]; eapply held_ext; [|exact Hh]; intros p [Hp|Hp]%elem_of_app; apply Hext; by intros ->.
  - intros p b' Hp; apply lookup_delete_Some in Hp as [_ Hp]; eauto.
  - intros p b' Hp; apply lookup_delete_Some in Hp as [Hne Hp]; destruct (Ha p b' Hp) as [Hin Hdy]; split; [|done].
    cbn [app] in Hin; rewrite <- Permutation_middle in Hin; by apply elem_of_cons in Hin as [->|Hin].
Qed.

Lemma destroy_slots_ok n : forall i b,
  (forall j, i <= j < i + Z.of_nat n -> is_Some (b_elements b !! j)) ->
  exists xs es, destroy_slots n i b = Done (xs, set_b_elements es b) /\ length xs = n /\
    (forall k : nat, (k < n)%nat -> xs !! k = b_elements b !! (i + Z.of_nat k)) /\
    forall j, es !! j = if decide (i <= j < i + Z.of_nat n) then None else b_elements b !! j.
Proof.
  induction n as [|n IH]; intros i b Hi; cbn [destroy_slots].
  { exists [], (b_elements b); split; [by destruct b|]; split; [done|]; split; [lia|].
    intros j; by rewrite decide_False by lia. }
  destruct (Hi i) as [x Hx]; [lia|]; rewrite Hx; cbn [deref]; rewrite bind_Done.
  destruct (IH (i + 1) (set_b_elements (delete i (b_elements b)) b)) as (xs & es & -> & Hl & Hxs & Hes).
  { intros j Hj; cbn; rewrite lookup_delete_ne by lia; apply Hi; lia. }
  rewrite bind_Done; exists (x :: xs), es; split; [done|]; split; [cbn; by rewrite Hl|]; split.
  { intros [|k] Hk; cbn [lookup list_lookup]; [by rewrite Z.add_0_r|]; rewrite Hxs by lia; cbn.
    rewrite lookup_delete_ne by lia; f_equal; lia. }
  intros j; rewrite Hes; cbn; destruct (decide (j = i)) as [->|Hne].
  - rewrite decide_False, decide_True by lia; apply lookup_delete_eq.
  - rewrite lookup_delete_ne by done; repeat case_decide; done || (exfalso; lia).
Qed.

(** The blocks [rs] are linked in this order behind [q]. *)
Fixpoint path po (q : Z) (rs : list Z) : Prop :=
  match rs with [] => True | r :: rs => exists b, po_blocks po !! q = Some b /\ b_next b = r /\ path po r rs end.
Lemma path_ext po po' q rs : (forall r, r ∈ q :: removelast rs -> po_blocks po' !! r = po_blocks po !! r) -> path po q rs -> path po' q rs.
Proof.
  revert q; induction rs as [|r rs IH]; intros q Hext; [done|]; intros (b & Hb & Hn & Hp); exists b; split; [rewrite Hext; [done|by left]|].
  split; [done|]; destruct rs as [|r' rs]; [done|]; apply IH; [|done]; intros x Hx; apply Hext; by right.
Qed.

(** One block freed or given back; [dyn] says which. *)
Lemma give_back_ok (dyn : Z -> bool) po free used q b :
  pool_inv po free (q :: used) -> po_blocks po !! q = Some b -> b_dynamicallyAllocated b = dyn q ->
  exists freed po' free',
    (if b_dynamicallyAllocated b then mret ([q], set_blocks (delete q (po_blocks po)) po)
     else po ← add_block_to_free_list q po; mret ([], po)) = Done (freed, po') /\
    freed = filter (fun r => dyn r = true) [q] /\ pool_inv po' free' used /\ keeps used po po' /\
    free' = filter (fun r => dyn r = false) [q] ++ free.
Proof.
  intros Hpi Hb Hd; destruct (b_dynamicallyAllocated b) eqn:Eb.
  - destruct (pool_inv_free _ _ _ _ _ Hpi Hb Eb) as [Hpi' Hk]; eexists _, _, free; split; [reflexivity|].
    cbn; rewrite <- Hd, decide_True, decide_False by done; by split_all.
  - destruct (add_block_ok _ _ _ _ Hpi) as (po' & -> & Hpi' & Hk & _); rewrite bind_Done; exists [], po', (q :: free); split; [done|].
    cbn; rewrite <- Hd, decide_False, decide_True by done; by split_all.
Qed.

(** The second round. *)
Lemma destroy_blocks_ok (dyn : Z -> bool) p others rs : forall fuel q free po,
  path po q (rs ++ [ep_tailBlock p]) -> ep_tailBlock p ∉ rs -> pool_inv po free (q :: rs ++ others) -> (length rs < fuel)%nat ->
  (forall r b, r ∈ q :: rs -> po_blocks po !! r = Some b -> b_dynamicallyAllocated b = dyn r) ->
  exists freed po' free', ex_destroy_blocks fuel q po p = Done (freed, po') /\
    freed = filter (fun r => dyn r = true) (q :: rs) /\ pool_inv po' free' others /\ keeps others po po' /\
    free' ≡ₚ free ++ filter (fun r => dyn r = false) (q :: rs).
Proof.
  induction rs as [|r rs IH]; intros fuel q free po Hp Ht Hpi Hf Hdyn; (destruct fuel as [|fuel]; [lia|]); cbn [ex_destroy_blocks app] in *;
    destruct Hp as (b & Hb & Hn & Hp); unfold load; rewrite Hb; cbn [deref]; rewrite bind_Done;
    destruct (give_back_ok dyn po free _ q b Hpi Hb (Hdyn q b ltac:(left) Hb)) as (freed & po1 & free1 & -> & Hfr & Hpi1 & Hk1 & Hfree1);
    rewrite bind_Done, Hn.
  - rewrite Z.eqb_refl; exists freed, po1, free1; split_all; try done; rewrite Hfree1; by rewrite Permutation_app_comm.
  - apply not_elem_of_cons in Ht as [Hne Ht]; destruct (Z.eqb_spec r (ep_tailBlock p)); [done|].
    destruct (IH fuel r free1 po1) as (rest & po2 & free2 & -> & Hrest & Hpi2 & Hk2 & Hfree2); try done; [|cbn in Hf; lia| |].
    + eapply path_ext; [|exact Hp]; intros x Hx; apply Hk1; rewrite removelast_last in Hx; set_solver.
    + intros x bx Hx Hbx; apply Hdyn; [by right|]; rewrite <- Hk1; [done|set_solver].
    + rewrite bind_Done; exists (freed ++ rest), po2, free2; split; [done|]; split; [|split; [done|split]].
      * rewrite Hfr, Hrest; by rewrite <- (filter_app _ [q]).
      * intros x Hx; rewrite Hk2, Hk1 by set_solver; done.
      * rewrite Hfree2, Hfree1; change (q :: r :: rs) with ([q] ++ r :: rs); rewrite (filter_app _ [q]), <- app_assoc.
        by rewrite (Permutation_app_swap_app free).
Qed.
End blocks.

Section elements.
Context {A : Type}.
Implicit Types (po : pool A) (p : ExplicitProducer).
Context (p : ExplicitProducer) (H T : Z) (items : list A) (bks others : list Z) (half : Z).
Context (kt := (T + 31) / 32).
Hypothesis (Hcount : ex_counters p H T) (Hlen : T - H = Z.of_nat (length items)) (Hnd : NoDup bks) (Hdis : forall q, q ∈ bks -> q ∉ others).
Hypothesis (Htail : last bks = Some (ep_tailBlock p)) (Hwin : 32 * (kt - Z.of_nat (length bks)) <= H).

(** The first [m] blocks have been swept. *)
Definition swept po (m : nat) : Prop :=
  forall j q, bks !! j = Some q ->
    exists b, po_blocks po !! q = Some b /\ succ_of bks j = Some (b_next b) /\ b_emptyFlags b = flags H (number kt bks j) /\
      forall i, H <= i < T -> i / 32 = number kt bks j ->
        b_elements b !! (i mod 32) = if decide (j < m)%nat then None else items !! Z.to_nat (i - H).

Lemma swept_skip po m q : bks !! m = Some q -> 32 * number kt bks m + 32 <= H -> swept po m -> swept po (S m).
Proof.
  intros Hq Hk Hs j r Hr; destruct (Hs j r Hr) as (b & Hb & Hn & Hf & He); exists b; split_all; try done.
  intros i Hi Hki; rewrite He by done; repeat case_decide; try done; try (exfalso; lia).
  assert (j = m) as -> by lia; pose proof (Z.div_mod i 32); pose proof (Z.mod_pos_bound i 32); exfalso; lia.
Qed.

Lemma swept_store po m q b es :
  bks !! m = Some q -> po_blocks po !! q = Some b -> swept po m ->
  (forall i, H <= i < T -> i / 32 = number kt bks m -> es !! (i mod 32) = None) -> swept (store q (set_b_elements es b) po) (S m).
Proof.
  intros Hq Hb Hs Hes j r Hr; destruct (Hs j r Hr) as (b' & Hb' & Hn & Hf & He); cbn; destruct (decide (j = m)) as [->|Hne].
  - simplify_eq; rewrite lookup_insert_eq; eexists; split; [done|]; cbn; split_all; try done.
    intros i Hi Hki; rewrite decide_True by lia; by apply Hes.
  - rewrite lookup_insert_ne by (intros <-; by pose proof (NoDup_lookup _ _ _ _ Hnd Hr Hq)).
    exists b'; split_all; try done; intros i Hi Hki; rewrite He by done; repeat case_decide; done || (exfalso; lia).
Qed.

Hypothesis (Hhalf : if decide (H mod 32 = 0) then half = 0 else exists m, bks !! m = Some half /\ number kt bks m = H / 32).

(** The slots of a block that still have elements. *)
Lemma block_share m q :
  bks !! m = Some q -> H < 32 * number kt bks m + 32 ->
  let s := if q =? half then slot (u64 H) else 0 in
  let stop := if (q =? ep_tailBlock p) && negb (slot (u64 T) =? 0) then slot (u64 T) else BLOCK_SIZE in
  s = Z.max H (32 * number kt bks m) - 32 * number kt bks m /\
  stop = Z.min T (32 * number kt bks m + 32) - 32 * number kt bks m /\
  0 <= s <= stop /\ stop <= 32 /\ forall j, 0 <= j < 32 -> (s <= j < stop <-> H <= 32 * number kt bks m + j < T).
Proof.
  intros Hq Hk s stop; pose proof (lookup_lt_Some _ _ _ Hq) as Hm; pose proof (Z.div_mod H 32); pose proof (Z.mod_pos_bound H 32).
  pose proof (Z.div_mod T 32); pose proof (Z.mod_pos_bound T 32); pose proof (Z.div_mod (T + 31) 32); pose proof (Z.mod_pos_bound (T + 31) 32).
  assert (kt = (T + 31) / 32) as Ekt by done; assert (H / 32 <= number kt bks m) as Hge by lia; assert (number kt bks m < kt) as Hlt by (unfold number; lia).
  assert (s = if decide (number kt bks m = H / 32) then H mod 32 else 0) as Es.
  { unfold s; rewrite slot_u64; destruct (decide (H mod 32 = 0)) as [Hz|Hz].
    - rewrite Hz; destruct (q =? half); by case_decide.
    - destruct Hhalf as (mh & Hmh & Hnh); case_decide as Hc; destruct (Z.eqb_spec q half) as [->|Hne]; try done.
      + destruct Hne; assert (m = mh) as -> by (unfold number in *; lia); congruence.
      + pose proof (NoDup_lookup _ _ _ _ Hnd Hq Hmh) as ->; lia. }
  assert (stop = if decide (number kt bks m = kt - 1) then (if decide (T mod 32 = 0) then 32 else T mod 32) else 32) as Et.
  { unfold stop; rewrite slot_u64; rewrite last_lookup in Htail; destruct (Z.eqb_spec q (ep_tailBlock p)) as [->|Hne].
    - pose proof (NoDup_lookup _ _ _ _ Hnd Hq Htail) as ->; rewrite decide_True by (unfold number; lia); cbn [andb].
      destruct (Z.eqb_spec (T mod 32) 0); [by rewrite decide_True|by rewrite decide_False].
    - rewrite decide_False; [done|]; intros Hc; destruct Hne; assert (m = Nat.pred (length bks)) as -> by (unfold number in Hc; lia); congruence. }
  rewrite Es, Et; clear Hhalf; repeat case_decide; split_all; try lia; intros j Hj; lia.
Qed.

(** The elements in the first [m] blocks. *)
Definition in_first (m : nat) : nat := Z.to_nat (Z.min T (32 * number kt bks m) - H).
Lemma in_first_all : in_first (length bks) = length items.
Proof.
  unfold in_first, number; pose proof (Z.div_mod (T + 31) 32); pose proof (Z.mod_pos_bound (T + 31) 32).
  assert (kt = (T + 31) / 32) by done; lia.
Qed.

Lemma share_joins m s stop (xs : list A) :
  H < 32 * number kt bks m + 32 -> 32 * number kt bks m <= T ->
  s = Z.max H (32 * number kt bks m) - 32 * number kt bks m ->
  stop = Z.min T (32 * number kt bks m + 32) - 32 * number kt bks m -> length xs = Z.to_nat (stop - s) ->
  (forall k : nat, (k < Z.to_nat (stop - s))%nat ->
     xs !! k = items !! Z.to_nat (32 * number kt bks m + (s + Z.of_nat k) - H)) ->
  take (in_first m) items ++ xs = take (in_first (S m)) items.
Proof.
  intros Hk HT Es Et Hl Hxs; assert (number kt bks (S m) = number kt bks m + 1) as E1 by (unfold number; lia).
  unfold in_first; rewrite E1; set (n := number kt bks m) in *; apply list_eq; intros i.
  destruct (decide (i < Z.to_nat (Z.min T (32 * n) - H))%nat) as [Hi|Hi].
  { rewrite lookup_app_l, !lookup_take_lt by (rewrite ?length_take; lia); done. }
  rewrite lookup_app_r, length_take by (rewrite length_take; lia).
  destruct (decide (i < Z.to_nat (Z.min T (32 * (n + 1)) - H))%nat) as [Hi'|Hi'].
  - rewrite lookup_take_lt, Hxs by lia; f_equal; lia.
  - rewrite lookup_take_ge, lookup_ge_None_2 by lia; done.
Qed.

Lemma in_first_none : in_first 0 = O.
Proof. unfold in_first, number; lia. Qed.

(** One block. *)
Lemma sweep_block po free m q :
  bks !! m = Some q -> swept po m -> pool_inv po free (bks ++ others) ->
  exists xs bs, ex_destroy_block half q po p = Done (xs, set_blocks bs po) /\
    take (in_first m) items ++ xs = take (in_first (S m)) items /\
    swept (set_blocks bs po) (S m) /\ pool_inv (set_blocks bs po) free (bks ++ others) /\ keeps others po (set_blocks bs po).
Proof.
  intros Hq Hs Hpi; destruct (Hs m q Hq) as (b & Hb & _ & Hf & He); unfold ex_destroy_block, load; rewrite Hb; cbn [deref]; rewrite bind_Done, (ex_is_empty_flags _ _ _ Hf), bind_Done.
  case_bool_decide as Hk.
  { exists [], (po_blocks po); replace (set_blocks (po_blocks po) po) with po by (by destruct po); split_all; try done; [|by eapply swept_skip].
    rewrite app_nil_r; replace (in_first (S m)) with (in_first m); [done|]; unfold in_first, number in *; lia. }
  destruct Hcount as (-> & -> & _); pose proof (block_share m q Hq ltac:(lia)) as Hsh; cbv zeta in Hsh |- *.
  set (s := if q =? half then _ else _) in *; set (stop := if (q =? ep_tailBlock p) && _ then _ else _) in *.
  destruct Hsh as (Es & Et & Hs1 & Hs2 & Hin); destruct (Z.ltb_spec stop s); [lia|]; rewrite andb_false_r.
  assert (forall j, s <= j < stop -> let i := 32 * number kt bks m + j in H <= i < T /\ i / 32 = number kt bks m /\ i mod 32 = j) as Hij.
  { intros j Hj i; split; [apply Hin; lia|]; unfold i; rewrite Z.mul_comm; split; [rewrite Z.div_add_l by lia; rewrite Z.div_small by lia; lia|].
    rewrite Z.add_comm, Z.mod_add by lia; apply Z.mod_small; lia. }
  destruct (destroy_slots_ok (Z.to_nat (stop - s)) s b) as (xs & es & -> & Hl & Hxs & Hes).
  { intros j Hj; destruct (Hij j ltac:(lia)) as (Hi & Hki & Hmi); rewrite <- Hmi, He, decide_False by (done || lia); apply lookup_lt_is_Some_2; lia. }
  rewrite bind_Done; assert (q ∈ bks) as Hqin by (by eapply list_elem_of_lookup_2); eexists _, _; split; [reflexivity|]; split; [|split; [|split]].
  - apply (share_joins m s stop xs); [lia|lia|exact Es|exact Et|done|]; intros k Hk'.
    destruct (Hij (s + Z.of_nat k)) as (Hi & Hki & Hmi); [lia|]; rewrite Hxs by done.
    rewrite <- Hmi, He, decide_False by (done || lia); f_equal; lia.
  - apply (swept_store po m q b es Hq Hb Hs); intros i Hi Hki; rewrite Hes, decide_True; [done|].
    pose proof (Z.div_mod i 32); pose proof (Z.mod_pos_bound i 32); destruct (Hin (i mod 32)) as [_ Hr]; [lia|]; lia.
  - eapply pool_inv_store; [apply elem_of_app; by left|exact Hb|done|done].
  - intros r Hr; cbn; apply lookup_insert_ne; intros ->; by apply (Hdis r).
Qed.

(** The first round. *)
Lemma destroy_elements_round fuel : forall m block b po free,
  po_blocks po !! block = Some b -> bks !! m = Some (b_next b) -> swept po m -> pool_inv po free (bks ++ others) -> (length bks - m <= fuel)%nat ->
  exists xs bs, ex_destroy_elements fuel half block po p = Done (xs, set_blocks bs po) /\
    take (in_first m) items ++ xs = items /\ swept (set_blocks bs po) (length bks) /\
    pool_inv (set_blocks bs po) free (bks ++ others) /\ keeps others po (set_blocks bs po).
Proof.
  induction fuel as [|fuel IH]; intros m block b po free Hb Hq Hs Hpi Hf; pose proof (lookup_lt_Some _ _ _ Hq) as Hm; [lia|].
  cbn [ex_destroy_elements]; unfold load at 1; rewrite Hb; cbn [deref]; rewrite bind_Done; set (q := b_next b) in *.
  destruct (sweep_block po free m q Hq Hs Hpi) as (xs & bs & -> & Hxs & Hs' & Hpi' & Hk); rewrite bind_Done, last_lookup in *.
  destruct (Hs' m q Hq) as (bq & Hbq & Hnq & _); destruct (Z.eqb_spec q (ep_tailBlock p)) as [Et|Hne].
  - rewrite Et in Hq; pose proof (NoDup_lookup _ _ _ _ Hnd Hq Htail) as ->; exists xs, bs; split_all; try done;
      [rewrite Hxs; replace (S (Nat.pred (length bks))) with (length bks) by lia; rewrite in_first_all; apply take_ge; lia|]; by replace (length bks) with (S (Nat.pred (length bks))) at 1 by lia.
  - assert (S m < length bks)%nat as Hm' by (destruct (decide (S m = length bks)) as [E|]; [destruct Hne; rewrite <- E in Htail; cbn in Htail; congruence|lia]).
    unfold succ_of in Hnq; rewrite decide_True in Hnq by done.
    destruct (IH (S m) q bq (set_blocks bs po) free Hbq Hnq Hs' Hpi') as (ys & bs' & -> & Hys & Hs2 & Hpi2 & Hk2); [lia|].
    rewrite bind_Done; exists (xs ++ ys), bs'; split_all; try done; [by rewrite app_assoc, Hxs|]; intros r Hr; rewrite Hk2 by done; by apply Hk.
Qed.
End elements.

Section destroy.
Context {A : Type}.
Implicit Types (po : pool A) (p : ExplicitProducer) (bks : list Z).

(** The search for the block that is partially dequeued. *)
Lemma half_dequeued_ok p c kt bks h hs H m q fuel : forall j,
  ex_index p c kt bks -> ep_headers p = h :: hs -> bks !! m = Some q -> number kt bks m = H / 32 -> H mod 32 <> 0 ->
  H - 32 * (kt - Z.of_nat (length bks)) < 2 ^ 63 -> (j <= m <= j + fuel)%nat ->
  half_dequeued fuel h (2 ^ c) (u64 H) (Z.of_nat (entry_pos p c bks j)) = Done {| eie_base := u64 (32 * number kt bks m); eie_block := q |}.
Proof.
  induction fuel as [|fuel IH]; intros j Hio Eh Hq Hm Hne Hlen Hj; pose proof (lookup_lt_Some _ _ _ Hq) as Hml; pose proof Hio as [_ Hc _ _ Hh];
    rewrite Eh in Hh; destruct Hh as (_ & _ & Hent); destruct (lookup_lt_is_Some_2 bks j) as [r Hr]; [lia| |lia|];
    cbn [half_dequeued]; unfold entry_at; rewrite Nat2Z.id, (Hent j r Hr); cbn [deref]; rewrite bind_Done; cbn [deref]; rewrite bind_Done; cbn [eie_base];
    pose proof (Z.div_mod H 32); pose proof (Z.mod_pos_bound H 32); assert (number kt bks j = H / 32 - Z.of_nat (m - j)) as Hn by (unfold number in *; lia);
    change BLOCK_SIZE with 32; rewrite u64_add, clt_u64 by (unfold number in *; lia).
  - assert (j = m) as -> by lia; rewrite (proj2 (Z.ltb_ge _ _)) by lia; by simplify_eq.
  - destruct (decide (j = m)) as [->|Hjm]; [rewrite (proj2 (Z.ltb_ge _ _)) by lia; by simplify_eq|].
    rewrite (proj2 (Z.ltb_lt _ _)) by lia; rewrite ex_ring_mod by lia; assert (0 < 2 ^ c) by (apply Z.pow_pos_nonneg; lia).
    assert ((Z.of_nat (entry_pos p c bks j) + 1) mod 2 ^ c = Z.of_nat (entry_pos p c bks (S j))) as ->.
    { unfold entry_pos; rewrite !Z2Nat.id by (apply Z.mod_pos_bound; lia); rewrite Zplus_mod_idemp_l; f_equal; lia. }
    apply IH; try done; lia.
Qed.

Lemma ring_path po bks n (f : nat -> block A -> Prop) :
  (forall j q, bks !! j = Some q -> exists b, po_blocks po !! q = Some b /\ succ_of bks j = Some (b_next b) /\ f j b) ->
  forall m q b, (length bks - m <= n)%nat -> po_blocks po !! q = Some b -> bks !! m = Some (b_next b) -> path po q (drop m bks).
Proof.
  intros Hr; induction n as [|n IH]; intros m q b Hm Hb Hn; pose proof (lookup_lt_Some _ _ _ Hn) as Hlt; [lia|].
  rewrite (drop_S _ _ _ Hn); cbn [path]; exists b; split; [done|]; split; [done|]; destruct (Hr m _ Hn) as (b' & Hb' & Hs & _).
  destruct (decide (S m < length bks)%nat) as [Hl|Hge]; [|by rewrite drop_ge by lia].
  unfold succ_of in Hs; rewrite decide_True in Hs by done; by apply (IH _ _ b'); [lia| |].
Qed.

(** The tail block leads to the oldest. *)
Lemma tail_next po bks t (f : nat -> block A -> Prop) :
  last bks = Some t ->
  (forall j q, bks !! j = Some q -> exists b, po_blocks po !! q = Some b /\ succ_of bks j = Some (b_next b) /\ f j b) ->
  exists b, po_blocks po !! t = Some b /\ bks !! O = Some (b_next b).
Proof.
  rewrite last_lookup; intros Ht Hr; destruct (Hr _ _ Ht) as (b & Hb & Hn & _); exists b; split; [done|].
  unfold succ_of in Hn; rewrite decide_False in Hn by lia; done.
Qed.

Lemma held_size po free bks others : pool_inv po free (bks ++ others) -> (length bks <= size (po_blocks po))%nat.
Proof.
  intros Hp; pose proof (pool_nodup _ _ _ _ Hp) as Hnd; rewrite <- (size_list_to_set (C := gset Z) bks Hnd), <- (size_dom (D := gset Z)).
  apply subseteq_size; intros q Hq%elem_of_list_to_set; apply elem_of_dom; pose proof (pi_held _ _ _ Hp) as Hh; rewrite Forall_forall in Hh.
  destruct (Hh q) as (b & Hb & _); [rewrite !elem_of_app; auto|by exists b].
Qed.

(** The entry of the half dequeued block, and that the assertion holds. *)
Lemma half_ok po p H T items bks others :
  ex_fifo po p H T items bks others -> po_brk po <= 2 ^ 58 -> bks <> [] ->
  exists half,
    (if slot (ep_headIndex p) =? 0 then mret 0
     else
       h ← deref (head (ep_headers p));
       e ← half_dequeued (Z.to_nat (ep_blockIndexSize p)) h (ep_blockIndexSize p) (ep_headIndex p)
             (ex_ring (ep_blockIndexSize p) (ep_blockIndexFront p - ep_blockIndexSlotsUsed p));
       _ ← check (circular_less_than (eie_base e) (ep_headIndex p));
       mret (eie_block e)) = Done half /\
    if decide (H mod 32 = 0) then half = 0 else exists m, bks !! m = Some half /\ number ((T + 31) / 32) bks m = H / 32.
Proof.
  intros [(Et & Eh & Eo) (c & Hio & _) [Hlen Hu Htb Hw Hb (free & Hp) Hd]] Hbrk Hne; rewrite Eh, slot_u64.
  destruct (Z.eqb_spec (H mod 32) 0) as [Hz|Hz]; [exists 0; by rewrite decide_True|].
  pose proof (Z.div_mod H 32); pose proof (Z.mod_pos_bound H 32); pose proof (Z.div_mod (T + 31) 32); pose proof (Z.mod_pos_bound (T + 31) 32).
  pose proof (pool_count _ _ _ _ Hp) as Hcnt; pose proof Hio as [Hsz Hc Hf Hfit Hh]; set (kt := (T + 31) / 32) in *.
  destruct (ep_headers p) as [|h hs] eqn:Ehs; [by destruct Hh|]; cbn [head deref]; rewrite bind_Done, Hsz, Hu, ex_ring_mod by lia.
  set (m := Z.to_nat (H / 32 - (kt - Z.of_nat (length bks)))); assert (0 < 2 ^ c) by (apply Z.pow_pos_nonneg; lia).
  destruct (lookup_lt_is_Some_2 bks m) as [q Hq]; [unfold m; lia|]; assert (number kt bks m = H / 32) as Hn by (unfold number, m; lia).
  replace ((ep_blockIndexFront p - Z.of_nat (length bks)) mod 2 ^ c) with (Z.of_nat (entry_pos p c bks 0)).
  2:{ unfold entry_pos; rewrite Z2Nat.id by (apply Z.mod_pos_bound; lia); f_equal; lia. }
  rewrite (half_dequeued_ok p c kt bks h hs H m q _ O); try done; [|unfold m in *; lia|unfold m in *; lia].
  rewrite bind_Done; cbn [eie_base eie_block]; rewrite Hn, clt_u64, (proj2 (Z.ltb_lt _ _)) by lia; cbn [check]; rewrite bind_Done.
  exists q; rewrite decide_False by done; split; [done|by exists m].
Qed.

(** The destructor: the elements are destroyed in their order, the blocks of the ring are
    freed or given back, each once, and those of other producers stay as they are. *)
Lemma destroy_explicit_ok po p H T items bks others :
  ex_fifo po p H T items bks others -> po_brk po <= 2 ^ 58 ->
  exists freed po' free', destroy_explicit po p = Done (items, freed, length (ep_headers p), po') /\
    freed ≡ₚ filter (fun r => negb (in_array po r) = true) bks /\ pool_inv po' free' others /\ keeps others po po'.
Proof.
  intros Hf Hbrk; pose proof Hf as [Hcnt _ [Hlen Hu Htb Hw Hb (free & Hp) Hd]]; unfold destroy_explicit.
  pose proof (used_nonzero _ _ _ _ Hp) as Hz; pose proof (pool_nodup _ _ _ _ Hp) as Hnd; pose proof (held_size _ _ _ _ Hp) as Hsz.
  destruct (last bks) as [t|] eqn:Hl; cbn in Htb.
  2:{ apply last_None in Hl; rewrite Htb, Hl, Z.eqb_refl; subst bks; destruct items as [|x items]; [exists [], po, free; by split_all|].
    exfalso; cbn [length] in *; pose proof (Z.div_mod (T + 31) 32); pose proof (Z.mod_pos_bound (T + 31) 32); lia. }
  assert (bks <> []) as Hne by (by intros ->); apply last_Some in Hl as [l Hl].
  assert (ep_tailBlock p <> 0) as Ht0 by (rewrite Forall_forall in Hz; apply Hz; rewrite Hl, Htb; apply elem_of_app; right; by left).
  destruct (Z.eqb_spec (ep_tailBlock p) 0); [done|]; destruct (half_ok _ _ _ _ _ _ _ Hf Hbrk Hne) as (half & -> & Hhalf); rewrite bind_Done.
  assert (forall q, q ∈ bks -> q ∉ others) as Hdis by (intros q; by eapply pool_disjoint).
  assert (last bks = Some (ep_tailBlock p)) as Hl' by (by rewrite Hl, last_snoc, Htb); set (kt := (T + 31) / 32) in *.
  assert (swept H T items bks po 0) as Hs0.
  { intros j q Hq; destruct (Hd j q Hq) as (b & Hbq & Hn & Hfl & He); exists b; split_all; try done.
    pose proof (lookup_lt_Some _ _ _ Hq); rewrite decide_True in Hfl by (unfold number; lia); done. }
  destruct (tail_next _ _ _ (fun _ _ => _) Hl' Hs0) as (b & Hbt & Hn0).
  destruct (destroy_elements_round p H T items bks others half Hcnt Hlen Hnd Hdis Hl' Hhalf (S (size (po_blocks po))) 0 _ b po free Hbt Hn0 Hs0 Hp)
    as (xs & bs & -> & Hxs & Hs & Hp1 & Hk1); [lia|]; rewrite bind_Done.
  assert (xs = items) as ->.
  { by rewrite <- Hxs, (in_first_none H T items bks Hlen Hw). }
  destruct (tail_next _ _ _ (fun _ _ => _) Hl' Hs) as (b1 & Hbt1 & Hn1).
  pose proof (ring_path (set_blocks bs po) bks (length bks) _ Hs O _ b1 ltac:(lia) Hbt1 Hn1) as Hpath; rewrite drop_0, Hl, <- Htb in Hpath.
  assert (ep_tailBlock p ∉ l) as Htl by (rewrite Hl, Htb in *; apply NoDup_app in Hnd as (_ & Hd' & _); intros Hin; apply (Hd' t Hin); by left).
  assert (pool_inv (set_blocks bs po) free (ep_tailBlock p :: l ++ others)) as Hp2.
  { eapply pool_inv_perm; [|exact Hp1]; rewrite Hl, Htb, <- app_assoc; cbn; symmetry; apply Permutation_middle. }
  destruct (destroy_blocks_ok (fun r => negb (in_array po r)) p others l (S (size (po_blocks po))) _ free _ Hpath Htl Hp2)
    as (freed & po' & free' & -> & Hfr & Hp' & Hk' & _).
  - rewrite Hl, length_app in Hsz; cbn in Hsz; lia.
  - intros r br Hr Hbr; by destruct (pi_all _ _ _ Hp2 r br Hbr) as [_ ->].
  - rewrite bind_Done; exists freed, po', free'; split; [done|]; split; [|split; [done|intros r Hr; rewrite Hk' by done; by apply Hk1]].
    rewrite Hfr, Hl, Htb; apply filter_Permutation; by rewrite Permutation_app_comm.
Qed.

(** What it frees. *)
Lemma destroy_slots_kind n : forall i (b b' : block A), forall xs, destroy_slots n i b = Done (xs, b') -> b_dynamicallyAllocated b' = b_dynamicallyAllocated b.
Proof.
  induction n as [|n IH]; intros i b b'; intros xs; cbn [destroy_slots]; [by intros [= _ <-]|].
  intros H; apply bind_Done_inv in H as (x & _ & H); apply bind_Done_inv in H as ([ys b2] & H%IH & [= _ <-]); done.
Qed.
Lemma destroy_block_heap half q po p xs po' : ex_destroy_block half q po p = Done (xs, po') -> same_heap po po'.
Proof.
  unfold ex_destroy_block; intros H; apply bind_Done_inv in H as (b & Hb%load_Done & H); apply bind_Done_inv in H as ([|] & _ & H).
  - by injection H as _ <-.
  - apply bind_Done_inv in H as ([ys b'] & Hs & H); injection H as _ <-; apply (same_heap_store _ _ b); [done|].
    destruct (_ && _); by apply destroy_slots_kind in Hs.
Qed.
Lemma destroy_elements_heap_ex fuel half p : forall q po xs po', ex_destroy_elements fuel half q po p = Done (xs, po') -> same_heap po po'.
Proof.
  induction fuel as [|fuel IH]; intros q po xs po'; cbn [ex_destroy_elements]; [done|]; intros H.
  apply bind_Done_inv in H as (b & _ & H); apply bind_Done_inv in H as ([ys po1] & H1%destroy_block_heap & H).
  destruct (_ =? _); [by injection H as _ <-|]; apply bind_Done_inv in H as ([zs po2] & H%IH & [= _ <-]).
  by eapply same_heap_trans.
Qed.
Lemma destroy_blocks_retires fuel p : forall q po freed po',
  kinds_ok po -> ex_destroy_blocks fuel q po p = Done (freed, po') -> retires po po' freed.
Proof.
  induction fuel as [|fuel IH]; intros q po freed po' Hk; cbn [ex_destroy_blocks]; [done|]; intros H.
  apply bind_Done_inv in H as (b & Hb%load_Done & H); apply bind_Done_inv in H as ([f1 po1] & H1 & H).
  assert (retires po po1 f1 /\ kinds_ok po1) as [Hr Hk1].
  { destruct (b_dynamicallyAllocated b) eqn:Ed; [injection H1 as <- <-; split; [by eapply retires_one|by apply kinds_delete]|].
    apply bind_Done_inv in H1 as (po2 & H1%add_block_heap & H2); injection H2 as <- <-; split; [by apply retires_none|by eapply kinds_same]. }
  destruct (_ =? _); [by injection H as <- <-|]; apply bind_Done_inv in H as ([rest po2] & H2 & H); injection H as <- <-.
  eapply retires_trans; [exact Hr|by eapply IH].
Qed.
Lemma destroy_explicit_retires po p xs freed n po' : kinds_ok po -> destroy_explicit po p = Done (xs, freed, n, po') -> retires po po' freed.
Proof.
  unfold destroy_explicit; intros Hk H; destruct (_ =? 0); [injection H as _ <- _ <-; apply retires_none, same_heap_refl|].
  apply bind_Done_inv in H as (half & _ & H); apply bind_Done_inv in H as ([ys po1] & H1%destroy_elements_heap_ex & H).
  apply bind_Done_inv in H as ([f po2] & H2 & H); injection H as _ <- _ <-.
  pose proof (retires_none _ _ H1) as Hr1; apply (retires_trans _ _ _ [] _ Hr1), (destroy_blocks_retires _ _ _ _ _ _ (kinds_same _ _ H1 Hk) H2).
Qed.

(** destroying a producer with a token loses nothing and frees nothing twice: after
    any enqueues and dequeues, as long as no bulk enqueue has failed, the destructor
    ends, destroys the queued elements, frees each of the
    producer's blocks that was allocated by itself and gives the others back, and
    leaves the other producers' blocks as they are. *)
Theorem explicit_destroy_frees (ops : list (ex_op A)) po free others po1 p1 rs po2 p2 :
  pool_inv po free others -> po_initialBlockPoolSize po <= 2 ^ 58 -> Forall ex_valid ops -> po_brk po + ex_total ops <= 2 ^ 58 ->
  new_explicit_producer po = Done (po1, p1) -> ex_run ops po1 p1 = Done (rs, po2, p2) -> all_kept ops rs ->
  exists xs freed po3 free3, destroy_explicit po2 p2 = Done (xs, freed, length (ep_headers p2), po3) /\ retires po2 po3 freed /\
    pool_inv po3 free3 others /\ keeps others po po3.
Proof.
  intros Hp Hs Hv Hbrk Hnew Hrun Hkept; destruct (new_explicit_producer_ok po free others Hp Hs) as (po1' & p1' & E1 & Hf & Hk & Hb & _).
  rewrite Hnew in E1; injection E1 as <- <-; pose proof (pi_brk _ _ _ Hp).
  destruct (ex_run_ok ops po1 p1 0 0 [] [] others Hf Hv) as (rs' & po2' & p2' & E2 & Hk2 & _ & Hlast); [lia|lia|].
  rewrite Hrun in E2; injection E2 as <- <- <-; destruct (Hlast Hkept) as (Hbrk2 & H' & T' & items & bks & Hf2).
  destruct (destroy_explicit_ok po2 p2 H' T' items bks others Hf2 Hbrk2) as (freed & po3 & free3 & E3 & _ & Hp3 & Hk3).
  destruct (ec_pool _ _ _ _ _ _ _ _ _ (ef_core _ _ _ _ _ _ _ Hf2)) as (free2 & Hp2); exists items, freed, po3, free3; split; [done|].
  split; [eapply destroy_explicit_retires; [|exact E3]; intros r br Hbr; by destruct (pi_all _ _ _ Hp2 r br Hbr)|].
  split; [done|]; intros q Hq; rewrite Hk3, Hk2 by done; by apply Hk.
Qed.
End destroy.

(** Two blocks of the queue's array and one more; the second is partially dequeued. *)
Definition before_destruction : run (list (ex_answer Z) * pool Z * ExplicitProducer) :=
  '(po, p) ← new_explicit_producer (populate_initial_block_list 2 1 []);
  ex_run [ExEnqueueBulk true (seqZ 0 70); ExDequeueBulk 40; ExEnqueue true 70; ExDequeue] po p.

Lemma explicit_destroy_frees_witness :
  exists rs po2 p2, before_destruction = Done (rs, po2, p2) /\
  exists xs freed po3 free3, destroy_explicit po2 p2 = Done (xs, freed, length (ep_headers p2), po3) /\ retires po2 po3 freed /\
    pool_inv po3 free3 [] /\ keeps [] (populate_initial_block_list 2 1 []) po3.
Proof.
  destruct (new_explicit_producer (populate_initial_block_list (A := Z) 2 1 [])) as [[po1 p1]| | |] eqn:E1; try (vm_compute in E1; discriminate).
  destruct (ex_run [ExEnqueueBulk true (seqZ 0 70); ExDequeueBulk 40; ExEnqueue true 70; ExDequeue] po1 p1) as [[[rs po2] p2]| | |] eqn:E2;
    try (exfalso; vm_compute in E1; injection E1 as <- <-; vm_compute in E2; discriminate).
  exists rs, po2, p2; split; [unfold before_destruction; by rewrite E1|].
  apply (explicit_destroy_frees [ExEnqueueBulk true (seqZ 0 70); ExDequeueBulk 40; ExEnqueue true 70; ExDequeue]
    (populate_initial_block_list 2 1 []) [] [] po1 p1 rs po2 p2); try done.
  - apply populate_ok; lia.
  - repeat constructor; cbn; lia.
  - vm_compute in E1; injection E1 as <- <-; vm_compute in E2; injection E2 as <- _ _; repeat constructor.
Defined.
