(* ===== verification/Threads.v ===== *)
(** * Counting threads

    The state of several threads as a finite map from thread numbers (or ids) to program
    counters, and how many of them are at a given point: the arithmetic the
    proofs about interleaved operations rest on. *)

From S2P Require Import Prelude.

Section tally.
Context `{Countable K} {B : Type}.
Implicit Types (m : gmap K B) (f : B -> bool).

(** How many threads satisfy [f]. *)
Definition tally f m : Z := map_fold (fun _ b n => Z.b2z (f b) + n) 0 m.

Lemma tally_delete f m t b :
  m !! t = Some b -> tally f m = Z.b2z (f b) + tally f (delete t m).
Proof.
  intros Ht; unfold tally.
  rewrite (map_fold_delete_L (fun _ b n => Z.b2z (f b) + n) 0 t b); [done|intros; lia|done].
Qed.

Lemma tally_insert f m t b b' :
  m !! t = Some b -> tally f (<[t := b']> m) = tally f m - Z.b2z (f b) + Z.b2z (f b').
Proof.
  intros Ht; rewrite (tally_delete f m t b Ht), (tally_delete f (<[t := b']> m) t b').
  - rewrite delete_insert_eq; lia.
  - apply lookup_insert_eq.
Qed.

Lemma b2z_range b : 0 <= Z.b2z b <= 1.
Proof. destruct b; cbn; lia. Qed.

Lemma tally_range f m : 0 <= tally f m <= Z.of_nat (size m).
Proof.
  induction m as [|t b m Ht IH] using map_ind; [done|].
  rewrite (tally_delete f _ t b) by apply lookup_insert_eq.
  rewrite delete_insert_id, map_size_insert_None by done; pose proof (b2z_range (f b)); lia.
Qed.

Lemma tally_pos f m t b : m !! t = Some b -> f b = true -> 1 <= tally f m.
Proof.
  intros Ht Hf; rewrite (tally_delete f m t b Ht), Hf; pose proof (tally_range f (delete t m)); cbn; lia.
Qed.

Lemma tally_zero f m t b : tally f m = 0 -> m !! t = Some b -> f b = false.
Proof.
  intros H0 Ht; destruct (f b) eqn:Hf; [|done]; pose proof (tally_pos f m t b Ht Hf); lia.
Qed.

Lemma tally_unique f m t t' b b' :
  tally f m <= 1 -> m !! t = Some b -> f b = true -> m !! t' = Some b' -> f b' = true -> t = t'.
Proof.
  intros H1 Ht Hf Ht' Hf'; destruct (decide (t = t')) as [|Hne]; [done|].
  assert (1 <= tally f (delete t m)).
  { eapply tally_pos; [|exact Hf']; by rewrite lookup_delete_ne. }
  rewrite (tally_delete f m t b Ht), Hf in H1; cbn in H1; lia.
Qed.

Lemma tally_none f m : (forall t b, m !! t = Some b -> f b = false) -> tally f m = 0.
Proof.
  induction m as [|t b m Ht IH] using map_ind; intros Hall; [done|].
  rewrite (tally_delete f _ t b) by apply lookup_insert_eq; rewrite delete_insert_id by done.
  rewrite (Hall t b) by apply lookup_insert_eq; rewrite IH; [done|].
  intros t' b' Ht'; apply (Hall t'); rewrite lookup_insert_ne; [done|congruence].
Qed.
End tally.

(** ** Counting in a list *)

Section zcount.
Context {B : Type}.
Implicit Types (f g : B -> bool) (l : list B).

Fixpoint zcount f l : Z := match l with [] => 0 | x :: l => Z.b2z (f x) + zcount f l end.

Lemma zcount_app f l l' : zcount f (l ++ l') = zcount f l + zcount f l'.
Proof. induction l as [|x l IH]; cbn; lia. Qed.
Lemma zcount_range f l : 0 <= zcount f l <= Z.of_nat (length l).
Proof. induction l as [|x l IH]; cbn; [lia|]; pose proof (b2z_range (f x)); lia. Qed.
Lemma zcount_insert f l : forall m x y, l !! m = Some x ->
  zcount f (<[m := y]> l) = zcount f l - Z.b2z (f x) + Z.b2z (f y).
Proof.
  induction l as [|z l IH]; intros [|m] x y Hm; [done..| |].
  - injection Hm as ->; cbn; lia.
  - change (<[S m := y]> (z :: l)) with (z :: <[m := y]> l); cbn [zcount]; rewrite (IH m x y Hm); lia.
Qed.
Lemma zcount_take_insert f l m n x y : l !! m = Some x ->
  zcount f (take n (<[m := y]> l)) =
  zcount f (take n l) + (if decide (m < n)%nat then Z.b2z (f y) - Z.b2z (f x) else 0).
Proof.
  intros Hm; case_decide as Hn.
  - rewrite take_insert_lt by done; rewrite (zcount_insert f _ m x); [lia|]; by rewrite lookup_take_lt.
  - rewrite take_insert_ge by lia; lia.
Qed.
Lemma zcount_take_S f l m x :
  l !! m = Some x -> zcount f (take (S m) l) = zcount f (take m l) + Z.b2z (f x).
Proof. intros Hm; rewrite (take_S_r _ _ x) by done; rewrite zcount_app; cbn; lia. Qed.
Lemma zcount_disjoint f g l :
  (forall x, f x = true -> g x = false) -> zcount f l + zcount g l <= Z.of_nat (length l).
Proof.
  intros Hd; induction l as [|x l IH]; cbn; [lia|]; specialize (Hd x).
  destruct (f x), (g x); cbn; (lia || by specialize (Hd eq_refl)).
Qed.
Lemma zcount_pos f l m x : l !! m = Some x -> f x = true -> 1 <= zcount f l.
Proof.
  revert m; induction l as [|y l IH]; intros [|m]; cbn; try done; pose proof (zcount_range f l).
  - intros [= ->] ->; cbn; lia.
  - intros Hm Hf; pose proof (IH m Hm Hf); pose proof (b2z_range (f y)); lia.
Qed.
Lemma zcount_none f l : (forall x, x ∈ l -> f x = false) -> zcount f l = 0.
Proof.
  induction l as [|x l IH]; cbn; [done|]; intros H; rewrite (H x) by set_solver; rewrite IH; [done|].
  intros y Hy; apply H; set_solver.
Qed.
(** A bound on the count up to each hit is a bound on the count. *)
Lemma zcount_bound f l c :
  0 <= c -> (forall m x, l !! m = Some x -> f x = true -> zcount f (take (S m) l) <= c) -> zcount f l <= c.
Proof.
  intros Hc; induction l as [|x l IH] using rev_ind; intros H; [done|].
  rewrite zcount_app; cbn; destruct (f x) eqn:Hx; cbn.
  - specialize (H (length l) x); rewrite take_ge in H by (rewrite length_app; cbn; lia).
    rewrite zcount_app in H; cbn in H; rewrite Hx in H; cbn in H; apply H; [|done]; by apply list_lookup_middle.
  - enough (zcount f l <= c) by lia; apply IH; intros m y Hm Hy; specialize (H m y).
    pose proof (lookup_lt_Some _ _ _ Hm); rewrite take_app_le in H by lia; apply H; [|done].
    by apply lookup_app_l_Some.
Qed.
End zcount.

(** Two predicates that differ at one element. *)
Lemma zcount_change {B} `{EqDecision B} (f g : B -> bool) (l : list B) x :
  NoDup l -> (forall y, y <> x -> g y = f y) -> f x = false -> g x = true ->
  zcount g l = zcount f l + (if decide (x ∈ l) then 1 else 0).
Proof.
  intros Hnd Hother Hf Hg; induction l as [|y l IH]; cbn [zcount].
  { rewrite decide_False by set_solver; lia. }
  apply NoDup_cons in Hnd as [Hy Hnd]; specialize (IH Hnd); destruct (decide (y = x)) as [->|Hne].
  - rewrite decide_False in IH by done; rewrite Hf, Hg, decide_True by set_solver; cbn; lia.
  - rewrite Hother by done; repeat case_decide; try lia; set_solver.
Qed.

Lemma zcount_ext {B} (f g : B -> bool) (l : list B) :
  (forall y, y ∈ l -> g y = f y) -> zcount g l = zcount f l.
Proof.
  induction l as [|y l IH]; [done|]; intros H; cbn [zcount]; rewrite H by set_solver; rewrite IH; [done|].
  intros z Hz; apply H; set_solver.
Qed.

Lemma zcount_seqZ_ltb c n : zcount (fun s => s <? c) (seqZ 0 (Z.of_nat n)) = Z.min (Z.of_nat n) (Z.max 0 c).
Proof.
  induction n as [|n IH]; [rewrite seqZ_nil by lia; cbn [zcount]; lia|].
  rewrite seqZ_S, zcount_app, IH; cbn [zcount]; rewrite Z.add_0_l.
  destruct (Z.ltb_spec (Z.of_nat n) c); cbn [Z.b2z]; lia.
Qed.

Lemma zcount_all {B} (f : B -> bool) (l : list B) x :
  zcount f l = Z.of_nat (length l) -> x ∈ l -> f x = true.
Proof.
  induction l as [|y l IH]; [set_solver|]; cbn [zcount length]; intros E.
  pose proof (zcount_range f l); pose proof (b2z_range (f y)).
  destruct (f y) eqn:Hy; cbn in E; [|lia].
  intros [->|Hx]%elem_of_cons; [done|]; apply IH; [lia|done].
Qed.
