(* ===== verification/FreeListRace.v ===== *)
(** * The free list under contention ([common/concurrentqueue.h])

    [FreeList] is shared by all threads without a lock.  Here [add] and [try_get]
    are cut at every access to shared memory (a load, a store, a fetch-and-add, a
    compare-and-swap) and the threads' accesses interleave in any order; each
    access is atomic and sequentially consistent.  [BlockPool.v] has the same
    operations run one at a time; [free_list_exclusive] shows that whenever no
    operation is under way the two agree. *)

From S2P Require Import Prelude BlockPool Threads.

(** Where [add_knowing_refcount_is_zero] was called from: [add], or the loop of
    [try_get], which goes on with its [head]. *)
Inductive caller := Return | Continue (head : Z).

(** The next access of a thread, with its local variables. *)
Inductive pc :=
  | Idle (result : Z)
  (** [add] *)
  | Add (node : Z)
  (** [add_knowing_refcount_is_zero] *)
  | Push_load (node : Z) (k : caller)
  | Push_next (node head : Z) (k : caller)
  | Push_refs (node head : Z) (k : caller)
  | Push_swap (node head : Z) (k : caller)
  | Push_undo (node head : Z) (k : caller)
  (** [try_get] *)
  | Get_load
  | Get_refs (head : Z)
  | Get_ref (head refs : Z)
  | Get_next (head : Z)
  | Get_swap (head next : Z)
  | Get_check (head : Z)
  | Get_take (head : Z)
  | Get_unref (prevHead head : Z).

(** The blocks with their links, the head, the threads, and the blocks that are
    in the hands of clients. *)
Record race (A : Type) := Race {
  fr_blocks : gmap Z (block A); fr_head : Z; fr_pcs : gmap nat pc; fr_owned : gset Z }.
Arguments Race {A} _ _ _ _.
Arguments fr_blocks {A} _.
Arguments fr_head {A} _.
Arguments fr_pcs {A} _.
Arguments fr_owned {A} _.

(** [while (head != nullptr)]. *)
Definition loop (head : Z) : pc := if head =? 0 then Idle 0 else Get_refs head.
Definition resume (k : caller) : pc := match k with Return => Idle 0 | Continue head => loop head end.

Section race.
Context {A : Type}.
Implicit Types (s : race A) (bs : gmap Z (block A)) (b : block A) (pcs : gmap nat pc).

Definition set_pc (t : nat) (p : pc) s : race A :=
  Race (fr_blocks s) (fr_head s) (<[t := p]> (fr_pcs s)) (fr_owned s).
Definition set_block (n : Z) b s : race A :=
  Race (<[n := b]> (fr_blocks s)) (fr_head s) (fr_pcs s) (fr_owned s).
Definition set_head (h : Z) s : race A := Race (fr_blocks s) h (fr_pcs s) (fr_owned s).
Definition set_owned (o : gset Z) s : race A := Race (fr_blocks s) (fr_head s) (fr_pcs s) o.

(** One access of thread [t]. *)
Definition thread_step (t : nat) s : run (race A) :=
  p ← deref (fr_pcs s !! t);
  match p with
  | Idle _ => Blocked
  | Add node =>
      b ← deref (fr_blocks s !! node);
      mret (set_pc t (if b_freeListRefs b =? 0 then Push_load node Return else Idle 0)
              (set_block node (set_b_refs (u32 (b_freeListRefs b + SHOULD_BE_ON_FREELIST)) b) s))
  | Push_load node k => mret (set_pc t (Push_next node (fr_head s) k) s)
  | Push_next node head k =>
      b ← deref (fr_blocks s !! node);
      mret (set_pc t (Push_refs node head k) (set_block node (set_b_freeListNext head b) s))
  | Push_refs node head k =>
      b ← deref (fr_blocks s !! node);
      mret (set_pc t (Push_swap node head k) (set_block node (set_b_refs 1 b) s))
  | Push_swap node head k =>
      if fr_head s =? head then mret (set_pc t (resume k) (set_head node s))
      else mret (set_pc t (Push_undo node (fr_head s) k) s)
  | Push_undo node head k =>
      b ← deref (fr_blocks s !! node);
      mret (set_pc t (if b_freeListRefs b =? 1 then Push_next node head k else resume k)
              (set_block node (set_b_refs (u32 (b_freeListRefs b + (SHOULD_BE_ON_FREELIST - 1))) b) s))
  | Get_load => mret (set_pc t (loop (fr_head s)) s)
  | Get_refs head =>
      b ← deref (fr_blocks s !! head);
      mret (set_pc t (if Z.land (b_freeListRefs b) REFS_MASK =? 0 then Get_load
                      else Get_ref head (b_freeListRefs b)) s)
  | Get_ref head refs =>
      b ← deref (fr_blocks s !! head);
      if b_freeListRefs b =? refs then
        mret (set_pc t (Get_next head) (set_block head (set_b_refs (u32 (refs + 1)) b) s))
      else mret (set_pc t Get_load s)
  | Get_next head =>
      b ← deref (fr_blocks s !! head); mret (set_pc t (Get_swap head (b_freeListNext b)) s)
  | Get_swap head next =>
      if fr_head s =? head then mret (set_pc t (Get_check head) (set_head next s))
      else mret (set_pc t (Get_unref head (fr_head s)) s)
  | Get_check head =>
      b ← deref (fr_blocks s !! head);
      _ ← check (Z.land (b_freeListRefs b) SHOULD_BE_ON_FREELIST =? 0);
      mret (set_pc t (Get_take head) s)
  | Get_take head =>
      b ← deref (fr_blocks s !! head);
      mret (set_pc t (Idle head)
              (set_owned ({[head]} ∪ fr_owned s)
                 (set_block head (set_b_refs (u32 (b_freeListRefs b - 2)) b) s)))
  | Get_unref prevHead head =>
      b ← deref (fr_blocks s !! prevHead);
      mret (set_pc t (if b_freeListRefs b =? SHOULD_BE_ON_FREELIST + 1
                      then Push_load prevHead (Continue head) else loop head)
              (set_block prevHead (set_b_refs (u32 (b_freeListRefs b - 1)) b) s))
  end.

(** A thread makes its next access, or an idle one calls [add] on a block it owns
    or [try_get]. *)
Inductive fl_step : race A -> race A -> Prop :=
  | step_thread t s s' : thread_step t s = Done s' -> fl_step s s'
  | step_add t r n s : fr_pcs s !! t = Some (Idle r) -> n ∈ fr_owned s ->
      fl_step s (set_pc t (Add n) (set_owned (fr_owned s ∖ {[n]}) s))
  | step_try_get t r s : fr_pcs s !! t = Some (Idle r) -> fl_step s (set_pc t Get_load s).

(** No operation is under way: the blocks of the list are referenced once, those
    of the clients are not, and every block is in one place. *)
Record quiet s (l : list Z) : Prop := {
  qt_idle : forall t p, fr_pcs s !! t = Some p -> exists r, p = Idle r;
  qt_chain : chain (fr_blocks s) (fr_head s) l;
  qt_nodup : NoDup l;
  qt_owned : forall n, n ∈ fr_owned s -> (n ∉ l) /\ held (fr_blocks s) n;
  qt_all : forall n b, fr_blocks s !! n = Some b -> n <> 0 /\ (n ∈ l \/ n ∈ fr_owned s) }.
(** ** The invariant *)

(** Which threads hold a reference to [n], have taken it off the list, are about
    to put it on the list, have just tried to, or have just been given it. *)
Definition holds (n : Z) (p : pc) : bool :=
  match p with
  | Get_next h | Get_swap h _ | Get_check h | Get_take h | Get_unref h _ => h =? n
  | _ => false
  end.
Definition popped (n : Z) (p : pc) : bool :=
  match p with Get_check h | Get_take h => h =? n | _ => false end.
Definition pushing (n : Z) (p : pc) : bool :=
  match p with Push_load m _ | Push_next m _ _ | Push_refs m _ _ => m =? n | _ => false end.
Definition trying (n : Z) (p : pc) : bool :=
  match p with Push_swap m _ _ | Push_undo m _ _ => m =? n | _ => false end.
Definition adding (n : Z) (p : pc) : bool := match p with Add m => m =? n | _ => false end.

(** The value of a reference count: one for the list (until the thread that took
    the block off has returned it, and from the moment the pushing thread sets it),
    one per thread that looks at the block, and the flag when the block is to be
    put on the list, by the thread that pushes it or, when there is none, by the
    last of the threads that look at it. *)
Record balance (listed owned holders pops pushes tries adds refs : Z) : Prop := {
  bl_once : listed + owned + adds + pops + tries + pushes <= 1;
  bl_refs : refs = holders + listed + pops + tries +
    SHOULD_BE_ON_FREELIST * (1 - (listed + owned + adds + pops + tries));
  bl_push : pushes = 0 \/ holders = 0;
  bl_wait : listed + owned + adds + pops + tries + pushes = 0 -> 1 <= holders }.

Definition node_ok (pcs : gmap nat pc) (owned : gset Z) (l : list Z) (n : Z) b : Prop :=
  balance (Z.b2z (bool_decide (n ∈ l))) (Z.b2z (bool_decide (n ∈ owned)))
    (tally (holds n) pcs) (tally (popped n) pcs) (tally (pushing n) pcs) (tally (trying n) pcs)
    (tally (adding n) pcs) (b_freeListRefs b).

Definition known bs (n : Z) : Prop := exists b, bs !! n = Some b.
Definition known_or_null bs (n : Z) : Prop := n = 0 \/ known bs n.
Definition next_is bs (n head : Z) : Prop := exists b, bs !! n = Some b /\ b_freeListNext b = head.
Definition caller_ok bs (k : caller) : Prop :=
  match k with Return => True | Continue head => known_or_null bs head end.

(** What a thread's local variables say about the blocks. *)
Definition pc_ok bs (p : pc) : Prop :=
  match p with
  | Idle _ | Get_load => True
  | Add n | Get_refs n | Get_next n | Get_check n | Get_take n => known bs n
  | Push_load n k => known bs n /\ caller_ok bs k
  | Push_next n head k | Push_undo n head k => known bs n /\ known_or_null bs head /\ caller_ok bs k
  | Push_refs n head k | Push_swap n head k =>
      next_is bs n head /\ known_or_null bs head /\ caller_ok bs k
  | Get_ref n refs => known bs n /\ Z.land refs REFS_MASK <> 0
  | Get_swap n next => next_is bs n next
  | Get_unref n head => known bs n /\ known_or_null bs head
  end.

Fixpoint links bs (head : Z) (l : list Z) : Prop :=
  match l with
  | [] => head = 0
  | n :: l => head = n /\ exists b, bs !! n = Some b /\ links bs (b_freeListNext b) l
  end.

Record inv s (l : list Z) : Prop := {
  iv_links : links (fr_blocks s) (fr_head s) l;
  iv_nodup : NoDup l;
  iv_node : forall n b, fr_blocks s !! n = Some b -> node_ok (fr_pcs s) (fr_owned s) l n b;
  iv_pcs : forall t p, fr_pcs s !! t = Some p -> pc_ok (fr_blocks s) p;
  iv_owned : forall n, n ∈ fr_owned s -> known (fr_blocks s) n;
  iv_null : fr_blocks s !! 0 = None;
  iv_threads : Z.of_nat (size (fr_pcs s)) < 2 ^ 31 - 1 }.

Lemma links_ext bs bs' l : forall head,
  (forall n, n ∈ l -> forall b, bs !! n = Some b ->
     exists b', bs' !! n = Some b' /\ b_freeListNext b' = b_freeListNext b) ->
  links bs head l -> links bs' head l.
Proof.
  induction l as [|n l IH]; intros head Hext; cbn [links]; [done|].
  intros (-> & b & Hb & Hl); destruct (Hext n ltac:(set_solver) b Hb) as (b' & Hb' & E).
  split; [done|]; exists b'; rewrite E; split; [done|]; apply IH; [|done].
  intros m Hm; apply Hext; set_solver.
Qed.
Lemma links_known bs head l : links bs head l -> known_or_null bs head.
Proof. destruct l as [|n l]; cbn; [by left|]; intros (-> & b & Hb & _); right; by exists b. Qed.
Lemma links_elem bs l n : forall head, links bs head l -> n ∈ l -> known bs n.
Proof.
  induction l as [|m l IH]; intros head; cbn [links]; [set_solver|].
  intros (_ & b & Hb & Hl) [->|Hn]%elem_of_cons; [by exists b|by eapply IH].
Qed.

(** Nothing a thread relies on changes when links and the set of blocks stay. *)
Definition grows (bs bs' : gmap Z (block A)) (keep : Z -> Prop) : Prop :=
  (forall n, known bs n -> known bs' n) /\
  forall n head, keep n -> next_is bs n head -> next_is bs' n head.

Lemma caller_ok_grows bs bs' keep k : grows bs bs' keep -> caller_ok bs k -> caller_ok bs' k.
Proof. intros [Hk _]; destruct k; cbn; [done|]; intros [->|?]; [by left|right; auto]. Qed.
Lemma known_or_null_grows bs bs' keep n : grows bs bs' keep -> known_or_null bs n -> known_or_null bs' n.
Proof. intros [Hk _] [->|?]; [by left|right; auto]. Qed.

(** The block whose link a thread relies on. *)
Definition relies (n : Z) (p : pc) : bool :=
  match p with Push_refs m _ _ | Push_swap m _ _ | Get_swap m _ => m =? n | _ => false end.

Lemma pc_ok_grows bs bs' keep p :
  grows bs bs' keep -> (forall n, relies n p = true -> keep n) -> pc_ok bs p -> pc_ok bs' p.
Proof.
  intros Hg Hr; pose proof Hg as [Hk Hn].
  pose proof (caller_ok_grows bs bs' keep); pose proof (known_or_null_grows bs bs' keep).
  destruct p; cbn in *; intros; split_all; eauto; apply Hn; auto; apply Hr; by rewrite Z.eqb_refl.
Qed.

Lemma grows_insert bs n b b' :
  bs !! n = Some b -> grows bs (<[n := b']> bs) (fun m => m <> n \/ b_freeListNext b' = b_freeListNext b).
Proof.
  intros Hb; split.
  - intros m [c Hc]; destruct (decide (n = m)) as [->|];
      [exists b'; apply lookup_insert_eq|exists c; by rewrite lookup_insert_ne].
  - intros m head Hkeep (c & Hc & <-); destruct (decide (n = m)) as [->|].
    + exists b'; rewrite lookup_insert_eq; split; [done|]; destruct Hkeep; congruence.
    + exists c; by rewrite lookup_insert_ne.
Qed.
(** ** One access *)

(** [p] counts for block [n]. *)
Definition counts (n : Z) (p : pc) : bool :=
  holds n p || popped n p || pushing n p || trying n p || adding n p.

Lemma tally_away (f : Z -> pc -> bool) n pcs t p p' :
  (forall q, counts n q = false -> f n q = false) -> pcs !! t = Some p ->
  counts n p = false -> counts n p' = false -> tally (f n) (<[t := p']> pcs) = tally (f n) pcs.
Proof. intros Hf Ht H H'; rewrite (tally_insert _ _ _ p) by done; rewrite !Hf by done; lia. Qed.

Lemma node_ok_away pcs owned owned' l l' n b t p p' :
  pcs !! t = Some p -> counts n p = false -> counts n p' = false ->
  (n ∈ l' <-> n ∈ l) -> (n ∈ owned' <-> n ∈ owned) ->
  node_ok pcs owned l n b -> node_ok (<[t := p']> pcs) owned' l' n b.
Proof.
  intros Ht H H' Hl Ho; unfold node_ok.
  rewrite (bool_decide_ext _ _ Hl), (bool_decide_ext _ _ Ho).
  rewrite !(tally_away _ n pcs t p p') by
    (done || (unfold counts; intros q Hq; repeat (apply orb_false_iff in Hq as [Hq ?]); done)).
  done.
Qed.

(** Block [n0] becomes [b0'] and thread [t] moves on to [p'], which only concerns
    [n0]. *)
Lemma inv_update s l t p p' n0 b0 b0' head' owned' l' :
  inv s l -> fr_pcs s !! t = Some p -> fr_blocks s !! n0 = Some b0 ->
  links (<[n0 := b0']> (fr_blocks s)) head' l' -> NoDup l' ->
  pc_ok (<[n0 := b0']> (fr_blocks s)) p' ->
  (forall n, n <> n0 -> counts n p = false /\ counts n p' = false /\
     (n ∈ l' <-> n ∈ l) /\ (n ∈ owned' <-> n ∈ fr_owned s)) ->
  (b_freeListNext b0' = b_freeListNext b0 \/
   forall t' q, t' <> t -> fr_pcs s !! t' = Some q -> relies n0 q = false) ->
  node_ok (<[t := p']> (fr_pcs s)) owned' l' n0 b0' ->
  inv (Race (<[n0 := b0']> (fr_blocks s)) head' (<[t := p']> (fr_pcs s)) owned') l'.
Proof.
  intros [Hl Hnd Hn Hp Ho H0 Hs] Ht Hb Hl' Hnd' Hp' Haway Hrel Hn0; split; cbn; try done.
  - intros n b; destruct (decide (n0 = n)) as [<-|Hne].
    + rewrite lookup_insert_eq; by intros [= <-].
    + rewrite lookup_insert_ne by done; intros Hnb; destruct (Haway n ltac:(done)) as (? & ? & ? & ?).
      eapply node_ok_away; eauto.
  - intros t' q; destruct (decide (t = t')) as [<-|Hne].
    + rewrite lookup_insert_eq; by intros [= <-].
    + rewrite lookup_insert_ne by done; intros Hq.
      eapply pc_ok_grows; [by apply (grows_insert _ n0 b0 b0')| |by apply (Hp t')].
      intros n Hr; destruct (decide (n = n0)) as [->|]; [|by left].
      destruct Hrel as [Hrel|Hrel]; [by right|]; exfalso.
      rewrite (Hrel t' q) in Hr; [done..|by intros ->|done].
  - intros n Hno; destruct (decide (n = n0)) as [->|Hne]; [exists b0'; apply lookup_insert_eq|].
    destruct (Haway n Hne) as (_ & _ & _ & Hiff); destruct (Ho n (proj1 Hiff Hno)) as [b Hnb].
    exists b; by rewrite lookup_insert_ne.
  - rewrite lookup_insert_ne; [done|congruence].
  - rewrite map_size_insert_Some by (rewrite Ht; by eauto); done.
Qed.

(** An access that does not concern any block in particular. *)
Lemma inv_local s l t p p' :
  inv s l -> fr_pcs s !! t = Some p -> (forall n, counts n p = false /\ counts n p' = false) ->
  pc_ok (fr_blocks s) p' -> inv (set_pc t p' s) l.
Proof.
  intros [Hl Hnd Hn Hp Ho H0 Hs] Ht Haway Hp'; split; cbn; try done.
  - intros n b Hb; destruct (Haway n); eapply node_ok_away; eauto.
  - intros t' q; destruct (decide (t = t')) as [<-|Hne].
    + rewrite lookup_insert_eq; by intros [= <-].
    + rewrite lookup_insert_ne by done; apply Hp.
  - rewrite map_size_insert_Some by (rewrite Ht; by eauto); done.
Qed.

Lemma set_pc_same s t p' n b :
  fr_blocks s !! n = Some b ->
  set_pc t p' s = Race (<[n := b]> (fr_blocks s)) (fr_head s) (<[t := p']> (fr_pcs s)) (fr_owned s).
Proof. intros Hb; by rewrite insert_id. Qed.

Lemma links_update bs head l n b b' :
  bs !! n = Some b -> n ∉ l \/ b_freeListNext b' = b_freeListNext b ->
  links bs head l -> links (<[n := b']> bs) head l.
Proof.
  intros Hb Hn; apply links_ext; intros m Hm c Hc; destruct (decide (n = m)) as [->|].
  - exists b'; rewrite lookup_insert_eq; split; [done|]; destruct Hn; [done|congruence].
  - exists c; by rewrite lookup_insert_ne.
Qed.

Lemma counts_loop n head : counts n (loop head) = false.
Proof. unfold loop; by destruct (head =? 0). Qed.
Lemma counts_resume n k : counts n (resume k) = false.
Proof. destruct k; [done|apply counts_loop]. Qed.
Lemma loop_ok bs head : known_or_null bs head -> pc_ok bs (loop head).
Proof. unfold loop; intros [->|Hk]; cbn; [done|]; by destruct (head =? 0). Qed.
Lemma resume_ok bs k : caller_ok bs k -> pc_ok bs (resume k).
Proof. destruct k; cbn; [done|apply loop_ok]. Qed.
Lemma silent n q :
  counts n q = false ->
  holds n q = false /\ popped n q = false /\ pushing n q = false /\ trying n q = false /\ adding n q = false.
Proof. unfold counts; intros Hq; repeat (apply orb_false_iff in Hq as [Hq ?]); done. Qed.

(** The reference count after one thread has moved. *)
Lemma node_ok_move pcs owned l n b t p p' :
  pcs !! t = Some p ->
  let move f := tally (f n) pcs - Z.b2z (f n p) + Z.b2z (f n p') in
  balance (Z.b2z (bool_decide (n ∈ l))) (Z.b2z (bool_decide (n ∈ owned)))
    (move holds) (move popped) (move pushing) (move trying) (move adding) (b_freeListRefs b) ->
  node_ok (<[t := p']> pcs) owned l n b.
Proof. intros Ht move Hb; unfold node_ok; by rewrite !(tally_insert _ _ t p) by done. Qed.

Lemma land_flag r : 0 <= r < 2 ^ 31 -> Z.land r SHOULD_BE_ON_FREELIST = 0.
Proof.
  intros Hr; change SHOULD_BE_ON_FREELIST with (2 ^ 31); apply Z.bits_inj'; intros i Hi.
  rewrite Z.land_spec, Z.bits_0, Z.pow2_bits_eqb by lia; destruct (Z.eqb_spec 31 i) as [<-|]; [|by rewrite andb_false_r].
  assert (Z.testbit r 31 = false) as ->; [|done].
  apply Z.testbit_false; [lia|]; by rewrite Z.div_small by lia.
Qed.
Lemma land_mask r : Z.land r REFS_MASK = r mod 2 ^ 31.
Proof. apply (Z.land_ones r 31); lia. Qed.

(** Everything the invariant says about one block and the thread that looks at it. *)
Lemma node_facts s l t p n b :
  inv s l -> fr_pcs s !! t = Some p -> fr_blocks s !! n = Some b ->
  node_ok (fr_pcs s) (fr_owned s) l n b /\
  (forall f, Z.b2z (f n p) <= tally (f n) (fr_pcs s) < 2 ^ 31 - 1 /\ 0 <= tally (f n) (fr_pcs s)).
Proof.
  intros Hi Ht Hb; split; [by apply Hi|]; intros f; pose proof (iv_threads _ _ Hi).
  pose proof (tally_range (f n) (fr_pcs s)); split; [split|]; [|lia..].
  destruct (f n p) eqn:E; cbn; [by eapply tally_pos|lia].
Qed.
End race.

(** Decides a reference count: opens the invariant of block [n] and computes. *)
Ltac count_refs Hinv Ht Hb :=
  let Hn := fresh "Hn" in let Hf := fresh "Hf" in
  destruct (node_facts _ _ _ _ _ _ Hinv Ht Hb) as [Hn Hf];
  pose proof (Hf holds); pose proof (Hf popped); pose proof (Hf pushing); pose proof (Hf trying);
  pose proof (Hf adding); clear Hf; destruct Hn;
  unfold SHOULD_BE_ON_FREELIST in *;
  repeat match goal with
  | H : context [Z.b2z ?x] |- _ =>
      lazymatch x with
      | bool_decide _ => lazymatch goal with H' : 0 <= Z.b2z x <= 1 |- _ => fail | _ => pose proof (b2z_range x) end
      end
  end.

(** Runs the access of thread [t], which is at a known point; [Hb] says what block
    it reads. *)
Ltac run_step Ht :=
  unfold thread_step; rewrite Ht; cbn [deref]; rewrite bind_Done;
  repeat match goal with H : fr_blocks _ !! _ = Some _ |- _ => rewrite H; cbn [deref]; rewrite bind_Done end.
Ltac race_cbn :=
  cbv [set_pc set_block set_head set_owned];
  cbn [fr_blocks fr_head fr_pcs fr_owned holds popped pushing trying adding
       b_freeListRefs b_freeListNext set_b_refs set_b_freeListNext] in *;
  rewrite ?Z.eqb_refl in *; cbn [Z.b2z] in *.
(** The counts of the block in question, after the thread has moved. *)
Ltac settle Ht :=
  eapply node_ok_move; [exact Ht|]; race_cbn; unfold SHOULD_BE_ON_FREELIST;
  rewrite ?(wrap_small 32) by word_lia; split; unfold SHOULD_BE_ON_FREELIST; lia.
(** The counts of the other blocks. *)
Ltac elsewhere :=
  let m := fresh "m" in let Hm := fresh "Hm" in
  intros m Hm; split_all; try done; unfold counts; cbn;
  match goal with |- context [?n =? m] => by destruct (Z.eqb_spec n m) | _ => done end.

Section steps.
Context {A : Type}.
Implicit Types (s : race A) (b : block A).

(** A thread at [p] has a next access, which succeeds and keeps the invariant. *)
Definition safe_at (t : nat) s : Prop := exists s' l', thread_step t s = Done s' /\ inv s' l'.

Lemma add_safe s l t n : inv s l -> fr_pcs s !! t = Some (Add n) -> safe_at t s.
Proof.
  intros Hi Ht; destruct (iv_pcs _ _ Hi t _ Ht) as [b Hb]; count_refs Hi Ht Hb; race_cbn.
  eexists _, l; split; [run_step Ht; reflexivity|]; race_cbn.
  destruct (Z.eqb_spec (b_freeListRefs b) 0); apply (inv_update s l t (Add n) _ n b); try done;
    try (by left); try apply Hi; try elsewhere; try (settle Ht);
    try (eapply links_update; [done|by right|apply Hi]).
  split; [eexists; apply lookup_insert_eq|done].
Qed.

Lemma push_load_safe s l t n k : inv s l -> fr_pcs s !! t = Some (Push_load n k) -> safe_at t s.
Proof.
  intros Hi Ht; pose proof (iv_pcs _ _ Hi t _ Ht) as [[b Hb] Hk]; count_refs Hi Ht Hb; race_cbn.
  eexists _, l; split; [run_step Ht; reflexivity|]; rewrite (set_pc_same s t _ n b Hb).
  apply (inv_update s l t (Push_load n k) _ n b); try done; try (by left); try elsewhere;
    rewrite ?insert_id by done; try apply Hi; try (settle Ht).
  split; [by exists b|split; [by eapply links_known; apply Hi|done]].
Qed.

(** Only the thread that pushes a block relies on its link. *)
Lemma pushing_alone s l t p n b t' q :
  inv s l -> fr_pcs s !! t = Some p -> pushing n p = true -> fr_blocks s !! n = Some b ->
  t' <> t -> fr_pcs s !! t' = Some q -> relies n q = false.
Proof.
  intros Hi Ht Hp Hb Hne Hq; count_refs Hi Ht Hb; rewrite Hp in *; cbn [Z.b2z] in *.
  assert (tally (holds n) (fr_pcs s) = 0) as Hh by lia; pose proof (tally_zero _ _ _ _ Hh Hq) as Hhq.
  assert (tally (trying n) (fr_pcs s) = 0) as Ht0 by lia; pose proof (tally_zero _ _ _ _ Ht0 Hq) as Htq.
  assert (pushing n q = false) as Hpq.
  { destruct (pushing n q) eqn:E; [|done]; exfalso; apply Hne.
    eapply (tally_unique (pushing n)); [|exact Hq|done|exact Ht|done]; lia. }
  by destruct q.
Qed.

Lemma push_next_safe s l t n h k : inv s l -> fr_pcs s !! t = Some (Push_next n h k) -> safe_at t s.
Proof.
  intros Hi Ht; pose proof (iv_pcs _ _ Hi t _ Ht) as ([b Hb] & Hh & Hk); count_refs Hi Ht Hb; race_cbn.
  assert (n ∉ l) as Hnl by (intros Hnl; rewrite bool_decide_true in * by done; cbn in *; lia).
  eexists _, l; split; [run_step Ht; reflexivity|]; race_cbn.
  apply (inv_update s l t (Push_next n h k) _ n b); try done; try apply Hi; try elsewhere; try (settle Ht).
  - eapply links_update; [done|by left|apply Hi].
  - pose proof (grows_insert _ n b (set_b_freeListNext h b) Hb) as Hg.
    split; [eexists; by rewrite lookup_insert_eq|].
    split; [by eapply known_or_null_grows|by eapply caller_ok_grows].
  - right; intros t' q Hne Hq; eapply (pushing_alone s l t _ n b); try done; cbn; apply Z.eqb_refl.
Qed.

Lemma push_refs_safe s l t n h k : inv s l -> fr_pcs s !! t = Some (Push_refs n h k) -> safe_at t s.
Proof.
  intros Hi Ht; pose proof (iv_pcs _ _ Hi t _ Ht) as ((b & Hb & Hnx) & Hh & Hk).
  count_refs Hi Ht Hb; race_cbn; eexists _, l; split; [run_step Ht; reflexivity|]; race_cbn.
  apply (inv_update s l t (Push_refs n h k) _ n b); try done; try apply Hi; try (by left); try elsewhere;
    try (settle Ht); try (eapply links_update; [done|by right|apply Hi]).
  pose proof (grows_insert _ n b (set_b_refs 1 b) Hb) as Hg.
  split; [eexists; by rewrite lookup_insert_eq|].
  split; [by eapply known_or_null_grows|by eapply caller_ok_grows].
Qed.
Lemma push_swap_safe s l t n h k : inv s l -> fr_pcs s !! t = Some (Push_swap n h k) -> safe_at t s.
Proof.
  intros Hi Ht; pose proof (iv_pcs _ _ Hi t _ Ht) as ((b & Hb & Hnx) & Hh & Hk).
  count_refs Hi Ht Hb; race_cbn; unfold safe_at, thread_step; rewrite Ht; cbn [deref]; rewrite bind_Done.
  destruct (Z.eqb_spec (fr_head s) h) as [E|_].
  - assert (n ∉ l) as Hnl by (intros Hnl; rewrite bool_decide_true in * by done; cbn in *; lia).
    eexists _, (n :: l); split; [reflexivity|]; race_cbn; rewrite <- (insert_id (fr_blocks s) n b) by done.
    destruct (silent n (resume k) (counts_resume n k)) as (E1 & E2 & E3 & E4 & E5).
    apply (inv_update s l t (Push_swap n h k) _ n b); try done; rewrite ?insert_id by done; try (by left).
    + split; [done|]; exists b; rewrite Hnx, <- E; split; [done|apply Hi].
    + apply NoDup_cons; split; [done|apply Hi].
    + by apply resume_ok.
    + intros m Hm; rewrite counts_resume; unfold counts; cbn; destruct (Z.eqb_spec n m); [done|set_solver].
    + eapply node_ok_move; [exact Ht|]; rewrite E1, E2, E3, E4, E5; race_cbn.
      rewrite (bool_decide_false (n ∈ l)) in * by done; rewrite (bool_decide_true (n ∈ n :: l)) by set_solver.
      cbn in *; split; unfold SHOULD_BE_ON_FREELIST; lia.
  - eexists _, l; split; [reflexivity|]; rewrite (set_pc_same s t _ n b Hb).
    apply (inv_update s l t (Push_swap n h k) _ n b); try done; try (by left); try elsewhere;
      rewrite ?insert_id by done; try apply Hi; try (settle Ht).
    split; [by exists b|split; [by eapply links_known; apply Hi|done]].
Qed.

Lemma push_undo_safe s l t n h k : inv s l -> fr_pcs s !! t = Some (Push_undo n h k) -> safe_at t s.
Proof.
  intros Hi Ht; pose proof (iv_pcs _ _ Hi t _ Ht) as ([b Hb] & Hh & Hk).
  count_refs Hi Ht Hb; race_cbn; eexists _, l; split; [run_step Ht; reflexivity|]; race_cbn.
  set (b' := set_b_refs _ b); pose proof (grows_insert _ n b b' Hb) as Hg; subst b'.
  destruct (silent n (resume k) (counts_resume n k)) as (E1 & E2 & E3 & E4 & E5).
  destruct (Z.eqb_spec (b_freeListRefs b) 1); apply (inv_update s l t (Push_undo n h k) _ n b); try done;
    try (by left); try apply Hi; try elsewhere; try (settle Ht);
    try (eapply links_update; [done|by right|apply Hi]).
  - split; [eexists; by rewrite lookup_insert_eq|].
    split; [by eapply known_or_null_grows|by eapply caller_ok_grows].
  - by eapply resume_ok, caller_ok_grows.
  - intros m Hm; rewrite counts_resume; unfold counts; cbn; by destruct (Z.eqb_spec n m).
  - eapply node_ok_move; [exact Ht|]; rewrite E1, E2, E3, E4, E5; race_cbn.
    unfold SHOULD_BE_ON_FREELIST; rewrite ?(wrap_small 32) by word_lia.
    split; unfold SHOULD_BE_ON_FREELIST; lia.
Qed.

Lemma get_load_safe s l t : inv s l -> fr_pcs s !! t = Some Get_load -> safe_at t s.
Proof.
  intros Hi Ht; eexists _, l; split; [run_step Ht; reflexivity|]; eapply inv_local; [done..| |].
  - intros n; by rewrite counts_loop.
  - eapply loop_ok, links_known, Hi.
Qed.

Lemma get_refs_safe s l t n : inv s l -> fr_pcs s !! t = Some (Get_refs n) -> safe_at t s.
Proof.
  intros Hi Ht; pose proof (iv_pcs _ _ Hi t _ Ht) as [b Hb].
  eexists _, l; split; [run_step Ht; reflexivity|].
  destruct (Z.eqb_spec (Z.land (b_freeListRefs b) REFS_MASK) 0); eapply inv_local; try done.
  split; [by exists b|done].
Qed.

Lemma get_ref_safe s l t n r : inv s l -> fr_pcs s !! t = Some (Get_ref n r) -> safe_at t s.
Proof.
  intros Hi Ht; pose proof (iv_pcs _ _ Hi t _ Ht) as [[b Hb] Hr]; count_refs Hi Ht Hb; race_cbn.
  unfold safe_at; run_step Ht; rewrite land_mask in Hr; destruct (Z.eqb_spec (b_freeListRefs b) r) as [<-|_].
  2:{ eexists _, l; split; [reflexivity|]; by eapply inv_local. }
  assert (tally (pushing n) (fr_pcs s) = 0).
  { destruct (decide (tally (pushing n) (fr_pcs s) = 0)); [done|]; exfalso; apply Hr.
    replace (b_freeListRefs b) with (2 ^ 31) by lia; done. }
  eexists _, l; split; [reflexivity|]; race_cbn.
  apply (inv_update s l t (Get_ref n (b_freeListRefs b)) _ n b); try done; try (by left); try apply Hi;
    try elsewhere; try (settle Ht); try (eapply links_update; [done|by right|apply Hi]).
  eexists; by rewrite lookup_insert_eq.
Qed.

Lemma get_next_safe s l t n : inv s l -> fr_pcs s !! t = Some (Get_next n) -> safe_at t s.
Proof.
  intros Hi Ht; pose proof (iv_pcs _ _ Hi t _ Ht) as [b Hb]; count_refs Hi Ht Hb; race_cbn.
  eexists _, l; split; [run_step Ht; reflexivity|]; rewrite (set_pc_same s t _ n b Hb).
  apply (inv_update s l t (Get_next n) _ n b); try done; try (by left); try elsewhere;
    rewrite ?insert_id by done; try apply Hi; try (settle Ht).
  by exists b.
Qed.

Lemma get_swap_safe s l t n nx : inv s l -> fr_pcs s !! t = Some (Get_swap n nx) -> safe_at t s.
Proof.
  intros Hi Ht; pose proof (iv_pcs _ _ Hi t _ Ht) as (b & Hb & Hnx); count_refs Hi Ht Hb; race_cbn.
  unfold safe_at, thread_step; rewrite Ht; cbn [deref]; rewrite bind_Done.
  destruct (Z.eqb_spec (fr_head s) n) as [E|_].
  - pose proof (iv_links _ _ Hi) as Hl; destruct l as [|m l]; cbn [links] in Hl.
    { exfalso; pose proof (iv_null _ _ Hi); congruence. }
    destruct Hl as (Em & c & Hc & Hl); assert (m = n) as -> by congruence; assert (c = b) as -> by congruence.
    pose proof (iv_nodup _ _ Hi) as [Hnl Hnd]%NoDup_cons.
    eexists _, l; split; [reflexivity|]; race_cbn; rewrite <- (insert_id (fr_blocks s) n b) by done.
    apply (inv_update s (n :: l) t (Get_swap n nx) _ n b); try done; rewrite ?insert_id by done; try (by left).
    + by rewrite <- Hnx.
    + by exists b.
    + intros k Hk; unfold counts; cbn; destruct (Z.eqb_spec n k); [done|set_solver].
    + eapply node_ok_move; [exact Ht|]; race_cbn.
      rewrite (bool_decide_false (n ∈ l)) by done; rewrite (bool_decide_true (n ∈ n :: l)) in * by set_solver.
      cbn in *; split; unfold SHOULD_BE_ON_FREELIST; lia.
  - eexists _, l; split; [reflexivity|]; rewrite (set_pc_same s t _ n b Hb).
    apply (inv_update s l t (Get_swap n nx) _ n b); try done; try (by left); try elsewhere;
      rewrite ?insert_id by done; try apply Hi; try (settle Ht).
    split; [by exists b|by eapply links_known; apply Hi].
Qed.
Lemma get_check_safe s l t n : inv s l -> fr_pcs s !! t = Some (Get_check n) -> safe_at t s.
Proof.
  intros Hi Ht; pose proof (iv_pcs _ _ Hi t _ Ht) as [b Hb]; count_refs Hi Ht Hb; race_cbn.
  eexists _, l; split; [run_step Ht; rewrite land_flag by lia; reflexivity|].
  rewrite (set_pc_same s t _ n b Hb).
  apply (inv_update s l t (Get_check n) _ n b); try done; try (by left); try elsewhere;
    rewrite ?insert_id by done; try (by exists b); try apply Hi; settle Ht.
Qed.

Lemma get_take_safe s l t n : inv s l -> fr_pcs s !! t = Some (Get_take n) -> safe_at t s.
Proof.
  intros Hi Ht; pose proof (iv_pcs _ _ Hi t _ Ht) as [b Hb]; count_refs Hi Ht Hb; race_cbn.
  eexists _, l; split; [run_step Ht; reflexivity|]; race_cbn.
  apply (inv_update s l t (Get_take n) _ n b); try done; try (by left); try apply Hi;
    try (eapply links_update; [done|by right|apply Hi]).
  - intros m Hm; unfold counts; cbn; destruct (Z.eqb_spec n m); [done|set_solver].
  - assert (n ∉ fr_owned s) as Hno.
    { intros Hno; rewrite (bool_decide_true (n ∈ fr_owned s)) in * by done; cbn in *; lia. }
    eapply node_ok_move; [exact Ht|]; race_cbn; rewrite ?(wrap_small 32) by word_lia.
    rewrite (bool_decide_false (n ∈ fr_owned s)) in * by done.
    rewrite (bool_decide_true (n ∈ {[n]} ∪ fr_owned s)) by set_solver.
    cbn [Z.b2z] in *; split; unfold SHOULD_BE_ON_FREELIST; lia.
Qed.

Lemma get_unref_safe s l t n h : inv s l -> fr_pcs s !! t = Some (Get_unref n h) -> safe_at t s.
Proof.
  intros Hi Ht; pose proof (iv_pcs _ _ Hi t _ Ht) as [[b Hb] Hh]; count_refs Hi Ht Hb; race_cbn.
  eexists _, l; split; [run_step Ht; reflexivity|]; race_cbn.
  pose proof (grows_insert _ n b (set_b_refs u32 (b_freeListRefs b - 1) b) Hb) as Hg.
  destruct (silent n (loop h) (counts_loop n h)) as (E1 & E2 & E3 & E4 & E5).
  unfold SHOULD_BE_ON_FREELIST; destruct (Z.eqb_spec (b_freeListRefs b) (0x80000000 + 1));
    apply (inv_update s l t (Get_unref n h) _ n b); try done; try (by left); try apply Hi; try elsewhere;
    try (settle Ht); try (eapply links_update; [done|by right|apply Hi]).
  - split; [eexists; by rewrite lookup_insert_eq|]; by eapply known_or_null_grows.
  - by eapply loop_ok, known_or_null_grows.
  - intros m Hm; rewrite counts_loop; unfold counts; cbn; by destruct (Z.eqb_spec n m).
  - eapply node_ok_move; [exact Ht|]; rewrite E1, E2, E3, E4, E5; race_cbn.
    rewrite ?(wrap_small 32) by word_lia; split; unfold SHOULD_BE_ON_FREELIST; lia.
Qed.

(** Whatever a thread does next succeeds. *)
Lemma thread_safe s l t p :
  inv s l -> fr_pcs s !! t = Some p -> (exists r, p = Idle r) \/ safe_at t s.
Proof.
  intros Hi Ht; destruct p; [left; by eexists|right..];
    eauto using add_safe, push_load_safe, push_next_safe, push_refs_safe, push_swap_safe, push_undo_safe,
      get_load_safe, get_refs_safe, get_ref_safe, get_next_safe, get_swap_safe, get_check_safe,
      get_take_safe, get_unref_safe.
Qed.

(** *** Calls and reachable states *)

Lemma call_add_inv s l t r n :
  inv s l -> fr_pcs s !! t = Some (Idle r) -> n ∈ fr_owned s ->
  inv (set_pc t (Add n) (set_owned (fr_owned s ∖ {[n]}) s)) l.
Proof.
  intros Hi Ht Hn; destruct (iv_owned _ _ Hi n Hn) as [b Hb]; count_refs Hi Ht Hb; race_cbn.
  rewrite <- (insert_id (fr_blocks s) n b) by done.
  apply (inv_update s l t (Idle r) _ n b); try done; try (by left); rewrite ?insert_id by done; try (by exists b); try apply Hi.
  - intros m Hm; unfold counts; cbn; destruct (Z.eqb_spec n m); [done|set_solver].
  - eapply node_ok_move; [exact Ht|]; race_cbn.
    rewrite (bool_decide_true (n ∈ fr_owned s)) in * by done.
    rewrite (bool_decide_false (n ∈ fr_owned s ∖ {[n]})) by set_solver.
    cbn in *; split; unfold SHOULD_BE_ON_FREELIST; lia.
Qed.

Lemma inv_step s s' : fl_step s s' -> forall l, inv s l -> exists l', inv s' l'.
Proof.
  intros [t s0 s1 Hs|t r n s0 Ht Hn|t r s0 Ht] l Hi.
  - destruct (fr_pcs s0 !! t) as [p|] eqn:Ht; [|by unfold thread_step in Hs; rewrite Ht in Hs].
    destruct (thread_safe s0 l t p Hi Ht) as [[r ->]|(s2 & l' & Hs' & Hi')].
    + unfold thread_step in Hs; by rewrite Ht in Hs.
    + exists l'; congruence.
  - exists l; by eapply call_add_inv.
  - exists l; by eapply inv_local.
Qed.

Lemma inv_steps s s' : rtc fl_step s s' -> forall l, inv s l -> exists l', inv s' l'.
Proof. induction 1 as [|s s1 s' Hs _ IH]; intros l Hi; [by exists l|]; destruct (inv_step _ _ Hs l Hi); eauto. Qed.

Lemma chain_links (bs : gmap Z (block A)) l : forall head, chain bs head l -> links bs head l.
Proof.
  induction l as [|n l IH]; intros head; cbn; [done|]; intros (-> & b & Hb & _ & Hc); split; [done|].
  exists b; auto.
Qed.
Lemma links_chain (bs : gmap Z (block A)) l : forall head,
  (forall n b, n ∈ l -> bs !! n = Some b -> b_freeListRefs b = 1) -> links bs head l -> chain bs head l.
Proof.
  induction l as [|n l IH]; intros head H1; cbn; [done|]; intros (-> & b & Hb & Hl); split; [done|].
  exists b; split_all; [done|by apply (H1 n); [set_solver|]|]; apply IH; [|done]; intros m c Hm; apply H1; set_solver.
Qed.

Definition idle s : Prop := forall t p, fr_pcs s !! t = Some p -> exists r, p = Idle r.

Lemma idle_tally s (f : pc -> bool) : idle s -> (forall r, f (Idle r) = false) -> tally f (fr_pcs s) = 0.
Proof. intros Hi Hf; apply tally_none; intros t p Ht; destruct (Hi t p Ht) as [r ->]; apply Hf. Qed.

Lemma quiet_inv s l :
  quiet s l -> Z.of_nat (size (fr_pcs s)) < 2 ^ 31 - 1 -> inv s l.
Proof.
  intros [Hid Hc Hnd Ho Ha] Hs; split; try done.
  - by apply chain_links.
  - intros n b Hb; unfold node_ok; rewrite !(idle_tally s) by done.
    assert (forall n b, n ∈ l -> fr_blocks s !! n = Some b -> b_freeListRefs b = 1) as H1.
    { clear -Hc; revert Hc; generalize (fr_head s); induction l as [|m l IH]; intros head; [set_solver|].
      cbn; intros (_ & c & Hc & Hr & Hl) k d [->|Hk]%elem_of_cons Hd; [congruence|by eapply IH]. }
    destruct (Ha n b Hb) as [_ [Hn|Hn]].
    + rewrite bool_decide_true by done; rewrite bool_decide_false by (intros Hno; by apply (Ho n)).
      rewrite (H1 n b) by done; split; cbn; lia.
    + destruct (Ho n Hn) as (Hnl & c & Hc' & Hr); rewrite bool_decide_false, bool_decide_true by done.
      assert (c = b) as -> by congruence; rewrite Hr; split; cbn; lia.
  - intros t p Ht; by destruct (Hid t p Ht) as [r ->].
  - intros n Hn; destruct (Ho n Hn) as (_ & b & Hb & _); by exists b.
  - destruct (fr_blocks s !! 0) as [b|] eqn:Hb; [|done]; by destruct (Ha 0 b Hb).
Qed.

Lemma inv_quiet s l : inv s l -> idle s -> quiet s l.
Proof.
  intros [Hl Hnd Hn Hp Ho H0 Hs] Hid.
  assert (forall n b, fr_blocks s !! n = Some b ->
    balance (Z.b2z (bool_decide (n ∈ l))) (Z.b2z (bool_decide (n ∈ fr_owned s))) 0 0 0 0 0 (b_freeListRefs b)) as Hb.
  { intros n b Hb; pose proof (Hn n b Hb) as Hk; unfold node_ok in Hk; by rewrite !(idle_tally s) in Hk by done. }
  split; try done.
  - apply links_chain; [|done]; intros n b Hnl Hnb; destruct (Hb n b Hnb) as [? Hr _ _].
    rewrite (bool_decide_true (n ∈ l)) in * by done; pose proof (b2z_range (bool_decide (n ∈ fr_owned s))).
    cbn in *; unfold SHOULD_BE_ON_FREELIST in *; lia.
  - intros n Hno; destruct (Ho n Hno) as [b Hnb]; destruct (Hb n b Hnb) as [? Hr _ _].
    rewrite (bool_decide_true (n ∈ fr_owned s)) in * by done; case_bool_decide; cbn in *; [lia|].
    split; [done|]; exists b; split; [done|]; unfold SHOULD_BE_ON_FREELIST in *; lia.
  - intros n b Hnb; split; [intros ->; congruence|]; destruct (Hb n b Hnb) as [_ _ _ Hw].
    repeat case_bool_decide; cbn in *; try lia; auto.
Qed.

(** C15: Threads that call [add] and [try_get] on the free list, with their accesses
    to shared memory interleaved in any way, never reach a failed assertion or a
    dangling pointer; a block that [try_get] is about to return is in nobody's
    hands, and no other call returns it; and whenever no call is under way the list
    is intact, the reference counts are back to one and zero, and every block is
    either on the list or with exactly one client: none is lost or handed out twice. *)
Theorem free_list_exclusive s0 l0 s :
  quiet s0 l0 -> Z.of_nat (size (fr_pcs s0)) < 2 ^ 31 - 1 -> rtc fl_step s0 s ->
  (forall t p, fr_pcs s !! t = Some p -> (exists r, p = Idle r) \/ exists s', thread_step t s = Done s') /\
  (forall t n, fr_pcs s !! t = Some (Get_take n) ->
     (n ∉ fr_owned s) /\ forall t', fr_pcs s !! t' = Some (Get_take n) -> t' = t) /\
  (idle s -> exists l, quiet s l).
Proof.
  intros Hq Hs Hsteps; destruct (inv_steps _ _ Hsteps l0 (quiet_inv _ _ Hq Hs)) as [l Hi].
  split; [|split].
  - intros t p Ht; destruct (thread_safe s l t p Hi Ht) as [?|(s' & l' & ? & _)]; [by left|right; by exists s'].
  - intros t n Ht; pose proof (iv_pcs _ _ Hi t _ Ht) as [b Hb]; count_refs Hi Ht Hb; race_cbn; split.
    + intros Hno; rewrite (bool_decide_true (n ∈ fr_owned s)) in * by done; cbn in *; lia.
    + intros t' Ht'; eapply (tally_unique (popped n)); [|exact Ht'| |exact Ht|]; cbn; try apply Z.eqb_refl; lia.
  - intros Hid; exists l; by apply inv_quiet.
Qed.
End steps.

(** ** Running a schedule *)

Inductive event := Access (t : nat) | Call_add (t : nat) (n : Z) | Call_try_get (t : nat).

Definition perform {A} (s : race A) (e : event) : option (race A) :=
  match e with
  | Access t => match thread_step t s with Done s' => Some s' | _ => None end
  | Call_add t n =>
      match fr_pcs s !! t with
      | Some (Idle _) =>
          if bool_decide (n ∈ fr_owned s)
          then Some (set_pc t (Add n) (set_owned (fr_owned s ∖ {[n]}) s)) else None
      | _ => None
      end
  | Call_try_get t =>
      match fr_pcs s !! t with Some (Idle _) => Some (set_pc t Get_load s) | _ => None end
  end.
Fixpoint perform_all {A} (s : race A) (es : list event) : option (race A) :=
  match es with [] => Some s | e :: es => s' ← perform s e; perform_all s' es end.

Lemma perform_step {A} (s s' : race A) e : perform s e = Some s' -> fl_step s s'.
Proof.
  destruct e as [t|t n|t]; cbn.
  - destruct (thread_step t s) as [s1| | |] eqn:E; [|done..]; intros [= <-]; by eapply step_thread.
  - destruct (fr_pcs s !! t) as [[]|] eqn:E; try done; case_bool_decide; [|done].
    intros [= <-]; by eapply step_add.
  - destruct (fr_pcs s !! t) as [[]|] eqn:E; try done; intros [= <-]; by eapply step_try_get.
Qed.
Lemma perform_all_steps {A} es : forall (s s' : race A), perform_all s es = Some s' -> rtc fl_step s s'.
Proof.
  induction es as [|e es IH]; intros s s'; cbn; [intros [= <-]; apply rtc_refl|].
  intros (s1 & H1 & H)%bind_Some; eapply rtc_l; [by eapply perform_step|auto].
Qed.

(** Block 1 is on the list, block 2 with a client; two threads. *)
Definition two_blocks : race nat :=
  Race (<[1 := Block ∅ 0 0 [] 1 0 true]> (<[2 := new_block true]> ∅)) 1
    (<[0%nat := Idle 0]> (<[1%nat := Idle 0]> ∅)) {[2]}.

Lemma two_blocks_quiet : quiet two_blocks [1].
Proof.
  split; cbn.
  - intros t p [[_ <-]|[_ [[_ <-]|[_ ?]]%lookup_insert_Some]]%lookup_insert_Some; by eauto.
  - by split; [|eexists].
  - apply NoDup_singleton.
  - intros n ->%elem_of_singleton; split; [set_solver|by eexists].
  - intros n b [[<- _]|[_ [[<- _]|[_ ?]]%lookup_insert_Some]]%lookup_insert_Some; [set_solver..|done].
Qed.

(** Thread 1 takes and gives back block 1 while thread 0 looks at it: thread 0,
    the last to look, puts it back on the list. *)
Definition contention : list event :=
  Call_try_get 0 :: replicate 4 (Access 0) ++ Call_try_get 1 :: replicate 7 (Access 1) ++
  Call_add 1 1 :: Access 1 :: replicate 6 (Access 0).

Example contention_run :
  exists s, perform_all two_blocks contention = Some s /\
    fr_pcs s !! 0%nat = Some (Idle 0) /\ fr_pcs s !! 1%nat = Some (Idle 0) /\
    fr_head s = 1 /\ fr_owned s = {[2]}.
Proof. eexists; split; [vm_compute; reflexivity|]; done. Qed.

Lemma free_list_exclusive_witness :
  exists s, rtc fl_step two_blocks s /\ (1 ∉ fr_owned s) /\
    forall t, fr_pcs s !! t = Some (Get_take 1) -> t = 1%nat.
Proof.
  set (es := Call_try_get 0 :: replicate 4 (Access 0) ++ Call_try_get 1 :: replicate 6 (Access 1)).
  destruct (perform_all two_blocks es) as [s|] eqn:E; [|vm_compute in E; discriminate E].
  exists s; pose proof (perform_all_steps _ _ _ E) as Hr; split; [exact Hr|].
  apply (free_list_exclusive two_blocks [1] s two_blocks_quiet); [vm_compute; reflexivity|exact Hr|].
  vm_compute in E; injection E as <-; reflexivity.
Defined.
