(* ===== verification/ProducerRace.v ===== *)
(** * One producer and its consumers at work together ([common/concurrentqueue.h])

    [ImplicitProducer::enqueue] by the thread that owns the producer and
    [ImplicitProducer::dequeue] by any number of threads, cut at every access to
    a shared variable; the accesses interleave in any order, each atomic and
    sequentially consistent.  The blocks are seen through the block index, by
    their first index: looking a block up, entering one and dropping one are
    single steps ([BlockIndex.v] has what they do).  Where a new block comes from,
    and what it contains, is left open; [FreeListRace.v] has the free list.
    [queue_race_safe] shows that nothing is lost, duplicated or read too early. *)

From S2P Require Import Prelude BlockPool ImplicitProducer BlockIndex ProducerFifo Threads.

(** The next access of the enqueuing thread. *)
Inductive producer_pc (A : Type) :=
  | E_idle (result : bool)
  | E_head (x : A)
  | E_block (x : A)
  | E_write (x : A)
  | E_tail (x : A).
Arguments E_idle {A} _.
Arguments E_head {A} _.
Arguments E_block {A} _.
Arguments E_write {A} _.
Arguments E_tail {A} _.

(** The next access of a dequeuing thread, with its local variables. *)
Inductive consumer_pc (A : Type) :=
  | D_idle (result : option A)
  | D_tail
  | D_overcommit (tail : Z)
  | D_optimistic (tail overcommit : Z)
  | D_ticket (overcommit : Z)
  | D_recheck (myDequeueCount overcommit : Z)
  | D_undo
  | D_index
  | D_lookup (index : Z)
  | D_move (index : Z)
  | D_count (index : Z) (x : A)
  | D_release (index : Z) (x : A).
Arguments D_idle {A} _.
Arguments D_tail {A}.
Arguments D_overcommit {A} _.
Arguments D_optimistic {A} _ _.
Arguments D_ticket {A} _.
Arguments D_recheck {A} _ _.
Arguments D_undo {A}.
Arguments D_index {A}.
Arguments D_lookup {A} _.
Arguments D_move {A} _.
Arguments D_count {A} _ _.
Arguments D_release {A} _ _.

(** The shared variables, the threads, and what has happened: the elements whose
    enqueuing has finished, in order, and those dequeued, with their indices. *)
Record traffic (A : Type) := Traffic {
  tr_tailIndex : Z; tr_headIndex : Z; tr_dequeueOptimisticCount : Z; tr_dequeueOvercommit : Z;
  tr_blocks : gmap Z (block A); tr_producer : producer_pc A; tr_consumers : gmap nat (consumer_pc A);
  tr_in : list A; tr_out : list (Z * A) }.
Arguments Traffic {A} _ _ _ _ _ _ _ _ _.
Arguments tr_tailIndex {A} _.
Arguments tr_headIndex {A} _.
Arguments tr_dequeueOptimisticCount {A} _.
Arguments tr_dequeueOvercommit {A} _.
Arguments tr_blocks {A} _.
Arguments tr_producer {A} _.
Arguments tr_consumers {A} _.
Arguments tr_in {A} _.
Arguments tr_out {A} _.

Section traffic.
Context {A : Type}.
Implicit Types (s : traffic A) (p : producer_pc A) (c : consumer_pc A).

Definition set_tail (v : Z) s : traffic A :=
  Traffic v (tr_headIndex s) (tr_dequeueOptimisticCount s) (tr_dequeueOvercommit s) (tr_blocks s)
    (tr_producer s) (tr_consumers s) (tr_in s) (tr_out s).
Definition set_dequeue (head opt over : Z) s : traffic A :=
  Traffic (tr_tailIndex s) head opt over (tr_blocks s) (tr_producer s) (tr_consumers s) (tr_in s) (tr_out s).
Definition set_tr_blocks (v : gmap Z (block A)) s : traffic A :=
  Traffic (tr_tailIndex s) (tr_headIndex s) (tr_dequeueOptimisticCount s) (tr_dequeueOvercommit s) v
    (tr_producer s) (tr_consumers s) (tr_in s) (tr_out s).
Definition set_producer p s : traffic A :=
  Traffic (tr_tailIndex s) (tr_headIndex s) (tr_dequeueOptimisticCount s) (tr_dequeueOvercommit s)
    (tr_blocks s) p (tr_consumers s) (tr_in s) (tr_out s).
Definition set_consumer (t : nat) c s : traffic A :=
  Traffic (tr_tailIndex s) (tr_headIndex s) (tr_dequeueOptimisticCount s) (tr_dequeueOvercommit s)
    (tr_blocks s) (tr_producer s) (<[t := c]> (tr_consumers s)) (tr_in s) (tr_out s).
Definition log_in (x : A) s : traffic A :=
  Traffic (tr_tailIndex s) (tr_headIndex s) (tr_dequeueOptimisticCount s) (tr_dequeueOvercommit s)
    (tr_blocks s) (tr_producer s) (tr_consumers s) (tr_in s ++ [x]) (tr_out s).
Definition log_out (i : Z) (x : A) s : traffic A :=
  Traffic (tr_tailIndex s) (tr_headIndex s) (tr_dequeueOptimisticCount s) (tr_dequeueOvercommit s)
    (tr_blocks s) (tr_producer s) (tr_consumers s) (tr_in s) (tr_out s ++ [(i, x)]).

(** *** [enqueue] *)

Definition call_enqueue (x : A) s : traffic A :=
  set_producer (if slot (tr_tailIndex s) =? 0 then E_head x else E_write x) s.

(** [got] is the block that could be had, if any. *)
Definition producer_step (got : option (block A)) s : run (traffic A) :=
  let currentTailIndex := tr_tailIndex s in
  match tr_producer s with
  | E_idle _ => Blocked
  | E_head x =>
      _ ← check (negb (circular_less_than currentTailIndex (tr_headIndex s)));
      mret (set_producer (if full currentTailIndex (tr_headIndex s) then E_idle false else E_block x) s)
  | E_block x =>
      match got with
      | None => mret (set_producer (E_idle false) s)
      | Some b =>
          mret (set_producer (E_write x)
                  (set_tr_blocks (<[currentTailIndex := reset_empty b]> (tr_blocks s)) s))
      end
  | E_write x =>
      b ← deref (tr_blocks s !! block_base currentTailIndex);
      mret (set_producer (E_tail x)
              (set_tr_blocks (<[block_base currentTailIndex :=
                 set_b_elements (<[slot currentTailIndex := x]> (b_elements b)) b]> (tr_blocks s)) s))
  | E_tail x => mret (log_in x (set_producer (E_idle true) (set_tail (u64 (1 + currentTailIndex)) s)))
  end.

(** *** [dequeue] *)

(** What the next access does, and what comes after it. *)
Definition dequeue_access c s : run (consumer_pc A * traffic A) :=
  match c with
  | D_idle _ => Blocked
  | D_tail => mret (D_overcommit (tr_tailIndex s), s)
  | D_overcommit tail => mret (D_optimistic tail (tr_dequeueOvercommit s), s)
  | D_optimistic tail overcommit =>
      mret (if circular_less_than (u64 (tr_dequeueOptimisticCount s - overcommit)) tail
            then D_ticket overcommit else D_idle None, s)
  | D_ticket overcommit =>
      let myDequeueCount := tr_dequeueOptimisticCount s in
      mret (D_recheck myDequeueCount overcommit,
            set_dequeue (tr_headIndex s) (u64 (myDequeueCount + 1)) (tr_dequeueOvercommit s) s)
  | D_recheck myDequeueCount overcommit =>
      mret (if circular_less_than (u64 (myDequeueCount - overcommit)) (tr_tailIndex s)
            then D_index else D_undo, s)
  | D_undo =>
      mret (D_idle None,
            set_dequeue (tr_headIndex s) (tr_dequeueOptimisticCount s) (u64 (tr_dequeueOvercommit s + 1)) s)
  | D_index =>
      let index := tr_headIndex s in
      mret (D_lookup index,
            set_dequeue (u64 (index + 1)) (tr_dequeueOptimisticCount s) (tr_dequeueOvercommit s) s)
  | D_lookup index => _ ← deref (tr_blocks s !! block_base index); mret (D_move index, s)
  | D_move index =>
      b ← deref (tr_blocks s !! block_base index);
      x ← deref (b_elements b !! slot index);
      mret (D_count index x,
            set_tr_blocks (<[block_base index :=
              set_b_elements (delete (slot index) (b_elements b)) b]> (tr_blocks s)) s)
  | D_count index x =>
      b ← deref (tr_blocks s !! block_base index);
      '(now_empty, b) ← set_empty b;
      let s := set_tr_blocks (<[block_base index := b]> (tr_blocks s)) s in
      mret (if (now_empty : bool) then (D_release index x, s) else (D_idle (Some x), log_out index x s))
  | D_release index x =>
      mret (D_idle (Some x), log_out index x (set_tr_blocks (delete (block_base index) (tr_blocks s)) s))
  end.
Definition consumer_step (t : nat) s : run (traffic A) :=
  c ← deref (tr_consumers s !! t); '(c, s) ← dequeue_access c s; mret (set_consumer t c s).

Inductive traffic_step : traffic A -> traffic A -> Prop :=
  | step_enqueue x r s : tr_producer s = E_idle r -> traffic_step s (call_enqueue x s)
  | step_producer got s s' : producer_step got s = Done s' -> traffic_step s s'
  | step_dequeue t r s : tr_consumers s !! t = Some (D_idle r) ->
      traffic_step s (set_consumer t D_tail s)
  | step_consumer t s s' : consumer_step t s = Done s' -> traffic_step s s'.

(** ** Between operations *)

Definition at_rest s : Prop :=
  (exists r, tr_producer s = E_idle r) /\ forall t c, tr_consumers s !! t = Some c -> exists r, c = D_idle r.

(** No operation is under way: [items] have the indices from [H] to [T], and are in
    the blocks as in [data_ok]. *)
Record calm s (H T : Z) (items : list A) : Prop := {
  cl_rest : at_rest s;
  cl_tail : tr_tailIndex s = u64 T;
  cl_head : tr_headIndex s = u64 H;
  cl_counts : exists V, tr_dequeueOptimisticCount s = u64 (H + V) /\ tr_dequeueOvercommit s = u64 V;
  cl_len : T - H = Z.of_nat (length items);
  cl_blocks : forall k, H / 32 <= k -> 32 * k < T ->
    exists b, tr_blocks s !! u64 (32 * k) = Some b /\
      b_elementsCompletelyDequeued b = (if decide (k = H / 32) then H mod 32 else 0) /\
      forall i, H <= i < T -> i / 32 = k -> b_elements b !! (i mod 32) = items !! Z.to_nat (i - H) }.
End traffic.
