(* ===== verification/RaceTickets.v ===== *)
(** * One producer and its consumers: the optimistic counters

    Every dequeue that passes the first check draws a ticket from
    [dequeueOptimisticCount]; it wins, and may take an index, or loses, and gives
    the ticket back through [dequeueOvercommit].  A thread compares its ticket with
    an old value of [dequeueOvercommit]; the count below shows why no more threads
    win than there are elements. *)

From S2P Require Import Prelude Threads ProducerRace.

(** What has become of a ticket; thread [t] has it in hand. *)
Inductive ticket := Pending (t : nat) | Won (t : nat) | Lost (t : nat) | Over | Taken.

Definition holder (x : ticket) : option nat :=
  match x with Pending t | Won t | Lost t => Some t | Over | Taken => None end.
Definition is_pending (x : ticket) : bool := match x with Pending _ => true | _ => false end.
Definition is_winner (x : ticket) : bool := match x with Won _ | Taken => true | _ => false end.
Definition is_taken (x : ticket) : bool := match x with Taken => true | _ => false end.
Definition is_over (x : ticket) : bool := match x with Over => true | _ => false end.

Section tickets.
Context {A : Type}.
Implicit Types (st : list ticket) (pcs : gmap nat (consumer_pc A)).

(** The thread that holds the ticket is where the ticket says. *)
Definition ticket_at (x : ticket) (c : consumer_pc A) : Prop :=
  match x with
  | Pending _ => exists my ov, c = D_recheck my ov
  | Won _ => c = D_index
  | Lost _ => c = D_undo
  | Over | Taken => True
  end.
Definition has_ticket (c : consumer_pc A) : bool :=
  match c with D_recheck _ _ | D_undo | D_index => true | _ => false end.

(** [avail] elements have been enqueued.  Up to each winner, the winners and the
    threads that may still win are no more than that. *)
Record tickets_ok st pcs (avail : Z) : Prop := {
  tk_won : forall m x, st !! m = Some x -> is_winner x = true ->
    zcount is_winner (take (S m) st) + zcount is_pending (take m st) <= avail;
  tk_holder : forall m x t, st !! m = Some x -> holder x = Some t ->
    exists c, pcs !! t = Some c /\ ticket_at x c;
  tk_unique : forall m m' x x' t, st !! m = Some x -> st !! m' = Some x' ->
    holder x = Some t -> holder x' = Some t -> m = m' }.

Lemma winners_bound st pcs avail :
  tickets_ok st pcs avail -> 0 <= avail -> zcount is_winner st <= avail.
Proof.
  intros [Hw _ _] Ha; apply zcount_bound; [done|]; intros m x Hm Hx.
  pose proof (Hw m x Hm Hx); pose proof (zcount_range is_pending (take m st)); lia.
Qed.

(** A thread that is new or has no ticket moves. *)
Lemma tickets_elsewhere st pcs avail t c' :
  tickets_ok st pcs avail -> (forall c, pcs !! t = Some c -> has_ticket c = false) -> tickets_ok st (<[t := c']> pcs) avail.
Proof.
  intros [Hw Hh Hu] Ht; split; [done| |done]; intros m x t' Hm Hx.
  destruct (Hh m x t' Hm Hx) as (c0 & Hc0 & Hat); exists c0; split; [|done].
  rewrite lookup_insert_ne; [done|]; intros ->; specialize (Ht c0 Hc0).
  destruct x; cbn in *; (done || (split_all; by subst)).
Qed.
Lemma tickets_other st pcs avail t c c' :
  tickets_ok st pcs avail -> pcs !! t = Some c -> has_ticket c = false -> tickets_ok st (<[t := c']> pcs) avail.
Proof. intros Hok Ht Hc; apply tickets_elsewhere; [done|]; intros c0 Hc0; by simplify_eq. Qed.

Lemma tickets_more st pcs avail avail' :
  tickets_ok st pcs avail -> avail <= avail' -> tickets_ok st pcs avail'.
Proof. intros [Hw Hh Hu] Ha; split; [|done..]; intros m x Hm Hx; pose proof (Hw m x Hm Hx); lia. Qed.

(** Thread [t] draws a ticket. *)
Lemma tickets_draw st pcs avail t c my ov :
  tickets_ok st pcs avail -> pcs !! t = Some c -> has_ticket c = false ->
  tickets_ok (st ++ [Pending t]) (<[t := D_recheck my ov]> pcs) avail.
Proof.
  intros Hok Ht Hc; pose proof (tickets_other _ _ _ t c (D_recheck my ov) Hok Ht Hc) as [_ Hh _].
  destruct Hok as [Hw Hh0 Hu].
  assert (forall m x, st !! m = Some x -> holder x <> Some t) as Hfree.
  { intros m x Hm Hx; destruct (Hh0 m x t Hm Hx) as (c0 & Hc0 & Hat); assert (c0 = c) as -> by congruence.
    destruct x; cbn in *; (done || (split_all; by subst)). }
  split.
  - intros m x [Hm|[Hge Hm]]%lookup_app_Some Hx.
    + pose proof (lookup_lt_Some _ _ _ Hm); rewrite !take_app_le by lia; by eapply Hw.
    + apply list_lookup_singleton_Some in Hm as [_ <-]; done.
  - intros m x t' [Hm|[Hge Hm]]%lookup_app_Some Hx; [by eapply Hh|].
    apply list_lookup_singleton_Some in Hm as [_ <-]; injection Hx as <-.
    eexists; rewrite lookup_insert_eq; split; [done|by eexists _, _].
  - intros m m' x x' t' [Hm|[Hge Hm]]%lookup_app_Some [Hm'|[Hge' Hm']]%lookup_app_Some Hx Hx'.
    + by eapply Hu.
    + apply list_lookup_singleton_Some in Hm' as [_ <-]; injection Hx' as <-; by destruct (Hfree m x Hm).
    + apply list_lookup_singleton_Some in Hm as [_ <-]; injection Hx as <-; by destruct (Hfree m' x' Hm').
    + apply list_lookup_singleton_Some in Hm as [? _]; apply list_lookup_singleton_Some in Hm' as [? _]; lia.
Qed.

(** Thread [t] turns its ticket [x] into [x'] and moves on to [c']. *)
Lemma tickets_turn st pcs avail t m x x' c' :
  tickets_ok st pcs avail -> st !! m = Some x -> holder x = Some t ->
  (holder x' = None \/ (holder x' = Some t /\ ticket_at x' c')) ->
  (forall k y, <[m := x']> st !! k = Some y -> is_winner y = true ->
     zcount is_winner (take (S k) (<[m := x']> st)) + zcount is_pending (take k (<[m := x']> st)) <= avail) ->
  tickets_ok (<[m := x']> st) (<[t := c']> pcs) avail.
Proof.
  intros [Hw Hh Hu] Hm Hx Hx' Hw'; split; [done|..].
  - intros k y t' [[<- [-> _]]|[Hne Hk]]%list_lookup_insert_Some Hy.
    + destruct Hx' as [Hx'|[Hx' Hat]]; [congruence|]; assert (t' = t) as -> by congruence.
      exists c'; by rewrite lookup_insert_eq.
    + destruct (Hh k y t' Hk Hy) as (c & Hc & Hat); exists c; split; [|done].
      rewrite lookup_insert_ne; [done|]; intros ->; apply Hne; by eapply Hu.
  - assert (holder x' = None \/ holder x' = Some t) as Hx'' by (destruct Hx' as [?|[? _]]; auto).
    intros k k' y y' t' [[<- [-> _]]|[Hne Hk]]%list_lookup_insert_Some
      [[<- [-> _]]|[Hne' Hk']]%list_lookup_insert_Some Hy Hy'; [done|..].
    + assert (t' = t) as -> by (destruct Hx''; congruence); by eapply Hu.
    + assert (t' = t) as -> by (destruct Hx''; congruence); by eapply Hu.
    + by eapply Hu.
Qed.

(** Winning: ticket [m] is below the elements by what had been given back when
    the thread read [dequeueOvercommit]. *)
Lemma tickets_win st pcs avail t m o :
  tickets_ok st pcs avail -> st !! m = Some (Pending t) ->
  o <= zcount is_over (take m st) -> Z.of_nat m - o < avail ->
  tickets_ok (<[m := Won t]> st) (<[t := D_index]> pcs) avail.
Proof.
  intros Hok Hm Ho Ha; eapply tickets_turn; [done..|by right|].
  intros k y Hk Hy; rewrite !(zcount_take_insert _ _ _ _ (Pending t)) by done; cbn.
  assert (zcount is_winner (take m st) + zcount is_pending (take m st) + o <= Z.of_nat m) as Hbelow.
  { assert (zcount is_winner (take m st) + zcount is_pending (take m st) <=
      zcount (fun x => negb (is_over x)) (take m st)).
    { clear; induction (take m st) as [|x l IH]; [done|]; cbn [zcount]; destruct x; cbn; lia. }
    pose proof (zcount_disjoint is_over (fun x => negb (is_over x)) (take m st)
      ltac:(intros x Hx; cbn; by rewrite Hx)) as Hd.
    rewrite length_take in Hd; lia. }
  apply list_lookup_insert_Some in Hk as [[<- _]|[Hne Hk]].
  - rewrite !decide_True, decide_False by lia; rewrite !(zcount_take_S _ _ _ (Pending t)) by done; cbn; lia.
  - pose proof (tk_won _ _ _ Hok k y Hk Hy); repeat case_decide; lia.
Qed.

Lemma tickets_lose st pcs avail t m :
  tickets_ok st pcs avail -> st !! m = Some (Pending t) ->
  tickets_ok (<[m := Lost t]> st) (<[t := D_undo]> pcs) avail.
Proof.
  intros Hok Hm; eapply tickets_turn; [done..|by right|]; intros k y Hk Hy.
  rewrite !(zcount_take_insert _ _ _ _ (Pending t)) by done; cbn.
  apply list_lookup_insert_Some in Hk as [[<- [<- _]]|[Hne Hk]]; [done|].
  pose proof (tk_won _ _ _ Hok k y Hk Hy); repeat case_decide; lia.
Qed.

(** Giving the ticket back, or taking an index with it. *)
Lemma tickets_settle st pcs avail t m x x' c' :
  tickets_ok st pcs avail -> st !! m = Some x -> (x = Lost t /\ x' = Over \/ x = Won t /\ x' = Taken) ->
  tickets_ok (<[m := x']> st) (<[t := c']> pcs) avail.
Proof.
  intros Hok Hm Hx; assert (is_winner x' = is_winner x /\ is_pending x' = is_pending x) as [Ew Ep].
  { by destruct Hx as [[-> ->]|[-> ->]]. }
  eapply tickets_turn; [done..| | |].
  - by destruct Hx as [[-> ->]|[-> ->]].
  - left; by destruct Hx as [[-> ->]|[-> ->]].
  - intros k y Hk Hy; rewrite !(zcount_take_insert _ _ _ _ x), Ew, Ep by done.
    apply list_lookup_insert_Some in Hk as [[<- [<- _]]|[Hne Hk]].
    + rewrite Ew in Hy; pose proof (tk_won _ _ _ Hok m x Hm Hy); repeat case_decide; lia.
    + pose proof (tk_won _ _ _ Hok k y Hk Hy); repeat case_decide; lia.
Qed.

(** A winner finds an element left. *)
Lemma winner_has_element st pcs avail m t :
  tickets_ok st pcs avail -> st !! m = Some (Won t) -> 0 <= avail -> zcount is_taken st < avail.
Proof.
  intros Hok Hm Ha; pose proof (winners_bound _ _ _ Hok Ha).
  assert (zcount is_winner st = zcount is_taken st + zcount (fun x => match x with Won _ => true | _ => false end) st) as E.
  { clear; induction st as [|x st IH]; [done|]; cbn [zcount]; rewrite IH; destruct x; cbn; lia. }
  pose proof (zcount_pos (fun x => match x with Won _ => true | _ => false end) st m _ Hm eq_refl); lia.
Qed.

(** With nobody at work, every ticket was used or given back. *)
Lemma tickets_rest st pcs avail :
  tickets_ok st pcs avail -> (forall t c, pcs !! t = Some c -> has_ticket c = false) ->
  Z.of_nat (length st) = zcount is_taken st + zcount is_over st.
Proof.
  intros [_ Hh _] Hrest.
  assert (forall m x, st !! m = Some x -> holder x = None) as Hnone.
  { intros m x Hm; destruct (holder x) as [t|] eqn:Hx; [|done].
    destruct (Hh m x t Hm Hx) as (c & Hc & Hat); pose proof (Hrest t c Hc).
    destruct x; cbn in *; (done || (split_all; by subst)). }
  clear Hh Hrest; induction st as [|x st IH]; [done|]; cbn [length zcount].
  pose proof (Hnone O x eq_refl); specialize (IH (fun m => Hnone (S m))); destruct x; cbn in *; try done; lia.
Qed.
End tickets.
