(* ===== verification/RaceStorage.v ===== *)
(** * One producer and its consumers: the elements

    Which thread has which index, what the blocks hold, and when a block is
    given back. *)

From S2P Require Import Prelude BlockPool ImplicitProducer BlockIndex ProducerFifo Threads ProducerRace.

Lemma u64_inj a b : - 2 ^ 64 < a - b < 2 ^ 64 -> u64 a = u64 b -> a = b.
Proof.
  intros Hab E; destruct (Z.lt_trichotomy a b) as [Hlt|[?|Hlt]]; [|done|]; exfalso.
  - apply (u64_neq a (b - a)); [lia|]; by replace (a + (b - a)) with b by lia.
  - apply (u64_neq b (a - b)); [lia|]; by replace (b + (a - b)) with a by lia.
Qed.

(** ** Counting the dequeued elements of a block

    [own] says of each index taken so far, from [H0] on, which thread is at work
    on it, or [None] when it is done. *)
Section dq.
Context (H0 : Z).
Implicit Types (own : list (option nat)).

Definition done_at own (i : Z) : bool :=
  (i <? H0) || match own !! Z.to_nat (i - H0) with Some None => true | _ => false end.
Definition dq own (k : Z) : Z := zcount (fun s => done_at own (32 * k + s)) (seqZ 0 32).

Lemma dq_bound own k : 0 <= dq own k <= 32.
Proof. apply (zcount_range (fun s => done_at own (32 * k + s)) (seqZ 0 32)). Qed.

Lemma slot_of_block i k : i / 32 = k -> i = 32 * k + i mod 32 /\ i mod 32 ∈ seqZ 0 32.
Proof.
  intros <-; pose proof (Z.div_mod i 32); pose proof (Z.mod_pos_bound i 32); split; [lia|].
  apply elem_of_seqZ; lia.
Qed.

Lemma dq_grow own t k : dq (own ++ [Some t]) k = dq own k.
Proof.
  apply zcount_ext; intros s _; unfold done_at; f_equal.
  destruct (decide (Z.to_nat (32 * k + s - H0) < length own)%nat); [by rewrite lookup_app_l|].
  rewrite (lookup_ge_None_2 own) by lia; rewrite lookup_app_r by lia.
  by destruct (Z.to_nat (32 * k + s - H0) - length own)%nat.
Qed.

Lemma done_insert own j i :
  (j < length own)%nat ->
  done_at (<[j := None]> own) i = (i =? H0 + Z.of_nat j) || done_at own i.
Proof.
  intros Hj; unfold done_at; destruct (Z.ltb_spec i H0); [by rewrite orb_true_r|]; cbn [orb].
  destruct (Z.eqb_spec i (H0 + Z.of_nat j)) as [->|Hne].
  - replace (Z.to_nat (H0 + Z.of_nat j - H0)) with j by lia; by rewrite list_lookup_insert_eq.
  - rewrite list_lookup_insert_ne by lia; done.
Qed.

Lemma done_not own j t i :
  own !! j = Some (Some t) -> i = H0 + Z.of_nat j -> done_at own i = false.
Proof.
  intros Hj ->; unfold done_at; destruct (Z.ltb_spec (H0 + Z.of_nat j) H0); [lia|]; cbn [orb].
  replace (Z.to_nat (H0 + Z.of_nat j - H0)) with j by lia; by rewrite Hj.
Qed.
Lemma done_untaken own i : H0 + Z.of_nat (length own) <= i -> done_at own i = false.
Proof.
  intros Hi; unfold done_at; destruct (Z.ltb_spec i H0); [lia|]; cbn [orb].
  by rewrite lookup_ge_None_2 by lia.
Qed.

(** Finishing index [j] counts for its block. *)
Lemma dq_insert own j t k :
  own !! j = Some (Some t) ->
  dq (<[j := None]> own) k = dq own k + (if decide (k = (H0 + Z.of_nat j) / 32) then 1 else 0).
Proof.
  intros Hj; pose proof (lookup_lt_Some _ _ _ Hj) as Hlt; set (i := H0 + Z.of_nat j).
  unfold dq; rewrite (zcount_change (fun s => done_at own (32 * k + s)) _ _ (i - 32 * k)).
  - f_equal; pose proof (Z.div_mod i 32); pose proof (Z.mod_pos_bound i 32).
    destruct (decide (i - 32 * k ∈ seqZ 0 32)) as [Hd|Hd], (decide (k = i / 32)) as [He|He]; try done; exfalso.
    + apply elem_of_seqZ in Hd; apply He; apply Z.div_unique with (i - 32 * k); lia.
    + apply Hd; subst k; apply elem_of_seqZ; lia.
  - apply NoDup_seqZ.
  - intros s Hs; rewrite done_insert by done; fold i; destruct (Z.eqb_spec (32 * k + s) i); [lia|done].
  - apply (done_not own j t); [done|]; unfold i; lia.
  - rewrite done_insert by done; fold i; destruct (Z.eqb_spec (32 * k + (i - 32 * k)) i); [done|lia].
Qed.

Lemma dq_full own k i : dq own k = 32 -> i / 32 = k -> done_at own i = true.
Proof.
  intros Hq Hi; destruct (slot_of_block i k Hi) as [E Hs]; rewrite E.
  by apply (zcount_all (fun s => done_at own (32 * k + s)) (seqZ 0 32)).
Qed.

Lemma dq_new own T :
  T mod 32 = 0 -> H0 + Z.of_nat (length own) <= T -> dq own (T / 32) = 0.
Proof.
  intros Hm HT; apply zcount_none; intros s [? ?]%elem_of_seqZ; apply done_untaken.
  pose proof (Z.div_mod T 32); lia.
Qed.

(** When every index taken is done, a block from the head on counts its elements
    before the head. *)
Lemma dq_rest own k :
  (forall j x, own !! j = Some x -> x = None) ->
  let H := H0 + Z.of_nat (length own) in
  dq own k = Z.min 32 (Z.max 0 (H - 32 * k)).
Proof.
  intros Hall H; transitivity (zcount (fun s => s <? H - 32 * k) (seqZ 0 (Z.of_nat 32)));
    [|by rewrite zcount_seqZ_ltb].
  apply zcount_ext; intros s Hs; unfold done_at.
  destruct (Z.ltb_spec (32 * k + s) H0); cbn [orb].
  - destruct (Z.ltb_spec s (H - 32 * k)); [done|]; unfold H in *; lia.
  - destruct (Z.ltb_spec s (H - 32 * k)).
    + destruct (own !! Z.to_nat (32 * k + s - H0)) as [x|] eqn:E.
      * by rewrite (Hall _ _ E).
      * apply lookup_ge_None_1 in E; unfold H in *; lia.
    + rewrite lookup_ge_None_2; [done|]; unfold H in *; lia.
Qed.
End dq.

(** ** The invariant *)

(** The index a thread is at work on; the block it is about to give back. *)
Definition index_of {A} (c : consumer_pc A) : option Z :=
  match c with D_lookup i | D_move i | D_count i _ => Some i | _ => None end.
Definition releasing {A} (c : consumer_pc A) : option Z :=
  match c with D_release i _ => Some (block_base i) | _ => None end.
Definition has_moved {A} (c : option (consumer_pc A)) : bool :=
  match c with Some (D_count _ _) => true | _ => false end.
(** The new block is in the index, its first element not yet announced. *)
Definition writing {A} (p : producer_pc A) : bool :=
  match p with E_write _ | E_tail _ => true | _ => false end.

Section storage.
Context {A : Type} (H0 : Z).
Implicit Types (own : list (option nat)) (rel : gset Z) (hist : list A) (bs : gmap Z (block A))
  (p : producer_pc A) (pcs : gmap nat (consumer_pc A)) (out : list (Z * A)).

(** [hist] are the elements from index [H0] on. *)
Definition top hist : Z := H0 + Z.of_nat (length hist).

(** Block [k] has been entered into the index. *)
Definition entered hist p (k : Z) : Prop :=
  H0 / 32 <= k /\ (32 * k < top hist \/ (writing p = true /\ k = top hist / 32)).

(** The element of index [i] is still in its block. *)
Definition stored own pcs (i : Z) : bool :=
  match own !! Z.to_nat (i - H0) with
  | None => true
  | Some None => false
  | Some (Some t) => negb (has_moved (pcs !! t))
  end.

Definition local_ok own rel hist (t : nat) (c : consumer_pc A) : Prop :=
  match c with
  | D_lookup i | D_move i => exists j, own !! j = Some (Some t) /\ i = u64 (H0 + Z.of_nat j)
  | D_count i x =>
      exists j, own !! j = Some (Some t) /\ i = u64 (H0 + Z.of_nat j) /\ hist !! j = Some x
  | D_release i x =>
      exists j, own !! j = Some None /\ i = u64 (H0 + Z.of_nat j) /\ hist !! j = Some x /\
        dq H0 own ((H0 + Z.of_nat j) / 32) = 32 /\ (H0 + Z.of_nat j) / 32 ∉ rel
  | _ => True
  end.

(** What the blocks of the index hold, and the block about to get an element. *)
Definition block_ok own hist pcs (k : Z) (b : block A) : Prop :=
  b_elementsCompletelyDequeued b = dq H0 own k /\
  forall i, H0 <= i < top hist -> i / 32 = k -> stored own pcs i = true ->
    b_elements b !! (i mod 32) = hist !! Z.to_nat (i - H0).
Definition producer_ok hist bs p : Prop :=
  match p with
  | E_head _ | E_block _ => top hist mod 32 = 0
  | E_tail x => exists b, bs !! u64 (32 * (top hist / 32)) = Some b /\
                          b_elements b !! (top hist mod 32) = Some x
  | _ => True
  end.

Record store_ok own rel hist bs p pcs out : Prop := {
  so_len : (length own <= length hist)%nat;
  so_index : forall j t, own !! j = Some (Some t) ->
    exists c, pcs !! t = Some c /\ index_of c = Some (u64 (H0 + Z.of_nat j));
  so_local : forall t c, pcs !! t = Some c -> local_ok own rel hist t c;
  so_blocks : forall k, entered hist p k -> k ∉ rel ->
    exists b, bs !! u64 (32 * k) = Some b /\ block_ok own hist pcs k b;
  so_released : forall k, k ∈ rel -> entered hist p k /\ dq H0 own k = 32 /\ bs !! u64 (32 * k) = None;
  so_full : forall k, entered hist p k -> k ∉ rel -> dq H0 own k = 32 ->
    exists t c, pcs !! t = Some c /\ releasing c = Some (u64 (32 * k));
  so_once : forall t t' c c' k, pcs !! t = Some c -> pcs !! t' = Some c' ->
    releasing c = Some k -> releasing c' = Some k -> t = t';
  so_producer : producer_ok hist bs p;
  so_nodup : NoDup out.*1;
  so_out : forall i x, (i, x) ∈ out ->
    exists j, i = u64 (H0 + Z.of_nat j) /\ own !! j = Some None /\ hist !! j = Some x;
  so_all : forall j, own !! j = Some None ->
    u64 (H0 + Z.of_nat j) ∈ out.*1 \/
    exists t x, pcs !! t = Some (D_release (u64 (H0 + Z.of_nat j)) x);
  so_pending : forall t i x, pcs !! t = Some (D_release i x) -> i ∉ out.*1 }.

Definition short hist : Prop := Z.of_nat (length hist) < 2 ^ 62.

(** *** Facts *)

Lemma base_of i : block_base (u64 i) = u64 (32 * (i / 32)).
Proof. apply block_base_u64. Qed.

Lemma key_inj hist p k k' :
  short hist -> entered hist p k -> entered hist p k' -> u64 (32 * k) = u64 (32 * k') -> k = k'.
Proof.
  unfold short, entered, top; intros Hs [Hk Hk2] [Hk' Hk2'] E.
  pose proof (Z.div_mod H0 32); pose proof (Z.mod_pos_bound H0 32).
  set (T := H0 + Z.of_nat (length hist)) in *; pose proof (Z.div_mod T 32); pose proof (Z.mod_pos_bound T 32).
  enough (32 * k = 32 * k') by lia; apply u64_inj; [|done].
  assert (32 * k <= T /\ 32 * k' <= T) by (destruct Hk2 as [|[_ ->]], Hk2' as [|[_ ->]]; lia); lia.
Qed.

Lemma index_inj hist j j' :
  short hist -> (j < length hist)%nat -> (j' < length hist)%nat ->
  u64 (H0 + Z.of_nat j) = u64 (H0 + Z.of_nat j') -> j = j'.
Proof. unfold short; intros Hs Hj Hj' E; apply u64_inj in E; lia. Qed.

Lemma not_owner own rel hist bs p pcs out t c j :
  store_ok own rel hist bs p pcs out -> pcs !! t = Some c -> index_of c = None ->
  own !! j <> Some (Some t).
Proof.
  intros Hok Ht Hc Hj; destruct (so_index _ _ _ _ _ _ _ Hok j t Hj) as (c0 & Hc0 & Hi); congruence.
Qed.

(** A block with an index in use or to come has not been given back. *)
Lemma not_done_entered own rel hist bs p pcs out i :
  store_ok own rel hist bs p pcs out -> done_at H0 own i = false -> H0 <= i ->
  (i < top hist \/ (i = top hist /\ writing p = true)) ->
  entered hist p (i / 32) /\ dq H0 own (i / 32) < 32 /\ (i / 32 ∉ rel) /\
  exists b, bs !! u64 (32 * (i / 32)) = Some b /\ block_ok own hist pcs (i / 32) b.
Proof.
  intros Hok Hd Hi HT.
  assert (entered hist p (i / 32)) as He.
  { split; [apply Z.div_le_mono; lia|]; pose proof (Z.div_mod i 32); pose proof (Z.mod_pos_bound i 32).
    destruct HT as [?|[-> ?]]; [left; lia|by right]. }
  assert (dq H0 own (i / 32) < 32) as Hq.
  { pose proof (dq_bound H0 own (i / 32)); destruct (decide (dq H0 own (i / 32) = 32)) as [E|]; [|lia].
    rewrite (dq_full H0 own (i / 32) i) in Hd by done; done. }
  assert (i / 32 ∉ rel) as Hr.
  { intros Hr; apply (so_released _ _ _ _ _ _ _ Hok) in Hr as (_ & ? & _); lia. }
  split_all; try done; by apply (so_blocks _ _ _ _ _ _ _ Hok).
Qed.

Lemma owner_block own rel hist bs p pcs out j t :
  store_ok own rel hist bs p pcs out -> own !! j = Some (Some t) ->
  let i := H0 + Z.of_nat j in
  entered hist p (i / 32) /\ dq H0 own (i / 32) < 32 /\ (i / 32 ∉ rel) /\
  exists b, bs !! block_base (u64 i) = Some b /\ block_ok own hist pcs (i / 32) b.
Proof.
  intros Hok Hj i; rewrite base_of; eapply not_done_entered; [done|by eapply done_not|lia|left].
  pose proof (so_len _ _ _ _ _ _ _ Hok); apply lookup_lt_Some in Hj; unfold i, top; lia.
Qed.

(** Moving a thread changes the view of its own index only. *)
Lemma stored_other own pcs t c' i :
  (forall j, own !! j <> Some (Some t)) -> stored own (<[t := c']> pcs) i = stored own pcs i.
Proof.
  intros Hn; unfold stored; destruct (own !! Z.to_nat (i - H0)) as [[t'|]|] eqn:E; try done.
  rewrite lookup_insert_ne; [done|]; intros ->; by apply (Hn _ E).
Qed.

Lemma block_ok_mono own own' hist pcs pcs' k b :
  dq H0 own' k = dq H0 own k -> (forall i, stored own' pcs' i = true -> stored own pcs i = true) ->
  block_ok own hist pcs k b -> block_ok own' hist pcs' k b.
Proof. intros Hq Hs [Hd He]; split; [congruence|]; intros i Hi Hk Hst; apply He; auto. Qed.
End storage.
