(* ===== verification/RaceSteps.v ===== *)
(** * One producer and its consumers: how each access changes the storage *)

From S2P Require Import Prelude BlockPool ImplicitProducer BlockIndex ProducerFifo Threads ProducerRace RaceStorage.

Section steps.
Context {A : Type} (H0 : Z).
Implicit Types (own : list (option nat)) (rel : gset Z) (hist : list A) (bs : gmap Z (block A))
  (p : producer_pc A) (pcs : gmap nat (consumer_pc A)) (out : list (Z * A)).
Local Abbreviation store_ok := (store_ok H0).
Local Abbreviation entered := (entered H0).
Local Abbreviation top := (top H0).
Local Abbreviation local_ok := (local_ok H0).
Local Abbreviation stored := (stored H0).

(** *** Consumers *)

(** A thread that is new or not at work on an index. *)
Lemma store_elsewhere own rel hist bs p pcs out t c' :
  store_ok own rel hist bs p pcs out ->
  (forall c, pcs !! t = Some c -> index_of c = None /\ releasing c = None) -> index_of c' = None -> releasing c' = None ->
  store_ok own rel hist bs p (<[t := c']> pcs) out.
Proof.
  intros Hok Ht Hi' Hr'.
  assert (forall j, own !! j <> Some (Some t)) as Hno.
  { intros j Hj; destruct (so_index _ _ _ _ _ _ _ _ Hok j t Hj) as (c0 & Hc0 & Hi); destruct (Ht c0 Hc0); congruence. }
  destruct Hok as [H1 H2 H3 H4 H5 H6 H7 H8 H9 H10 H11 H12]; split; try done.
  - intros j t' Hj; destruct (H2 j t' Hj) as (c0 & Hc0 & E); exists c0; split; [|done].
    rewrite lookup_insert_ne; [done|]; intros ->; by apply (Hno j).
  - intros t' c0 [[<- <-]|[_ Hc0]]%lookup_insert_Some; [by destruct c'|by apply H3].
  - intros k Hk Hkr; destruct (H4 k Hk Hkr) as (b & Hb & Hbo); exists b; split; [done|].
    eapply block_ok_mono; [done| |exact Hbo]; intros i; by rewrite stored_other.
  - intros k Hk Hkr Hq; destruct (H6 k Hk Hkr Hq) as (t' & c0 & Hc0 & E); exists t', c0; split; [|done].
    rewrite lookup_insert_ne; [done|]; intros ->; destruct (Ht c0 Hc0); congruence.
  - intros t1 t2 c1 c2 k [[<- <-]|[_ Hc1]]%lookup_insert_Some [[<- <-]|[_ Hc2]]%lookup_insert_Some E1 E2;
      try congruence; by eapply H7.
  - intros j Hj; destruct (H11 j Hj) as [?|(t' & x & Hx)]; [by left|right]; exists t', x.
    rewrite lookup_insert_ne; [done|]; intros ->; by destruct (Ht _ Hx).
  - intros t' i x [[<- ->]|[_ Hx]]%lookup_insert_Some; [done|by eapply H12].
Qed.
Lemma store_other own rel hist bs p pcs out t c c' :
  store_ok own rel hist bs p pcs out -> pcs !! t = Some c ->
  index_of c = None -> releasing c = None -> index_of c' = None -> releasing c' = None ->
  store_ok own rel hist bs p (<[t := c']> pcs) out.
Proof. intros Hok Ht Hi Hr; apply store_elsewhere; [done|]; intros c0 Hc0; by simplify_eq. Qed.

(** A thread takes the next index. *)
Lemma store_take own rel hist bs p pcs out t c :
  store_ok own rel hist bs p pcs out -> pcs !! t = Some c -> index_of c = None -> releasing c = None ->
  (length own < length hist)%nat ->
  store_ok (own ++ [Some t]) rel hist bs p
    (<[t := D_lookup (u64 (H0 + Z.of_nat (length own)))]> pcs) out.
Proof.
  intros Hok Ht Hi Hr Hlen.
  pose proof (fun j => not_owner H0 _ _ _ _ _ _ _ t c j Hok Ht Hi) as Hno.
  destruct Hok as [H1 H2 H3 H4 H5 H6 H7 H8 H9 H10 H11 H12].
  assert (forall j x, own !! j = Some x -> (own ++ [Some t]) !! j = Some x) as Hold.
  { intros j x Hj; by apply lookup_app_l_Some. }
  split; try done.
  - rewrite length_app; cbn; lia.
  - intros j t' [Hj|[Hge Hj]]%lookup_app_Some.
    + destruct (H2 j t' Hj) as (c0 & Hc0 & E); exists c0; split; [|done].
      rewrite lookup_insert_ne; [done|]; intros ->; by apply (Hno j).
    + apply list_lookup_singleton_Some in Hj as [Hj0 [= <-]]; eexists; rewrite lookup_insert_eq; split; [done|].
      cbn; do 3 f_equal; lia.
  - intros t' c0 [[<- <-]|[_ Hc0]]%lookup_insert_Some.
    + exists (length own); split; [by apply list_lookup_middle|done].
    + specialize (H3 t' c0 Hc0); destruct c0; cbn in *; try done; destruct H3 as (j & Hj & H3); exists j;
        split; auto; rewrite dq_grow; done.
  - intros k Hk Hkr; destruct (H4 k Hk Hkr) as (b & Hb & Hbo); exists b; split; [done|].
    eapply block_ok_mono; [apply dq_grow| |exact Hbo]; intros i.
    unfold stored; destruct (own !! Z.to_nat (i - H0)) as [x|] eqn:E; [|done]; rewrite (Hold _ _ E).
    destruct x as [t'|]; [|done]; rewrite lookup_insert_ne; [done|]; intros ->; by apply (Hno _ E).
  - intros k Hk; destruct (H5 k Hk) as (? & ? & ?); by rewrite dq_grow.
  - intros k Hk Hkr Hq; rewrite dq_grow in Hq; destruct (H6 k Hk Hkr Hq) as (t' & c0 & Hc0 & E).
    exists t', c0; split; [|done]; rewrite lookup_insert_ne; [done|]; intros ->; congruence.
  - intros t1 t2 c1 c2 k [[<- <-]|[_ Hc1]]%lookup_insert_Some [[<- <-]|[_ Hc2]]%lookup_insert_Some E1 E2;
      try done; by eapply H7.
  - intros i x Hx; destruct (H10 i x Hx) as (j & ? & ? & ?); exists j; auto.
  - intros j [Hj|[Hge Hj]]%lookup_app_Some.
    + destruct (H11 j Hj) as [?|(t' & x & Hx)]; [by left|right]; exists t', x.
      rewrite lookup_insert_ne; [done|]; intros ->; by rewrite Ht in Hx; injection Hx as ->.
    + by apply list_lookup_singleton_Some in Hj as [_ ?].
  - intros t' i x [[<- ?]|[_ Hx]]%lookup_insert_Some; [done|by eapply H12].
Qed.

(** A thread moves on with the index it has; the blocks are [bs']. *)
Lemma store_same_index own rel hist bs bs' p pcs out t c c' i :
  store_ok own rel hist bs p pcs out -> pcs !! t = Some c ->
  index_of c = Some i -> index_of c' = Some i -> local_ok own rel hist t c' ->
  (forall k, entered hist p k -> k ∉ rel -> forall b, bs !! u64 (32 * k) = Some b ->
     block_ok H0 own hist pcs k b ->
     exists b', bs' !! u64 (32 * k) = Some b' /\ block_ok H0 own hist (<[t := c']> pcs) k b') ->
  (forall k, k ∈ rel -> bs !! u64 (32 * k) = None -> bs' !! u64 (32 * k) = None) ->
  producer_ok H0 hist bs' p ->
  store_ok own rel hist bs' p (<[t := c']> pcs) out.
Proof.
  intros [H1 H2 H3 H4 H5 H6 H7 H8 H9 H10 H11 H12] Ht Hi Hi' Hl Hbs Hgone Hp.
  assert (releasing c = None /\ releasing c' = None) as [Hr Hr'] by (by destruct c, c').
  split; try done.
  - intros j t' Hj; destruct (H2 j t' Hj) as (c0 & Hc0 & E).
    destruct (decide (t' = t)) as [->|]; [|exists c0; by rewrite lookup_insert_ne].
    exists c'; rewrite lookup_insert_eq; split; [done|]; congruence.
  - intros t' c0 [[<- <-]|[_ Hc0]]%lookup_insert_Some; [done|by apply H3].
  - intros k Hk Hkr; destruct (H4 k Hk Hkr) as (b & Hb & Hbo); by eapply Hbs.
  - intros k Hk; destruct (H5 k Hk) as (? & ? & ?); auto.
  - intros k Hk Hkr Hq; destruct (H6 k Hk Hkr Hq) as (t' & c0 & Hc0 & E); exists t', c0; split; [|done].
    rewrite lookup_insert_ne; [done|]; intros ->; congruence.
  - intros t1 t2 c1 c2 k [[<- <-]|[_ Hc1]]%lookup_insert_Some [[<- <-]|[_ Hc2]]%lookup_insert_Some E1 E2;
      try congruence; by eapply H7.
  - intros j Hj; destruct (H11 j Hj) as [?|(t' & x & Hx)]; [by left|right]; exists t', x.
    rewrite lookup_insert_ne; [done|]; intros ->; by rewrite Ht in Hx; injection Hx as ->.
  - intros t' i' x [[<- ->]|[_ Hx]]%lookup_insert_Some; [done|by eapply H12].
Qed.
Lemma store_lookup own rel hist bs p pcs out t i :
  store_ok own rel hist bs p pcs out -> pcs !! t = Some (D_lookup i) ->
  (exists b, bs !! block_base i = Some b) /\
  store_ok own rel hist bs p (<[t := D_move i]> pcs) out.
Proof.
  intros Hok Ht; pose proof (so_local _ _ _ _ _ _ _ _ Hok t _ Ht) as (j & Hj & ->); split.
  - destruct (owner_block H0 _ _ _ _ _ _ _ j t Hok Hj) as (_ & _ & _ & b & Hb & _); by exists b.
  - eapply store_same_index; [done..|by exists j| |done|apply Hok].
    intros k Hk Hkr b Hb Hbo; exists b; split; [done|].
    eapply block_ok_mono; [done| |exact Hbo]; intros i; unfold stored.
    destruct (own !! Z.to_nat (i - H0)) as [[t'|]|] eqn:E; try done.
    destruct (decide (t' = t)) as [->|]; [by rewrite Ht|by rewrite lookup_insert_ne].
Qed.

(** Changing one block leaves the others alone. *)
Lemma insert_block bs hist p k b' k' :
  short hist -> entered hist p k -> entered hist p k' ->
  <[u64 (32 * k) := b']> bs !! u64 (32 * k') = if decide (k = k') then Some b' else bs !! u64 (32 * k').
Proof.
  intros Hs Hk Hk'; case_decide as E; [subst; apply lookup_insert_eq|].
  rewrite lookup_insert_ne; [done|]; intros E'; apply E; by eapply key_inj.
Qed.

Lemma producer_ok_insert bs hist p k b b' :
  short hist -> entered hist p k -> bs !! u64 (32 * k) = Some b ->
  (k = top hist / 32 -> b_elements b' !! (top hist mod 32) = b_elements b !! (top hist mod 32)) ->
  producer_ok H0 hist bs p -> producer_ok H0 hist (<[u64 (32 * k) := b']> bs) p.
Proof.
  intros Hs Hk Hb He; destruct p as [| | | |x] eqn:Hp; try done; cbn; intros (b0 & Hb0 & Hx).
  assert (entered hist p (top hist / 32)) as Ht.
  { split; [apply Z.div_le_mono; unfold RaceStorage.top; lia|right; by subst p]. }
  rewrite <- Hp in *; rewrite (insert_block bs hist p k b' _ Hs Hk Ht); case_decide as E.
  - exists b'; split; [done|]; rewrite He by done; subst k; congruence.
  - by exists b0.
Qed.

(** A thread moves its element out of the block. *)
Lemma store_move own rel hist bs p pcs out t i :
  short hist -> store_ok own rel hist bs p pcs out -> pcs !! t = Some (D_move i) ->
  exists b x, bs !! block_base i = Some b /\ b_elements b !! slot i = Some x /\
    store_ok own rel hist
      (<[block_base i := set_b_elements (delete (slot i) (b_elements b)) b]> bs) p
      (<[t := D_count i x]> pcs) out.
Proof.
  intros Hs Hok Ht; pose proof (so_local _ _ _ _ _ _ _ _ Hok t _ Ht) as (j & Hj & ->).
  destruct (owner_block H0 _ _ _ _ _ _ _ j t Hok Hj) as (He & _ & Hr & b & Hb & Hbo).
  pose proof (so_len _ _ _ _ _ _ _ _ Hok) as Hlen; pose proof (lookup_lt_Some _ _ _ Hj) as Hjl.
  cbv zeta in *; remember (H0 + Z.of_nat j) as i eqn:Ei; assert (Z.to_nat (i - H0) = j) as Eij by lia.
  destruct (lookup_lt_is_Some_2 hist j) as [x Hx]; [lia|]; rewrite slot_u64.
  assert (b_elements b !! (i mod 32) = Some x) as Hel.
  { destruct Hbo as [_ Hbo]; rewrite Hbo; [by rewrite Eij| |done|].
    - unfold RaceStorage.top; lia.
    - unfold stored; by rewrite Eij, Hj, Ht. }
  exists b, x; split; [done|]; split; [done|]; rewrite base_of in *.
  eapply store_same_index; [done..|by exists j; rewrite Ei| | |].
  - intros k Hk Hkr b0 Hb0 Hbo0; rewrite (insert_block bs hist p _ _ _ Hs He Hk).
    assert (forall m, stored own (<[t := D_count (u64 i) x]> pcs) m = true -> stored own pcs m = true /\ Z.to_nat (m - H0) <> j) as Hst.
    { intros m; unfold stored; destruct (own !! Z.to_nat (m - H0)) as [[t'|]|] eqn:E; try done.
      - destruct (decide (t' = t)) as [->|]; [by rewrite lookup_insert_eq|].
        rewrite lookup_insert_ne by done; intros; split; [done|]; intros Em; congruence.
      - intros; split; [done|]; intros Em; congruence. }
    case_decide as E.
    + eexists; split; [done|]; subst k; assert (b0 = b) as -> by congruence.
      destruct Hbo as [Hd He2]; split; [done|]; intros m Hm Hmk Hms; destruct (Hst m Hms) as [Hms' Hne]; cbn.
      rewrite lookup_delete_ne; [by apply He2|].
      pose proof (Z.div_mod m 32); pose proof (Z.div_mod i 32); lia.
    + exists b0; split; [done|]; eapply block_ok_mono; [done| |exact Hbo0]; intros m Hm; by apply Hst.
  - intros k Hk Hn; destruct (so_released _ _ _ _ _ _ _ _ Hok k Hk) as (Hk' & _ & _).
    rewrite (insert_block bs hist p _ _ _ Hs He Hk'); case_decide; [by subst|done].
  - eapply producer_ok_insert; [done..| |apply Hok]; intros E; cbn; rewrite lookup_delete_ne; [done|].
    pose proof (Z.div_mod (top hist) 32); pose proof (Z.div_mod i 32); unfold RaceStorage.top in *; lia.
Qed.
(** An index that is not done yet has not been given out as a result. *)
Lemma not_out own rel hist bs p pcs out j t :
  short hist -> store_ok own rel hist bs p pcs out -> own !! j = Some (Some t) ->
  u64 (H0 + Z.of_nat j) ∉ out.*1.
Proof.
  intros Hs Hok Hj ([i x] & E & Hx)%list_elem_of_fmap; cbn in E; subst i.
  destruct (so_out _ _ _ _ _ _ _ _ Hok _ _ Hx) as (j' & E & Hj' & _).
  pose proof (so_len _ _ _ _ _ _ _ _ Hok); pose proof (lookup_lt_Some _ _ _ Hj).
  pose proof (lookup_lt_Some _ _ _ Hj'); apply (index_inj H0 hist) in E; [|done|lia..]; congruence.
Qed.

Section count.
Context own rel hist bs p pcs out (t j : nat) (x : A) (b : block A).
Hypothesis (Hs : short hist) (Hok : store_ok own rel hist bs p pcs out).
Local Abbreviation i := (H0 + Z.of_nat j).
Hypothesis (Ht : pcs !! t = Some (D_count (u64 i) x)) (Hj : own !! j = Some (Some t))
  (Hx : hist !! j = Some x) (He : entered hist p (i / 32)) (Hr : i / 32 ∉ rel)
  (Hb : bs !! u64 (32 * (i / 32)) = Some b) (Hbo : block_ok H0 own hist pcs (i / 32) b)
  (Hq : dq H0 own (i / 32) < 32).
Local Abbreviation own' := (<[j := None]> own).
Local Abbreviation bs' := (<[u64 (32 * (i / 32)) := set_b_dequeued (dq H0 own (i / 32) + 1) b]> bs).
Local Abbreviation now := (dq H0 own (i / 32) =? 31).
Local Abbreviation c' := (if now then D_release (u64 i) x else D_idle (Some x)).
Local Abbreviation out' := (if now then out else out ++ [(u64 i, x)]).

Lemma count_dq k : dq H0 own' k = dq H0 own k + (if decide (k = i / 32) then 1 else 0).
Proof. by apply dq_insert with t. Qed.

Lemma count_own k y : own' !! k = Some y -> (k = j /\ y = None) \/ (k <> j /\ own !! k = Some y).
Proof. intros [[-> [<- _]]|[? ?]]%list_lookup_insert_Some; auto. Qed.

Lemma count_keeps_done k : own !! k = Some None -> own' !! k = Some None.
Proof.
  intros Hk; destruct (decide (k = j)) as [->|]; [congruence|]; by rewrite list_lookup_insert_ne.
Qed.

Lemma count_stored m : stored own' (<[t := c']> pcs) m = true -> stored own pcs m = true.
Proof.
  unfold stored; destruct (decide (Z.to_nat (m - H0) = j)) as [->|Hne].
  - by rewrite list_lookup_insert_eq by (by eapply lookup_lt_Some).
  - rewrite list_lookup_insert_ne by done; destruct (own !! Z.to_nat (m - H0)) as [[t'|]|] eqn:E; try done.
    rewrite lookup_insert_ne; [done|]; intros ->.
    destruct (so_index _ _ _ _ _ _ _ _ Hok _ _ E) as (c & Hc & Hi); rewrite Ht in Hc; injection Hc as <-.
    injection Hi as Hi; pose proof (so_len _ _ _ _ _ _ _ _ Hok); pose proof (lookup_lt_Some _ _ _ E).
    pose proof (lookup_lt_Some _ _ _ Hj); apply (index_inj H0 hist) in Hi; [|done|lia..]; congruence.
Qed.

Lemma count_releasing c k : pcs !! t = Some c -> releasing c <> Some k.
Proof. intros Hc; rewrite Ht in Hc; by injection Hc as <-. Qed.

(** Another thread that releases a block does not release this one. *)
Lemma count_other_release t' c k :
  pcs !! t' = Some c -> releasing c = Some k -> k <> u64 (32 * (i / 32)).
Proof.
  intros Hc Hk ->; destruct c; try done; injection Hk as Hk.
  destruct (so_local _ _ _ _ _ _ _ _ Hok t' _ Hc) as (j' & Hj' & -> & Hx' & Hq' & Hr').
  rewrite base_of in Hk; apply (key_inj H0 hist p) in Hk; [rewrite Hk in Hq'; lia|done| |done].
  split; [apply Z.div_le_mono; lia|left]; apply lookup_lt_Some in Hx'.
  pose proof (Z.div_mod (H0 + Z.of_nat j') 32); pose proof (Z.mod_pos_bound (H0 + Z.of_nat j') 32).
  unfold RaceStorage.top; lia.
Qed.

Lemma count_local t' c : t' <> t -> pcs !! t' = Some c -> local_ok own' rel hist t' c.
Proof.
  intros Hne Hc; pose proof (so_local _ _ _ _ _ _ _ _ Hok t' c Hc) as Hl.
  assert (forall k, own !! k = Some (Some t') -> own' !! k = Some (Some t')) as Hk.
  { intros k Hk; destruct (decide (k = j)) as [->|]; [congruence|]; by rewrite list_lookup_insert_ne. }
  destruct c; cbn in *; try done; destruct Hl as (j' & Hj' & Hl); exists j'; split; auto using count_keeps_done.
  destruct Hl as (-> & Hx' & Hq' & Hr'); split_all; try done; rewrite count_dq, Hq'.
  pose proof (count_other_release t' _ _ Hc eq_refl) as Hne'; rewrite base_of in Hne'.
  case_decide as E; [|lia]; by rewrite E in Hne'.
Qed.

Lemma store_count_blocks k :
  entered hist p k -> k ∉ rel ->
  exists b', bs' !! u64 (32 * k) = Some b' /\ block_ok H0 own' hist (<[t := c']> pcs) k b'.
Proof.
  intros Hk Hkr; rewrite (insert_block bs hist p _ _ _ Hs He Hk); case_decide as E.
  - subst k; eexists; split; [done|]; destruct Hbo as [Hd Hel]; split.
    + cbn; rewrite count_dq, decide_True by done; lia.
    + intros m Hm Hmk Hms; cbn; apply Hel; auto using count_stored.
  - destruct (so_blocks _ _ _ _ _ _ _ _ Hok k Hk Hkr) as (b0 & Hb0 & Hbo0); exists b0; split; [done|].
    eapply block_ok_mono; [|apply count_stored|exact Hbo0].
    rewrite count_dq, decide_False by done; lia.
Qed.

Lemma count_index k t' : own' !! k = Some (Some t') ->
  exists c, (<[t := c']> pcs) !! t' = Some c /\ index_of c = Some (u64 (H0 + Z.of_nat k)).
Proof.
  intros [[? ?]|[Hne Hk]]%count_own; [done|].
  destruct (so_index _ _ _ _ _ _ _ _ Hok k t' Hk) as (c & Hc & Hi); exists c; split; [|done].
  rewrite lookup_insert_ne; [done|]; intros ->; rewrite Ht in Hc; injection Hc as <-.
  injection Hi as Hi; pose proof (so_len _ _ _ _ _ _ _ _ Hok); pose proof (lookup_lt_Some _ _ _ Hk).
  pose proof (lookup_lt_Some _ _ _ Hj); apply (index_inj H0 hist) in Hi; [|done|lia..]; congruence.
Qed.

Lemma count_full k : entered hist p k -> k ∉ rel -> dq H0 own' k = 32 ->
  exists t' c, (<[t := c']> pcs) !! t' = Some c /\ releasing c = Some (u64 (32 * k)).
Proof.
  intros Hk Hkr; rewrite count_dq; case_decide as E; intros Hqk.
  - subst k; exists t, c'; rewrite lookup_insert_eq; split; [done|].
    destruct (Z.eqb_spec (dq H0 own (i / 32)) 31); [cbn; by rewrite base_of|lia].
  - destruct (so_full _ _ _ _ _ _ _ _ Hok k Hk Hkr) as (t' & c & Hc & Hrel); [lia|].
    exists t', c; split; [|done]; rewrite lookup_insert_ne; [done|]; intros <-; by eapply count_releasing.
Qed.

(** What has been given out as a result. *)
Lemma count_nodup : NoDup out'.*1.
Proof.
  pose proof (not_out _ _ _ _ _ _ _ j t Hs Hok Hj) as Hnot; destruct now; [apply Hok|].
  rewrite fmap_app; apply NoDup_app; split; [apply Hok|split; [|apply NoDup_singleton]].
  intros k Hk ->%list_elem_of_singleton; done.
Qed.
Lemma count_out k y : (k, y) ∈ out' -> exists j0, k = u64 (H0 + Z.of_nat j0) /\ own' !! j0 = Some None /\ hist !! j0 = Some y.
Proof.
  assert ((k, y) ∈ out -> exists j0, k = u64 (H0 + Z.of_nat j0) /\ own' !! j0 = Some None /\ hist !! j0 = Some y) as Hold.
  { intros Hy; destruct (so_out _ _ _ _ _ _ _ _ Hok k y Hy) as (j0 & ? & ? & ?); exists j0; auto using count_keeps_done. }
  destruct now; [apply Hold|]; intros [Hy|[= -> ->]%list_elem_of_singleton]%elem_of_app; [by apply Hold|].
  exists j; rewrite list_lookup_insert_eq by (by eapply lookup_lt_Some); done.
Qed.
Lemma count_all k : own' !! k = Some None ->
  u64 (H0 + Z.of_nat k) ∈ out'.*1 \/ exists t' y, (<[t := c']> pcs) !! t' = Some (D_release (u64 (H0 + Z.of_nat k)) y).
Proof.
  intros [[-> _]|[Hne Hk]]%count_own.
  - destruct now; [right; exists t, x; by rewrite lookup_insert_eq|left].
    rewrite fmap_app; apply elem_of_app; right; by apply list_elem_of_singleton.
  - destruct (so_all _ _ _ _ _ _ _ _ Hok k Hk) as [Ho|(t' & y & Hy)].
    + left; destruct now; [done|]; rewrite fmap_app; apply elem_of_app; by left.
    + right; exists t', y; rewrite lookup_insert_ne; [done|]; intros ->; congruence.
Qed.
Lemma count_pending t' k y : (<[t := c']> pcs) !! t' = Some (D_release k y) -> k ∉ out'.*1.
Proof.
  pose proof (not_out _ _ _ _ _ _ _ j t Hs Hok Hj) as Hnot; intros [[<- E]|[Hne Hy]]%lookup_insert_Some.
  - destruct now; [|done]; injection E as <- <-; done.
  - pose proof (so_pending _ _ _ _ _ _ _ _ Hok t' k y Hy) as Hk; destruct now; [done|].
    rewrite fmap_app; intros [?|Ek%list_elem_of_singleton]%elem_of_app; [done|]; cbn in Ek; subst k.
    destruct (so_local _ _ _ _ _ _ _ _ Hok t' _ Hy) as (j' & Hj' & Ej & Hx' & _).
    pose proof (lookup_lt_Some _ _ _ Hx); apply lookup_lt_Some in Hx'.
    apply (index_inj H0 hist) in Ej; [|done..]; congruence.
Qed.

Lemma store_count : store_ok own' rel hist bs' p (<[t := c']> pcs) out'.
Proof.
  split; try done; auto using store_count_blocks, count_full, count_nodup, count_out, count_all.
  - rewrite length_insert; apply Hok.
  - apply count_index.
  - intros t' c [[<- <-]|[Hne Hc]]%lookup_insert_Some; [|by apply count_local].
    destruct (Z.eqb_spec (dq H0 own (i / 32)) 31); [|done]; exists j; split; [|split; [done|split; [done|split; [|done]]]].
    + rewrite list_lookup_insert_eq; [done|by eapply lookup_lt_Some].
    + rewrite count_dq, decide_True by done; lia.
  - intros k Hk; destruct (so_released _ _ _ _ _ _ _ _ Hok k Hk) as (Hk' & Hqk & Hbk).
    assert (k <> i / 32) by (intros ->; done); split; [done|split].
    + rewrite count_dq, decide_False by done; lia.
    + rewrite (insert_block bs hist p _ _ _ Hs He Hk'); by rewrite decide_False by done.
  - intros t1 t2 c1 c2 k [[<- <-]|[Hn1 Hc1]]%lookup_insert_Some [[<- <-]|[Hn2 Hc2]]%lookup_insert_Some E1 E2; [done|..].
    + destruct now; [|done]; injection E1 as E1; rewrite base_of in E1; by destruct (count_other_release _ _ _ Hc2 E2).
    + destruct now; [|done]; injection E2 as E2; rewrite base_of in E2; by destruct (count_other_release _ _ _ Hc1 E1).
    + by eapply (so_once _ _ _ _ _ _ _ _ Hok).
  - eapply producer_ok_insert; [done..|apply Hok].
  - apply count_pending.
Qed.
End count.
(** The thread that counted the last element of a block gives the block back. *)
Section release.
Context own rel hist bs p pcs out (t j : nat) (x : A).
Hypothesis (Hs : short hist) (Hok : store_ok own rel hist bs p pcs out).
Local Abbreviation i := (u64 (H0 + Z.of_nat j)).
Local Abbreviation k := ((H0 + Z.of_nat j) / 32).
Hypothesis (Ht : pcs !! t = Some (D_release i x)) (Hx : hist !! j = Some x) (Hj : own !! j = Some None)
  (Hq : dq H0 own k = 32) (Hr : k ∉ rel).
Local Abbreviation rel' := ({[k]} ∪ rel).
Local Abbreviation bs' := (delete (u64 (32 * k)) bs).
Local Abbreviation pcs' := (<[t := D_idle (Some x)]> pcs).
Local Abbreviation out' := (out ++ [(i, x)]).

Lemma release_entered : entered hist p k.
Proof.
  split; [apply Z.div_le_mono; lia|left]; apply lookup_lt_Some in Hx.
  pose proof (Z.div_mod (H0 + Z.of_nat j) 32); pose proof (Z.mod_pos_bound (H0 + Z.of_nat j) 32).
  unfold RaceStorage.top; lia.
Qed.

Lemma release_other k' : k' <> k -> entered hist p k' -> bs' !! u64 (32 * k') = bs !! u64 (32 * k').
Proof.
  intros Hne Hk'; apply lookup_delete_ne; intros E; apply Hne; symmetry.
  eapply key_inj; [done|apply release_entered|done|done].
Qed.

(** No other thread is about to give this block back. *)
Lemma release_alone t' c : t' <> t -> pcs !! t' = Some c -> releasing c <> Some (u64 (32 * k)).
Proof.
  intros Hne Hc E; apply Hne; eapply (so_once _ _ _ _ _ _ _ _ Hok); [exact Hc|exact Ht|exact E|]; cbn; by rewrite base_of.
Qed.

Lemma release_local t' c : pcs' !! t' = Some c -> local_ok own rel' hist t' c.
Proof.
  intros [[<- <-]|[Hne Hc]]%lookup_insert_Some; [done|]; pose proof (so_local _ _ _ _ _ _ _ _ Hok t' c Hc) as Hl.
  destruct c; cbn in *; try done; destruct Hl as (j' & ? & -> & ? & ? & ?); exists j'; split_all; try done.
  intros [E%elem_of_singleton|?]%elem_of_union; [|done].
  apply (release_alone t' _ ltac:(done) Hc); cbn; by rewrite base_of, E.
Qed.

Lemma release_blocks k' : entered hist p k' -> k' ∉ rel' ->
  exists b, bs' !! u64 (32 * k') = Some b /\ block_ok H0 own hist pcs' k' b.
Proof.
  intros Hk' Hkr; destruct (so_blocks _ _ _ _ _ _ _ _ Hok k' Hk') as (b & Hb & Hbo); [set_solver|]; exists b.
  rewrite release_other by (set_solver || done); split; [done|].
  eapply block_ok_mono; [done| |exact Hbo]; intros m.
  rewrite stored_other; [done|]; intros j'; by apply (not_owner H0 _ _ _ _ _ _ _ t _ j' Hok Ht).
Qed.

Lemma release_full k' : entered hist p k' -> k' ∉ rel' -> dq H0 own k' = 32 ->
  exists t' c, pcs' !! t' = Some c /\ releasing c = Some (u64 (32 * k')).
Proof.
  intros Hk' Hkr Hqk; destruct (so_full _ _ _ _ _ _ _ _ Hok k' Hk') as (t' & c0 & Hc0 & E); [set_solver|done|].
  exists t', c0; split; [|done]; rewrite lookup_insert_ne; [done|]; intros <-.
  assert (c0 = D_release i x) as -> by congruence; cbn in E; injection E as E.
  rewrite base_of in E; apply (key_inj H0 hist p) in E; [set_solver|done|apply release_entered|done].
Qed.

Lemma release_producer : producer_ok H0 hist bs' p.
Proof.
  pose proof (so_len _ _ _ _ _ _ _ _ Hok); pose proof (so_producer _ _ _ _ _ _ _ _ Hok) as Hpo; destruct p as [| | | |y] eqn:Hp; try done; cbn in *.
  destruct Hpo as (b & Hb & Hy); exists b; split; [|done].
  rewrite lookup_delete_ne; [done|]; intros E; rewrite <- Hp in *.
  destruct (not_done_entered H0 _ _ _ _ _ _ _ (top hist) Hok) as (He & Hlt & _).
  - apply done_untaken; unfold RaceStorage.top; lia.
  - unfold RaceStorage.top; lia.
  - right; by subst p.
  - apply (key_inj H0 hist p) in E; [|done|apply release_entered|done]; rewrite <- E in Hlt; lia.
Qed.

Lemma release_all j' : own !! j' = Some None ->
  u64 (H0 + Z.of_nat j') ∈ out'.*1 \/ exists t' y, pcs' !! t' = Some (D_release (u64 (H0 + Z.of_nat j')) y).
Proof.
  intros Hj'; rewrite fmap_app; destruct (so_all _ _ _ _ _ _ _ _ Hok j' Hj') as [?|(t' & y & Hy)].
  - left; apply elem_of_app; by left.
  - destruct (decide (t' = t)) as [->|]; [|right; exists t', y; by rewrite lookup_insert_ne].
    left; apply elem_of_app; right; rewrite Ht in Hy; injection Hy as Hy ->; cbn; rewrite Hy; set_solver.
Qed.

Lemma release_stored : store_ok own rel' hist bs' p pcs' out'.
Proof.
  pose proof (so_pending _ _ _ _ _ _ _ _ Hok t _ _ Ht) as Hnot.
  split; auto using release_local, release_blocks, release_full, release_producer, release_all.
  - apply Hok.
  - intros j' t' Hj'; destruct (so_index _ _ _ _ _ _ _ _ Hok j' t' Hj') as (c0 & Hc0 & E); exists c0; split; [|done].
    rewrite lookup_insert_ne; [done|]; intros ->; by apply (not_owner H0 _ _ _ _ _ _ _ t' _ j' Hok Ht eq_refl).
  - intros k' [->%elem_of_singleton|Hk']%elem_of_union; [rewrite lookup_delete_eq; auto using release_entered|].
    destruct (so_released _ _ _ _ _ _ _ _ Hok k' Hk') as (? & ? & Hb); split_all; try done; by rewrite lookup_delete_None; right.
  - intros t1 t2 c1 c2 k' [[<- <-]|[_ Hc1]]%lookup_insert_Some [[<- <-]|[_ Hc2]]%lookup_insert_Some E1 E2;
      try done; by eapply (so_once _ _ _ _ _ _ _ _ Hok).
  - rewrite fmap_app; apply NoDup_app; split; [apply Hok|split; [|apply NoDup_singleton]].
    intros y Hy ->%list_elem_of_singleton; done.
  - intros y z [Hy|[= -> ->]%list_elem_of_singleton]%elem_of_app; [by apply Hok|by exists j].
  - intros t' y z [[<- ?]|[Hne Hy]]%lookup_insert_Some; [done|].
    rewrite fmap_app; intros [?|E%list_elem_of_singleton]%elem_of_app; [by eapply (so_pending _ _ _ _ _ _ _ _ Hok)|]; cbn in E; subst y.
    apply (release_alone t' _ ltac:(done) Hy); cbn; by rewrite base_of.
Qed.
End release.

Lemma store_release own rel hist bs p pcs out t i x :
  short hist -> store_ok own rel hist bs p pcs out -> pcs !! t = Some (D_release i x) ->
  exists rel', store_ok own rel' hist (delete (block_base i) bs) p
    (<[t := D_idle (Some x)]> pcs) (out ++ [(i, x)]).
Proof.
  intros Hs Hok Ht; pose proof (so_local _ _ _ _ _ _ _ _ Hok t _ Ht) as (j & Hj & -> & Hx & Hq & Hr).
  eexists; rewrite base_of; by eapply release_stored.
Qed.

(** *** The producer *)

(** The producer moves on without touching the blocks. *)
Lemma store_producer own rel hist bs p p' pcs out :
  store_ok own rel hist bs p pcs out -> (forall k, entered hist p' k <-> entered hist p k) ->
  producer_ok H0 hist bs p' -> store_ok own rel hist bs p' pcs out.
Proof.
  intros [H1 H2 H3 H4 H5 H6 H7 H8 H9 H10 H11 H12] He Hp; split; try done.
  - intros k Hk; by apply H4, He.
  - intros k Hk; destruct (H5 k Hk) as (? & ? & ?); split_all; try done; by apply He.
  - intros k Hk; by apply H6, He.
Qed.

(** A new block enters the index. *)
Lemma store_enter own rel hist bs p pcs out x b :
  short hist -> store_ok own rel hist bs p pcs out -> writing p = false -> top hist mod 32 = 0 ->
  store_ok own rel hist (<[u64 (top hist) := reset_empty b]> bs) (E_write x) pcs out.
Proof.
  intros Hs Hok Hp Hm; pose proof Hok as [H1 H2 H3 H4 H5 H6 H7 H8 H9 H10 H11 H12].
  set (T := top hist) in *; set (k0 := T / 32); assert (32 * k0 = T) as E0.
  { unfold k0; pose proof (Z.div_mod T 32); lia. }
  assert (H0 <= T) as HT by (unfold T, RaceStorage.top; lia).
  assert (entered hist (E_write x) k0) as Hk0 by (split; [by apply Z.div_le_mono|right; done]).
  assert (forall k, entered hist p k -> entered hist (E_write x) k /\ k <> k0) as Hold.
  { intros k [? [Hlt|[Hw _]]]; [|by rewrite Hw in Hp]; split; [split; [done|by left]|fold T in Hlt; lia]. }
  assert (forall k, entered hist (E_write x) k -> k <> k0 -> entered hist p k) as Hnew.
  { intros k [? [?|[_ Hk]]] Hne; [split; [done|by left]|done]. }
  assert (dq H0 own k0 = 0) as Hq by (apply dq_new; unfold T, RaceStorage.top in *; [done|lia]).
  rewrite <- E0; split; try done.
  - intros k Hk Hkr; rewrite (insert_block bs hist (E_write x) k0 _ k Hs Hk0 Hk); case_decide as E.
    + subst k; eexists; split; [done|]; split; [done|]; intros i Hi Hik.
      pose proof (Z.div_mod i 32); pose proof (Z.mod_pos_bound i 32); fold T in Hi; lia.
    + apply H4; auto.
  - intros k Hk; destruct (H5 k Hk) as (He & ? & ?); destruct (Hold k He) as [He' Hne]; split_all; try done.
    rewrite (insert_block bs hist (E_write x) k0 _ k Hs Hk0 He'); by rewrite decide_False.
  - intros k Hk Hkr Hqk; apply H6; [|done..]; apply Hnew; [done|]; intros ->; lia.
Qed.

(** The element is put into its slot. *)
Lemma store_write own rel hist bs pcs out x :
  short hist -> store_ok own rel hist bs (E_write x) pcs out ->
  exists b, bs !! block_base (u64 (top hist)) = Some b /\
    store_ok own rel hist
      (<[block_base (u64 (top hist)) :=
         set_b_elements (<[slot (u64 (top hist)) := x]> (b_elements b)) b]> bs) (E_tail x) pcs out.
Proof.
  intros Hs Hok; set (T := top hist).
  destruct (not_done_entered H0 _ _ _ _ _ _ _ T Hok) as (He & Hq & Hr & b & Hb & Hbo).
  { apply done_untaken; pose proof (so_len _ _ _ _ _ _ _ _ Hok); unfold T, RaceStorage.top; lia. }
  { unfold T, RaceStorage.top; lia. }
  { by right. }
  exists b; rewrite base_of, slot_u64; split; [done|].
  pose proof Hok as [H1 H2 H3 H4 H5 H6 H7 H8 H9 H10 H11 H12]; split; try done.
  - intros k Hk Hkr; rewrite (insert_block bs hist (E_write x) _ _ k Hs He Hk); case_decide as E; [|by apply H4].
    subst k; eexists; split; [done|]; destruct Hbo as [Hd Hel]; split; [done|]; intros i Hi Hik Hst; cbn.
    rewrite lookup_insert_ne; [by apply Hel|]; pose proof (Z.div_mod i 32); pose proof (Z.div_mod T 32).
    fold T in Hi; lia.
  - intros k Hk; destruct (H5 k Hk) as (Hk' & ? & ?); split_all; try done.
    rewrite (insert_block bs hist (E_write x) _ _ k Hs He Hk'); case_decide; [by subst|done].
  - cbn; eexists; split; [apply lookup_insert_eq|]; cbn; apply lookup_insert_eq.
Qed.

(** The tail moves past it. *)
Lemma store_announce own rel hist bs pcs out x r :
  store_ok own rel hist bs (E_tail x) pcs out ->
  store_ok own rel (hist ++ [x]) bs (E_idle r) pcs out.
Proof.
  intros [H1 H2 H3 H4 H5 H6 H7 (bt & Hbt & Hx) H9 H10 H11 H12]; set (T := top hist) in *.
  assert (top (hist ++ [x]) = T + 1) as ET by (unfold T, RaceStorage.top; rewrite length_app; cbn; lia).
  assert (forall k, entered (hist ++ [x]) (E_idle r) k <-> entered hist (E_tail x) k) as He.
  { intros k; unfold RaceStorage.entered; rewrite ET; fold T; cbn [writing].
    pose proof (Z.div_mod T 32); pose proof (Z.mod_pos_bound T 32); split.
    - intros [? [?|[? _]]]; [|done]; split; [done|]; destruct (decide (32 * k < T)); [by left|right].
      split; [done|]; apply Z.div_unique with 0; lia.
    - intros [? [?|[_ ->]]]; split; [done|left; lia|done|left; lia]. }
  assert (forall j y, hist !! j = Some y -> (hist ++ [x]) !! j = Some y) as Hold.
  { intros; by apply lookup_app_l_Some. }
  split; try done.
  - rewrite length_app; lia.
  - intros t c Hc; specialize (H3 t c Hc); destruct c; cbn in *; try done; destruct H3 as (j & ? & ? & H3);
      exists j; split_all; auto.
  - intros k Hk Hkr; apply He in Hk; destruct (H4 k Hk Hkr) as (b & Hb & Hd & Hel); exists b; split; [done|].
    split; [done|]; rewrite ET; intros i Hi Hik Hst; destruct (decide (i = T)) as [->|].
    + subst k; assert (b = bt) as -> by congruence; rewrite Hx; symmetry.
      replace (Z.to_nat (T - H0)) with (length hist) by (unfold T, RaceStorage.top; lia).
      by apply list_lookup_middle.
    + rewrite Hel; [|fold T; lia|done..]; symmetry; apply lookup_app_l.
      unfold T, RaceStorage.top in *; lia.
  - intros k Hk; destruct (H5 k Hk) as (? & ? & ?); split_all; try done; by apply He.
  - intros k Hk; by apply H6, He.
  - intros i y Hy; destruct (H10 i y Hy) as (j & ? & ? & ?); exists j; auto.
Qed.
End steps.
