(* ===== verification/RaceSafe.v ===== *)
(** * One producer and its consumers: nothing lost, nothing twice

    The invariant of the interleaving, its preservation by every access, and
    what it gives: no access goes wrong, every element comes out at most once, and
    whenever no operation is under way the producer is a queue again. *)

From S2P Require Import Prelude BlockPool ImplicitProducer BlockIndex ProducerFifo Threads ProducerRace RaceTickets RaceStorage RaceSteps.

Section safe.
Context {A : Type} (H0 V0 : Z) (items0 : list A).
Implicit Types (s : traffic A) (st : list ticket) (own : list (option nat)) (rel : gset Z).

Definition hist s : list A := items0 ++ tr_in s.

(** What a thread knows of the tickets. *)
Definition ticket_ok st (t : nat) (c : consumer_pc A) : Prop :=
  match c with
  | D_optimistic _ ov | D_ticket ov =>
      exists o, 0 <= o <= zcount is_over st /\ ov = u64 (V0 + o)
  | D_recheck my ov =>
      exists m o, st !! m = Some (Pending t) /\ my = u64 (H0 + V0 + Z.of_nat m) /\
        ov = u64 (V0 + o) /\ 0 <= o <= zcount is_over (take m st)
  | D_undo => exists m, st !! m = Some (Lost t)
  | D_index => exists m, st !! m = Some (Won t)
  | _ => True
  end.

Record race_inv s st own rel : Prop := {
  ri_store : store_ok H0 own rel (hist s) (tr_blocks s) (tr_producer s) (tr_consumers s) (tr_out s);
  ri_tickets : tickets_ok st (tr_consumers s) (Z.of_nat (length (hist s)));
  ri_taken : zcount is_taken st = Z.of_nat (length own);
  ri_tail : tr_tailIndex s = u64 (top H0 (hist s));
  ri_head : tr_headIndex s = u64 (H0 + Z.of_nat (length own));
  ri_opt : tr_dequeueOptimisticCount s = u64 (H0 + V0 + Z.of_nat (length st));
  ri_over : tr_dequeueOvercommit s = u64 (V0 + zcount is_over st);
  ri_local : forall t c, tr_consumers s !! t = Some c -> ticket_ok st t c }.

(** The work so far, which bounds how far the counters have moved. *)
Definition work s st : Z := Z.of_nat (length (hist s)) + Z.of_nat (length st).
Definition next_inv s st s' : Prop :=
  exists st' own' rel', race_inv s' st' own' rel' /\ work s' st' <= work s st + 1.

Lemma short_work s st : work s st < 2 ^ 62 -> short (hist s).
Proof. unfold work, short; lia. Qed.

Lemma ticket_ok_mono st st' t c :
  (forall m x, st !! m = Some x -> holder x = Some t -> st' !! m = Some x) ->
  (forall m, (m <= length st)%nat -> zcount is_over (take m st) <= zcount is_over (take m st')) ->
  zcount is_over st <= zcount is_over st' -> ticket_ok st t c -> ticket_ok st' t c.
Proof.
  intros Hk Ht Ho; destruct c; cbn; try done.
  - intros (o & ? & ->); exists o; split; [lia|done].
  - intros (o & ? & ->); exists o; split; [lia|done].
  - intros (m & o & Hm & -> & -> & Hle); exists m, o; pose proof (lookup_lt_Some _ _ _ Hm).
    specialize (Ht m ltac:(lia)); split_all; try done; [by apply Hk|lia].
  - intros (m & Hm); exists m; by apply Hk.
  - intros (m & Hm); exists m; by apply Hk.
Qed.

(** The other threads when [t] turns its ticket. *)
Lemma ticket_ok_turn st m x x' t t' c :
  st !! m = Some x -> holder x = Some t -> t' <> t -> is_over x = false ->
  ticket_ok st t' c -> ticket_ok (<[m := x']> st) t' c.
Proof.
  intros Hm Hx Hne Ho; apply ticket_ok_mono.
  - intros k y Hk Hy; rewrite list_lookup_insert_ne; [done|]; intros ->; congruence.
  - intros k _; rewrite (zcount_take_insert _ _ _ _ x) by done; rewrite Ho; pose proof (b2z_range (is_over x')).
    case_decide; cbn; lia.
  - rewrite (zcount_insert _ _ _ x) by done; rewrite Ho; pose proof (b2z_range (is_over x')); cbn; lia.
Qed.

(** A consumer that is new or neither holds a ticket nor an index. *)
Lemma inv_elsewhere s st own rel t c' :
  race_inv s st own rel ->
  (forall c, tr_consumers s !! t = Some c -> has_ticket c = false /\ index_of c = None /\ releasing c = None) ->
  index_of c' = None -> releasing c' = None -> ticket_ok st t c' -> race_inv (set_consumer t c' s) st own rel.
Proof.
  intros [Hs Ht Hn H1 H2 H3 H4 Hl] Hc Hi' Hr' Hl'; split; cbn; try done.
  - apply store_elsewhere; [done| |done..]; intros c Htc; by destruct (Hc c Htc) as (_ & ? & ?).
  - apply tickets_elsewhere; [done|]; intros c Htc; by destruct (Hc c Htc) as (? & _).
  - intros t' c0 [[<- <-]|[_ Hc0]]%lookup_insert_Some; [done|by apply Hl].
Qed.
Lemma inv_consumer s st own rel t c c' :
  race_inv s st own rel -> tr_consumers s !! t = Some c -> has_ticket c = false ->
  index_of c = None -> releasing c = None -> index_of c' = None -> releasing c' = None ->
  ticket_ok st t c' -> race_inv (set_consumer t c' s) st own rel.
Proof. intros Hi Hc ? ? ?; apply inv_elsewhere; [done|]; intros c0 Hc0; by simplify_eq. Qed.

Lemma clt_ticket s st own rel m o :
  race_inv s st own rel -> work s st < 2 ^ 62 -> (m < length st)%nat -> 0 <= o <= Z.of_nat m ->
  circular_less_than (u64 (u64 (H0 + V0 + Z.of_nat m) - u64 (V0 + o))) (tr_tailIndex s) =
  (Z.of_nat m - o <? Z.of_nat (length (hist s))).
Proof.
  intros Hi Hw Hm Ho; rewrite (ri_tail _ _ _ _ Hi), u64_sub.
  replace (H0 + V0 + Z.of_nat m - (V0 + o)) with (H0 + (Z.of_nat m - o)) by lia.
  unfold work, top in *; rewrite clt_u64 by lia.
  repeat case_Z; lia.
Qed.

(** *** Before the index *)

Lemma set_dequeue_same s :
  set_dequeue (tr_headIndex s) (tr_dequeueOptimisticCount s) (tr_dequeueOvercommit s) s = s.
Proof. by destruct s. Qed.

(** A thread turns the ticket it holds, without an element; a lost ticket that is
    settled is counted in [dequeueOvercommit]. *)
Lemma inv_turn s st own rel t m x x' c c' :
  race_inv s st own rel -> tr_consumers s !! t = Some c ->
  index_of c = None -> releasing c = None -> index_of c' = None -> releasing c' = None ->
  st !! m = Some x -> holder x = Some t -> is_over x = false -> is_taken x = false -> is_taken x' = false ->
  tickets_ok (<[m := x']> st) (<[t := c']> (tr_consumers s)) (Z.of_nat (length (hist s))) ->
  ticket_ok (<[m := x']> st) t c' ->
  next_inv s st (set_consumer t c' (set_dequeue (tr_headIndex s) (tr_dequeueOptimisticCount s)
    (u64 (tr_dequeueOvercommit s + Z.b2z (is_over x'))) s)).
Proof.
  intros [Hs Htk Hn H1 H2 H3 H4 Hl] Hc Hi Hr Hi' Hr' Hm Hx Ho Ht Ht' Hok Hl'.
  exists (<[m := x']> st), own, rel; split; [split; cbn; try done|
    unfold work, hist; cbn [tr_in set_consumer set_dequeue]; rewrite length_insert; lia].
  - by eapply store_other.
  - rewrite (zcount_insert _ _ _ x) by done; rewrite Ht, Ht'; lia.
  - by rewrite length_insert.
  - rewrite (zcount_insert _ _ _ x) by done; rewrite Ho, H4, u64_add; f_equal; cbn; lia.
  - intros t' c0 [[<- <-]|[Hne Hc0]]%lookup_insert_Some; [done|].
    eapply ticket_ok_turn; [done..|by apply Hl].
Qed.

(** A thread draws a ticket. *)
Lemma inv_draw s st own rel t ov :
  race_inv s st own rel -> tr_consumers s !! t = Some (D_ticket ov) ->
  next_inv s st (set_consumer t (D_recheck (tr_dequeueOptimisticCount s) ov)
    (set_dequeue (tr_headIndex s) (u64 (tr_dequeueOptimisticCount s + 1)) (tr_dequeueOvercommit s) s)).
Proof.
  intros [Hs Htk Hn H1 H2 H3 H4 Hl] Ht; destruct (Hl t _ Ht) as (o & Ho & ->).
  exists (st ++ [Pending t]), own, rel; split; [split; cbn; try done|
    unfold work, hist; cbn [tr_in set_consumer set_dequeue]; rewrite !length_app; cbn [length]; lia].
  - by eapply store_other.
  - by eapply tickets_draw.
  - rewrite zcount_app; cbn; lia.
  - rewrite H3, u64_add, length_app; f_equal; cbn; lia.
  - rewrite H4, zcount_app; f_equal; cbn; lia.
  - intros t' c0 [[<- <-]|[Hne Hc0]]%lookup_insert_Some.
    + exists (length st), o; rewrite take_app_length; split; [by apply list_lookup_middle|done].
    + eapply ticket_ok_mono; [..|by apply Hl].
      * intros m x Hm _; by apply lookup_app_l_Some.
      * intros m Hm; by rewrite take_app_le.
      * rewrite zcount_app; cbn; lia.
Qed.

Lemma ticket_steps s st own rel t c :
  race_inv s st own rel -> work s st < 2 ^ 62 -> tr_consumers s !! t = Some c ->
  match c with
  | D_tail | D_overcommit _ | D_optimistic _ _ | D_ticket _ | D_recheck _ _ | D_undo => True
  | _ => False
  end ->
  exists s', consumer_step t s = Done s' /\ next_inv s st s'.
Proof.
  intros Hi Hw Ht Hc; unfold consumer_step; rewrite Ht; cbn [deref]; rewrite bind_Done.
  pose proof Hi as [Hs Htk Hn H1 H2 H3 H4 Hl]; pose proof (Hl t c Ht) as Hlc.
  assert (forall c', has_ticket c = false -> index_of c = None -> releasing c = None ->
    index_of c' = None -> releasing c' = None -> ticket_ok st t c' -> next_inv s st (set_consumer t c' s)) as Hmove.
  { intros c' ? ? ? ? ? ?; exists st, own, rel; split; [by eapply inv_consumer|unfold work, hist; cbn [tr_in set_consumer set_dequeue]; lia]. }
  destruct c as [|  | tl | tl ov | ov | my ov | | | | | |]; try done; cbn in Hlc; cbn [dequeue_access].
  - eexists; split; [reflexivity|]; by apply Hmove.
  - eexists; split; [reflexivity|]; apply Hmove; try done; exists (zcount is_over st).
    pose proof (zcount_range is_over st); split; [lia|done].
  - eexists; split; [reflexivity|]; destruct (circular_less_than _ _); by apply Hmove.
  - eexists; split; [reflexivity|]; by apply inv_draw with own rel.
  - destruct Hlc as (m & o & Hm & -> & -> & Ho); pose proof (lookup_lt_Some _ _ _ Hm) as Hlt.
    assert (0 <= o <= Z.of_nat m) as Hom.
    { pose proof (zcount_range is_over (take m st)) as Hr; rewrite length_take in Hr; lia. }
    rewrite (clt_ticket s st own rel m o Hi Hw Hlt Hom); eexists; split; [reflexivity|].
    assert (forall c', next_inv s st (set_consumer t c' (set_dequeue (tr_headIndex s)
      (tr_dequeueOptimisticCount s) (u64 (tr_dequeueOvercommit s + 0)) s)) ->
      next_inv s st (set_consumer t c' s)) as Hsame.
    { intros c'; rewrite H4, Z.add_0_r, wrap_idemp by lia; by rewrite <- H4, set_dequeue_same. }
    destruct (Z.ltb_spec (Z.of_nat m - o) (Z.of_nat (length (hist s)))).
    + apply Hsame; eapply (inv_turn s st own rel t m _ (Won t)); try done; [by eapply tickets_win; [..|apply Ho|]|].
      exists m; by apply list_lookup_insert_eq.
    + apply Hsame; eapply (inv_turn s st own rel t m _ (Lost t)); try done; [by eapply tickets_lose|].
      exists m; by apply list_lookup_insert_eq.
  - destruct Hlc as (m & Hm); eexists; split; [reflexivity|].
    eapply (inv_turn s st own rel t m _ Over); try done; eapply tickets_settle; [done..|by left].
Qed.

(** *** From the index on *)

(** A step of a thread without a ticket that changes only the storage. *)
Lemma inv_storage s st own own' rel rel' t c c' bs' out' :
  race_inv s st own rel -> tr_consumers s !! t = Some c -> has_ticket c = false -> has_ticket c' = false ->
  (forall ov, c' <> D_ticket ov) -> (forall tl ov, c' <> D_optimistic tl ov) -> length own' = length own ->
  store_ok H0 own' rel' (hist s) bs' (tr_producer s) (<[t := c']> (tr_consumers s)) out' ->
  next_inv s st (Traffic (tr_tailIndex s) (tr_headIndex s) (tr_dequeueOptimisticCount s)
    (tr_dequeueOvercommit s) bs' (tr_producer s) (<[t := c']> (tr_consumers s)) (tr_in s) out').
Proof.
  intros [Hs Htk Hn H1 H2 H3 H4 Hl] Ht Hh Hh' Hd Ho Hlen Hs'; exists st, own', rel'.
  split; [split; cbn; rewrite ?Hlen; try done|unfold work, hist; cbn; lia].
  - by eapply tickets_other.
  - intros t' c0 [[<- <-]|[_ Hc0]]%lookup_insert_Some; [|by apply Hl].
    destruct c'; try done; [by destruct (Ho tail overcommit)|by destruct (Hd overcommit)].
Qed.

Lemma take_index_step s st own rel t :
  race_inv s st own rel -> tr_consumers s !! t = Some D_index ->
  exists s', consumer_step t s = Done s' /\ next_inv s st s'.
Proof.
  intros [Hs Htk Hn H1 H2 H3 H4 Hl] Ht; unfold consumer_step; rewrite Ht; cbn [deref]; rewrite bind_Done.
  destruct (Hl t _ Ht) as (m & Hm); eexists; split; [reflexivity|].
  pose proof (winner_has_element _ _ _ m t Htk Hm ltac:(lia)) as Hlt.
  assert (length own < length (hist s))%nat by lia.
  exists (<[m := Taken]> st), (own ++ [Some t]), rel; rewrite H2.
  split; [split; cbn; try done|unfold work, hist; cbn; rewrite length_insert; lia].
  - by eapply store_take.
  - eapply tickets_settle; [done..|by right].
  - rewrite (zcount_insert _ _ _ (Won t)) by done; rewrite length_app; cbn; lia.
  - rewrite u64_add, length_app; f_equal; cbn; lia.
  - by rewrite length_insert.
  - rewrite (zcount_insert _ _ _ (Won t)) by done; cbn; rewrite H4; f_equal; lia.
  - intros t' c0 [[<- <-]|[Hne Hc0]]%lookup_insert_Some; [done|].
    eapply ticket_ok_turn; [done..|by apply Hl].
Qed.

Lemma storage_steps s st own rel t c :
  race_inv s st own rel -> work s st < 2 ^ 62 -> tr_consumers s !! t = Some c ->
  match c with D_lookup _ | D_move _ | D_count _ _ | D_release _ _ => True | _ => False end ->
  exists s', consumer_step t s = Done s' /\ next_inv s st s'.
Proof.
  intros Hi Hw%short_work Ht Hc; unfold consumer_step; rewrite Ht; cbn [deref]; rewrite bind_Done.
  pose proof (ri_store _ _ _ _ Hi) as Hs; destruct c as [| | | | | | | |i|i|i x|i x]; try done; clear Hc; cbn [dequeue_access].
  - destruct (store_lookup H0 _ _ _ _ _ _ _ t i Hs Ht) as [[b ->] Hs']; eexists; split; [reflexivity|].
    by eapply (inv_storage s st own _ rel _ t).
  - destruct (store_move H0 _ _ _ _ _ _ _ t i Hw Hs Ht) as (b & x & -> & Hx & Hs').
    cbn [deref]; rewrite bind_Done, Hx; eexists; split; [reflexivity|]; by eapply (inv_storage s st own _ rel _ t).
  - destruct (so_local _ _ _ _ _ _ _ _ Hs t _ Ht) as (j & Hj & -> & Hx).
    destruct (owner_block H0 _ _ _ _ _ _ _ j t Hs Hj) as (He & Hq & Hr & b & Hb & Hbo).
    rewrite Hb; cbn [deref]; rewrite bind_Done; rewrite base_of in *; unfold set_empty.
    pose proof (proj1 Hbo) as Hd; pose proof (dq_bound H0 own ((H0 + Z.of_nat j) / 32)); rewrite Hd.
    change BLOCK_SIZE with 32; destruct (Z.ltb_spec (dq H0 own ((H0 + Z.of_nat j) / 32)) 32); [|lia].
    cbn [check]; rewrite !bind_Done, (wrap_small 64 (dq _ _ _ + 1)) by word_lia.
    pose proof (store_count H0 _ _ _ _ _ _ _ t j x b Hw Hs Ht Hj Hx He Hr Hb Hbo Hq) as Hs'.
    change (32 - 1) with 31; destruct (_ =? 31); eexists; (split; [reflexivity|]);
      (eapply (inv_storage s st own _ rel _ t); [done..| |exact Hs']); by rewrite length_insert.
  - destruct (store_release H0 _ _ _ _ _ _ _ t i x Hw Hs Ht) as [rel' Hs'].
    eexists; split; [reflexivity|]; by eapply (inv_storage s st own _ rel _ t).
Qed.

Lemma consumer_safe s st own rel t c :
  race_inv s st own rel -> work s st < 2 ^ 62 -> tr_consumers s !! t = Some c ->
  (exists r, c = D_idle r) \/ exists s', consumer_step t s = Done s' /\ next_inv s st s'.
Proof.
  intros Hi Hw Ht; destruct c; [left; by eexists|right..];
    try (by eapply ticket_steps); try (by eapply storage_steps); by eapply take_index_step.
Qed.

(** *** The producer *)

Lemma inv_producer s st own rel p' bs' :
  race_inv s st own rel ->
  store_ok H0 own rel (hist s) bs' p' (tr_consumers s) (tr_out s) ->
  next_inv s st (set_producer p' (set_tr_blocks bs' s)).
Proof.
  intros [Hs Htk Hn H1 H2 H3 H4 Hl] Hs'; exists st, own, rel; split; [by split|unfold work, hist; cbn; lia].
Qed.

Lemma entered_partial s x k :
  top H0 (hist s) mod 32 <> 0 -> entered H0 (hist s) (E_write x) k <-> H0 / 32 <= k /\ 32 * k < top H0 (hist s).
Proof.
  intros Hm; unfold entered; cbn [writing]; set (T := top H0 (hist s)) in *.
  pose proof (Z.div_mod T 32); pose proof (Z.mod_pos_bound T 32); split.
  - intros [? [?|[_ ->]]]; split; [done..|done|lia].
  - intros [? ?]; split; [done|by left].
Qed.

Lemma call_enqueue_inv s st own rel x r :
  race_inv s st own rel -> tr_producer s = E_idle r -> next_inv s st (call_enqueue x s).
Proof.
  intros Hi Hp; pose proof (ri_store _ _ _ _ Hi) as Hs; unfold call_enqueue.
  rewrite (ri_tail _ _ _ _ Hi), slot_u64; apply inv_producer with own rel; [done|].
  eapply store_producer; [exact Hs| |]; destruct (Z.eqb_spec (top H0 (hist s) mod 32) 0) as [Hm|Hm]; try done.
  - intros k; unfold entered; rewrite Hp; cbn; done.
  - intros k; rewrite entered_partial by done; unfold entered; rewrite Hp; cbn; split.
    + intros [? ?]; split; [done|by left].
    + intros [? [?|[? _]]]; done.
Qed.

Lemma producer_safe s st own rel got :
  race_inv s st own rel -> work s st < 2 ^ 62 ->
  (exists r, tr_producer s = E_idle r) \/ exists s', producer_step got s = Done s' /\ next_inv s st s'.
Proof.
  intros Hi Hw; pose proof (short_work s st Hw) as Hsh; pose proof Hi as [Hs Htk Hn H1 H2 H3 H4 Hl].
  pose proof (so_producer _ _ _ _ _ _ _ _ Hs) as Hpo; pose proof (so_len _ _ _ _ _ _ _ _ Hs) as Hlen.
  unfold producer_step; destruct (tr_producer s) as [r|x|x|x|x] eqn:Hp; [left; by eexists|right..]; cbn in Hpo.
  - rewrite H1, H2, clt_u64 by (unfold work, top in *; lia).
    destruct (Z.ltb_spec (top H0 (hist s)) (H0 + Z.of_nat (length own))); [unfold top in *; lia|].
    cbn [negb check]; rewrite bind_Done; eexists; split; [reflexivity|].
    apply (inv_producer s st own rel _ (tr_blocks s) Hi); eapply store_producer; [exact Hs|..];
      by destruct (full _ _).
  - destruct got as [b|]; eexists; (split; [reflexivity|]).
    + eapply inv_producer; [done|]; rewrite H1; eapply store_enter; [done|exact Hs|done..].
    + apply (inv_producer s st own rel _ (tr_blocks s) Hi); by eapply store_producer; [exact Hs|..].
  - rewrite H1; destruct (store_write H0 _ _ _ _ _ _ x Hsh Hs) as (b & -> & Hs').
    eexists; split; [reflexivity|]; by eapply inv_producer.
  - eexists; split; [reflexivity|]; exists st, own, rel.
    assert (hist (log_in x (set_producer (E_idle true) (set_tail (u64 (1 + tr_tailIndex s)) s))) = hist s ++ [x]) as E.
    { unfold hist; cbn; by rewrite app_assoc. }
    split; [split; rewrite ?E; cbn; try done|unfold work; rewrite E, length_app; cbn; lia].
    + by apply store_announce.
    + eapply tickets_more; [done|]; rewrite length_app; lia.
    + rewrite H1, wrap_add_r; unfold top; rewrite length_app; f_equal; cbn; lia.
Qed.

Lemma race_step s s' st own rel :
  traffic_step s s' -> race_inv s st own rel -> work s st < 2 ^ 62 -> next_inv s st s'.
Proof.
  intros [x r s0 Hp|got s0 s1 Hs|t r s0 Ht|t s0 s1 Hs] Hi Hw.
  - by eapply call_enqueue_inv.
  - destruct (producer_safe s0 st own rel got Hi Hw) as [[r Hp]|(s2 & Hs2 & Hn)]; [|congruence].
    unfold producer_step in Hs; by rewrite Hp in Hs.
  - exists st, own, rel; split; [by eapply inv_consumer|unfold work, hist; cbn; lia].
  - destruct (tr_consumers s0 !! t) as [c|] eqn:Hc; [|by unfold consumer_step in Hs; rewrite Hc in Hs].
    destruct (consumer_safe s0 st own rel t c Hi Hw Hc) as [[r ->]|(s2 & Hs2 & Hn)]; [|congruence].
    unfold consumer_step in Hs; by rewrite Hc in Hs.
Qed.

Lemma race_steps n s s' : nsteps traffic_step n s s' -> forall st own rel,
  race_inv s st own rel -> work s st + Z.of_nat n < 2 ^ 62 ->
  exists st' own' rel', race_inv s' st' own' rel' /\ work s' st' < 2 ^ 62.
Proof.
  induction 1 as [s|n s s1 s' Hs _ IH]; intros st own rel Hi Hw; [exists st, own, rel; split; [done|lia]|].
  destruct (race_step s s1 st own rel Hs Hi ltac:(lia)) as (st1 & own1 & rel1 & Hi1 & Hw1).
  eapply IH; [exact Hi1|lia].
Qed.
(** *** The ends of a run *)

Lemma before_head H k :
  H / 32 <= k -> Z.min 32 (Z.max 0 (H - 32 * k)) = if decide (k = H / 32) then H mod 32 else 0.
Proof. intros Hk; pose proof (Z.div_mod H 32); pose proof (Z.mod_pos_bound H 32); case_decide; lia. Qed.

Lemma calm_inv s T :
  calm s H0 T items0 -> tr_in s = [] -> tr_out s = [] ->
  tr_dequeueOptimisticCount s = u64 (H0 + V0) -> tr_dequeueOvercommit s = u64 V0 ->
  race_inv s [] [] ∅.
Proof.
  intros [[[r Hp] Hc] Ht Hh _ Hlen Hb] Hin Hout Hopt Hov.
  assert (hist s = items0) as Eh by (unfold hist; rewrite Hin; apply app_nil_r).
  assert (top H0 (hist s) = T) as ET by (unfold top; rewrite Eh; lia).
  assert (forall k, H0 / 32 <= k -> dq H0 [] k = if decide (k = H0 / 32) then H0 mod 32 else 0) as Hq.
  { intros k Hk; rewrite dq_rest, <- before_head by done; do 3 f_equal; cbn; lia. }
  split; try done.
  - split; try done; rewrite ?Hout, ?Hp; try done.
    + cbn; lia.
    + intros t c Htc; by destruct (Hc t c Htc) as [r' ->].
    + intros k [Hk [Hk'|[? _]]] _; [|done]; rewrite ET in Hk'; destruct (Hb k Hk Hk') as (b & Hbk & Hd & He).
      exists b; split; [done|]; split; [by rewrite Hq|]; rewrite ET, Eh; intros i Hi Hik _; by apply He.
    + intros k [Hk _] _; rewrite Hq by done; pose proof (Z.mod_pos_bound H0 32); case_decide; lia.
    + intros t t' c c' k Htc; by destruct (Hc t c Htc) as [r' ->].
    + apply NoDup_nil_2.
    + intros i x Hx; by apply not_elem_of_nil in Hx.
    + intros t i x Htc; by destruct (Hc t _ Htc).
  - by rewrite ET.
  - rewrite Hh; f_equal; cbn; lia.
  - rewrite Hopt; f_equal; cbn; lia.
  - rewrite Hov; f_equal; cbn; lia.
  - intros t c Htc; by destruct (Hc t c Htc) as [r' ->].
Qed.

Definition numbered (l : list A) : list (Z * A) := imap (fun j x => (u64 (H0 + Z.of_nat j), x)) l.

Lemma numbered_elem l i x :
  (i, x) ∈ numbered l <-> exists j, i = u64 (H0 + Z.of_nat j) /\ l !! j = Some x.
Proof.
  unfold numbered; rewrite list_elem_of_lookup; split.
  - intros (j & Hj); rewrite list_lookup_imap in Hj; apply fmap_Some in Hj as (y & Hy & [= -> ->]); by exists j.
  - intros (j & -> & Hj); exists j; by rewrite list_lookup_imap, Hj.
Qed.

Lemma rest_out s st own rel :
  race_inv s st own rel -> short (hist s) -> at_rest s ->
  (forall j x, own !! j = Some x -> x = None) /\ tr_out s ≡ₚ numbered (take (length own) (hist s)).
Proof.
  intros Hi Hs [_ Hc]; pose proof (ri_store _ _ _ _ Hi) as [H1 H2 H3 H4 H5 H6 H7 H8 H9 H10 H11 H12].
  assert (forall j x, own !! j = Some x -> x = None) as Hnone.
  { intros j [t|] Hj; [|done]; destruct (H2 j t Hj) as (c & Htc & E); by destruct (Hc t c Htc) as [r ->]. }
  split; [done|]; apply NoDup_Permutation.
  - by eapply NoDup_fmap_1.
  - apply NoDup_alt; unfold numbered; intros j j' [i x]; rewrite !list_lookup_imap.
    intros (y & Hy & [= -> ->])%fmap_Some (y' & Hy' & [= E ->])%fmap_Some.
    apply lookup_take_Some in Hy as [Hy _]; apply lookup_take_Some in Hy' as [Hy' _].
    apply lookup_lt_Some in Hy, Hy'; by apply (index_inj H0 (hist s)) in E.
  - intros [i x]; rewrite numbered_elem; split.
    + intros Hx; destruct (H10 i x Hx) as (j & -> & Hj & Hjx); exists j; split; [done|].
      rewrite lookup_take_lt; [done|by eapply lookup_lt_Some].
    + intros (j & -> & [Hjx Hj]%lookup_take_Some); destruct (lookup_lt_is_Some_2 own j Hj) as [y Hy].
      rewrite (Hnone j y Hy) in Hy; destruct (H11 j Hy) as [([i' x'] & E & Hx')%list_elem_of_fmap|(t & x' & Ht)].
      * cbn in E; subst i'; destruct (H10 _ _ Hx') as (j' & E & Hj' & Hjx').
        pose proof (lookup_lt_Some _ _ _ Hjx); pose proof (lookup_lt_Some _ _ _ Hjx').
        apply (index_inj H0 (hist s)) in E; [|done..]; subst j'; congruence.
      * by destruct (Hc t _ Ht).
Qed.

Lemma rest_calm s st own rel :
  race_inv s st own rel -> short (hist s) -> at_rest s ->
  let m := length own in
  calm s (H0 + Z.of_nat m) (top H0 (hist s)) (drop m (hist s)) /\
  forall k, H0 / 32 <= k < (H0 + Z.of_nat m) / 32 -> tr_blocks s !! u64 (32 * k) = None.
Proof.
  intros Hi Hs Hr m; destruct (rest_out s st own rel Hi Hs Hr) as [Hnone _]; destruct Hr as [[r Hp] Hc].
  pose proof Hi as [Hst Htk Hn Ht Hh Ho Hv Hl]; pose proof Hst as [H1 H2 H3 H4 H5 H6 H7 H8 H9 H10 H11 H12].
  set (H := H0 + Z.of_nat m) in *; set (T := top H0 (hist s)) in *.
  assert (forall k, dq H0 own k = Z.min 32 (Z.max 0 (H - 32 * k))) as Hq by (intros; by apply dq_rest).
  pose proof (Z.div_mod H 32); pose proof (Z.mod_pos_bound H 32); assert (H <= T) by (unfold H, T, top; lia).
  split; [split; try done|].
  - split; [by exists r|done].
  - exists (V0 + zcount is_over st); split; [|done]; rewrite Ho; f_equal.
    rewrite (tickets_rest _ _ _ Htk), Hn; [unfold H, m; lia|]; intros t c Htc; by destruct (Hc t c Htc) as [r' ->].
  - rewrite length_drop; unfold H, T, top; lia.
  - intros k Hk HkT.
    assert (H0 / 32 <= H / 32) by (apply Z.div_le_mono; unfold H; lia).
    destruct (H4 k) as (b & Hb & Hd & He).
    + split; [lia|by left].
    + intros Hrel; destruct (H5 k Hrel) as (_ & E & _); rewrite Hq, before_head in E by done; case_decide; lia.
    + exists b; split; [done|]; split; [by rewrite Hd, Hq, before_head|]; intros i Hi' Hik.
      rewrite He; [| |done|].
      * rewrite lookup_drop; f_equal; unfold H, m; lia.
      * unfold H in *; fold T; lia.
      * unfold stored; rewrite lookup_ge_None_2; [done|]; unfold H, m in *; lia.
  - intros k Hk; assert (dq H0 own k = 32) as E by (rewrite Hq; lia).
    assert (entered H0 (hist s) (tr_producer s) k) as Hen.
    { split; [lia|left]; fold T; lia. }
    destruct (decide (k ∈ rel)) as [Hrel|Hrel]; [by destruct (H5 k Hrel) as (_ & _ & ?)|].
    destruct (H6 k Hen Hrel E) as (t & c & Htc & Hre); by destruct (Hc t c Htc) as [r' ->].
Qed.
End safe.

Lemma numbered_values {A} H (l : list A) : (numbered H l).*2 = l.
Proof.
  apply list_eq; intros j; unfold numbered; rewrite list_lookup_fmap, list_lookup_imap.
  by destruct (l !! j).
Qed.

(** What the invariant says of the elements that came out. *)
Lemma race_outcome {A} (s : traffic A) H V T items st own rel :
  T - H = Z.of_nat (length items) -> race_inv H V items s st own rel -> work items s st < 2 ^ 62 ->
  NoDup (tr_out s).*1 /\
  (forall i x, (i, x) ∈ tr_out s ->
     exists j, i = u64 (H + Z.of_nat j) /\ (items ++ tr_in s) !! j = Some x) /\
  (at_rest s ->
     let m := length (tr_out s) in
     (tr_out s).*2 ≡ₚ take m (items ++ tr_in s) /\
     calm s (H + Z.of_nat m) (T + Z.of_nat (length (tr_in s))) (drop m (items ++ tr_in s)) /\
     forall k, H / 32 <= k < (H + Z.of_nat m) / 32 -> tr_blocks s !! u64 (32 * k) = None).
Proof.
  intros HT Hi Hw; pose proof (ri_store _ _ _ _ _ _ _ Hi) as Hst; split_all.
  - apply Hst.
  - intros i x Hx; destruct (so_out _ _ _ _ _ _ _ _ Hst i x Hx) as (j & ? & _ & ?); by exists j.
  - intros Hr m; pose proof (short_work items s st Hw) as Hs.
    destruct (rest_out H V items s st own rel Hi Hs Hr) as [_ Hperm].
    destruct (rest_calm H V items s st own rel Hi Hs Hr) as [Hcalm Hgone].
    assert (m = length own) as Em.
    { unfold m; rewrite Hperm; unfold numbered; rewrite length_imap, length_take.
      pose proof (so_len _ _ _ _ _ _ _ _ Hst); lia. }
    rewrite Em; split_all; [|by replace (T + _) with (top H (hist items s))
      by (unfold top, hist; rewrite length_app; lia)|done].
    by rewrite Hperm, numbered_values.
Qed.

(** C7: One thread enqueues while any number of threads dequeue from the same
    producer, their accesses to shared variables interleaved in any way, from any
    value of the 64-bit counters.  No access goes wrong: no assertion fails, no
    block is used after it was given back, no slot is read before it is filled.
    Every element comes out at most once, and it is the one enqueued with that
    index.  Whenever no operation is under way the producer is a queue again: the
    elements that came out are the oldest ones, the others are in their blocks in
    order, the counters agree, and every block emptied on the way has been given
    back.  (Fewer than 2^62 accesses; a thread must not sleep while the counters go
    round.) *)
Theorem queue_race_safe {A} n (s0 s : traffic A) H T items :
  calm s0 H T items -> tr_in s0 = [] -> tr_out s0 = [] ->
  Z.of_nat (length items) + Z.of_nat n < 2 ^ 62 -> nsteps traffic_step n s0 s ->
  (forall t c, tr_consumers s !! t = Some c ->
     (exists r, c = D_idle r) \/ exists s', consumer_step t s = Done s') /\
  (forall got, (exists r, tr_producer s = E_idle r) \/ exists s', producer_step got s = Done s') /\
  NoDup (tr_out s).*1 /\
  (forall i x, (i, x) ∈ tr_out s ->
     exists j, i = u64 (H + Z.of_nat j) /\ (items ++ tr_in s) !! j = Some x) /\
  (at_rest s ->
     let m := length (tr_out s) in
     (tr_out s).*2 ≡ₚ take m (items ++ tr_in s) /\
     calm s (H + Z.of_nat m) (T + Z.of_nat (length (tr_in s))) (drop m (items ++ tr_in s)) /\
     forall k, H / 32 <= k < (H + Z.of_nat m) / 32 -> tr_blocks s !! u64 (32 * k) = None).
Proof.
  intros Hc Hin Hout Hn Hsteps; destruct (cl_counts _ _ _ _ Hc) as (V & Hopt & Hov).
  pose proof (calm_inv H V items s0 T Hc Hin Hout Hopt Hov) as Hi0.
  destruct (race_steps H V items n s0 s Hsteps [] [] ∅ Hi0) as (st & own & rel & Hi & Hw).
  { unfold work, hist; rewrite Hin, app_nil_r; cbn; lia. }
  split; [|split; [|by apply (race_outcome s H V T items st own rel (cl_len _ _ _ _ Hc))]].
  - intros t c Ht; destruct (consumer_safe H V items s st own rel t c Hi Hw Ht) as [?|(s' & ? & _)];
      [by left|right; by exists s'].
  - intros got; destruct (producer_safe H V items s st own rel got Hi Hw) as [?|(s' & ? & _)];
      [by left|right; by exists s'].
Qed.

(** ** Running a schedule *)

Inductive turn (A : Type) :=
  | Enqueue (x : A) | Producer (got : option (block A)) | Dequeue (t : nat) | Consumer (t : nat).
Arguments Enqueue {A} _.
Arguments Producer {A} _.
Arguments Dequeue {A} _.
Arguments Consumer {A} _.

Definition do_turn {A} (s : traffic A) (e : turn A) : option (traffic A) :=
  match e with
  | Enqueue x => match tr_producer s with E_idle _ => Some (call_enqueue x s) | _ => None end
  | Producer got => match producer_step got s with Done s' => Some s' | _ => None end
  | Dequeue t => match tr_consumers s !! t with Some (D_idle _) => Some (set_consumer t D_tail s) | _ => None end
  | Consumer t => match consumer_step t s with Done s' => Some s' | _ => None end
  end.
Fixpoint do_turns {A} (s : traffic A) (es : list (turn A)) : option (traffic A) :=
  match es with [] => Some s | e :: es => s' ← do_turn s e; do_turns s' es end.

Lemma do_turn_step {A} (s s' : traffic A) e : do_turn s e = Some s' -> traffic_step s s'.
Proof.
  destruct e as [x|got|t|t]; cbn.
  - destruct (tr_producer s) eqn:E; try done; intros [= <-]; by eapply step_enqueue.
  - destruct (producer_step got s) eqn:E; try done; intros [= <-]; by eapply step_producer.
  - destruct (tr_consumers s !! t) as [[]|] eqn:E; try done; intros [= <-]; by eapply step_dequeue.
  - destruct (consumer_step t s) eqn:E; try done; intros [= <-]; by eapply step_consumer.
Qed.
Lemma do_turns_steps {A} es : forall (s s' : traffic A),
  do_turns s es = Some s' -> nsteps traffic_step (length es) s s'.
Proof.
  induction es as [|e es IH]; intros s s'; cbn; [intros [= <-]; apply nsteps_O|].
  intros (s1 & H1 & H)%bind_Some; eapply nsteps_l; [by eapply do_turn_step|auto].
Qed.

(** Whether no operation is under way, computed. *)
Definition resting {A} (s : traffic A) : bool :=
  match tr_producer s with E_idle _ => true | _ => false end &&
  forallb (fun c => match c with D_idle _ => true | _ => false end) (map_to_list (tr_consumers s)).*2.
Lemma resting_rest {A} (s : traffic A) : resting s = true -> at_rest s.
Proof.
  unfold resting; intros [Hp Hc]%andb_true_iff; split; [destruct (tr_producer s); by eauto|].
  intros t c Ht; rewrite forallb_forall in Hc; specialize (Hc c).
  destruct c; try (by eexists); exfalso; enough (false = true) by done; apply Hc.
  all: apply list_elem_of_In, list_elem_of_fmap; eexists (t, _); split; [done|by apply elem_of_map_to_list].
Qed.

(** An empty producer whose counters are about to wrap around; three consumers. *)
Definition before_wrap : traffic nat :=
  Traffic (2 ^ 64 - 32) (2 ^ 64 - 32) (2 ^ 64 - 32) 0 ∅ (E_idle true)
    (<[0%nat := D_idle None]> (<[1%nat := D_idle None]> (<[2%nat := D_idle None]> ∅))) [] [].

Lemma before_wrap_calm : calm before_wrap (2 ^ 64 - 32) (2 ^ 64 - 32) [].
Proof.
  split; try done.
  - split; [by exists true|]; intros t c; cbn; rewrite !lookup_insert_Some, lookup_empty.
    intros [[_ <-]|[_ [[_ <-]|[_ [[_ <-]|[_ ?]]]]]]; by eauto.
  - exists 0; done.
  - cbn; intros k Hk; change ((2 ^ 64 - 32) / 32) with (2 ^ 59 - 1) in Hk; lia.
Qed.

(** Two elements are enqueued.  Three threads pass the first check; the third to
    draw a ticket finds nothing left; the two others finish in reverse order. *)
Definition three_race : list (turn nat) :=
  Enqueue 7%nat :: replicate 4 (Producer (Some (new_block true))) ++
  Enqueue 8%nat :: replicate 2 (Producer None) ++
  [Dequeue 0; Dequeue 1; Dequeue 2] ++
  concat (replicate 3 [Consumer 0; Consumer 1; Consumer 2]) ++
  concat (replicate 3 [Consumer 2; Consumer 1; Consumer 0]) ++
  concat (replicate 3 [Consumer 1; Consumer 2]).

Lemma queue_race_safe_witness :
  exists s, do_turns before_wrap three_race = Some s /\ at_rest s /\
    (tr_out s).*2 ≡ₚ take 2 [7; 8]%nat /\ calm s (2 ^ 64 - 32 + 2) (2 ^ 64 - 32 + 2) [].
Proof.
  destruct (do_turns before_wrap three_race) as [s|] eqn:E; [|vm_compute in E; discriminate E].
  exists s; split; [reflexivity|].
  assert (at_rest s) as Hr.
  { apply resting_rest; vm_compute in E; injection E as <-; vm_compute; reflexivity. }
  split; [exact Hr|].
  destruct (queue_race_safe (length three_race) before_wrap s _ _ _ before_wrap_calm) as (_ & _ & _ & _ & H);
    [reflexivity|reflexivity|reflexivity|by apply do_turns_steps|].
  specialize (H Hr); vm_compute in E; injection E as <-; cbn in H; destruct H as (H1 & H2 & _); split; [exact H1|exact H2].
Defined.
(** ** Progress *)

(** The most accesses a dequeue still has to make. *)
Definition accesses_left {A} (c : consumer_pc A) : nat :=
  match c with
  | D_idle _ => 0 | D_tail => 10 | D_overcommit _ => 9 | D_optimistic _ _ => 8 | D_ticket _ => 7
  | D_recheck _ _ => 6 | D_undo => 1 | D_index => 5 | D_lookup _ => 4 | D_move _ => 3
  | D_count _ _ => 2 | D_release _ _ => 1
  end.

Lemma dequeue_access_left {A} (s s' : traffic A) c c' :
  dequeue_access c s = Done (c', s') -> tr_consumers s' = tr_consumers s /\ (accesses_left c' < accesses_left c)%nat.
Proof.
  destruct c as [r| |tl|tl ov|ov|my ov| | |i|i|i x|i x]; cbn [dequeue_access]; try done;
    try (intros [= <- <-]; split; [done|]; cbn; try destruct (circular_less_than _ _); cbn; lia).
  - intros (b & _ & [= <- <-])%bind_Done_inv; split; [done|cbn; lia].
  - intros (b & _ & (x & _ & [= <- <-])%bind_Done_inv)%bind_Done_inv; split; [done|cbn; lia].
  - intros (b & _ & ([[|] b'] & _ & [= <- <-])%bind_Done_inv)%bind_Done_inv; (split; [done|cbn; lia]).
Qed.

Lemma consumer_step_left {A} (s s' : traffic A) t c :
  tr_consumers s !! t = Some c -> consumer_step t s = Done s' ->
  exists c', tr_consumers s' = <[t := c']> (tr_consumers s) /\ (accesses_left c' < accesses_left c)%nat.
Proof.
  intros Ht; unfold consumer_step; rewrite Ht; cbn [deref]; rewrite bind_Done.
  intros ([c' s1] & [E Hlt]%dequeue_access_left & [= <-])%bind_Done_inv; exists c'; split; [by cbn; rewrite E|done].
Qed.

Lemma do_turn_other {A} (s s' : traffic A) e t :
  do_turn s e = Some s' -> match e with Consumer t' | Dequeue t' => t' <> t | _ => True end ->
  tr_consumers s' !! t = tr_consumers s !! t.
Proof.
  destruct e as [x|got|t'|t']; cbn; intros H Hne.
  - by destruct (tr_producer s); simplify_eq.
  - destruct (producer_step got s) as [s1| | |] eqn:E; simplify_eq; unfold producer_step in E.
    destruct (tr_producer s); [done|..]; try (by injection E as <-).
    + by apply bind_Done_inv in E as (_ & _ & [= <-]).
    + by destruct got; injection E as <-.
    + by apply bind_Done_inv in E as (b & _ & [= <-]).
  - destruct (tr_consumers s !! t') as [[]|]; simplify_eq; cbn; by rewrite lookup_insert_ne.
  - destruct (consumer_step t' s) as [s1| | |] eqn:E; simplify_eq.
    destruct (tr_consumers s !! t') as [c|] eqn:Hc; [|by unfold consumer_step in E; rewrite Hc in E].
    destruct (consumer_step_left s s' t' c Hc E) as (c' & -> & _); by rewrite lookup_insert_ne.
Qed.
