(* ===== verification/RaceBulk.v ===== *)
(** * Bulk dequeues next to other consumers ([common/concurrentqueue.h])

    [ImplicitProducer::dequeue_bulk], which polling a completion queue comes down to,
    cut at every access to a shared variable, on the state of [ProducerRace.v]: one
    thread enqueues, some threads dequeue one element at a time and some many.  A
    thread draws as many tickets as it wants elements and gives back those it has no
    element for.  [RaceBulkSafe.v] has what holds of it. *)

From S2P Require Import Prelude BlockPool ImplicitProducer Threads ProducerRace.

(** The next access of a thread that dequeues many, with its local variables; [stop]
    is [firstIndex + actualCount], [xs] what it has written to [itemFirst]. *)
Inductive bulk_pc (A : Type) :=
  | B_idle (result : list A)
  | B_tail (max : Z)
  | B_overcommit (max tail : Z)
  | B_optimistic (max tail overcommit : Z)
  | B_tickets (desiredCount overcommit : Z)
  | B_recheck (desiredCount myDequeueCount overcommit : Z)
  | B_excess (actualCount excess : Z)
  | B_undo (desiredCount : Z)
  | B_index (actualCount : Z)
  | B_block (stop index : Z) (xs : list A)
  | B_move (stop blockStartIndex endIndex index : Z) (xs : list A)
  | B_count (stop blockStartIndex endIndex : Z) (xs : list A)
  | B_release (stop blockStartIndex endIndex : Z) (xs : list A).
Arguments B_idle {A} _.
Arguments B_tail {A} _.
Arguments B_overcommit {A} _ _.
Arguments B_optimistic {A} _ _ _.
Arguments B_tickets {A} _ _.
Arguments B_recheck {A} _ _ _.
Arguments B_excess {A} _ _.
Arguments B_undo {A} _.
Arguments B_index {A} _.
Arguments B_block {A} _ _ _.
Arguments B_move {A} _ _ _ _ _.
Arguments B_count {A} _ _ _ _.
Arguments B_release {A} _ _ _ _.

Section bulk.
Context {A : Type}.
Implicit Types (s : traffic A) (b : bulk_pc A) (xs : list A).

(** [while (index != endIndex)] and [while (index != firstIndex + actualCount)]. *)
Definition next_element (stop blockStartIndex endIndex index : Z) xs : bulk_pc A :=
  if index =? endIndex then B_count stop blockStartIndex endIndex xs else B_move stop blockStartIndex endIndex index xs.
Definition next_segment (stop endIndex : Z) xs : bulk_pc A :=
  if endIndex =? stop then B_idle xs else B_block stop endIndex xs.

(** The elements from [index] on are dequeued. *)
Fixpoint log_many (index : Z) xs s : traffic A :=
  match xs with [] => s | x :: xs => log_many (u64 (index + 1)) xs (log_out index x s) end.
(** The last [n]. *)
Definition latest (n : Z) xs : list A := drop (length xs - Z.to_nat n) xs.

(** The last element of a block that becomes empty is logged when the block has been
    given back, as in [dequeue_access]. *)
Definition bulk_access b s : run (bulk_pc A * traffic A) :=
  match b with
  | B_idle _ => Blocked
  | B_tail max => mret (B_overcommit max (tr_tailIndex s), s)
  | B_overcommit max tail => mret (B_optimistic max tail (tr_dequeueOvercommit s), s)
  | B_optimistic max tail overcommit =>
      let desiredCount := u64 (tail - u64 (tr_dequeueOptimisticCount s - overcommit)) in
      mret (if circular_less_than 0 desiredCount
            then B_tickets (if desiredCount <? max then desiredCount else max) overcommit else B_idle [], s)
  | B_tickets desiredCount overcommit =>
      let myDequeueCount := tr_dequeueOptimisticCount s in
      mret (B_recheck desiredCount myDequeueCount overcommit,
            set_dequeue (tr_headIndex s) (u64 (myDequeueCount + desiredCount)) (tr_dequeueOvercommit s) s)
  | B_recheck desiredCount myDequeueCount overcommit =>
      let actualCount := u64 (tr_tailIndex s - u64 (myDequeueCount - overcommit)) in
      mret (if circular_less_than 0 actualCount then
              let actualCount := if desiredCount <? actualCount then desiredCount else actualCount in
              if actualCount <? desiredCount then B_excess actualCount (u64 (desiredCount - actualCount))
              else B_index actualCount
            else B_undo desiredCount, s)
  | B_excess actualCount excess =>
      mret (B_index actualCount,
            set_dequeue (tr_headIndex s) (tr_dequeueOptimisticCount s) (u64 (tr_dequeueOvercommit s + excess)) s)
  | B_undo desiredCount =>
      mret (B_idle [],
            set_dequeue (tr_headIndex s) (tr_dequeueOptimisticCount s) (u64 (tr_dequeueOvercommit s + desiredCount)) s)
  | B_index actualCount =>
      let firstIndex := tr_headIndex s in
      mret (B_block (u64 (firstIndex + actualCount)) firstIndex [],
            set_dequeue (u64 (firstIndex + actualCount)) (tr_dequeueOptimisticCount s) (tr_dequeueOvercommit s) s)
  | B_block stop index xs =>
      let endIndex := u64 (block_base index + BLOCK_SIZE) in
      let endIndex := if circular_less_than stop endIndex then stop else endIndex in
      _ ← deref (tr_blocks s !! block_base index);
      mret (next_element stop index endIndex index xs, s)
  | B_move stop blockStartIndex endIndex index xs =>
      b ← deref (tr_blocks s !! block_base index);
      x ← deref (b_elements b !! slot index);
      mret (next_element stop blockStartIndex endIndex (u64 (index + 1)) (xs ++ [x]),
            set_tr_blocks (<[block_base index :=
              set_b_elements (delete (slot index) (b_elements b)) b]> (tr_blocks s)) s)
  | B_count stop blockStartIndex endIndex xs =>
      b ← deref (tr_blocks s !! block_base blockStartIndex);
      let count := u64 (endIndex - blockStartIndex) in
      '(now_empty, b) ← set_many_empty count b;
      let s := set_tr_blocks (<[block_base blockStartIndex := b]> (tr_blocks s)) s in
      let segment := latest count xs in
      mret (if (now_empty : bool)
            then (B_release stop blockStartIndex endIndex xs, log_many blockStartIndex (removelast segment) s)
            else (next_segment stop endIndex xs, log_many blockStartIndex segment s))
  | B_release stop blockStartIndex endIndex xs =>
      mret (next_segment stop endIndex xs,
            log_many (u64 (endIndex - 1)) (latest 1 xs)
              (set_tr_blocks (delete (block_base blockStartIndex) (tr_blocks s)) s))
  end.

(** The threads that dequeue many have numbers of their own. *)
Record bulk_traffic := BulkTraffic { bt_traffic : traffic A; bt_bulks : gmap nat (bulk_pc A) }.

Inductive bulk_step : bulk_traffic -> bulk_traffic -> Prop :=
  | step_traffic s s' bs : traffic_step s s' -> bulk_step (BulkTraffic s bs) (BulkTraffic s' bs)
  | step_dequeue_bulk t r max s bs : bs !! t = Some (B_idle r) -> 0 < max < 2 ^ 64 ->
      bulk_step (BulkTraffic s bs) (BulkTraffic s (<[t := B_tail max]> bs))
  | step_bulk t b b' s s' bs : bs !! t = Some b -> bulk_access b s = Done (b', s') ->
      bulk_step (BulkTraffic s bs) (BulkTraffic s' (<[t := b']> bs)).

Definition bulks_at_rest (bs : gmap nat (bulk_pc A)) : Prop := forall t b, bs !! t = Some b -> exists r, b = B_idle r.
End bulk.
Arguments bulk_traffic _ : clear implicits.

(** ** A bulk dequeue of nothing *)

(** [count += ptr->dequeue_bulk(itemFirst, max - count)] asks a producer for no
    elements when [max] is 0. One thread polls so, while another takes the last
    element of the block and gives the block back: the first one then follows a null
    pointer. *)
Fixpoint run_bulk {A} (n : nat) (b : bulk_pc A) (s : traffic A) : run (bulk_pc A * traffic A) :=
  match n with O => mret (b, s) | S n => '(b, s) ← bulk_access b s; run_bulk n b s end.

Definition last_of_block : traffic nat :=
  Traffic 32 31 31 0 {[0 := set_b_dequeued 31 (set_b_elements {[31 := 7%nat]} (new_block true))]} (E_idle true) ∅ [] [].

Example bulk_of_none_alone : ('(b, _) ← run_bulk 8 (B_tail 0) last_of_block; mret b) = Done (B_idle []).
Proof. by vm_compute. Qed.
Example bulk_of_none_raced :
  ('(b1, s) ← run_bulk 6 (B_tail 0) last_of_block; '(_, s) ← run_bulk 10 (B_tail 1) s; bulk_access b1 s) = Undefined.
Proof. by vm_compute. Qed.
