(* ===== verification/RaceBulkSteps.v ===== *)
(** * Bulk dequeues: many accesses at once

    An access of a bulk dequeue does what several threads that dequeue one element
    each would do one after the other: drawing [n] tickets is drawing one [n] times.
    [accesses_in_turn] is that, and the lemmas here say what it comes to for each access of
    [RaceBulk.v]. *)

From S2P Require Import Prelude BlockPool ImplicitProducer BlockIndex ProducerFifo Threads ProducerRace RaceTickets RaceStorage RaceSteps RaceSafe RaceBulk.

(** ** Other consumers *)

Section others.
Context {A : Type}.
Implicit Types (s : traffic A) (c : consumer_pc A) (C : gmap nat (consumer_pc A)) (ks : list nat) (cs : list (consumer_pc A)).

(** The state with these consumers. *)
Definition with_consumers C s : traffic A :=
  Traffic (tr_tailIndex s) (tr_headIndex s) (tr_dequeueOptimisticCount s) (tr_dequeueOvercommit s)
    (tr_blocks s) (tr_producer s) C (tr_in s) (tr_out s).

Lemma with_same s : with_consumers (tr_consumers s) s = s.
Proof. by destruct s. Qed.

(** An access reads and changes the shared variables only. *)
Lemma access_with C c s :
  dequeue_access c (with_consumers C s) = '(c', s') ← dequeue_access c s; mret (c', with_consumers C s').
Proof.
  destruct c as [r| |tl|tl ov|ov|my ov| | |i|i|i x|i x]; try done; cbn [dequeue_access]; cbn [tr_blocks with_consumers].
  - destruct (tr_blocks s !! block_base i) as [b|]; cbn [deref]; by rewrite ?bind_Done.
  - destruct (tr_blocks s !! block_base i) as [b|]; cbn [deref]; rewrite ?bind_Done; [|done].
    destruct (b_elements b !! slot i); cbn [deref]; by rewrite ?bind_Done.
  - destruct (tr_blocks s !! block_base i) as [b|]; cbn [deref]; rewrite ?bind_Done; [|done].
    destruct (set_empty b) as [[[|] b']| | |]; by rewrite ?bind_Done.
Qed.
Lemma access_frame c c' s s' :
  dequeue_access c s = Done (c', s') -> tr_consumers s' = tr_consumers s /\ tr_in s' = tr_in s /\ tr_producer s' = tr_producer s.
Proof.
  destruct c as [r| |tl|tl ov|ov|my ov| | |i|i|i x|i x]; cbn [dequeue_access]; try done; try (by intros [= _ <-]).
  - by intros (b & _ & [= _ <-])%bind_Done_inv.
  - by intros (b & _ & (x & _ & [= _ <-])%bind_Done_inv)%bind_Done_inv.
  - by intros (b & _ & ([[|] b'] & _ & [= _ <-])%bind_Done_inv)%bind_Done_inv.
Qed.

(** ** Accesses in turn *)

Fixpoint accesses_in_turn cs s : run (list (consumer_pc A) * traffic A) :=
  match cs with
  | [] => mret ([], s)
  | c :: cs => '(c, s) ← dequeue_access c s; '(cs, s) ← accesses_in_turn cs s; mret (c :: cs, s)
  end.
Fixpoint assign ks cs C : gmap nat (consumer_pc A) :=
  match ks, cs with k :: ks, c :: cs => assign ks cs (<[k := c]> C) | _, _ => C end.

(** The threads [ks] are at [cs]. *)
Definition at_pcs C ks cs : Prop := Forall2 (fun k c => C !! k = Some c) ks cs.

Lemma assign_other ks : forall cs C k, k ∉ ks -> assign ks cs C !! k = C !! k.
Proof.
  induction ks as [|k' ks IH]; intros [|c cs] C k Hk; cbn; try done; apply not_elem_of_cons in Hk as [Hne Hk].
  rewrite IH by done; by rewrite lookup_insert_ne.
Qed.
Lemma at_pcs_insert C ks cs k c : k ∉ ks -> at_pcs C ks cs -> at_pcs (<[k := c]> C) ks cs.
Proof.
  intros Hk; induction 1 as [|k' c' ks cs Hc Hat IH]; [by constructor|]; apply not_elem_of_cons in Hk as [Hne Hk].
  constructor; [by rewrite lookup_insert_ne|by apply IH].
Qed.
Lemma at_pcs_assign ks : forall cs C, NoDup ks -> length ks = length cs -> at_pcs (assign ks cs C) ks cs.
Proof.
  induction ks as [|k ks IH]; intros [|c cs] C Hn Hl; try done; [by constructor|]; apply NoDup_cons in Hn as [Hk Hn].
  cbn; constructor; [rewrite assign_other by done; apply lookup_insert_eq|by apply IH; [|injection Hl]].
Qed.
Lemma at_pcs_keep C C' ks cs : (forall k, k ∈ ks -> C' !! k = C !! k) -> at_pcs C ks cs -> at_pcs C' ks cs.
Proof.
  intros Hk Hat; induction Hat as [|k c ks cs Hc Hat IH]; [by constructor|]; constructor; [rewrite Hk; [done|by left]|].
  apply IH; intros; apply Hk; by right.
Qed.
Lemma at_pcs_app C ks cs cs' : at_pcs C ks (cs ++ cs') <-> exists ks1 ks2, ks = ks1 ++ ks2 /\ at_pcs C ks1 cs /\ at_pcs C ks2 cs'.
Proof.
  unfold at_pcs; split.
  - intros (ks1 & ks2 & ? & ? & ->)%Forall2_app_inv_r; eauto.
  - intros (ks1 & ks2 & -> & ? & ?); by apply Forall2_app.
Qed.

Lemma in_turn_frame cs : forall s cs' s', accesses_in_turn cs s = Done (cs', s') ->
  tr_consumers s' = tr_consumers s /\ tr_in s' = tr_in s /\ tr_producer s' = tr_producer s /\ length cs' = length cs.
Proof.
  induction cs as [|c cs IH]; intros s cs' s'; cbn [accesses_in_turn]; [by intros [= <- <-]|].
  intros ([c1 s1] & (E1 & E2 & E3)%access_frame & ([cs1 s2] & (F1 & F2 & F3 & F4)%IH & [= <- <-])%bind_Done_inv)%bind_Done_inv.
  split_all; [congruence..|]; cbn; by rewrite F4.
Qed.
Lemma in_turn_app cs1 cs2 s :
  accesses_in_turn (cs1 ++ cs2) s =
    '(cs1', s) ← accesses_in_turn cs1 s; '(cs2', s) ← accesses_in_turn cs2 s; mret (cs1' ++ cs2', s).
Proof.
  revert s; induction cs1 as [|c cs1 IH]; intros s; cbn [accesses_in_turn app].
  { rewrite bind_Done; by destruct (accesses_in_turn cs2 s) as [[]| | |]. }
  destruct (dequeue_access c s) as [[c' s1]| | |]; try done; rewrite !bind_Done, IH.
  destruct (accesses_in_turn cs1 s1) as [[cs1' s2]| | |]; try done; rewrite !bind_Done.
  by destruct (accesses_in_turn cs2 s2) as [[]| | |].
Qed.
End others.

(** ** What they come to *)

Section computed.
Context {A : Type}.
Implicit Types (s : traffic A) (c : consumer_pc A) (xs ys : list A) (b : block A).

Lemma in_turn_draw O ov n : forall m s, tr_dequeueOptimisticCount s = u64 (O + Z.of_nat m) ->
  accesses_in_turn (replicate n (D_ticket ov)) s =
    Done (map (fun j => D_recheck (u64 (O + Z.of_nat j)) ov) (seq m n),
          set_dequeue (tr_headIndex s) (u64 (O + Z.of_nat (m + n))) (tr_dequeueOvercommit s) s).
Proof.
  induction n as [|n IH]; intros m s Ho; cbn [replicate accesses_in_turn seq map].
  { by rewrite Nat.add_0_r, <- Ho, set_dequeue_same. }
  cbn [dequeue_access]; cbv zeta; rewrite bind_Done, (IH (S m)), bind_Done by (cbn; rewrite Ho, wrap_add_l; f_equal; lia).
  rewrite Ho; by replace (m + S n)%nat with (S m + n)%nat by lia.
Qed.
Lemma in_turn_recheck O ov (l : list nat) s :
  accesses_in_turn (map (fun j => D_recheck (u64 (O + Z.of_nat j)) ov) l) s =
    Done (map (fun j => if circular_less_than (u64 (u64 (O + Z.of_nat j) - ov)) (tr_tailIndex s) then D_index else D_undo) l, s).
Proof. induction l as [|j l IH]; [done|]; cbn [map accesses_in_turn dequeue_access]; by rewrite bind_Done, IH, bind_Done. Qed.
Lemma in_turn_undo V n : forall m s, tr_dequeueOvercommit s = u64 (V + Z.of_nat m) ->
  accesses_in_turn (replicate n D_undo) s =
    Done (replicate n (D_idle None), set_dequeue (tr_headIndex s) (tr_dequeueOptimisticCount s) (u64 (V + Z.of_nat (m + n))) s).
Proof.
  induction n as [|n IH]; intros m s Hv; cbn [replicate accesses_in_turn].
  { by rewrite Nat.add_0_r, <- Hv, set_dequeue_same. }
  cbn [dequeue_access]; rewrite bind_Done, (IH (S m)), bind_Done by (cbn; rewrite Hv, wrap_add_l; f_equal; lia).
  by replace (m + S n)%nat with (S m + n)%nat by lia.
Qed.
Lemma in_turn_index I n : forall m s, tr_headIndex s = u64 (I + Z.of_nat m) ->
  accesses_in_turn (replicate n D_index) s =
    Done (map (fun j => D_lookup (u64 (I + Z.of_nat j))) (seq m n),
          set_dequeue (u64 (I + Z.of_nat (m + n))) (tr_dequeueOptimisticCount s) (tr_dequeueOvercommit s) s).
Proof.
  induction n as [|n IH]; intros m s Hi; cbn [replicate accesses_in_turn seq map].
  { by rewrite Nat.add_0_r, <- Hi, set_dequeue_same. }
  cbn [dequeue_access]; cbv zeta; rewrite bind_Done, (IH (S m)), bind_Done by (cbn; rewrite Hi, wrap_add_l; f_equal; lia).
  rewrite Hi; by replace (m + S n)%nat with (S m + n)%nat by lia.
Qed.
Lemma in_turn_lookup base b (ids : list Z) s :
  tr_blocks s !! base = Some b -> Forall (fun i => block_base i = base) ids ->
  accesses_in_turn (map D_lookup ids) s = Done (map D_move ids, s).
Proof.
  intros Hb; induction 1 as [|i ids Hi _ IH]; [done|]; cbn [map accesses_in_turn dequeue_access].
  by rewrite Hi, Hb; cbn [deref]; rewrite !bind_Done, IH, bind_Done.
Qed.

(** The elements at [p] and after, each by the thread that has moved it out. *)
Section count.
Context (I : Z).
Local Abbreviation idx p := (u64 (I + Z.of_nat p)).

Fixpoint counts (p : nat) ys : list (consumer_pc A) :=
  match ys with [] => [] | y :: ys => D_count (idx p) y :: counts (S p) ys end.
Definition finished ys : list (consumer_pc A) := map (fun y => D_idle (Some y)) ys.
(** When the block has been counted: its last element's thread gives it back. *)
Definition counted (full : bool) (p : nat) ys : list (consumer_pc A) :=
  if full then finished (removelast ys) ++ map (D_release (idx (p + length ys - 1))) (option_list (last ys)) else finished ys.

Lemma log_many_blocks xs : forall i v s, log_many i xs (set_tr_blocks v s) = set_tr_blocks v (log_many i xs s).
Proof. induction xs as [|x xs IH]; intros i v s; [done|]; apply (IH _ v (log_out i x s)). Qed.
Lemma log_many_get xs : forall i s, tr_blocks (log_many i xs s) = tr_blocks s.
Proof. induction xs as [|x xs IH]; intros i s; [done|]; cbn [log_many]; by rewrite IH. Qed.
Lemma idx_S p : u64 (idx p + 1) = idx (S p).
Proof. rewrite wrap_add_l; f_equal; lia. Qed.

Lemma in_turn_count base ys : forall p d s b r,
  tr_blocks s !! base = Some b -> b_elementsCompletelyDequeued b = d -> 0 <= d <= 32 -> ys <> [] ->
  (forall j, (p <= j < p + length ys)%nat -> block_base (idx j) = base) ->
  accesses_in_turn (counts p ys) s = Done r ->
  d + Z.of_nat (length ys) <= 32 /\
  let full := d + Z.of_nat (length ys) =? 32 in
  r = (counted full p ys,
       log_many (idx p) (if full then removelast ys else ys)
         (set_tr_blocks (<[base := set_b_dequeued (d + Z.of_nat (length ys)) b]> (tr_blocks s)) s)).
Proof.
  induction ys as [|y ys IH]; intros p d s b r Hb Hd Hd0 Hne Hbase; [done|]; cbn [counts accesses_in_turn dequeue_access].
  rewrite (Hbase p) by (cbn; lia); rewrite Hb; cbn [deref]; rewrite !bind_Done; unfold set_empty; rewrite Hd; change BLOCK_SIZE with 32.
  destruct (Z.ltb_spec d 32) as [Hlt|]; [|done]; cbn [check]; rewrite bind_Done, (wrap_small 64 (d + 1)) by (unfold in_u; lia).
  cbv zeta; rewrite !bind_Done; change (32 - 1) with 31; destruct ys as [|y' ys].
  { cbn [counts accesses_in_turn length]; replace (d + Z.of_nat 1) with (d + 1) by lia.
    destruct (Z.eqb_spec d 31) as [->|Hd1]; cbv beta iota; rewrite bind_Done; intros [= <-].
    - split; [lia|]; unfold counted; cbn; by replace (p + 1 - 1)%nat with p by lia.
    - split; [lia|]; replace (d + 1 =? 32) with false by (symmetry; apply Z.eqb_neq; lia); done. }
  destruct (Z.eqb_spec d 31) as [->|Hd1]; cbv beta iota.
  { set (s1 := set_tr_blocks _ s); intros ([cs s2] & E & _)%bind_Done_inv; exfalso; revert E; cbn [counts accesses_in_turn dequeue_access].
    rewrite (Hbase (S p)) by (cbn; lia); unfold s1; cbn [tr_blocks set_tr_blocks]; rewrite lookup_insert_eq; done. }
  intros ([cs s2] & E & [= <-])%bind_Done_inv; set (s1 := log_out _ _ _) in E.
  destruct (IH (S p) (d + 1) s1 (set_b_dequeued (d + 1) b) _ ltac:(apply lookup_insert_eq) eq_refl ltac:(lia) ltac:(done) ltac:(intros; apply Hbase; cbn in *; lia) E)
    as [Hle [= -> ->]]; cbn [length] in *.
  replace (d + 1 + Z.of_nat (S (length ys))) with (d + Z.of_nat (S (S (length ys)))) in * by lia.
  split; [lia|]; f_equal.
  - unfold counted; destruct (_ =? 32); [|done]; cbn [length].
    by replace (S p + S (length ys) - 1)%nat with (p + S (S (length ys)) - 1)%nat by lia.
  - assert (forall l, log_many (idx (S p)) l (set_tr_blocks (<[base:=set_b_dequeued (d + Z.of_nat (S (S (length ys)))) (set_b_dequeued (d + 1) b)]> (tr_blocks s1)) s1) =
      log_many (idx p) (y :: l) (set_tr_blocks (<[base:=set_b_dequeued (d + Z.of_nat (S (S (length ys)))) b]> (tr_blocks s)) s)) as El.
    { intros l; cbn [log_many]; rewrite idx_S; f_equal; unfold s1; cbn; unfold set_tr_blocks, log_out; cbn; by rewrite insert_insert_eq. }
    rewrite El; by destruct (_ =? 32).
Qed.
End count.
End computed.
