(* ===== verification/RaceVirtual.v ===== *)
(** * Bulk dequeues: the threads they stand for

    A thread that dequeues many stands for several threads that dequeue one element
    each; [RaceSafe.v] says what those may do.  [virtual] has these threads next to the
    real ones: more may appear, and any of them may move at once. *)

From stdpp Require Import functions.
From S2P Require Import Prelude BlockPool ImplicitProducer BlockIndex ProducerFifo Threads ProducerRace RaceTickets RaceStorage RaceSteps RaceSafe RaceBulk RaceBulkSteps.

Section virtual.
Context {A : Type} (H0 V0 : Z) (items0 : list A).
Implicit Types (s : traffic A) (c : consumer_pc A) (C : gmap nat (consumer_pc A)) (ks : list nat) (cs : list (consumer_pc A))
  (V : nat -> list nat) (L : nat -> list (consumer_pc A)) (st : list ticket) (own : list (option nat)) (rel : gset Z).
Local Abbreviation race_inv := (race_inv H0 V0 items0).
Local Abbreviation hist := (hist items0).
Local Abbreviation work := (work items0).

Definition busy c : bool := match c with D_idle _ => false | _ => true end.

(** Threads in turn. *)
Lemma in_turn_safe ks cs : forall C s st own rel,
  race_inv (with_consumers C s) st own rel -> NoDup ks -> at_pcs C ks cs -> forallb busy cs = true ->
  work s st + Z.of_nat (length cs) < 2 ^ 62 ->
  exists cs' s', accesses_in_turn cs s = Done (cs', s') /\ exists st' own' rel',
    race_inv (with_consumers (assign ks cs' C) s') st' own' rel' /\ work s' st' <= work s st + Z.of_nat (length cs).
Proof.
  revert cs; induction ks as [|k ks IH]; intros cs C s st own rel Hi Hn Hat Hb Hw.
  { inversion Hat; subst; exists [], s; split; [done|]; exists st, own, rel; split; [done|cbn; lia]. }
  inversion Hat as [|? c ? cs1 Hc Hat1]; subst; clear Hat; apply NoDup_cons in Hn as [Hk Hn].
  cbn [forallb length] in *; apply andb_true_iff in Hb as [Hbc Hb].
  destruct (consumer_safe H0 V0 items0 _ st own rel k c Hi ltac:(unfold RaceSafe.work, RaceSafe.hist in *; cbn in *; lia) Hc)
    as [[r ->]|(v' & Hv & st1 & own1 & rel1 & Hi1 & Hw1)]; [done|].
  unfold consumer_step in Hv; cbn [tr_consumers with_consumers] in Hv; rewrite Hc in Hv; cbn [deref] in Hv.
  rewrite bind_Done, access_with in Hv; destruct (dequeue_access c s) as [[c' s1]| | |] eqn:Ea; try done.
  rewrite !bind_Done in Hv; injection Hv as <-; cbn [accesses_in_turn]; rewrite Ea, bind_Done.
  destruct (IH cs1 (<[k := c']> C) s1 st1 own1 rel1) as (cs' & s' & -> & st' & own' & rel' & Hi' & Hw'); try done.
  - by apply at_pcs_insert.
  - unfold RaceSafe.work, RaceSafe.hist in *; cbn in *; lia.
  - rewrite bind_Done; exists (c' :: cs'), s'; split; [done|]; exists st', own', rel'; split; [done|].
    unfold RaceSafe.work, RaceSafe.hist in *; cbn in *; lia.
Qed.

(** [V t] are the threads that thread [t] of the bulk dequeues stands for, and [L t]
    says where they are; any others that are not real have finished. *)
Record virtual s C V L st own rel : Prop := {
  vi_race : race_inv (with_consumers C s) st own rel;
  vi_real : forall k c, tr_consumers s !! k = Some c -> C !! k = Some c;
  vi_at : forall t, at_pcs C (V t) (L t);
  vi_nodup : forall t, NoDup (V t);
  vi_own : forall t k, k ∈ V t -> tr_consumers s !! k = None;
  vi_apart : forall t t' k, k ∈ V t -> k ∈ V t' -> t = t';
  vi_rest : forall k c, C !! k = Some c -> is_Some (tr_consumers s !! k) \/ (exists t, k ∈ V t) \/ busy c = false }.

Lemma at_pcs_in C ks cs k : at_pcs C ks cs -> k ∈ ks -> exists c, C !! k = Some c.
Proof. intros Hat Hk; induction Hat as [|k' c' ks cs Hc Hat IH]; [by apply elem_of_nil in Hk|]; apply elem_of_cons in Hk as [->|Hk]; eauto. Qed.

(** A new thread, which has not drawn a ticket. *)
Lemma virtual_spawn s C V L st own rel t c :
  virtual s C V L st own rel -> index_of c = None -> releasing c = None -> (forall k, ticket_ok H0 V0 st k c) ->
  exists C' V', virtual s C' V' (<[t := c :: L t]> L) st own rel.
Proof.
  intros [Hi Hr Ha Hn Ho Hd He] Hci Hcr Hl; set (k := base.fresh (dom C)).
  assert (C !! k = None) as Hk by (apply not_elem_of_dom, is_fresh).
  assert (forall t', k ∉ V t') as Hkv by (intros t' Hkt; destruct (at_pcs_in _ _ _ _ (Ha t') Hkt); congruence).
  exists (<[k := c]> C), (<[t := k :: V t]> V); split.
  - apply (inv_elsewhere H0 V0 items0 (with_consumers C s)); try done; intros c' Hc; cbn in Hc; congruence.
  - intros k' c' Hc; rewrite lookup_insert_ne; [by apply Hr|]; intros ->; apply Hr in Hc; congruence.
  - intros t'; destruct (decide (t = t')) as [<-|Hne]; [rewrite !fn_lookup_insert|rewrite !fn_lookup_insert_ne by done; by apply at_pcs_insert].
    constructor; [apply lookup_insert_eq|by apply at_pcs_insert].
  - intros t'; destruct (decide (t = t')) as [<-|Hne]; [rewrite fn_lookup_insert|by rewrite fn_lookup_insert_ne].
    apply NoDup_cons; split; [done|apply Hn].
  - intros t' k' Hk'; assert (k' = k \/ k' ∈ V t') as [->|?].
    { destruct (decide (t = t')) as [<-|Hne]; [rewrite fn_lookup_insert in Hk'; by apply elem_of_cons in Hk'|rewrite fn_lookup_insert_ne in Hk' by done; by right]. }
    + destruct (tr_consumers s !! k) as [c'|] eqn:E; [apply Hr in E; congruence|done].
    + by eapply Ho.
  - assert (forall t' k', k' ∈ (<[t := k :: V t]> V) t' -> k' = k /\ t' = t \/ k' <> k /\ k' ∈ V t') as Hin.
    { intros t' k' Hk'; destruct (decide (t = t')) as [<-|Hne]; [rewrite fn_lookup_insert in Hk'|rewrite fn_lookup_insert_ne in Hk' by done].
      - apply elem_of_cons in Hk' as [->|Hk']; [by left|right; split; [|done]; intros ->; by eapply Hkv].
      - right; split; [|done]; intros ->; by eapply Hkv. }
    intros t1 t2 k' [[-> ->]|[? ?]]%Hin [[? ->]|[? ?]]%Hin; try done; by eapply Hd.
  - intros k' c' [[<- <-]|[Hne Hc]]%lookup_insert_Some.
    + right; left; exists t; rewrite fn_lookup_insert; by left.
    + destruct (He k' c' Hc) as [?|[[t' Ht']|?]]; [by left|right; left; exists t'|by right; right].
      destruct (decide (t = t')) as [<-|]; [rewrite fn_lookup_insert; by right|by rewrite fn_lookup_insert_ne].
Qed.
Lemma virtual_spawn_many s C V L st own rel t c n :
  virtual s C V L st own rel -> index_of c = None -> releasing c = None -> (forall k, ticket_ok H0 V0 st k c) ->
  exists C' V' L', virtual s C' V' L' st own rel /\ L' t = replicate n c ++ L t /\ forall t', t' <> t -> L' t' = L t'.
Proof.
  intros Hv Hci Hcr Hl; induction n as [|n (C1 & V1 & L1 & Hv1 & E & Eo)]; [by exists C, V, L|].
  destruct (virtual_spawn s C1 V1 L1 st own rel t c Hv1 Hci Hcr Hl) as (C' & V' & Hv'); eexists C', V', _; split; [exact Hv'|].
  rewrite fn_lookup_insert, E; split; [done|]; intros t' Hne; rewrite fn_lookup_insert_ne by done; by apply Eo.
Qed.

(** Some of them move; those that finish are forgotten. *)
Fixpoint live ks cs : list nat :=
  match ks, cs with k :: ks, c :: cs => if busy c then k :: live ks cs else live ks cs | _, _ => [] end.

Lemma live_sub ks : forall cs, live ks cs `sublist_of` ks.
Proof.
  induction ks as [|k ks IH]; intros [|c cs]; cbn; [constructor|constructor|apply sublist_nil_l|].
  destruct (busy c); [by apply sublist_skip|by apply sublist_cons].
Qed.
Lemma live_at C ks cs : at_pcs C ks cs -> at_pcs C (live ks cs) (List.filter busy cs).
Proof. induction 1 as [|k c ks cs Hc Hat IH]; cbn; [constructor|]; destruct (busy c); [by constructor|done]. Qed.
Lemma live_idle C ks cs k c : at_pcs C ks cs -> NoDup ks -> k ∈ ks -> k ∉ live ks cs -> C !! k = Some c -> busy c = false.
Proof.
  intros Hat Hn Hk Hl Hc; induction Hat as [|k' c' ks cs Hc' Hat IH]; [by apply elem_of_nil in Hk|]; cbn [live] in Hl.
  apply NoDup_cons in Hn as [Hk' Hn]; apply elem_of_cons in Hk as [->|Hk].
  - destruct (busy c') eqn:Eb; [destruct Hl; by left|congruence].
  - destruct (busy c'); [rewrite elem_of_cons in Hl; apply IH; tauto|by apply IH].
Qed.

Lemma virtual_turn s C V L st own rel t cs1 cs2 cs3 :
  virtual s C V L st own rel -> L t = cs1 ++ cs2 ++ cs3 -> forallb busy cs2 = true -> work s st + Z.of_nat (length cs2) < 2 ^ 62 ->
  exists cs2' s', accesses_in_turn cs2 s = Done (cs2', s') /\ exists C' V' st' own' rel' ks2,
    virtual s' C' V' (<[t := cs1 ++ List.filter busy cs2' ++ cs3]> L) st' own' rel' /\ at_pcs C' ks2 cs2' /\
    work s' st' <= work s st + Z.of_nat (length cs2).
Proof.
  intros [Hi Hr Ha Hn Ho Hd He] HL Hb Hw; pose proof (Ha t) as Hat; rewrite HL in Hat.
  apply at_pcs_app in Hat as (ks1 & ks23 & Eks & Hat1 & (ks2 & ks3 & -> & Hat2 & Hat3)%at_pcs_app).
  pose proof (Hn t) as Hnt; rewrite Eks in Hnt; apply NoDup_app in Hnt as (Hn1 & Hd1 & (Hn2 & Hd2 & Hn3)%NoDup_app).
  destruct (in_turn_safe ks2 cs2 C s st own rel Hi Hn2 Hat2 Hb Hw) as (cs2' & s' & Erun & st' & own' & rel' & Hi' & Hw').
  destruct (in_turn_frame _ _ _ _ Erun) as (Ec & _ & _ & El).
  assert (length ks2 = length cs2') as Elen by (rewrite El; by eapply Forall2_length).
  set (C' := assign ks2 cs2' C) in *; assert (forall k, k ∉ ks2 -> C' !! k = C !! k) as Hsame by (intros; by apply assign_other).
  pose proof (at_pcs_assign ks2 cs2' C Hn2 Elen) as Hat2'; fold C' in Hat2'.
  assert (forall k, k ∈ ks2 -> k ∈ V t) as H2t by (intros k Hk; rewrite Eks, !elem_of_app; auto).
  set (ks' := ks1 ++ live ks2 cs2' ++ ks3).
  assert (forall t', t' <> t -> forall k, k ∈ V t' -> k ∉ ks2) as Hother by (intros t' Hne k Hk Hk2; apply Hne; by eapply Hd; [|apply H2t]).
  assert (forall t' k, k ∈ (<[t := ks']> V) t' -> k ∈ V t') as Hsub.
  { intros t' k Hk; destruct (decide (t = t')) as [<-|]; [|by rewrite fn_lookup_insert_ne in Hk].
    rewrite fn_lookup_insert in Hk; unfold ks' in Hk; rewrite !elem_of_app in Hk; rewrite Eks, !elem_of_app.
    destruct Hk as [?|[Hk|?]]; auto; right; left; by eapply elem_of_sublist, live_sub. }
  exists cs2', s'; split; [done|]; exists C', (<[t := ks']> V), st', own', rel', ks2; split; [|split; [done|done]]; split.
  - done.
  - intros k c Hk; rewrite Ec in Hk; rewrite Hsame; [by apply Hr|]; intros Hk2; by rewrite (Ho t k (H2t k Hk2)) in Hk.
  - intros t'; destruct (decide (t = t')) as [<-|Hne]; [rewrite !fn_lookup_insert|].
    + unfold ks'; apply at_pcs_app; exists ks1, (live ks2 cs2' ++ ks3); split; [done|]; split.
      * eapply at_pcs_keep; [|exact Hat1]; intros k Hk; apply Hsame; intros Hk2; apply (Hd1 k Hk), elem_of_app; by left.
      * apply at_pcs_app; eexists _, ks3; split; [done|]; split; [by apply live_at|].
        eapply at_pcs_keep; [|exact Hat3]; intros k Hk; apply Hsame; intros Hk2; by apply (Hd2 k).
    + rewrite !fn_lookup_insert_ne by done; eapply at_pcs_keep; [|apply Ha]; intros k Hk; apply Hsame; by eapply Hother.
  - intros t'; destruct (decide (t = t')) as [<-|Hne]; [rewrite fn_lookup_insert|by rewrite fn_lookup_insert_ne].
    specialize (Hn t); rewrite Eks in Hn; eapply sublist_NoDup; [exact Hn|]; unfold ks'.
    apply sublist_app; [done|]; apply sublist_app; [apply live_sub|done].
  - intros t' k Hk; rewrite Ec; by eapply Ho, Hsub.
  - intros t1 t2 k Hk1%Hsub Hk2%Hsub; by eapply Hd.
  - intros k c Hk; rewrite Ec; destruct (decide (k ∈ ks2)) as [Hk2|Hk2].
    + destruct (decide (k ∈ live ks2 cs2')) as [Hl|Hl]; [right; left; exists t; rewrite fn_lookup_insert; unfold ks'; rewrite !elem_of_app; auto|].
      right; right; by eapply (live_idle C' ks2 cs2' k c).
    + rewrite Hsame in Hk by done; destruct (He k c Hk) as [?|[[t' Ht']|?]]; [by left|right; left; exists t'|by right; right].
      destruct (decide (t = t')) as [<-|]; [|by rewrite fn_lookup_insert_ne]; rewrite fn_lookup_insert; unfold ks'.
      rewrite Eks, !elem_of_app in Ht'; rewrite !elem_of_app; tauto.
Qed.
End virtual.
