(* ===== verification/RaceBulkAccess.v ===== *)
(** * Bulk dequeues: each access

    [stands_for] says for which threads of [RaceVirtual.v] an access of a bulk dequeue
    stands; every access keeps that so. *)

From stdpp Require Import functions.
From S2P Require Import Prelude BlockPool ImplicitProducer BlockIndex ProducerFifo Threads ProducerRace RaceTickets RaceStorage RaceSteps RaceSafe RaceBulk RaceBulkSteps RaceVirtual.

Section bulk.
Context {A : Type} (H0 V0 : Z) (items0 : list A).
Implicit Types (s : traffic A) (c : consumer_pc A) (C : gmap nat (consumer_pc A)) (cs : list (consumer_pc A))
  (V : nat -> list nat) (L : nat -> list (consumer_pc A)) (st : list ticket) (own : list (option nat)) (rel : gset Z)
  (h xs ys : list A) (p n : nat).
Local Abbreviation race_inv := (race_inv H0 V0 items0).
Local Abbreviation hist := (hist items0).
Local Abbreviation work := (work items0).
Local Abbreviation virtual := (virtual H0 V0 items0).
Local Abbreviation idx p := (u64 (H0 + Z.of_nat p)).

(** [xs] are the elements just before position [p]. *)
Definition upto h p xs : Prop := exists l1 l2, h = l1 ++ xs ++ l2 /\ p = length (l1 ++ xs).
Definition seen h (tail : Z) : Prop := exists a, (a <= length h)%nat /\ tail = idx a.

Definition lookups p n : list (consumer_pc A) := map D_lookup (map (fun j => idx j) (seq p n)).
Definition moves p n : list (consumer_pc A) := map D_move (map (fun j => idx j) (seq p n)).
Definition rechecks ov m n : list (consumer_pc A) := map (fun j => D_recheck (u64 (H0 + V0 + Z.of_nat j)) ov) (seq m n).

(** Part of a block: the elements [ys] at [p] have been moved out, [n2] more are to be,
    and [n3] after that are in other blocks. *)
Record segment h p ys n2 n3 (start end' stop : Z) xs cs : Prop := {
  sg_start : start = idx p;
  sg_end : end' = idx (p + length ys + n2);
  sg_stop : stop = idx (p + length ys + n2 + n3);
  sg_block : forall j, (p <= j < p + length ys + n2)%nat -> (H0 + Z.of_nat j) / 32 = (H0 + Z.of_nat p) / 32;
  sg_size : (0 < length ys + n2 /\ length ys + n2 + n3 <= length h)%nat;
  sg_xs : exists xs0, xs = xs0 ++ ys;
  sg_upto : upto h (p + length ys) xs;
  sg_cs : cs = counts H0 p ys ++ moves (p + length ys) n2 ++ lookups (p + length ys + n2) n3 }.

Definition stands_for h (b : bulk_pc A) cs : Prop :=
  match b with
  | B_idle xs => cs = [] /\ exists p, upto h p xs
  | B_tail max => cs = [] /\ 0 < max < 2 ^ 64
  | B_overcommit max tail => cs = [] /\ 0 < max < 2 ^ 64 /\ seen h tail
  | B_optimistic max tail ov => cs = [D_optimistic tail ov] /\ 0 < max < 2 ^ 64 /\ seen h tail
  | B_tickets d ov => cs = [D_ticket ov] /\ exists n, d = Z.of_nat n /\ (0 < n <= length h)%nat
  | B_recheck d my ov => exists m n, d = Z.of_nat n /\ (0 < n <= length h)%nat /\ Z.of_nat (m + n) <= 2 ^ 62 /\
      my = u64 (H0 + V0 + Z.of_nat m) /\ cs = rechecks ov m n
  | B_excess a e => exists n1 n2, a = Z.of_nat n1 /\ e = Z.of_nat n2 /\ (0 < n1 /\ n1 + n2 <= length h)%nat /\
      cs = replicate n1 D_index ++ replicate n2 D_undo
  | B_undo d => exists n, d = Z.of_nat n /\ (n <= length h)%nat /\ cs = replicate n D_undo
  | B_index a => exists n, a = Z.of_nat n /\ (0 < n <= length h)%nat /\ cs = replicate n D_index
  | B_block stop index xs => exists p n, (0 < n <= length h)%nat /\ index = idx p /\ stop = idx (p + n) /\
      upto h p xs /\ cs = lookups p n
  | B_move stop start end' index xs => exists p ys n2 n3, (0 < n2)%nat /\ index = idx (p + length ys) /\
      segment h p ys n2 n3 start end' stop xs cs
  | B_count stop start end' xs => exists p ys n3, segment h p ys 0 n3 start end' stop xs cs
  | B_release stop start end' xs => exists p ys y n3 xs0, xs = xs0 ++ ys ++ [y] /\ start = idx p /\
      end' = idx (p + S (length ys)) /\ stop = idx (p + S (length ys) + n3) /\ (n3 <= length h)%nat /\
      (H0 + Z.of_nat (p + length ys)) / 32 = (H0 + Z.of_nat p) / 32 /\ upto h (p + S (length ys)) xs /\
      cs = D_release (idx (p + length ys)) y :: lookups (p + S (length ys)) n3
  end.

(** An access of thread [t], which leads to [b'] and [s']. *)
Definition bulk_next s L st t b' s' : Prop :=
  exists C' V' L' st' own' rel', virtual s' C' V' L' st' own' rel' /\ stands_for (hist s') b' (L' t) /\
    (forall t', t' <> t -> L' t' = L t') /\ hist s' = hist s /\ work s' st' <= work s st + 1 + Z.of_nat (length (hist s)).

(** ** Facts *)

Lemma upto_mono h l p xs : upto h p xs -> upto (h ++ l) p xs.
Proof. intros (l1 & l2 & -> & ->); exists l1, (l2 ++ l); by rewrite <- !app_assoc. Qed.
Lemma upto_nil h p : (p <= length h)%nat -> upto h p [].
Proof. intros Hp; exists (take p h), (drop p h); cbn; rewrite take_drop, app_nil_r, length_take; split; [done|lia]. Qed.
Lemma upto_next h p xs x : upto h p xs -> h !! p = Some x -> upto h (S p) (xs ++ [x]).
Proof.
  intros (l1 & l2 & -> & ->) Hx; rewrite app_assoc, lookup_app_r, Nat.sub_diag in Hx by done.
  destruct l2 as [|y l2]; [done|]; injection Hx as ->; exists l1, l2; rewrite !length_app, <- !app_assoc; cbn; split; [done|lia].
Qed.
Lemma upto_le h p xs : upto h p xs -> (p <= length h)%nat.
Proof. intros (l1 & l2 & -> & ->); rewrite !length_app; lia. Qed.

Lemma seen_mono h l tail : seen h tail -> seen (h ++ l) tail.
Proof. intros (a & Ha & ->); exists a; rewrite length_app; split; [lia|done]. Qed.
Lemma stands_for_mono h l b cs : stands_for h b cs -> stands_for (h ++ l) b cs.
Proof.
  assert (forall n, (n <= length h)%nat -> (n <= length (h ++ l))%nat) as Hle by (intros; rewrite length_app; lia).
  assert (forall p ys n2 n3 start e stop xs, segment h p ys n2 n3 start e stop xs cs -> segment (h ++ l) p ys n2 n3 start e stop xs cs) as Hseg.
  { intros p ys n2 n3 start e stop xs [? ? ? ? [? ?] ? ? ?]; split; try done; [auto|by apply upto_mono]. }
  destruct b; cbn; try done.
  - intros (? & p & ?); split; [done|]; exists p; by apply upto_mono.
  - intros (? & ? & ?); split_all; try done; by apply seen_mono.
  - intros (? & ? & ?); split_all; try done; by apply seen_mono.
  - intros (? & n & ? & ? & ?); split; [done|]; exists n; auto.
  - intros (m & n & ? & [? ?] & ?); exists m, n; auto.
  - intros (n1 & n2 & ? & ? & [? ?] & ?); exists n1, n2; auto 6.
  - intros (n & ? & ? & ?); exists n; auto.
  - intros (n & ? & [? ?] & ?); exists n; auto.
  - intros (p & n & [? ?] & ? & ? & ? & ?); exists p, n; split_all; try done; [auto|by apply upto_mono].
  - intros (p & ys & n2 & n3 & ? & ? & ?); exists p, ys, n2, n3; auto.
  - intros (p & ys & n3 & ?); exists p, ys, n3; auto.
  - intros (p & ys & y & n3 & xs0 & ? & ? & ? & ? & ? & ? & ? & ?); exists p, ys, y, n3, xs0; split_all; try done; [auto|by apply upto_mono].
Qed.

Lemma at_pcs_lookup C ks cs i c : at_pcs C ks cs -> cs !! i = Some c -> exists k, C !! k = Some c.
Proof. intros Hat Hc; destruct (Forall2_lookup_r _ _ _ _ _ Hat Hc) as (k & _ & Hk); by exists k. Qed.

Lemma idx_inj p q : Z.of_nat p < 2 ^ 62 -> Z.of_nat q < 2 ^ 62 -> idx p = idx q -> p = q.
Proof. intros Hp Hq E; apply u64_inj in E; lia. Qed.
Lemma idx_plus p n : u64 (idx p + Z.of_nat n) = idx (p + n).
Proof. rewrite wrap_add_l; f_equal; lia. Qed.
Lemma idx_plus_1 p : u64 (idx p + 1) = idx (S p).
Proof. rewrite wrap_add_l; f_equal; lia. Qed.

(** ** One access *)

Section step.
Context s C V L st own rel (t : nat).
Hypothesis (Hv : virtual s C V L st own rel) (Hw : work s st + 1 + Z.of_nat (length (hist s)) < 2 ^ 62).
Local Abbreviation next := (bulk_next s L st t).

Lemma hist_short : Z.of_nat (length (hist s)) < 2 ^ 62 /\ Z.of_nat (length st) < 2 ^ 62.
Proof. unfold RaceSafe.work in Hw; lia. Qed.

Lemma next_same b' : stands_for (hist s) b' (L t) -> next b' s.
Proof. intros Hb; exists C, V, L, st, own, rel; split_all; try done; lia. Qed.

(** The threads [cs2] move, and are then at [cs2']. *)
Lemma next_turn cs1 cs2 cs3 :
  L t = cs1 ++ cs2 ++ cs3 -> forallb busy cs2 = true -> (length cs2 <= S (length (hist s)))%nat ->
  exists cs2' s', accesses_in_turn cs2 s = Done (cs2', s') /\ hist s' = hist s /\
    forall b', (forall C' st' own' rel' ks, race_inv (with_consumers C' s') st' own' rel' -> at_pcs C' ks cs2' -> short (hist s) ->
                  stands_for (hist s) b' (cs1 ++ List.filter busy cs2' ++ cs3)) -> next b' s'.
Proof.
  intros HL Hb Hn; destruct (virtual_turn H0 V0 items0 s C V L st own rel t cs1 cs2 cs3 Hv HL Hb ltac:(lia))
    as (cs2' & s' & E & C' & V' & st' & own' & rel' & ks & Hv' & Hat & Hw').
  exists cs2', s'; split; [done|]; destruct (in_turn_frame _ _ _ _ E) as (_ & Ein & _ & _).
  assert (hist s' = hist s) as Eh by (unfold RaceSafe.hist; by rewrite Ein); split; [done|].
  intros b' Hb'; eexists C', V', _, st', own', rel'; split; [exact Hv'|]; rewrite fn_lookup_insert, Eh; split_all.
  - apply (Hb' C' st' own' rel' ks); [apply Hv'|done|unfold short; apply hist_short].
  - intros t' Hne; by rewrite fn_lookup_insert_ne.
  - done.
  - lia.
Qed.

Lemma race_of : race_inv (with_consumers C s) st own rel.
Proof. apply Hv. Qed.

(** *** Tickets *)

Lemma bulk_tail max : L t = [] -> 0 < max < 2 ^ 64 -> next (B_overcommit max (tr_tailIndex s)) s.
Proof.
  intros HL Hm; apply next_same; rewrite HL; cbn [stands_for]; split_all; try done; exists (length (hist s)); split; [done|].
  apply (ri_tail _ _ _ _ _ _ _ race_of).
Qed.

Lemma bulk_overcommit max tail : L t = [] -> 0 < max < 2 ^ 64 -> seen (hist s) tail -> next (B_optimistic max tail (tr_dequeueOvercommit s)) s.
Proof.
  intros HL Hm Hs; destruct (virtual_spawn H0 V0 items0 s C V L st own rel t (D_optimistic tail (tr_dequeueOvercommit s)) Hv)
    as (C' & V' & Hv'); [done|done| |].
  - intros k; exists (zcount is_over st); pose proof (zcount_range is_over st); split; [lia|apply (ri_over _ _ _ _ _ _ _ race_of)].
  - eexists C', V', _, st, own, rel; split; [exact Hv'|]; rewrite fn_lookup_insert, HL; split; [done|]; split; [intros t' Hne; by rewrite fn_lookup_insert_ne|].
    split; [done|lia].
Qed.

(** What the counters say of the number of elements wanted. *)
Lemma clt_positive d : - 2 ^ 63 < d < 2 ^ 63 -> circular_less_than 0 (u64 d) = (0 <? d).
Proof. intros Hd; change 0 with (u64 0) at 1; apply clt_u64; lia. Qed.

Lemma at_one c : L t = [c] -> exists k, C !! k = Some c.
Proof. intros HL; pose proof (vi_at _ _ _ _ _ _ _ _ _ _ Hv t) as Hat; rewrite HL in Hat; by apply (at_pcs_lookup _ _ _ 0 c Hat). Qed.

Lemma wanted_count tail ov :
  L t = [D_optimistic tail ov] -> seen (hist s) tail ->
  exists d, d <= Z.of_nat (length (hist s)) /\ - 2 ^ 63 < d /\ u64 (tail - u64 (tr_dequeueOptimisticCount s - ov)) = u64 d /\
    circular_less_than (u64 (tr_dequeueOptimisticCount s - ov)) tail = (0 <? d).
Proof.
  intros HL (a & Ha & ->); destruct (at_one _ HL) as [k Hk]; pose proof race_of as Hr; destruct hist_short as [? ?].
  destruct (ri_local _ _ _ _ _ _ _ Hr k _ Hk) as (o & Ho & ->); pose proof (zcount_range is_over st).
  pose proof (ri_opt _ _ _ _ _ _ _ Hr) as Eo; cbn in Eo; rewrite Eo.
  exists (Z.of_nat a - (Z.of_nat (length st) - o)); split; [lia|]; split; [lia|]; rewrite (u64_sub (H0 + V0 + _)); split; [rewrite u64_sub; f_equal; lia|].
  rewrite clt_u64 by lia; apply eq_true_iff_eq; rewrite !Z.ltb_lt; lia.
Qed.

Lemma bulk_optimistic max tail ov :
  L t = [D_optimistic tail ov] -> 0 < max < 2 ^ 64 -> seen (hist s) tail ->
  exists b', bulk_access (B_optimistic max tail ov) s = Done (b', s) /\ next b' s.
Proof.
  intros HL Hm Hs; destruct (wanted_count tail ov HL Hs) as (d & Hd & Hd' & Ed & Ec); destruct hist_short as [? ?].
  eexists; split; [reflexivity|]; cbv zeta; rewrite Ed, clt_positive by lia.
  assert (exists n, n = Z.to_nat (Z.max 0 d)) as [n Hn] by eauto.
  destruct (next_turn [] [D_optimistic tail ov] []) as (cs2' & s' & E & _ & Hnext); [by rewrite HL|done|cbn; lia|].
  cbn [accesses_in_turn dequeue_access] in E; rewrite Ec, !bind_Done in E; injection E as <- <-; apply Hnext; intros _ _ _ _ _ _ _ _.
  destruct (Z.ltb_spec 0 d); cbn.
  - split; [done|]; rewrite (wrap_small 64 d) by (unfold in_u; lia).
    exists (Z.to_nat (if d <? max then d else max)); destruct (Z.ltb_spec d max); lia.
  - split; [done|]; exists O; by apply upto_nil; lia.
Qed.


(** Tickets [m] and after are compared with one value of [dequeueOvercommit]. *)
Lemma recheck_facts ov m n :
  L t = rechecks ov m n -> (0 < n)%nat -> Z.of_nat (m + n) <= 2 ^ 62 ->
  exists o, 0 <= o <= Z.of_nat m /\ ov = u64 (V0 + o) /\
    forall j, (m <= j < m + n)%nat ->
      circular_less_than (u64 (u64 (H0 + V0 + Z.of_nat j) - ov)) (tr_tailIndex s) = (Z.of_nat j - o <? Z.of_nat (length (hist s))).
Proof.
  intros HL Hn Hm; pose proof race_of as Hr; destruct hist_short as [? ?].
  assert (forall j, (m <= j < m + n)%nat -> exists o, (j < length st)%nat /\ 0 <= o <= Z.of_nat j /\ ov = u64 (V0 + o)) as Hall.
  { intros j Hj; pose proof (vi_at _ _ _ _ _ _ _ _ _ _ Hv t) as Hat; rewrite HL in Hat.
    destruct (at_pcs_lookup C _ _ (j - m) (D_recheck (u64 (H0 + V0 + Z.of_nat j)) ov) Hat) as [k Hk].
    { unfold rechecks; rewrite list_lookup_fmap, lookup_seq_lt by lia; cbn; by replace (m + (j - m))%nat with j by lia. }
    destruct (ri_local _ _ _ _ _ _ _ Hr k _ Hk) as (m' & o & Hst & E & Eo & Ho); pose proof (lookup_lt_Some _ _ _ Hst).
    pose proof (zcount_range is_over (take m' st)) as Hz; rewrite length_take in Hz; apply u64_inj in E; [|lia].
    assert (m' = j) as -> by lia; exists o; split_all; try done; lia. }
  destruct (Hall m) as (o & Hlt & Ho & ->); [lia|]; exists o; split; [done|]; split; [done|]; intros j Hj.
  destruct (Hall j Hj) as (o' & Hlt' & Ho' & E); apply u64_inj in E; [|lia]; assert (o' = o) as -> by lia.
  apply (clt_ticket H0 V0 items0 (with_consumers C s) st own rel j o Hr); [|done|lia].
  unfold RaceSafe.work, RaceSafe.hist in *; cbn in *; lia.
Qed.

Lemma split_rechecks (a o : Z) n : forall m,
  map (fun j => if Z.of_nat j - o <? a then D_index (A := A) else D_undo) (seq m n) =
  let w := Nat.min n (Z.to_nat (a + o - Z.of_nat m)) in replicate w D_index ++ replicate (n - w) D_undo.
Proof.
  induction n as [|n IH]; intros m; [done|]; cbn [seq map]; rewrite IH; cbv zeta.
  destruct (Z.ltb_spec (Z.of_nat m - o) a).
  - replace (Nat.min (S n) (Z.to_nat (a + o - Z.of_nat m))) with (S (Nat.min n (Z.to_nat (a + o - Z.of_nat (S m))))) by lia; done.
  - replace (Z.to_nat (a + o - Z.of_nat m)) with O by lia; replace (Z.to_nat (a + o - Z.of_nat (S m))) with O by lia.
    by rewrite !Nat.min_0_r, !Nat.sub_0_r.
Qed.

Lemma busy_replicate n c : busy c = true -> forallb busy (replicate n c) = true /\ List.filter busy (replicate n c) = replicate n c.
Proof. intros Hc; induction n as [|n [IH1 IH2]]; [done|]; cbn; rewrite Hc, IH1; split; [done|]; by f_equal. Qed.
Lemma busy_map {B} (f : B -> consumer_pc A) l : (forall x, busy (f x) = true) -> forallb busy (map f l) = true /\ List.filter busy (map f l) = map f l.
Proof. intros Hf; induction l as [|x l [IH1 IH2]]; [done|]; cbn; rewrite Hf, IH1; split; [done|]; by f_equal. Qed.

Lemma busy_lookups p n : forallb busy (lookups p n) = true /\ List.filter busy (lookups p n) = lookups p n.
Proof. by apply busy_map. Qed.
Lemma busy_moves p n : forallb busy (moves p n) = true /\ List.filter busy (moves p n) = moves p n.
Proof. by apply busy_map. Qed.
Lemma busy_rechecks ov m n : forallb busy (rechecks ov m n) = true /\ List.filter busy (rechecks ov m n) = rechecks ov m n.
Proof. by apply busy_map. Qed.
Lemma busy_counts ys : forall p, forallb busy (counts H0 p ys) = true /\ List.filter busy (counts H0 p ys) = counts H0 p ys.
Proof. induction ys as [|y ys IH]; intros p; [done|]; destruct (IH (S p)) as [E1 E2]; cbn; rewrite E1, E2; done. Qed.

Lemma bulk_recheck ov m n :
  L t = rechecks ov m n -> (0 < n <= length (hist s))%nat -> Z.of_nat (m + n) <= 2 ^ 62 ->
  exists b', bulk_access (B_recheck (Z.of_nat n) (u64 (H0 + V0 + Z.of_nat m)) ov) s = Done (b', s) /\ next b' s.
Proof.
  intros HL Hn Hm; destruct (recheck_facts ov m n HL ltac:(lia) Hm) as (o & Ho & -> & Hclt); destruct hist_short as [? ?].
  eexists; split; [reflexivity|]; pose proof (ri_tail _ _ _ _ _ _ _ race_of) as Et; cbn in Et; unfold top in Et.
  change (RaceSafe.hist items0 (with_consumers C s)) with (hist s) in Et; cbv zeta; rewrite Et, (u64_sub (H0 + V0 + _)), u64_sub.
  set (d := Z.of_nat (length (hist s)) - (Z.of_nat m - o)).
  replace (H0 + Z.of_nat (length (hist s)) - (H0 + V0 + Z.of_nat m - (V0 + o))) with d by (unfold d; lia); rewrite clt_positive by lia.
  destruct (next_turn [] (rechecks (u64 (V0 + o)) m n) []) as (cs2' & s' & E & _ & Hnext); [by rewrite HL, app_nil_r|apply busy_rechecks| |].
  { unfold rechecks; rewrite length_map, length_seq; lia. }
  unfold rechecks in E; rewrite in_turn_recheck in E; injection E as <- <-; apply Hnext; intros _ _ _ _ _ _ _ _; clear Hnext.
  rewrite (map_ext_in _ (fun j => if Z.of_nat j - o <? Z.of_nat (length (hist s)) then D_index else D_undo)) by (intros j Hj%in_seq; by rewrite Hclt).
  rewrite split_rechecks; cbv zeta; set (w := Nat.min n _); rewrite app_nil_r, List.filter_app, (proj2 (busy_replicate _ D_index eq_refl)), (proj2 (busy_replicate _ D_undo eq_refl)); cbn [app].
  destruct (Z.ltb_spec 0 d) as [Hd|Hd].
  - rewrite (wrap_small 64 d) by (unfold in_u, d; lia); destruct (Z.ltb_spec (Z.of_nat n) d) as [Hd'|Hd'].
    + rewrite Z.ltb_irrefl; assert (w = n) as -> by (unfold w, d in *; lia); rewrite Nat.sub_diag, app_nil_r; exists n; split_all; try done; lia.
    + destruct (Z.ltb_spec d (Z.of_nat n)).
      * exists w, (n - w)%nat; rewrite wrap_small by (unfold in_u, d; lia); unfold w, d in *; split_all; try done; lia.
      * assert (w = n) as -> by (unfold w, d in *; lia); rewrite Nat.sub_diag, app_nil_r; exists n; split_all; try done; unfold d in *; lia.
  - assert (w = O) as -> by (unfold w, d in *; lia); cbn [replicate app]; rewrite Nat.sub_0_r; exists n; split_all; try done; lia.
Qed.

(** Losing tickets are given back. *)
Lemma undo_turn cs1 n :
  L t = cs1 ++ replicate n D_undo -> (n <= length (hist s))%nat ->
  forall b', stands_for (hist s) b' cs1 ->
    next b' (set_dequeue (tr_headIndex s) (tr_dequeueOptimisticCount s) (u64 (tr_dequeueOvercommit s + Z.of_nat n)) s).
Proof.
  intros HL Hn b' Hb; destruct (next_turn cs1 (replicate n D_undo) []) as (cs2' & s' & E & _ & Hnext); [by rewrite HL, app_nil_r|by apply busy_replicate| |].
  { rewrite length_replicate; lia. }
  pose proof (ri_over _ _ _ _ _ _ _ race_of) as Eo; cbn in Eo.
  rewrite (in_turn_undo (V0 + zcount is_over st) n O) in E by (rewrite Eo; f_equal; cbn; lia); injection E as <- <-.
  rewrite Eo, u64_add; apply Hnext; intros _ _ _ _ _ _ _ _.
  rewrite app_nil_r; replace (List.filter busy (replicate n (D_idle (A := A) None))) with ([] : list (consumer_pc A)) by (clear; by induction n).
  by rewrite app_nil_r.
Qed.

Lemma bulk_index n :
  L t = replicate n D_index -> (0 < n <= length (hist s))%nat ->
  exists b' s', bulk_access (B_index (Z.of_nat n)) s = Done (b', s') /\ next b' s'.
Proof.
  intros HL Hn; eexists _, _; split; [reflexivity|]; cbv zeta; pose proof (ri_head _ _ _ _ _ _ _ race_of) as Eh; cbn in Eh.
  destruct (next_turn [] (replicate n D_index) []) as (cs2' & s' & E & _ & Hnext); [by rewrite HL, app_nil_r|by apply busy_replicate| |].
  { rewrite length_replicate; lia. }
  rewrite (in_turn_index H0 n (length own)) in E by done; injection E as <- <-; rewrite Eh, idx_plus; apply Hnext; intros _ _ _ _ _ _ _ _.
  rewrite app_nil_r; cbn [app]; rewrite <- (map_map (fun j => idx j) D_lookup); fold (lookups (length own) n); rewrite (proj2 (busy_lookups _ _)); exists (length own), n; split_all; try done.
  apply upto_nil; apply (so_len _ _ _ _ _ _ _ _ (ri_store _ _ _ _ _ _ _ race_of)).
Qed.

(** *** Elements *)

Lemma idx_eqb q n : Z.of_nat n < 2 ^ 64 -> (idx q =? idx (q + n)) = (n =? 0)%nat.
Proof.
  intros Hn; destruct n as [|n]; [by rewrite Nat.add_0_r, Z.eqb_refl|]; apply Z.eqb_neq.
  replace (H0 + Z.of_nat (q + S n)) with (H0 + Z.of_nat q + Z.of_nat (S n)) by lia; apply u64_neq; lia.
Qed.

Lemma next_segment_ok q n xs : upto (hist s) q xs -> (n <= length (hist s))%nat -> stands_for (hist s) (next_segment (idx (q + n)) (idx q) xs) (lookups q n).
Proof.
  intros Hu Hn; unfold next_segment; rewrite idx_eqb by (destruct hist_short; lia); destruct n as [|n]; cbn [Nat.eqb].
  - split; [done|by exists q].
  - exists q, (S n); split_all; try done; lia.
Qed.

Lemma same_block_positions p j : (p <= j)%nat -> H0 + Z.of_nat j < 32 * ((H0 + Z.of_nat p) / 32) + 32 -> (H0 + Z.of_nat j) / 32 = (H0 + Z.of_nat p) / 32.
Proof.
  intros Hp Hj; symmetry; apply Z.div_unique with (H0 + Z.of_nat j - 32 * ((H0 + Z.of_nat p) / 32)); [left|lia].
  pose proof (Z.div_mod (H0 + Z.of_nat p) 32); pose proof (Z.mod_pos_bound (H0 + Z.of_nat p) 32); lia.
Qed.

(** Where the part of a block ends that is to be dequeued. *)
Lemma segment_end p n : (0 < n <= length (hist s))%nat ->
  exists n1, (0 < n1 <= n)%nat /\ (n1 <= 32)%nat /\ (forall j, (p <= j < p + n1)%nat -> (H0 + Z.of_nat j) / 32 = (H0 + Z.of_nat p) / 32) /\
    (if circular_less_than (idx (p + n)) (u64 (block_base (idx p) + BLOCK_SIZE)) then idx (p + n)
     else u64 (block_base (idx p) + BLOCK_SIZE)) = idx (p + n1).
Proof.
  intros Hn; destruct hist_short as [? ?]; rewrite base_of, wrap_add_l; change BLOCK_SIZE with 32.
  pose proof (Z.div_mod (H0 + Z.of_nat p) 32); pose proof (Z.mod_pos_bound (H0 + Z.of_nat p) 32).
  set (k := (H0 + Z.of_nat p) / 32) in *.
  rewrite clt_u64 by lia; exists (Nat.min n (Z.to_nat (32 * k + 32 - (H0 + Z.of_nat p)))).
  split; [lia|]; split; [lia|]; split; [intros j Hj; apply same_block_positions; [lia|fold k; lia]|].
  destruct (Z.ltb_spec (H0 + Z.of_nat (p + n)) (32 * k + 32)); f_equal; lia.
Qed.

Lemma lookups_split p n1 n2 : lookups p (n1 + n2) = lookups p n1 ++ lookups (p + n1) n2.
Proof. unfold lookups; by rewrite seq_app, !map_app. Qed.

Lemma bulk_block p n xs :
  L t = lookups p n -> (0 < n <= length (hist s))%nat -> upto (hist s) p xs ->
  exists b', bulk_access (B_block (idx (p + n)) (idx p) xs) s = Done (b', s) /\ next b' s.
Proof.
  intros HL Hn Hu; destruct (segment_end p n Hn) as (n1 & Hn1 & H32 & Hblk & Ee); cbn [bulk_access]; cbv zeta; rewrite Ee.
  replace n with (n1 + (n - n1))%nat in HL |- * by lia; rewrite lookups_split in HL.
  destruct (next_turn [] (lookups p n1) (lookups (p + n1) (n - n1))) as (cs2' & s' & E & _ & Hnext); [done|apply busy_lookups| |].
  { unfold lookups; rewrite !length_map, length_seq; lia. }
  assert (exists b, tr_blocks s !! block_base (idx p) = Some b) as [b Hb].
  { destruct n1 as [|n1]; [lia|]; revert E; unfold lookups; cbn [seq map accesses_in_turn dequeue_access].
    destruct (tr_blocks s !! block_base (idx p)) as [b|]; [by exists b|done]. }
  rewrite Hb; cbn [deref]; rewrite bind_Done; eexists; split; [reflexivity|].
  unfold lookups in E; rewrite (in_turn_lookup (block_base (idx p)) b) in E; [|done|].
  2:{ apply Forall_forall; intros i Hi; apply list_elem_of_In, in_map_iff in Hi as (j & <- & Hj%in_seq); by rewrite !base_of, Hblk. }
  injection E as <- <-; apply Hnext; intros _ _ _ _ _ _ _ _; fold (moves p n1); rewrite (proj2 (busy_moves _ _)).
  unfold next_element; rewrite idx_eqb by lia; destruct n1 as [|n1]; [lia|]; cbn [Nat.eqb].
  exists p, [], (S n1), (n - S n1)%nat; cbn [length]; rewrite Nat.add_0_r; split; [lia|]; split; [done|]; split; cbn [length]; rewrite ?Nat.add_0_r; try done.
  - f_equal; lia.
  - lia.
  - exists xs; by rewrite app_nil_r.
Qed.

Lemma counts_snoc ys x : forall p, counts H0 p (ys ++ [x]) = counts H0 p ys ++ [D_count (idx (p + length ys)) x].
Proof.
  induction ys as [|y ys IH]; intros p; cbn [app counts length]; [by rewrite Nat.add_0_r|].
  rewrite IH; by replace (p + S (length ys))%nat with (S p + length ys)%nat by lia.
Qed.

Lemma bulk_move p ys n2 n3 start end' stop xs :
  segment (hist s) p ys (S n2) n3 start end' stop xs (L t) ->
  exists b' s', bulk_access (B_move stop start end' (idx (p + length ys)) xs) s = Done (b', s') /\ next b' s'.
Proof.
  intros [Es Ee Et Hblk Hsz (xs0 & Exs) Hu HL]; set (q := (p + length ys)%nat) in *.
  destruct (next_turn (counts H0 p ys) [D_move (idx q)] (moves (S q) n2 ++ lookups (q + S n2) n3)) as (cs2' & s' & E & Eh & Hnext);
    [by rewrite HL|done|cbn; lia|]; cbn [accesses_in_turn] in E.
  apply bind_Done_inv in E as ([c s1] & Ea & E); rewrite bind_Done in E; injection E as <- <-; cbn [dequeue_access] in Ea.
  apply bind_Done_inv in Ea as (b & Hb & Ea); apply bind_Done_inv in Ea as (x & Hx & Ea); injection Ea as <- <-.
  cbn [bulk_access]; rewrite Hb, bind_Done, Hx, bind_Done; eexists _, _; split; [reflexivity|]; apply Hnext.
  intros C' st' own' rel' ks Hr Hat Hsh; destruct (at_pcs_lookup _ _ _ 0 _ Hat eq_refl) as [k Hk].
  destruct (so_local _ _ _ _ _ _ _ _ (ri_store _ _ _ _ _ _ _ Hr) k _ Hk) as (j & _ & Ej & Hj).
  change (RaceSafe.hist items0 _) with (hist s) in Hj; apply lookup_lt_Some in Hj as Hjl; pose proof (upto_le _ _ _ Hu).
  apply idx_inj in Ej; [|unfold short in Hsh; lia..].
  subst j; cbn [List.filter busy]; unfold next_element; rewrite idx_plus_1.
  assert (segment (hist s) p (ys ++ [x]) n2 n3 start end' stop (xs ++ [x]) (counts H0 p ys ++ [D_count (idx q) x] ++ moves (S q) n2 ++ lookups (q + S n2) n3)) as Hseg.
  { assert (p + length (ys ++ [x]) = S q)%nat as El by (rewrite length_app; cbn; unfold q; lia).
    split; rewrite ?El; try done; rewrite ?Ee, ?Et; try (f_equal; f_equal; lia).
    - intros j Hj'; apply Hblk; lia.
    - exists xs0; by rewrite Exs, app_assoc.
    - by apply upto_next.
    - rewrite counts_snoc, <- app_assoc; fold q; by replace (S q + n2)%nat with (q + S n2)%nat by lia. }
  rewrite Ee in *; replace (q + S n2)%nat with (S q + n2)%nat in * by lia; rewrite idx_eqb by (unfold short in Hsh; lia).
  destruct n2 as [|n2]; cbn [Nat.eqb]; [exists p, (ys ++ [x]), n3|exists p, (ys ++ [x]), (S n2), n3; split; [lia|]; split; [f_equal; rewrite length_app; cbn; unfold q; lia|]];
    exact Hseg.
Qed.

(** The block of the elements that have been moved out, and how many it counts. *)
Lemma count_block p y cs :
  L t = D_count (idx p) y :: cs ->
  exists b, tr_blocks s !! block_base (idx p) = Some b /\ 0 <= b_elementsCompletelyDequeued b <= 32.
Proof.
  intros HL; pose proof (vi_at _ _ _ _ _ _ _ _ _ _ Hv t) as Hat; rewrite HL in Hat; destruct (at_pcs_lookup _ _ _ 0 _ Hat eq_refl) as [k Hk].
  pose proof (ri_store _ _ _ _ _ _ _ race_of) as Hs; destruct (so_local _ _ _ _ _ _ _ _ Hs k _ Hk) as (j & Hj & E & _); rewrite E.
  destruct (owner_block H0 _ _ _ _ _ _ _ j k Hs Hj) as (_ & _ & _ & b & Hb & Hd & _); exists b; split; [exact Hb|]; rewrite Hd; apply dq_bound.
Qed.

Lemma latest_app xs ys : latest (Z.of_nat (length ys)) (xs ++ ys) = ys.
Proof. unfold latest; rewrite length_app, Nat2Z.id; replace (length xs + length ys - length ys)%nat with (length xs) by lia; apply drop_app_length. Qed.
Lemma idx_sub p n : Z.of_nat n < 2 ^ 64 -> u64 (idx (p + n) - idx p) = Z.of_nat n.
Proof. intros Hn; rewrite u64_sub, wrap_small; [lia|unfold in_u; lia]. Qed.

Lemma filter_finished ys : List.filter busy (finished ys) = [].
Proof. by induction ys. Qed.

Lemma bulk_count p ys n3 start end' stop xs :
  segment (hist s) p ys 0 n3 start end' stop xs (L t) ->
  exists b' s', bulk_access (B_count stop start end' xs) s = Done (b', s') /\ next b' s'.
Proof.
  intros [Es Ee Et Hblk Hsz (xs0 & Exs) Hu HL]; unfold moves in HL; cbn [seq map app] in HL; rewrite !Nat.add_0_r in *; set (q := (p + length ys)%nat) in *.
  destruct hist_short as [? ?]; destruct (exists_last (l := ys)) as (ys' & y & Ey); [intros ->; cbn in *; lia|].
  assert (exists b, tr_blocks s !! block_base (idx p) = Some b /\ 0 <= b_elementsCompletelyDequeued b <= 32) as (b & Hb & Hd).
  { destruct ys as [|y0 ys0]; [by destruct ys'|]; by apply (count_block p y0 (counts H0 (S p) ys0 ++ lookups q n3)). }
  destruct (next_turn [] (counts H0 p ys) (lookups q n3)) as (cs2' & s' & E & _ & Hnext); [done|apply busy_counts| |].
  { pose proof (f_equal length HL) as El; clear -Hsz; enough (length (counts H0 p ys) = length ys) by lia.
    clear Hsz; revert p; induction ys as [|y ys IH]; intros p; [done|]; cbn; by rewrite IH. }
  assert (ys <> []) as Hne by (intros ->; by destruct ys').
  assert (forall j, (p <= j < p + length ys)%nat -> block_base (idx j) = block_base (idx p)) as Hbase by (intros j Hj; by rewrite !base_of, Hblk).
  destruct (in_turn_count H0 _ ys p _ s b _ Hb eq_refl Hd Hne Hbase E) as [Hle Er].
  cbv zeta in Er; injection Er as -> ->; cbn [bulk_access]; rewrite Es, Hb; cbn [deref]; rewrite bind_Done, Ee; unfold q.
  rewrite idx_sub by lia; unfold set_many_empty; rewrite (wrap_small 64 (b_elementsCompletelyDequeued b + _)) by (unfold in_u; lia); change BLOCK_SIZE with 32.
  rewrite (proj2 (Z.leb_le _ _)) by lia; cbn [check]; rewrite bind_Done; cbv zeta; rewrite bind_Done, Exs, latest_app.
  unfold counted in Hnext; destruct (_ =? 32); (eexists _, _; split; [reflexivity|]); apply Hnext; intros _ _ _ _ _ _ _ _; clear Hnext.
  - rewrite List.filter_app, filter_finished, Ey, last_snoc; cbn [option_list map List.filter busy app]; rewrite <- Ey.
    assert (length ys = S (length ys')) as El by (rewrite Ey, length_app; cbn; lia).
    exists p, ys', y, n3, xs0; rewrite <- El; split; [by rewrite Ey|]; split; [done|]; split; [done|]; split; [exact Et|]; split; [lia|].
    split; [apply Hblk; unfold q; lia|]; split; [by rewrite <- Exs|]; by replace (p + length ys - 1)%nat with (p + length ys')%nat by lia.
  - rewrite filter_finished; cbn [app]; rewrite <- Exs, Et; apply next_segment_ok; [done|lia].
Qed.

Lemma bulk_release p ys y n3 start end' stop xs xs0 :
  xs = xs0 ++ ys ++ [y] -> start = idx p -> end' = idx (p + S (length ys)) -> stop = idx (p + S (length ys) + n3) -> (n3 <= length (hist s))%nat ->
  (H0 + Z.of_nat (p + length ys)) / 32 = (H0 + Z.of_nat p) / 32 -> upto (hist s) (p + S (length ys)) xs ->
  L t = D_release (idx (p + length ys)) y :: lookups (p + S (length ys)) n3 ->
  exists b' s', bulk_access (B_release stop start end' xs) s = Done (b', s') /\ next b' s'.
Proof.
  intros -> -> -> -> Hn Hblk Hu HL; eexists _, _; split; [reflexivity|].
  destruct (next_turn [] [D_release (idx (p + length ys)) y] (lookups (p + S (length ys)) n3)) as (cs2' & s' & E & _ & Hnext); [done|done|cbn; lia|].
  cbn [accesses_in_turn dequeue_access] in E; rewrite !bind_Done in E; injection E as <- <-.
  replace (u64 (idx (p + S (length ys)) - 1)) with (idx (p + length ys)).
  2:{ change (idx (p + S (length ys)) - 1) with (idx (p + S (length ys)) + -1); rewrite wrap_add_l; f_equal; lia. }
  change 1 with (Z.of_nat (length [y])); rewrite app_assoc, latest_app; cbn [log_many]; rewrite !base_of, Hblk in *.
  apply Hnext; intros _ _ _ _ _ _ _ _; cbn [List.filter busy app]; rewrite <- app_assoc; by apply next_segment_ok.
Qed.
End step.

Lemma bulk_tickets s C V L st own rel t n ov :
  virtual s C V L st own rel -> work s st + 1 + Z.of_nat (length (hist s)) < 2 ^ 62 ->
  L t = [D_ticket ov] -> (0 < n <= length (hist s))%nat ->
  exists b' s', bulk_access (B_tickets (Z.of_nat n) ov) s = Done (b', s') /\ bulk_next s L st t b' s'.
Proof.
  intros Hv Hw HL Hn; destruct (at_one _ _ _ _ _ _ _ _ Hv _ HL) as [k Hk]; pose proof (race_of _ _ _ _ _ _ _ Hv) as Hr.
  pose proof (ri_local _ _ _ _ _ _ _ Hr k _ Hk) as Hl; pose proof (ri_opt _ _ _ _ _ _ _ Hr) as Eo; cbn in Eo.
  destruct (virtual_spawn_many H0 V0 items0 s C V L st own rel t (D_ticket ov) (n - 1) Hv eq_refl eq_refl (fun _ => Hl))
    as (C1 & V1 & L1 & Hv1 & HL1 & Hother).
  assert (L1 t = replicate n (D_ticket ov)) as HL1'.
  { rewrite HL1, HL; change [D_ticket ov] with (replicate 1 (D_ticket (A := A) ov)); rewrite <- replicate_add; f_equal; lia. }
  destruct (next_turn s C1 V1 L1 st own rel t Hv1 Hw [] (replicate n (D_ticket ov)) []) as (cs2' & s' & E & _ & Hnext);
    [by rewrite HL1', app_nil_r|by apply busy_replicate|rewrite length_replicate; lia|].
  rewrite (in_turn_draw (H0 + V0) ov n (length st)) in E by done; injection E as <- <-; eexists _, _; split; [reflexivity|].
  rewrite Eo, wrap_add_l; replace (H0 + V0 + Z.of_nat (length st) + Z.of_nat n) with (H0 + V0 + Z.of_nat (length st + n)) by lia.
  destruct (Hnext (B_recheck (Z.of_nat n) (u64 (H0 + V0 + Z.of_nat (length st))) ov)) as (C' & V' & L' & st' & own' & rel' & H1 & H2 & H3 & H4 & H5).
  - intros _ _ _ _ _ _ _ _; rewrite app_nil_r; fold (rechecks ov (length st) n); rewrite (proj2 (busy_rechecks _ _ _)).
    exists (length st), n; split_all; try done; unfold RaceSafe.work in *; lia.
  - exists C', V', L', st', own', rel'; split_all; try done; intros t' Hne; rewrite H3 by done; by apply Hother.
Qed.
End bulk.
