(* ===== verification/RaceBulkSafe.v ===== *)
(** * Bulk dequeues: nothing lost, nothing twice

    One thread that enqueues and any number that dequeue, one element or many: every
    step keeps the invariant, and [bulk_race_safe] is what follows. *)

From stdpp Require Import functions.
From S2P Require Import Prelude BlockPool ImplicitProducer BlockIndex ProducerFifo Threads ProducerRace RaceTickets RaceStorage RaceSteps RaceSafe RaceBulk RaceBulkSteps RaceVirtual RaceBulkAccess.

Section safe.
Context {A : Type} (H0 V0 : Z) (items0 : list A).
Implicit Types (s : traffic A) (bt : bulk_traffic A) (bs : gmap nat (bulk_pc A)) (C : gmap nat (consumer_pc A))
  (V : nat -> list nat) (L : nat -> list (consumer_pc A)) (st : list ticket) (own : list (option nat)) (rel : gset Z).
Local Abbreviation race_inv := (race_inv H0 V0 items0).
Local Abbreviation hist := (hist items0).
Local Abbreviation work := (work items0).
Local Abbreviation virtual := (virtual H0 V0 items0).
Local Abbreviation stands_for := (stands_for H0 V0).

Record bulk_inv s bs C V L st own rel : Prop := {
  bi_virtual : virtual s C V L st own rel;
  bi_stands : forall t b, bs !! t = Some b -> stands_for (hist s) b (L t);
  bi_none : forall t, bs !! t = None -> L t = [] }.

(** Another state with the invariant, after at most so much work. *)
Definition kept s st s' bs' : Prop :=
  exists C' V' L' st' own' rel', bulk_inv s' bs' C' V' L' st' own' rel' /\ (length (hist s') <= S (length (hist s)))%nat /\
    work s' st' <= work s st + 1 + Z.of_nat (length (hist s)).

(** ** Bulk dequeues *)

Lemma bulk_ok s C V L st own rel t b :
  virtual s C V L st own rel -> work s st + 1 + Z.of_nat (length (hist s)) < 2 ^ 62 -> stands_for (hist s) b (L t) ->
  (exists r, b = B_idle r) \/ exists b' s', bulk_access b s = Done (b', s') /\ bulk_next H0 V0 items0 s L st t b' s'.
Proof.
  intros Hv Hw Hb; destruct b as [r|max|max tail|max tail ov|d ov|d my ov|a e|d|a|stop i xs|stop st0 e i xs|stop st0 e xs|stop st0 e xs]; cbn in Hb;
    [left; by exists r|right..].
  - destruct Hb as [HL Hm]; eexists _, _; split; [reflexivity|]; by eapply bulk_tail.
  - destruct Hb as (HL & Hm & Hs); eexists _, _; split; [reflexivity|]; by eapply bulk_overcommit.
  - destruct Hb as (HL & Hm & Hs); destruct (bulk_optimistic H0 V0 items0 s C V L st own rel t Hv Hw max tail ov HL Hm Hs) as (b' & ? & ?); by exists b', s.
  - destruct Hb as (HL & n & -> & Hn); by eapply bulk_tickets.
  - destruct Hb as (m & n & -> & Hn & Hm & -> & HL); destruct (bulk_recheck H0 V0 items0 s C V L st own rel t Hv Hw ov m n HL Hn Hm) as (b' & ? & ?); by exists b', s.
  - destruct Hb as (n1 & n2 & -> & -> & [Hn Hn'] & HL); eexists _, _; split; [reflexivity|].
    eapply (undo_turn H0 V0 items0); [done|done|exact HL|lia|]; exists n1; split_all; try done; lia.
  - destruct Hb as (n & -> & Hn & HL); eexists _, _; split; [reflexivity|].
    eapply (undo_turn H0 V0 items0 s C V L st own rel t Hv Hw []); [exact HL|done|]; split; [done|]; exists O; apply upto_nil; lia.
  - destruct Hb as (n & -> & Hn & HL); by eapply bulk_index.
  - destruct Hb as (p & n & Hn & -> & -> & Hu & HL); destruct (bulk_block H0 V0 items0 s C V L st own rel t Hv Hw p n xs HL Hn Hu) as (b' & ? & ?); by exists b', s.
  - destruct Hb as (p & ys & n2 & n3 & Hn & -> & Hseg); destruct n2 as [|n2]; [lia|]; by eapply bulk_move.
  - destruct Hb as (p & ys & n3 & Hseg); by eapply bulk_count.
  - destruct Hb as (p & ys & y & n3 & xs0 & ? & ? & ? & ? & ? & ? & ? & ?); by eapply bulk_release.
Qed.

Lemma bulk_kept s bs C V L st own rel t b :
  bulk_inv s bs C V L st own rel -> work s st + 1 + Z.of_nat (length (hist s)) < 2 ^ 62 -> bs !! t = Some b ->
  (exists r, b = B_idle r) \/ exists b' s', bulk_access b s = Done (b', s') /\ kept s st s' (<[t := b']> bs).
Proof.
  intros [Hv Hs Hn] Hw Ht; destruct (bulk_ok s C V L st own rel t b Hv Hw (Hs t b Ht)) as [?|(b' & s' & E & C' & V' & L' & st' & own' & rel' & Hv' & Hb' & Ho & Eh & Hw')];
    [by left|right; exists b', s'; split; [done|]]; exists C', V', L', st', own', rel'; split; [|rewrite Eh; split; [lia|lia]]; split; [done|..].
  - intros t' b0 [[<- <-]|[Hne Hb0]]%lookup_insert_Some; [done|]; rewrite Eh, Ho by done; by apply Hs.
  - intros t' [Hb0 Hne]%lookup_insert_None; rewrite Ho by done; by apply Hn.
Qed.

(** ** The real threads *)

Lemma producer_with got C s :
  producer_step got (with_consumers C s) = s' ← producer_step got s; mret (with_consumers C s').
Proof.
  unfold producer_step; cbn [tr_producer tr_tailIndex tr_headIndex tr_blocks with_consumers]; destruct (tr_producer s) as [r|x|x|x|x]; try done.
  - by destruct (check _); rewrite ?bind_Done.
  - by destruct got.
  - destruct (tr_blocks s !! _); cbn [deref]; rewrite ?bind_Done; reflexivity.
Qed.

Lemma producer_frame got s s' : producer_step got s = Done s' -> tr_consumers s' = tr_consumers s /\ exists l, (length l <= 1)%nat /\ tr_in s' = tr_in s ++ l.
Proof.
  unfold producer_step; destruct (tr_producer s) as [r|x|x|x|x]; try done.
  - intros (_ & _ & [= <-])%bind_Done_inv; split; [done|]; exists []; rewrite app_nil_r; split; [cbn; lia|done].
  - destruct got; intros [= <-]; (split; [done|exists []; rewrite app_nil_r; split; [cbn; lia|done]]).
  - intros (b & _ & [= <-])%bind_Done_inv; split; [done|]; exists []; rewrite app_nil_r; split; [cbn; lia|done].
  - intros [= <-]; split; [done|]; exists [x]; split; [cbn; lia|done].
Qed.

(** The virtual threads while a real one moves to [c']. *)
Lemma virtual_real s s' C V L st own rel st' own' rel' (t : option (nat * consumer_pc A)) :
  virtual s C V L st own rel ->
  let upd (m : gmap nat (consumer_pc A)) := match t with Some (k, c') => <[k := c']> m | None => m end in
  race_inv (with_consumers (upd C) s') st' own' rel' -> tr_consumers s' = upd (tr_consumers s) ->
  (forall k c', t = Some (k, c') -> is_Some (tr_consumers s !! k)) ->
  virtual s' (upd C) V L st' own' rel'.
Proof.
  intros [Hi Hr Ha Hn Ho Hd He] upd Hi' Ec Ht.
  assert (forall k m, (forall c', t <> Some (k, c')) -> upd m !! k = m !! k) as Hother.
  { intros k m Hk; unfold upd; destruct t as [[k' c']|]; [|done]; apply lookup_insert_ne; intros ->; by apply (Hk c'). }
  assert (forall t' k, k ∈ V t' -> forall c', t <> Some (k, c')) as Hvt.
  { intros t' k Hk c' ->; destruct (Ht k c' eq_refl) as [c Hc]; by rewrite (Ho t' k Hk) in Hc. }
  split; try done.
  - intros k c; rewrite Ec; unfold upd; destruct t as [[k' c']|]; [|by apply Hr].
    intros [[<- <-]|[Hne Hc]]%lookup_insert_Some; [apply lookup_insert_eq|rewrite lookup_insert_ne by done; by apply Hr].
  - intros t'; eapply at_pcs_keep; [|apply Ha]; intros k Hk; apply Hother; by eapply Hvt.
  - intros t' k Hk; rewrite Ec, Hother by (by eapply Hvt); by eapply Ho.
  - intros k c Hc; rewrite Ec; unfold upd in Hc |- *; destruct t as [[k' c']|]; [|by apply He].
    destruct (decide (k = k')) as [->|Hne]; [left; rewrite lookup_insert_eq; by eexists|].
    rewrite lookup_insert_ne in * by done; by apply He.
Qed.

Lemma real_kept s s' bs C V L st own rel :
  bulk_inv s bs C V L st own rel -> work s st + 1 + Z.of_nat (length (hist s)) < 2 ^ 62 -> traffic_step s s' -> kept s st s' bs.
Proof.
  intros [Hv Hs Hn] Hw Hstep.
  assert (exists (t : option (nat * consumer_pc A)) l, let upd (m : gmap nat (consumer_pc A)) := match t with Some (k, c') => <[k := c']> m | None => m end in
    traffic_step (with_consumers C s) (with_consumers (upd C) s') /\ tr_consumers s' = upd (tr_consumers s) /\
    (forall k c', t = Some (k, c') -> is_Some (tr_consumers s !! k)) /\ (length l <= 1)%nat /\ tr_in s' = tr_in s ++ l) as (t & l & Hv1 & Ec & Ht & Hl & Ein).
  { destruct Hstep as [x r s Hp|got s s' Hp|t r s Ht|t s s' Ht].
    - exists None, []; cbv zeta; rewrite app_nil_r; split_all; try done; [|cbn; lia]; by apply (step_enqueue x r (with_consumers C s)).
    - destruct (producer_frame got s s' Hp) as (Ec & l & Hl & El); exists None, l; cbv zeta; split_all; try done.
      apply (step_producer got); by rewrite producer_with, Hp.
    - exists (Some (t, D_tail)), []; cbv zeta; rewrite app_nil_r; split_all; try done; [|intros ? ? [= <- _]; by eexists|cbn; lia].
      apply (step_dequeue t r (with_consumers C s)); by apply (vi_real _ _ _ _ _ _ _ _ _ _ Hv).
    - unfold consumer_step in Ht; destruct (tr_consumers s !! t) as [c|] eqn:Hc; [|done]; cbn [deref] in Ht; rewrite bind_Done in Ht.
      apply bind_Done_inv in Ht as ([c' s1] & Ea & Ht); injection Ht as <-; destruct (access_frame _ _ _ _ Ea) as (E1 & E2 & _).
      exists (Some (t, c')), []; cbv zeta; rewrite app_nil_r; cbn; rewrite E1; split_all; try done; [|intros ? ? [= <- _]; by eexists|lia].
      apply (step_consumer t); unfold consumer_step; cbn [tr_consumers with_consumers]; rewrite (vi_real _ _ _ _ _ _ _ _ _ _ Hv t c Hc).
      cbn [deref]; by rewrite bind_Done, access_with, Ea. }
  destruct (race_step H0 V0 items0 _ _ st own rel Hv1 (vi_race _ _ _ _ _ _ _ _ _ _ Hv)) as (st' & own' & rel' & Hi' & Hw').
  { unfold RaceSafe.work, RaceSafe.hist in *; cbn in *; lia. }
  assert (hist s' = hist s ++ l) as Eh by (unfold RaceSafe.hist; by rewrite Ein, app_assoc).
  eexists _, V, L, st', own', rel'; split; [split; [by eapply (virtual_real s s' C V L st own rel st' own' rel' t)| |done]|].
  - intros t' b Hb; rewrite Eh; by apply stands_for_mono, Hs.
  - rewrite Eh, length_app; split; [lia|]; unfold RaceSafe.work, RaceSafe.hist in *; cbn in *; lia.
Qed.

(** ** Runs *)

Lemma bulk_steps n bt bt' : nsteps bulk_step n bt bt' -> forall C V L st own rel,
  bulk_inv (bt_traffic bt) (bt_bulks bt) C V L st own rel ->
  work (bt_traffic bt) st + (Z.of_nat n + 1) * (Z.of_nat (length (hist (bt_traffic bt))) + Z.of_nat n + 1) < 2 ^ 62 ->
  exists C' V' L' st' own' rel', bulk_inv (bt_traffic bt') (bt_bulks bt') C' V' L' st' own' rel' /\
    work (bt_traffic bt') st' + 1 + Z.of_nat (length (hist (bt_traffic bt'))) < 2 ^ 62.
Proof.
  induction 1 as [bt|n bt bt1 bt' Hs _ IH]; intros C V L st own rel Hi Hw; [exists C, V, L, st, own, rel; split; [done|nia]|].
  assert (kept (bt_traffic bt) st (bt_traffic bt1) (bt_bulks bt1)) as (C1 & V1 & L1 & st1 & own1 & rel1 & Hi1 & Hl & Hw1).
  { destruct Hs as [s s' bs Hs|t r max s bs Ht Hm|t b b' s s' bs Ht Hb]; cbn in *.
    - eapply real_kept; [exact Hi|nia|done].
    - destruct Hi as [Hv Hst Hn]; exists C, V, L, st, own, rel; split; [|lia]; split; [done|..].
      + intros t' b [[<- <-]|[Hne Hb]]%lookup_insert_Some; [|by apply Hst].
        destruct (Hst t _ Ht) as [HL _]; by rewrite HL.
      + intros t' [Hb _]%lookup_insert_None; by apply Hn.
    - destruct (bulk_kept s bs C V L st own rel t b Hi ltac:(nia) Ht) as [[r ->]|(b1 & s1 & E & Hk)]; [done|]; rewrite Hb in E; injection E as <- <-; exact Hk. }
  apply (IH C1 V1 L1 st1 own1 rel1 Hi1); nia.
Qed.

Lemma real_safe s bs C V L st own rel :
  bulk_inv s bs C V L st own rel -> work s st < 2 ^ 62 ->
  (forall t c, tr_consumers s !! t = Some c -> (exists r, c = D_idle r) \/ exists s', consumer_step t s = Done s') /\
  (forall got, (exists r, tr_producer s = E_idle r) \/ exists s', producer_step got s = Done s').
Proof.
  intros [Hv _ _] Hw; pose proof (vi_race _ _ _ _ _ _ _ _ _ _ Hv) as Hi; split.
  - intros t c Ht; pose proof (vi_real _ _ _ _ _ _ _ _ _ _ Hv t c Ht) as Hc.
    destruct (consumer_safe H0 V0 items0 _ st own rel t c Hi Hw Hc) as [?|(s' & E & _)]; [by left|right].
    unfold consumer_step in *; cbn [tr_consumers with_consumers] in E; rewrite Hc in E; rewrite Ht; cbn [deref] in *; rewrite bind_Done in *.
    rewrite access_with in E; destruct (dequeue_access c s) as [[c' s1]| | |]; try done; rewrite bind_Done; by eexists.
  - intros got; destruct (producer_safe H0 V0 items0 _ st own rel got Hi Hw) as [?|(s' & E & _)]; [by left|right].
    rewrite producer_with in E; destruct (producer_step got s) as [s1| | |]; try done; by eexists.
Qed.

(** With nobody at work, the threads that bulk dequeues stand for have gone. *)
Lemma all_at_rest s bs C V L st own rel :
  bulk_inv s bs C V L st own rel -> at_rest s -> bulks_at_rest bs -> at_rest (with_consumers C s).
Proof.
  intros [Hv Hs Hn] [Hp Hc] Hb; split; [done|]; intros k c Hk; cbn in Hk.
  assert (forall t, L t = []) as HL.
  { intros t; destruct (bs !! t) as [b|] eqn:Ht; [|by apply Hn]; destruct (Hb t b Ht) as [r ->]; by destruct (Hs t _ Ht) as [? _]. }
  destruct (vi_rest _ _ _ _ _ _ _ _ _ _ Hv k c Hk) as [[c0 Hc0]|[[t Ht]|Hi]].
  - rewrite (vi_real _ _ _ _ _ _ _ _ _ _ Hv k c0 Hc0) in Hk; injection Hk as <-; by eapply Hc.
  - pose proof (vi_at _ _ _ _ _ _ _ _ _ _ Hv t) as Hat; rewrite HL in Hat; inversion Hat as [E|]; rewrite <- E in Ht; by apply elem_of_nil in Ht.
  - destruct c; try done; by eexists.
Qed.

Lemma calm_bulk s T : calm s H0 T items0 -> tr_in s = [] -> tr_out s = [] ->
  tr_dequeueOptimisticCount s = u64 (H0 + V0) -> tr_dequeueOvercommit s = u64 V0 ->
  forall bs, (forall t b, bs !! t = Some b -> b = B_idle []) ->
  bulk_inv s bs (tr_consumers s) (fun _ => []) (fun _ => []) [] [] ∅.
Proof.
  intros Hc Hin Hout Ho Hv bs Hb; split; [split|..]; try done.
  - rewrite with_same; by apply (calm_inv H0 V0 items0 s T).
  - intros t; constructor.
  - intros t; apply NoDup_nil_2.
  - by intros t k ?%elem_of_nil.
  - by intros t t' k ?%elem_of_nil.
  - intros k c Hk; left; by eexists.
  - intros t b Ht; rewrite (Hb t b Ht); split; [done|]; exists O; apply upto_nil; lia.
Qed.
End safe.

(** C8: One thread enqueues while any number of threads dequeue from the same producer,
    one element or many at a time, their accesses to shared variables interleaved in
    any way.  No access of any of them goes wrong, every element comes out at most
    once and is the one enqueued with that index, what a bulk dequeue returns are
    neighbours in the order they were enqueued, and whenever no operation is under way
    the producer is a queue again that has lost its oldest elements.  (The counters
    must not go round while a thread sleeps, and a bulk dequeue asks for at least one
    element.) *)
Theorem bulk_race_safe {A} n (s0 : traffic A) bs0 bt H T items :
  calm s0 H T items -> tr_in s0 = [] -> tr_out s0 = [] -> (forall t b, bs0 !! t = Some b -> b = B_idle []) ->
  (Z.of_nat n + 2) * (Z.of_nat (length items) + Z.of_nat n + 1) < 2 ^ 62 -> nsteps bulk_step n (BulkTraffic s0 bs0) bt ->
  let s := bt_traffic bt in
  ((forall t b, bt_bulks bt !! t = Some b -> (exists r, b = B_idle r) \/ exists b' s', bulk_access b s = Done (b', s')) /\
   (forall t c, tr_consumers s !! t = Some c -> (exists r, c = D_idle r) \/ exists s', consumer_step t s = Done s') /\
   (forall got, (exists r, tr_producer s = E_idle r) \/ exists s', producer_step got s = Done s')) /\
  NoDup (tr_out s).*1 /\
  (forall i x, (i, x) ∈ tr_out s -> exists j, i = u64 (H + Z.of_nat j) /\ (items ++ tr_in s) !! j = Some x) /\
  (forall t xs, bt_bulks bt !! t = Some (B_idle xs) -> exists before after, items ++ tr_in s = before ++ xs ++ after) /\
  (at_rest s -> bulks_at_rest (bt_bulks bt) ->
     let m := length (tr_out s) in
     (tr_out s).*2 ≡ₚ take m (items ++ tr_in s) /\
     calm s (H + Z.of_nat m) (T + Z.of_nat (length (tr_in s))) (drop m (items ++ tr_in s)) /\
     forall k, H / 32 <= k < (H + Z.of_nat m) / 32 -> tr_blocks s !! u64 (32 * k) = None).
Proof.
  intros Hc Hin Hout Hb Hn Hsteps s; destruct (cl_counts _ _ _ _ Hc) as (V & Hopt & Hov).
  pose proof (calm_bulk H V items s0 T Hc Hin Hout Hopt Hov bs0 Hb) as Hi0.
  destruct (bulk_steps H V items n _ bt Hsteps _ _ _ _ _ _ Hi0) as (C & Vs & L & st & own & rel & Hi & Hw).
  { unfold work, hist; cbn; rewrite Hin, app_nil_r; cbn; nia. }
  fold s in Hi, Hw; pose proof (real_safe H V items _ _ _ _ _ _ _ _ Hi ltac:(lia)) as Hreal.
  pose proof (bi_virtual _ _ _ _ _ _ _ _ _ _ _ Hi) as Hv; pose proof (vi_race _ _ _ _ _ _ _ _ _ _ Hv) as Hr.
  destruct (race_outcome _ H V T items st own rel (cl_len _ _ _ _ Hc) Hr ltac:(unfold work, hist in *; cbn in *; lia)) as (H1 & H2 & H3).
  split; [split; [|exact Hreal]|]; [|split; [exact H1|split; [exact H2|split]]].
  - intros t b Ht; destruct (bulk_kept H V items s _ _ _ _ _ _ _ t b Hi Hw Ht) as [?|(b' & s' & ? & _)]; [by left|right; by exists b', s'].
  - intros t xs Ht; destruct (bi_stands _ _ _ _ _ _ _ _ _ _ _ Hi t _ Ht) as (_ & p & l1 & l2 & E & _); by exists l1, l2.
  - intros Hrest Hbr; destruct (H3 (all_at_rest _ _ _ _ _ _ _ _ _ _ _ Hi Hrest Hbr)) as (E & [R1 R2 R3 R4 R5 R6] & Hgone); split; [exact E|]; split; [|exact Hgone].
    split; try done.
Qed.

(** ** A schedule *)

Inductive bulk_turn (A : Type) := Other (e : turn A) | Dequeue_bulk (t : nat) (max : Z) | Bulk (t : nat).
Arguments Other {A} _.
Arguments Dequeue_bulk {A} _ _.
Arguments Bulk {A} _.

Definition do_bulk_turn {A} (bt : bulk_traffic A) (e : bulk_turn A) : option (bulk_traffic A) :=
  let '(BulkTraffic s bs) := bt in
  match e with
  | Other e => s' ← do_turn s e; Some (BulkTraffic s' bs)
  | Dequeue_bulk t max =>
      match bs !! t with
      | Some (B_idle _) => if (0 <? max) && (max <? 2 ^ 64) then Some (BulkTraffic s (<[t := B_tail max]> bs)) else None
      | _ => None
      end
  | Bulk t =>
      b ← bs !! t;
      match bulk_access b s with Done (b', s') => Some (BulkTraffic s' (<[t := b']> bs)) | _ => None end
  end.
Fixpoint do_bulk_turns {A} (bt : bulk_traffic A) (es : list (bulk_turn A)) : option (bulk_traffic A) :=
  match es with [] => Some bt | e :: es => bt' ← do_bulk_turn bt e; do_bulk_turns bt' es end.

Lemma do_bulk_turn_step {A} (bt bt' : bulk_traffic A) e : do_bulk_turn bt e = Some bt' -> bulk_step bt bt'.
Proof.
  destruct bt as [s bs], e as [e|t max|t]; cbn.
  - intros (s' & Hs & [= <-])%bind_Some; apply step_traffic; by eapply do_turn_step.
  - destruct (bs !! t) as [[]|] eqn:E; try done; destruct (_ && _) eqn:Hm; [|done]; intros [= <-].
    apply andb_true_iff in Hm as [?%Z.ltb_lt ?%Z.ltb_lt]; by eapply step_dequeue_bulk.
  - intros (b & Hb & H)%bind_Some; destruct (bulk_access b s) as [[b' s']| | |] eqn:E; try done; injection H as <-; by eapply step_bulk.
Qed.
Lemma do_bulk_turns_steps {A} es : forall (bt bt' : bulk_traffic A),
  do_bulk_turns bt es = Some bt' -> nsteps bulk_step (length es) bt bt'.
Proof.
  induction es as [|e es IH]; cbn; intros bt bt'; [intros [= <-]; constructor|].
  intros (bt1 & H1 & H2)%bind_Some; econstructor; [by eapply do_bulk_turn_step|by apply IH].
Qed.

(** Three elements are enqueued just before the counters go round.  Two threads that
    want two each and one that wants one pass the first check together: the second
    gets one of its two tickets' worth and gives one back, the third gives its back. *)
Definition bulk_race : list (bulk_turn nat) :=
  (Other <$> Enqueue 7%nat :: replicate 4 (Producer (Some (new_block true))) ++
     Enqueue 8%nat :: replicate 2 (Producer None) ++ Enqueue 9%nat :: replicate 2 (Producer None)) ++
  [Dequeue_bulk 0 2; Dequeue_bulk 1 2; Other (Dequeue 0)] ++
  concat (replicate 3 [Bulk 0; Bulk 1; Other (Consumer 0)]) ++
  concat (replicate 2 [Bulk 0; Bulk 1; Other (Consumer 0)]) ++ [Other (Consumer 0); Bulk 1; Bulk 0] ++
  concat (replicate 4 [Bulk 1; Bulk 0]).

Lemma bulk_race_safe_witness :
  exists bt, do_bulk_turns (BulkTraffic before_wrap {[0%nat := B_idle []; 1%nat := B_idle []]}) bulk_race = Some bt /\
    at_rest (bt_traffic bt) /\ bulks_at_rest (bt_bulks bt) /\
    (tr_out (bt_traffic bt)).*2 ≡ₚ take 3 [7; 8; 9]%nat /\
    calm (bt_traffic bt) (2 ^ 64 - 32 + 3) (2 ^ 64 - 32 + 3) [].
Proof.
  destruct (do_bulk_turns _ bulk_race) as [bt|] eqn:E; [|vm_compute in E; discriminate E].
  exists bt; split; [reflexivity|].
  assert (at_rest (bt_traffic bt)) as Hr.
  { apply resting_rest; vm_compute in E; injection E as <-; vm_compute; reflexivity. }
  assert (bulks_at_rest (bt_bulks bt)) as Hb.
  { vm_compute in E; injection E as <-; intros t b Hb; apply elem_of_map_to_list in Hb; vm_compute in Hb.
    repeat (apply elem_of_cons in Hb as [Hb|Hb]; [injection Hb as _ ->; eexists; reflexivity|]); by apply elem_of_nil in Hb. }
  split; [exact Hr|split; [exact Hb|]].
  destruct (bulk_race_safe (length bulk_race) before_wrap {[0%nat := B_idle []; 1%nat := B_idle []]} bt _ _ _ before_wrap_calm) as (_ & _ & _ & _ & H);
    [reflexivity|reflexivity| |reflexivity|by apply do_bulk_turns_steps|].
  - intros t b [[_ <-]|[_ [_ <-]%lookup_singleton_Some]]%lookup_insert_Some; reflexivity.
  - specialize (H Hr Hb); vm_compute in E; injection E as <-; cbn in H; destruct H as (H1 & H2 & _); split; [exact H1|exact H2].
Defined.
