(* ===== verification/RaceProgress.v ===== *)
(** * Progress of consumers

    Whatever the other threads do, an operation that dequeues, one element or many,
    ends after so many of its own steps, as [ProducerRace.v] and [RaceBulk.v] count
    them: an access to a shared variable is a step, and so is, as a whole, finding the
    block of an index or giving back an emptied block.  The first reads several
    variables; the second has a loop of its own in the free list, which is not bounded. *)

From S2P Require Import Prelude BlockPool ImplicitProducer BlockIndex ProducerFifo Threads ProducerRace RaceSafe RaceBulk RaceBulkSafe.

Section left.
Context {A : Type}.
Implicit Types (s : traffic A) (b : bulk_pc A) (bt : bulk_traffic A) (xs : list A).

(** How many elements there are from [index] to [stop]. *)
Definition distance (index stop : Z) : Z := u64 (stop - index).

(** The most accesses a bulk dequeue still has to make: four for an element. *)
Definition bulk_accesses_left b : Z :=
  match b with
  | B_idle _ => 0
  | B_tail max => 4 * max + 7
  | B_overcommit max _ => 4 * max + 6
  | B_optimistic max _ _ => 4 * max + 5
  | B_tickets desiredCount _ => 4 * desiredCount + 4
  | B_recheck desiredCount _ _ => 4 * desiredCount + 3
  | B_excess actualCount _ => 4 * actualCount + 2
  | B_undo _ => 1
  | B_index actualCount => 4 * actualCount + 1
  | B_block stop index _ => 4 * distance index stop
  | B_move stop _ _ index _ => 4 * distance index stop - 1
  | B_count stop _ endIndex _ => 4 * distance endIndex stop + 2
  | B_release stop _ endIndex _ => 4 * distance endIndex stop + 1
  end.

(** Its local variables are in order. *)
Definition bulk_sound b : Prop :=
  match b with
  | B_idle _ | B_undo _ => True
  | B_tail max | B_overcommit max _ | B_optimistic max _ _ => 0 < max
  | B_tickets n _ | B_recheck n _ _ | B_excess n _ | B_index n => 0 < n < 2 ^ 63
  | B_block stop index _ => in_u 64 stop /\ in_u 64 index /\ 0 < distance index stop < 2 ^ 63
  | B_move stop _ endIndex index _ =>
      in_u 64 stop /\ in_u 64 index /\ in_u 64 endIndex /\
      0 < distance index endIndex <= distance index stop /\ distance index stop < 2 ^ 63
  | B_count stop _ endIndex _ | B_release stop _ endIndex _ =>
      in_u 64 stop /\ in_u 64 endIndex /\ distance endIndex stop < 2 ^ 63
  end.

Lemma distance_0 i j : in_u 64 i -> in_u 64 j -> distance i j = 0 -> i = j.
Proof.
  unfold distance, wrap, in_u; intros Hi Hj H; apply Z.mod_divide in H as [q Hq]; [|lia]; nia.
Qed.
Lemma distance_self i : distance i i = 0.
Proof. unfold distance; by rewrite Z.sub_diag. Qed.
Lemma distance_nonneg i j : 0 <= distance i j.
Proof. unfold distance; pose proof (wrap_range 64 (j - i) ltac:(lia)); unfold in_u in *; lia. Qed.
Lemma distance_add i n : 0 <= n < 2 ^ 64 -> distance i (u64 (i + n)) = n.
Proof.
  intros Hn; unfold distance; rewrite <- Z.add_opp_r, wrap_add_l; rewrite <- (wrap_small 64 n Hn) at 2; f_equal; lia.
Qed.
(** What is left after the first [k]. *)
Lemma distance_rest i j k : 0 <= k <= distance i j -> distance (u64 (i + k)) j = distance i j - k.
Proof.
  intros Hk; assert (in_u 64 (distance i j)) as Hd by (apply wrap_range; lia).
  unfold distance at 1; rewrite <- (u64_sub j), (wrap_idemp 64 (i + k)), u64_sub by lia; replace (j - (i + k)) with (j - i + - k) by lia.
  rewrite <- wrap_add_l; apply wrap_small; unfold distance, in_u in *; lia.
Qed.

Lemma circular_positive d : in_u 64 d -> circular_less_than 0 d = true -> 0 < d < 2 ^ 63.
Proof.
  unfold circular_less_than; intros Hd H%Z.ltb_lt; unfold in_u in Hd.
  destruct (Z.eq_dec d 0) as [->|Hn]; [by cbn in H|].
  rewrite <- (u64_add_mult (0 - d) 1), wrap_small in H by (unfold in_u; lia); lia.
Qed.


(** Where [bulk_access] stops in the block. *)
Definition segment_stop (stop index : Z) : Z :=
  let endIndex := u64 (block_base index + BLOCK_SIZE) in
  if circular_less_than stop endIndex then stop else endIndex.

Lemma segment_stop_within stop index :
  in_u 64 stop -> in_u 64 index -> 0 < distance index stop < 2 ^ 63 ->
  in_u 64 (segment_stop stop index) /\ 0 < distance index (segment_stop stop index) <= distance index stop.
Proof.
  intros Hs Hi Hd; set (d := 32 - index mod 32); pose proof (Z.mod_pos_bound index 32 ltac:(lia)) as Hm.
  assert (u64 (block_base index + BLOCK_SIZE) = u64 (index + d)) as E.
  { rewrite block_base_div by done; f_equal; unfold d; rewrite Z.mod_eq by lia; change BLOCK_SIZE with 32; lia. }
  unfold segment_stop; rewrite E; cbv zeta; unfold circular_less_than.
  destruct (Z.ltb_spec (2 ^ 63) (u64 (stop - u64 (index + d)))) as [Hlt|Hge]; [split; [done|lia]|].
  split; [apply wrap_range; lia|]; rewrite distance_add by (unfold d; lia); split; [unfold d; lia|].
  destruct (Z.le_gt_cases d (distance index stop)) as [Hle|Hgt]; [done|exfalso].
  assert (u64 (stop - u64 (index + d)) = 2 ^ 64 - (d - distance index stop)) as E2; [|rewrite E2 in Hge; unfold d in *; lia].
  rewrite <- (u64_sub stop), (wrap_idemp 64 (index + d)), u64_sub by lia.
  replace (stop - (index + d)) with (stop - index + - d) by lia; rewrite <- wrap_add_l; fold (distance index stop).
  rewrite <- (u64_add_mult _ 1), wrap_small; [lia|unfold in_u, d in *; lia].
Qed.

Lemma next_element_left stop start endIndex index xs :
  in_u 64 stop -> in_u 64 index -> in_u 64 endIndex -> distance index endIndex <= distance index stop < 2 ^ 63 ->
  let b := next_element stop start endIndex index xs in
  bulk_sound b /\ bulk_accesses_left b <= 4 * distance index stop + 2 /\
  (index <> endIndex -> bulk_accesses_left b = 4 * distance index stop - 1).
Proof.
  intros Hs Hi He Hd; unfold next_element; destruct (Z.eqb_spec index endIndex) as [<-|Hne]; cbn.
  - split_all; try done; lia.
  - pose proof (distance_nonneg index endIndex); assert (distance index endIndex <> 0) by (intros ?%distance_0; done).
    split_all; try done; lia.
Qed.
Lemma next_segment_left stop endIndex xs :
  in_u 64 stop -> in_u 64 endIndex -> distance endIndex stop < 2 ^ 63 ->
  let b := next_segment stop endIndex xs in bulk_sound b /\ bulk_accesses_left b = 4 * distance endIndex stop.
Proof.
  intros Hs He Hd; unfold next_segment; destruct (Z.eqb_spec endIndex stop) as [->|Hne]; cbn; [by rewrite distance_self|].
  split_all; try done; pose proof (distance_nonneg endIndex stop).
  assert (distance endIndex stop <> 0) by (intros ?%distance_0; done); lia.
Qed.

Lemma distance_next i j : in_u 64 j -> 0 < distance i j -> distance (u64 (i + 1)) j = distance i j - 1.
Proof. intros Hj Hd; apply distance_rest; lia. Qed.

(** Every access brings a bulk dequeue nearer to its end. *)
Lemma bulk_access_left s s' b b' :
  in_u 64 (tr_headIndex s) -> bulk_sound b -> bulk_access b s = Done (b', s') ->
  bulk_sound b' /\ bulk_accesses_left b' < bulk_accesses_left b.
Proof.
  intros Hh Hb; destruct b as [r|max|max tail|max tail ov|d ov|d my ov|a e|d|a|stop i xs|stop st e i xs|stop st e xs|stop st e xs]; cbn [bulk_access]; cbv zeta; try done.
  - intros [= <- <-]; cbn in *; lia.
  - intros [= <- <-]; cbn in *; lia.
  - cbn in Hb; intros [= <- <-]; destruct (circular_less_than 0 _) eqn:Hc; cbn; [|lia].
    apply circular_positive in Hc; [|apply wrap_range; lia]; destruct (Z.ltb_spec (u64 (tail - u64 (tr_dequeueOptimisticCount s - ov))) max); lia.
  - intros [= <- <-]; cbn in *; lia.
  - cbn in Hb; intros [= <- <-]; destruct (circular_less_than 0 _) eqn:Hc; cbn; [|lia].
    apply circular_positive in Hc; [|apply wrap_range; lia].
    destruct (Z.ltb_spec d (u64 (tr_tailIndex s - u64 (my - ov)))); destruct (_ <? d) eqn:E; cbn; lia.
  - intros [= <- <-]; cbn in *; lia.
  - intros [= <- <-]; cbn in *; lia.
  - cbn in Hb; intros [= <- <-]; cbn; rewrite distance_add by lia; split_all; try done; try lia; apply wrap_range; lia.
  - destruct Hb as (Hs & Hi & Hd); intros (blk & _ & [= <- <-])%bind_Done_inv; fold (segment_stop stop i).
    destruct (segment_stop_within stop i Hs Hi Hd) as [He Hde].
    destruct (next_element_left stop i (segment_stop stop i) i xs) as (? & _ & E); [done..|lia|]; split; [done|].
    cbn [bulk_accesses_left]; rewrite E; [lia|]; intros Ei; rewrite <- Ei, distance_self in Hde; lia.
  - destruct Hb as (Hs & Hi & He & Hd & Hlt); intros (blk & _ & (x & _ & [= <- <-])%bind_Done_inv)%bind_Done_inv.
    pose proof (distance_next i e He ltac:(lia)); pose proof (distance_next i stop Hs ltac:(lia)).
    destruct (next_element_left stop st e (u64 (i + 1)) (xs ++ [x])) as (? & Hle & _); [done|apply wrap_range; lia|done|lia|].
    split; [done|]; cbn [bulk_accesses_left]; lia.
  - destruct Hb as (Hs & He & Hd); intros (blk & _ & ([[|] blk'] & _ & [= <- <-])%bind_Done_inv)%bind_Done_inv; [cbn; split_all; try done; lia|].
    destruct (next_segment_left stop e xs Hs He Hd) as [? E]; split; [done|]; cbn [bulk_accesses_left]; lia.
  - destruct Hb as (Hs & He & Hd); intros [= <- <-].
    destruct (next_segment_left stop e xs Hs He Hd) as [? E]; split; [done|]; cbn [bulk_accesses_left]; lia.
Qed.

Lemma bulk_left_nonneg b : bulk_sound b -> 0 <= bulk_accesses_left b.
Proof. destruct b; cbn; intros; try lia; pose proof (distance_nonneg endIndex stop); lia. Qed.
Lemma bulk_done b : bulk_sound b -> bulk_accesses_left b <= 0 -> exists xs, b = B_idle xs.
Proof. destruct b; cbn; intros; try lia; [by eexists|pose proof (distance_nonneg endIndex stop); lia..]. Qed.
End left.

(** ** The other threads *)

Lemma log_many_frame {A} (xs : list A) : forall i s,
  tr_consumers (log_many i xs s) = tr_consumers s /\ tr_headIndex (log_many i xs s) = tr_headIndex s.
Proof. induction xs as [|x xs IH]; intros i s; cbn; [done|]; by destruct (IH (u64 (i + 1)) (log_out i x s)) as [-> ->]. Qed.

(** An access changes no other thread, and [headIndex] stays a 64-bit number. *)
Definition frames {A} (s s' : traffic A) : Prop :=
  tr_consumers s' = tr_consumers s /\ (in_u 64 (tr_headIndex s) -> in_u 64 (tr_headIndex s')).

Lemma bulk_access_frames {A} (s s' : traffic A) b b' : bulk_access b s = Done (b', s') -> frames s s'.
Proof.
  destruct b; cbn [bulk_access]; cbv zeta; try done; try (intros [= <- <-]; done).
  - intros [= <- <-]; split; [done|]; intros _; apply wrap_range; lia.
  - by intros (blk & _ & [= <- <-])%bind_Done_inv.
  - by intros (blk & _ & (x & _ & [= <- <-])%bind_Done_inv)%bind_Done_inv.
  - intros (blk & _ & ([[|] blk'] & _ & [= <- <-])%bind_Done_inv)%bind_Done_inv; unfold frames;
      [edestruct (log_many_frame (removelast (latest (u64 (endIndex - blockStartIndex)) xs))) as [-> ->]|edestruct (log_many_frame (latest (u64 (endIndex - blockStartIndex)) xs)) as [-> ->]]; done.
  - intros [= <- <-]; unfold frames; by destruct (log_many_frame (latest 1 xs) (u64 (endIndex - 1)) (set_tr_blocks (delete (block_base blockStartIndex) (tr_blocks s)) s)) as [-> ->].
Qed.
Lemma dequeue_access_frames {A} (s s' : traffic A) c c' : dequeue_access c s = Done (c', s') -> frames s s'.
Proof.
  destruct c; cbn [dequeue_access]; try done; try (intros [= <- <-]; done).
  - intros [= <- <-]; split; [done|]; intros _; apply wrap_range; lia.
  - by intros (blk & _ & [= <- <-])%bind_Done_inv.
  - by intros (blk & _ & (x & _ & [= <- <-])%bind_Done_inv)%bind_Done_inv.
  - by intros (blk & _ & ([[|] blk'] & _ & [= <- <-])%bind_Done_inv)%bind_Done_inv.
Qed.
Lemma do_turn_head {A} (s s' : traffic A) e :
  do_turn s e = Some s' -> in_u 64 (tr_headIndex s) -> in_u 64 (tr_headIndex s').
Proof.
  destruct e as [x|got|t|t]; cbn.
  - by destruct (tr_producer s); intros [= <-].
  - unfold producer_step; destruct (tr_producer s) as [r|x|x|x|x]; try done; try (by intros [= <-]).
    + by destruct (check _); rewrite ?bind_Done; intros [= <-].
    + by destruct got; intros [= <-].
    + by destruct (tr_blocks s !! _); cbn [deref]; rewrite ?bind_Done; intros [= <-].
  - by destruct (tr_consumers s !! t) as [[]|]; intros [= <-].
  - destruct (consumer_step t s) as [s1| | |] eqn:E; try done; intros [= <-].
    apply bind_Done_inv in E as (c & _ & ([c' s2] & [_ H]%dequeue_access_frames & [= <-])%bind_Done_inv); exact H.
Qed.

(** ** Wait-freedom *)

Definition is_bulk {A} (t : nat) (e : bulk_turn A) : bool := match e with Bulk t' => Nat.eqb t' t | _ => false end.
Definition is_single {A} (t : nat) (e : bulk_turn A) : bool := match e with Other (Consumer t') => Nat.eqb t' t | _ => false end.

Lemma do_bulk_turn_head {A} (bt bt' : bulk_traffic A) e :
  do_bulk_turn bt e = Some bt' -> in_u 64 (tr_headIndex (bt_traffic bt)) -> in_u 64 (tr_headIndex (bt_traffic bt')).
Proof.
  destruct bt as [s bs], e as [e|t max|t]; cbn.
  - intros (s' & Hs & [= <-])%bind_Some; by apply do_turn_head with e.
  - destruct (bs !! t) as [[]|]; try done; destruct (_ && _); [by intros [= <-]|done].
  - intros (b & _ & H)%bind_Some; destruct (bulk_access b s) as [[b' s']| | |] eqn:E; try done; injection H as <-; by apply bulk_access_frames in E as [_ ?].
Qed.

(** What a turn does to thread [t] that dequeues many: an access of its own, or nothing. *)
Lemma do_bulk_turn_bulk {A} (bt bt' : bulk_traffic A) e t b :
  do_bulk_turn bt e = Some bt' -> bt_bulks bt !! t = Some b -> (forall max, e <> Dequeue_bulk t max) ->
  if is_bulk t e then exists b' s', bulk_access b (bt_traffic bt) = Done (b', s') /\ bt_bulks bt' !! t = Some b' else bt_bulks bt' !! t = Some b.
Proof.
  destruct bt as [s bs], e as [e|t' max|t']; cbn; intros H Hb Hne.
  - apply bind_Some in H as (s' & _ & [= <-]); exact Hb.
  - destruct (bs !! t') as [[]|]; try done; destruct (_ && _); [|done]; injection H as <-; cbn.
    rewrite lookup_insert_ne; [done|intros ->; by eapply Hne].
  - apply bind_Some in H as (b1 & Hb1 & H); destruct (bulk_access b1 s) as [[b' s']| | |] eqn:E; try done; injection H as <-; cbn.
    destruct (Nat.eqb_spec t' t) as [->|Ht]; [|by rewrite lookup_insert_ne].
    rewrite Hb in Hb1; injection Hb1 as <-; exists b', s'; split; [done|apply lookup_insert_eq].
Qed.
(** And to a thread that dequeues one element. *)
Lemma do_bulk_turn_single {A} (bt bt' : bulk_traffic A) e t c :
  do_bulk_turn bt e = Some bt' -> tr_consumers (bt_traffic bt) !! t = Some c -> e <> Other (Dequeue t) ->
  exists c', tr_consumers (bt_traffic bt') !! t = Some c' /\
    if is_single t e then (accesses_left c' < accesses_left c)%nat else c' = c.
Proof.
  destruct bt as [s bs], e as [e|t' max|t']; cbn [do_bulk_turn bt_traffic is_single]; intros H Hc Hne.
  - apply bind_Some in H as (s' & Hs & [= <-]); cbn [bt_traffic].
    destruct (match e with Consumer t' => Nat.eqb t' t | _ => false end) eqn:Hs1.
    + destruct e as [|got|t'|t']; try done; apply Nat.eqb_eq in Hs1 as ->; cbn in Hs; destruct (consumer_step t s) as [s2| | |] eqn:E; try done; injection Hs as <-.
      destruct (consumer_step_left s s2 t c Hc E) as (c1 & -> & Hlt); exists c1; split; [apply lookup_insert_eq|done].
    + exists c; rewrite (do_turn_other s s' e t Hs); [done|].
      destruct e; try done; [congruence|by apply Nat.eqb_neq].
  - destruct (bs !! t') as [[]|]; try done; destruct (_ && _); [|done]; injection H as <-; by exists c.
  - apply bind_Some in H as (b1 & _ & H); destruct (bulk_access b1 s) as [[b' s']| | |] eqn:E; try done; injection H as <-.
    apply bulk_access_frames in E as [E _]; exists c; cbn; by rewrite E.
Qed.

Lemma bulk_steps_bounded {A} (es : list (bulk_turn A)) t : forall bt bt' b,
  in_u 64 (tr_headIndex (bt_traffic bt)) -> bt_bulks bt !! t = Some b -> bulk_sound b -> do_bulk_turns bt es = Some bt' ->
  Forall (fun e => forall max, e <> Dequeue_bulk t max) es ->
  exists b', bt_bulks bt' !! t = Some b' /\ bulk_sound b' /\ zcount (is_bulk t) es + bulk_accesses_left b' <= bulk_accesses_left b.
Proof.
  induction es as [|e es IH]; intros bt bt' b Hh Hb Hs; cbn [do_bulk_turns].
  { intros [= <-] _; exists b; by cbn. }
  intros (bt1 & He & Hes)%bind_Some [Hd Hall]%Forall_cons.
  pose proof (do_bulk_turn_head bt bt1 e He Hh) as Hh1; pose proof (do_bulk_turn_bulk bt bt1 e t b He Hb Hd) as Hstep.
  cbn [zcount]; destruct (is_bulk t e).
  - destruct Hstep as (b1 & s1 & E & Hb1); destruct (bulk_access_left _ _ _ _ Hh Hs E) as [Hs1 Hlt].
    destruct (IH bt1 bt' b1 Hh1 Hb1 Hs1 Hes Hall) as (b' & ? & ? & ?); exists b'; split_all; try done; cbn [Z.b2z]; lia.
  - destruct (IH bt1 bt' b Hh1 Hstep Hs Hes Hall) as (b' & ? & ? & ?); by exists b'.
Qed.
Lemma single_steps_bounded {A} (es : list (bulk_turn A)) t : forall bt bt' c,
  tr_consumers (bt_traffic bt) !! t = Some c -> do_bulk_turns bt es = Some bt' -> Forall (fun e => e <> Other (Dequeue t)) es ->
  exists c', tr_consumers (bt_traffic bt') !! t = Some c' /\ zcount (is_single t) es + Z.of_nat (accesses_left c') <= Z.of_nat (accesses_left c).
Proof.
  induction es as [|e es IH]; intros bt bt' c Hc; cbn [do_bulk_turns].
  { intros [= <-] _; exists c; by cbn. }
  intros (bt1 & He & Hes)%bind_Some [Hd Hall]%Forall_cons.
  destruct (do_bulk_turn_single bt bt1 e t c He Hc Hd) as (c1 & Hc1 & Hstep).
  destruct (IH bt1 bt' c1 Hc1 Hes Hall) as (c' & ? & ?); exists c'; split; [done|]; cbn [zcount].
  destruct (is_single t e); [|subst c1]; cbn [Z.b2z]; lia.
Qed.

(** C27: A dequeue never has to start over: whatever the enqueuing thread and the other
    consumers do in between, it ends after at most ten steps of its own, and a bulk
    dequeue of at most [max] elements after four for each and seven more; a thread that
    has made so many is done.  A step is an access to a shared variable, or finding the
    block of an index, or giving back an emptied block; the last two count as one each,
    so this is no bound on the machine's accesses: the free list a block is given back
    to retries for as long as other threads get in between. *)
Theorem dequeue_steps_bounded {A} (es : list (bulk_turn A)) bt bt' :
  in_u 64 (tr_headIndex (bt_traffic bt)) -> do_bulk_turns bt es = Some bt' ->
  (forall t, tr_consumers (bt_traffic bt) !! t = Some D_tail -> Forall (fun e => e <> Other (Dequeue t)) es ->
     zcount (is_single t) es <= 10 /\
     (zcount (is_single t) es = 10 -> exists r, tr_consumers (bt_traffic bt') !! t = Some (D_idle r))) /\
  (forall t max, bt_bulks bt !! t = Some (B_tail max) -> 0 < max -> Forall (fun e => forall max', e <> Dequeue_bulk t max') es ->
     zcount (is_bulk t) es <= 4 * max + 7 /\
     (zcount (is_bulk t) es = 4 * max + 7 -> exists xs, bt_bulks bt' !! t = Some (B_idle xs))).
Proof.
  intros Hh Hrun; split.
  - intros t Ht Hall; destruct (single_steps_bounded es t bt bt' D_tail Ht Hrun Hall) as (c' & Hc' & Hle); cbn in Hle.
    split; [lia|]; intros E; assert (accesses_left c' = 0%nat) as H0 by lia; destruct c'; try done; by eexists.
  - intros t max Ht Hm Hall; destruct (bulk_steps_bounded es t bt bt' _ Hh Ht Hm Hrun Hall) as (b' & Hb' & Hs & Hle); cbn in Hle.
    pose proof (bulk_left_nonneg b' Hs); split; [lia|]; intros E.
    destruct (bulk_done b' Hs ltac:(lia)) as [xs ->]; by exists xs.
Qed.

Lemma dequeue_steps_bounded_witness :
  let bt0 := BulkTraffic before_wrap {[0%nat := B_idle []; 1%nat := B_idle []]} in
  exists bt bt', do_bulk_turns bt0 (take 14 bulk_race) = Some bt /\ do_bulk_turns bt (drop 14 bulk_race) = Some bt' /\
    zcount (is_single 0) (drop 14 bulk_race) <= 10 /\ zcount (is_bulk 1) (drop 14 bulk_race) <= 15.
Proof.
  intros bt0; destruct (do_bulk_turns bt0 (take 14 bulk_race)) as [bt|] eqn:E; [|vm_compute in E; discriminate E].
  assert (exists bt', do_bulk_turns bt (drop 14 bulk_race) = Some bt') as (bt' & E').
  { vm_compute in E; injection E as <-; eexists; vm_compute; reflexivity. }
  exists bt, bt'; split; [reflexivity|split; [exact E'|]].
  assert (in_u 64 (tr_headIndex (bt_traffic bt))) as Hh by (vm_compute in E; injection E as <-; vm_compute; split; congruence).
  destruct (dequeue_steps_bounded (drop 14 bulk_race) bt bt' Hh E') as [H1 H2]; vm_compute in E; injection E as <-; clear E'; split.
  - apply (H1 0%nat); [reflexivity|cbn; repeat (apply Forall_cons; split; [discriminate|]); apply Forall_nil; exact I].
  - apply (H2 1%nat 2); [reflexivity|lia|cbn; repeat (apply Forall_cons; split; [discriminate|]); apply Forall_nil; exact I].
Defined.
