(* ===== verification/ProducerHash.v ===== *)
(** * Inside the concurrent queue: which producer a thread uses

    [get_or_add_implicit_producer] finds the calling thread's producer in a chain
    of open-addressing hash tables, newest first.  A table that would become half
    full gets a larger one in front of it; entries move to the newest table when
    they are next looked up.  Thread identifiers are addresses of a thread-local
    variable: non-zero 64-bit numbers.  As built here there are no thread-exit
    callbacks, so entries are never removed. *)

From S2P Require Import Prelude BlockPool ImplicitProducer BlockIndex.

Definition invalid_thread_id : Z := 0.
Definition INITIAL_IMPLICIT_PRODUCER_HASH_SIZE : Z := 32.

(** [_hash_32_or_64<1>::hash], the finalizer of MurmurHash3. *)
Definition xorshift33 (h : Z) : Z := Z.lxor h (Z.shiftr h 33).
Definition hash (h : Z) : Z :=
  let h := xorshift33 h in
  let h := u64 (h * 0xff51afd7ed558ccd) in
  let h := xorshift33 h in
  let h := u64 (h * 0xc4ceb9fe1a85ec53) in
  xorshift33 h.
Definition hash_thread_id (id : Z) : Z := hash id.

(** [kvp_value] is a producer's number in the order of creation, [None] a null
    pointer. *)
Record ImplicitProducerKVP := { kvp_key : Z; kvp_value : option nat }.
(** The chain of [prev] pointers is a list of tables. *)
Record ImplicitProducerHash := { hash_capacity : Z; hash_entries : list ImplicitProducerKVP }.

Definition new_hash (capacity : Z) : ImplicitProducerHash :=
  {| hash_capacity := capacity;
     hash_entries := replicate (Z.to_nat capacity) {| kvp_key := invalid_thread_id; kvp_value := None |} |}.
Definition populate_initial_implicit_producer_hash : list ImplicitProducerHash :=
  [new_hash INITIAL_IMPLICIT_PRODUCER_HASH_SIZE].

(** [index &= hash->capacity - 1]. *)
Definition mask (h : ImplicitProducerHash) (index : Z) : Z := Z.land index (u64 (hash_capacity h - 1)).

(** Looking for [id] in one table: its value, or [None] at a free entry. *)
Fixpoint probe_find (fuel : nat) (h : ImplicitProducerHash) (id index : Z) : run (option (option nat)) :=
  match fuel with
  | O => Blocked
  | S fuel =>
      let index := mask h index in
      e ← deref (hash_entries h !! Z.to_nat index);
      if kvp_key e =? id then mret (Some (kvp_value e))
      else if kvp_key e =? invalid_thread_id then mret None
      else probe_find fuel h id (u64 (index + 1))
  end.

(** Entering [id] at the first free entry. *)
Fixpoint probe_insert (fuel : nat) (h : ImplicitProducerHash) (id : Z) (value : option nat) (index : Z)
  : run ImplicitProducerHash :=
  match fuel with
  | O => Blocked
  | S fuel =>
      let index := mask h index in
      e ← deref (hash_entries h !! Z.to_nat index);
      if kvp_key e =? invalid_thread_id then
        mret {| hash_capacity := hash_capacity h;
                hash_entries := <[Z.to_nat index := {| kvp_key := id; kvp_value := value |}]> (hash_entries h) |}
      else probe_insert fuel h id value (u64 (index + 1))
  end.
Definition insert_main (id : Z) (value : option nat) (hs : list ImplicitProducerHash)
  : run (list ImplicitProducerHash) :=
  h ← deref (head hs);
  h ← probe_insert (Z.to_nat (hash_capacity h)) h id value (hash_thread_id id);
  mret (h :: tail hs).

(** The loop over the tables: how many were passed, and the value. *)
Fixpoint find_producer (hs : list ImplicitProducerHash) (id : Z) : run (option (nat * option nat)) :=
  match hs with
  | [] => mret None
  | h :: hs =>
      r ← probe_find (Z.to_nat (hash_capacity h)) h id (hash_thread_id id);
      match r with
      | Some v => mret (Some (O, v))
      | None => r ← find_producer hs id; mret (prod_map S (fun v => v) <$> r)
      end
  end.

(** [while (newCount >= (newCapacity >> 1)) newCapacity <<= 1]. *)
Fixpoint grow_capacity (fuel : nat) (newCount newCapacity : Z) : run Z :=
  if Z.shiftr newCapacity 1 <=? newCount then
    match fuel with O => Blocked | S fuel => grow_capacity fuel newCount (u64 (Z.shiftl newCapacity 1)) end
  else mret newCapacity.

(** ** The hash function loses nothing *)

Definition unhash (h : Z) : Z :=
  let h := xorshift33 h in
  let h := u64 (h * 0x9cb4b2f8129337db) in
  let h := xorshift33 h in
  let h := u64 (h * 0x4f74430c22a54005) in
  xorshift33 h.

Lemma xorshift33_range h : in_u 64 h -> in_u 64 (xorshift33 h).
Proof.
  unfold in_u, xorshift33; intros Hh; destruct (decide (h = 0)) as [->|]; [done|].
  assert (0 <= Z.shiftr h 33) as Hs by (apply Z.shiftr_nonneg; lia).
  assert (0 <= Z.lxor h (Z.shiftr h 33)) by (apply Z.lxor_nonneg; lia).
  split; [done|]; destruct (decide (Z.lxor h (Z.shiftr h 33) = 0)) as [->|]; [lia|].
  apply Z.log2_lt_pow2; [lia|]; pose proof (Z.log2_lxor h (Z.shiftr h 33) ltac:(lia) Hs).
  pose proof (Z.log2_shiftr h 33 ltac:(lia)); assert (Z.log2 h < 64) by (apply Z.log2_lt_pow2; lia); lia.
Qed.

Lemma xorshift33_invol h : in_u 64 h -> xorshift33 (xorshift33 h) = h.
Proof.
  intros Hh; apply Z.bits_inj'; intros n Hn; unfold xorshift33.
  rewrite !Z.lxor_spec, !Z.shiftr_spec, !Z.lxor_spec, !Z.shiftr_spec by lia.
  replace (Z.testbit h (n + 33 + 33)) with false.
  - destruct (Z.testbit h n), (Z.testbit h (n + 33)); done.
  - symmetry; apply (Z.bits_above_log2 h); unfold in_u in *; [lia|].
    destruct (decide (h = 0)) as [->|]; [cbn; lia|].
    assert (Z.log2 h < 64) by (apply Z.log2_lt_pow2; lia); lia.
Qed.

Lemma mul_inverse a b h : in_u 64 h -> (a * b) mod 2 ^ 64 = 1 -> u64 (u64 (h * a) * b) = h.
Proof.
  intros Hh Hab; unfold wrap; rewrite Z.mul_mod_idemp_l by lia.
  rewrite <- Z.mul_assoc, <- Z.mul_mod_idemp_r, Hab, Z.mul_1_r by lia; by apply Z.mod_small.
Qed.

Lemma unhash_hash h : in_u 64 h -> unhash (hash h) = h.
Proof.
  intros Hh; unfold unhash, hash; assert (forall z, in_u 64 (u64 z)) as Hu by (intros; apply wrap_range; lia).
  rewrite xorshift33_invol by done; rewrite mul_inverse by (done || by apply xorshift33_range).
  rewrite xorshift33_invol by done; rewrite mul_inverse by (done || by apply xorshift33_range).
  by apply xorshift33_invol.
Qed.

Lemma hash_range id : in_u 64 (hash_thread_id id).
Proof. apply xorshift33_range, wrap_range; lia. Qed.

(** ** One table *)

(** The entry met after [d] steps when looking for [id]. *)
Definition probe (h : ImplicitProducerHash) (id d : Z) : option ImplicitProducerKVP :=
  hash_entries h !! Z.to_nat ((hash_thread_id id + d) mod hash_capacity h).

(** A key stands where probing from its hash reaches it before a free entry, and
    in one place only; one entry is free. *)
Record keys_ok (h : ImplicitProducerHash) : Prop := {
  to_capacity : exists c, 1 <= c <= 62 /\ hash_capacity h = 2 ^ c;
  to_length : length (hash_entries h) = Z.to_nat (hash_capacity h);
  to_unique : forall j j' e e', hash_entries h !! j = Some e -> hash_entries h !! j' = Some e' ->
    kvp_key e = kvp_key e' -> kvp_key e <> 0 -> j = j';
  to_reach : forall j e, hash_entries h !! j = Some e -> kvp_key e <> 0 ->
    exists d, 0 <= d < hash_capacity h /\ probe h (kvp_key e) d = Some e /\
      forall d', 0 <= d' < d -> exists e', probe h (kvp_key e) d' = Some e' /\ kvp_key e' <> 0;
  to_free : exists j e, hash_entries h !! j = Some e /\ kvp_key e = 0 }.

(** [reg] maps registered threads to their producers. *)
Record table_ok (reg : gmap Z nat) (h : ImplicitProducerHash) : Prop := {
  to_keys : keys_ok h;
  to_reg : forall j e, hash_entries h !! j = Some e -> kvp_key e <> 0 ->
    exists k, reg !! kvp_key e = Some k /\ kvp_value e = Some k }.

Definition has (h : ImplicitProducerHash) (id : Z) : Prop :=
  exists j e, hash_entries h !! j = Some e /\ kvp_key e = id.

Section table.
Context (h : ImplicitProducerHash) (Hok : keys_ok h) (id : Z) (Hid : id <> 0).

Lemma cap_bounds : 2 <= hash_capacity h <= 2 ^ 62.
Proof.
  destruct (to_capacity _ Hok) as (c & Hc & ->); split.
  - change 2 with (2 ^ 1) at 1; apply Z.pow_le_mono_r; lia.
  - apply Z.pow_le_mono_r; lia.
Qed.

Lemma mask_mod i : 0 <= i -> mask h i = i mod hash_capacity h.
Proof.
  intros Hi; pose proof cap_bounds; unfold mask; rewrite wrap_small by (unfold in_u; lia).
  destruct (to_capacity _ Hok) as (c & Hc & ->).
  replace (2 ^ c - 1) with (Z.ones c) by (rewrite Z.ones_equiv; lia); apply Z.land_ones; lia.
Qed.

Lemma probe_exists k d : exists e, probe h k d = Some e.
Proof.
  pose proof cap_bounds; unfold probe; apply lookup_lt_is_Some_2; rewrite (to_length _ Hok).
  pose proof (Z.mod_pos_bound (hash_thread_id k + d) (hash_capacity h)); lia.
Qed.

(** The free entry is met within one round. *)
Lemma probe_free k : exists d e, 0 <= d < hash_capacity h /\ probe h k d = Some e /\ kvp_key e = 0.
Proof.
  pose proof cap_bounds; destruct (to_free _ Hok) as (j & e & Hj & He).
  pose proof (lookup_lt_Some _ _ _ Hj) as Hlt; rewrite (to_length _ Hok) in Hlt.
  exists ((Z.of_nat j - hash_thread_id k) mod hash_capacity h), e; split; [apply Z.mod_pos_bound; lia|].
  split; [|done]; unfold probe; rewrite Zplus_mod_idemp_r.
  replace (hash_thread_id k + (Z.of_nat j - hash_thread_id k)) with (Z.of_nat j) by lia.
  rewrite Z.mod_small, Nat2Z.id by lia; done.
Qed.

(** A present key is met before any free entry. *)
Lemma probe_present d e :
  has h id -> 0 <= d < hash_capacity h -> probe h id d = Some e -> kvp_key e = 0 ->
  exists d' e', 0 <= d' < d /\ probe h id d' = Some e' /\ kvp_key e' = id.
Proof.
  intros (j & ei & Hj & Hi) Hd He Hz; destruct (to_reach _ Hok j ei Hj) as (d1 & Hd1 & Hp1 & Hall); [lia|].
  rewrite Hi in *; exists d1, ei; split_all; [lia| |done|done].
  destruct (decide (d1 < d)); [done|]; destruct (decide (d1 = d)) as [->|]; [congruence|].
  destruct (Hall d) as (e' & He' & ?); [lia|]; congruence.
Qed.

(** The two loops, started after [d] steps that met neither the key nor a free entry. *)
Lemma probe_step index d :
  0 <= index -> index mod hash_capacity h = (hash_thread_id id + d) mod hash_capacity h ->
  exists e, probe h id d = Some e /\ hash_entries h !! Z.to_nat (mask h index) = Some e /\
    0 <= u64 (mask h index + 1) /\
    u64 (mask h index + 1) mod hash_capacity h = (hash_thread_id id + (d + 1)) mod hash_capacity h.
Proof.
  intros Hi Hm; pose proof cap_bounds; destruct (probe_exists id d) as [e He]; exists e; rewrite mask_mod by done.
  split; [done|]; split; [rewrite Hm; exact He|]; pose proof (Z.mod_pos_bound index (hash_capacity h)).
  rewrite wrap_small by (unfold in_u; lia); split; [lia|].
  rewrite Hm, Z.add_mod_idemp_l by lia; f_equal; lia.
Qed.

Lemma probe_find_run fuel : forall index d,
  0 <= index -> index mod hash_capacity h = (hash_thread_id id + d) mod hash_capacity h ->
  0 <= d -> (forall d' e, 0 <= d' < d -> probe h id d' = Some e -> kvp_key e <> 0 /\ kvp_key e <> id) ->
  hash_capacity h <= d + Z.of_nat fuel -> d < hash_capacity h ->
  exists r, probe_find fuel h id index = Done r /\
    match r with
    | Some v => exists j e, hash_entries h !! j = Some e /\ kvp_key e = id /\ kvp_value e = v
    | None => ~ has h id
    end.
Proof.
  induction fuel as [|fuel IH]; intros index d Hi Hm Hd Hbefore Hf Hlt; [lia|]; cbn [probe_find].
  destruct (probe_step index d Hi Hm) as (e & He & -> & Hi' & Hm'); cbn [deref]; rewrite bind_Done.
  destruct (Z.eqb_spec (kvp_key e) id) as [E|E].
  { eexists; split; [reflexivity|]; unfold probe in He; by eexists _, _. }
  unfold invalid_thread_id; destruct (Z.eqb_spec (kvp_key e) 0) as [E0|E0].
  { eexists; split; [reflexivity|]; cbn; intros Hh.
    destruct (probe_present d e Hh ltac:(lia) He E0) as (d1 & e1 & Hd1 & He1 & Hk1).
    by destruct (Hbefore d1 e1 Hd1 He1). }
  assert (d + 1 < hash_capacity h) as Hnext.
  { destruct (probe_free id) as (d0 & e0 & Hd0 & He0 & Hz0).
    destruct (decide (d0 < d)); [by destruct (Hbefore d0 e0 ltac:(lia) He0)|].
    destruct (decide (d0 = d)) as [->|]; [congruence|lia]. }
  apply (IH _ (d + 1)); try done; try lia.
  intros d' e' Hd' He'; destruct (decide (d' = d)) as [->|]; [by assert (e' = e) as -> by congruence|].
  apply (Hbefore d'); [lia|done].
Qed.

Lemma probe_insert_run v fuel : forall index d,
  0 <= index -> index mod hash_capacity h = (hash_thread_id id + d) mod hash_capacity h ->
  0 <= d -> (forall d' e, 0 <= d' < d -> probe h id d' = Some e -> kvp_key e <> 0) ->
  hash_capacity h <= d + Z.of_nat fuel -> d < hash_capacity h ->
  exists d1 e1, 0 <= d1 < hash_capacity h /\ probe h id d1 = Some e1 /\ kvp_key e1 = 0 /\
    (forall d' e, 0 <= d' < d1 -> probe h id d' = Some e -> kvp_key e <> 0) /\
    probe_insert fuel h id v index =
      Done {| hash_capacity := hash_capacity h;
              hash_entries := <[Z.to_nat ((hash_thread_id id + d1) mod hash_capacity h) :=
                                {| kvp_key := id; kvp_value := v |}]> (hash_entries h) |}.
Proof.
  induction fuel as [|fuel IH]; intros index d Hi Hm Hd Hbefore Hf Hlt; [lia|]; cbn [probe_insert].
  destruct (probe_step index d Hi Hm) as (e & He & -> & Hi' & Hm'); cbn [deref]; rewrite bind_Done.
  unfold invalid_thread_id; destruct (Z.eqb_spec (kvp_key e) 0) as [E0|E0].
  { exists d, e; split_all; try done; by rewrite mask_mod, Hm. }
  assert (d + 1 < hash_capacity h) as Hnext.
  { destruct (probe_free id) as (d0 & e0 & Hd0 & He0 & Hz0).
    destruct (decide (d0 < d)); [by destruct (Hbefore d0 e0 ltac:(lia) He0)|].
    destruct (decide (d0 = d)) as [->|]; [congruence|lia]. }
  apply (IH _ (d + 1)); try done; try lia.
  intros d' e' Hd' He'; destruct (decide (d' = d)) as [->|]; [by assert (e' = e) as -> by congruence|].
  apply (Hbefore d'); [lia|done].
Qed.
End table.

Lemma probe_find_ok reg h id :
  table_ok reg h -> id <> 0 ->
  exists r, probe_find (Z.to_nat (hash_capacity h)) h id (hash_thread_id id) = Done r /\
    match r with Some v => has h id /\ v = reg !! id | None => ~ has h id end.
Proof.
  intros [Hok Hreg] Hid; pose proof (cap_bounds h Hok).
  destruct (probe_find_run h Hok id Hid (Z.to_nat (hash_capacity h)) (hash_thread_id id) 0)
    as (r & Hr & Hres); try lia; [apply hash_range|by rewrite Z.add_0_r|].
  exists r; split; [done|]; destruct r as [v|]; [|done]; destruct Hres as (j & e & Hj & He & Hv).
  split; [by exists j, e|]; destruct (Hreg j e Hj) as (k & Hk & Hk'); congruence.
Qed.

(** Distinct keys among fewer numbers than there are entries: one entry is free. *)
Lemma free_entry (ids : gset Z) (es : list ImplicitProducerKVP) :
  (forall j e, es !! j = Some e -> kvp_key e <> 0 -> kvp_key e ∈ ids) ->
  (forall j j' e e', es !! j = Some e -> es !! j' = Some e' ->
    kvp_key e = kvp_key e' -> kvp_key e <> 0 -> j = j') ->
  (size ids < length es)%nat -> exists j e, es !! j = Some e /\ kvp_key e = 0.
Proof.
  intros Hreg Huniq Hlt; destruct (decide (Exists (fun e => kvp_key e = 0) es)) as [Hex|Hno].
  { apply Exists_exists in Hex as (e & Hin & He); apply list_elem_of_lookup in Hin as [j Hj]; eauto. }
  exfalso; assert (forall j e, es !! j = Some e -> kvp_key e <> 0) as Hnz.
  { intros j e Hj Hz; apply Hno, Exists_exists; exists e; split; [by eapply list_elem_of_lookup_2|done]. }
  assert (NoDup (map kvp_key es)) as Hnd.
  { apply NoDup_alt; intros i j x Hi Hj; rewrite list_lookup_fmap in Hi, Hj.
    apply fmap_Some in Hi as (e & He & ->); apply fmap_Some in Hj as (e' & He' & Hx).
    eapply Huniq; [exact He|exact He'|done|by eapply Hnz]. }
  assert (length (map kvp_key es) <= size ids)%nat as Hle; [|rewrite length_map in Hle; lia].
  rewrite <- (size_list_to_set (C := gset Z)) by done; apply subseteq_size; intros x Hx.
  apply elem_of_list_to_set, list_elem_of_fmap in Hx as (e & -> & He).
  apply list_elem_of_lookup in He as [j Hj]; eauto.
Qed.

Lemma shiftr1 z : Z.shiftr z 1 = z / 2.
Proof. by rewrite Z.shiftr_div_pow2 by lia. Qed.

Lemma capacity_even h : keys_ok h -> hash_capacity h mod 2 = 0.
Proof.
  intros Hok; destruct (to_capacity _ Hok) as (c & Hc & ->); replace c with (c - 1 + 1) by lia.
  rewrite Z.pow_add_r by lia; apply Z.mod_mul; lia.
Qed.

(** ** Entering a key at a free entry *)

Definition enter (pos : nat) (e : ImplicitProducerKVP) (h : ImplicitProducerHash) : ImplicitProducerHash :=
  {| hash_capacity := hash_capacity h; hash_entries := <[pos := e]> (hash_entries h) |}.

Section enter.
Context (h : ImplicitProducerHash) (Hok : keys_ok h) (id : Z) (Hid : id <> 0) (Hnot : ~ has h id).
Context (v : option nat) (pos : nat) (e1 : ImplicitProducerKVP).
Context (Hpos : hash_entries h !! pos = Some e1) (Hz1 : kvp_key e1 = 0).

Local Abbreviation e_new := {| kvp_key := id; kvp_value := v |}.
Local Abbreviation h' := (enter pos e_new h).

Lemma enter_new : hash_entries h' !! pos = Some e_new.
Proof. apply list_lookup_insert_eq; by eapply lookup_lt_Some. Qed.
Lemma enter_other j : j <> pos -> hash_entries h' !! j = hash_entries h !! j.
Proof. intros Hj; cbn; by apply list_lookup_insert_ne. Qed.

Lemma enter_cases j e :
  hash_entries h' !! j = Some e -> kvp_key e <> 0 ->
  (j = pos /\ e = e_new) \/ (j <> pos /\ hash_entries h !! j = Some e /\ kvp_key e <> id).
Proof using Hpos Hnot.
  intros Hj He; destruct (decide (j = pos)) as [->|Hne].
  { left; split; [done|]; rewrite enter_new in Hj; congruence. }
  rewrite enter_other in Hj by done; right; split_all; try done; intros E; apply Hnot; by exists j, e.
Qed.

Lemma enter_probe x d e : probe h x d = Some e -> kvp_key e <> 0 -> probe h' x d = Some e.
Proof using Hpos Hz1.
  unfold probe; intros He Hne; cbn [hash_capacity enter]; rewrite enter_other; [done|]; intros E.
  rewrite E in He; congruence.
Qed.

Lemma enter_has x : x <> 0 -> has h' x <-> x = id \/ has h x.
Proof using Hpos Hz1 Hnot.
  intros Hx; split.
  - intros (j & e & Hj & He); destruct (enter_cases j e Hj ltac:(congruence)) as [[_ ->]|(_ & Hj' & _)];
      [by left|right; by exists j, e].
  - intros [->|(j & e & Hj & He)]; [exists pos, e_new; split; [apply enter_new|done]|].
    exists j, e; rewrite enter_other; [done|]; intros ->; congruence.
Qed.

Lemma enter_unique j j' e e' :
  hash_entries h' !! j = Some e -> hash_entries h' !! j' = Some e' ->
  kvp_key e = kvp_key e' -> kvp_key e <> 0 -> j = j'.
Proof using Hok Hpos Hnot.
  intros Hj Hj' E Hne; destruct (enter_cases j e Hj Hne) as [[-> ->]|(_ & Hj2 & Hn2)],
    (enter_cases j' e' Hj' ltac:(congruence)) as [[-> ->]|(_ & Hj2' & Hn2')]; cbn in *; try congruence.
  by eapply (to_unique h).
Qed.

(** The key stands where probing met the first free entry. *)
Lemma enter_keys d1 :
  0 <= d1 < hash_capacity h -> pos = Z.to_nat ((hash_thread_id id + d1) mod hash_capacity h) ->
  (forall d' e, 0 <= d' < d1 -> probe h id d' = Some e -> kvp_key e <> 0) ->
  (exists j e, hash_entries h' !! j = Some e /\ kvp_key e = 0) -> keys_ok h'.
Proof using Hok Hid Hpos Hz1 Hnot.
  intros Hd1 Ep Hbefore Hfree; split; [apply (to_capacity h Hok)| |apply enter_unique| |done].
  { cbn; rewrite length_insert; apply (to_length h Hok). }
  intros j e Hj He; destruct (enter_cases j e Hj He) as [[-> ->]|(_ & Hj' & Hne)]; cbn [kvp_key].
  - exists d1; split_all; try done; [unfold probe; cbn [hash_capacity enter]; rewrite <- Ep; apply enter_new|].
    intros d' Hd'; destruct (probe_exists h Hok id d') as [e' He'].
    exists e'; pose proof (Hbefore d' e' Hd' He'); split; [by apply enter_probe|done].
  - destruct (to_reach h Hok j e Hj' He) as (d & Hd & Hp & Hall).
    exists d; split_all; try done; [by apply enter_probe|].
    intros d' Hd'; destruct (Hall d' Hd') as (e' & He' & ?); exists e'; split; [by apply enter_probe|done].
Qed.
End enter.

(** Storing a value changes no key. *)
Section values.
Context (h : ImplicitProducerHash) (pos : nat) (e1 : ImplicitProducerKVP) (v : option nat).
Context (Hpos : hash_entries h !! pos = Some e1).

Local Abbreviation h' := (enter pos {| kvp_key := kvp_key e1; kvp_value := v |} h).

Lemma store_key j e : hash_entries h' !! j = Some e ->
  exists e0, hash_entries h !! j = Some e0 /\ kvp_key e = kvp_key e0.
Proof using Hpos.
  cbn; intros [(-> & <- & _)|[_ Hj]]%list_lookup_insert_Some; [by exists e1|by exists e].
Qed.
Lemma key_store j e : hash_entries h !! j = Some e ->
  exists e', hash_entries h' !! j = Some e' /\ kvp_key e' = kvp_key e.
Proof using Hpos.
  intros Hj; destruct (decide (j = pos)) as [->|Hne].
  - assert (e = e1) as -> by congruence; eexists; split; [by eapply enter_new|done].
  - exists e; by rewrite enter_other.
Qed.
Lemma store_has x : has h' x <-> has h x.
Proof using Hpos.
  split; intros (j & e & Hj & He).
  - destruct (store_key j e Hj) as (e0 & ? & E); exists j, e0; split; [done|congruence].
  - destruct (key_store j e Hj) as (e0 & ? & E); exists j, e0; split; [done|congruence].
Qed.

Lemma store_keys : keys_ok h -> keys_ok h'.
Proof using Hpos.
  intros [Hc Hlen Hu Hr (j0 & e0 & Hj0 & Hz0)]; split; [done|by cbn; rewrite length_insert|..].
  - intros j j' e e' Hj Hj' E Hne; destruct (store_key j e Hj) as (d & Hd & Ed), (store_key j' e' Hj') as (d' & Hd' & Ed').
    eapply Hu; eauto; congruence.
  - intros j e Hj Hne; destruct (store_key j e Hj) as (d & Hd & Ed); rewrite Ed in *.
    destruct (Hr j d Hd Hne) as (n & Hn & Hp & Hb); exists n; split; [done|]; split.
    + destruct (key_store _ _ Hp) as (d' & Hd' & Ed'); rewrite <- Hj; unfold probe in *; cbn [hash_capacity enter].
      assert (j = Z.to_nat ((hash_thread_id (kvp_key d) + n) mod hash_capacity h)) as <-; [|done].
      by eapply Hu.
    + intros i Hi; destruct (Hb i Hi) as (d' & Hp' & Hne'); destruct (key_store _ _ Hp') as (d2 & ? & E2).
      exists d2; split; [done|congruence].
  - destruct (key_store j0 e0 Hj0) as (d & ? & E); exists j0, d; split; [done|congruence].
Qed.
End values.

(** Entering a thread that is not in the table. *)
Lemma insert_table_ok reg h id k :
  table_ok reg h -> id <> 0 -> ~ has h id -> default k (reg !! id) = k ->
  Z.of_nat (size (<[id := k]> reg)) < hash_capacity h ->
  exists h', probe_insert (Z.to_nat (hash_capacity h)) h id (Some k) (hash_thread_id id) = Done h' /\
    table_ok (<[id := k]> reg) h' /\ (forall x, x <> 0 -> has h' x <-> x = id \/ has h x) /\
    hash_capacity h' = hash_capacity h.
Proof.
  intros [Hok Hreg] Hid Hnot Hk Hsize; pose proof (cap_bounds h Hok) as Hcap.
  destruct (probe_insert_run h Hok id (Some k) (Z.to_nat (hash_capacity h)) (hash_thread_id id) 0)
    as (d1 & e1 & Hd1 & He1 & Hz1 & Hbefore & ->); try lia; [apply hash_range|by rewrite Z.add_0_r|].
  set (pos := Z.to_nat _) in *; eexists; split; [reflexivity|]; fold (enter pos {| kvp_key := id; kvp_value := Some k |} h).
  assert (forall j e, hash_entries (enter pos {| kvp_key := id; kvp_value := Some k |} h) !! j = Some e ->
    kvp_key e <> 0 -> exists k', <[id := k]> reg !! kvp_key e = Some k' /\ kvp_value e = Some k') as Hreg'.
  { intros j e Hj He; destruct (enter_cases h id Hnot (Some k) pos e1 He1 j e Hj He) as [[_ ->]|(_ & Hj' & Hne)];
      cbn [kvp_key kvp_value].
    - exists k; by rewrite lookup_insert_eq.
    - rewrite lookup_insert_ne by done; by eapply Hreg. }
  split; [split; [|done]|split; [|done]].
  - eapply (enter_keys h Hok id Hid Hnot (Some k) pos e1 He1 Hz1 d1); [done|reflexivity|done|].
    apply (free_entry (dom (<[id := k]> reg))); [|by eapply enter_unique|].
    + intros j e Hj He; apply elem_of_dom; destruct (Hreg' j e Hj He) as (k' & -> & _); by eexists.
    + rewrite size_dom; cbn; rewrite length_insert, (to_length h Hok); lia.
  - intros x; by eapply enter_has.
Qed.

(** ** The chain of tables *)

(** Every registered thread is in some table; the newest table is less than half
    full and was made no larger than needed. *)
Record tables_ok (reg : gmap Z nat) (hs : list ImplicitProducerHash) (count : Z) : Prop := {
  tk_tables : Forall (table_ok reg) hs;
  tk_found : forall id, is_Some (reg !! id) -> id <> 0 /\ exists h, h ∈ hs /\ has h id;
  tk_count : count = Z.of_nat (size reg);
  tk_main : exists h hs', hs = h :: hs' /\ 2 * Z.of_nat (size reg) < hash_capacity h /\
    hash_capacity h <= Z.max 32 (4 * (Z.of_nat (size reg) + 1)) }.

Lemma table_ok_mono reg id k h : table_ok reg h -> reg !! id = None -> table_ok (<[id := k]> reg) h.
Proof.
  intros [? Hr] Hn; split; try done; intros j e Hj He; destruct (Hr j e Hj He) as (k' & Hk' & ?).
  exists k'; rewrite lookup_insert_ne; [done|]; intros ->; congruence.
Qed.

Lemma new_hash_free c j e : hash_entries (new_hash c) !! j = Some e -> kvp_key e = 0.
Proof. cbn; intros [-> _]%lookup_replicate; done. Qed.
Lemma new_hash_keys c : 1 <= c <= 62 -> keys_ok (new_hash (2 ^ c)).
Proof.
  intros Hc; assert (0 < 2 ^ c) by (apply Z.pow_pos_nonneg; lia).
  pose proof (new_hash_free (2 ^ c)) as Hz; split; cbn [hash_capacity new_hash].
  - by exists c.
  - cbn; by rewrite length_replicate.
  - intros j j' e e' Hj _ _ He; by apply Hz in Hj.
  - intros j e Hj He; by apply Hz in Hj.
  - eexists O, _; cbn; rewrite lookup_replicate; split; [split; [done|lia]|done].
Qed.

Lemma new_hash_ok reg c : 1 <= c <= 62 -> table_ok reg (new_hash (2 ^ c)).
Proof.
  intros Hc; split; [by apply new_hash_keys|]; intros j e Hj He; by apply new_hash_free in Hj.
Qed.

Lemma initial_tables_ok : tables_ok ∅ populate_initial_implicit_producer_hash 0.
Proof.
  split.
  - apply Forall_singleton, (new_hash_ok ∅ 5); lia.
  - intros id; by rewrite lookup_empty; intros [].
  - by rewrite map_size_empty.
  - eexists _, []; split; [reflexivity|]; rewrite map_size_empty; done.
Qed.

(** Looking a thread up: its producer if it is registered. *)
Lemma find_producer_ok reg hs id :
  Forall (table_ok reg) hs -> id <> 0 ->
  exists r, find_producer hs id = Done r /\
    match r with
    | Some (n, v) => v = reg !! id /\ is_Some (reg !! id) /\
        (n <> O -> match hs with [] => True | h :: _ => ~ has h id end)
    | None => forall h, h ∈ hs -> ~ has h id
    end.
Proof.
  intros Hall Hid; induction Hall as [|h hs Hok Hall (r & Hr & IH)]; cbn [find_producer].
  { exists None; split; [done|]; set_solver. }
  destruct (probe_find_ok reg h id Hok Hid) as (v & -> & Hv); rewrite bind_Done; destruct v as [v|].
  { destruct Hv as [Hhas ->]; eexists (Some _); split; [reflexivity|]; split_all; try done.
    destruct Hhas as (j & e & Hj & He); rewrite <- He.
    destruct (to_reg reg h Hok j e Hj) as (k & -> & _); [by rewrite He|by eexists]. }
  rewrite Hr, bind_Done; eexists; split; [reflexivity|]; destruct r as [[n v]|]; cbn.
  - destruct IH as (-> & Hs & _); by split_all.
  - intros h' [->|Hh']%elem_of_cons; [done|by apply IH].
Qed.
