(* ===== verification/HashRace.v ===== *)
(** * Finding a thread's producer under contention ([common/concurrentqueue.h])

    [get_or_add_implicit_producer] run by any number of threads at once, with
    [recycle_or_create_producer] and [add_producer], which it calls: every access
    to a shared variable is a step, and the steps of the threads interleave in any
    order, each atomic and sequentially consistent.  Tables and producers are
    numbered in the order of their creation.  What a thread does to memory that no
    other thread can see yet (filling a new table, constructing a producer) is part
    of the step that publishes it.  [ProducerHash.v] and [ConcurrentQueue.v] have
    the same operation run alone. *)

From S2P Require Import Prelude BlockPool ProducerHash.

(** A table and its [prev]; the base of a producer, whose kind is implicit. *)
Record HashNode := { hn_table : ImplicitProducerHash; hn_prev : option nat }.
Record ProducerBase := { pb_next : option nat; pb_inactive : bool }.

(** The next access of a thread, with its local variables: [main] is [mainHash],
    [table] is [hash], [value] what the call will return. *)
Inductive lookup_pc :=
  | L_idle (result : option nat)
  | L_main
  (** the loop over the tables *)
  | L_key (main table : nat) (index : Z)
  | L_value (main table : nat) (index : Z)
  (** entering the id into a table: the same loop in both places *)
  | L_enter (main : nat) (index : Z) (value : option nat)
  | L_swap (main : nat) (index : Z) (value : option nat)
  | L_set (main : nat) (index : Z) (value : option nat)
  (** registration *)
  | L_count (main : nat)
  | L_lock (main : nat) (newCount : Z)
  | L_reload (newCount : Z)
  | L_alloc (main : nat) (newCount newCapacity : Z)
  | L_publish (main : nat) (newCount newCapacity : Z)
  | L_unlock (main : nat) (newCount : Z)
  | L_undo (unlock : bool)
  | L_clear
  | L_reread (newCount : Z)
  (** [recycle_or_create_producer], [add_producer] *)
  | L_tail (main : nat)
  | L_inactive (main ptr : nat)
  | L_catch (main ptr : nat)
  | L_recycled (main ptr : nat)
  | L_create (main : nat)
  | L_add (main producer : nat)
  | L_prev (main producer : nat)
  | L_next (main producer : nat) (prevTail : option nat)
  | L_link (main producer : nat) (prevTail : option nat).

(** The shared variables, and the threads by their ids. *)
Record contest := Contest {
  ct_tables : list HashNode; ct_implicitProducerHash : nat; ct_hashCount : Z; ct_resizeInProgress : bool;
  ct_producers : list ProducerBase; ct_producerListTail : option nat; ct_producerCount : Z;
  ct_pcs : gmap Z lookup_pc }.

Implicit Types (s : contest) (p : lookup_pc).

Definition set_lookup (t : Z) p s : contest :=
  Contest (ct_tables s) (ct_implicitProducerHash s) (ct_hashCount s) (ct_resizeInProgress s)
    (ct_producers s) (ct_producerListTail s) (ct_producerCount s) (<[t := p]> (ct_pcs s)).
Definition set_tables (v : list HashNode) (main : nat) s : contest :=
  Contest v main (ct_hashCount s) (ct_resizeInProgress s)
    (ct_producers s) (ct_producerListTail s) (ct_producerCount s) (ct_pcs s).
Definition set_count (v : Z) s : contest :=
  Contest (ct_tables s) (ct_implicitProducerHash s) v (ct_resizeInProgress s)
    (ct_producers s) (ct_producerListTail s) (ct_producerCount s) (ct_pcs s).
Definition set_resize (v : bool) s : contest :=
  Contest (ct_tables s) (ct_implicitProducerHash s) (ct_hashCount s) v
    (ct_producers s) (ct_producerListTail s) (ct_producerCount s) (ct_pcs s).
Definition set_list (v : list ProducerBase) (tail : option nat) (count : Z) s : contest :=
  Contest (ct_tables s) (ct_implicitProducerHash s) (ct_hashCount s) (ct_resizeInProgress s)
    v tail count (ct_pcs s).

Definition table_of s (k : nat) : run HashNode := deref (ct_tables s !! k).
Definition entry_of (h : HashNode) (index : Z) : run ImplicitProducerKVP :=
  deref (hash_entries (hn_table h) !! Z.to_nat index).
Definition capacity_of (h : HashNode) : Z := hash_capacity (hn_table h).
Definition set_entry (k : nat) (h : HashNode) (index : Z) (e : ImplicitProducerKVP) s : contest :=
  set_tables (<[k := {| hn_table := enter (Z.to_nat index) e (hn_table h); hn_prev := hn_prev h |}]>
    (ct_tables s)) (ct_implicitProducerHash s) s.

(** The two tests of the registration loop: the first, or the second when the
    first fails or its branch is done. *)
Definition has_room (h : HashNode) (newCount : Z) : bool :=
  newCount <? Z.shiftr (capacity_of h) 1 + Z.shiftr (capacity_of h) 2.
Definition second_test (main : nat) (h : HashNode) (newCount : Z) : lookup_pc :=
  if has_room h newCount then L_tail main else L_reread newCount.
Definition first_test (main : nat) (h : HashNode) (newCount : Z) : lookup_pc :=
  if Z.shiftr (capacity_of h) 1 <=? newCount then L_lock main newCount
  else second_test main h newCount.

(** The producer found, newly linked or recycled is entered into the table. *)
Definition enter_at (main : nat) (t : Z) (value : option nat) : lookup_pc :=
  L_enter main (hash_thread_id t) value.

(** One access of thread [t].  [luck] is whether [malloc] succeeds, and whether
    the weak compare-and-swap does not fail spuriously. *)
Definition lookup_step (luck : bool) (t : Z) s : run contest :=
  p ← deref (ct_pcs s !! t);
  match p with
  | L_idle _ => Blocked
  | L_main =>
      let main := ct_implicitProducerHash s in
      mret (set_lookup t (L_key main main (hash_thread_id t)) s)
  | L_key main table index =>
      h ← table_of s table;
      let index := mask (hn_table h) index in
      e ← entry_of h index;
      mret (set_lookup t
        (if kvp_key e =? t then L_value main table index
         else if kvp_key e =? invalid_thread_id then
           match hn_prev h with None => L_count main | Some prev => L_key main prev (hash_thread_id t) end
         else L_key main table (u64 (index + 1))) s)
  | L_value main table index =>
      h ← table_of s table;
      e ← entry_of h index;
      mret (set_lookup t
        (if decide (table = main) then L_idle (kvp_value e) else enter_at main t (kvp_value e)) s)
  | L_enter main index value =>
      h ← table_of s main;
      let index := mask (hn_table h) index in
      e ← entry_of h index;
      mret (set_lookup t
        (if kvp_key e =? invalid_thread_id then L_swap main index value
         else L_enter main (u64 (index + 1)) value) s)
  | L_swap main index value =>
      h ← table_of s main;
      e ← entry_of h index;
      if kvp_key e =? invalid_thread_id then
        mret (set_lookup t (L_set main index value)
          (set_entry main h index {| kvp_key := t; kvp_value := kvp_value e |} s))
      else mret (set_lookup t (L_enter main (u64 (index + 1)) value) s)
  | L_set main index value =>
      h ← table_of s main;
      e ← entry_of h index;
      mret (set_lookup t (L_idle value)
        (set_entry main h index {| kvp_key := kvp_key e; kvp_value := value |} s))
  | L_count main =>
      h ← table_of s main;
      let newCount := u64 (1 + ct_hashCount s) in
      mret (set_lookup t (first_test main h newCount) (set_count newCount s))
  | L_lock main newCount =>
      h ← table_of s main;
      if ct_resizeInProgress s then mret (set_lookup t (second_test main h newCount) s)
      else mret (set_lookup t (L_reload newCount) (set_resize true s))
  | L_reload newCount =>
      let main := ct_implicitProducerHash s in
      h ← table_of s main;
      if Z.shiftr (capacity_of h) 1 <=? newCount then
        newCapacity ← grow_capacity 64 newCount (u64 (Z.shiftl (capacity_of h) 1));
        mret (set_lookup t (L_alloc main newCount newCapacity) s)
      else mret (set_lookup t (L_unlock main newCount) s)
  | L_alloc main newCount newCapacity =>
      mret (set_lookup t (if luck then L_publish main newCount newCapacity else L_undo true) s)
  | L_publish main newCount newCapacity =>
      let newHash := length (ct_tables s) in
      mret (set_lookup t (L_unlock newHash newCount)
        (set_tables (ct_tables s ++ [{| hn_table := new_hash newCapacity; hn_prev := Some main |}]) newHash s))
  | L_unlock main newCount =>
      h ← table_of s main;
      mret (set_lookup t (second_test main h newCount) (set_resize false s))
  | L_undo unlock =>
      mret (set_lookup t (if unlock then L_clear else L_idle None) (set_count (u64 (ct_hashCount s - 1)) s))
  | L_clear => mret (set_lookup t (L_idle None) (set_resize false s))
  | L_reread newCount =>
      let main := ct_implicitProducerHash s in
      h ← table_of s main;
      mret (set_lookup t (first_test main h newCount) s)
  | L_tail main =>
      mret (set_lookup t
        (match ct_producerListTail s with None => L_create main | Some ptr => L_inactive main ptr end) s)
  | L_inactive main ptr =>
      b ← deref (ct_producers s !! ptr);
      mret (set_lookup t
        (if pb_inactive b then L_catch main ptr
         else match pb_next b with None => L_create main | Some ptr => L_inactive main ptr end) s)
  | L_catch main ptr =>
      b ← deref (ct_producers s !! ptr);
      if pb_inactive b then
        mret (set_lookup t (L_recycled main ptr)
          (set_list (<[ptr := {| pb_next := pb_next b; pb_inactive := false |}]> (ct_producers s))
             (ct_producerListTail s) (ct_producerCount s) s))
      else mret (set_lookup t
        (match pb_next b with None => L_create main | Some ptr => L_inactive main ptr end) s)
  | L_recycled main ptr =>
      mret (set_lookup t (enter_at main t (Some ptr)) (set_count (u64 (ct_hashCount s - 1)) s))
  | L_create main =>
      if luck then
        mret (set_lookup t (L_add main (length (ct_producers s)))
          (set_list (ct_producers s ++ [{| pb_next := None; pb_inactive := false |}])
             (ct_producerListTail s) (ct_producerCount s) s))
      else mret (set_lookup t (L_undo false) s)
  | L_add main producer =>
      mret (set_lookup t (L_prev main producer)
        (set_list (ct_producers s) (ct_producerListTail s) (u32 (ct_producerCount s + 1)) s))
  | L_prev main producer => mret (set_lookup t (L_next main producer (ct_producerListTail s)) s)
  | L_next main producer prevTail =>
      b ← deref (ct_producers s !! producer);
      mret (set_lookup t (L_link main producer prevTail)
        (set_list (<[producer := {| pb_next := prevTail; pb_inactive := pb_inactive b |}]> (ct_producers s))
           (ct_producerListTail s) (ct_producerCount s) s))
  | L_link main producer prevTail =>
      if luck && bool_decide (ct_producerListTail s = prevTail) then
        mret (set_lookup t (enter_at main t (Some producer))
          (set_list (ct_producers s) (Some producer) (ct_producerCount s) s))
      else mret (set_lookup t (L_next main producer (ct_producerListTail s)) s)
  end.

(** A thread makes its next access, or an idle one calls the function. *)
Inductive ct_step : contest -> contest -> Prop :=
  | step_lookup luck t s s' : lookup_step luck t s = Done s' -> ct_step s s'
  | step_call t r s : ct_pcs s !! t = Some (L_idle r) -> ct_step s (set_lookup t L_main s).

(** A new queue and the threads that will use it. *)
Definition new_contest (ids : list Z) : contest :=
  Contest [{| hn_table := new_hash INITIAL_IMPLICIT_PRODUCER_HASH_SIZE; hn_prev := None |}] 0 0 false
    [] None 0 (list_to_map (map (fun t => (t, L_idle None)) ids)).
