(* ===== verification/HashRaceInv.v ===== *)
(** * The invariant of the contended hash tables

    What holds between any two accesses of the threads of [HashRace.v].  Three
    things are carried along that the program does not store: the producer each
    thread has made ([own]), the count each thread got when it registered ([num]),
    and the list of producers ([l]). *)

From S2P Require Import Prelude BlockPool ProducerHash HashRace Threads.

Section predicates.
Implicit Types (ts : list HashNode) (own : gmap Z nat) (num : gmap Z Z) (l : list nat) (t : Z).

Definition three_quarters (h : HashNode) : Z := capacity_of h / 2 + capacity_of h / 4.

Definition has_in ts (k : nat) t : Prop := exists h, ts !! k = Some h /\ has (hn_table h) t.
Definition key_at ts (k pos : nat) t : Prop :=
  exists h e, ts !! k = Some h /\ hash_entries (hn_table h) !! pos = Some e /\ kvp_key e = t.
(** Probing has come to [index] and has met neither [t] nor a free entry. *)
Definition at_index ts (k : nat) t (index : Z) : Prop :=
  exists h d, ts !! k = Some h /\ 0 <= d < capacity_of h /\ 0 <= index /\
    index mod capacity_of h = (hash_thread_id t + d) mod capacity_of h /\
    forall d' e, 0 <= d' < d -> probe (hn_table h) t d' = Some e -> kvp_key e <> 0 /\ kvp_key e <> t.
Definition room_for ts num (k : nat) t : Prop :=
  exists h n, ts !! k = Some h /\ num !! t = Some n /\ n < three_quarters h.

(** A thread that has not registered, one that has been counted and has no
    producer yet, one whose new producer is not in the list yet, one whose
    producer is in the list, and one that is in a table. *)
Definition absent ts t : Prop := forall k, ~ has_in ts k t.
Definition newcomer ts own num t : Prop := own !! t = None /\ num !! t = None /\ absent ts t.
Definition counted ts own num t (n : Z) : Prop := own !! t = None /\ num !! t = Some n /\ absent ts t.
Definition holding ts own num l t (p : nat) : Prop :=
  own !! t = Some p /\ (p ∉ l) /\ absent ts t /\ is_Some (num !! t).
Definition listed own l t (p : nat) : Prop := own !! t = Some p /\ p ∈ l.
Definition member ts own l (main : nat) t (p : nat) : Prop :=
  listed own l t p /\ exists k, (k <= main)%nat /\ has_in ts k t.

Definition known_to ts own num l (main : nat) t : Prop :=
  newcomer ts own num t \/ exists p, member ts own l main t p.
Definition entering ts own num l (main : nat) t (value : option nat) : Prop :=
  ~ has_in ts main t /\ room_for ts num main t /\ exists p, value = Some p /\ listed own l t p.

(** A capacity a larger table can have. *)
Definition larger ts (main : nat) (newCount c : Z) : Prop :=
  (exists h, ts !! main = Some h /\ capacity_of h <= c) /\
  2 * newCount < c /\ exists e, 2 <= e <= 40 /\ c = 2 ^ e.

(** In the resize lock. *)
Definition critical (p : lookup_pc) : bool :=
  match p with
  | L_reload _ | L_alloc _ _ _ | L_publish _ _ _ | L_unlock _ _ | L_undo true | L_clear => true
  | _ => false
  end.
Definition adding_producer (p : lookup_pc) : bool := match p with L_add _ _ => true | _ => false end.

Definition lookup_ok s own num l t (p : lookup_pc) : Prop :=
  let ts := ct_tables s in
  let top := ct_implicitProducerHash s in
  match p with
  | L_idle None | L_clear => newcomer ts own num t
  | L_idle (Some k) => member ts own l top t k
  | L_main => known_to ts own num l top t
  | L_key main table index =>
      (main <= top)%nat /\ (table <= main)%nat /\ at_index ts table t index /\
      (forall j, (table < j <= main)%nat -> ~ has_in ts j t) /\ known_to ts own num l main t
  | L_value main table index =>
      (main <= top)%nat /\ (table <= main)%nat /\ key_at ts table (Z.to_nat index) t /\
      (forall j, (table < j <= main)%nat -> ~ has_in ts j t) /\ exists k, listed own l t k
  | L_enter main index value =>
      (main <= top)%nat /\ entering ts own num l main t value /\ at_index ts main t index
  | L_swap main index value =>
      (main <= top)%nat /\ entering ts own num l main t value /\ at_index ts main t index /\
      exists h, ts !! main = Some h /\ index < capacity_of h
  | L_set main index value =>
      (main <= top)%nat /\ key_at ts main (Z.to_nat index) t /\ exists k, value = Some k /\ listed own l t k
  | L_count main => (main <= top)%nat /\ newcomer ts own num t
  | L_lock main newCount => (main <= top)%nat /\ counted ts own num t newCount
  | L_reload newCount | L_reread newCount => counted ts own num t newCount
  | L_alloc main newCount c | L_publish main newCount c =>
      main = top /\ counted ts own num t newCount /\ larger ts main newCount c
  | L_unlock main newCount =>
      (main <= top)%nat /\ counted ts own num t newCount /\
      exists h, ts !! main = Some h /\ newCount < capacity_of h / 2
  | L_undo _ => exists n, counted ts own num t n
  | L_tail main | L_create main =>
      (main <= top)%nat /\ room_for ts num main t /\ exists n, counted ts own num t n
  | L_inactive main ptr | L_catch main ptr =>
      (main <= top)%nat /\ room_for ts num main t /\ (exists n, counted ts own num t n) /\ ptr ∈ l
  | L_recycled _ _ => False
  | L_add main k | L_prev main k | L_next main k _ =>
      (main <= top)%nat /\ room_for ts num main t /\ holding ts own num l t k
  | L_link main k prev =>
      (main <= top)%nat /\ room_for ts num main t /\ holding ts own num l t k /\
      exists b, ct_producers s !! k = Some b /\ pb_next b = prev
  end.

Lemma lookup_ok_same s s' own num l t p :
  ct_tables s' = ct_tables s -> ct_implicitProducerHash s' = ct_implicitProducerHash s ->
  ct_producers s' = ct_producers s -> lookup_ok s own num l t p -> lookup_ok s' own num l t p.
Proof. intros E1 E2 E3; unfold lookup_ok; by rewrite E1, E2, E3. Qed.

(** The list of producers from [tail]. *)
Fixpoint linked (ps : list ProducerBase) (tail : option nat) l : Prop :=
  match l with
  | [] => tail = None
  | k :: l => tail = Some k /\ exists b, ps !! k = Some b /\ linked ps (pb_next b) l
  end.

(** What an entry of table [k] holds: the key of a thread that was counted when the
    table had room for it, and its producer, unless the thread is about to store it. *)
Definition entry_ok (pcs : gmap Z lookup_pc) own num (k : nat) (h : HashNode) (j : nat)
    (e : ImplicitProducerKVP) : Prop :=
  exists p n, own !! kvp_key e = Some p /\ num !! kvp_key e = Some n /\ n < three_quarters h /\
    (kvp_value e = Some p \/ exists index v, pcs !! kvp_key e = Some (L_set k index v) /\ j = Z.to_nat index).

Record tables_inv ts (top : nat) : Prop := {
  ti_length : length ts = S top;
  ti_prev : forall k h, ts !! k = Some h -> hn_prev h = match k with O => None | S k => Some k end;
  ti_keys : forall k h, ts !! k = Some h -> keys_ok (hn_table h) /\ capacity_of h <= 2 ^ 40;
  ti_grow : forall k k' h h', (k <= k')%nat -> ts !! k = Some h -> ts !! k' = Some h' ->
    capacity_of h <= capacity_of h' }.

Record counts_inv num (count : Z) : Prop := {
  ci_size : count = Z.of_nat (size num);
  ci_range : forall t n, num !! t = Some n -> 1 <= n <= 2 ^ 31;
  ci_rank : forall b, 1 <= b -> Z.of_nat (size (filter (fun tn => tn.2 < b) num)) < b }.

Record list_inv (ps : list ProducerBase) (tail : option nat) own l : Prop := {
  li_linked : linked ps tail l;
  li_nodup : NoDup l;
  li_active : forall k b, ps !! k = Some b -> pb_inactive b = false;
  li_inj : forall t t' k, own !! t = Some k -> own !! t' = Some k -> t = t';
  li_owner : forall k, (k < length ps)%nat <-> exists t, own !! t = Some k }.

Record contest_inv s own num l : Prop := {
  iv_tables : tables_inv (ct_tables s) (ct_implicitProducerHash s);
  iv_entries : forall k h j e, ct_tables s !! k = Some h -> hash_entries (hn_table h) !! j = Some e ->
    kvp_key e <> 0 -> entry_ok (ct_pcs s) own num k h j e;
  iv_counts : counts_inv num (ct_hashCount s);
  iv_lock : tally critical (ct_pcs s) = Z.b2z (ct_resizeInProgress s);
  iv_list : list_inv (ct_producers s) (ct_producerListTail s) own l;
  iv_added : ct_producerCount s = u32 (Z.of_nat (length (ct_producers s)) - tally adding_producer (ct_pcs s));
  iv_own : dom own ⊆ dom num;
  iv_num : dom num ⊆ dom (ct_pcs s);
  iv_pcs : forall t p, ct_pcs s !! t = Some p -> t <> 0 /\ lookup_ok s own num l t p;
  iv_threads : Z.of_nat (size (ct_pcs s)) < 2 ^ 31 }.
End predicates.

(** ** What the other threads rely on stays *)

(** Nothing is taken out of a table, and [t] is entered nowhere. *)
Record tables_grow (t : Z) (ts ts' : list HashNode) : Prop := {
  tg_keep : forall k h, ts !! k = Some h -> exists h', ts' !! k = Some h' /\ capacity_of h' = capacity_of h /\
    forall j e, hash_entries (hn_table h) !! j = Some e -> kvp_key e <> 0 ->
      exists e', hash_entries (hn_table h') !! j = Some e' /\ kvp_key e' = kvp_key e;
  tg_has : forall k, has_in ts' k t -> has_in ts k t }.

Record stable (t : Z) (p : lookup_pc) s s' (own own' : gmap Z nat) (num num' : gmap Z Z) (l l' : list nat) : Prop := {
  sb_tables : tables_grow t (ct_tables s) (ct_tables s');
  sb_length : forall k h, ct_tables s !! k = Some h -> keys_ok (hn_table h);
  sb_top : (ct_implicitProducerHash s <= ct_implicitProducerHash s')%nat;
  sb_critical : critical p = true -> ct_implicitProducerHash s' = ct_implicitProducerHash s;
  sb_own : own' !! t = own !! t;
  sb_num : num' !! t = num !! t;
  sb_mine : forall k, own !! t = Some k -> (k ∈ l' -> k ∈ l) /\ ct_producers s' !! k = ct_producers s !! k;
  sb_list : forall k, k ∈ l -> k ∈ l' }.

Lemma tables_grow_refl t ts : tables_grow t ts ts.
Proof. split; [|done]; intros k h Hh; exists h; split_all; [done..|]; by eauto. Qed.

Section grow.
Context (t : Z) (ts ts' : list HashNode) (Hg : tables_grow t ts ts') (Ht : t <> 0).
Context (Hkeys : forall k h, ts !! k = Some h -> keys_ok (hn_table h)).

Lemma has_in_grow k : has_in ts k t <-> has_in ts' k t.
Proof using Hg Ht.
  split; [|apply (tg_has _ _ _ Hg)]; intros (h & Hh & j & e & Hj & He).
  destruct (tg_keep _ _ _ Hg k h Hh) as (h' & Hh' & _ & Hk); destruct (Hk j e Hj) as (e' & Hj' & E); [congruence|].
  exists h'; split; [done|]; exists j, e'; split; [done|congruence].
Qed.
Lemma key_at_grow k pos : key_at ts k pos t -> key_at ts' k pos t.
Proof using Hg Ht.
  intros (h & e & Hh & Hj & He); destruct (tg_keep _ _ _ Hg k h Hh) as (h' & Hh' & _ & Hk).
  destruct (Hk pos e Hj) as (e' & Hj' & E); [congruence|]; exists h', e'; split_all; [done..|congruence].
Qed.
Lemma at_index_grow k index : at_index ts k t index -> at_index ts' k t index.
Proof using Hg Hkeys.
  intros (h & d & Hh & Hd & Hi & Hm & Hb); destruct (tg_keep _ _ _ Hg k h Hh) as (h' & Hh' & Hc & Hk).
  exists h', d; rewrite Hc; split_all; [done..|lia|lia|done|done|].
  intros d' e' Hd' He'; destruct (probe_exists (hn_table h) (Hkeys k h Hh) t d') as [e He].
  destruct (Hb d' e Hd' He) as [Hn Hne]; pose proof He as He2; unfold probe in He2.
  destruct (Hk _ e He2 Hn) as (e2 & Hj2 & E); unfold probe in He'; unfold capacity_of in Hc.
  rewrite Hc, Hj2 in He'; injection He' as <-; rewrite E; done.
Qed.
Lemma absent_grow : absent ts t -> absent ts' t.
Proof using Hg. intros Ha k Hk; by apply (Ha k), (tg_has _ _ _ Hg). Qed.
End grow.

Lemma lookup_ok_stable t p s s' own own' num num' l l' :
  stable t p s s' own own' num num' l l' -> t <> 0 ->
  lookup_ok s own num l t p -> lookup_ok s' own' num' l' t p.
Proof.
  intros [Hg Hkeys Htop Hcrit Ho Hn Hmine Hl] Ht.
  set (top := ct_implicitProducerHash s) in *; set (top' := ct_implicitProducerHash s') in *.
  set (ts := ct_tables s) in *; set (ts' := ct_tables s') in *.
  pose proof (has_in_grow t ts ts' Hg Ht) as Hhas; pose proof (key_at_grow t ts ts' Hg Ht) as Hka.
  pose proof (at_index_grow t ts ts' Hg Hkeys) as Hat; pose proof (absent_grow t ts ts' Hg) as Hab.
  assert (newcomer ts own num t -> newcomer ts' own' num' t) as Hnew.
  { intros (? & ? & ?); split; [by rewrite Ho|split; [by rewrite Hn|auto]]. }
  assert (forall n, counted ts own num t n -> counted ts' own' num' t n) as Hco.
  { intros n (? & ? & ?); split; [by rewrite Ho|split; [by rewrite Hn|auto]]. }
  assert (forall k, listed own l t k -> listed own' l' t k) as Hli.
  { intros k [? ?]; split; [by rewrite Ho|auto]. }
  assert (forall m m' k, (m <= m')%nat -> member ts own l m t k -> member ts' own' l' m' t k) as Hme.
  { intros m m' k Hm (? & j & ? & ?); split; [auto|]; exists j; split; [lia|by apply Hhas]. }
  assert (forall m, known_to ts own num l m t -> forall m', (m <= m')%nat -> known_to ts' own' num' l' m' t) as Hkn.
  { intros m [?|[k ?]] m' ?; [left; auto|right; exists k; eauto]. }
  assert (forall m, room_for ts num m t -> room_for ts' num' m t) as Hro.
  { intros m (h & n & Hh & ? & Hlt); destruct (tg_keep _ _ _ Hg m h Hh) as (h' & Hh' & Hc & _).
    exists h', n; rewrite Hn; unfold three_quarters in *; by rewrite Hc. }
  assert (forall m v, entering ts own num l m t v -> entering ts' own' num' l' m t v) as Hen.
  { intros m v (Hno & ? & k & ? & ?); split; [by rewrite <- Hhas|]; split; [auto|]; exists k; auto. }
  assert (forall k, holding ts own num l t k -> holding ts' own' num' l' t k) as Hho.
  { intros k (? & Hnl & ? & ?); unfold holding; split_all; [by rewrite Ho| |auto|by rewrite Hn]; intros Hk; by apply Hnl, Hmine. }
  assert (forall m n c, larger ts m n c -> larger ts' m n c) as Hla.
  { intros m n c ((h & Hh & Hc) & ?); split; [|done]; destruct (tg_keep _ _ _ Hg m h Hh) as (h' & Hh' & E & _).
    exists h'; split; [done|lia]. }
  destruct p as [r| | | | | | | | | | | | | | | | | | | | | | | |]; [destruct r|..]; cbn [lookup_ok critical] in *;
    fold ts ts' top top'; intros H; fold ts top in H; split_all; eauto with lia; try done.
  - intros j Hj; rewrite <- Hhas; auto.
  - intros j Hj; rewrite <- Hhas; auto.
  - match goal with H : ts !! main = Some _ |- _ => destruct (tg_keep _ _ _ Hg main _ H) as (h' & ? & E & _) end.
    exists h'; by rewrite E.
  - match goal with H : ts !! main = Some _ |- _ => destruct (tg_keep _ _ _ Hg main _ H) as (h' & ? & E & _) end.
    exists h'; by rewrite E.
  - match goal with H : holding ts own num l t producer |- _ => destruct H as [Hp _]; destruct (Hmine _ Hp) as [_ E] end.
    eexists; rewrite E; eauto.
Qed.

(** ** Steps that change no table, producer or ghost state *)

Section steps.
Context (s : contest) (own : gmap Z nat) (num : gmap Z Z) (l : list nat) (Hinv : contest_inv s own num l).
Context (t : Z) (p p' : lookup_pc) (Hpc : ct_pcs s !! t = Some p).

Lemma pcs_size_insert : Z.of_nat (size (<[t := p']> (ct_pcs s))) < 2 ^ 31.
Proof using Hinv Hpc. rewrite map_size_insert_Some by (rewrite Hpc; by eexists); apply (iv_threads _ _ _ _ Hinv). Qed.
Lemma pcs_dom_insert : dom (<[t := p']> (ct_pcs s)) = dom (ct_pcs s).
Proof using Hpc. rewrite dom_insert_lookup_L; [done|rewrite Hpc; by eexists]. Qed.
Lemma lookup_nonzero : t <> 0.
Proof using Hinv Hpc. by destruct (iv_pcs _ _ _ _ Hinv t p Hpc). Qed.

(** What the other threads need of a step of [t], and what [t] does. *)
Lemma pcs_step s' own' num' l' :
  ct_pcs s' = <[t := p']> (ct_pcs s) ->
  (forall t' q, t' <> t -> ct_pcs s !! t' = Some q -> stable t' q s s' own own' num num' l l') ->
  lookup_ok s' own' num' l' t p' ->
  forall t' q, ct_pcs s' !! t' = Some q -> t' <> 0 /\ lookup_ok s' own' num' l' t' q.
Proof using Hinv Hpc.
  intros E Hst Hp' t' q; rewrite E; destruct (decide (t' = t)) as [->|Hne].
  - rewrite lookup_insert_eq; intros [= <-]; split; [apply lookup_nonzero|done].
  - rewrite lookup_insert_ne by done; intros Hq; destruct (iv_pcs _ _ _ _ Hinv t' q Hq) as [H0 Hok].
    split; [done|]; eapply lookup_ok_stable; eauto.
Qed.

Lemma entries_step (ts' : list HashNode) (own' : gmap Z nat) (num' : gmap Z Z) :
  (forall k h j e, ts' !! k = Some h -> hash_entries (hn_table h) !! j = Some e -> kvp_key e <> 0 ->
     (kvp_key e <> t /\ entry_ok (ct_pcs s) own num k h j e /\ own' !! kvp_key e = own !! kvp_key e /\
        num' !! kvp_key e = num !! kvp_key e) \/
     entry_ok (<[t := p']> (ct_pcs s)) own' num' k h j e) ->
  forall k h j e, ts' !! k = Some h -> hash_entries (hn_table h) !! j = Some e -> kvp_key e <> 0 ->
    entry_ok (<[t := p']> (ct_pcs s)) own' num' k h j e.
Proof.
  intros H k h j e Hh Hj He; destruct (H k h j e Hh Hj He) as [(Hne & (k1 & n & Ho & Hn & Hlt & Hv) & Eo & En)|?]; [|done].
  exists k1, n; rewrite Eo, En; split_all; [done..|]; destruct Hv as [Hv|(index & v & Hv)]; [by left|].
  right; exists index, v; by rewrite lookup_insert_ne.
Qed.

Definition is_set (p : lookup_pc) : bool := match p with L_set _ _ _ => true | _ => false end.

Lemma entries_same (own' : gmap Z nat) (num' : gmap Z Z) :
  is_set p = false -> (own' = own \/ own !! t = None /\ exists k, own' = <[t := k]> own) ->
  (num' = num \/ own !! t = None /\ (num' = delete t num \/ exists n, num' = <[t := n]> num)) ->
  forall k h j e, ct_tables s !! k = Some h -> hash_entries (hn_table h) !! j = Some e -> kvp_key e <> 0 ->
    entry_ok (<[t := p']> (ct_pcs s)) own' num' k h j e.
Proof using Hinv Hpc.
  intros Hset Ho Hn; apply entries_step; intros k h j e Hh Hj He.
  destruct (iv_entries _ _ _ _ Hinv k h j e Hh Hj He) as (k1 & n & Ho1 & Hn1 & Hlt & Hv).
  destruct (decide (kvp_key e = t)) as [E|Hne].
  - right; rewrite E in *; assert (own' = own) as -> by (destruct Ho as [?|[? _]]; [done|congruence]).
    assert (num' = num) as -> by (destruct Hn as [?|[? _]]; [done|congruence]).
    exists k1, n; rewrite E; split_all; [done..|]; destruct Hv as [Hv|(index & v & Hv & _)]; [by left|].
    rewrite Hpc in Hv; injection Hv as ->; done.
  - left; split; [done|]; split; [by exists k1, n|]; split.
    + destruct Ho as [->|[_ [? ->]]]; [done|by rewrite lookup_insert_ne].
    + destruct Hn as [->|[_ [->|[? ->]]]]; [done|by rewrite lookup_delete_ne|by rewrite lookup_insert_ne].
Qed.

(** A step that changes no table. *)
Lemma stable_tables q s' own' num' l' t' :
  ct_tables s' = ct_tables s -> ct_implicitProducerHash s' = ct_implicitProducerHash s ->
  own' !! t' = own !! t' -> num' !! t' = num !! t' ->
  (forall k, own !! t' = Some k -> (k ∈ l' -> k ∈ l) /\ ct_producers s' !! k = ct_producers s !! k) ->
  (forall k, k ∈ l -> k ∈ l') -> stable t' q s s' own own' num num' l l'.
Proof using Hinv.
  intros E1 E2 Eo En Hm Hl; split; rewrite ?E1, ?E2; try done; [apply tables_grow_refl|].
  intros k h Hh; apply (ti_keys _ _ (iv_tables _ _ _ _ Hinv) k h Hh).
Qed.

Lemma contest_step_ok s' own' num' l' :
  ct_pcs s' = <[t := p']> (ct_pcs s) ->
  Z.b2z (ct_resizeInProgress s') = Z.b2z (ct_resizeInProgress s) - Z.b2z (critical p) + Z.b2z (critical p') ->
  ct_producerCount s' = u32 (Z.of_nat (length (ct_producers s')) - tally adding_producer (ct_pcs s)
    + Z.b2z (adding_producer p) - Z.b2z (adding_producer p')) ->
  tables_inv (ct_tables s') (ct_implicitProducerHash s') ->
  (forall k h j e, ct_tables s' !! k = Some h -> hash_entries (hn_table h) !! j = Some e -> kvp_key e <> 0 ->
    entry_ok (<[t := p']> (ct_pcs s)) own' num' k h j e) ->
  counts_inv num' (ct_hashCount s') ->
  list_inv (ct_producers s') (ct_producerListTail s') own' l' ->
  dom own' ⊆ dom num' -> dom num' ⊆ dom (ct_pcs s) ->
  (forall t' q, t' <> t -> ct_pcs s !! t' = Some q -> stable t' q s s' own own' num num' l l') ->
  lookup_ok s' own' num' l' t p' -> contest_inv s' own' num' l'.
Proof using Hinv Hpc.
  intros Epcs Hr Hc Htab Hent Hcnt Hlist Hown Hnum Hst Hp'; pose proof Hinv as [_ _ _ Hlock _ _ _ _ _ _].
  split; rewrite ?Epcs; try done.
  - rewrite (tally_insert _ _ _ p) by done; lia.
  - rewrite (tally_insert _ _ _ p) by done; rewrite Hc; f_equal; lia.
  - by rewrite pcs_dom_insert.
  - rewrite <- Epcs; by apply pcs_step.
  - apply pcs_size_insert.
Qed.

(** The thread moves on; it may take or release the lock, or count a producer. *)
Lemma contest_local r count :
  is_set p = false ->
  Z.b2z r = Z.b2z (ct_resizeInProgress s) - Z.b2z (critical p) + Z.b2z (critical p') ->
  count = u32 (ct_producerCount s + Z.b2z (adding_producer p) - Z.b2z (adding_producer p')) ->
  lookup_ok s own num l t p' ->
  contest_inv (Contest (ct_tables s) (ct_implicitProducerHash s) (ct_hashCount s) r (ct_producers s)
    (ct_producerListTail s) count (<[t := p']> (ct_pcs s))) own num l.
Proof using Hinv Hpc.
  intros Hset Hr Hc Hp'; pose proof Hinv as [Htab _ Hcnt Hlock Hlist Hadd Hown Hnum _ _]; apply contest_step_ok; try done.
  - cbn; rewrite Hc, Hadd; unfold wrap; rewrite Zminus_mod, Zplus_mod_idemp_l, <- Zminus_mod; f_equal; lia.
  - apply entries_same; [done|by left|by left].
  - intros t' q _ _; by apply stable_tables.
Qed.
End steps.
