(* ===== verification/HashRaceSteps.v ===== *)
(** * Every access keeps the invariant of the contended hash tables

    One lemma for each kind of access of [lookup_step]; [lookup_step_ok] puts them
    together: no access fails, and the invariant holds after it. *)

From S2P Require Import Prelude BlockPool ImplicitProducer ProducerHash HashRace HashRaceInv Threads.

Lemma shiftr2 z : Z.shiftr z 2 = z / 4.
Proof. by rewrite Z.shiftr_div_pow2 by lia. Qed.

Lemma has_room_spec h n : has_room h n = (n <? three_quarters h).
Proof. unfold has_room, three_quarters; by rewrite shiftr1, shiftr2. Qed.

(** The new capacity is a power of two, more than twice the count. *)
Lemma grow_capacity_ok n : 0 <= n <= 2 ^ 31 -> forall fuel c, 1 <= c <= 33 -> (34 - c <= Z.of_nat fuel) ->
  exists e, grow_capacity fuel n (2 ^ c) = Done (2 ^ e) /\ c <= e <= 33 /\ 2 * n < 2 ^ e.
Proof.
  intros Hn fuel; induction fuel as [|fuel IH]; intros c Hc Hf; [lia|]; cbn [grow_capacity]; rewrite shiftr1.
  assert (2 ^ c = 2 * 2 ^ (c - 1)) as Ec by (rewrite <- Z.pow_succ_r by lia; f_equal; lia).
  rewrite Ec, (Z.mul_comm 2), Z.div_mul by lia; rewrite (Z.mul_comm _ 2), <- Ec.
  destruct (Z.leb_spec (2 ^ (c - 1)) n) as [Hle|Hgt]; [|exists c; split; [done|split; lia]].
  assert (c - 1 <= 31) by (apply (Z.pow_le_mono_r_iff 2); lia).
  rewrite Z.shiftl_mul_pow2, wrap_small by (try (unfold in_u; assert (2 ^ c <= 2 ^ 33) by (apply Z.pow_le_mono_r; lia)); lia).
  change (2 ^ 1) with 2; replace (2 ^ c * 2) with (2 ^ (c + 1)) by (rewrite Z.pow_add_r; lia).
  destruct (IH (c + 1)) as (e & -> & ? & ?); [lia..|]; exists e; split; [done|split; [lia|done]].
Qed.

Lemma linked_lookup ps k l : forall tail, linked ps tail l -> k ∈ l ->
  exists b, ps !! k = Some b /\ (pb_next b = None \/ exists k', pb_next b = Some k' /\ k' ∈ l).
Proof.
  induction l as [|x l IH]; intros tail; [set_solver|]; cbn [linked]; intros (_ & b & Hb & Hl) [->|Hk]%elem_of_cons.
  - exists b; split; [done|]; destruct l as [|y l]; cbn in Hl; [by left|right; exists y; split; [by destruct Hl|set_solver]].
  - destruct (IH _ Hl Hk) as (b' & Hb' & [?|(k' & ? & ?)]); exists b'; (split; [done|]); [by left|right; exists k'; set_solver].
Qed.

(** ** Facts about one state *)

Section facts.
Context (s : contest) (own : gmap Z nat) (num : gmap Z Z) (l : list nat) (Hinv : contest_inv s own num l).
Local Abbreviation ts := (ct_tables s).
Local Abbreviation top := (ct_implicitProducerHash s).

Lemma table_exists k : (k <= top)%nat -> exists h, ts !! k = Some h /\ keys_ok (hn_table h).
Proof using Hinv.
  intros Hk; pose proof (ti_length _ _ (iv_tables _ _ _ _ Hinv)) as Hlen.
  destruct (lookup_lt_is_Some_2 ts k ltac:(lia)) as [h Hh]; exists h; split; [done|].
  by apply (ti_keys _ _ (iv_tables _ _ _ _ Hinv) k).
Qed.
Lemma table_range k h : ts !! k = Some h -> (k <= top)%nat /\ keys_ok (hn_table h) /\ 2 <= capacity_of h <= 2 ^ 40.
Proof using Hinv.
  intros Hh; pose proof (ti_length _ _ (iv_tables _ _ _ _ Hinv)); apply lookup_lt_Some in Hh as Hlt.
  destruct (ti_keys _ _ (iv_tables _ _ _ _ Hinv) k h Hh) as [Hok Hc]; pose proof (cap_bounds _ Hok).
  split; [lia|]; split; [done|]; unfold capacity_of in *; lia.
Qed.


Lemma threads_counted : Z.of_nat (size num) < 2 ^ 31.
Proof using Hinv.
  pose proof (iv_threads _ _ _ _ Hinv); pose proof (subseteq_size _ _ (iv_num _ _ _ _ Hinv)) as Hs.
  rewrite !size_dom in Hs; lia.
Qed.

Lemma at_start k t : (k <= top)%nat -> at_index ts k t (hash_thread_id t).
Proof using Hinv.
  intros Hk; destruct (table_exists k Hk) as (h & Hh & _); destruct (table_range k h Hh) as (_ & _ & Hc).
  exists h, 0; rewrite Z.add_0_r; pose proof (hash_range t); unfold in_u in *; split_all; try done; lia.
Qed.

(** Looking at the entry the probe has come to. *)
Lemma probe_here k t index h :
  t <> 0 -> ts !! k = Some h -> at_index ts k t index ->
  exists e, hash_entries (hn_table h) !! Z.to_nat (mask (hn_table h) index) = Some e /\
    at_index ts k t (mask (hn_table h) index) /\ 0 <= mask (hn_table h) index < capacity_of h /\
    (kvp_key e = 0 -> ~ has_in ts k t) /\
    (kvp_key e <> 0 -> kvp_key e <> t -> at_index ts k t (u64 (mask (hn_table h) index + 1))).
Proof using Hinv.
  intros Ht Hh (h0 & d & Hh0 & Hd & Hi & Hm & Hb); simplify_eq; destruct (table_range k h Hh) as (_ & Hok & Hc).
  destruct (probe_step (hn_table h) Hok t index d Hi Hm) as (e & He & Hj & Hi' & Hm').
  pose proof (mask_mod (hn_table h) Hok index Hi) as Em; fold (capacity_of h) in *.
  pose proof (Z.mod_pos_bound index (capacity_of h) ltac:(lia)).
  exists e; split; [done|]; split; [|split; [lia|split]].
  - exists h, d; split_all; try done; [lia|rewrite Em, Z.mod_mod by lia; done].
  - intros Hz (h1 & Hh1 & Hhas); simplify_eq.
    destruct (probe_present (hn_table h) Hok t Ht d e Hhas Hd He Hz) as (d1 & e1 & Hd1 & He1 & Hk1).
    by destruct (Hb d1 e1 Hd1 He1).
  - intros Hne Hnt; assert (forall d' e', 0 <= d' < d + 1 -> probe (hn_table h) t d' = Some e' ->
      kvp_key e' <> 0 /\ kvp_key e' <> t) as Hb'.
    { intros d' e' Hd' He'; destruct (decide (d' = d)) as [->|]; [by assert (e' = e) as -> by congruence|].
      apply (Hb d'); [lia|done]. }
    exists h, (d + 1); split_all; try done; [lia|].
    destruct (probe_free (hn_table h) Hok t) as (d0 & e0 & Hd0 & He0 & Hz0); fold (capacity_of h) in *.
    destruct (decide (d0 < d + 1)); [by destruct (Hb' d0 e0 ltac:(lia) He0)|lia].
Qed.

Lemma entry_of_key k h j e :
  ts !! k = Some h -> hash_entries (hn_table h) !! j = Some e -> kvp_key e <> 0 ->
  entry_ok (ct_pcs s) own num k h j e.
Proof using Hinv. apply (iv_entries _ _ _ _ Hinv). Qed.

(** A table that had room for a thread when it registered has room in every
    later one. *)
Lemma room_later k k' t : has_in ts k t -> t <> 0 -> (k <= k' <= top)%nat -> room_for ts num k' t.
Proof using Hinv.
  intros (h & Hh & j & e & Hj & He) Ht Hk; destruct (table_exists k' ltac:(lia)) as (h' & Hh' & _).
  destruct (entry_of_key k h j e Hh Hj ltac:(congruence)) as (p & n & _ & Hn & Hlt & _); rewrite He in Hn.
  exists h', n; split_all; [done..|].
  pose proof (ti_grow _ _ (iv_tables _ _ _ _ Hinv) k k' h h' ltac:(lia) Hh Hh') as Hc; unfold three_quarters in *.
  pose proof (Z.div_le_mono _ _ 2 ltac:(lia) Hc); pose proof (Z.div_le_mono _ _ 4 ltac:(lia) Hc); lia.
Qed.

Lemma listed_lookup k : k ∈ l -> exists b, ct_producers s !! k = Some b /\ pb_inactive b = false /\
  (pb_next b = None \/ exists k', pb_next b = Some k' /\ k' ∈ l).
Proof using Hinv.
  intros Hk; destruct (iv_list _ _ _ _ Hinv) as [Hl _ Ha _ _].
  destruct (linked_lookup _ k _ _ Hl Hk) as (b & Hb & ?); exists b; split_all; [done|by eapply Ha|done].
Qed.

Lemma holding_lookup t k : own !! t = Some k -> exists b, ct_producers s !! k = Some b /\ pb_inactive b = false.
Proof using Hinv.
  intros Hk; destruct (iv_list _ _ _ _ Hinv) as [_ _ Ha _ Ho].
  destruct (lookup_lt_is_Some_2 (ct_producers s) k) as [b Hb]; [apply Ho; by exists t|].
  exists b; split; [done|by eapply Ha].
Qed.

Lemma critical_locked t p : ct_pcs s !! t = Some p -> critical p = true -> ct_resizeInProgress s = true.
Proof using Hinv.
  intros Hp Hc; pose proof (tally_pos critical _ t p Hp Hc); rewrite (iv_lock _ _ _ _ Hinv) in *.
  by destruct (ct_resizeInProgress s).
Qed.

Lemma count_word : u32 (ct_producerCount s) = ct_producerCount s.
Proof using Hinv. rewrite (iv_added _ _ _ _ Hinv); apply wrap_idemp; lia. Qed.

(** The tests of the registration loop. *)
Lemma second_test_ok t main h n :
  (main <= top)%nat -> ts !! main = Some h -> counted ts own num t n ->
  lookup_ok s own num l t (second_test main h n) /\ critical (second_test main h n) = false /\
  adding_producer (second_test main h n) = false.
Proof.
  intros Hm Hh Hc; unfold second_test; rewrite has_room_spec; destruct (Z.ltb_spec n (three_quarters h)); [|done].
  split; [|done]; cbn; split_all; [done| |by exists n]; exists h, n; split_all; [done|apply Hc|done].
Qed.
Lemma first_test_ok t main h n :
  (main <= top)%nat -> ts !! main = Some h -> counted ts own num t n ->
  lookup_ok s own num l t (first_test main h n) /\ critical (first_test main h n) = false /\
  adding_producer (first_test main h n) = false.
Proof.
  intros Hm Hh Hc; unfold first_test; case_match; [by cbn|by apply second_test_ok].
Qed.
End facts.

(** ** One access *)

Definition goes (own : gmap Z nat) (m : run contest) : Prop :=
  exists s' own' num' l', m = Done s' /\ contest_inv s' own' num' l' /\ own ⊆ own'.

Section access.
Context (s : contest) (own : gmap Z nat) (num : gmap Z Z) (l : list nat) (Hinv : contest_inv s own num l).
Context (luck : bool) (t : Z).
Local Abbreviation ts := (ct_tables s).
Local Abbreviation top := (ct_implicitProducerHash s).

Lemma pc_now p : ct_pcs s !! t = Some p -> t <> 0 /\ lookup_ok s own num l t p.
Proof using Hinv. apply (iv_pcs _ _ _ _ Hinv). Qed.

(** The thread only moves on; it takes or releases the lock. *)
Lemma goes_lock r p p' :
  ct_pcs s !! t = Some p -> is_set p = false -> adding_producer p = false -> adding_producer p' = false ->
  Z.b2z r = Z.b2z (ct_resizeInProgress s) - Z.b2z (critical p) + Z.b2z (critical p') ->
  lookup_ok s own num l t p' -> goes own (mret (set_lookup t p' (set_resize r s))).
Proof using Hinv.
  intros Hpc Hset Ha Ha' Hr Hp'; exists (set_lookup t p' (set_resize r s)), own, num, l; split; [done|]; split; [|done].
  apply (contest_local s own num l Hinv t p p' Hpc); [done..| |done].
  rewrite Ha, Ha'; cbn; rewrite Z.add_0_r, Z.sub_0_r; symmetry; by eapply count_word.
Qed.
Lemma goes_move p p' :
  ct_pcs s !! t = Some p -> is_set p = false -> adding_producer p = false -> adding_producer p' = false -> critical p' = critical p ->
  lookup_ok s own num l t p' -> goes own (mret (set_lookup t p' s)).
Proof using Hinv.
  intros Hpc Hset Ha Ha' Hc Hp'; apply (goes_lock (ct_resizeInProgress s) p p') in Hp'; [|done..|rewrite Hc; lia].
  by destruct s.
Qed.

(** *** Searching *)

Lemma goes_key main table index :
  ct_pcs s !! t = Some (L_key main table index) -> goes own (lookup_step luck t s).
Proof using Hinv.
  intros Hpc; destruct (pc_now _ Hpc) as [Ht (Hm & Hk & Hat & Habove & Hkn)]; unfold lookup_step, table_of, entry_of.
  rewrite Hpc; cbn [deref]; rewrite bind_Done; destruct (table_exists _ _ _ _ Hinv table ltac:(lia)) as (h & Hh & _).
  destruct (probe_here _ _ _ _ Hinv table t index h Ht Hh Hat) as (e & He & _ & Hr & Hzero & Hnext).
  rewrite Hh; cbn [deref]; rewrite bind_Done; cbv zeta; rewrite He; cbn [deref]; rewrite bind_Done.
  destruct (Z.eqb_spec (kvp_key e) t) as [E|Hne]; [|unfold invalid_thread_id; destruct (Z.eqb_spec (kvp_key e) 0) as [Hz|Hnz]].
  - eapply goes_move; [exact Hpc|try done..]; cbn; split_all; [done..|by exists h, e|done|].
    destruct Hkn as [(_ & _ & Ha)|(k & [? _])]; [|by exists k]; exfalso; apply (Ha table); exists h; split; [done|by eexists _, e].
  - specialize (Hzero Hz); rewrite (ti_prev _ _ (iv_tables _ _ _ _ Hinv) table h Hh); destruct table as [|table].
    + eapply goes_move; [exact Hpc|try done..]; cbn; split; [done|]; destruct Hkn as [?|(k & _ & j & Hj & Hhas)]; [done|].
      exfalso; destruct j as [|j]; [done|]; by apply (Habove (S j) ltac:(lia)).
    + eapply goes_move; [exact Hpc|try done..]; cbn; split_all; [done|lia|eapply at_start; [done|lia]| |done].
      intros j Hj; destruct (decide (j = S table)) as [->|]; [done|apply Habove; lia].
  - eapply goes_move; [exact Hpc|try done..]; cbn; split_all; [done..|auto|done|done].
Qed.

Lemma goes_value main table index :
  ct_pcs s !! t = Some (L_value main table index) -> goes own (lookup_step luck t s).
Proof using Hinv.
  intros Hpc; destruct (pc_now _ Hpc) as [Ht (Hm & Hk & (h & e & Hh & He & Hkey) & Habove & k & Hl)].
  unfold lookup_step, table_of, entry_of; rewrite Hpc; cbn [deref]; rewrite bind_Done, Hh; cbn [deref].
  rewrite bind_Done, He; cbn [deref]; rewrite bind_Done.
  assert (has_in ts table t) as Hhas by (exists h; split; [done|]; by eexists _, e).
  destruct (entry_of_key _ _ _ _ Hinv table h _ e Hh He ltac:(congruence)) as (k' & n & Ho & Hn & Hlt & Hv).
  rewrite Hkey in *; destruct Hl as [Hl Hin]; assert (k' = k) as -> by congruence.
  assert (kvp_value e = Some k) as -> by (destruct Hv as [?|(? & ? & ? & _)]; [done|congruence]).
  case_decide as Htm.
  - eapply goes_move; [exact Hpc|try done..]; subst; split; [done|]; by exists main.
  - eapply goes_move; [exact Hpc|try done..]; cbn; split_all; [done| |eapply at_start; [done|lia]].
    split; [apply Habove; lia|]; split; [|by exists k]; eapply room_later; eauto; lia.
Qed.

(** *** Entering *)

Lemma goes_enter main index value :
  ct_pcs s !! t = Some (L_enter main index value) -> goes own (lookup_step luck t s).
Proof using Hinv.
  intros Hpc; destruct (pc_now _ Hpc) as [Ht (Hm & Hen & Hat)]; unfold lookup_step, table_of, entry_of.
  rewrite Hpc; cbn [deref]; rewrite bind_Done; destruct (table_exists _ _ _ _ Hinv main ltac:(lia)) as (h & Hh & _).
  destruct (probe_here _ _ _ _ Hinv main t index h Ht Hh Hat) as (e & He & Hat' & Hr & _ & Hnext).
  rewrite Hh; cbn [deref]; rewrite bind_Done; cbv zeta; rewrite He; cbn [deref]; rewrite bind_Done.
  unfold invalid_thread_id; destruct (Z.eqb_spec (kvp_key e) 0) as [Hz|Hnz]; eapply goes_move; [exact Hpc|try done..]; cbn.
  - split_all; [done..|]; exists h; split; [done|lia].
  - split_all; [done..|]; apply Hnext; [done|]; intros E; apply Hen; exists h; split; [done|]; by eexists _, e.
Qed.

(** The rooms a table has suffice: the threads counted below three quarters of its
    capacity are fewer than its entries. *)
Lemma table_free main h h' :
  ts !! main = Some h -> length (hash_entries h') = Z.to_nat (capacity_of h) ->
  (forall j e, hash_entries h' !! j = Some e -> kvp_key e <> 0 ->
     exists n, num !! kvp_key e = Some n /\ n < three_quarters h) ->
  (forall j j' e e', hash_entries h' !! j = Some e -> hash_entries h' !! j' = Some e' ->
     kvp_key e = kvp_key e' -> kvp_key e <> 0 -> j = j') ->
  exists j e, hash_entries h' !! j = Some e /\ kvp_key e = 0.
Proof using Hinv.
  intros Hh Hlen Hin Hu; destruct (table_range _ _ _ _ Hinv main h Hh) as (_ & _ & Hc).
  apply (free_entry (dom (filter (fun tn => tn.2 < three_quarters h) num))); [|done|].
  - intros j e Hj He; destruct (Hin j e Hj He) as (n & Hn & Hlt); apply elem_of_dom; exists n.
    by apply map_lookup_filter_Some.
  - rewrite size_dom, Hlen.
    assert (1 <= three_quarters h /\ three_quarters h <= capacity_of h) as [H1 H2].
    { unfold three_quarters; pose proof (Z.div_mod (capacity_of h) 2); pose proof (Z.mod_pos_bound (capacity_of h) 2).
      pose proof (Z.div_mod (capacity_of h) 4); pose proof (Z.mod_pos_bound (capacity_of h) 4); lia. }
    pose proof (ci_rank _ _ (iv_counts _ _ _ _ Hinv) _ H1); lia.
Qed.

(** What replacing table [k] by one with more keys leaves to the others. *)
Lemma stable_replace p' k h h' t' q s' :
  ts !! k = Some h -> ct_tables s' = <[k := {| hn_table := h'; hn_prev := hn_prev h |}]> ts ->
  ct_implicitProducerHash s' = top -> ct_producers s' = ct_producers s ->
  hash_capacity h' = capacity_of h ->
  (forall j e, hash_entries (hn_table h) !! j = Some e -> kvp_key e <> 0 ->
     exists e', hash_entries h' !! j = Some e' /\ kvp_key e' = kvp_key e) ->
  (has h' t' -> has (hn_table h) t') -> ct_pcs s' = <[t := p']> (ct_pcs s) ->
  stable t' q s s' own own num num l l.
Proof using Hinv.
  intros Hh Et Ei Ep Hc Hkeep Hhas _; pose proof (ti_keys _ _ (iv_tables _ _ _ _ Hinv)) as Hkeys.
  assert (forall i g, ts !! i = Some g -> i <> k -> <[k := {| hn_table := h'; hn_prev := hn_prev h |}]> ts !! i = Some g)
    as Hother by (intros i g Hg Hne; by rewrite list_lookup_insert_ne).
  assert (<[k := {| hn_table := h'; hn_prev := hn_prev h |}]> ts !! k = Some {| hn_table := h'; hn_prev := hn_prev h |}) as Hnew.
  { apply list_lookup_insert_eq; by eapply lookup_lt_Some. }
  split; rewrite ?Et, ?Ei, ?Ep; try done; [|by intros i g Hg; apply (Hkeys i g Hg)].
  split.
  - intros i g Hg; destruct (decide (i = k)) as [->|Hne].
    + rewrite Hh in Hg; injection Hg as <-; eexists; split; [exact Hnew|done].
    + exists g; split; [by apply Hother|]; split; [done|]; by eauto.
  - intros i (g & Hg & Hg'); destruct (decide (i = k)) as [->|Hne].
    + rewrite Hnew in Hg; injection Hg as <-; exists h; split; [done|by apply Hhas].
    + rewrite list_lookup_insert_ne in Hg by done; by exists g.
Qed.

Lemma tables_replace k h h' :
  ts !! k = Some h -> hash_capacity h' = capacity_of h -> keys_ok h' ->
  tables_inv (<[k := {| hn_table := h'; hn_prev := hn_prev h |}]> ts) top.
Proof using Hinv.
  intros Hh Hc Hok; pose proof (iv_tables _ _ _ _ Hinv) as [Hlen Hprev Hkeys Hgrow].
  assert (forall i g, <[k := {| hn_table := h'; hn_prev := hn_prev h |}]> ts !! i = Some g ->
    exists g0, ts !! i = Some g0 /\ capacity_of g = capacity_of g0 /\ hn_prev g = hn_prev g0 /\ keys_ok (hn_table g)) as Hold.
  { intros i g [(-> & <- & _)|[Hne Hg]]%list_lookup_insert_Some; [by exists h|].
    exists g; split_all; [done..|]; by apply (Hkeys i g Hg). }
  split; [by rewrite length_insert|..].
  - intros i g Hg; destruct (Hold i g Hg) as (g0 & Hg0 & _ & -> & _); by apply Hprev.
  - intros i g Hg; destruct (Hold i g Hg) as (g0 & Hg0 & -> & _ & ?); split; [done|by apply (Hkeys i g0)].
  - intros i i' g g' Hi Hg Hg'; destruct (Hold i g Hg) as (g0 & Hg0 & -> & _), (Hold i' g' Hg') as (g0' & Hg0' & -> & _).
    by eapply Hgrow.
Qed.

Lemma goes_swap main index value :
  ct_pcs s !! t = Some (L_swap main index value) -> goes own (lookup_step luck t s).
Proof using Hinv.
  intros Hpc; destruct (pc_now _ Hpc) as [Ht (Hm & Hen & Hat & h & Hh & Hi)].
  unfold lookup_step, table_of, entry_of; rewrite Hpc; cbn [deref]; rewrite bind_Done, Hh; cbn [deref]; rewrite bind_Done.
  destruct (probe_here _ _ _ _ Hinv main t index h Ht Hh Hat) as (e & He & _ & Hr & _ & Hnext).
  destruct Hat as (h0 & d & Hh0 & Hd & Hi0 & Hmod & Hb); rewrite Hh in Hh0; injection Hh0 as <-.
  destruct (table_range _ _ _ _ Hinv main h Hh) as (_ & Hok & Hcap).
  rewrite (mask_mod _ Hok index Hi0) in *; fold (capacity_of h) in *; rewrite Z.mod_small in * by lia.
  rewrite He; cbn [deref]; rewrite bind_Done; unfold invalid_thread_id.
  assert (~ has (hn_table h) t) as Hnot by (intros Hhas; apply Hen; by exists h).
  destruct (Z.eqb_spec (kvp_key e) 0) as [Hz|Hnz].
  2:{ eapply goes_move; [exact Hpc|try done..]; cbn; split_all; [done..|]; apply Hnext; [done|].
      intros E; apply Hnot; by eexists _, e. }
  destruct Hen as (_ & (h1 & n & Hh1 & Hn & Hlt) & k & -> & Hown & Hin); rewrite Hh in Hh1; injection Hh1 as <-.
  set (e' := {| kvp_key := t; kvp_value := kvp_value e |}); set (h' := enter (Z.to_nat index) e' (hn_table h)).
  assert (forall k1 h1 j e1, ts !! k1 = Some h1 -> hash_entries (hn_table h1) !! j = Some e1 -> kvp_key e1 <> 0 ->
    exists p1 n1, own !! kvp_key e1 = Some p1 /\ num !! kvp_key e1 = Some n1 /\ n1 < three_quarters h1) as Hold.
  { intros k1 h1 j e1 H1 Hj H0; destruct (entry_of_key _ _ _ _ Hinv k1 h1 j e1 H1 Hj H0) as (p1 & n1 & ? & ? & ? & _); eauto. }
  assert (keys_ok h') as Hok'.
  { eapply (enter_keys (hn_table h) Hok t Ht Hnot (kvp_value e) _ e He Hz d); [done|fold (capacity_of h); by rewrite <- Hmod| |].
    - intros d' e1 Hd' He1; by destruct (Hb d' e1 Hd' He1).
    - eapply (table_free main h); [done|by cbn; rewrite length_insert, (to_length _ Hok)| |by eapply enter_unique].
      intros j e1 Hj H0; destruct (enter_cases _ t Hnot _ _ e He j e1 Hj H0) as [[_ ->]|(_ & Hj' & _)]; [by exists n|].
      destruct (Hold main h j e1 Hh Hj' H0) as (_ & n1 & _ & ? & ?); by exists n1. }
  eexists _, own, num, l; split; [reflexivity|]; split; [|done].
  pose proof Hinv as [_ _ Hcnt _ Hlist Hadd Hdom1 Hdom2 _ _].
  eapply contest_step_ok; [done|exact Hpc|done|cbn; lia|cbn; rewrite Hadd; f_equal; lia|by apply tables_replace| |done..| |].
  - apply (entries_step s own num t); intros k1 h1 j e1 Hh1 Hj H0; cbn in Hh1.
    apply list_lookup_insert_Some in Hh1 as [(<- & <- & _)|[Hne Hh1]]; cbn [hn_table] in Hj.
    + destruct (enter_cases _ t Hnot _ _ e He j e1 Hj H0) as [[-> ->]|(_ & Hj' & Hkne)].
      * right; exists k, n; cbn [kvp_key]; split_all; [done..|]; right; exists index, (Some k).
        by rewrite lookup_insert_eq.
      * left; split; [done|]; split; [|done]; destruct (entry_of_key _ _ _ _ Hinv main h j e1 Hh Hj' H0) as (p1 & n1 & H1).
        by exists p1, n1.
    + destruct (decide (kvp_key e1 = t)) as [E|Hkne].
      * right; destruct (entry_of_key _ _ _ _ Hinv k1 h1 j e1 Hh1 Hj H0) as (p1 & n1 & H1 & H2 & H3 & Hv).
        exists p1, n1; split_all; [done..|]; rewrite E in *; destruct Hv as [?|(? & ? & ? & _)]; [by left|congruence].
      * left; split; [done|]; split; [|done]; by apply (entry_of_key _ _ _ _ Hinv k1 h1 j e1 Hh1 Hj H0).
  - intros t' q Hne Hq; eapply (stable_replace _ main h h'); try done.
    + intros j e1 Hj H0; exists e1; split; [|done]; cbn; rewrite list_lookup_insert_ne; [done|]; intros <-; congruence.
    + destruct (iv_pcs _ _ _ _ Hinv t' q Hq) as [H0 _]; intros Hh'.
      by apply (enter_has _ t Hnot _ _ e He Hz t') in Hh' as [?|?].
  - cbn; split; [done|]; split; [|by exists k].
    eexists _, e'; split; [apply list_lookup_insert_eq; by eapply lookup_lt_Some|]; split; [|done].
    by eapply enter_new.
Qed.

(** *** Storing the value *)

Lemma goes_set main index value :
  ct_pcs s !! t = Some (L_set main index value) -> goes own (lookup_step luck t s).
Proof using Hinv.
  intros Hpc; destruct (pc_now _ Hpc) as [Ht (Hm & (h & e & Hh & He & Hkey) & k & -> & Hown & Hin)].
  unfold lookup_step, table_of, entry_of; rewrite Hpc; cbn [deref]; rewrite bind_Done, Hh; cbn [deref]; rewrite bind_Done.
  rewrite He; cbn [deref]; rewrite bind_Done.
  destruct (table_range _ _ _ _ Hinv main h Hh) as (_ & Hok & Hcap).
  set (e' := {| kvp_key := kvp_key e; kvp_value := Some k |}); set (h' := enter (Z.to_nat index) e' (hn_table h)).
  assert (has_in ts main t) as Hhas by (exists h; split; [done|]; by eexists _, e).
  eexists _, own, num, l; split; [reflexivity|]; split; [|done].
  pose proof Hinv as [_ _ Hcnt _ Hlist Hadd Hdom1 Hdom2 _ _].
  eapply contest_step_ok; [done|exact Hpc|done|cbn; lia|cbn; rewrite Hadd; f_equal; lia| | |done..| |].
  - apply tables_replace; try done; by eapply store_keys.
  - apply (entries_step s own num t); intros k1 h1 j e1 Hh1 Hj H0; cbn in Hh1.
    assert (exists h0 e0, ts !! k1 = Some h0 /\ hash_entries (hn_table h0) !! j = Some e0 /\ kvp_key e1 = kvp_key e0 /\
      capacity_of h1 = capacity_of h0 /\ (k1 = main -> j = Z.to_nat index -> e1 = e') /\
      (k1 <> main \/ j <> Z.to_nat index -> e1 = e0)) as (h0 & e0 & Hh0 & He0 & Ek & Ec & Ehere & Eelse).
    { apply list_lookup_insert_Some in Hh1 as [(<- & <- & _)|[Hne Hh1]]; cbn [hn_table] in Hj.
      - destruct (store_key _ _ e _ He j e1 Hj) as (e0 & He0 & Ek); exists h, e0; split_all; try done.
        + intros _ ->; pose proof (enter_new (hn_table h) (kvp_key e) (Some k) _ e He) as E; fold e' in E; congruence.
        + intros [?|Hne]; [done|]; cbn in Hj; rewrite list_lookup_insert_ne in Hj by done; congruence.
      - exists h1, e1; by split_all. }
    destruct (entry_of_key _ _ _ _ Hinv k1 h0 j e0 Hh0 He0 ltac:(congruence)) as (p1 & n1 & H1 & H2 & H3 & Hv).
    unfold entry_ok, three_quarters in *; rewrite Ek, Ec; destruct (decide (kvp_key e0 = t)) as [E|Hne].
    + right; rewrite E in *; assert (p1 = k) as -> by congruence; exists k, n1; split_all; [done..|]; left.
      destruct Hv as [Hv|(index1 & v1 & Hv & ->)].
      * destruct (decide (k1 = main)) as [->|?]; [|rewrite Eelse; [done|by left]].
        destruct (decide (j = Z.to_nat index)) as [->|?]; [by rewrite Ehere|rewrite Eelse; [done|by right]].
      * rewrite Hpc in Hv; injection Hv as <- <- <-; by rewrite Ehere.
    + left; split; [done|]; split; [|done]; exists p1, n1; split_all; [done..|].
      assert (e1 = e0) as ->; [|done]; apply Eelse; destruct (decide (k1 = main)) as [->|]; [|by left].
      right; intros ->; rewrite Hh in Hh0; injection Hh0 as <-; congruence.
  - intros t' q Hne Hq; eapply (stable_replace _ main h h'); try done.
    + intros j e1 Hj _; by eapply key_store.
    + intros Hh'; by eapply store_has.
  - cbn; split; [done|]; exists main; split; [done|]; exists {| hn_table := h'; hn_prev := hn_prev h |}; split.
    + apply list_lookup_insert_eq; by eapply lookup_lt_Some.
    + cbn [hn_table]; eapply store_has; [done|]; destruct Hhas as (h1 & Hh1 & ?); rewrite Hh in Hh1; by injection Hh1 as <-.
Qed.
End access.
