(* ===== verification/HashRaceSafe.v ===== *)
(** * Every thread finds its own producer

    The remaining accesses of [HashRace.v] (registering, making a larger table,
    linking a producer) keep the invariant, and what follows from it:
    [hash_race_safe] and [hash_race_stays]. *)

From S2P Require Import Prelude BlockPool ProducerHash HashRace HashRaceInv HashRaceSteps Threads.

(** ** What changes *)

Lemma counts_insert num t count n :
  counts_inv num count -> num !! t = None -> Z.of_nat (size num) < 2 ^ 31 -> n = u64 (1 + count) ->
  n = count + 1 /\ counts_inv (<[t := n]> num) n.
Proof.
  intros [-> Hn Hr] Ht Hs ->; rewrite wrap_small by word_lia; split; [lia|]; split.
  - rewrite map_size_insert_None by done; lia.
  - intros t' n' [[_ <-]|[_ Hn']]%lookup_insert_Some; [lia|by eapply Hn].
  - intros b Hb; destruct (decide (1 + Z.of_nat (size num) < b)) as [Hlt|Hge].
    + rewrite map_filter_insert_True by done; rewrite map_size_insert_None.
      2:{ apply map_lookup_filter_None; by left. }
      pose proof (map_subseteq_size _ _ (map_filter_subseteq (fun tn : Z * Z => tn.2 < b) num)); lia.
    + rewrite map_filter_insert_False by (cbn; lia); rewrite delete_id by done; by apply Hr.
Qed.

Lemma counts_delete num t count n :
  counts_inv num count -> num !! t = Some n -> Z.of_nat (size num) < 2 ^ 31 ->
  counts_inv (delete t num) (u64 (count - 1)).
Proof.
  intros [-> Hn Hr] Ht Hs; pose proof (map_size_delete_Some t num ltac:(by eexists)) as Hd.
  assert (size num <> O) as Hne by (intros E; apply map_size_empty_iff in E; subst; by rewrite lookup_empty in Ht).
  split; [rewrite wrap_small by word_lia; lia|intros t' n' [_ Hn']%lookup_delete_Some; by eapply Hn|].
  intros b Hb; rewrite map_filter_delete.
  assert (size (delete t (filter (fun tn : Z * Z => (tn.2 < b)%Z) num)) <= size (filter (fun tn : Z * Z => (tn.2 < b)%Z) num))%nat.
  { apply map_subseteq_size, delete_subseteq. }
  specialize (Hr b Hb); lia.
Qed.

Lemma tables_grow_app t ts top h :
  tables_inv ts top -> (forall j e, hash_entries (hn_table h) !! j = Some e -> kvp_key e = 0) -> t <> 0 ->
  tables_grow t ts (ts ++ [h]).
Proof.
  intros Hi Hempty Ht; split.
  - intros k g Hg; exists g; split; [by apply lookup_app_l_Some|]; split; [done|]; by eauto.
  - intros k (g & Hg & j & e & Hj & He); apply lookup_app_Some in Hg as [Hg|[_ Hg]].
    + exists g; split; [done|]; by exists j, e.
    + apply list_lookup_singleton_Some in Hg as [_ <-]; specialize (Hempty j e Hj); congruence.
Qed.

Lemma tables_app ts top n c :
  tables_inv ts top -> larger ts top n c ->
  tables_inv (ts ++ [{| hn_table := new_hash c; hn_prev := Some top |}]) (S top).
Proof.
  intros [Hlen Hprev Hkeys Hgrow] ((h0 & Hh0 & Hle) & _ & ex & Hex & ->).
  assert (2 ^ ex <= 2 ^ 40) by (apply Z.pow_le_mono_r; lia).
  split; [rewrite length_app, Hlen; cbn; lia|..].
  - intros k h [Hh|[Hk Hh]]%lookup_app_Some; [by apply Hprev|].
    apply list_lookup_singleton_Some in Hh as [Hk' <-]; assert (k = S top) as -> by lia; done.
  - intros k h [Hh|[Hk Hh]]%lookup_app_Some; [by apply (Hkeys k)|].
    apply list_lookup_singleton_Some in Hh as [_ <-]; split; [apply new_hash_keys; lia|done].
  - intros k k' h h' Hk [Hh|[Hk1 Hh]]%lookup_app_Some [Hh'|[Hk1' Hh']]%lookup_app_Some; [by eapply Hgrow|..].
    + apply list_lookup_singleton_Some in Hh' as [_ <-]; unfold capacity_of at 2; cbn.
      apply lookup_lt_Some in Hh as Hlt; pose proof (Hgrow k top h h0 ltac:(lia) Hh Hh0); lia.
    + apply lookup_lt_Some in Hh'; lia.
    + apply list_lookup_singleton_Some in Hh as [_ <-], Hh' as [_ <-]; lia.
Qed.

(** The list of producers when a new one is made, gets its link, is linked. *)
Lemma linked_ext ps ps' tail l :
  (forall k, k ∈ l -> ps' !! k = ps !! k) -> linked ps tail l -> linked ps' tail l.
Proof.
  revert tail; induction l as [|k l IH]; intros tail Hext; cbn [linked]; [done|].
  intros (-> & b & Hb & Hl); split; [done|]; exists b; rewrite Hext by set_solver; split; [done|].
  apply IH; [|done]; intros k' Hk'; apply Hext; set_solver.
Qed.
Lemma linked_bound ps tail l k : linked ps tail l -> k ∈ l -> (k < length ps)%nat.
Proof. intros Hl Hk; destruct (linked_lookup ps k l tail Hl Hk) as (b & Hb & _); by eapply lookup_lt_Some. Qed.

Lemma list_create ps tail own l t :
  list_inv ps tail own l -> own !! t = None ->
  list_inv (ps ++ [{| pb_next := None; pb_inactive := false |}]) tail (<[t := length ps]> own) l /\ (length ps ∉ l).
Proof.
  intros [Hl Hnd Ha Hinj Ho] Ht; split; [|intros Hin; pose proof (linked_bound _ _ _ _ Hl Hin); lia].
  assert (forall t' k, own !! t' = Some k -> k <> length ps) as Hlt.
  { intros t' k Hk ->; assert (length ps < length ps)%nat; [apply Ho; by exists t'|lia]. }
  split; [|done|..].
  - eapply linked_ext; [|exact Hl]; intros k Hk; apply lookup_app_l; by eapply linked_bound.
  - intros k b [Hb|[_ Hb]]%lookup_app_Some; [by eapply Ha|]; by apply list_lookup_singleton_Some in Hb as [_ <-].
  - intros t1 t2 k [[<- <-]|[? H1]]%lookup_insert_Some [[<- E]|[? H2]]%lookup_insert_Some; try done.
    + by apply Hlt in H2.
    + subst; by apply Hlt in H1.
    + by eapply Hinj.
  - intros k; rewrite length_app; cbn; destruct (decide (k = length ps)) as [->|Hne].
    + split; [|lia]; intros _; exists t; apply lookup_insert_eq.
    + transitivity (k < length ps)%nat; [lia|]; rewrite Ho; split; intros [t' Ht'].
      * exists t'; rewrite lookup_insert_ne; [done|congruence].
      * exists t'; apply lookup_insert_Some in Ht' as [[_ E]|[_ ?]]; [congruence|done].
Qed.

Lemma list_next ps tail own l k b next :
  list_inv ps tail own l -> ps !! k = Some b -> (k ∉ l) ->
  list_inv (<[k := {| pb_next := next; pb_inactive := pb_inactive b |}]> ps) tail own l.
Proof.
  intros [Hl Hnd Ha Hinj Ho] Hb Hk; split; try done.
  - eapply linked_ext; [|exact Hl]; intros k' Hk'; rewrite list_lookup_insert_ne; [done|intros ->; done].
  - intros k' b' [(_ & <- & _)|[_ Hb']]%list_lookup_insert_Some; [exact (Ha k b Hb)|by eapply Ha].
  - intros k'; rewrite length_insert; apply Ho.
Qed.

Lemma list_link ps tail own l k b :
  list_inv ps tail own l -> ps !! k = Some b -> pb_next b = tail -> (k ∉ l) -> list_inv ps (Some k) own (k :: l).
Proof.
  intros [Hl Hnd Ha Hinj Ho] Hb Hn Hk; split; try done; [|by apply NoDup_cons].
  cbn; split; [done|]; exists b; by rewrite Hn.
Qed.

(** ** The accesses *)

Section access.
Context (s : contest) (own : gmap Z nat) (num : gmap Z Z) (l : list nat) (Hinv : contest_inv s own num l).
Context (luck : bool) (t : Z).
Local Abbreviation ts := (ct_tables s).
Local Abbreviation top := (ct_implicitProducerHash s).

Ltac start Hpc :=
  unfold lookup_step, table_of, entry_of; rewrite Hpc; cbn [deref]; rewrite bind_Done.

Lemma count_eq d : ct_producerCount s = u32 (Z.of_nat (length (ct_producers s)) - tally adding_producer (ct_pcs s) + d - d).
Proof using Hinv. rewrite (iv_added _ _ _ _ Hinv); f_equal; lia. Qed.

Lemma goes_main : ct_pcs s !! t = Some L_main -> goes own (lookup_step luck t s).
Proof using Hinv.
  intros Hpc; destruct (pc_now _ _ _ _ Hinv t _ Hpc) as [Ht Hkn]; start Hpc.
  eapply goes_move; [done|exact Hpc|try done..]; cbn; split_all; [done..| | |done].
  - eapply at_start; [done|lia].
  - intros j Hj; lia.
Qed.

(** *** Registering *)

Lemma goes_count main : ct_pcs s !! t = Some (L_count main) -> goes own (lookup_step luck t s).
Proof using Hinv.
  intros Hpc; destruct (pc_now _ _ _ _ Hinv t _ Hpc) as [Ht (Hm & Ho & Hn & Ha)]; start Hpc.
  destruct (table_exists _ _ _ _ Hinv main Hm) as (h & Hh & _); rewrite Hh; cbn [deref]; rewrite bind_Done; cbv zeta.
  set (n := u64 _); destruct (counts_insert num t _ n (iv_counts _ _ _ _ Hinv) Hn (threads_counted _ _ _ _ Hinv) eq_refl) as [_ Hcnt].
  pose proof Hinv as [Htab _ _ _ Hlist _ Hdom1 Hdom2 _ _].
  assert (counted ts own (<[t := n]> num) t n) as Hc by (split; [done|split; [apply lookup_insert_eq|done]]).
  destruct (first_test_ok s own (<[t := n]> num) l t main h n Hm Hh Hc) as (Hok & Hcr & Had).
  eexists _, own, (<[t := n]> num), l; split; [reflexivity|]; split; [|done].
  eapply contest_step_ok; [done|exact Hpc|done|cbn; rewrite Hcr; cbn; lia|rewrite Had; apply count_eq|done| |done..| | | |by apply (lookup_ok_same s)].
  - apply (entries_same s own num l Hinv t _ _ Hpc); [done|by left|]; right; split; [done|right; by exists n].
  - rewrite dom_insert_L; set_solver.
  - intros x; rewrite dom_insert_L; intros [->%elem_of_singleton|Hx]%elem_of_union; [|by apply Hdom2].
    apply elem_of_dom; by eexists.
  - intros t' q Hne _; eapply stable_tables; try done; by rewrite lookup_insert_ne.
Qed.

Lemma goes_lock_flag main newCount :
  ct_pcs s !! t = Some (L_lock main newCount) -> goes own (lookup_step luck t s).
Proof using Hinv.
  intros Hpc; destruct (pc_now _ _ _ _ Hinv t _ Hpc) as [Ht (Hm & Hc)]; start Hpc.
  destruct (table_exists _ _ _ _ Hinv main Hm) as (h & Hh & _); rewrite Hh; cbn [deref]; rewrite bind_Done.
  destruct (ct_resizeInProgress s) eqn:Hr.
  - destruct (second_test_ok s own num l t main h newCount Hm Hh Hc) as (? & ? & ?); by eapply goes_move.
  - eapply goes_lock; [done|exact Hpc|try done..]; by rewrite Hr.
Qed.

Lemma goes_reread newCount : ct_pcs s !! t = Some (L_reread newCount) -> goes own (lookup_step luck t s).
Proof using Hinv.
  intros Hpc; destruct (pc_now _ _ _ _ Hinv t _ Hpc) as [Ht Hc]; start Hpc; cbv zeta.
  destruct (table_exists _ _ _ _ Hinv top ltac:(lia)) as (h & Hh & _); rewrite Hh; cbn [deref]; rewrite bind_Done.
  destruct (first_test_ok s own num l t top h newCount ltac:(lia) Hh Hc) as (? & ? & ?); by eapply goes_move.
Qed.

Lemma goes_reload newCount : ct_pcs s !! t = Some (L_reload newCount) -> goes own (lookup_step luck t s).
Proof using Hinv.
  intros Hpc; destruct (pc_now _ _ _ _ Hinv t _ Hpc) as [Ht Hc]; start Hpc; cbv zeta.
  destruct (table_exists _ _ _ _ Hinv top ltac:(lia)) as (h & Hh & Hok); rewrite Hh; cbn [deref]; rewrite bind_Done, shiftr1.
  destruct (Z.leb_spec (capacity_of h / 2) newCount) as [Hle|Hgt].
  2:{ eapply goes_move; [done|exact Hpc|try done..]; cbn; split_all; [done..|]; by exists h. }
  pose proof (ci_range _ _ (iv_counts _ _ _ _ Hinv) t newCount ltac:(apply Hc)).
  destruct (to_capacity _ Hok) as (c & Hc1 & Ec); fold (capacity_of h) in Ec.
  assert (capacity_of h = 2 * 2 ^ (c - 1)) as Ec' by (rewrite Ec, <- Z.pow_succ_r by lia; f_equal; lia).
  rewrite Ec', (Z.mul_comm 2), Z.div_mul in Hle by lia.
  assert (c - 1 <= 31) by (apply (Z.pow_le_mono_r_iff 2); lia).
  assert (u64 (Z.shiftl (capacity_of h) 1) = 2 ^ (c + 1)) as ->.
  { rewrite Z.shiftl_mul_pow2, Ec by lia; rewrite Z.pow_add_r, wrap_small; [done| |lia..].
    assert (2 ^ c <= 2 ^ 33) by (apply Z.pow_le_mono_r; lia); word_lia. }
  destruct (grow_capacity_ok newCount ltac:(lia) 64 (c + 1)) as (e & -> & He & Hlt); [lia..|]; rewrite bind_Done.
  eapply goes_move; [done|exact Hpc|try done..]; cbn; split; [done|]; split; [done|]; split.
  - exists h; split; [done|]; rewrite Ec; apply Z.pow_le_mono_r; lia.
  - split; [done|]; exists e; split; [lia|done].
Qed.

Lemma goes_alloc main newCount c :
  ct_pcs s !! t = Some (L_alloc main newCount c) -> goes own (lookup_step luck t s).
Proof using Hinv.
  intros Hpc; destruct (pc_now _ _ _ _ Hinv t _ Hpc) as [Ht H]; start Hpc.
  eapply goes_move; [done|exact Hpc|destruct luck; try done..]; exists newCount; apply H.
Qed.

Lemma goes_publish main newCount c :
  ct_pcs s !! t = Some (L_publish main newCount c) -> goes own (lookup_step luck t s).
Proof using Hinv.
  intros Hpc; destruct (pc_now _ _ _ _ Hinv t _ Hpc) as [Ht (-> & (Ho & Hn & Ha) & Hla)]; start Hpc; cbv zeta.
  pose proof Hinv as [Htab _ Hcnt _ Hlist _ Hdom1 Hdom2 _ _]; pose proof (ti_length _ _ Htab) as Hlen; rewrite Hlen.
  assert (forall t', t' <> 0 -> tables_grow t' ts (ts ++ [{| hn_table := new_hash c; hn_prev := Some top |}])) as Hgrow.
  { intros t'; eapply tables_grow_app; [done|apply new_hash_free]. }
  eexists _, own, num, l; split; [reflexivity|]; split; [|done].
  eapply contest_step_ok; [done|exact Hpc|done|cbn; lia|apply count_eq|by eapply tables_app| |done..| |].
  - intros k h j e [Hh|[_ Hh]]%lookup_app_Some Hj H0; [by eapply entries_same; eauto|].
    apply list_lookup_singleton_Some in Hh as [_ <-]; by apply new_hash_free in Hj.
  - intros t' q Hne Hq; destruct (iv_pcs _ _ _ _ Hinv t' q Hq) as [H0 _]; split; try done.
    + by apply Hgrow.
    + intros k h Hh; by apply (table_range _ _ _ _ Hinv k h Hh).
    + cbn; lia.
    + intros Hcr; exfalso; apply Hne; eapply (tally_unique critical (ct_pcs s) t' t); [|done..].
      rewrite (iv_lock _ _ _ _ Hinv); apply b2z_range.
  - cbn; split; [done|]; split; [split; [done|split; [done|by eapply absent_grow; eauto]]|].
    eexists; split; [apply list_lookup_middle; lia|]; unfold capacity_of; cbn.
    destruct Hla as (_ & Hlt & e & He & ->).
    assert (2 ^ e = 2 * 2 ^ (e - 1)) as E by (rewrite <- Z.pow_succ_r by lia; f_equal; lia).
    rewrite E, (Z.mul_comm 2), Z.div_mul by lia; lia.
Qed.

Lemma goes_unlock main newCount :
  ct_pcs s !! t = Some (L_unlock main newCount) -> goes own (lookup_step luck t s).
Proof using Hinv.
  intros Hpc; destruct (pc_now _ _ _ _ Hinv t _ Hpc) as [Ht (Hm & Hc & h & Hh & _)]; start Hpc.
  rewrite Hh; cbn [deref]; rewrite bind_Done.
  destruct (second_test_ok s own num l t main h newCount Hm Hh Hc) as (? & Hcr & ?).
  eapply goes_lock; [done|exact Hpc|try done..]; by rewrite Hcr, (critical_locked _ _ _ _ Hinv t _ Hpc).
Qed.

Lemma goes_clear : ct_pcs s !! t = Some L_clear -> goes own (lookup_step luck t s).
Proof using Hinv.
  intros Hpc; destruct (pc_now _ _ _ _ Hinv t _ Hpc) as [Ht Hnew]; start Hpc.
  eapply goes_lock; [done|exact Hpc|try done..]; by rewrite (critical_locked _ _ _ _ Hinv t _ Hpc).
Qed.

Lemma goes_undo unlock : ct_pcs s !! t = Some (L_undo unlock) -> goes own (lookup_step luck t s).
Proof using Hinv.
  intros Hpc; destruct (pc_now _ _ _ _ Hinv t _ Hpc) as [Ht (n & Ho & Hn & Ha)]; start Hpc.
  pose proof Hinv as [Htab _ Hcnt _ Hlist _ Hdom1 Hdom2 _ _].
  assert (newcomer ts own (delete t num) t) as Hnew by (split; [done|split; [apply lookup_delete_eq|done]]).
  eexists _, own, (delete t num), l; split; [reflexivity|]; split; [|done].
  eapply contest_step_ok; [done|exact Hpc|done|destruct unlock; cbn; lia|destruct unlock; apply count_eq|done| | |done| | | |].
  - apply (entries_same s own num l Hinv t _ _ Hpc); [done|by left|]; right; split; [done|by left].
  - eapply counts_delete; [done|exact Hn|by eapply threads_counted].
  - rewrite dom_delete_L; intros x Hx; apply elem_of_difference; split; [by apply Hdom1|].
    intros ->%elem_of_singleton; apply elem_of_dom in Hx as [? ?]; congruence.
  - rewrite dom_delete_L; set_solver.
  - intros t' q Hne _; eapply stable_tables; try done; by rewrite lookup_delete_ne.
  - by destruct unlock.
Qed.

(** *** Linking a producer *)

Lemma goes_tail main : ct_pcs s !! t = Some (L_tail main) -> goes own (lookup_step luck t s).
Proof using Hinv.
  intros Hpc; destruct (pc_now _ _ _ _ Hinv t _ Hpc) as [Ht H]; start Hpc.
  pose proof (li_linked _ _ _ _ (iv_list _ _ _ _ Hinv)) as Hl.
  destruct (ct_producerListTail s) as [ptr|] eqn:Et; eapply goes_move; try done.
  destruct H as (? & ? & ?); repeat (split; [done|]); destruct l as [|k l']; cbn in Hl; [done|]; destruct Hl as [[= ->] _]; set_solver.
Qed.

Lemma scan_next main ptr b :
  ptr ∈ l -> ct_producers s !! ptr = Some b ->
  (main <= top)%nat /\ room_for ts num main t /\ (exists n, counted ts own num t n) ->
  let p := match pb_next b with None => L_create main | Some ptr => L_inactive main ptr end in
  lookup_ok s own num l t p /\ critical p = false /\ adding_producer p = false.
Proof using Hinv.
  intros Hin Hb H; destruct (listed_lookup _ _ _ _ Hinv ptr Hin) as (b' & Hb' & _ & Hn); simplify_eq.
  destruct Hn as [->|(k & -> & Hk)]; (split; [|done]); [done|].
  destruct H as (? & ? & ?); by repeat (split; [done|]).
Qed.

Lemma goes_scan main ptr :
  ct_pcs s !! t = Some (L_inactive main ptr) \/ ct_pcs s !! t = Some (L_catch main ptr) ->
  goes own (lookup_step luck t s).
Proof using Hinv.
  intros [Hpc|Hpc]; destruct (pc_now _ _ _ _ Hinv t _ Hpc) as [Ht (Hm & Hr & Hc & Hin)]; start Hpc.
  - destruct (listed_lookup _ _ _ _ Hinv ptr Hin) as (b & Hb & Ha & _); rewrite Hb; cbn [deref]; rewrite bind_Done, Ha.
    destruct (scan_next main ptr b Hin Hb ltac:(done)) as (? & ? & ?); by eapply goes_move.
  - destruct (listed_lookup _ _ _ _ Hinv ptr Hin) as (b & Hb & Ha & _); rewrite Hb; cbn [deref]; rewrite bind_Done, Ha.
    destruct (scan_next main ptr b Hin Hb ltac:(done)) as (? & ? & ?); by eapply goes_move.
Qed.

Lemma goes_create main : ct_pcs s !! t = Some (L_create main) -> goes own (lookup_step luck t s).
Proof using Hinv.
  intros Hpc; destruct (pc_now _ _ _ _ Hinv t _ Hpc) as [Ht (Hm & Hr & n & Ho & Hn & Ha)]; start Hpc.
  destruct luck; [|eapply goes_move; try done; by exists n].
  pose proof Hinv as [Htab _ Hcnt _ Hlist Hadd Hdom1 Hdom2 _ _].
  destruct (list_create _ _ _ _ t Hlist Ho) as [Hlist' Hnl]; set (k := length (ct_producers s)) in *.
  assert (own ⊆ <[t := k]> own) as Hsub by (by apply insert_subseteq).
  eexists _, (<[t := k]> own), num, l; split; [reflexivity|]; split; [|done].
  eapply contest_step_ok; [done|exact Hpc|done|cbn; lia| |done| |done|done| |done| |].
  - cbn; rewrite Hadd, length_app; cbn; f_equal; lia.
  - apply (entries_same s own num l Hinv t _ _ Hpc); [done| |by left]; right; split; [done|by exists k].
  - rewrite dom_insert_L; intros x [->%elem_of_singleton|Hx]%elem_of_union; [apply elem_of_dom; by eexists|by apply Hdom1].
  - intros t' q Hne _; eapply stable_tables; try done; [by rewrite lookup_insert_ne|].
    intros k' Hk'; split; [done|]; cbn; apply lookup_app_l; apply (li_owner _ _ _ _ Hlist); by exists t'.
  - cbn; split_all; [done..|]; split; [apply lookup_insert_eq|]; split_all; [done..|by eexists].
Qed.

Lemma goes_add main k : ct_pcs s !! t = Some (L_add main k) -> goes own (lookup_step luck t s).
Proof using Hinv.
  intros Hpc; destruct (pc_now _ _ _ _ Hinv t _ Hpc) as [Ht H]; start Hpc.
  eexists (set_lookup t (L_prev main k) _), own, num, l; split; [reflexivity|]; split; [|done].
  eapply (contest_local s own num l Hinv t _ _ Hpc); try done; cbn; [lia|f_equal; lia].
Qed.

Lemma goes_prev main k : ct_pcs s !! t = Some (L_prev main k) -> goes own (lookup_step luck t s).
Proof using Hinv.
  intros Hpc; destruct (pc_now _ _ _ _ Hinv t _ Hpc) as [Ht H]; start Hpc; by eapply goes_move.
Qed.

Lemma goes_next main k prev : ct_pcs s !! t = Some (L_next main k prev) -> goes own (lookup_step luck t s).
Proof using Hinv.
  intros Hpc; destruct (pc_now _ _ _ _ Hinv t _ Hpc) as [Ht (Hm & Hr & Hh)]; start Hpc.
  pose proof Hh as (Ho & Hnl & _); destruct (holding_lookup _ _ _ _ Hinv t k Ho) as (b & Hb & _).
  rewrite Hb; cbn [deref]; rewrite bind_Done; pose proof Hinv as [Htab _ Hcnt _ Hlist Hadd Hdom1 Hdom2 _ _].
  eexists _, own, num, l; split; [reflexivity|]; split; [|done].
  eapply contest_step_ok; [done|exact Hpc|done|cbn; lia| |done| |done| |done..| |].
  - cbn; rewrite Hadd, length_insert; f_equal; lia.
  - apply (entries_same s own num l Hinv t _ _ Hpc); [done|by left|by left].
  - by eapply list_next.
  - intros t' q Hne _; eapply stable_tables; try done; intros k' Hk'; split; [done|]; cbn.
    apply list_lookup_insert_ne; intros ->; apply Hne; by eapply (li_inj _ _ _ _ Hlist).
  - cbn; split_all; [done..|]; eexists; split; [apply list_lookup_insert_eq; by eapply lookup_lt_Some|done].
Qed.

Lemma goes_link main k prev : ct_pcs s !! t = Some (L_link main k prev) -> goes own (lookup_step luck t s).
Proof using Hinv.
  intros Hpc; destruct (pc_now _ _ _ _ Hinv t _ Hpc) as [Ht (Hm & Hr & Hh & b & Hb & Hnext)]; start Hpc.
  destruct (luck && _) eqn:E; [|by eapply goes_move].
  apply andb_true_iff in E as [_ Et%bool_decide_eq_true]; destruct Hh as (Ho & Hnl & Ha & _).
  pose proof Hinv as [Htab _ Hcnt _ Hlist Hadd Hdom1 Hdom2 _ _].
  eexists _, own, num, (k :: l); split; [reflexivity|]; split; [|done].
  eapply contest_step_ok; [done|exact Hpc|done|cbn; lia|apply count_eq|done| |done| |done..| |].
  - apply (entries_same s own num l Hinv t _ _ Hpc); [done|by left|by left].
  - eapply list_link; [done|exact Hb|by rewrite Hnext, Et|done].
  - intros t' q Hne _; eapply stable_tables; try done; [|intros ? ?; by right].
    intros k' Hk'; split; [|done]; intros [->|?]%elem_of_cons; [|done].
    exfalso; apply Hne; by eapply (li_inj _ _ _ _ Hlist).
  - cbn; split; [done|]; split; [|by eapply at_start]; split; [apply Ha|]; split; [done|].
    exists k; split; [done|]; split; [done|by left].
Qed.

(** Every access of a thread in a call is defined, and keeps the invariant. *)
Lemma lookup_step_ok p :
  ct_pcs s !! t = Some p -> (forall r, p <> L_idle r) -> goes own (lookup_step luck t s).
Proof using Hinv.
  intros Hpc Hidle; destruct p; eauto using goes_main, goes_key, goes_value, goes_enter, goes_swap, goes_set,
    goes_count, goes_lock_flag, goes_reload, goes_alloc, goes_publish, goes_unlock, goes_undo, goes_clear,
    goes_reread, goes_tail, goes_scan, goes_create, goes_add, goes_prev, goes_next, goes_link.
  - by destruct (Hidle result).
  - by destruct (pc_now _ _ _ _ Hinv t _ Hpc) as [_ []].
Qed.
End access.

(** ** Reachable states *)

Lemma new_contest_pcs ids t p :
  ct_pcs (new_contest ids) !! t = Some p -> p = L_idle None /\ t ∈ ids.
Proof.
  cbn; intros H%elem_of_list_to_map_2; apply list_elem_of_fmap in H as (t' & [= -> ->] & ?); done.
Qed.

Lemma new_contest_size ids : (size (ct_pcs (new_contest ids)) <= length ids)%nat.
Proof.
  cbn; induction ids as [|t ids IH]; [done|]; cbn [map list_to_map length].
  unfold list_to_map in *; cbn; rewrite map_size_insert; destruct (_ !! t); cbn; lia.
Qed.

Lemma new_contest_inv ids :
  Forall (fun t => t <> 0) ids -> Z.of_nat (length ids) < 2 ^ 31 -> contest_inv (new_contest ids) ∅ ∅ [].
Proof.
  intros H0 Hlen; pose proof (new_contest_size ids) as Hsz; pose proof (new_contest_pcs ids) as Hpcs.
  assert (forall k h, ct_tables (new_contest ids) !! k = Some h ->
    k = O /\ h = {| hn_table := new_hash 32; hn_prev := None |}) as Htab.
  { cbn; intros k h [-> <-]%list_lookup_singleton_Some; done. }
  assert (forall k t, ~ has_in (ct_tables (new_contest ids)) k t \/ t = 0) as Hnone.
  { intros k t; destruct (decide (t = 0)); [by right|left]; intros (h & Hh & j & e & Hj & He).
    destruct (Htab k h Hh) as [-> ->]; by apply new_hash_free in Hj; congruence. }
  split; try done.
  - split; [done|..].
    + by intros k h [-> ->]%Htab.
    + intros k h [-> ->]%Htab; split; [by apply (new_hash_keys 5)|done].
    + intros k k' h h' _ [-> ->]%Htab [-> ->]%Htab; lia.
  - intros k h j e [-> ->]%Htab Hj; by apply new_hash_free in Hj.
  - split; [done|by intros t n; rewrite lookup_empty|]; intros b Hb; rewrite map_filter_empty, map_size_empty; lia.
  - apply tally_none; intros t p Hp; by destruct (Hpcs t p Hp) as [-> _].
  - split; [done|apply NoDup_nil_2|by intros k b Hk; cbn in Hk; rewrite lookup_nil in Hk|intros t t' k; by rewrite lookup_empty|].
    intros k; split; [cbn; lia|]; intros [t Ht]; by rewrite lookup_empty in Ht.
  - rewrite tally_none; [done|]; intros t p Hp; by destruct (Hpcs t p Hp) as [-> _].
  - intros t p Hp; destruct (Hpcs t p Hp) as [-> Hin]; rewrite Forall_forall in H0; split; [by apply H0|].
    split; [apply lookup_empty|]; split; [apply lookup_empty|]; intros k; destruct (Hnone k t) as [?| ->]; [done|].
    by apply H0 in Hin.
  - lia.
Qed.

Lemma ct_step_inv s s' own num l :
  contest_inv s own num l -> ct_step s s' ->
  exists own' num' l', contest_inv s' own' num' l' /\ own ⊆ own'.
Proof.
  intros Hinv Hst; revert Hinv; destruct Hst as [luck t s0 s1 Hs|t r s0 Hpc]; intros Hinv.
  - destruct (ct_pcs s0 !! t) as [p|] eqn:Hpc; [|by unfold lookup_step in Hs; rewrite Hpc in Hs].
    destruct (lookup_step_ok s0 own num l Hinv luck t p Hpc) as (s2 & own' & num' & l' & E & ? & ?).
    + intros r ->; unfold lookup_step in Hs; by rewrite Hpc in Hs.
    + rewrite Hs in E; injection E as <-; eauto.
  - destruct (iv_pcs _ _ _ _ Hinv t _ Hpc) as [_ Hok].
    destruct (goes_move _ _ _ _ Hinv t (L_idle r) L_main Hpc) as (s1 & own' & num' & l' & E & ? & ?); try done.
    + destruct r as [k|]; [right; by exists k|by left].
    + injection E as <-; by exists own', num', l'.
Qed.

Lemma ct_steps_inv s s' own num l :
  contest_inv s own num l -> rtc ct_step s s' ->
  exists own' num' l', contest_inv s' own' num' l' /\ own ⊆ own'.
Proof.
  intros Hinv Hs; revert own num l Hinv; induction Hs as [s|s s1 s' H1 _ IH]; intros own num l Hinv; [by exists own, num, l|].
  destruct (ct_step_inv s s1 own num l Hinv H1) as (own1 & num1 & l1 & Hinv1 & Hsub1).
  destruct (IH own1 num1 l1 Hinv1) as (own' & num' & l' & Hinv' & Hsub'); exists own', num', l'.
  split; [done|by etransitivity].
Qed.

(** ** When no call is under way *)

Definition no_call s : Prop := forall t p, ct_pcs s !! t = Some p -> exists r, p = L_idle r.
(** The tables as [ProducerHash.v] has them, newest first. *)
Definition tables_of s : list ImplicitProducerHash := rev (map hn_table (ct_tables s)).

Section quiet.
Context (s : contest) (own : gmap Z nat) (num : gmap Z Z) (l : list nat) (Hinv : contest_inv s own num l) (Hq : no_call s).

Lemma quiet_member t k : own !! t = Some k -> ct_pcs s !! t = Some (L_idle (Some k)) /\ k ∈ l.
Proof using Hinv Hq.
  intros Ho; assert (t ∈ dom (ct_pcs s)) as [p Hp]%elem_of_dom.
  { apply (iv_num _ _ _ _ Hinv), (iv_own _ _ _ _ Hinv), elem_of_dom; by eexists. }
  destruct (Hq t p Hp) as [r ->], (iv_pcs _ _ _ _ Hinv t _ Hp) as [_ Hok]; destruct r as [k'|]; cbn in Hok.
  - destruct Hok as [[? ?] _]; by simplify_eq.
  - destruct Hok as [? _]; congruence.
Qed.

Lemma quiet_tables : Forall (table_ok own) (tables_of s).
Proof using Hinv Hq.
  apply Forall_rev, Forall_map, Forall_forall; intros h [k Hh]%list_elem_of_lookup.
  split; [apply (ti_keys _ _ (iv_tables _ _ _ _ Hinv) k h Hh)|]; intros j e Hj H0.
  destruct (iv_entries _ _ _ _ Hinv k h j e Hh Hj H0) as (p & n & Ho & _ & _ & [Hv|(index & v & Hv & _)]); [by exists p|].
  by destruct (Hq _ _ Hv).
Qed.

Lemma quiet_list : length l = length (ct_producers s) /\ length l = size num.
Proof using Hinv Hq.
  destruct (iv_list _ _ _ _ Hinv) as [Hl Hnd _ Hinj Ho].
  assert (l ≡ₚ seq 0 (length (ct_producers s))) as Hp.
  { apply NoDup_Permutation; [done|apply NoDup_seq|]; intros k; rewrite elem_of_seq; split.
    - intros Hk; pose proof (linked_bound _ _ _ _ Hl Hk); lia.
    - intros Hk; assert (k < length (ct_producers s))%nat as [t Ht]%Ho by lia; by apply (quiet_member t). }
  assert (map snd (map_to_list own) ≡ₚ l) as Hm.
  { apply NoDup_Permutation; [|done|].
    - apply NoDup_fmap_2_strong; [|apply NoDup_map_to_list]; intros [t k] [t' k'] H1%elem_of_map_to_list H2%elem_of_map_to_list E.
      cbn in E; subst; f_equal; by eapply Hinj.
    - intros k; rewrite list_elem_of_fmap; split.
      + intros ([t k'] & -> & Ht%elem_of_map_to_list); by apply (quiet_member t).
      + intros Hk; pose proof (linked_bound _ _ _ _ Hl Hk) as [t Ht]%Ho; exists (t, k); by rewrite elem_of_map_to_list. }
  split; [by rewrite Hp, length_seq|]; rewrite <- Hm, length_map, length_map_to_list.
  rewrite <- !size_dom; f_equal; apply set_eq; intros t; split; [apply (iv_own _ _ _ _ Hinv)|]; intros Ht.
  pose proof (iv_num _ _ _ _ Hinv t Ht) as [p Hp']%elem_of_dom.
  destruct (Hq t p Hp') as [r ->], (iv_pcs _ _ _ _ Hinv t _ Hp') as [_ Hok]; apply elem_of_dom in Ht as [n Hn].
  destruct r as [k|]; cbn in Hok; [apply elem_of_dom; destruct Hok as [[? _] _]; by eexists|].
  destruct Hok as (_ & ? & _); congruence.
Qed.

Lemma quiet_find t r : ct_pcs s !! t = Some (L_idle r) ->
  exists found, find_producer (tables_of s) t = Done found /\ (found ≫= snd) = r.
Proof using Hinv Hq.
  intros Hp; destruct (iv_pcs _ _ _ _ Hinv t _ Hp) as [H0 Hok].
  destruct (find_producer_ok own (tables_of s) t quiet_tables H0) as (found & -> & Hf); exists found; split; [done|].
  destruct found as [[n v]|]; cbn.
  - destruct Hf as (-> & Hs & _); destruct r as [k|]; [by destruct Hok as [[? _] _]|].
    destruct Hok as [? _]; destruct Hs; congruence.
  - destruct r as [k|]; [|done]; exfalso; destruct Hok as (_ & j & _ & h & Hh & Hhas); apply (Hf (hn_table h)); [|done].
    apply list_elem_of_In; unfold tables_of; rewrite <- in_rev; apply in_map, list_elem_of_In.
    by eapply list_elem_of_lookup_2.
Qed.
End quiet.

(** ** The theorems *)

(** C16: Any number of threads call [get_or_add_implicit_producer] at once, in any
    interleaving and with any answers of the allocator.  No access of theirs is
    undefined and no probe runs past a table.  The list of producers is intact and
    holds the producer of every thread that has got one; no two threads have the
    same.  When no call is under way, the tables, searched by the sequential
    [find_producer], give every thread the producer it got and nothing to the others;
    every producer made is in the list, and both counters are its length. *)
Theorem hash_race_safe ids s :
  Forall (fun t => t <> 0) ids -> Z.of_nat (length ids) < 2 ^ 31 -> rtc ct_step (new_contest ids) s ->
  (forall luck t p, ct_pcs s !! t = Some p -> (forall r, p <> L_idle r) ->
     exists s', lookup_step luck t s = Done s') /\
  (forall t t' k, ct_pcs s !! t = Some (L_idle (Some k)) -> ct_pcs s !! t' = Some (L_idle (Some k)) -> t = t') /\
  exists l, linked (ct_producers s) (ct_producerListTail s) l /\ NoDup l /\
    (forall t k, ct_pcs s !! t = Some (L_idle (Some k)) -> k ∈ l) /\
    (no_call s ->
       (forall t r, ct_pcs s !! t = Some (L_idle r) ->
          exists found, find_producer (tables_of s) t = Done found /\ (found ≫= snd) = r) /\
       length l = length (ct_producers s) /\ ct_resizeInProgress s = false /\
       ct_producerCount s = Z.of_nat (length l) /\ ct_hashCount s = Z.of_nat (length l)).
Proof.
  intros H0 Hlen Hs; destruct (ct_steps_inv _ _ _ _ _ (new_contest_inv ids H0 Hlen) Hs) as (own & num & l & Hinv & _).
  split; [|split; [|exists l; split; [|split; [|split]]]].
  - intros luck t p Hp Hidle; destruct (lookup_step_ok _ _ _ _ Hinv luck t p Hp Hidle) as (s' & _ & _ & _ & ? & _); eauto.
  - intros t t' k Hp Hp'; destruct (iv_pcs _ _ _ _ Hinv t _ Hp) as [_ [[? _] _]], (iv_pcs _ _ _ _ Hinv t' _ Hp') as [_ [[? _] _]].
    by eapply (li_inj _ _ _ _ (iv_list _ _ _ _ Hinv)).
  - apply (iv_list _ _ _ _ Hinv).
  - apply (iv_list _ _ _ _ Hinv).
  - intros t k Hp; by destruct (iv_pcs _ _ _ _ Hinv t _ Hp) as [_ [[_ ?] _]].
  - intros Hq; destruct (quiet_list _ _ _ _ Hinv Hq) as [El En]; pose proof (threads_counted _ _ _ _ Hinv).
    assert (forall f, (forall r, f (L_idle r) = false) -> tally f (ct_pcs s) = 0) as Hno.
    { intros f Hf; apply tally_none; intros t p Hp; by destruct (Hq t p Hp) as [r ->]. }
    split; [by eapply quiet_find|]; split; [done|]; split; [|split].
    + pose proof (iv_lock _ _ _ _ Hinv) as Hk; rewrite Hno in Hk by done; by destruct (ct_resizeInProgress s).
    + rewrite (iv_added _ _ _ _ Hinv), Hno, <- El, En by done; rewrite wrap_small; [lia|word_lia].
    + rewrite (ci_size _ _ (iv_counts _ _ _ _ Hinv)); lia.
Qed.

(** A thread that has got a producer keeps it: every later call returns the same
    one, whatever tables have been added, and never fails. *)
Theorem hash_race_stays ids s s' t k r :
  Forall (fun t => t <> 0) ids -> Z.of_nat (length ids) < 2 ^ 31 ->
  rtc ct_step (new_contest ids) s -> rtc ct_step s s' ->
  ct_pcs s !! t = Some (L_idle (Some k)) -> ct_pcs s' !! t = Some (L_idle r) -> r = Some k.
Proof.
  intros H0 Hlen Hs Hs' Hp Hp'.
  destruct (ct_steps_inv _ _ _ _ _ (new_contest_inv ids H0 Hlen) Hs) as (own & num & l & Hinv & _).
  destruct (ct_steps_inv _ _ _ _ _ Hinv Hs') as (own' & num' & l' & Hinv' & Hsub).
  destruct (iv_pcs _ _ _ _ Hinv t _ Hp) as [_ [[Ho _] _]], (iv_pcs _ _ _ _ Hinv' t _ Hp') as [_ Hok].
  assert (own' !! t = Some k) as Ho' by (by eapply lookup_weaken).
  destruct r as [k'|]; cbn in Hok; [destruct Hok as [[? _] _]|destruct Hok as [? _]]; congruence.
Qed.

(** ** A run *)

(** A turn of thread [t]: its next access, or a call when it is idle. *)
Definition lookup_turn (e : Z * bool) s : run contest :=
  match ct_pcs s !! e.1 with
  | Some (L_idle _) => mret (set_lookup e.1 L_main s)
  | _ => lookup_step e.2 e.1 s
  end.
Fixpoint lookup_turns (es : list (Z * bool)) s : run contest :=
  match es with [] => mret s | e :: es => s ← lookup_turn e s; lookup_turns es s end.

Lemma lookup_turns_rtc es : forall s s', lookup_turns es s = Done s' -> rtc ct_step s s'.
Proof.
  induction es as [|[t luck] es IH]; cbn [lookup_turns]; intros s s'; [by intros [= ->]|].
  intros (s1 & H1 & H2)%bind_Done_inv; apply rtc_l with s1; [|by apply IH].
  unfold lookup_turn in H1; cbn in H1; destruct (ct_pcs s !! t) as [[r| | | | | | | | | | | | | | | | | | | | | | | |]|] eqn:E;
    try (by apply (step_lookup luck t)).
  injection H1 as <-; by eapply step_call.
Qed.

(** The turns of threads that take them in a circle until each has a producer; [n]
    counts down, and the accesses at the counts in [unlucky] are out of luck. *)
Fixpoint plan (n : nat) (unlucky : list nat) (q : list Z) s : list (Z * bool) :=
  match n, q with
  | S n, t :: q =>
      match ct_pcs s !! t with
      | Some (L_idle (Some _)) => plan n unlucky q s
      | _ =>
          let e := (t, negb (bool_decide (n ∈ unlucky))) in
          e :: match lookup_turn e s with Done s => plan n unlucky (q ++ [t]) s | _ => [] end
      end
  | _, _ => []
  end.

Definition idle_pc (p : lookup_pc) : bool := match p with L_idle _ => true | _ => false end.
Definition all_idle s : bool := forallb (fun tp => idle_pc tp.2) (map_to_list (ct_pcs s)).

Lemma all_idle_spec s : all_idle s = true -> no_call s.
Proof.
  unfold all_idle; rewrite forallb_forall; intros H t p Hp.
  specialize (H (t, p)); cbn in H; destruct p; try (by exists result);
    by discriminate H; apply list_elem_of_In, elem_of_map_to_list.
Qed.

(** Eighteen threads: the table of 32 gives way to one of 64. *)
Definition eighteen : list Z := map (fun i => 4096 * Z.of_nat i + 64) (seq 1 18).
Definition eighteen_plan : list (Z * bool) := plan 2000 [1500%nat; 1550%nat; 1560%nat] eighteen (new_contest eighteen).
Definition eighteen_run : contest :=
  match lookup_turns eighteen_plan (new_contest eighteen) with Done s => s | _ => new_contest [] end.

Lemma eighteen_threads : Forall (fun t => t <> 0) eighteen /\ Z.of_nat (length eighteen) < 2 ^ 31.
Proof. split; [|reflexivity]; apply (bool_decide_unpack _); vm_compute; exact I. Qed.

Lemma eighteen_reached : rtc ct_step (new_contest eighteen) eighteen_run.
Proof. apply (lookup_turns_rtc eighteen_plan); vm_compute; reflexivity. Qed.

Lemma hash_race_safe_witness :
  exists l, linked (ct_producers eighteen_run) (ct_producerListTail eighteen_run) l /\ length l = 18%nat /\
    map capacity_of (ct_tables eighteen_run) = [32; 64] /\
    exists found, find_producer (tables_of eighteen_run) 4160 = Done found /\ (found ≫= snd) = Some 0%nat.
Proof.
  destruct (hash_race_safe eighteen eighteen_run (proj1 eighteen_threads) (proj2 eighteen_threads) eighteen_reached)
    as (_ & _ & l & Hl & _ & _ & Hcalm).
  assert (all_idle eighteen_run = true) as Hidle by (vm_compute; reflexivity).
  destruct (Hcalm (all_idle_spec _ Hidle)) as (Hfind & Hlen & _).
  exists l; split; [exact Hl|]; split; [rewrite Hlen; vm_compute; reflexivity|]; split; [vm_compute; reflexivity|].
  apply Hfind; vm_compute; reflexivity.
Defined.

(** The first thread calls again: it finds itself in the old table, and enters the
    new one. *)
Definition again_plan : list (Z * bool) := repeat (4160, true) 60.
Definition again_run : contest :=
  match lookup_turns again_plan eighteen_run with Done s => s | _ => new_contest [] end.

Lemma hash_race_stays_witness : exists r, ct_pcs again_run !! 4160 = Some (L_idle r) /\ r = Some 0%nat.
Proof.
  destruct (ct_pcs again_run !! 4160) as [[r| | | | | | | | | | | | | | | | | | | | | | | |]|] eqn:E;
    try (vm_compute in E; discriminate E).
  exists r; split; [reflexivity|].
  apply (hash_race_stays eighteen eighteen_run again_run 4160 0 r (proj1 eighteen_threads) (proj2 eighteen_threads)).
  - apply eighteen_reached.
  - apply (lookup_turns_rtc again_plan); vm_compute; reflexivity.
  - vm_compute; reflexivity.
  - exact E.
Defined.
