(* ===== verification/HashSwap.v ===== *)
(** * The hash tables of two queues change places ([common/concurrentqueue.h])

    [ProducerHash.v] has the tables of a queue as a list, newest first.  In memory the
    oldest table and its array are members of the queue and the others are linked to
    it; to move or swap queues the code exchanges the entries of the members and
    redirects the last link.  [swapped_hashes] says that the lists are exchanged. *)

From S2P Require Import Prelude ProducerHash.

(** A table in memory: where its entries are and which table is older, 0 for none. *)
Record hash_node := { hn_capacity : Z; hn_entries : Z; hn_prev : Z }.
Definition set_hn_entries (v : Z) (n : hash_node) : hash_node :=
  {| hn_capacity := hn_capacity n; hn_entries := v; hn_prev := hn_prev n |}.
Definition set_hn_prev (v : Z) (n : hash_node) : hash_node :=
  {| hn_capacity := hn_capacity n; hn_entries := hn_entries n; hn_prev := v |}.

(** Tables and arrays by address. *)
Record hash_memory := { hm_nodes : gmap Z hash_node; hm_arrays : gmap Z (list ImplicitProducerKVP) }.

(** The members of a queue: the addresses of its own table and array, the newest table
    and the number of threads counted. *)
Record hash_queue := {
  initialImplicitProducerHash : Z; initialImplicitProducerHashEntries : Z;
  implicitProducerHash : Z; implicitProducerHashCount : Z }.
Definition set_newest (hash count : Z) (q : hash_queue) : hash_queue :=
  {| initialImplicitProducerHash := initialImplicitProducerHash q;
     initialImplicitProducerHashEntries := initialImplicitProducerHashEntries q;
     implicitProducerHash := hash; implicitProducerHashCount := count |}.

(** The last of the tables from [hash] on that has [old] behind it gets [new]. *)
Fixpoint relink (fuel : nat) (hash old new : Z) (nodes : gmap Z hash_node) : run (gmap Z hash_node) :=
  n ← deref (nodes !! hash);
  if hn_prev n =? old then mret (<[hash := set_hn_prev new n]> nodes)
  else match fuel with O => Blocked | S fuel => relink fuel (hn_prev n) old new nodes end.

(** One half: [q] has got the tables that ended at [old]. *)
Definition redirect (old : Z) (q : hash_queue) (nodes : gmap Z hash_node) : run (hash_queue * gmap Z hash_node) :=
  if implicitProducerHash q =? old then
    mret (set_newest (initialImplicitProducerHash q) (implicitProducerHashCount q) q, nodes)
  else nodes ← relink (size nodes) (implicitProducerHash q) old (initialImplicitProducerHash q) nodes; mret (q, nodes).

Definition swap_implicit_producer_hashes (q other : hash_queue) (m : hash_memory) : run (hash_queue * hash_queue * hash_memory) :=
  mine ← deref (hm_arrays m !! initialImplicitProducerHashEntries q);
  theirs ← deref (hm_arrays m !! initialImplicitProducerHashEntries other);
  let arrays := <[initialImplicitProducerHashEntries other := mine]> (<[initialImplicitProducerHashEntries q := theirs]> (hm_arrays m)) in
  n ← deref (hm_nodes m !! initialImplicitProducerHash q);
  let nodes := <[initialImplicitProducerHash q := set_hn_entries (initialImplicitProducerHashEntries q) n]> (hm_nodes m) in
  n ← deref (nodes !! initialImplicitProducerHash other);
  let nodes := <[initialImplicitProducerHash other := set_hn_entries (initialImplicitProducerHashEntries other) n]> nodes in
  let q' := set_newest (implicitProducerHash other) (implicitProducerHashCount other) q in
  let other' := set_newest (implicitProducerHash q) (implicitProducerHashCount q) other in
  '(q', nodes) ← redirect (initialImplicitProducerHash other) q' nodes;
  '(other', nodes) ← redirect (initialImplicitProducerHash q) other' nodes;
  mret (q', other', {| hm_nodes := nodes; hm_arrays := arrays |}).

(** ** The tables of a queue *)

Definition table_in (m : hash_memory) (n : hash_node) (h : ImplicitProducerHash) : Prop :=
  hn_capacity n = hash_capacity h /\ hm_arrays m !! hn_entries n = Some (hash_entries h).

(** Linked from [head], at the addresses [ads], up to [last]; none of them keeps its
    entries in one of the arrays [own]. *)
Fixpoint linked (m : hash_memory) (own : list Z) (head last : Z) (ads : list Z) (hs : list ImplicitProducerHash) : Prop :=
  match ads, hs with
  | [], [] => head = last
  | a :: ads, h :: hs =>
      head = a /\ exists n, hm_nodes m !! a = Some n /\ table_in m n h /\ (hn_entries n ∉ own) /\ linked m own (hn_prev n) last ads hs
  | _, _ => False
  end.
(** The queue's own table is the last. *)
Record hash_tables (m : hash_memory) (own : list Z) (q : hash_queue) (ads : list Z) (hs : list ImplicitProducerHash)
    (h0 : ImplicitProducerHash) : Prop := {
  ht_linked : linked m own (implicitProducerHash q) (initialImplicitProducerHash q) ads hs;
  ht_initial : exists n, hm_nodes m !! initialImplicitProducerHash q = Some n /\ table_in m n h0 /\
    hn_entries n = initialImplicitProducerHashEntries q /\ hn_prev n = 0;
  ht_capacity : hash_capacity h0 = INITIAL_IMPLICIT_PRODUCER_HASH_SIZE }.

Lemma table_links_ext m m' own head last ads hs :
  (forall a, a ∈ ads -> hm_nodes m' !! a = hm_nodes m !! a) -> (forall a, a ∉ own -> hm_arrays m' !! a = hm_arrays m !! a) ->
  linked m own head last ads hs -> linked m' own head last ads hs.
Proof.
  intros Hn Ha; revert head hs; induction ads as [|a ads IH]; intros head [|h hs]; cbn; try done.
  intros (-> & n & Hl & [Hc Ht] & Hown & Hr); split; [done|]; exists n; split; [rewrite Hn; [done|by left]|].
  split; [split; [done|by rewrite Ha]|]; split; [done|]; apply IH; [|done]; intros x Hx; apply Hn; by right.
Qed.

(** Linked tables get another end. *)
Lemma relink_ok own old new arrays ads : forall fuel head hs nodes,
  linked {| hm_nodes := nodes; hm_arrays := arrays |} own head old ads hs -> ads <> [] -> old ∉ ads -> NoDup ads -> (length ads <= S fuel)%nat ->
  exists nodes', relink fuel head old new nodes = Done nodes' /\
    linked {| hm_nodes := nodes'; hm_arrays := arrays |} own head new ads hs /\ forall a, a ∉ ads -> nodes' !! a = nodes !! a.
Proof.
  induction ads as [|a ads IH]; intros fuel head [|h hs] nodes Hl Hne Hold Hnd Hf; cbn [linked] in Hl; try done.
  destruct Hl as (-> & n & Hn & Ht & Hown & Hl); apply NoDup_cons in Hnd as [Hna Hnd]; apply not_elem_of_cons in Hold as [Hoa Hold].
  cbn [hm_nodes] in Hn; destruct fuel as [|fuel]; cbn [relink]; rewrite Hn; cbn [deref]; rewrite bind_Done.
  all: destruct ads as [|a' ads]; [destruct hs; [|done]; cbn in Hl; rewrite Hl, Z.eqb_refl; eexists; split; [reflexivity|]; split;
    [split; [done|]; exists (set_hn_prev new n); cbn; by rewrite lookup_insert_eq|intros x Hx; rewrite lookup_insert_ne; [done|set_solver]]|].
  - cbn in Hf; lia.
  - assert (hn_prev n = a') as Ea by (destruct hs; [done|]; by destruct Hl as [? _]); rewrite Ea in *.
    apply not_elem_of_cons in Hold as Hold'; destruct Hold' as [Hoa' _]; destruct (Z.eqb_spec a' old); [by subst|].
    destruct (IH fuel a' hs nodes Hl) as (nodes' & -> & Hl' & Hext); try done; [cbn in *; lia|].
    exists nodes'; split; [done|]; split; [|intros x Hx; apply Hext; set_solver]; split; [done|]; exists n; cbn [hm_nodes].
    rewrite Hext, Ea by done; by split_all.
Qed.

Lemma linked_dom m own head last ads hs : linked m own head last ads hs -> forall a, a ∈ ads -> is_Some (hm_nodes m !! a).
Proof.
  revert head hs; induction ads as [|a ads IH]; intros head [|h hs]; cbn; try done; [by intros _ a ?%elem_of_nil|].
  intros (_ & n & Hn & _ & _ & Hl) x [->|Hx]%elem_of_cons; [by exists n|by eapply IH].
Qed.
Lemma linked_size m own head last ads hs : linked m own head last ads hs -> NoDup ads -> (length ads <= size (hm_nodes m))%nat.
Proof.
  intros Hl Hnd; rewrite <- (size_list_to_set (C := gset Z) ads Hnd), <- (size_dom (D := gset Z)); apply subseteq_size.
  intros a Ha%elem_of_list_to_set; apply elem_of_dom; by eapply linked_dom.
Qed.

Lemma redirect_ok own old q arrays nodes ads hs :
  linked {| hm_nodes := nodes; hm_arrays := arrays |} own (implicitProducerHash q) old ads hs -> old ∉ ads -> NoDup ads ->
  exists q' nodes', redirect old q nodes = Done (q', nodes') /\
    q' = set_newest (implicitProducerHash q') (implicitProducerHashCount q) q /\
    linked {| hm_nodes := nodes'; hm_arrays := arrays |} own (implicitProducerHash q') (initialImplicitProducerHash q) ads hs /\
    forall a, a ∉ ads -> nodes' !! a = nodes !! a.
Proof.
  intros Hl Hold Hnd; unfold redirect; destruct ads as [|a ads].
  - destruct hs; [|done]; cbn in Hl; rewrite Hl, Z.eqb_refl; by eexists _, nodes.
  - pose proof (linked_size _ _ _ _ _ _ Hl Hnd) as Hsz; cbn [hm_nodes] in Hsz.
    assert (implicitProducerHash q = a) as Ea by (destruct hs; [done|by destruct Hl as [? _]]).
    destruct (Z.eqb_spec (implicitProducerHash q) old) as [Eo|]; [rewrite <- Eo, Ea in Hold; set_solver|].
    destruct (relink_ok own old (initialImplicitProducerHash q) arrays (a :: ads) (size nodes) _ hs nodes Hl) as (nodes' & -> & Hl' & Hext); [done|done|done|lia|].
    rewrite bind_Done; exists q, nodes'; split_all; try done; by destruct q.
Qed.

(** C26: swapping the hash tables of two queues exchanges them: whatever the lengths of
    the two chains, the walks to their ends return; each queue has the other's tables
    in order, ending at its own member, and its count of threads, and each member
    table has its entries in its own queue's array. *)
Theorem swapped_hashes m q other ads hs h0 ads' hs' h0' :
  let own := [initialImplicitProducerHashEntries q; initialImplicitProducerHashEntries other] in
  NoDup own -> NoDup (ads ++ ads' ++ [initialImplicitProducerHash q; initialImplicitProducerHash other]) ->
  hash_tables m own q ads hs h0 -> hash_tables m own other ads' hs' h0' ->
  exists q' other' m', swap_implicit_producer_hashes q other m = Done (q', other', m') /\
    hash_tables m' own q' ads' hs' h0' /\ hash_tables m' own other' ads hs h0 /\
    q' = set_newest (implicitProducerHash q') (implicitProducerHashCount other) q /\
    other' = set_newest (implicitProducerHash other') (implicitProducerHashCount q) other.
Proof.
  intros own Hown Hnd [Hl (n & Hn & [Hnc Hna] & Hne & Hnp) Hc] [Hl' (n' & Hn' & [Hnc' Hna'] & Hne' & Hnp') Hc'].
  rewrite Hne in Hna; rewrite Hne' in Hna'; set (aq := initialImplicitProducerHashEntries q) in *; set (ao := initialImplicitProducerHashEntries other) in *.
  set (iq := initialImplicitProducerHash q) in *; set (io := initialImplicitProducerHash other) in *.
  assert (aq <> ao) as Hao by (by inversion_clear Hown as [|? ? H _]; intros E; apply H; rewrite E; left).
  apply NoDup_app in Hnd as (Hnd1 & Hd1 & (Hnd2 & Hd2 & Hnd3)%NoDup_app).
  assert (iq <> io) as Hio by (by inversion_clear Hnd3 as [|? ? H _]; intros E; apply H; rewrite E; left).
  assert ((iq ∉ ads) /\ (io ∉ ads) /\ (iq ∉ ads') /\ (io ∉ ads')) as (Hq1 & Ho1 & Hq2 & Ho2) by (split_all; set_solver).
  unfold swap_implicit_producer_hashes; fold aq ao iq io; rewrite Hna; cbn [deref]; rewrite bind_Done, Hna'; cbn [deref]; rewrite bind_Done, Hn; cbn [deref].
  rewrite bind_Done, lookup_insert_ne, Hn' by done; cbn [deref]; rewrite bind_Done; set (arrays := <[ao := _]> _); set (nodes := <[io := _]> _).
  set (m1 := {| hm_nodes := nodes; hm_arrays := arrays |}).
  assert (forall a, a ∉ own -> arrays !! a = hm_arrays m !! a) as Harr.
  { intros a Ha; unfold own in Ha; unfold arrays; rewrite !lookup_insert_ne by set_solver; done. }
  assert (forall a, a <> iq -> a <> io -> nodes !! a = hm_nodes m !! a) as Hnod by (intros a ? ?; unfold nodes; by rewrite !lookup_insert_ne).
  destruct (redirect_ok own io (set_newest (implicitProducerHash other) (implicitProducerHashCount other) q) arrays nodes ads' hs')
    as (q' & nodes1 & -> & Eq & Hlq & Hx1); [|done|done|]; [eapply table_links_ext; [|done|exact Hl']; intros a Ha; apply Hnod; congruence|].
  rewrite bind_Done; destruct (redirect_ok own iq (set_newest (implicitProducerHash q) (implicitProducerHashCount q) other) arrays nodes1 ads hs)
    as (o' & nodes2 & -> & Eo & Hlo & Hx2); [|done|done|].
  { eapply table_links_ext; [|exact Harr|exact Hl]; intros a Ha; cbn; rewrite Hx1 by set_solver; apply Hnod; congruence. }
  rewrite bind_Done; eexists q', o', _; split; [done|].
  assert (nodes2 !! iq = Some (set_hn_entries aq n)) as Fq.
  { rewrite Hx2, Hx1 by done; unfold nodes; rewrite lookup_insert_ne by done; apply lookup_insert_eq. }
  assert (nodes2 !! io = Some (set_hn_entries ao n')) as Fo by (rewrite Hx2, Hx1 by done; apply lookup_insert_eq).
  rewrite Eq in Hlq; rewrite Eo in Hlo; cbn in Hlq, Hlo; rewrite Eq, Eo; split; [|split; [|done]].
  - split; [|exists (set_hn_entries aq n); cbn; fold iq aq; split; [done|]; split; [|by rewrite Hnp]|done]; cbn.
    + eapply table_links_ext; [| |exact Hlq]; [|done]; intros a Ha; apply Hx2; set_solver.
    + split; cbn; [congruence|]; unfold arrays; rewrite lookup_insert_ne by done; apply lookup_insert_eq.
  - split; [exact Hlo|exists (set_hn_entries ao n'); cbn; fold io ao; split; [done|]; split; [|by rewrite Hnp']|done].
    split; cbn; [congruence|]; apply lookup_insert_eq.
Qed.

(** A queue with two tables and one that is new. *)
Definition two_queues : hash_memory * hash_queue * hash_queue :=
  ({| hm_nodes := list_to_map [(1, {| hn_capacity := 32; hn_entries := 101; hn_prev := 0 |});
        (2, {| hn_capacity := 32; hn_entries := 102; hn_prev := 0 |}); (3, {| hn_capacity := 64; hn_entries := 103; hn_prev := 1 |})];
      hm_arrays := list_to_map [(101, <[5%nat := {| kvp_key := 7; kvp_value := Some 0%nat |}]> (hash_entries (new_hash 32)));
        (102, hash_entries (new_hash 32)); (103, hash_entries (new_hash 64))] |},
   {| initialImplicitProducerHash := 1; initialImplicitProducerHashEntries := 101; implicitProducerHash := 3; implicitProducerHashCount := 17 |},
   {| initialImplicitProducerHash := 2; initialImplicitProducerHashEntries := 102; implicitProducerHash := 2; implicitProducerHashCount := 0 |}).
Definition used_table : ImplicitProducerHash :=
  {| hash_capacity := 32; hash_entries := <[5%nat := {| kvp_key := 7; kvp_value := Some 0%nat |}]> (hash_entries (new_hash 32)) |}.

Lemma swapped_hashes_witness :
  exists q' other' m', swap_implicit_producer_hashes two_queues.1.2 two_queues.2 two_queues.1.1 = Done (q', other', m') /\
    hash_tables m' [101; 102] q' [] [] (new_hash 32) /\ hash_tables m' [101; 102] other' [3] [new_hash 64] used_table /\
    q' = set_newest (implicitProducerHash q') 0 two_queues.1.2 /\ other' = set_newest (implicitProducerHash other') 17 two_queues.2.
Proof.
  apply (swapped_hashes two_queues.1.1 two_queues.1.2 two_queues.2 [3] [new_hash 64] used_table [] [] (new_hash 32)).
  - cbn; repeat constructor; set_solver.
  - cbn; repeat constructor; set_solver.
  - split; [|eexists; split; [reflexivity|by split]|done]; split; [done|]; eexists; split; [reflexivity|]; split; [done|]; split; [cbn; set_solver|done].
  - split; [done|eexists; split; [reflexivity|by split]|done].
Defined.
