(* ===== verification/Producers.v ===== *)
(** * The producers of a concurrent queue

    What a queue relies on in a producer, of whatever kind: that it holds a list of
    elements in blocks of its own, whatever the others do, and that dequeuing takes
    from the front of that list.  [producer_like] and [dequeues] are that interface;
    the producers of threads and those of tokens implement it. *)

From S2P Require Import Prelude BlockPool ImplicitProducer BlockIndex ProducerFifo ProducerBulk ProducerDestroy ExplicitProducer ExplicitFifo ExplicitBulk.

(** ** One producer *)

(** A producer whose first index could not be allocated. *)
Definition dead_producer : ImplicitProducer :=
  {| ip_tailIndex := 0; ip_headIndex := 0; ip_dequeueOptimisticCount := 0;
     ip_dequeueOvercommit := 0; ip_tailBlock := 0;
     ip_nextBlockIndexCapacity := IMPLICIT_INITIAL_INDEX_SIZE; ip_entries := [];
     ip_blockIndex := None |}.

Section producer.
Context {A : Type} (junk : Z).
Implicit Types (po : pool A) (p : ImplicitProducer) (items : list A).

(** [p] holds [items] in the blocks [ps], or is dead. *)
Definition holds po p items (ps others : list Z) : Prop :=
  (exists H T, fifo po p H T items ps others) \/
  (p = dead_producer /\ items = [] /\ ps = [] /\ exists free, pool_inv po free others).

Definition alive p : Prop := ip_blockIndex p <> None.

Lemma fifo_alive po p H T items ps others : fifo po p H T items ps others -> alive p.
Proof. intros [_ _ _ _ _ (h & c & Hio) _ _ _]; unfold alive; by rewrite (ro_header _ _ _ (io_ring _ _ _ _ _ _ Hio)). Qed.

Lemma holds_pool po p items ps others :
  holds po p items ps others -> exists free, pool_inv po free (ps ++ others).
Proof. intros [(H & T & Hf)|(_ & _ & -> & Hp)]; [apply (ff_pool _ _ _ _ _ _ _ Hf)|done]. Qed.

(** Another producer's operation leaves this one alone. *)
Lemma holds_frame po po' p items ps others others' free' :
  holds po p items ps others -> keeps ps po po' -> pool_inv po' free' (ps ++ others') ->
  holds po' p items ps others'.
Proof.
  intros [(H & T & [])|(-> & -> & -> & _)] Hk Hp; [left; exists H, T|right; by eauto].
  split; try done; [by exists free'|by eapply data_ok_keeps].
Qed.

(** [full] does not hold for a queue that is not nearly [2 ^ 63] long. *)
Definition room items (n : Z) : Prop := Z.of_nat (length items) + n + 64 < 2 ^ 63.

Definition healthy po : Prop := po_mallocs po = [].

(** The index of a new producer: 32 entries, none used. *)
Definition first_index : BlockIndexHeader :=
  {| bih_capacity := 32; bih_tail := 31; bih_index := seq 0 32 |}.
Definition first_producer : ImplicitProducer :=
  set_index 64 (replicate 32 {| bie_key := INVALID_BLOCK_BASE; bie_value := junk |}) (Some first_index) dead_producer.

Lemma first_index_ok : index_ok first_producer first_index 5 0 0 [].
Proof.
  assert (ring_ok first_producer first_index 5) as Hr.
  { split; try done; [apply NoDup_seq|]; apply Forall_seq; cbn; lia. }
  split; try done; intros k Hk; destruct (entry_exists _ _ _ Hr 0 k) as (id & e & He); exists id, e; split; [done|].
  apply entry_for_lookup in He; cbn [ip_entries first_producer set_index] in He.
  by apply lookup_replicate in He as [-> _]; left.
Qed.

Lemma new_producer_ok po free others :
  pool_inv po free others ->
  exists po' p, new_producer junk po = Done (po', p) /\ holds po' p [] [] others /\
    keeps others po po' /\ (healthy po -> healthy po' /\ alive p).
Proof.
  intros Hp; unfold new_producer, new_block_index; cbn [ip_blockIndex ip_nextBlockIndexCapacity].
  unfold malloc_ok; destruct (default true (head (po_mallocs po))) eqn:Em; cbn [negb].
  2:{ rewrite bind_Done; eexists _, dead_producer; split; [reflexivity|]; split_all.
      - right; split_all; try done; exists free; by apply pool_inv_malloc.
      - done.
      - intros Hh; by rewrite Hh in Em. }
  rewrite !bind_Done; cbn [length app Z.of_nat check]; rewrite Z.eqb_refl; cbn [check]; rewrite bind_Done.
  eexists _, _; split; [reflexivity|]; split_all.
  - left; exists 0, 0; split; try done; [eexists _, 5; apply first_index_ok|exists free; by apply pool_inv_malloc].
  - done.
  - intros Hh; unfold healthy, malloc_ok in *; cbn; by rewrite Hh.
Qed.

(** *** The operations of a producer, dead or alive *)

(** What an operation may do to the rest of the system. *)
Definition framed (others : list Z) po p po' p' : Prop :=
  keeps others po po' /\ (healthy po -> healthy po') /\ (alive p -> alive p').

Lemma dead_enqueue canAlloc x po :
  ip_enqueue junk canAlloc x po dead_producer = Done (false, po, dead_producer).
Proof. reflexivity. Qed.

Lemma dead_enqueue_bulk canAlloc xs po :
  xs <> [] -> Z.of_nat (length xs) < 2 ^ 63 ->
  ip_enqueue_bulk junk canAlloc xs po dead_producer = Done (false, po, dead_producer).
Proof.
  intros Hne Hx; unfold ip_enqueue_bulk; cbn [ip_tailIndex ip_tailBlock dead_producer].
  destruct (blocks_needed 0 (Z.of_nat (length xs))) as [HD Hr]; [lia|]; change (u64 0) with 0 in HD.
  rewrite HD; clear HD; change ((0 + 31) / 32) with 0 in *; rewrite Z.add_0_l, Z.sub_0_r in *.
  assert (0 < (Z.of_nat (length xs) + 31) / 32) as Hn.
  { assert (1 <= Z.of_nat (length xs)) by (destruct xs; cbn; [done|lia]).
    apply Z.lt_le_trans with (32 / 32); [done|apply Z.div_le_mono; lia]. }
  set (n := (Z.of_nat (length xs) + 31) / 32) in *; cbn [bulk_allocate].
  destruct (Z.eqb_spec (32 * n) 0); [lia|]; change (ip_headIndex dead_producer) with 0.
  change (u64 (block_base (u64 (0 - 1)) + BLOCK_SIZE)) with 0; reflexivity.
Qed.

Lemma enqueue_bulk_holds canAlloc xs po p items ps others :
  holds po p items ps others -> Z.of_nat (length xs) < 2 ^ 63 ->
  exists ok po' p' ps', ip_enqueue_bulk junk canAlloc xs po p = Done (ok, po', p') /\
    framed others po p po' p' /\ holds po' p' (if (ok : bool) then items ++ xs else items) ps' others /\
    (alive p -> healthy po -> canAlloc = true -> room items (Z.of_nat (length xs)) -> ok = true).
Proof.
  intros [(H & T & Hf)|(-> & -> & -> & Hp)] Hx.
  - destruct (ip_enqueue_bulk_ok junk canAlloc xs po p H T items ps others Hf Hx)
      as (ok & po' & p' & -> & Hk & Hm & Hres).
    assert (exists ps', holds po' p' (if ok then items ++ xs else items) ps' others /\ alive p') as (ps' & Hh & Ha).
    { destruct ok; [destruct Hres as [ps' Hf']; exists ps'|destruct Hres as [Hf' _]; exists ps];
        (split; [left; by eauto|by eapply fifo_alive]). }
    exists ok, po', p', ps'; split; [done|]; split; [done|]; split; [done|].
    intros _ Hhe -> Hroom; destruct ok; [done|]; exfalso; destruct Hres as [_ [Hfull|[|]]]; [|done..].
    pose proof (ff_len _ _ _ _ _ _ _ Hf); unfold room in Hroom.
    pose proof (Z.div_mod (T + Z.of_nat (length xs) + 31) 32).
    pose proof (Z.mod_pos_bound (T + Z.of_nat (length xs) + 31) 32); lia.
  - destruct (decide (xs = [])) as [->|Hne].
    + rewrite (ip_enqueue_bulk_nil junk canAlloc po dead_producer 0) by done.
      eexists true, po, dead_producer, []; split_all; try done; right; by eauto.
    + rewrite dead_enqueue_bulk by done; eexists false, po, dead_producer, []; split_all; try done; right; by eauto.
Qed.

Lemma enqueue_holds canAlloc x po p items ps others :
  holds po p items ps others ->
  exists ok po' p' ps', ip_enqueue junk canAlloc x po p = Done (ok, po', p') /\
    framed others po p po' p' /\ holds po' p' (if (ok : bool) then items ++ [x] else items) ps' others /\
    (alive p -> healthy po -> canAlloc = true -> room items 1 -> ok = true).
Proof.
  intros [(H & T & Hf)|(-> & -> & -> & Hp)].
  - destruct (ip_enqueue_ok junk canAlloc x po p H T items ps others Hf) as (ok & po' & p' & -> & Hk & Hm & Hres).
    assert (exists ps', holds po' p' (if ok then items ++ [x] else items) ps' others /\ alive p') as (ps' & Hh & Ha).
    { destruct ok; [destruct Hres as [ps' Hf']; exists ps'|destruct Hres as [Hf' _]; exists ps];
        (split; [left; by eauto|by eapply fifo_alive]). }
    exists ok, po', p', ps'; split; [done|]; split; [done|]; split; [done|].
    intros _ Hhe -> Hroom; destruct ok; [done|]; exfalso; destruct Hres as [_ [Hfull|[|]]]; [|done..].
    pose proof (ff_len _ _ _ _ _ _ _ Hf); unfold room in Hroom; lia.
  - rewrite dead_enqueue; eexists false, po, dead_producer, []; split_all; try done; right; by eauto.
Qed.

Lemma dequeue_holds po p items ps others :
  holds po p items ps others ->
  exists po' p' ps', ip_dequeue po p = Done (head items, po', p') /\ framed others po p po' p' /\
    holds po' p' (tail items) ps' others.
Proof.
  intros [(H & T & Hf)|(-> & -> & -> & Hp)].
  - pose proof (ip_dequeue_ok po p H T items ps others Hf) as Hd; destruct items as [|x items].
    + exists po, p, ps; rewrite Hd; split_all; try done; left; eauto.
    + destruct Hd as (po' & p' & ps' & -> & Hf' & Hk & Hm); exists po', p', ps'; split; [done|].
      split; [split; [done|split; [unfold healthy; congruence|intros _; by eapply fifo_alive]]|left; eauto].
  - exists po, dead_producer, []; split_all; try done; right; by eauto.
Qed.

Lemma dequeue_bulk_holds max po p items ps others :
  holds po p items ps others -> 0 <= max < 2 ^ 64 ->
  exists po' p' ps', ip_dequeue_bulk max po p = Done (take (Z.to_nat max) items, po', p') /\
    framed others po p po' p' /\ holds po' p' (drop (Z.to_nat max) items) ps' others.
Proof.
  intros [(H & T & Hf)|(-> & -> & -> & Hp)] Hmax.
  - destruct (ip_dequeue_bulk_ok max po p H T items ps others Hf Hmax) as (po' & p' & ps' & -> & Hf' & Hk & Hm).
    exists po', p', ps'; split; [done|].
    split; [split; [done|split; [unfold healthy; congruence|intros _; by eapply fifo_alive]]|left; eauto].
  - rewrite take_nil, drop_nil; exists po, dead_producer, []; split_all; try done; right; by eauto.
Qed.

Lemma size_holds po p items ps others :
  holds po p items ps others -> ip_size_approx p = zlen items /\ zlen items < 2 ^ 63.
Proof.
  unfold zlen; intros [(H & T & Hf)|(-> & -> & _)]; [|done].
  pose proof Hf as [Ht Hh _ Hlen Hb _ _ _ _]; unfold ip_size_approx; rewrite Ht, Hh.
  pose proof (Z.div_mod (T + 31) 32); pose proof (Z.mod_pos_bound (T + 31) 32); rewrite clt_u64 by lia.
  split; [|lia]; destruct (Z.ltb_spec H T); [rewrite u64_sub, wrap_small by (unfold in_u; lia)|]; lia.
Qed.
End producer.

(** ** The interface *)

Class producer_like (A P : Type) := {
  (** [p] holds these elements in these blocks, next to the blocks of the others. *)
  pl_holds : pool A -> P -> list A -> list Z -> list Z -> Prop;
  pl_pool po p items ps others : pl_holds po p items ps others -> exists free, pool_inv po free (ps ++ others);
  pl_frame po po' p items ps others others' free' :
    pl_holds po p items ps others -> keeps ps po po' -> pool_inv po' free' (ps ++ others') -> pl_holds po' p items ps others' }.

(** The two ways of taking elements out, and what they do. *)
Class dequeue_ops (A P : Type) := {
  pd_dequeue : pool A -> P -> run (option A * pool A * P);
  pd_dequeue_bulk : Z -> pool A -> P -> run (list A * pool A * P) }.
Class dequeues (A P : Type) `{!producer_like A P} `{!dequeue_ops A P} := {
  dq_one po p items ps others :
    pl_holds po p items ps others ->
    exists po' p' ps', pd_dequeue po p = Done (head items, po', p') /\ keeps others po po' /\ pl_holds po' p' (tail items) ps' others;
  dq_many max po p items ps others :
    pl_holds po p items ps others -> 0 <= max < 2 ^ 64 ->
    exists po' p' ps', pd_dequeue_bulk max po p = Done (take (Z.to_nat max) items, po', p') /\ keeps others po po' /\
      pl_holds po' p' (drop (Z.to_nat max) items) ps' others;
  dq_bound po p items ps others : pl_holds po p items ps others -> zlen items < 2 ^ 63 }.

Section instances.
Context {A : Type}.

#[export] Instance implicit_like : producer_like A ImplicitProducer := {|
  pl_holds := holds; pl_pool := holds_pool; pl_frame := holds_frame |}.
#[export] Instance implicit_ops : dequeue_ops A ImplicitProducer := {| pd_dequeue := ip_dequeue; pd_dequeue_bulk := ip_dequeue_bulk |}.
#[export] Instance implicit_dequeues : dequeues A ImplicitProducer.
Proof.
  split; cbn.
  - intros po p items ps others Hh; destruct (dequeue_holds _ _ _ _ _ Hh) as (po' & p' & ps' & ? & (? & _) & ?); by exists po', p', ps'.
  - intros max po p items ps others Hh Hm; destruct (dequeue_bulk_holds max _ _ _ _ _ Hh Hm) as (po' & p' & ps' & ? & (? & _) & ?).
    by exists po', p', ps'.
  - intros po p items ps others Hh; by destruct (size_holds _ _ _ _ _ Hh).
Qed.

(** A producer with a token. *)
Definition ex_holds (po : pool A) (p : ExplicitProducer) (items : list A) (ps others : list Z) : Prop :=
  exists H T, ex_fifo po p H T items ps others.

Lemma ex_holds_frame po po' p items ps others others' free' :
  ex_holds po p items ps others -> keeps ps po po' -> pool_inv po' free' (ps ++ others') -> ex_holds po' p items ps others'.
Proof.
  intros (H & T & [Hc Hx []]) Hk Hp; exists H, T; split; try done; split; try done; [by exists free'|by eapply ex_data_keeps].
Qed.
Lemma ex_holds_pool po p items ps others : ex_holds po p items ps others -> exists free, pool_inv po free (ps ++ others).
Proof. intros (H & T & [_ _ []]); done. Qed.

#[export] Instance explicit_like : producer_like A ExplicitProducer := {|
  pl_holds := ex_holds; pl_pool := ex_holds_pool; pl_frame := ex_holds_frame |}.
#[export] Instance explicit_ops : dequeue_ops A ExplicitProducer := {| pd_dequeue := ep_dequeue; pd_dequeue_bulk := ep_dequeue_bulk |}.
#[export] Instance explicit_dequeues : dequeues A ExplicitProducer.
Proof.
  split; cbn.
  - intros po p items ps others (H & T & Hf); pose proof (ep_dequeue_ok _ _ _ _ _ _ _ Hf) as Hd; destruct items as [|x items].
    + exists po, p, ps; rewrite Hd; split_all; try done; by exists H, T.
    + destruct Hd as (po' & p' & E & Hf' & Hk & _); exists po', p', ps; split_all; try done; by eexists _, _.
  - intros max po p items ps others (H & T & Hf) Hm; destruct (ep_dequeue_bulk_ok max _ _ _ _ _ _ _ Hf Hm) as (po' & p' & E & Hf' & Hk & _).
    exists po', p', ps; split_all; try done; by eexists _, _.
  - intros po p items ps others (H & T & Hf); pose proof (ex_not_empty _ _ _ _ _ _ _ Hf) as (_ & Hr & _).
    destruct Hf as [_ _ [Hlen _ _ _ _ _ _]]; unfold zlen; lia.
Qed.
End instances.

(** ** All producers *)

Section producers.
Context {A P X : Type} `{!producer_like A P} {items_of : X -> list A}.
Implicit Types (po : pool A) (p : P) (a : list X).

(** Producer by producer, with the blocks of each; the pool knows all of them. *)
Record producers_ok po (prs : list P) a (pss : list (list Z)) : Prop := {
  pk_length : length prs = length a;
  pk_blocks : length pss = length a;
  pk_each : forall i p x ps, prs !! i = Some p -> a !! i = Some x -> pss !! i = Some ps ->
    exists others, pl_holds po p (items_of x) ps others;
  pk_pool : exists free, pool_inv po free (concat pss) }.

Lemma concat_delete (pss : list (list Z)) i ps :
  pss !! i = Some ps -> concat pss ≡ₚ ps ++ concat (delete i pss).
Proof.
  intros Hi; rewrite <- (take_drop_middle pss i ps) at 1 by done; rewrite delete_take_drop, !concat_app.
  cbn [concat]; apply Permutation_app_swap_app.
Qed.
Lemma delete_insert_same (pss : list (list Z)) i ps : delete i (<[i := ps]> pss) = delete i pss.
Proof. by rewrite !delete_take_drop, take_insert_ge, drop_insert_lt by lia. Qed.

Lemma elem_of_concat (pss : list (list Z)) ps r : ps ∈ pss -> r ∈ ps -> r ∈ concat pss.
Proof. rewrite !list_elem_of_In, in_concat; eauto. Qed.
Lemma elem_of_delete (pss : list (list Z)) i j ps : i <> j -> pss !! j = Some ps -> ps ∈ delete i pss.
Proof.
  intros Hne Hj; rewrite delete_take_drop, elem_of_app; destruct (decide (j < i)%nat); [left|right].
  - apply list_elem_of_lookup; exists j; by rewrite lookup_take_lt.
  - apply list_elem_of_lookup; exists (j - S i)%nat; rewrite lookup_drop; by replace (S i + (j - S i))%nat with j by lia.
Qed.

(** One producer taken out. *)
Lemma producers_take po prs a pss i p :
  producers_ok po prs a pss -> prs !! i = Some p ->
  exists x ps, a !! i = Some x /\ pss !! i = Some ps /\ pl_holds po p (items_of x) ps (concat (delete i pss)).
Proof.
  intros [Hl Hb He (free & Hp)] Hi; pose proof (lookup_lt_Some _ _ _ Hi).
  destruct (lookup_lt_is_Some_2 a i) as [x Hx]; [lia|]; destruct (lookup_lt_is_Some_2 pss i) as [ps Hps]; [lia|].
  destruct (He i p x ps Hi Hx Hps) as [others Hh]; exists x, ps; split_all; try done.
  eapply pl_frame; [done|done|]; eapply pool_inv_perm; [|done]; by apply concat_delete.
Qed.

(** And put back after an operation. *)
Lemma producers_put po prs a pss i p x x' po' p' ps' :
  producers_ok po prs a pss -> prs !! i = Some p -> a !! i = Some x ->
  pl_holds po' p' (items_of x') ps' (concat (delete i pss)) -> keeps (concat (delete i pss)) po po' ->
  producers_ok po' (<[i := p']> prs) (<[i := x']> a) (<[i := ps']> pss).
Proof.
  intros [Hl Hb He (free & Hp)] Hi Hx Hh Hk; destruct (pl_pool _ _ _ _ _ Hh) as (free' & Hp').
  pose proof (lookup_lt_Some _ _ _ Hi) as Hlt.
  assert (<[i := ps']> pss !! i = Some ps') as Hps' by (apply list_lookup_insert_eq; lia).
  assert (pool_inv po' free' (concat (<[i := ps']> pss))) as Hall.
  { eapply pool_inv_perm; [|exact Hp']; rewrite (concat_delete _ _ _ Hps'); by rewrite delete_insert_same. }
  split; [by rewrite !length_insert..| |by exists free'].
  intros j pj xj psj Hpj Hxj Hpsj; destruct (decide (i = j)) as [<-|Hne].
  - rewrite list_lookup_insert_eq in Hpj by lia; rewrite list_lookup_insert_eq in Hxj by lia.
    rewrite Hps' in Hpsj; simplify_eq; eauto.
  - rewrite list_lookup_insert_ne in Hpj by done; rewrite list_lookup_insert_ne in Hxj by done.
    rewrite list_lookup_insert_ne in Hpsj by done.
    destruct (He j pj xj psj Hpj Hxj Hpsj) as [others Hj].
    exists (concat (delete j (<[i := ps']> pss))); eapply pl_frame; [done| |].
    + intros r Hr; apply Hk; eapply elem_of_concat; [by eapply elem_of_delete|done].
    + eapply pool_inv_perm; [|exact Hall]; apply concat_delete; by rewrite list_lookup_insert_ne.
Qed.

(** A new producer in front. *)
Lemma producers_cons po prs a pss x po' p :
  producers_ok po prs a pss -> pl_holds po' p (items_of x) [] (concat pss) -> keeps (concat pss) po po' ->
  producers_ok po' (p :: prs) (x :: a) ([] :: pss).
Proof.
  intros [Hl Hb He _] Hh Hk; destruct (pl_pool _ _ _ _ _ Hh) as (free' & Hp').
  split; [by cbn; rewrite Hl|by cbn; rewrite Hb| |by exists free'].
  intros [|j] pj xj psj Hpj Hxj Hpsj; cbn in *; simplify_eq; [eauto|].
  destruct (He j pj xj psj Hpj Hxj Hpsj) as [others Hj].
  exists (concat (delete j pss)); eapply pl_frame; [done| |].
  - intros r Hr; apply Hk; eapply elem_of_concat; [by eapply list_elem_of_lookup_2|done].
  - eapply pool_inv_perm; [|exact Hp']; by apply concat_delete.
Qed.
(** A new producer at the end. *)
Lemma producers_snoc po prs a pss x po' p :
  producers_ok po prs a pss -> pl_holds po' p (items_of x) [] (concat pss) -> keeps (concat pss) po po' ->
  producers_ok po' (prs ++ [p]) (a ++ [x]) (pss ++ [[]]).
Proof.
  intros [Hl Hb He _] Hh Hk; destruct (pl_pool _ _ _ _ _ Hh) as (free' & Hp').
  assert (concat (pss ++ [[]]) = concat pss) as Hcat by (rewrite concat_app; cbn; apply app_nil_r).
  split; [rewrite !length_app; cbn; lia|rewrite !length_app; cbn; lia| |rewrite Hcat; by exists free'].
  intros j pj xj psj Hpj Hxj Hpsj; destruct (decide (j < length prs)%nat) as [Hlt|Hge].
  - rewrite lookup_app_l in Hpj by lia; rewrite lookup_app_l in Hxj by lia; rewrite lookup_app_l in Hpsj by lia.
    destruct (He j pj xj psj Hpj Hxj Hpsj) as [others Hj].
    exists (concat (delete j pss)); eapply pl_frame; [done| |].
    + intros r Hr; apply Hk; eapply elem_of_concat; [by eapply list_elem_of_lookup_2|done].
    + eapply pool_inv_perm; [|exact Hp']; by apply concat_delete.
  - apply lookup_lt_Some in Hpj as Hlt; rewrite length_app in Hlt; cbn in Hlt; assert (j = length prs) as -> by lia.
    rewrite list_lookup_middle in Hpj by done; rewrite Hl, list_lookup_middle in Hxj by done.
    rewrite list_lookup_middle in Hpsj by lia; simplify_eq; by eexists.
Qed.

Lemma producers_malloc po prs a pss :
  producers_ok po prs a pss -> producers_ok (malloc_ok po).2 prs a pss.
Proof.
  intros [? ? He (free & Hp)]; split; try done; [|exists free; by apply pool_inv_malloc].
  intros i p x ps Hi Hx Hps; destruct (He i p x ps Hi Hx Hps) as [others Hh].
  exists (concat (delete i pss)); eapply pl_frame; [done|done|].
  apply pool_inv_malloc; eapply pool_inv_perm; [|done]; by apply concat_delete.
Qed.
End producers.
Arguments producers_ok {A P X _} items_of po prs a pss.

