(* ===== verification/QueueDestroy.v ===== *)
(** * What a queue's destructor relies on

    A producer of either kind gives its blocks back when it is destroyed, and frees
    those that are its own to free; whatever is on the free list then is freed by
    walking it.  [destroys] is that promise; [ConcurrentQueue.v] and [Tokens.v] have
    the destructors of whole queues, which go round their producers. *)

From S2P Require Import Prelude BlockPool ImplicitProducer BlockIndex ProducerFifo ProducerDestroy ExplicitProducer ExplicitFifo ExplicitDestroy Producers.

(** ** The free list *)

Section free_list.
Context {A : Type}.
Implicit Types (po : pool A).

Lemma destroy_free_list_ok po free : forall fuel head,
  chain (po_blocks po) head free -> (length free <= fuel)%nat -> Forall (fun p => p <> 0) free -> kinds_ok po ->
  destroy_free_list fuel head po = Done (filter (fun p => in_array po p = false) free).
Proof.
  induction free as [|p free IH]; intros fuel head Hc Hf Hne Hd; cbn [chain] in Hc.
  { subst; destruct fuel; done. }
  destruct Hc as (-> & b & Hb & _ & Hc); apply Forall_cons in Hne as [Hp Hne]; cbn [length] in Hf.
  destruct fuel as [|fuel]; [lia|]; cbn [destroy_free_list]; destruct (Z.eqb_spec p 0); [done|].
  unfold load; rewrite Hb; cbn [deref]; rewrite bind_Done, (IH fuel _ Hc), bind_Done by (done || lia).
  rewrite filter_cons, (Hd p b Hb); by destruct (in_array po p).
Qed.

Lemma inv_kinds po free used : pool_inv po free used -> kinds_ok po.
Proof. intros Hp p b Hb; by apply (pi_all _ _ _ Hp) in Hb as [_ ?]. Qed.

(** With no producer left, the free list has every block that is not of the array. *)
Lemma sweep_ok po free :
  pool_inv po free [] ->
  exists rest, destroy_free_list (size (po_blocks po)) (po_freeListHead po) po = Done rest /\ NoDup rest /\
    forall p, p ∈ rest <-> p ∈ dom (po_blocks po) /\ in_array po p = false.
Proof.
  intros Hp; pose proof Hp as [Hc Hh Hn Hg Hi Hs Hk Ha Har].
  assert (NoDup free) as Hnf by (by apply NoDup_app in Hn as (? & _ & _)).
  assert (forall p, p ∈ free -> p ∈ dom (po_blocks po)) as Hsub.
  { intros p Hpf; apply elem_of_dom; destruct (chain_dom _ _ _ _ Hc Hpf) as [b Hb]; by eexists. }
  rewrite (destroy_free_list_ok po free); [|done| | |by eapply inv_kinds].
  - eexists; split; [reflexivity|]; split; [by apply NoDup_filter|].
    intros p; rewrite list_elem_of_filter; split; [intros [? Hpf]; split; [by apply Hsub|done]|].
    intros [Hd E]; split; [done|]; apply elem_of_dom in Hd as [b Hb]; destruct (Ha p b Hb) as [Hm _]; cbn [app] in Hm.
    apply elem_of_app in Hm as [Hm|Hm]; [done|]; exfalso; unfold fresh in Hm.
    apply list_elem_of_fmap in Hm as (i & -> & Hi'%elem_of_seqZ); unfold in_array in E.
    destruct (Z.leb_spec (po_initialBlockPool po) (po_initialBlockPool po + i)); [|lia].
    destruct (Z.ltb_spec (po_initialBlockPool po + i) (po_initialBlockPool po + po_initialBlockPoolSize po)); [done|lia].
  - rewrite <- size_dom, <- (size_list_to_set (C := gset Z) free) by done; apply subseteq_size; intros p; rewrite elem_of_list_to_set.
    apply Hsub.
  - rewrite Forall_forall; intros p Hpf; apply Hsub, elem_of_dom in Hpf as [b Hb]; apply Hg in Hb; lia.
Qed.

(** The destructor as a whole: what it frees is every block outside the array, once. *)
Definition frees_all po (freed : list Z) : Prop :=
  NoDup freed /\ forall p, p ∈ freed <-> p ∈ dom (po_blocks po) /\ in_array po p = false.

Lemma retires_sweep po po' freed free :
  retires po po' freed -> pool_inv po' free [] ->
  exists rest, destroy_free_list (size (po_blocks po')) (po_freeListHead po') po' = Done rest /\ frees_all po (freed ++ rest) /\
    po_initialBlockPool po' = po_initialBlockPool po /\ po_initialBlockPoolSize po' = po_initialBlockPoolSize po.
Proof.
  intros [Hd Hg Hn Ho [E1 E2] _] Hp; destruct (sweep_ok po' free Hp) as (rest & -> & Hnr & Hr); exists rest; split; [done|].
  assert (forall p, in_array po' p = in_array po p) as Hia by (intros p; unfold in_array; by rewrite E1, E2).
  rewrite Forall_forall in Ho; split; [|done]; split.
  - apply NoDup_app; split_all; try done; intros p Hp1 [Hp2 _]%Hr; by apply (Hg p).
  - intros p; rewrite elem_of_app, Hr, Hd, Hia; split; [|tauto]; intros [Hf|?]; [|tauto]; split; [tauto|by apply Ho].
Qed.
End free_list.

(** ** Destroying a producer *)

(** The elements it destroys and the blocks it frees.  [pd_fits] bounds the addresses,
    where that matters. *)
Class destroy_ops (A P : Type) := { pd_destroy : pool A -> P -> run (list A * list Z * pool A); pd_fits : Z -> Prop }.
Class destroys (A P : Type) `{producer_like A P, destroy_ops A P} := {
  ds_ok po p items ps others :
    pl_holds po p items ps others -> pd_fits (po_brk po) ->
    exists freed po' free', pd_destroy po p = Done (items, freed, po') /\ retires po po' freed /\
      pool_inv po' free' others /\ keeps others po po' }.

Section implicit.
Context {A : Type}.

#[export] Instance implicit_destroy_ops : destroy_ops A ImplicitProducer := {|
  pd_destroy po p := '(xs, po) ← destroy_producer po p; mret (xs, [], po); pd_fits _ := True |}.
#[export] Instance implicit_destroys : destroys A ImplicitProducer.
Proof.
  split; cbn; intros po p items ps others Hh _.
  assert (exists po' free', destroy_producer po p = Done (items, po') /\ pool_inv po' free' others /\ keeps others po po') as (po' & free' & E & Hp & Hk).
  { destruct Hh as [(H & T & Hf)|(-> & -> & -> & free1 & Hp1)]; [by eapply destroy_producer_ok|by exists po, free1]. }
  rewrite E, bind_Done; exists [], po', free'; split_all; try done; by eapply retires_none, destroy_producer_heap.
Qed.
End implicit.

Section explicit.
Context {A : Type}.

#[export] Instance explicit_destroy_ops : destroy_ops A ExplicitProducer := {|
  pd_destroy po p := '(xs, freed, _, po) ← destroy_explicit po p; mret (xs, freed, po); pd_fits brk := brk <= 2 ^ 58 |}.
#[export] Instance explicit_destroys : destroys A ExplicitProducer.
Proof.
  split; cbn; intros po p items ps others (H & T & Hf) Hbrk.
  destruct (destroy_explicit_ok po p H T items ps others Hf Hbrk) as (freed & po' & free' & E & _ & Hp & Hk).
  destruct (ec_pool _ _ _ _ _ _ _ _ _ (ef_core _ _ _ _ _ _ _ Hf)) as (free & Hp0).
  rewrite E, bind_Done; exists freed, po', free'; split_all; try done.
  eapply destroy_explicit_retires; [by eapply inv_kinds|exact E].
Qed.
End explicit.

(** ** Destroying all of them *)

Section each.
Context {A P : Type} `{Hds : destroys A P}.
Implicit Types (po : pool A).

Fixpoint destroy_each (prs : list P) po : run (list A * list Z * pool A) :=
  match prs with
  | [] => mret ([], [], po)
  | p :: prs =>
      '(xs, freed, po) ← pd_destroy po p; '(ys, rest, po) ← destroy_each prs po;
      mret (xs ++ ys, freed ++ rest, po)
  end.

(** Without its first producer. *)
Lemma producers_rest {B} (items_of : B -> list A) po p (prs : list P) x a ps pss po' free' :
  producers_ok items_of po (p :: prs) (x :: a) (ps :: pss) -> keeps (concat pss) po po' -> pool_inv po' free' (concat pss) ->
  producers_ok items_of po' prs a pss.
Proof.
  intros [Hl Hb He _] Hk Hp; split; [by injection Hl|by injection Hb| |by exists free'].
  intros i pi xi psi Hpi Hxi Hpsi; destruct (He (S i) pi xi psi Hpi Hxi Hpsi) as [others Hhi].
  exists (concat (delete i pss)); eapply pl_frame; [done| |eapply pool_inv_perm; [|exact Hp]; by apply concat_delete].
  intros r Hr; apply Hk; eapply elem_of_concat; [by eapply list_elem_of_lookup_2|done].
Qed.

Lemma destroy_each_ok {B} (items_of : B -> list A) (prs : list P) : forall po a pss,
  producers_ok items_of po prs a pss -> pd_fits (po_brk po) ->
  exists freed po' free, destroy_each prs po = Done (concat (map items_of a), freed, po') /\ pool_inv po' free [] /\ retires po po' freed.
Proof.
  induction prs as [|p prs IH]; intros po a pss Hpk Hfit; pose proof Hpk as [Hl Hb He (free & Hp)]; cbn [destroy_each].
  { destruct a; [|done]; destruct pss; [|done]; exists [], po, free; split_all; try done; by apply retires_none. }
  destruct a as [|x a]; [done|]; destruct pss as [|ps pss]; [done|].
  destruct (producers_take _ _ _ _ 0 p Hpk eq_refl) as (x' & ps' & [= <-] & [= <-] & Hh); cbn [delete list_delete] in Hh.
  destruct (ds_ok _ _ _ _ _ Hh Hfit) as (freed & po1 & free1 & -> & Hr1 & Hp1 & Hk1); rewrite bind_Done.
  destruct (IH po1 a pss) as (rest & po' & free' & -> & Hp' & Hr'); [by eapply producers_rest|by rewrite (rt_brk _ _ _ Hr1)|].
  rewrite bind_Done; exists (freed ++ rest), po', free'; split_all; try done; by eapply retires_trans.
Qed.
End each.
