(* ===== verification/ConcurrentQueue.v ===== *)
(** * The concurrent queue from its parts ([common/concurrentqueue.h])

    The whole container as the stack uses it, without tokens: the list of
    producers (most recent first, from [producerListTail]), the hash tables that
    lead a thread to its producer, and the shared pool of blocks.  Operations run
    one at a time.  [QueueRefinement.v] shows that it implements [CQueue.v]. *)

From S2P Require Import Prelude BlockPool ImplicitProducer ProducerHash.

Record queue (A : Type) := Queue {
  cq_pool : pool A; cq_producers : list ImplicitProducer; cq_producerCount : Z;
  cq_hashes : list ImplicitProducerHash; cq_hashCount : Z }.
Arguments Queue {A} _ _ _ _ _.
Arguments cq_pool {A} _.
Arguments cq_producers {A} _.
Arguments cq_producerCount {A} _.
Arguments cq_hashes {A} _.
Arguments cq_hashCount {A} _.

Section queue.
Context {A : Type} (junk : Z).
Implicit Types (q : queue A).

Definition set_pool (v : pool A) q : queue A :=
  Queue v (cq_producers q) (cq_producerCount q) (cq_hashes q) (cq_hashCount q).
Definition set_producers (v : list ImplicitProducer) q : queue A :=
  Queue (cq_pool q) v (cq_producerCount q) (cq_hashes q) (cq_hashCount q).
Definition set_producerCount (v : Z) q : queue A :=
  Queue (cq_pool q) (cq_producers q) v (cq_hashes q) (cq_hashCount q).
Definition set_hashes (v : list ImplicitProducerHash) q : queue A :=
  Queue (cq_pool q) (cq_producers q) (cq_producerCount q) v (cq_hashCount q).
Definition set_hashCount (v : Z) q : queue A :=
  Queue (cq_pool q) (cq_producers q) (cq_producerCount q) (cq_hashes q) v.

(** [ConcurrentQueue(capacity)], on a heap where [brk] is free. *)
Definition new_queue (capacity brk : Z) (ms : list bool) : queue A :=
  Queue (populate_initial_block_list (initial_blocks capacity) brk ms) [] 0
    populate_initial_implicit_producer_hash 0.

(** [ConcurrentQueue(minCapacity, maxExplicitProducers, maxImplicitProducers)]. *)
Definition blocks_for (minCapacity maxExplicitProducers maxImplicitProducers : Z) : Z :=
  u64 (u64 (u64 (minCapacity + BLOCK_SIZE - 1) / BLOCK_SIZE - 1) * u64 (maxExplicitProducers + 1) +
       2 * u64 (maxExplicitProducers + maxImplicitProducers)).
Definition new_queue_for (minCapacity maxExplicitProducers maxImplicitProducers brk : Z) (ms : list bool) : queue A :=
  Queue (populate_initial_block_list (blocks_for minCapacity maxExplicitProducers maxImplicitProducers) brk ms) [] 0
    populate_initial_implicit_producer_hash 0.

(** ** Producers *)

(** Producer number [k], counted from the first one created. *)
Definition position_of (q : queue A) (k : nat) : nat := (length (cq_producers q) - S k)%nat.

Definition add_producer (p : ImplicitProducer) q : queue A :=
  set_producerCount (u32 (cq_producerCount q + 1)) (set_producers (p :: cq_producers q) q).

(** No implicit producer is ever inactive here, so there is none to recycle. *)
Definition recycle_or_create_producer q : run (option nat * queue A) :=
  let '(ok, po) := malloc_ok (cq_pool q) in
  let q := set_pool po q in
  if negb ok then mret (None, q)
  else
    '(po, p) ← new_producer junk (cq_pool q);
    mret (Some (length (cq_producers q)), add_producer p (set_pool po q)).

(** Making a larger table where the newest one would be half full. *)
Definition resize_hash (newCount : Z) q : run (bool * queue A) :=
  mainHash ← deref (head (cq_hashes q));
  if Z.shiftr (hash_capacity mainHash) 1 <=? newCount then
    newCapacity ← grow_capacity 64 newCount (u64 (Z.shiftl (hash_capacity mainHash) 1));
    let '(ok, po) := malloc_ok (cq_pool q) in
    let q := set_pool po q in
    if negb ok then mret (false, set_hashCount (u64 (cq_hashCount q - 1)) q)
    else mret (true, set_hashes (new_hash newCapacity :: cq_hashes q) q)
  else mret (true, q).

(** The second half of [get_or_add_implicit_producer], for a thread that is not
    registered yet.  The last branch waits for another thread to finish resizing. *)
Definition insert_implicit_producer (id newCount : Z) q : run (option nat * queue A) :=
  '(ok, q) ← resize_hash newCount q;
  if negb (ok : bool) then mret (None, q)
  else
    mainHash ← deref (head (cq_hashes q));
    if newCount <? Z.shiftr (hash_capacity mainHash) 1 + Z.shiftr (hash_capacity mainHash) 2 then
      '(producer, q) ← recycle_or_create_producer q;
      match producer with
      | None => mret (None, set_hashCount (u64 (cq_hashCount q - 1)) q)
      | Some k => hs ← insert_main id (Some k) (cq_hashes q); mret (Some k, set_hashes hs q)
      end
    else Blocked.

(** The thread [id]'s producer, made on its first use. *)
Definition get_or_add_implicit_producer (id : Z) q : run (option nat * queue A) :=
  found ← find_producer (cq_hashes q) id;
  match found with
  | Some (O, v) => mret (v, q)
  | Some (S _, v) => hs ← insert_main id v (cq_hashes q); mret (v, set_hashes hs q)
  | None =>
      let newCount := u64 (1 + cq_hashCount q) in
      insert_implicit_producer id newCount (set_hashCount newCount q)
  end.

(** ** Enqueuing *)

(** What [f] does to the producer at position [i]. *)
Definition at_producer {B} (i : nat)
    (f : pool A -> ImplicitProducer -> run (B * pool A * ImplicitProducer)) q : run (B * queue A) :=
  p ← deref (cq_producers q !! i);
  '(r, po, p) ← f (cq_pool q) p;
  mret (r, set_producers (<[i := p]> (cq_producers q)) (set_pool po q)).

Definition inner_enqueue (canAlloc : bool) (id : Z) (x : A) q : run (bool * queue A) :=
  '(producer, q) ← get_or_add_implicit_producer id q;
  match producer with
  | None => mret (false, q)
  | Some k => at_producer (position_of q k) (ip_enqueue junk canAlloc x) q
  end.
Definition inner_enqueue_bulk (canAlloc : bool) (id : Z) (xs : list A) q : run (bool * queue A) :=
  '(producer, q) ← get_or_add_implicit_producer id q;
  match producer with
  | None => mret (false, q)
  | Some k => at_producer (position_of q k) (ip_enqueue_bulk junk canAlloc xs) q
  end.

Definition q_enqueue (id : Z) (x : A) : queue A -> run (bool * queue A) := inner_enqueue true id x.
Definition q_try_enqueue (id : Z) (x : A) : queue A -> run (bool * queue A) := inner_enqueue false id x.
Definition q_enqueue_bulk (id : Z) (xs : list A) : queue A -> run (bool * queue A) :=
  inner_enqueue_bulk true id xs.
Definition q_try_enqueue_bulk (id : Z) (xs : list A) : queue A -> run (bool * queue A) :=
  inner_enqueue_bulk false id xs.

(** ** Dequeuing *)

(** The scoring loop: how many non-empty producers were seen, and the best one. *)
Fixpoint score (ps : list ImplicitProducer) (pos nonEmptyCount : nat) (bestSize : Z) (best : option nat)
  : nat * option nat :=
  match ps with
  | [] => (nonEmptyCount, best)
  | p :: ps =>
      if decide (nonEmptyCount < 3)%nat then
        let size := ip_size_approx p in
        if 0 <? size then
          if bestSize <? size then score ps (S pos) (S nonEmptyCount) size (Some pos)
          else score ps (S pos) (S nonEmptyCount) bestSize best
        else score ps (S pos) nonEmptyCount bestSize best
      else (nonEmptyCount, best)
  end.

(** Trying the producers from position [pos] on, except [best]. *)
Fixpoint dequeue_rest (n : nat) (best : option nat) (pos : nat) q : run (option A * queue A) :=
  match n with
  | O => mret (None, q)
  | S n =>
      if decide (Some pos = best) then dequeue_rest n best (S pos) q
      else
        '(r, q) ← at_producer pos ip_dequeue q;
        match r with
        | Some x => mret (Some x, q)
        | None => dequeue_rest n best (S pos) q
        end
  end.

Definition q_try_dequeue q : run (option A * queue A) :=
  let '(nonEmptyCount, best) := score (cq_producers q) 0 0 0 None in
  if decide (0 < nonEmptyCount)%nat then
    i ← deref best;
    '(r, q) ← at_producer i ip_dequeue q;
    match r with
    | Some x => mret (Some x, q)
    | None => dequeue_rest (length (cq_producers q)) best 0 q
    end
  else mret (None, q).

Definition q_try_dequeue_non_interleaved q : run (option A * queue A) :=
  dequeue_rest (length (cq_producers q)) None 0 q.

(** The loop of [try_dequeue_bulk]: [max] is what is still wanted. *)
Fixpoint dequeue_bulk_rest (n : nat) (pos : nat) (max : Z) q : run (list A * queue A) :=
  match n with
  | O => mret ([], q)
  | S n =>
      '(xs, q) ← at_producer pos (ip_dequeue_bulk max) q;
      if Z.of_nat (length xs) =? max then mret (xs, q)
      else '(ys, q) ← dequeue_bulk_rest n (S pos) (u64 (max - Z.of_nat (length xs))) q; mret (xs ++ ys, q)
  end.
Definition q_try_dequeue_bulk (max : Z) q : run (list A * queue A) :=
  dequeue_bulk_rest (length (cq_producers q)) 0 max q.

Definition q_size_approx q : Z :=
  fold_left (fun size p => u64 (size + ip_size_approx p)) (cq_producers q) 0.

(** ** The destructor *)

Fixpoint destroy_producers (ps : list ImplicitProducer) (po : pool A) : run (list A * pool A) :=
  match ps with
  | [] => mret ([], po)
  | p :: ps =>
      '(xs, po) ← destroy_producer po p; '(ys, po) ← destroy_producers ps po; mret (xs ++ ys, po)
  end.

(** The elements destroyed, the blocks freed one by one by walking the free list, and the array freed as a
    whole. *)
Definition destroy_queue q : run (list A * list Z * (Z * Z)) :=
  '(xs, po) ← destroy_producers (cq_producers q) (cq_pool q);
  freed ← destroy_free_list (size (po_blocks po)) (po_freeListHead po) po;
  mret (xs, freed, (po_initialBlockPool po, po_initialBlockPoolSize po)).
End queue.
