(* ===== verification/QueueRefinement.v ===== *)
(** * The concurrent queue implements the queue of per-thread FIFOs

    A relation between the whole data structure of [ConcurrentQueue.v] (blocks,
    indices, counters, hash tables) and the abstract queue of [CQueue.v]; every
    operation preserves it and gives the abstract answer, whatever the state of
    the counters and of the allocator. *)

From S2P Require Import Prelude CQueue BlockPool ImplicitProducer BlockIndex ProducerFifo ProducerBulk ProducerDestroy Producers ProducerHash ConcurrentQueue.

(** ** The whole queue *)

Section refinement.
Context {A : Type} (junk : Z).
Implicit Types (q : queue A) (a : cqueue A).

(** [tids] are the threads of the producers, newest first; [reg] is what the hash
    tables know. *)
Record threads_ok (hs : list ImplicitProducerHash) (count : Z) a (tids : list Z) (reg : gmap Z nat) : Prop := {
  th_names : map p_thread a = map Z.to_nat tids;
  th_nodup : NoDup tids;
  th_pos : Forall (fun id => 0 < id) tids;
  th_reg : forall id k, reg !! id = Some k <-> reverse tids !! k = Some id;
  th_size : size reg = length tids;
  th_tables : tables_ok reg hs count }.

Definition refines q a : Prop :=
  (exists pss, producers_ok p_items (cq_pool q) (cq_producers q) a pss) /\
  (exists tids reg, threads_ok (cq_hashes q) (cq_hashCount q) a tids reg).

(** No allocation has failed and none will. *)
Definition sound q : Prop := healthy (cq_pool q) /\ Forall alive (cq_producers q).

Lemma tids_names_nodup hs n a tids reg : threads_ok hs n a tids reg -> NoDup (map p_thread a).
Proof.
  intros [-> Hnd Hpos _ _ _]; rewrite Forall_forall in Hpos; apply NoDup_alt; intros i j x Hi Hj.
  rewrite list_lookup_fmap in Hi, Hj; apply fmap_Some in Hi as (y & Hy & ->); apply fmap_Some in Hj as (z & Hz & E).
  pose proof (Hpos y (list_elem_of_lookup_2 _ _ _ Hy)); pose proof (Hpos z (list_elem_of_lookup_2 _ _ _ Hz)).
  assert (y = z) as -> by lia; by eapply NoDup_lookup.
Qed.

(** *** The tables *)

(** The tables after [resize_hash] have room for one more thread. *)
Definition roomy (reg : gmap Z nat) (hs : list ImplicitProducerHash) : Prop :=
  Forall (table_ok reg) hs /\
  (forall id, is_Some (reg !! id) -> id <> 0 /\ exists h, h ∈ hs /\ has h id) /\
  exists h hs', hs = h :: hs' /\ 2 * (Z.of_nat (size reg) + 1) < hash_capacity h /\
    hash_capacity h <= Z.max 32 (4 * (Z.of_nat (size reg) + 1)).

Lemma resize_ok reg q :
  tables_ok reg (cq_hashes q) (Z.of_nat (size reg)) -> Z.of_nat (size reg) < 2 ^ 59 ->
  cq_hashCount q = Z.of_nat (size reg) + 1 ->
  exists ok q', resize_hash (Z.of_nat (size reg) + 1) q = Done (ok, q') /\
    cq_producers q' = cq_producers q /\ (cq_pool q' = cq_pool q \/ cq_pool q' = (malloc_ok (cq_pool q)).2) /\
    if ok then roomy reg (cq_hashes q') /\ cq_hashCount q' = Z.of_nat (size reg) + 1
    else cq_hashes q' = cq_hashes q /\ cq_hashCount q' = Z.of_nat (size reg) /\ ~ healthy (cq_pool q).
Proof.
  intros [Htab Hfound _ (h & hs' & Hhs & Hroom & Hmax)] Hsz Hcnt; unfold resize_hash; rewrite Hhs; cbn [head deref].
  rewrite Hhs in Htab; pose proof Htab as [Hok _]%Forall_cons; rewrite bind_Done, shiftr1.
  destruct (to_capacity _ (to_keys _ _ Hok)) as (c & Hc & Ecap).
  pose proof (Z.div_mod (hash_capacity h) 2); pose proof (Z.mod_pos_bound (hash_capacity h) 2).
  pose proof (capacity_even _ (to_keys _ _ Hok)).
  destruct (Z.leb_spec (hash_capacity h / 2) (Z.of_nat (size reg) + 1)) as [Hle|Hgt].
  2:{ exists true, q; split; [done|]; split; [done|]; split; [by left|]; split; [|done].
      rewrite Hhs; split; [done|]; split; [by rewrite <- Hhs|]; exists h, hs'; split; [done|lia]. }
  rewrite Z.shiftl_mul_pow2, wrap_small by (unfold in_u; lia); cbn [grow_capacity]; rewrite shiftr1.
  rewrite Z.div_mul by lia; destruct (Z.leb_spec (hash_capacity h) (Z.of_nat (size reg) + 1)); [lia|].
  rewrite bind_Done; unfold malloc_ok; destruct (default true (head (po_mallocs (cq_pool q)))) eqn:Em; cbn [negb].
  - eexists true, _; split; [reflexivity|]; split; [done|]; split; [by right|]; split; [|done].
    cbn [cq_hashes set_hashes set_pool]; rewrite Hhs; split; [|split].
    + apply Forall_cons; split; [|done]; change (2 ^ 1) with 2.
      replace (hash_capacity h * 2) with (2 ^ (c + 1)) by (rewrite Z.pow_add_r by lia; lia).
      apply new_hash_ok; assert (c < 62); [|lia]; apply (Z.pow_lt_mono_r_iff 2); lia.
    + intros id Hid; destruct (Hfound id Hid) as (? & h0 & Hh0 & ?); rewrite Hhs in Hh0; split; [done|].
      exists h0; split; [by right|done].
    + eexists _, _; split; [reflexivity|]; cbn; lia.
  - eexists false, _; split; [reflexivity|]; split; [done|]; split; [by right|]; split; [by cbn; rewrite ?Hhs|].
    cbn; rewrite Hcnt, wrap_small by (unfold in_u; lia); split; [lia|]; intros Hh; unfold healthy in Hh; by rewrite Hh in Em.
Qed.

(** Entering a thread into the newest table. *)
Lemma insert_main_ok reg hs id k :
  Forall (table_ok reg) hs -> (forall x, is_Some (reg !! x) -> x <> 0 /\ exists h, h ∈ hs /\ has h x) ->
  (exists h hs', hs = h :: hs' /\ ~ has h id /\ Z.of_nat (size (<[id := k]> reg)) < hash_capacity h) ->
  id <> 0 -> default k (reg !! id) = k ->
  exists h h' hs', hs = h :: hs' /\ insert_main id (Some k) hs = Done (h' :: hs') /\
    hash_capacity h' = hash_capacity h /\ Forall (table_ok (<[id := k]> reg)) (h' :: hs') /\
    forall x, is_Some (<[id := k]> reg !! x) -> x <> 0 /\ exists h0, h0 ∈ h' :: hs' /\ has h0 x.
Proof.
  intros Hall Hfound (h & hs' & -> & Hnot & Hsz) Hid Hk; pose proof Hall as [Hok Hrest]%Forall_cons.
  destruct (insert_table_ok reg h id k Hok Hid Hnot Hk Hsz) as (h' & Hrun & Hok' & Hhas & Hcap).
  exists h, h', hs'; split; [done|]; unfold insert_main; cbn [head deref tail]; rewrite bind_Done, Hrun, bind_Done.
  split; [done|]; split; [done|]; split.
  - apply Forall_cons; split; [done|]; destruct (reg !! id) as [k'|] eqn:E; cbn in Hk.
    + subst; by rewrite insert_id.
    + eapply Forall_impl; [exact Hrest|]; intros h0 H0; by apply table_ok_mono.
  - intros x Hx; destruct (decide (x = id)) as [->|Hne].
    + split; [done|]; exists h'; split; [by left|]; apply Hhas; [done|by left].
    + rewrite lookup_insert_ne in Hx by done; destruct (Hfound x Hx) as (Hx0 & h0 & Hin & Hh0); split; [done|].
      apply elem_of_cons in Hin as [->|Hin]; [|exists h0; split; [by right|done]].
      exists h'; split; [by left|]; apply Hhas; [done|by right].
Qed.

(** *** The thread's producer *)

(** Position [i] is the producer of thread [id]. *)
Definition owned a (i : nat) (id : Z) : Prop := exists x, a !! i = Some x /\ p_thread x = Z.to_nat id.

Lemma reg_position hs n a tids reg id k :
  threads_ok hs n a tids reg -> reg !! id = Some k -> owned a (length a - S k) id /\ (k < length a)%nat.
Proof.
  intros [Hn _ _ Hr _ _] Hk; apply Hr in Hk; pose proof (lookup_lt_Some _ _ _ Hk) as Hlt.
  rewrite length_reverse in Hlt; rewrite reverse_lookup in Hk by done.
  assert (length a = length tids) as Hl by (by rewrite <- (length_map p_thread), Hn, length_map).
  rewrite <- Hl in Hk; split; [|lia]; unfold owned.
  assert (map p_thread a !! (length a - S k)%nat = Some (Z.to_nat id)) as Hm.
  { rewrite Hn, list_lookup_fmap, Hk; done. }
  rewrite list_lookup_fmap in Hm; apply fmap_Some in Hm as (x & ? & ?); eauto.
Qed.

Lemma with_producer_present t a i x :
  a !! i = Some x -> p_thread x = t -> with_producer t (fun l => l) a = a.
Proof.
  intros Hi Ht; destruct (with_producer_cases t (fun l => l) a) as [[Hn _]|(q1 & l & q2 & E & ->)]; [|done].
  exfalso; apply Hn, list_elem_of_fmap; exists x; split; [done|by eapply list_elem_of_lookup_2].
Qed.

Lemma with_producer_split t a :
  (forall f, with_producer t f a = Producer t (f []) :: a) \/
  (exists a1 l a2, forall f, with_producer t f a = a1 ++ Producer t (f l) :: a2).
Proof.
  assert ((forall f, update_producer t f a = None) \/
    (exists a1 l a2, forall f, update_producer t f a = Some (a1 ++ Producer t (f l) :: a2))) as H.
  { induction a as [|[t' l] a IH]; [by left|]; cbn [update_producer p_thread].
    destruct (decide (t' = t)) as [->|Hne]; [right; by exists [], l, a|].
    destruct IH as [IH|(a1 & l' & a2 & IH)]; [left; intros f; by rewrite IH|right].
    exists (Producer t' l :: a1), l', a2; intros f; by rewrite IH. }
  unfold with_producer; destruct H as [H|(a1 & l & a2 & H)]; [left; intros f; by rewrite H|right].
  exists a1, l, a2; intros f; by rewrite H.
Qed.

(** Working on the producer of [t] where it stands. *)
Lemma with_producer_at t f a i x :
  NoDup (map p_thread (with_producer t (fun l => l) a)) ->
  with_producer t (fun l => l) a !! i = Some x -> p_thread x = t ->
  with_producer t f a = <[i := Producer t (f (p_items x))]> (with_producer t (fun l => l) a).
Proof.
  intros Hnd Hi Ht; assert (exists a1 l a2, forall f, with_producer t f a = a1 ++ Producer t (f l) :: a2)
    as (a1 & l & a2 & H).
  { destruct (with_producer_split t a) as [H|H]; [by exists [], [], a|done]. }
  rewrite !H in *; assert (i = length a1) as ->.
  { eapply (NoDup_lookup (map p_thread (a1 ++ Producer t l :: a2)) i (length a1) t); [done|..].
    - by rewrite list_lookup_fmap, Hi, <- Ht.
    - by rewrite list_lookup_fmap, list_lookup_middle. }
  rewrite list_lookup_middle in Hi by done; injection Hi as <-; cbn [p_items].
  by rewrite insert_app_r_alt, Nat.sub_diag by lia.
Qed.

Lemma threads_cons hs n a tids reg id hs' n' :
  threads_ok hs n a tids reg -> 0 < id -> reg !! id = None ->
  tables_ok (<[id := length tids]> reg) hs' n' ->
  threads_ok hs' n' (Producer (Z.to_nat id) [] :: a) (id :: tids) (<[id := length tids]> reg).
Proof.
  intros [Hn Hnd Hpos Hr Hs _] Hid Hnone Ht; split; try done.
  - cbn; by rewrite Hn.
  - apply NoDup_cons; split; [|done]; intros Hin; rewrite <- (reverse_involutive tids), elem_of_reverse in Hin.
    apply list_elem_of_lookup in Hin as [k Hk]; apply Hr in Hk; congruence.
  - by apply Forall_cons.
  - intros x k; rewrite reverse_cons; destruct (decide (x = id)) as [->|Hne].
    + rewrite lookup_insert_eq; split.
      * intros [= <-]; rewrite lookup_app_r by (rewrite length_reverse; lia); by rewrite length_reverse, Nat.sub_diag.
      * intros [Hk|[Hk1 Hk2]]%lookup_app_Some; [apply Hr in Hk; congruence|].
        apply list_lookup_singleton_Some in Hk2 as [? _]; rewrite length_reverse in *; f_equal; lia.
    + rewrite lookup_insert_ne, Hr by done; split.
      * intros Hk; by apply lookup_app_l_Some.
      * intros [Hk|[_ Hk2]]%lookup_app_Some; [done|]; by apply list_lookup_singleton_Some in Hk2 as [_ ->].
  - cbn; rewrite map_size_insert_None by done; by rewrite Hs.
Qed.

Lemma healthy_malloc (po po' : pool A) : po' = po \/ po' = (malloc_ok po).2 -> healthy po -> healthy po'.
Proof. unfold healthy; intros [-> | ->]; cbn; [done|by intros ->]. Qed.

(** Making a producer: one more, or none for want of memory. *)
Lemma create_producer_ok q a pss t :
  producers_ok p_items (cq_pool q) (cq_producers q) a pss ->
  exists r q', recycle_or_create_producer junk q = Done (r, q') /\
    cq_hashes q' = cq_hashes q /\ cq_hashCount q' = cq_hashCount q /\ (sound q -> sound q' /\ r <> None) /\
    match r with
    | None => exists pss', producers_ok p_items (cq_pool q') (cq_producers q') a pss'
    | Some k => k = length (cq_producers q) /\ length (cq_producers q') = S k /\
        exists pss', producers_ok p_items (cq_pool q') (cq_producers q') (Producer t [] :: a) pss'
    end.
Proof.
  intros Hpk%producers_malloc; unfold recycle_or_create_producer.
  pose proof (healthy_malloc (cq_pool q) (malloc_ok (cq_pool q)).2 (or_intror eq_refl)) as Hhe.
  unfold malloc_ok in *; cbn [snd] in *; destruct (default true (head (po_mallocs (cq_pool q)))) eqn:Em; cbn [negb].
  2:{ eexists None, _; split; [reflexivity|]; split; [done|]; split; [done|]; split; [|by exists pss].
      intros [Hh _]; unfold healthy in Hh; by rewrite Hh in Em. }
  pose proof Hpk as [_ _ _ (free & Hp)].
  destruct (new_producer_ok junk _ free (concat pss) Hp) as (po' & p & Hrun & Hh & Hk & Hheal).
  cbn [cq_pool set_pool]; rewrite Hrun, bind_Done; eexists (Some _), _; split; [reflexivity|].
  split; [done|]; split; [done|]; split.
  - intros [Hs1 Hs2]; destruct (Hheal (Hhe Hs1)) as [Hpo Hal]; split; [|done]; split; [done|by apply Forall_cons].
  - split; [done|]; split; [done|]; exists ([] :: pss); by eapply producers_cons.
Qed.

Lemma insert_producer_ok id q a pss tids reg :
  producers_ok p_items (cq_pool q) (cq_producers q) a pss ->
  threads_ok (cq_hashes q) (Z.of_nat (size reg)) a tids reg -> cq_hashCount q = Z.of_nat (size reg) + 1 ->
  0 < id -> Z.of_nat (length a) < 2 ^ 59 -> reg !! id = None -> (forall h, h ∈ cq_hashes q -> ~ has h id) ->
  exists r q', insert_implicit_producer junk id (Z.of_nat (size reg) + 1) q = Done (r, q') /\
    (sound q -> sound q' /\ r <> None) /\
    match r with
    | None => refines q' a
    | Some k => refines q' (Producer (Z.to_nat id) [] :: a) /\ owned (Producer (Z.to_nat id) [] :: a) (position_of q' k) id
    end.
Proof.
  intros Hpk Hth Hcnt Hid Hlen Hnone Hno; pose proof Hth as [Hn Hnd Hpos Hr Hs Htk].
  assert (length a = length tids) as Hl by (by rewrite <- (length_map p_thread), Hn, length_map).
  unfold insert_implicit_producer.
  destruct (resize_ok reg q Htk ltac:(lia) Hcnt) as (ok & q1 & Hrun & Eprs & Epool & Hres); rewrite Hrun, bind_Done.
  assert (producers_ok p_items (cq_pool q1) (cq_producers q1) a pss) as Hpk1.
  { rewrite Eprs; destruct Epool as [-> | ->]; [done|by apply producers_malloc]. }
  assert (sound q -> sound q1) as Hsd1.
  { intros [Hh Ha]; split; [by eapply healthy_malloc|by rewrite Eprs]. }
  destruct ok; cbn [negb].
  2:{ destruct Hres as (Eh & Ec & Hun); exists None, q1; split; [done|]; split; [intros [Hh _]; by apply Hun in Hh|].
      split; [by exists pss|]; exists tids, reg; rewrite Eh, Ec; done. }
  destruct Hres as [(Htab & Hfound & h & hs' & Ehs & Hroom & Hmax) Ec]; rewrite Ehs; cbn [head deref].
  assert (table_ok reg h) as Hok by (rewrite Ehs in Htab; by apply Forall_cons in Htab as [? _]).
  pose proof (capacity_even _ (to_keys _ _ Hok)); rewrite bind_Done, shiftr1; assert (0 <= Z.shiftr (hash_capacity h) 2) by (apply Z.shiftr_nonneg; lia).
  pose proof (Z.div_mod (hash_capacity h) 2); pose proof (Z.mod_pos_bound (hash_capacity h) 2).
  destruct (Z.ltb_spec (Z.of_nat (size reg) + 1) (hash_capacity h / 2 + Z.shiftr (hash_capacity h) 2)); [|lia].
  destruct (create_producer_ok q1 a pss (Z.to_nat id) Hpk1) as (r & q2 & -> & Eh2 & Ec2 & Hsd2 & Hout); rewrite bind_Done.
  rewrite Ehs in Eh2; destruct r as [k|].
  2:{ eexists None, _; split; [reflexivity|]; split; [intros Hsd; by destruct (Hsd2 (Hsd1 Hsd))|]; split; [done|].
      exists tids, reg; cbn; rewrite Eh2, Ec2, Ec, wrap_small by (unfold in_u; lia).
      split; try done; split; [by rewrite <- Ehs|by rewrite <- Ehs|lia|exists h, hs'; split; [done|lia]]. }
  destruct Hout as (-> & El & pss2 & Hpk2); rewrite Eprs in *.
  assert (length (cq_producers q) = length tids) as Elen by (rewrite (pk_length _ _ _ _ Hpk); done); rewrite Elen in *.
  destruct (insert_main_ok reg (cq_hashes q2) id (length tids)) as (h0 & h' & hs2 & Eh0 & -> & Hcap & Htab' & Hf').
  { by rewrite Eh2, <- Ehs. } { by rewrite Eh2, <- Ehs. }
  { exists h, hs'; split; [done|]; rewrite map_size_insert_None by done; split; [|lia].
    intros (j & e & Hj & He).
    destruct (to_reg reg h Hok j e Hj) as (k & Hk & _); [lia|]; congruence. }
  { lia. } { by rewrite Hnone. }
  rewrite Eh2 in Eh0; injection Eh0 as <- <-; rewrite bind_Done.
  eexists (Some _), _; split; [reflexivity|]; split; [intros Hsd; destruct (Hsd2 (Hsd1 Hsd)); done|]; split; [split|].
  - by exists pss2.
  - exists (id :: tids), (<[id := length tids]> reg); eapply threads_cons; try done.
    split; try done; [rewrite map_size_insert_None by done; cbn; lia|].
    exists h', hs'; split; [done|]; rewrite map_size_insert_None by done; lia.
  - exists (Producer (Z.to_nat id) []); unfold position_of; cbn; rewrite El, Nat.sub_diag; done.
Qed.

(** A registered thread gets its producer; only the tables may change. *)
Lemma get_registered id q a pss tids reg k :
  producers_ok p_items (cq_pool q) (cq_producers q) a pss -> threads_ok (cq_hashes q) (cq_hashCount q) a tids reg ->
  reg !! id = Some k ->
  exists hs, get_or_add_implicit_producer junk id q = Done (Some k, set_hashes hs q) /\
    threads_ok hs (cq_hashCount q) a tids reg /\ owned a (position_of q k) id.
Proof.
  intros Hpk Hth Hk; pose proof Hth as [Hn Hnd Hpos Hr Hs Htk]; pose proof Htk as [Htab Hfound Hcnt Hmain].
  unfold get_or_add_implicit_producer, position_of; rewrite (pk_length _ _ _ _ Hpk).
  destruct (reg_position _ _ _ _ _ _ _ Hth Hk) as [Hown _].
  destruct (Hfound id) as (Hid & h1 & Hin1 & Hh1); [by eexists|].
  destruct (find_producer_ok reg (cq_hashes q) id Htab Hid) as (r & -> & Hres); rewrite bind_Done.
  destruct r as [[[|d] v]|]; [|destruct Hres as (-> & _ & Hd); rewrite Hk|by apply Hres in Hin1].
  - destruct Hres as (-> & _); rewrite Hk; exists (cq_hashes q); split; [by destruct q|done].
  - destruct (insert_main_ok reg (cq_hashes q) id k Htab Hfound) as (h & h' & hs' & Ehs & -> & Hcap & Htab' & Hf').
    { destruct Hmain as (h & hs' & E & Hroom & _); exists h, hs'; rewrite E in Hd; split; [done|].
      split; [by apply Hd|]; rewrite insert_id by done; lia. }
    { done. } { by rewrite Hk. }
    rewrite bind_Done; exists (h' :: hs'); split; [done|]; split; [|done].
    split; try done; rewrite insert_id in Htab', Hf' by done.
    split; try done; destruct Hmain as (h0 & hs0 & E & Hm); exists h', hs'; rewrite Hcap.
    rewrite E in Ehs; by simplify_eq.
Qed.

Lemma owned_registered hs n a tids reg i id :
  threads_ok hs n a tids reg -> owned a i id -> 0 < id -> (i < length a)%nat /\ reg !! id = Some (length a - S i)%nat.
Proof.
  intros [Hn Hnd Hpos Hr Hs _] (x & Hx & Hxt) Hid; pose proof (lookup_lt_Some _ _ _ Hx) as Hlt.
  assert (length a = length tids) as Hl by (by rewrite <- (length_map p_thread), Hn, length_map).
  split; [done|]; apply Hr; rewrite reverse_lookup by lia; replace (length tids - S (length a - S i))%nat with i by lia.
  assert (map Z.to_nat tids !! i = Some (Z.to_nat id)) as Hm by (rewrite <- Hn, list_lookup_fmap, Hx, <- Hxt; done).
  rewrite list_lookup_fmap in Hm; apply fmap_Some in Hm as (y & Hy & E).
  rewrite Forall_lookup in Hpos; pose proof (Hpos i y Hy); by assert (y = id) as -> by lia.
Qed.

(** [get_or_add_implicit_producer] finds the thread's producer, or adds one. *)
Lemma get_or_add_ok id q a :
  refines q a -> 0 < id -> Z.of_nat (length a) < 2 ^ 59 ->
  exists r q', get_or_add_implicit_producer junk id q = Done (r, q') /\ (sound q -> sound q' /\ r <> None) /\
    match r with
    | None => refines q' a
    | Some k => refines q' (with_producer (Z.to_nat id) (fun l => l) a) /\
        owned (with_producer (Z.to_nat id) (fun l => l) a) (position_of q' k) id
    end.
Proof.
  intros [[pss Hpk] (tids & reg & Hth)] Hid Hlen.
  pose proof Hth as [Hn Hnd Hpos Hr Hs Htk]; pose proof Htk as [Htab Hfound Hcnt Hmain].
  destruct (reg !! id) as [k|] eqn:Hnone.
  { destruct (get_registered id q a pss tids reg k Hpk Hth Hnone) as (hs & -> & Hth' & x & Hx & Hxt).
    exists (Some k), (set_hashes hs q); split; [done|]; split; [done|]; rewrite (with_producer_present _ _ _ _ Hx Hxt).
    split; [|by exists x]; split; [by exists pss|by exists tids, reg]. }
  assert (length a = length tids) as Hl by (by rewrite <- (length_map p_thread), Hn, length_map).
  unfold get_or_add_implicit_producer.
  destruct (find_producer_ok reg (cq_hashes q) id Htab) as (r & -> & Hres); [lia|]; rewrite bind_Done.
  destruct r as [[d v]|]; [destruct Hres as (_ & [? ?] & _); congruence|].
  rewrite Hcnt, (wrap_small 64) by (unfold in_u; lia); rewrite (Z.add_comm 1).
  set (q0 := set_hashCount (Z.of_nat (size reg) + 1) q).
  destruct (insert_producer_ok id q0 a pss tids reg) as (r & q' & Hrun & Hsound & Hout);
    [done|by rewrite <- Hcnt|done..|].
  exists r, q'; split; [done|]; split; [done|]; destruct r as [k|]; [|done].
  assert (with_producer (Z.to_nat id) (fun l => l) a = Producer (Z.to_nat id) [] :: a) as ->; [|done].
  destruct (with_producer_cases (Z.to_nat id) (fun l => l) a) as [[_ ->]|(a1 & l & a2 & Ea & _)]; [done|].
  exfalso; assert (Z.to_nat id ∈ map p_thread a) as Hin.
  { rewrite Ea, map_app; cbn; apply elem_of_app; right; by left. }
  rewrite Hn in Hin; apply list_elem_of_fmap in Hin as (y & Ey & Hy); rewrite Forall_forall in Hpos.
  pose proof (Hpos y Hy); assert (y = id) as -> by lia.
  rewrite <- (reverse_involutive tids), elem_of_reverse in Hy; apply list_elem_of_lookup in Hy as [k' Hk'].
  apply Hr in Hk'; congruence.
Qed.

(** *** Operations on one producer, seen from the queue *)

Lemma threads_insert hs n a tids reg i x items :
  threads_ok hs n a tids reg -> a !! i = Some x ->
  threads_ok hs n (<[i := Producer (p_thread x) items]> a) tids reg.
Proof.
  intros [Hn ? ? ? ? ?] Hx; split; try done; rewrite <- Hn; apply list_eq; intros j.
  rewrite !list_lookup_fmap; destruct (decide (i = j)) as [<-|]; [|by rewrite list_lookup_insert_ne].
  rewrite list_lookup_insert_eq, Hx by (by eapply lookup_lt_Some); done.
Qed.

Lemma at_producer_ok {B} (f : pool A -> ImplicitProducer -> run (B * pool A * ImplicitProducer))
    (P : B -> list A -> Prop) (Q : B -> Prop) q a i x :
  refines q a -> a !! i = Some x ->
  (forall po p ps others, holds po p (p_items x) ps others ->
     exists r po' p' ps' items', f po p = Done (r, po', p') /\ framed others po p po' p' /\
       holds po' p' items' ps' others /\ P r items' /\ (alive p -> healthy po -> Q r)) ->
  exists r items' q', at_producer i f q = Done (r, q') /\ P r items' /\
    refines q' (<[i := Producer (p_thread x) items']> a) /\ (sound q -> sound q' /\ Q r) /\
    length (cq_producers q') = length (cq_producers q).
Proof.
  intros [[pss Hpk] (tids & reg & Hth)] Hx Hf; pose proof (lookup_lt_Some _ _ _ Hx) as Hlt.
  destruct (lookup_lt_is_Some_2 (cq_producers q) i) as [p Hp]; [by rewrite (pk_length _ _ _ _ Hpk)|].
  destruct (producers_take _ _ _ _ _ _ Hpk Hp) as (x' & ps & Hx' & Hps & Hh); simplify_eq.
  destruct (Hf _ _ _ _ Hh) as (r & po' & p' & ps' & items' & Hrun & (Hk & Hhe & Hal) & Hh' & HP & HQ).
  unfold at_producer; rewrite Hp; cbn [deref]; rewrite bind_Done, Hrun, bind_Done.
  eexists r, items', _; split; [reflexivity|]; split; [done|]; split; [split|split].
  - eexists; by eapply producers_put.
  - exists tids, reg; by apply threads_insert.
  - intros [Hs1 Hs2]; rewrite Forall_lookup in Hs2; specialize (Hs2 _ _ Hp) as Hap; split; [split|]; cbn; auto.
    apply Forall_insert; auto; by apply Forall_lookup.
  - cbn; apply length_insert.
Qed.

Lemma elem_items a i x : a !! i = Some x -> (length (p_items x) <= length (q_items a))%nat.
Proof.
  intros Hi; rewrite <- (take_drop_middle a i x Hi), q_items_app, q_items_cons, !length_app; lia.
Qed.

(** The caller's whole queue is not nearly [2 ^ 63] elements long. *)
Definition spacious a (n : Z) : Prop := Z.of_nat (length (q_items a)) + n + 64 < 2 ^ 63.

Lemma with_producer_same_items t a : length (q_items (with_producer t (fun l => l) a)) = length (q_items a).
Proof.
  destruct (with_producer_cases t (fun l => l) a) as [[_ ->]|(a1 & l & a2 & -> & ->)]; [done|done].
Qed.

(** What an enqueue of [xs] by thread [id] may do to the abstract queue. *)
Definition enqueued (id : Z) (xs : list A) a (ok : bool) q' : Prop :=
  if ok then refines q' (CQueue.enqueue_bulk (Z.to_nat id) xs a)
  else refines q' a \/ refines q' (with_producer (Z.to_nat id) (fun l => l) a).

Lemma enqueue_via (f : pool A -> ImplicitProducer -> run (bool * pool A * ImplicitProducer)) canAlloc id xs q a :
  (forall po p items ps others, holds po p items ps others ->
     exists ok po' p' ps', f po p = Done (ok, po', p') /\
       framed others po p po' p' /\ holds po' p' (if (ok : bool) then items ++ xs else items) ps' others /\
       (alive p -> healthy po -> canAlloc = true -> room items (Z.of_nat (length xs)) -> ok = true)) ->
  refines q a -> 0 < id -> Z.of_nat (length a) < 2 ^ 59 ->
  exists ok q', (r ← get_or_add_implicit_producer junk id q;
                 match r with
                 | (None, q) => mret (false, q)
                 | (Some k, q) => at_producer (position_of q k) f q
                 end) = Done (ok, q') /\
    enqueued id xs a ok q' /\
    (sound q -> sound q' /\ (canAlloc = true -> spacious a (Z.of_nat (length xs)) -> ok = true)).
Proof.
  intros Hf Hrf Hid Hlen; destruct (get_or_add_ok id q a Hrf Hid Hlen) as (r & q1 & -> & Hsd & Hout).
  rewrite bind_Done; destruct r as [k|].
  2:{ exists false, q1; split; [done|]; split; [by left|]; intros Hs; by destruct (Hsd Hs). }
  destruct Hout as [Hrf1 (x & Hx & Ht)]; set (a1 := with_producer (Z.to_nat id) (fun l => l) a) in *.
  destruct (at_producer_ok f (fun ok items' => items' = if ok then p_items x ++ xs else p_items x)
    (fun ok => canAlloc = true -> spacious a (Z.of_nat (length xs)) -> ok = true) q1 a1 (position_of q1 k) x Hrf1 Hx)
    as (ok & items' & q2 & -> & -> & Hrf2 & Hsd2 & _).
  { intros po p ps others Hh; destruct (Hf po p (p_items x) ps others Hh) as (ok & po' & p' & ps' & Hrun & Hfr & Hh' & Hok).
    exists ok, po', p', ps', (if ok then p_items x ++ xs else p_items x); split_all; try done.
    intros Ha Hhe Hca Hsp; apply Hok; try done; pose proof (elem_items a1 _ x Hx) as Hle.
    unfold a1 in Hle; rewrite with_producer_same_items in Hle; unfold room, spacious in *; lia. }
  exists ok, q2; split; [done|]; split; [|intros Hs; destruct (Hsd Hs) as [Hs1 _]; by apply Hsd2].
  destruct Hrf1 as [_ (tids & reg & Hth)]; pose proof (tids_names_nodup _ _ _ _ _ Hth) as Hnd; destruct ok; cbn.
  - unfold CQueue.enqueue_bulk; rewrite (with_producer_at _ _ _ _ _ Hnd Hx Ht); rewrite Ht in Hrf2; exact Hrf2.
  - right; fold a1; rewrite list_insert_id in Hrf2; [done|]; by destruct x.
Qed.

(** *** Dequeuing *)

Lemma refines_size q a i p x :
  refines q a -> cq_producers q !! i = Some p -> a !! i = Some x ->
  ip_size_approx p = zlen (p_items x) /\ zlen (p_items x) < 2 ^ 63.
Proof.
  intros [[pss Hpk] _] Hp Hx; destruct (producers_take _ _ _ _ _ _ Hpk Hp) as (x' & ps & Hx' & _ & Hh).
  simplify_eq; exact (size_holds _ _ _ _ _ Hh).
Qed.

(** The scoring loop sees the same sizes. *)
Lemma score_ok prs a : forall pos n bs best,
  length prs = length a ->
  (forall i p x, prs !! i = Some p -> a !! i = Some x -> ip_size_approx p = zlen (p_items x)) ->
  (n = O <-> best = None) -> (best = None -> bs = 0) ->
  exists n', score prs pos n bs best = (n', best_producer a pos n bs best) /\
    ((0 < n')%nat <-> best_producer a pos n bs best <> None).
Proof.
  revert a; induction prs as [|p prs IH]; intros [|x a] pos n bs best Hl Hs Hn Hb; try done; cbn [score best_producer].
  { exists n; split; [done|]; destruct best; [destruct n; naive_solver lia|naive_solver lia]. }
  rewrite (Hs 0%nat p x eq_refl eq_refl); cbv zeta.
  assert (forall n' bs' best', (n' = O <-> best' = None) -> (best' = None -> bs' = 0) ->
    exists n2, score prs (S pos) n' bs' best' = (n2, best_producer a (S pos) n' bs' best') /\
      ((0 < n2)%nat <-> best_producer a (S pos) n' bs' best' <> None)) as Hgo.
  { intros; apply IH; try done; [by injection Hl|]; intros i p' x' Hp Hx; exact (Hs (S i) p' x' Hp Hx). }
  case_decide; [|exists n; split; [done|]; destruct best; [destruct n; naive_solver lia|naive_solver lia]].
  destruct (Z.ltb_spec 0 (zlen (p_items x))); [|by apply Hgo].
  destruct (Z.ltb_spec bs (zlen (p_items x))); apply Hgo; try done.
  destruct best; [done|]; rewrite Hb in * by done; lia.
Qed.

(** The queue after an abstract dequeue. *)
Definition after a (r : option (A * cqueue A)) : cqueue A :=
  match r with Some (_, a') => a' | None => a end.

Lemma dequeue_step i q a :
  refines q a -> (i < length a)%nat ->
  exists q', at_producer i ip_dequeue q = Done (fst <$> dequeue_at i a, q') /\
    refines q' (after a (dequeue_at i a)) /\ (sound q -> sound q').
Proof.
  intros Hrf Hi; apply lookup_lt_is_Some_2 in Hi as [x Hx].
  destruct (at_producer_ok ip_dequeue (fun r items' => r = head (p_items x) /\ items' = tail (p_items x))
    (fun _ => True) q a i x Hrf Hx) as (r & items' & q' & -> & [-> ->] & Hrf' & Hsd & _).
  { intros po p ps others Hh; destruct (dequeue_holds po p (p_items x) ps others Hh) as (po' & p' & ps' & Hrun & Hfr & Hh').
    exists (head (p_items x)), po', p', ps', (tail (p_items x)); split_all; try done. }
  exists q'; split; [|split; [|intros Hs; by destruct (Hsd Hs)]].
  - unfold dequeue_at; rewrite Hx; cbn; by destruct (p_items x).
  - unfold dequeue_at; rewrite Hx; cbn; destruct (p_items x) as [|y l] eqn:E; cbn in *; [|done].
    rewrite list_insert_id in Hrf'; [done|]; rewrite Hx; f_equal; destruct x; cbn in *; by subst.
Qed.

Lemma dequeue_at_length i a : length (after a (dequeue_at i a)) = length a.
Proof.
  unfold dequeue_at; destruct (a !! i) as [x|]; [|done]; cbn; destruct (p_items x); cbn; [done|apply length_insert].
Qed.

Lemma dequeue_rest_ok n : forall best b pos q a,
  refines q a -> (pos + n <= length a)%nat -> (forall i, (i < length a)%nat -> Some i = best <-> i = b) ->
  exists q', dequeue_rest n best pos q = Done (fst <$> dequeue_others b n pos a, q') /\
    refines q' (after a (dequeue_others b n pos a)) /\ (sound q -> sound q').
Proof.
  induction n as [|n IH]; intros best b pos q a Hrf Hn Hb; cbn [dequeue_rest dequeue_others]; [by exists q|].
  destruct (decide (pos = b)) as [E|E].
  - rewrite decide_True by (apply Hb; [lia|done]); apply IH; [done|lia|done].
  - rewrite decide_False by (rewrite Hb by lia; done).
    destruct (dequeue_step pos q a Hrf) as (q1 & -> & Hrf1 & Hsd1); [lia|]; rewrite bind_Done.
    pose proof (dequeue_at_length pos a) as Hl; destruct (dequeue_at pos a) as [[x a1]|]; cbn [fmap option_fmap option_map fst after] in *.
    + by exists q1.
    + destruct (IH best b (S pos) q1 a Hrf1) as (q2 & -> & ? & ?); [lia|done|]; exists q2; split_all; auto.
Qed.

(** [try_dequeue] gives the abstract answer. *)
Lemma try_dequeue_ok q a :
  refines q a ->
  exists q', q_try_dequeue q = Done (fst <$> CQueue.try_dequeue a, q') /\
    refines q' (after a (CQueue.try_dequeue a)) /\ (sound q -> sound q').
Proof.
  intros Hrf; pose proof Hrf as [[pss Hpk] _]; pose proof (pk_length _ _ _ _ Hpk) as Hl.
  destruct (score_ok (cq_producers q) a 0 0 0 None Hl) as (n & Hsc & Hpos); [|done|done|].
  { intros i p x Hp Hx; by eapply refines_size. }
  unfold q_try_dequeue, CQueue.try_dequeue; rewrite Hsc; destruct (best_producer a 0 0 0 None) as [i|] eqn:Eb.
  2:{ rewrite decide_False by (rewrite Hpos; auto); by exists q. }
  rewrite decide_True by (by apply Hpos); cbn [deref]; rewrite bind_Done.
  apply best_producer_Some in Eb as [?|(j & x & -> & Hj & _)]; [done|]; cbn [Nat.add].
  pose proof (lookup_lt_Some _ _ _ Hj); destruct (dequeue_step j q a Hrf) as (q1 & -> & Hrf1 & Hsd1); [done|].
  rewrite bind_Done; destruct (dequeue_at j a) as [[y a1]|]; cbn [fmap option_fmap option_map fst after] in *; [by exists q1|].
  pose proof Hrf1 as [[pss1 Hpk1] _]; rewrite (pk_length _ _ _ _ Hpk1).
  destruct (dequeue_rest_ok (length a) (Some j) j 0 q1 a Hrf1) as (q2 & -> & ? & ?); [lia|naive_solver|].
  exists q2; split_all; auto.
Qed.

Lemma try_dequeue_non_interleaved_ok q a :
  refines q a ->
  exists q', q_try_dequeue_non_interleaved q = Done (fst <$> dequeue_others (length a) (length a) 0 a, q') /\
    refines q' (after a (dequeue_others (length a) (length a) 0 a)) /\ (sound q -> sound q').
Proof.
  intros Hrf; pose proof Hrf as [[pss Hpk] _]; unfold q_try_dequeue_non_interleaved; rewrite (pk_length _ _ _ _ Hpk).
  apply dequeue_rest_ok; [done|lia|]; intros i Hi; split; [done|lia].
Qed.

(** [try_dequeue_bulk]: the producers from position [length pre] on. *)
Lemma dequeue_bulk_rest_ok suf : forall pre q max,
  refines q (pre ++ suf) -> 0 <= max < 2 ^ 64 ->
  let '(xs, suf') := CQueue.try_dequeue_bulk (Z.to_nat max) suf in
  exists q', dequeue_bulk_rest (length suf) (length pre) max q = Done (xs, q') /\ refines q' (pre ++ suf') /\
    (sound q -> sound q').
Proof.
  induction suf as [|x suf IH]; intros pre q max Hrf Hmax; cbn [CQueue.try_dequeue_bulk dequeue_bulk_rest length].
  { by exists q. }
  destruct (at_producer_ok (ip_dequeue_bulk max)
    (fun r items' => r = take (Z.to_nat max) (p_items x) /\ items' = drop (Z.to_nat max) (p_items x))
    (fun _ => True) q (pre ++ x :: suf) (length pre) x Hrf) as (r & items' & q1 & -> & [-> ->] & Hrf1 & Hsd1 & _).
  { by apply list_lookup_middle. }
  { intros po p ps others Hh; destruct (dequeue_bulk_holds max po p (p_items x) ps others Hh Hmax) as (po' & p' & ps' & ?).
    exists (take (Z.to_nat max) (p_items x)), po', p', ps', (drop (Z.to_nat max) (p_items x)); split_all; try done. }
  rewrite bind_Done; rewrite insert_app_r_alt, Nat.sub_diag in Hrf1 by lia; cbn [insert list_insert] in Hrf1; cbv zeta.
  set (got := take (Z.to_nat max) (p_items x)) in *.
  assert (length got <= Z.to_nat max)%nat as Hgot by (unfold got; rewrite length_take; lia).
  destruct (Z.eqb_spec (Z.of_nat (length got)) max) as [E|E].
  { rewrite decide_True by lia; exists q1; split; [done|]; split; [done|]; intros Hs; by destruct (Hsd1 Hs). }
  rewrite decide_False by lia; rewrite wrap_small by (unfold in_u; lia).
  set (x' := Producer (p_thread x) (drop (Z.to_nat max) (p_items x))) in *.
  specialize (IH (pre ++ [x']) q1 (max - Z.of_nat (length got))); rewrite <- app_assoc in IH; specialize (IH Hrf1 ltac:(lia)).
  replace (Z.to_nat (max - Z.of_nat (length got))) with (Z.to_nat max - length got)%nat in IH by lia.
  destruct (CQueue.try_dequeue_bulk (Z.to_nat max - length got) suf) as [ys suf'].
  destruct IH as (q2 & Hrun & Hrf2 & Hsd2); rewrite length_app, Nat.add_1_r in Hrun; cbn [length] in Hrun.
  rewrite Hrun, bind_Done; exists q2; rewrite <- app_assoc in Hrf2; split; [done|]; split; [done|].
  intros Hs; destruct (Hsd1 Hs); auto.
Qed.

Lemma size_approx_ok q a : refines q a -> q_size_approx q = u64 (CQueue.size_approx a).
Proof.
  intros Hrf; assert (forall prs (b : cqueue A) acc, length prs = length b ->
    (forall i p x, prs !! i = Some p -> b !! i = Some x -> ip_size_approx p = zlen (p_items x)) ->
    fold_left (fun size p => u64 (size + ip_size_approx p)) prs (u64 acc) = u64 (acc + CQueue.size_approx b)) as Hgo.
  { induction prs as [|p prs IH]; intros [|x b] acc Hl Hs; try done; cbn [fold_left CQueue.size_approx fold_right].
    - by rewrite Z.add_0_r.
    - rewrite (Hs 0%nat p x eq_refl eq_refl), wrap_add_l, (IH b); [unfold CQueue.size_approx; f_equal; lia|by injection Hl|].
      intros i p' x' Hp Hx; exact (Hs (S i) p' x' Hp Hx). }
  pose proof Hrf as [[pss Hpk] _]; apply (Hgo (cq_producers q) a 0); [apply Hpk|].
  intros i p x Hp Hx; by eapply refines_size.
Qed.
End refinement.
