(* ===== verification/QueueLife.v ===== *)
(** * The life of a concurrent queue

    From construction to destruction: a new queue implements the empty one, any
    sequence of operations by any threads gives the answers of the abstract queue
    of [CQueue.v], and the destructor frees every block exactly once. *)

From S2P Require Import Prelude CQueue BlockPool ImplicitProducer BlockIndex ProducerFifo ProducerDestroy Producers QueueDestroy ProducerHash ConcurrentQueue QueueRefinement.

Section life.
Context {A : Type} (junk : Z).
Implicit Types (po : pool A) (a : cqueue A).

(** ** Construction *)

Lemma initial_queue_ok n brk ms :
  0 <= n < 2 ^ 64 -> 0 < brk ->
  refines (Queue (populate_initial_block_list n brk ms : pool A) [] 0 populate_initial_implicit_producer_hash 0) [].
Proof.
  intros Hn Hb; split.
  - exists []; split; try done; exists []; by apply populate_ok.
  - exists [], ∅; split; try done; [apply NoDup_nil_2|apply initial_tables_ok].
Qed.

Lemma new_queue_ok capacity brk ms :
  0 <= capacity < 2 ^ 63 -> 0 < brk -> refines (new_queue (A := A) capacity brk ms) [].
Proof.
  intros Hc Hb; apply initial_queue_ok; [|done]; unfold initial_blocks; change BLOCK_SIZE with 32.
  pose proof (Z.div_mod capacity 32); pose proof (Z.mod_pos_bound capacity 32).
  destruct (Z.land capacity (32 - 1) =? 0); lia.
Qed.

(** The constructor with three arguments gives an empty queue too, whatever they are. *)
Lemma new_queue_for_ok minCapacity maxExplicit maxImplicit brk ms :
  0 < brk -> refines (new_queue_for (A := A) minCapacity maxExplicit maxImplicit brk ms) [].
Proof. intros Hb; apply initial_queue_ok; [apply wrap_range; lia|done]. Qed.

(** It takes a block for what an explicit producer begins, and as many more for each
    as the capacity needs. *)
Lemma blocks_for_spec minCapacity maxExplicit maxImplicit :
  0 < minCapacity < 2 ^ 31 -> 0 <= maxExplicit < 2 ^ 30 -> 0 <= maxImplicit < 2 ^ 30 ->
  blocks_for minCapacity maxExplicit maxImplicit =
    ((minCapacity + 31) / 32 - 1) * (maxExplicit + 1) + 2 * (maxExplicit + maxImplicit).
Proof.
  intros Hc He Hi; unfold blocks_for; change BLOCK_SIZE with 32.
  replace (minCapacity + 32 - 1) with (minCapacity + 31) by lia.
  rewrite (wrap_small 64 (minCapacity + 31)), (wrap_small 64 (maxExplicit + 1)), (wrap_small 64 (maxExplicit + maxImplicit)) by (unfold in_u; lia).
  pose proof (Z.div_mod (minCapacity + 31) 32); pose proof (Z.mod_pos_bound (minCapacity + 31) 32).
  rewrite (wrap_small 64 ((minCapacity + 31) / 32 - 1)) by (unfold in_u; lia); apply wrap_small; unfold in_u; nia.
Qed.
(** With a capacity of 0 it subtracts a block that was never counted. *)
Example blocks_for_nothing : blocks_for 0 0 0 = 2 ^ 64 - 1.
Proof. reflexivity. Qed.

Lemma new_queue_sound capacity brk : sound (new_queue (A := A) capacity brk []).
Proof.
  split; [|by apply Forall_nil]; unfold healthy; cbn; unfold populate_initial_block_list; by destruct (_ =? 0).
Qed.

(** ** Any sequence of operations *)

Inductive op := Enqueue (id : Z) (x : A) | EnqueueBulk (id : Z) (xs : list A) | Dequeue | DequeueBulk (max : Z).
Inductive answer := Accepted (ok : bool) | Got (x : option A) | GotMany (xs : list A).

Definition do_op (o : op) (q : queue A) : run (answer * queue A) :=
  match o with
  | Enqueue id x => '(ok, q) ← q_enqueue junk id x q; mret (Accepted ok, q)
  | EnqueueBulk id xs => '(ok, q) ← q_enqueue_bulk junk id xs q; mret (Accepted ok, q)
  | Dequeue => '(x, q) ← q_try_dequeue q; mret (Got x, q)
  | DequeueBulk max => '(xs, q) ← q_try_dequeue_bulk max q; mret (GotMany xs, q)
  end.
Fixpoint do_ops (os : list op) (q : queue A) : run (list answer * queue A) :=
  match os with
  | [] => mret ([], q)
  | o :: os => '(r, q) ← do_op o q; '(rs, q) ← do_ops os q; mret (r :: rs, q)
  end.

(** The same on the abstract queue. *)
Definition spec_op (o : op) (a : cqueue A) : answer * cqueue A :=
  match o with
  | Enqueue id x => (Accepted true, CQueue.enqueue (Z.to_nat id) x a)
  | EnqueueBulk id xs => (Accepted true, CQueue.enqueue_bulk (Z.to_nat id) xs a)
  | Dequeue => (Got (fst <$> CQueue.try_dequeue a), after a (CQueue.try_dequeue a))
  | DequeueBulk max => let '(xs, a) := CQueue.try_dequeue_bulk (Z.to_nat max) a in (GotMany xs, a)
  end.
Fixpoint spec_ops (os : list op) (a : cqueue A) : list answer * cqueue A :=
  match os with
  | [] => ([], a)
  | o :: os => let '(r, a) := spec_op o a in let '(rs, a) := spec_ops os a in (r :: rs, a)
  end.

(** How much an operation can add. *)
Definition cost (o : op) : nat :=
  match o with Enqueue _ _ => 2 | EnqueueBulk _ xs => S (length xs) | _ => 0 end.
Definition costs (os : list op) : nat := sum_list_with cost os.
Definition op_ok (o : op) : Prop :=
  match o with
  | Enqueue id _ | EnqueueBulk id _ => 0 < id
  | Dequeue => True
  | DequeueBulk max => 0 <= max < 2 ^ 64
  end.

(** The number of producers and of elements. *)
Definition weight (a : cqueue A) : nat := length a + length (q_items a).

Lemma enqueue_weight t xs a : (weight (CQueue.enqueue_bulk t xs a) <= weight a + S (length xs))%nat.
Proof.
  unfold weight; rewrite (Permutation_length (enqueue_bulk_items t xs a)), length_app.
  unfold CQueue.enqueue_bulk; destruct (with_producer_cases t (fun l => l ++ xs) a) as [[_ ->]|(a1 & l & a2 & -> & ->)].
  - cbn; lia.
  - rewrite !length_app; cbn; lia.
Qed.

Lemma dequeue_weight a : (weight (after a (CQueue.try_dequeue a)) <= weight a)%nat.
Proof.
  pose proof (try_dequeue_cases a) as Hc; unfold weight; destruct (CQueue.try_dequeue a) as [[x a']|]; cbn [after]; [|done].
  destruct Hc as (a1 & t & l & a2 & -> & ->); rewrite !q_items_app, !q_items_cons; cbn [p_items].
  rewrite !length_app; cbn [length]; lia.
Qed.

Lemma dequeue_bulk_weight a : forall max,
  (weight (CQueue.try_dequeue_bulk max a).2 <= weight a)%nat.
Proof.
  unfold weight; induction a as [|x a IH]; intros max; cbn [CQueue.try_dequeue_bulk]; [done|].
  cbv zeta; case_decide; cbn [snd].
  - cbn [length]; rewrite !q_items_cons; cbn [p_items]; rewrite !length_app, length_drop; lia.
  - specialize (IH (max - length (take max (p_items x)))%nat); destruct (CQueue.try_dequeue_bulk _ a) as [ys a']; cbn [snd] in *.
    cbn [length]; rewrite !q_items_cons; cbn [p_items]; rewrite !length_app, length_drop; lia.
Qed.

(** Where allocation succeeds, an operation gives the abstract answer. *)
Lemma do_op_ok o q a :
  refines q a -> sound q -> op_ok o -> Z.of_nat (weight a + cost o) < 2 ^ 59 ->
  exists q', do_op o q = Done ((spec_op o a).1, q') /\ refines q' (spec_op o a).2 /\ sound q' /\
    (weight (spec_op o a).2 <= weight a + cost o)%nat.
Proof.
  intros Hrf Hsd Hok Hw; assert (forall n : nat, (n <= cost o)%nat -> spacious a (Z.of_nat n)) as Hsp.
  { unfold spacious, weight in *; lia. }
  assert (Z.of_nat (length a) < 2 ^ 59) as Hla by (unfold weight in *; lia).
  destruct o as [id x|id xs| |max]; cbn [do_op spec_op op_ok cost fst snd] in *.
  - unfold q_enqueue, inner_enqueue.
    destruct (enqueue_via junk (ip_enqueue junk true x) true id [x] q a) as (ok & q' & Hrun & Hen & Hs);
      [intros; by eapply enqueue_holds|done..|].
    destruct (Hs Hsd) as [Hsd' Ht]; rewrite (Ht eq_refl (Hsp 1%nat ltac:(lia))) in *.
    rewrite Hrun, bind_Done; exists q'; split_all; try done; pose proof (enqueue_weight (Z.to_nat id) [x] a) as He; cbn [length] in He.
    change (CQueue.enqueue (Z.to_nat id) x a) with (CQueue.enqueue_bulk (Z.to_nat id) [x] a); lia.
  - unfold q_enqueue_bulk, inner_enqueue_bulk.
    destruct (enqueue_via junk (ip_enqueue_bulk junk true xs) true id xs q a) as (ok & q' & Hrun & Hen & Hs);
      [intros; eapply enqueue_bulk_holds; [done|lia]|done..|].
    destruct (Hs Hsd) as [Hsd' Ht]; rewrite (Ht eq_refl (Hsp (length xs) ltac:(lia))) in *.
    rewrite Hrun, bind_Done; exists q'; split_all; try done; pose proof (enqueue_weight (Z.to_nat id) xs a); lia.
  - destruct (try_dequeue_ok q a Hrf) as (q' & -> & Hrf' & Hs); rewrite bind_Done; exists q'; split_all; auto.
    pose proof (dequeue_weight a); lia.
  - pose proof (dequeue_bulk_rest_ok a [] q max Hrf Hok) as Hd; pose proof (dequeue_bulk_weight a (Z.to_nat max)).
    destruct (CQueue.try_dequeue_bulk (Z.to_nat max) a) as [xs a']; destruct Hd as (q' & Hrun & Hrf' & Hs).
    unfold q_try_dequeue_bulk; pose proof Hrf as [[pss Hpk] _]; rewrite (pk_length _ _ _ _ Hpk); cbn [length] in Hrun.
    rewrite Hrun, bind_Done; exists q'; cbn [fst snd] in *; split_all; auto; lia.
Qed.

Lemma do_ops_ok os : forall q a,
  refines q a -> sound q -> Forall op_ok os -> Z.of_nat (weight a + costs os) < 2 ^ 59 ->
  exists q', do_ops os q = Done ((spec_ops os a).1, q') /\ refines q' (spec_ops os a).2 /\ sound q'.
Proof.
  induction os as [|o os IH]; intros q a Hrf Hsd Hok Hw; cbn [do_ops spec_ops]; [by exists q|].
  apply Forall_cons in Hok as [Ho Hos]; unfold costs in Hw; cbn [sum_list_with] in Hw; fold (costs os) in Hw.
  destruct (do_op_ok o q a Hrf Hsd Ho) as (q1 & -> & Hrf1 & Hsd1 & Hw1); [lia|]; rewrite bind_Done.
  destruct (spec_op o a) as [r a1]; cbn [fst snd] in *.
  destruct (IH q1 a1 Hrf1 Hsd1 Hos) as (q2 & -> & Hrf2 & Hsd2); [lia|]; rewrite bind_Done.
  destruct (spec_ops os a1) as [rs a2]; by exists q2.
Qed.

(** ** Destruction *)

Lemma destroy_producers_each prs : forall po,
  destroy_each prs po = '(xs, po) ← destroy_producers prs po; mret (xs, [], po).
Proof.
  induction prs as [|p prs IH]; intros po; cbn [destroy_each destroy_producers pd_destroy implicit_destroy_ops]; [done|].
  destruct (destroy_producer po p) as [[xs po1]| | |]; rewrite ?bind_Done; [|done..]; rewrite IH.
  by destruct (destroy_producers prs po1) as [[ys po2]| | |].
Qed.

(** Every block is freed once: on its own, or with the array. *)
Lemma destroy_queue_ok (q : queue A) a :
  refines q a ->
  exists xs freed, destroy_queue q = Done (xs, freed, (po_initialBlockPool (cq_pool q), po_initialBlockPoolSize (cq_pool q))) /\
    frees_all (cq_pool q) freed.
Proof.
  intros [[pss Hpk] _]; unfold destroy_queue; destruct (fun Hfit => destroy_each_ok _ _ _ _ _ Hpk Hfit) as (freed & po' & free & E & Hp & Hr); [exact I|].
  rewrite destroy_producers_each in E; destruct (destroy_producers (cq_producers q) (cq_pool q)) as [[xs po1]| | |]; try done.
  rewrite bind_Done in E; injection E as _ <- ->; rewrite bind_Done.
  destruct (retires_sweep _ _ _ _ Hr Hp) as (rest & -> & Hf & -> & ->); rewrite bind_Done; by exists xs, rest.
Qed.
End life.

(** ** What the container guarantees *)

Arguments Enqueue {A} _ _.
Arguments EnqueueBulk {A} _ _.
Arguments Dequeue {A}.
Arguments DequeueBulk {A} _.
Arguments Accepted {A} _.
Arguments Got {A} _.
Arguments GotMany {A} _.

(** C6: From a new queue, whatever its capacity, any sequence of enqueues, bulk
    enqueues, dequeues and bulk dequeues by any threads returns (no loop runs
    away, no assertion fails, no uninitialised slot is read) and gives exactly the
    answers of the abstract queue of per-thread lists, provided memory does not run
    out: the lock-free structure of blocks, indices, free lists and hash tables is
    observably equivalent to its specification. *)
Theorem queue_equals_spec {A} (junk capacity brk : Z) (os : list (op (A := A))) :
  0 <= capacity < 2 ^ 63 -> 0 < brk -> Forall op_ok os -> Z.of_nat (costs os) < 2 ^ 59 ->
  exists q', do_ops junk os (new_queue capacity brk []) = Done ((spec_ops os []).1, q') /\
    refines q' (spec_ops os []).2.
Proof.
  intros Hc Hb Hos Hw; destruct (do_ops_ok junk os (new_queue capacity brk []) []) as (q' & ? & ? & _); eauto.
  - by apply new_queue_ok.
  - apply new_queue_sound.
Qed.

Definition two_threads : list (op (A := nat)) :=
  [Enqueue 4096 7%nat; EnqueueBulk 8192 (seq 0 70); Dequeue; Enqueue 4096 8%nat; DequeueBulk 100; Dequeue].

Lemma two_threads_ok : Forall op_ok two_threads.
Proof. by repeat constructor. Qed.
Lemma two_threads_cost : Z.of_nat (costs two_threads) < 2 ^ 59.
Proof. done. Qed.

Lemma queue_equals_spec_witness :
  (spec_ops two_threads []).1 =
    [Accepted true; Accepted true; Got (Some 0%nat); Accepted true;
     GotMany (seq 1 69 ++ [7; 8]%nat); Got None] /\
  exists q', do_ops 99 two_threads (new_queue 192 1 []) = Done ((spec_ops two_threads []).1, q') /\
    refines q' (spec_ops two_threads []).2.
Proof.
  split; [reflexivity|].
  apply (queue_equals_spec 99 192 1 two_threads ltac:(lia) ltac:(lia) two_threads_ok two_threads_cost).
Defined.

(** Run on the same operations, the code model gives those answers. *)
Example two_threads_run :
  (r ← do_ops 99 two_threads (new_queue 192 1 []); mret r.1) = Done (spec_ops two_threads []).1.
Proof. vm_compute; reflexivity. Qed.

(** The sequences of the abstract queue are the same. *)
Definition same_contents {A} (a a' : cqueue A) : Prop :=
  q_items a' = q_items a /\ forall t, q_of t a' = q_of t a.

Lemma with_producer_contents {A} t (a : cqueue A) : same_contents a (with_producer t (fun l => l) a).
Proof.
  destruct (with_producer_cases t (fun l => l) a) as [[Hn ->]|(a1 & l & a2 & -> & ->)]; [|done].
  split; [done|]; intros t'; destruct (decide (t' = t)) as [->|]; [by rewrite q_of_cons_eq|by rewrite q_of_cons_ne].
Qed.

(** C19: Whatever the allocator answers, and whether or not it may be asked, a bulk
    enqueue is all or nothing: it accepts and appends every element to the calling
    thread's sequence, or it refuses and leaves every thread's sequence as it was,
    with the blocks and index entries it had taken given back. *)
Theorem enqueue_bulk_all_or_nothing {A} (junk : Z) canAlloc id (xs : list A) q a :
  refines q a -> 0 < id -> Z.of_nat (length a) < 2 ^ 59 -> Z.of_nat (length xs) < 2 ^ 63 ->
  exists ok q' a', inner_enqueue_bulk junk canAlloc id xs q = Done (ok, q') /\ refines q' a' /\
    if ok then a' = CQueue.enqueue_bulk (Z.to_nat id) xs a else same_contents a a'.
Proof.
  intros Hrf Hid Hla Hx; unfold inner_enqueue_bulk.
  destruct (enqueue_via junk (ip_enqueue_bulk junk canAlloc xs) canAlloc id xs q a) as (ok & q' & Hrun & Hen & _);
    [intros; by eapply enqueue_bulk_holds|done..|].
  rewrite Hrun; destruct ok; [by eexists true, q', _|].
  destruct Hen as [Hen|Hen]; eexists false, q', _; split_all; try done; apply with_producer_contents.
Qed.

(** Three blocks are needed, the array has one and the second [malloc] of a block
    fails. *)
Definition scarce : queue nat := new_queue 32 1 [true; true; true; true; false].

Lemma enqueue_bulk_all_or_nothing_witness :
  (r ← inner_enqueue_bulk 99 true 4096 (seq 0 70) scarce; mret r.1) = Done false /\
  exists ok q' a', inner_enqueue_bulk 99 true 4096 (seq 0 70) scarce = Done (ok, q') /\ refines q' a' /\
    if ok then a' = CQueue.enqueue_bulk (Z.to_nat 4096) (seq 0 70) [] else same_contents [] a'.
Proof.
  split; [vm_compute; reflexivity|].
  apply (enqueue_bulk_all_or_nothing 99 true 4096 (seq 0 70) scarce []); [|done..].
  apply new_queue_ok; lia.
Defined.

(** The hash tables lead a thread to its own producer: probing ends, a thread
    that has enqueued before gets the producer it had and nothing else changes, a
    new thread gets a new one (the tables growing as needed) or none when memory
    runs out, and no two threads ever share one. *)
Theorem thread_producer {A} (junk : Z) id (q : queue A) a :
  refines q a -> 0 < id -> Z.of_nat (length a) < 2 ^ 59 ->
  exists r q', get_or_add_implicit_producer junk id q = Done (r, q') /\
    match r with
    | None => refines q' a /\ ~ sound q
    | Some k => exists a', refines q' a' /\ owned a' (position_of q' k) id /\
        a' = with_producer (Z.to_nat id) (fun l => l) a /\
        (forall i, owned a i id -> a' = a /\ position_of q' k = i) /\
        (forall i id', owned a' i id' -> 0 < id' -> id' <> id -> position_of q' k <> i)
    end.
Proof.
  intros Hrf Hid Hla; destruct (get_or_add_ok junk id q a Hrf Hid Hla) as (r & q' & -> & Hsd & Hout).
  exists r, q'; split; [done|]; destruct r as [k|]; [|split; [done|]; intros Hs; by destruct (Hsd Hs)].
  destruct Hout as [Hrf' Hown]; eexists; split; [exact Hrf'|]; split; [done|]; split; [done|]; split.
  - intros i (x & Hx & Hxt); pose proof (with_producer_present _ _ _ _ Hx Hxt) as E; split; [done|].
    destruct Hrf' as [_ (tids & reg & Hth)]; pose proof (tids_names_nodup _ _ _ _ _ Hth) as Hnd.
    rewrite E in *; destruct Hown as (y & Hy & Hyt).
    eapply (NoDup_lookup (map p_thread a) _ _ (Z.to_nat id)); [done|..]; rewrite list_lookup_fmap.
    + by rewrite Hy, <- Hyt.
    + by rewrite Hx, <- Hxt.
  - intros i id' (x & Hx & Hxt) Hid' Hne E; destruct Hown as (y & Hy & Hyt); rewrite E, Hx in Hy.
    injection Hy as ->; lia.
Qed.

Lemma thread_producer_witness :
  exists r q', get_or_add_implicit_producer 99 4096 scarce = Done (r, q') /\
    match r with
    | None => refines q' [] /\ ~ sound scarce
    | Some k => exists a', refines q' a' /\ owned a' (position_of q' k) 4096 /\
        a' = with_producer (Z.to_nat 4096) (fun l => l) [] /\
        (forall i, owned ([] : cqueue nat) i 4096 -> a' = [] /\ position_of q' k = i) /\
        (forall i id', owned a' i id' -> 0 < id' -> id' <> 4096 -> position_of q' k <> i)
    end.
Proof. apply (thread_producer 99 4096 scarce []); [apply new_queue_ok; lia|done..]. Defined.

(** Destroying a queue in any state, elements still queued included, returns
    and frees the memory of every block exactly once: each block that was
    allocated on its own is freed on its own, once, and the blocks of the initial
    array only with the array. *)
Theorem destroy_frees_once {A} (q : queue A) a :
  refines q a ->
  exists xs freed, destroy_queue q = Done (xs, freed, (po_initialBlockPool (cq_pool q), po_initialBlockPoolSize (cq_pool q))) /\
    NoDup freed /\
    forall p, p ∈ freed <-> p ∈ dom (po_blocks (cq_pool q)) /\ in_array (cq_pool q) p = false.
Proof. apply destroy_queue_ok. Qed.

Lemma destroy_frees_once_witness :
  (* three blocks in use, one of the array *)
  (r ← inner_enqueue_bulk 99 true 4096 (seq 0 70) (new_queue 32 1 []); destroy_queue r.2) = Done (seq 0 70, [3; 2], (1, 1)) /\
  exists xs freed, destroy_queue (new_queue (A := nat) 32 1 []) = Done (xs, freed, (1, 1)) /\
    NoDup freed /\
    forall p, p ∈ freed <-> p ∈ dom (po_blocks (cq_pool (new_queue (A := nat) 32 1 []))) /\
      in_array (cq_pool (new_queue (A := nat) 32 1 [])) p = false.
Proof.
  split; [vm_compute; reflexivity|].
  apply (destroy_frees_once (new_queue (A := nat) 32 1 []) []); apply new_queue_ok; lia.
Defined.

(** A thread whose producer was made while memory for its index could not be
    had can never enqueue again: every later enqueue is refused, even when all
    allocations succeed, because the index is only allocated in the constructor
    or when an existing one grows. *)
Theorem dead_producer_refuses {A} (junk : Z) id (x : A) q a i :
  refines q a -> 0 < id -> owned a i id -> cq_producers q !! i = Some dead_producer ->
  exists q', q_enqueue junk id x q = Done (false, q') /\ refines q' a /\
    cq_producers q' !! i = Some dead_producer.
Proof.
  intros [[pss Hpk] (tids & reg & Hth)] Hid Hown Hdead.
  destruct (owned_registered _ _ _ _ _ _ _ Hth Hown Hid) as [Hi Hreg].
  destruct (get_registered junk id q a pss tids reg _ Hpk Hth Hreg) as (hs & Hrun & Hth' & _).
  unfold q_enqueue, inner_enqueue; rewrite Hrun, bind_Done; unfold at_producer.
  assert (position_of (set_hashes hs q) (length a - S i) = i) as ->.
  { unfold position_of; cbn; rewrite (pk_length _ _ _ _ Hpk); lia. }
  cbn [cq_producers set_hashes]; rewrite Hdead; cbn [deref]; rewrite bind_Done; cbn [cq_pool set_hashes].
  rewrite dead_enqueue, bind_Done; eexists; split; [reflexivity|].
  cbn [cq_producers set_producers set_pool]; rewrite list_insert_id by done; split; [|done].
  split; [by exists pss|by exists tids, reg].
Qed.

(** The first allocation after construction, of the producer, succeeds; the
    second, of its index, fails; all later ones succeed. *)
Definition unlucky : run (queue nat) := r ← q_enqueue 99 4096 7%nat (new_queue 192 1 [true; true; false]); mret r.2.
Definition unlucky_queue : queue nat := match unlucky with Done q => q | _ => new_queue 192 1 [] end.

Lemma unlucky_refines :
  refines unlucky_queue [Producer (Z.to_nat 4096) []] /\ cq_producers unlucky_queue !! 0%nat = Some dead_producer.
Proof.
  destruct (enqueue_via 99 (ip_enqueue 99 true 7%nat) true 4096 [7%nat] (new_queue 192 1 [true; true; false]) [])
    as (ok & q' & Hrun & Hen & _); [intros; by eapply enqueue_holds|apply new_queue_ok; lia|done|done|].
  fold (inner_enqueue 99 true 4096 7%nat (new_queue 192 1 [true; true; false])) in Hrun.
  assert ((r ← inner_enqueue 99 true 4096 7%nat (new_queue 192 1 [true; true; false]);
           mret (r.1, cq_producers r.2)) = Done (false, [dead_producer])) as E by (vm_compute; reflexivity).
  rewrite Hrun, bind_Done in E; injection E as -> Ep.
  assert (unlucky_queue = q') as -> by (unfold unlucky_queue, unlucky, q_enqueue; by rewrite Hrun).
  cbn [snd] in Ep; rewrite Ep; split; [|done].
  destruct Hen as [[[pss Hpk] _]|Hen]; [|exact Hen]; pose proof (pk_length _ _ _ _ Hpk) as Hl; cbn [snd] in *; by rewrite Ep in Hl.
Qed.

Lemma dead_producer_refuses_witness :
  healthy (cq_pool unlucky_queue) /\
  exists q', q_enqueue 99 4096 8%nat unlucky_queue = Done (false, q') /\ refines q' [Producer (Z.to_nat 4096) []] /\
    cq_producers q' !! 0%nat = Some dead_producer.
Proof.
  split; [reflexivity|].
  apply (dead_producer_refuses 99 4096 8%nat unlucky_queue [Producer (Z.to_nat 4096) []] 0); [apply unlucky_refines|done| |apply unlucky_refines].
  by exists (Producer (Z.to_nat 4096) []).
Defined.

(** ** Counters that wrap around *)

(** C18: For every value of the 64-bit counters, before and after they wrap around:
    a producer's enqueue appends to its sequence or refuses for a stated reason
    (fewer than a block's worth of indices left in half the circle, allocation
    forbidden or failing) without changing it, and a dequeue takes the oldest
    element; neither touches the blocks of other producers. *)
Theorem producer_fifo {A} (junk : Z) canAlloc x (po : pool A) p H T items ps others :
  fifo po p H T items ps others ->
  (exists ok po' p', ip_enqueue junk canAlloc x po p = Done (ok, po', p') /\ keeps others po po' /\
     if ok then exists ps', fifo po' p' H (T + 1) (items ++ [x]) ps' others
     else fifo po' p' H T items ps others /\ may_fail canAlloc (2 ^ 63 - 1 - (T - H)) po) /\
  match items with
  | [] => ip_dequeue po p = Done (None, po, p)
  | y :: items' => exists po' p' ps', ip_dequeue po p = Done (Some y, po', p') /\
      fifo po' p' (H + 1) T items' ps' others /\ keeps others po po'
  end.
Proof.
  intros Hf; split.
  - destruct (ip_enqueue_ok junk canAlloc x po p H T items ps others Hf) as (ok & po' & p' & ? & ? & _ & ?); eauto 10.
  - pose proof (ip_dequeue_ok po p H T items ps others Hf) as Hd; destruct items; [done|].
    destruct Hd as (po' & p' & ps' & ? & ? & ? & _); eauto 10.
Qed.

(** An empty producer whose counters are about to wrap. *)
Definition about_to_wrap : ImplicitProducer :=
  set_tailIndex (2 ^ 64 - 32) (set_counts (2 ^ 64 - 32) (2 ^ 64 - 32) 0 (first_producer 99)).

Lemma about_to_wrap_ok :
  fifo (populate_initial_block_list (A := nat) 2 1 []) about_to_wrap (2 ^ 64 - 32) (2 ^ 64 - 32) [] [] [].
Proof.
  split; try done.
  - exists first_index, 5; pose proof (first_index_ok 99) as [Hr Hc Hm Hl Hf].
    assert (ring_ok about_to_wrap first_index 5) as Hr' by (by destruct Hr).
    split; try done; intros k Hk; destruct (entry_exists _ _ _ Hr' ((2 ^ 64 - 32 + 31) / 32) k) as (id & e & He).
    exists id, e; split; [done|]; apply entry_for_lookup in He; cbn [ip_entries about_to_wrap first_producer set_index set_tailIndex set_counts] in He.
    by apply lookup_replicate in He as [-> _]; left.
  - exists []; apply populate_ok; lia.
Qed.

Lemma producer_fifo_witness :
  (exists ok po' p', ip_enqueue 99 true 5%nat (populate_initial_block_list (A := nat) 2 1 []) about_to_wrap =
       Done (ok, po', p') /\ keeps [] (populate_initial_block_list (A := nat) 2 1 []) po' /\
     if ok then exists ps', fifo po' p' (2 ^ 64 - 32) (2 ^ 64 - 32 + 1) ([] ++ [5%nat]) ps' []
     else fifo po' p' (2 ^ 64 - 32) (2 ^ 64 - 32) [] [] [] /\
          may_fail true (2 ^ 63 - 1 - (2 ^ 64 - 32 - (2 ^ 64 - 32))) (populate_initial_block_list (A := nat) 2 1 [])) /\
  ip_dequeue (populate_initial_block_list (A := nat) 2 1 []) about_to_wrap =
    Done (None, populate_initial_block_list (A := nat) 2 1 [], about_to_wrap).
Proof.
  exact (producer_fifo 99 true 5%nat (populate_initial_block_list 2 1 []) about_to_wrap (2 ^ 64 - 32) (2 ^ 64 - 32) [] [] [] about_to_wrap_ok).
Defined.

(** Forty elements through the wrap. *)
Example wraps_around :
  ('(_, po, p) ← ip_enqueue_bulk 99 true (seq 0 40) (populate_initial_block_list (A := nat) 2 1 []) about_to_wrap;
   '(xs, _, p) ← ip_dequeue_bulk 100 po p; mret (xs, ip_tailIndex p)) = Done (seq 0 40, 8).
Proof. vm_compute; reflexivity. Qed.

(** The hash of a thread id is a bijection on 64-bit numbers: it spreads the
    bits without making two ids equal. *)
Theorem hash_thread_id_injective id : in_u 64 id -> unhash (hash_thread_id id) = id.
Proof. apply unhash_hash. Qed.

Lemma hash_thread_id_injective_witness :
  hash_thread_id 139637976727936 <> 139637976727936 /\ unhash (hash_thread_id 139637976727936) = 139637976727936.
Proof. split; [vm_compute; discriminate|apply (hash_thread_id_injective 139637976727936); unfold in_u; lia]. Defined.
