(* ===== verification/Tokens.v ===== *)
(** * Tokens of the concurrent queue ([common/concurrentqueue.h])

    A producer token owns an explicit producer; a consumer token remembers which
    producer a consumer takes from.  Here a queue has producers of both kinds.  The
    list of producers is kept oldest first, so that a producer's number in it is its
    pointer: [producerListTail] is the last one and [next_prod] the one before.
    Operations run one at a time.  The stack itself uses no tokens;
    [TokenQueue.v] has the proofs. *)

From S2P Require Import Prelude BlockPool ImplicitProducer ProducerHash ExplicitProducer.

Definition EXPLICIT_CONSUMER_CONSUMPTION_QUOTA_BEFORE_ROTATE : Z := 256.

(** ** Producers of either kind *)

Inductive any_producer := Implicit (p : ImplicitProducer) | Explicit (p : ExplicitProducer).

Definition isExplicit (p : any_producer) : bool := match p with Explicit _ => true | Implicit _ => false end.

Section dispatch.
Context {A : Type} (junk : Z).
Implicit Types (po : pool A).

Definition any_dequeue po (p : any_producer) : run (option A * pool A * any_producer) :=
  match p with
  | Explicit p => '(r, po, p) ← ep_dequeue po p; mret (r, po, Explicit p)
  | Implicit p => '(r, po, p) ← ip_dequeue po p; mret (r, po, Implicit p)
  end.
Definition any_dequeue_bulk (max : Z) po (p : any_producer) : run (list A * pool A * any_producer) :=
  match p with
  | Explicit p => '(r, po, p) ← ep_dequeue_bulk max po p; mret (r, po, Explicit p)
  | Implicit p => '(r, po, p) ← ip_dequeue_bulk max po p; mret (r, po, Implicit p)
  end.
Definition new_any (explicit : bool) po : run (pool A * any_producer) :=
  if explicit then '(po, p) ← new_explicit_producer po; mret (po, Explicit p)
  else '(po, p) ← new_producer junk po; mret (po, Implicit p).
End dispatch.

(** [pb_token] is the address of the producer's token, 0 for none; [pb_parent] that of
    its queue. *)
Record ProducerBase := { pb_producer : any_producer; pb_inactive : bool; pb_token : Z; pb_parent : Z }.
Definition set_pb_producer (v : any_producer) (b : ProducerBase) : ProducerBase :=
  {| pb_producer := v; pb_inactive := pb_inactive b; pb_token := pb_token b; pb_parent := pb_parent b |}.
Definition set_pb_inactive (v : bool) (b : ProducerBase) : ProducerBase :=
  {| pb_producer := pb_producer b; pb_inactive := v; pb_token := pb_token b; pb_parent := pb_parent b |}.
Definition set_pb_token (v : Z) (b : ProducerBase) : ProducerBase :=
  {| pb_producer := pb_producer b; pb_inactive := pb_inactive b; pb_token := v; pb_parent := pb_parent b |}.
Definition set_pb_parent (v : Z) (b : ProducerBase) : ProducerBase :=
  {| pb_producer := pb_producer b; pb_inactive := pb_inactive b; pb_token := pb_token b; pb_parent := v |}.

(** ** The queue *)

(** [tq_self] is the queue's address.  The hash tables lead threads to implicit
    producers; tokens do not use them. *)
Record tqueue (A : Type) := TQueue {
  tq_self : Z; tq_pool : pool A; tq_producers : list ProducerBase; tq_producerCount : Z;
  tq_hashes : list ImplicitProducerHash; tq_hashCount : Z;
  tq_nextExplicitConsumerId : Z; tq_globalExplicitConsumerOffset : Z }.
Arguments TQueue {A} _ _ _ _ _ _ _ _.
Arguments tq_self {A} _.
Arguments tq_pool {A} _.
Arguments tq_producers {A} _.
Arguments tq_producerCount {A} _.
Arguments tq_hashes {A} _.
Arguments tq_hashCount {A} _.
Arguments tq_nextExplicitConsumerId {A} _.
Arguments tq_globalExplicitConsumerOffset {A} _.

Section queue.
Context {A : Type} (junk : Z).
Implicit Types (q : tqueue A) (k : nat).

Definition set_tq_pool (v : pool A) q : tqueue A :=
  TQueue (tq_self q) v (tq_producers q) (tq_producerCount q) (tq_hashes q) (tq_hashCount q)
    (tq_nextExplicitConsumerId q) (tq_globalExplicitConsumerOffset q).
Definition set_tq_producers (v : list ProducerBase) q : tqueue A :=
  TQueue (tq_self q) (tq_pool q) v (tq_producerCount q) (tq_hashes q) (tq_hashCount q)
    (tq_nextExplicitConsumerId q) (tq_globalExplicitConsumerOffset q).
Definition set_tq_producerCount (v : Z) q : tqueue A :=
  TQueue (tq_self q) (tq_pool q) (tq_producers q) v (tq_hashes q) (tq_hashCount q)
    (tq_nextExplicitConsumerId q) (tq_globalExplicitConsumerOffset q).
Definition set_tq_consumers (next offset : Z) q : tqueue A :=
  TQueue (tq_self q) (tq_pool q) (tq_producers q) (tq_producerCount q) (tq_hashes q) (tq_hashCount q) next offset.

Definition new_tqueue (self capacity brk : Z) (ms : list bool) : tqueue A :=
  TQueue self (populate_initial_block_list (initial_blocks capacity) brk ms) [] 0
    populate_initial_implicit_producer_hash 0 0 0.

Definition producerListTail q : option nat :=
  match length (tq_producers q) with O => None | S n => Some n end.
Definition next_prod (k : nat) : option nat := match k with O => None | S k => Some k end.

(** What [f] does to producer [k]. *)
Definition at_prod {B} k (f : pool A -> any_producer -> run (B * pool A * any_producer)) q : run (B * tqueue A) :=
  b ← deref (tq_producers q !! k);
  '(r, po, p) ← f (tq_pool q) (pb_producer b);
  mret (r, set_tq_producers (<[k := set_pb_producer p b]> (tq_producers q)) (set_tq_pool po q)).
Definition update_prod k (f : ProducerBase -> ProducerBase) q : run (tqueue A) :=
  b ← deref (tq_producers q !! k); mret (set_tq_producers (<[k := f b]> (tq_producers q)) q).

(** The newest inactive producer of this kind among the first [n]. *)
Fixpoint find_inactive (explicit : bool) (n : nat) (ps : list ProducerBase) : option nat :=
  match n with
  | O => None
  | S n =>
      match ps !! n with
      | Some b => if pb_inactive b && Bool.eqb (isExplicit (pb_producer b)) explicit then Some n
                  else find_inactive explicit n ps
      | None => None
      end
  end.

Definition add_to_list (p : any_producer) q : nat * tqueue A :=
  (length (tq_producers q),
   set_tq_producerCount (u32 (tq_producerCount q + 1))
     (set_tq_producers (tq_producers q ++
        [{| pb_producer := p; pb_inactive := false; pb_token := 0; pb_parent := tq_self q |}]) q)).

(** The producer, and whether it has been used before. *)
Definition recycle_or_create (explicit : bool) q : run (option (nat * bool) * tqueue A) :=
  match find_inactive explicit (length (tq_producers q)) (tq_producers q) with
  | Some k => q ← update_prod k (set_pb_inactive false) q; mret (Some (k, true), q)
  | None =>
      let '(ok, po) := malloc_ok (tq_pool q) in
      let q := set_tq_pool po q in
      if negb ok then mret (None, q)
      else
        '(po, p) ← new_any junk explicit (tq_pool q);
        let '(k, q) := add_to_list p (set_tq_pool po q) in mret (Some (k, false), q)
  end.

(** ** Producer tokens *)

(** The tokens by address, each with its producer. *)
Abbreviation token_map := (gmap Z (option nat)).
Implicit Types (ts : token_map) (t : Z).

(** [producer->token = t], unless [producer] is null. *)
Definition point_back (producer : option nat) t q : run (tqueue A) :=
  match producer with None => mret q | Some k => update_prod k (set_pb_token t) q end.

Definition ProducerToken_new t ts q : run (token_map * tqueue A) :=
  '(r, q) ← recycle_or_create true q;
  let producer := fst <$> r in
  q ← point_back producer t q; mret (<[t := producer]> ts, q).
Definition ProducerToken_move t other ts q : run (token_map * tqueue A) :=
  producer ← deref (ts !! other);
  q ← point_back producer t q; mret (<[t := producer]> (<[other := None]> ts), q).
Definition ProducerToken_swap t other ts q : run (token_map * tqueue A) :=
  mine ← deref (ts !! t);
  theirs ← deref (ts !! other);
  q ← point_back theirs t q; q ← point_back mine other q;
  mret (<[other := mine]> (<[t := theirs]> ts), q).
Definition ProducerToken_valid t ts : run bool := producer ← deref (ts !! t); mret (bool_decide (is_Some producer)).
Definition ProducerToken_destroy t ts q : run (token_map * tqueue A) :=
  producer ← deref (ts !! t);
  q ← match producer with
      | None => mret q
      | Some k => q ← update_prod k (set_pb_token 0) q; update_prod k (set_pb_inactive true) q
      end;
  mret (delete t ts, q).

(** The token must be valid. *)
Definition on_token {B} t ts (f : pool A -> ExplicitProducer -> run (B * pool A * ExplicitProducer)) q : run (B * tqueue A) :=
  producer ← deref (ts !! t); k ← deref producer;
  at_prod k (fun po p => match p with
    | Explicit p => '(r, po, p) ← f po p; mret (r, po, Explicit p)
    | Implicit _ => Undefined
    end) q.
Definition inner_enqueue_token (canAlloc : bool) t (x : A) ts q : run (bool * tqueue A) := on_token t ts (ep_enqueue canAlloc x) q.
Definition inner_enqueue_bulk_token (canAlloc : bool) t (xs : list A) ts q : run (bool * tqueue A) :=
  on_token t ts (ep_enqueue_bulk canAlloc xs) q.
Definition try_dequeue_from_producer t ts q : run (option A * tqueue A) := on_token t ts ep_dequeue q.
Definition try_dequeue_bulk_from_producer t (max : Z) ts q : run (list A * tqueue A) := on_token t ts (ep_dequeue_bulk max) q.

(** ** Consumer tokens *)

Record ConsumerToken := {
  ct_initialOffset : Z; ct_lastKnownGlobalOffset : Z; ct_itemsConsumedFromCurrent : Z;
  ct_currentProducer : option nat; ct_desiredProducer : option nat }.
Implicit Types (c : ConsumerToken).

Definition ConsumerToken_new q : ConsumerToken * tqueue A :=
  ({| ct_initialOffset := tq_nextExplicitConsumerId q; ct_lastKnownGlobalOffset := u32 (-1);
      ct_itemsConsumedFromCurrent := 0; ct_currentProducer := None; ct_desiredProducer := None |},
   set_tq_consumers (u32 (tq_nextExplicitConsumerId q + 1)) (tq_globalExplicitConsumerOffset q) q).
(** The source keeps its contents. *)
Definition ConsumerToken_move c : ConsumerToken * ConsumerToken := (c, c).
Definition ConsumerToken_swap c other : ConsumerToken * ConsumerToken := (other, c).

Definition set_ct_consumed (current : option nat) (items : Z) c : ConsumerToken :=
  {| ct_initialOffset := ct_initialOffset c; ct_lastKnownGlobalOffset := ct_lastKnownGlobalOffset c;
     ct_itemsConsumedFromCurrent := items; ct_currentProducer := current; ct_desiredProducer := ct_desiredProducer c |}.

(** The next producer, from the last one to the first again. *)
Definition next_or_tail (tail : option nat) (ptr : nat) : option nat :=
  match next_prod ptr with Some k => Some k | None => tail end.
Fixpoint advance (n : nat) (tail ptr : option nat) : run (option nat) :=
  match n with O => mret ptr | S n => k ← deref ptr; advance n tail (next_or_tail tail k) end.

Definition update_current_producer_after_rotation c q : run (bool * ConsumerToken) :=
  let tail := producerListTail q in
  if bool_decide (ct_desiredProducer c = None) && bool_decide (tail = None) then mret (false, c)
  else
    let prodCount := tq_producerCount q in
    let globalOffset := tq_globalExplicitConsumerOffset q in
    desired ← (if bool_decide (ct_desiredProducer c = None) then
                 if prodCount =? 0 then Undefined
                 else
                   let offset := u32 (prodCount - 1 - ct_initialOffset c mod prodCount) in
                   advance (Z.to_nat offset) tail tail
               else mret (ct_desiredProducer c));
    let delta := u32 (globalOffset - ct_lastKnownGlobalOffset c) in
    delta ← (if prodCount <=? delta then if prodCount =? 0 then Undefined else mret (delta mod prodCount) else mret delta);
    desired ← advance (Z.to_nat delta) tail desired;
    mret (true, {| ct_initialOffset := ct_initialOffset c; ct_lastKnownGlobalOffset := globalOffset;
                   ct_itemsConsumedFromCurrent := 0; ct_currentProducer := desired; ct_desiredProducer := desired |}).

(** Where to take from: [false] is an early return. *)
Definition rotate c q : run (bool * ConsumerToken) :=
  if bool_decide (ct_desiredProducer c = None) ||
     negb (ct_lastKnownGlobalOffset c =? tq_globalExplicitConsumerOffset q)
  then update_current_producer_after_rotation c q else mret (true, c).

Definition bump_offset q : tqueue A :=
  set_tq_consumers (tq_nextExplicitConsumerId q) (u32 (tq_globalExplicitConsumerOffset q + 1)) q.

(** [while (ptr != token.currentProducer)]. *)
Fixpoint dequeue_around (fuel : nat) (tail : option nat) (ptr current : nat) c q : run (option A * ConsumerToken * tqueue A) :=
  if decide (ptr = current) then mret (None, c, q)
  else
    match fuel with
    | O => Blocked
    | S fuel =>
        '(r, q) ← at_prod ptr any_dequeue q;
        match r with
        | Some x => mret (Some x, set_ct_consumed (Some ptr) 1 c, q)
        | None => ptr ← deref (next_or_tail tail ptr); dequeue_around fuel tail ptr current c q
        end
    end.

Definition try_dequeue_token c q : run (option A * ConsumerToken * tqueue A) :=
  '(ok, c) ← rotate c q;
  if negb (ok : bool) then mret (None, c, q)
  else
    current ← deref (ct_currentProducer c);
    '(r, q) ← at_prod current any_dequeue q;
    match r with
    | Some x =>
        let items := u32 (ct_itemsConsumedFromCurrent c + 1) in
        mret (Some x, set_ct_consumed (Some current) items c,
              if items =? EXPLICIT_CONSUMER_CONSUMPTION_QUOTA_BEFORE_ROTATE then bump_offset q else q)
    | None =>
        let tail := producerListTail q in
        ptr ← deref (next_or_tail tail current);
        dequeue_around (length (tq_producers q)) tail ptr current c q
    end.

(** The loop of the bulk operation, which compares with the producer the token has
    moved to. *)
Fixpoint dequeue_bulk_around (fuel : nat) (tail : option nat) (ptr : nat) (max : Z) c q
  : run (list A * ConsumerToken * tqueue A) :=
  if decide (Some ptr = ct_currentProducer c) then mret ([], c, q)
  else
    match fuel with
    | O => Blocked
    | S fuel =>
        '(xs, q) ← at_prod ptr (any_dequeue_bulk max) q;
        let dequeued := Z.of_nat (length xs) in
        let c := if dequeued =? 0 then c else set_ct_consumed (Some ptr) (u32 dequeued) c in
        if dequeued =? max then mret (xs, c, q)
        else
          ptr ← deref (next_or_tail tail ptr);
          '(ys, c, q) ← dequeue_bulk_around fuel tail ptr (u64 (max - dequeued)) c q;
          mret (xs ++ ys, c, q)
    end.

Definition try_dequeue_bulk_token (max : Z) c q : run (list A * ConsumerToken * tqueue A) :=
  '(ok, c) ← rotate c q;
  if negb (ok : bool) then mret ([], c, q)
  else
    current ← deref (ct_currentProducer c);
    '(xs, q) ← at_prod current (any_dequeue_bulk max) q;
    let count := Z.of_nat (length xs) in
    if count =? max then
      let items := u32 (ct_itemsConsumedFromCurrent c + u32 max) in
      mret (xs, set_ct_consumed (Some current) items c,
            if EXPLICIT_CONSUMER_CONSUMPTION_QUOTA_BEFORE_ROTATE <=? items then bump_offset q else q)
    else
      let c := set_ct_consumed (Some current) (u32 (ct_itemsConsumedFromCurrent c + u32 count)) c in
      let tail := producerListTail q in
      ptr ← deref (next_or_tail tail current);
      '(ys, c, q) ← dequeue_bulk_around (2 * length (tq_producers q)) tail ptr (u64 (max - count)) c q;
      mret (xs ++ ys, c, q).

(** ** Swapping and moving queues *)

Definition reown_producers q : tqueue A := set_tq_producers (map (set_pb_parent (tq_self q)) (tq_producers q)) q.

(** All but the address. *)
Definition with_contents q other : tqueue A :=
  TQueue (tq_self q) (tq_pool other) (tq_producers other) (tq_producerCount other) (tq_hashes other) (tq_hashCount other)
    (tq_nextExplicitConsumerId other) (tq_globalExplicitConsumerOffset other).
Definition swap_queues q other : tqueue A * tqueue A :=
  if tq_self q =? tq_self other then (q, other)
  else (reown_producers (with_contents q other), reown_producers (with_contents other q)).
(** The new queue at [self] and the one it was made from; [brk] and [ms] are what the
    allocator has for the latter now. *)
Definition move_queue (self brk : Z) (ms : list bool) other : tqueue A * tqueue A :=
  (reown_producers (TQueue self (tq_pool other) (tq_producers other) (tq_producerCount other) (tq_hashes other)
     (tq_hashCount other) (tq_nextExplicitConsumerId other) (tq_globalExplicitConsumerOffset other)),
   TQueue (tq_self other) (Pool ∅ 0 0 0 0 brk ms) [] 0 populate_initial_implicit_producer_hash 0 0 0).

(** ** The destructor of a queue *)

(** [destroy(ptr)]: the destructors are virtual; the elements destroyed, the blocks freed. *)
Definition any_destroy (po : pool A) (p : any_producer) : run (list A * list Z * pool A) :=
  match p with
  | Explicit p => '(xs, freed, _, po) ← destroy_explicit po p; mret (xs, freed, po)
  | Implicit p => '(xs, po) ← destroy_producer po p; mret (xs, [], po)
  end.

(** [ptr->token->producer = nullptr], unless [ptr->token] is null. *)
Definition forget_token (b : ProducerBase) ts : run token_map :=
  if pb_token b =? 0 then mret ts else _ ← deref (ts !! pb_token b); mret (<[pb_token b := None]> ts).

Fixpoint destroy_walk (ps : list ProducerBase) ts (po : pool A) : run (token_map * list A * list Z * pool A) :=
  match ps with
  | [] => mret (ts, [], [], po)
  | b :: ps =>
      ts ← forget_token b ts;
      '(xs, freed, po) ← any_destroy po (pb_producer b);
      '(ts, ys, rest, po) ← destroy_walk ps ts po;
      mret (ts, xs ++ ys, freed ++ rest, po)
  end.

(** The tables freed, from the newest on: the oldest is part of the queue. *)
Fixpoint freed_hashes (hs : list ImplicitProducerHash) : list ImplicitProducerHash :=
  match hs with
  | [] => []
  | h :: prev => match prev with [] => [] | _ => h :: freed_hashes prev end
  end.

(** The tokens as they are left, the elements destroyed, the hash tables and blocks freed
    one by one, and the array freed as a whole.  Producers are destroyed from the newest on. *)
Definition destroy_tqueue ts q : run (token_map * list A * list ImplicitProducerHash * list Z * (Z * Z)) :=
  '(ts, xs, freed, po) ← destroy_walk (reverse (tq_producers q)) ts (tq_pool q);
  rest ← destroy_free_list (size (po_blocks po)) (po_freeListHead po) po;
  mret (ts, xs, freed_hashes (tq_hashes q), freed ++ rest, (po_initialBlockPool po, po_initialBlockPoolSize po)).
End queue.
