(* ===== verification/TokenQueue.v ===== *)
(** * Tokens: what they guarantee

    The queue of [Tokens.v] as the list of its producers' contents.  A consumer token
    finds an element if there is one anywhere; a bulk dequeue through it gets as many
    as there are.  [TokenLife.v] has the tokens themselves. *)

From S2P Require Import Prelude BlockPool ImplicitProducer BlockIndex ProducerFifo ProducerHash Producers ExplicitProducer ExplicitFifo ExplicitBulk ExplicitQueue Tokens.

(** ** Producers of either kind implement the interface *)

Section any.
Context {A : Type}.

Definition any_holds (po : pool A) (p : any_producer) (items : list A) (ps others : list Z) : Prop :=
  match p with Implicit p => pl_holds po p items ps others | Explicit p => pl_holds po p items ps others end.

Lemma any_pool po p items ps others : any_holds po p items ps others -> exists free, pool_inv po free (ps ++ others).
Proof. destruct p; apply pl_pool. Qed.
Lemma any_frame po po' p items ps others others' free' :
  any_holds po p items ps others -> keeps ps po po' -> pool_inv po' free' (ps ++ others') -> any_holds po' p items ps others'.
Proof. destruct p; apply pl_frame. Qed.

#[export] Instance any_like : producer_like A any_producer := {| pl_holds := any_holds; pl_pool := any_pool; pl_frame := any_frame |}.
#[export] Instance any_ops : dequeue_ops A any_producer := {| pd_dequeue := any_dequeue; pd_dequeue_bulk := any_dequeue_bulk |}.
#[export] Instance any_dequeues : dequeues A any_producer.
Proof.
  split; cbn.
  - intros po [p|p] items ps others Hh; destruct (dq_one po p items ps others Hh) as (po' & p' & ps' & E & Hk & Hh'); cbn in E;
      unfold any_dequeue; rewrite E, bind_Done; by eexists _, _, ps'.
  - intros max po [p|p] items ps others Hh Hm; destruct (dq_many max po p items ps others Hh Hm) as (po' & p' & ps' & E & Hk & Hh'); cbn in E;
      unfold any_dequeue_bulk; rewrite E, bind_Done; by eexists _, _, ps'.
  - intros po [p|p] items ps others Hh; exact (dq_bound po p items ps others Hh).
Qed.
End any.

(** ** The contents *)

Section contents.
Context {A : Type} (junk : Z).
Implicit Types (q : tqueue A) (its : list (list A)) (c : ConsumerToken).

(** Producer [k] holds the list [k] of [its]. *)
Record tq_ok q its : Prop := {
  to_producers : exists pss, producers_ok id (tq_pool q) (map pb_producer (tq_producers q)) its pss;
  to_count : tq_producerCount q = Z.of_nat (length its);
  to_small : Z.of_nat (length its) < 2 ^ 32 }.

Lemma tq_length q its : tq_ok q its -> length (tq_producers q) = length its.
Proof. intros [[pss Hp] _ _]; rewrite <- (pk_length _ _ _ _ Hp); by rewrite length_map. Qed.

(** Kinds, tokens and parents are as before. *)
Definition same_tags (b b' : ProducerBase) : Prop :=
  isExplicit (pb_producer b') = isExplicit (pb_producer b) /\ pb_inactive b' = pb_inactive b /\
  pb_token b' = pb_token b /\ pb_parent b' = pb_parent b.
Definition same_ids q q' : Prop :=
  Forall2 same_tags (tq_producers q) (tq_producers q') /\ tq_self q' = tq_self q /\ tq_producerCount q' = tq_producerCount q.

Lemma same_tags_refl b : same_tags b b.
Proof. by split_all. Qed.
Lemma same_ids_refl q : same_ids q q.
Proof. split; [|done]; apply Forall_Forall2_diag, Forall_forall; intros b _; apply same_tags_refl. Qed.
Lemma same_ids_trans q1 q2 q3 : same_ids q1 q2 -> same_ids q2 q3 -> same_ids q1 q3.
Proof.
  intros (H1 & E1 & F1) (H2 & E2 & F2); split; [|split; congruence].
  eapply Forall2_trans; [|exact H1|exact H2]; intros x y z (? & ? & ? & ?) (? & ? & ? & ?); unfold same_tags; split_all; congruence.
Qed.

(** An operation on one producer, whose answer and new contents satisfy [P]. *)
Lemma at_prod_ok {B} (P : B -> list A -> Prop) (f : pool A -> any_producer -> run (B * pool A * any_producer)) q its k items :
  tq_ok q its -> its !! k = Some items ->
  (forall b ps others, tq_producers q !! k = Some b -> any_holds (tq_pool q) (pb_producer b) items ps others ->
     exists r items' po' p' ps', f (tq_pool q) (pb_producer b) = Done (r, po', p') /\ keeps others (tq_pool q) po' /\
       any_holds po' p' items' ps' others /\ isExplicit p' = isExplicit (pb_producer b) /\ P r items') ->
  exists r items' q', at_prod k f q = Done (r, q') /\ tq_ok q' (<[k := items']> its) /\ same_ids q q' /\ P r items'.
Proof.
  intros Hok Hi Hf; pose proof (tq_length _ _ Hok) as Hlen; destruct Hok as [[pss Hp] Hc Hs].
  pose proof (lookup_lt_Some _ _ _ Hi) as Hlt; destruct (lookup_lt_is_Some_2 (tq_producers q) k) as [b Hb]; [lia|].
  assert (map pb_producer (tq_producers q) !! k = Some (pb_producer b)) as Hpb by (by rewrite list_lookup_fmap, Hb).
  destruct (producers_take _ _ _ _ _ _ Hp Hpb) as (x & ps & Hx & Hps & Hh); rewrite Hi in Hx; injection Hx as <-.
  destruct (Hf b _ _ Hb Hh) as (r & items' & po' & p' & ps' & Hrun & Hk & Hh' & Hkind & HP).
  unfold at_prod; rewrite Hb; cbn [deref]; rewrite bind_Done, Hrun, bind_Done; exists r, items'; eexists; split; [reflexivity|].
  split; [split; cbn|split; [split; [|done]|done]]; rewrite ?length_insert; try done.
  - exists (<[k := ps']> pss); change (map ?g ?l) with (g <$> l); rewrite list_fmap_insert; cbn.
    by apply (producers_put _ _ _ _ _ _ items items' _ _ _ Hp Hpb Hi).
  - cbn; apply Forall2_same_length_lookup_2; [by rewrite length_insert|]; intros j b1 b2 H1 H2.
    destruct (decide (k = j)) as [<-|Hne]; [|rewrite list_lookup_insert_ne in H2 by done; simplify_eq; apply same_tags_refl].
    rewrite list_lookup_insert_eq in H2 by lia; simplify_eq; by split_all.
Qed.

Lemma any_dequeue_kind po p (r : option A) po' p' : any_dequeue po p = Done (r, po', p') -> isExplicit p' = isExplicit p.
Proof. destruct p as [p|p]; cbn; intros E; by apply bind_Done_inv in E as ([[? ?] ?] & _ & [= _ _ <-]). Qed.
Lemma any_dequeue_bulk_kind max po p (r : list A) po' p' :
  any_dequeue_bulk max po p = Done (r, po', p') -> isExplicit p' = isExplicit p.
Proof. destruct p as [p|p]; cbn; intros E; by apply bind_Done_inv in E as ([[? ?] ?] & _ & [= _ _ <-]). Qed.

Lemma at_dequeue q its k items :
  tq_ok q its -> its !! k = Some items ->
  exists q', at_prod k any_dequeue q = Done (head items, q') /\ tq_ok q' (<[k := tail items]> its) /\ same_ids q q'.
Proof.
  intros Hok Hi; destruct (at_prod_ok (fun r i => r = head items /\ i = tail items) any_dequeue q its k items Hok Hi)
    as (r & i & q' & E & Hok' & Hid & -> & ->); [|by exists q'].
  intros b ps others _ Hh; destruct (@dq_one A any_producer _ _ any_dequeues _ _ items ps others Hh) as (po' & p' & ps' & E & Hk & Hh').
  cbn in E; exists (head items), (tail items), po', p', ps'; split_all; try done; by eapply any_dequeue_kind.
Qed.
Lemma at_dequeue_bulk max q its k items :
  tq_ok q its -> its !! k = Some items -> 0 <= max < 2 ^ 64 ->
  exists q', at_prod k (any_dequeue_bulk max) q = Done (take (Z.to_nat max) items, q') /\
    tq_ok q' (<[k := drop (Z.to_nat max) items]> its) /\ same_ids q q'.
Proof.
  intros Hok Hi Hm; destruct (at_prod_ok (fun r i => r = take (Z.to_nat max) items /\ i = drop (Z.to_nat max) items)
    (any_dequeue_bulk max) q its k items Hok Hi) as (r & i & q' & E & Hok' & Hid & -> & ->); [|by exists q'].
  intros b ps others _ Hh; destruct (@dq_many A any_producer _ _ any_dequeues max _ _ items ps others Hh Hm) as (po' & p' & ps' & E & Hk & Hh').
  cbn in E; exists (take (Z.to_nat max) items), (drop (Z.to_nat max) items), po', p', ps'; split_all; try done.
  by eapply any_dequeue_bulk_kind.
Qed.
End contents.

(** ** Going round the list *)

Definition before (n k : nat) : nat := match k with O => (n - 1)%nat | S k => k end.
(** How many steps from producer [k] to producer [e]. *)
Definition distance (n k e : nat) : nat := if decide (e <= k)%nat then (k - e)%nat else (k + n - e)%nat.

Lemma before_lt n k : (k < n)%nat -> (before n k < n)%nat.
Proof. destruct k; cbn; lia. Qed.
Lemma distance_before n k e : (k < n)%nat -> (e < n)%nat -> k <> e -> (distance n k e = S (distance n (before n k) e))%nat.
Proof. unfold distance; intros Hk He Hne; destruct k; cbn [before]; repeat case_decide; lia. Qed.
Lemma distance_zero n k e : (k < n)%nat -> (e < n)%nat -> distance n k e = O -> k = e.
Proof. unfold distance; intros Hk He; case_decide; lia. Qed.
Lemma distance_lt n k e : (k < n)%nat -> (e < n)%nat -> (distance n k e < n)%nat.
Proof. unfold distance; intros Hk He; case_decide; lia. Qed.
Lemma distance_from_before n e : (e < n)%nat -> distance n (before n e) e = (n - 1)%nat.
Proof. unfold distance; intros He; destruct e; cbn [before]; case_decide; lia. Qed.

Lemma next_or_tail_before n k : (k < n)%nat -> next_or_tail (Some (n - 1)%nat) k = Some (before n k).
Proof. by destruct k. Qed.
Lemma iter_before_lt n m k : (k < n)%nat -> (Nat.iter m (before n) k < n)%nat.
Proof. intros Hk; induction m as [|m IH]; [done|]; rewrite Nat.iter_succ; by apply before_lt. Qed.
Lemma iter_before n m : forall k, (k < n)%nat -> Z.of_nat (Nat.iter m (before n) k) = (Z.of_nat k - Z.of_nat m) mod Z.of_nat n.
Proof.
  induction m as [|m IH]; intros k Hk.
  { cbn; rewrite Z.sub_0_r; symmetry; apply Z.mod_small; lia. }
  pose proof (iter_before_lt n m k Hk) as Hlt; specialize (IH k Hk); rewrite Nat.iter_succ; set (j := Nat.iter m (before n) k) in *; rewrite Nat2Z.inj_succ; unfold Z.succ; rewrite Z.sub_add_distr, <- Zminus_mod_idemp_l, <- IH.
  destruct j as [|j]; cbn [before].
  - rewrite <- (Z.mod_add _ 1), Z.mod_small by lia; lia.
  - rewrite Z.mod_small by lia; lia.
Qed.

Section walk.
Context {A : Type} (junk : Z).
Implicit Types (q : tqueue A) (its : list (list A)) (c : ConsumerToken).

Lemma tail_ok q its : tq_ok q its -> (0 < length its)%nat -> producerListTail q = Some (length its - 1)%nat.
Proof. intros Hok Hn; unfold producerListTail; rewrite (tq_length _ _ Hok); destruct (length its); [lia|]; f_equal; lia. Qed.

Lemma advance_ok n m : forall k, (k < n)%nat ->
  advance m (Some (n - 1)%nat) (Some k) = Done (Some (Z.to_nat ((Z.of_nat k - Z.of_nat m) mod Z.of_nat n))).
Proof.
  intros k Hk; rewrite <- iter_before, Nat2Z.id by done; revert k Hk; induction m as [|m IH]; intros k Hk; [done|].
  cbn [advance deref]; rewrite bind_Done, next_or_tail_before, IH by (try apply before_lt; done).
  by rewrite Nat.iter_succ_r.
Qed.

(** A token that has been used points to producers of the queue. *)
Definition ct_ok (n : nat) c : Prop :=
  match ct_desiredProducer c with
  | None => True
  | Some d => (d < n)%nat /\ exists k, ct_currentProducer c = Some k /\ (k < n)%nat
  end.

(** Where a token goes after a rotation. *)
Definition rotated (n : nat) (globalOffset : Z) c : nat :=
  let delta := u32 (globalOffset - ct_lastKnownGlobalOffset c) in
  match ct_desiredProducer c with
  | None => Z.to_nat ((ct_initialOffset c - delta) mod Z.of_nat n)
  | Some d => Z.to_nat ((Z.of_nat d - delta) mod Z.of_nat n)
  end.

Lemma advance_delta n k d :
  (k < n)%nat -> 0 <= d ->
  (delta ← (if Z.of_nat n <=? d then if Z.of_nat n =? 0 then Undefined else mret (d mod Z.of_nat n) else mret d);
   advance (Z.to_nat delta) (Some (n - 1)%nat) (Some k)) = Done (Some (Z.to_nat ((Z.of_nat k - d) mod Z.of_nat n))).
Proof.
  intros Hk Hd; destruct (Z.leb_spec (Z.of_nat n) d).
  - destruct (Z.eqb_spec (Z.of_nat n) 0); [lia|]; rewrite bind_Done, advance_ok by done; pose proof (Z.mod_pos_bound d (Z.of_nat n)).
    rewrite Z2Nat.id by lia; by rewrite Zminus_mod_idemp_r.
  - rewrite bind_Done, advance_ok by done; by rewrite Z2Nat.id.
Qed.

(** [update_current_producer_after_rotation] with at least one producer. *)
Lemma update_ok q its c :
  tq_ok q its -> (0 < length its)%nat -> ct_ok (length its) c ->
  exists c', update_current_producer_after_rotation c q = Done (true, c') /\ ct_ok (length its) c' /\
    ct_desiredProducer c' = Some (rotated (length its) (tq_globalExplicitConsumerOffset q) c) /\
    ct_currentProducer c' = ct_desiredProducer c' /\ ct_itemsConsumedFromCurrent c' = 0 /\
    ct_lastKnownGlobalOffset c' = tq_globalExplicitConsumerOffset q.
Proof.
  intros Hok Hn Hd; pose proof (to_count _ _ Hok) as Hc; pose proof (to_small _ _ Hok) as Hs; set (n := length its) in *.
  unfold update_current_producer_after_rotation; rewrite (tail_ok _ _ Hok Hn), Hc; fold n.
  rewrite (bool_decide_eq_false_2 (Some _ = None)), andb_false_r by done; unfold rotated.
  set (d := u32 _); assert (0 <= d) by (apply wrap_range; lia).
  set (o := ct_initialOffset c) in *; pose proof (Z.mod_pos_bound o (Z.of_nat n) ltac:(lia)).
  pose (k := match ct_desiredProducer c with None => Z.to_nat (o mod Z.of_nat n) | Some d => d end).
  assert (k < n)%nat as Hk by (unfold k; unfold ct_ok in Hd; destruct (ct_desiredProducer c); [apply Hd|lia]).
  assert ((if bool_decide (ct_desiredProducer c = None) then
     if Z.of_nat n =? 0 then Undefined
     else advance (Z.to_nat (u32 (Z.of_nat n - 1 - o mod Z.of_nat n))) (Some (n - 1)%nat) (Some (n - 1)%nat)
   else mret (ct_desiredProducer c)) = Done (Some k)) as ->.
  { unfold k; destruct (ct_desiredProducer c) as [d0|]; [by rewrite bool_decide_eq_false_2|]; rewrite bool_decide_eq_true_2 by done.
    destruct (Z.eqb_spec (Z.of_nat n) 0); [lia|]; rewrite wrap_small by (unfold in_u; lia); rewrite advance_ok by lia.
    rewrite Z2Nat.id by lia; do 3 f_equal; rewrite Nat2Z.inj_sub by lia.
    replace (Z.of_nat n - Z.of_nat 1 - (Z.of_nat n - 1 - o mod Z.of_nat n)) with (o mod Z.of_nat n) by lia; by rewrite Zmod_mod. }
  rewrite bind_Done; pose proof (advance_delta n k d Hk) as Ha; specialize (Ha ltac:(done)).
  set (r := if Z.of_nat n <=? d then _ else _) in *; destruct r as [delta| | |]; try done; rewrite bind_Done in Ha; rewrite bind_Done, Ha, bind_Done.
  pose proof (Z.mod_pos_bound (Z.of_nat k - d) (Z.of_nat n) ltac:(lia)).
  eexists; split; [reflexivity|]; split; [|split; [|done]].
  - unfold ct_ok; cbn; split; [lia|]; eexists; split; [done|lia].
  - cbn; unfold k; destruct (ct_desiredProducer c) as [d0|]; [done|]; rewrite Z2Nat.id by lia; by rewrite Zminus_mod_idemp_l.
Qed.

Lemma rotate_ok q its c :
  tq_ok q its -> ct_ok (length its) c ->
  match length its with
  | O => rotate c q = Done (false, c)
  | _ => exists c' k, rotate c q = Done (true, c') /\ ct_ok (length its) c' /\ ct_currentProducer c' = Some k /\ (k < length its)%nat
  end.
Proof.
  intros Hok Hc; unfold rotate; destruct (length its) as [|n] eqn:Hn.
  - unfold ct_ok in Hc; unfold update_current_producer_after_rotation, producerListTail; rewrite (tq_length _ _ Hok), Hn.
    destruct (ct_desiredProducer c) as [d|]; [destruct Hc; lia|]; by rewrite bool_decide_eq_true_2.
  - rewrite <- Hn in *; destruct (bool_decide _ || _) eqn:E.
    + destruct (update_ok q its c Hok ltac:(lia) Hc) as (c' & -> & Hc' & Hd' & Hcu & _); exists c'.
      pose proof Hc' as Hd; unfold ct_ok in Hd; rewrite Hd' in Hd, Hcu; destruct Hd as (_ & k & Hk & Hlt); by exists k.
    + apply orb_false_iff in E as [E _]; apply bool_decide_eq_false in E; destruct (ct_desiredProducer c) as [d|] eqn:Ed; [|done].
      pose proof Hc as Hd; unfold ct_ok in Hd; rewrite Ed in Hd; destruct Hd as (_ & k & Hk & Hlt); by exists c, k.
Qed.
End walk.

(** ** Dequeuing through a consumer token *)

Section dequeue.
Context {A : Type} (junk : Z).
Implicit Types (q : tqueue A) (its : list (list A)) (c : ConsumerToken).

(** All producers that the walk to [e] has left behind are empty. *)
Definition left_behind its (ptr e : nat) : Prop :=
  forall i, (i < length its)%nat -> (distance (length its) ptr e < distance (length its) i e)%nat -> its !! i = Some [].

Lemma left_behind_start its e : (e < length its)%nat -> left_behind its (before (length its) e) e.
Proof. intros He i Hi Hd; rewrite distance_from_before in Hd by done; pose proof (distance_lt _ _ _ Hi He); lia. Qed.
Lemma left_behind_step its ptr e :
  left_behind its ptr e -> its !! ptr = Some [] -> (ptr < length its)%nat -> (e < length its)%nat -> ptr <> e ->
  left_behind its (before (length its) ptr) e.
Proof.
  intros Hl Hp Hlt He Hne i Hi Hd; pose proof (distance_before _ _ _ Hlt He Hne); destruct (decide (i = ptr)) as [->|Hip]; [done|].
  apply Hl; [done|]; assert (distance (length its) i e <> distance (length its) ptr e); [|lia].
  unfold distance; repeat case_decide; lia.
Qed.
Lemma left_behind_all its e : left_behind its e e -> (e < length its)%nat -> forall i, (i < length its)%nat -> i <> e -> its !! i = Some [].
Proof.
  intros Hl He i Hi Hne; apply Hl; [done|]; assert (distance (length its) e e = O) as -> by (unfold distance; case_decide; lia).
  destruct (distance (length its) i e) eqn:E; [by apply distance_zero in E|lia].
Qed.

Lemma all_empty_concat its : (forall i, (i < length its)%nat -> its !! i = Some []) -> concat its = [].
Proof.
  induction its as [|l its IH]; intros H; [done|]; cbn; pose proof (H O ltac:(cbn; lia)) as [= ->]; apply IH.
  intros i Hi; exact (H (S i) ltac:(cbn; lia)).
Qed.

Lemma ct_ok_set n c j i : ct_ok n c -> (j < n)%nat -> ct_ok n (set_ct_consumed (Some j) i c).
Proof. unfold ct_ok; cbn; intros Hd Hj; destruct (ct_desiredProducer c); [|done]; split; [by destruct Hd|by exists j]. Qed.

(** The element comes from the front of some producer. *)
Definition took its (x : A) (i : nat) (l : list A) : Prop := its !! i = Some (x :: l).

Lemma dequeue_around_ok fuel : forall ptr q its c current,
  tq_ok q its -> (ptr < length its)%nat -> (current < length its)%nat -> (distance (length its) ptr current <= fuel)%nat ->
  left_behind its ptr current ->
  exists r c' q', dequeue_around fuel (Some (length its - 1)%nat) ptr current c q = Done (r, c', q') /\ same_ids q q' /\
    match r with
    | Some x => exists i l, took its x i l /\ tq_ok q' (<[i := l]> its) /\ c' = set_ct_consumed (Some i) 1 c
    | None => (forall i, (i < length its)%nat -> i <> current -> its !! i = Some []) /\ tq_ok q' its /\ c' = c
    end.
Proof.
  induction fuel as [|fuel IH]; intros ptr q its c current Hok Hp Hc Hd Hl; cbn [dequeue_around];
    (destruct (decide (ptr = current)) as [->|Hne]; [exists None, c, q; split_all; try done; [by apply same_ids_refl..|by apply left_behind_all]|]).
  { by apply Nat.le_0_r, distance_zero in Hd. }
  destruct (lookup_lt_is_Some_2 its ptr Hp) as [items Hi]; destruct (at_dequeue q its ptr items Hok Hi) as (q1 & -> & Hok1 & Hid).
  rewrite bind_Done; destruct items as [|x items]; cbn [head tail] in *.
  - rewrite list_insert_id in Hok1 by done; rewrite next_or_tail_before by done; cbn [deref]; rewrite bind_Done.
    destruct (IH (before (length its) ptr) q1 its c current) as (r & c' & q' & -> & Hid' & Hres); try done;
      [by apply before_lt|rewrite (distance_before _ _ _ Hp Hc Hne) in Hd; lia|by apply left_behind_step|].
    exists r, c', q'; split; [done|]; split; [by eapply same_ids_trans|done].
  - eexists (Some x), _, q1; split; [reflexivity|]; split; [done|]; exists ptr, items; by split_all.
Qed.

(** [try_dequeue] through a token: it fails only when every producer is empty. *)
Lemma try_dequeue_token_ok q its c :
  tq_ok q its -> ct_ok (length its) c ->
  exists r c' q', try_dequeue_token c q = Done (r, c', q') /\ ct_ok (length its) c' /\ same_ids q q' /\
    match r with
    | Some x => exists i l, took its x i l /\ tq_ok q' (<[i := l]> its)
    | None => concat its = [] /\ tq_ok q' its
    end.
Proof.
  intros Hok Hc; pose proof (rotate_ok q its c Hok Hc) as Hr; unfold try_dequeue_token; destruct (length its) as [|n] eqn:Hn.
  { rewrite Hr, bind_Done; cbn [negb]; exists None, c, q; split_all; try done; [by apply same_ids_refl..|by destruct its]. }
  rewrite <- Hn in *; destruct Hr as (c1 & k & -> & Hc1 & Hk & Hlt); rewrite bind_Done, Hk; cbn [negb deref]; rewrite bind_Done.
  destruct (lookup_lt_is_Some_2 its k Hlt) as [items Hi]; destruct (at_dequeue q its k items Hok Hi) as (q1 & -> & Hok1 & Hid); rewrite bind_Done.
  destruct items as [|x items]; cbn [head tail] in *.
  2:{ eexists (Some x), _, _; split; [reflexivity|]; split; [by apply ct_ok_set|]; split; [by destruct (_ =? _)|]; exists k, items; split; [done|].
      destruct (_ =? _); [|done]; by destruct Hok1. }
  rewrite list_insert_id in Hok1 by done; rewrite (tail_ok _ _ Hok1) by lia; rewrite next_or_tail_before by done; cbn [deref].
  rewrite bind_Done, (tq_length _ _ Hok1).
  destruct (dequeue_around_ok (length its) (before (length its) k) q1 its c1 k Hok1) as (r & c2 & q2 & -> & Hid2 & Hres); try done.
  - by apply before_lt.
  - rewrite distance_from_before by done; lia.
  - by apply left_behind_start.
  - pose proof (same_ids_trans _ _ _ Hid Hid2); exists r, c2, q2; split; [done|]; destruct r as [x|].
    + destruct Hres as (i & l & Ht & Hok2 & ->); split; [apply ct_ok_set; [done|by eapply lookup_lt_Some]|]; split; [done|by exists i, l].
    + destruct Hres as (Hall & Hok2 & ->); split; [done|]; split; [done|]; split; [|done]; apply all_empty_concat; intros i Hi'.
      destruct (decide (i = k)) as [->|]; [done|by apply Hall].
Qed.

(** *** Several at once *)

(** [xs] has been taken from the fronts of the lists. *)
Definition taken (xs : list A) its its' : Prop :=
  concat its ≡ₚ xs ++ concat its' /\ Forall2 (fun l l' => exists m, l' = drop m l) its its'.

Lemma taken_nil its : taken [] its its.
Proof. split; [done|]; apply Forall_Forall2_diag, Forall_forall; intros l _; by exists O. Qed.
Lemma taken_app xs ys its1 its2 its3 : taken xs its1 its2 -> taken ys its2 its3 -> taken (xs ++ ys) its1 its3.
Proof.
  intros [P1 F1] [P2 F2]; split; [by rewrite P1, P2, app_assoc|]; eapply Forall2_trans; [|exact F1|exact F2].
  intros l1 l2 l3 (m1 & ->) (m2 & ->); exists (m1 + m2)%nat; by rewrite drop_drop.
Qed.
Lemma taken_one its k l m : its !! k = Some l -> taken (take m l) its (<[k := drop m l]> its).
Proof.
  intros Hk; pose proof (lookup_lt_Some _ _ _ Hk) as Hlt; split.
  - rewrite <- (take_drop_middle its k l Hk) at 1; rewrite insert_take_drop, !concat_app by done; cbn [concat].
    rewrite <- (take_drop m l) at 1; rewrite <- app_assoc, (app_assoc (concat _)), (Permutation_app_comm (concat _) (take m l)), <- app_assoc.
    done.
  - apply Forall2_same_length_lookup_2; [by rewrite length_insert|]; intros j l1 l2 H1 H2; destruct (decide (k = j)) as [<-|Hne].
    + rewrite list_lookup_insert_eq in H2 by done; simplify_eq; by exists m.
    + rewrite list_lookup_insert_ne in H2 by done; simplify_eq; by exists O.
Qed.
Lemma taken_length xs its its' : taken xs its its' -> length its' = length its.
Proof. intros [_ F]; symmetry; by eapply Forall2_length. Qed.
Lemma taken_count xs its its' : taken xs its its' -> length (concat its) = (length xs + length (concat its'))%nat.
Proof. intros [P _]; by rewrite P, length_app. Qed.

(** What a bulk dequeue answers: as much as there is, up to [max]. *)
Definition bulk_result (max : Z) its (xs : list A) its' : Prop :=
  taken xs its its' /\ Z.of_nat (length xs) = Z.min max (Z.of_nat (length (concat its))).

(** Nothing is left: the walk ends at the producer of the token. *)
Lemma around_empty fuel : forall ptr q its c current max,
  tq_ok q its -> concat its = [] -> ct_currentProducer c = Some current -> (current < length its)%nat -> (ptr < length its)%nat ->
  (distance (length its) ptr current <= fuel)%nat -> 0 < max < 2 ^ 64 ->
  exists q', dequeue_bulk_around fuel (Some (length its - 1)%nat) ptr max c q = Done ([], c, q') /\ tq_ok q' its /\ same_ids q q'.
Proof.
  induction fuel as [|fuel IH]; intros ptr q its c current max Hok He Hcu Hc Hp Hd Hm; cbn [dequeue_bulk_around]; rewrite Hcu;
    (destruct (decide (Some ptr = Some current)) as [E|Hne]; [exists q; by split_all; try apply same_ids_refl|]).
  { apply Nat.le_0_r, distance_zero in Hd; congruence. }
  assert (ptr <> current) as Hne' by congruence.
  assert (its !! ptr = Some []) as Hi.
  { destruct (lookup_lt_is_Some_2 its ptr Hp) as [l Hl]; rewrite Hl; f_equal; rewrite concat_nil_Forall, Forall_lookup in He; by eapply He. }
  destruct (at_dequeue_bulk max q its ptr [] Hok Hi ltac:(lia)) as (q1 & -> & Hok1 & Hid); rewrite take_nil, drop_nil, list_insert_id in * by done.
  rewrite bind_Done; cbn [length]; change (Z.of_nat 0) with 0; rewrite Z.eqb_refl; destruct (Z.eqb_spec 0 max); [lia|].
  rewrite next_or_tail_before by done; cbn [deref]; rewrite bind_Done, Z.sub_0_r, wrap_small by (unfold in_u; lia).
  destruct (IH (before (length its) ptr) q1 its c current max Hok1) as (q' & -> & Hok' & Hid'); try done.
  - by apply before_lt.
  - rewrite (distance_before _ _ _ Hp Hc Hne') in Hd; lia.
  - exists q'; split_all; try done; by eapply same_ids_trans.
Qed.

Lemma bulk_result_nil max its : concat its = [] -> 0 <= max -> bulk_result max its [] its.
Proof. intros He Hm; split; [apply taken_nil|]; rewrite He; cbn; lia. Qed.

(** One producer has been emptied and there is room for more. *)
Lemma bulk_result_step max its ptr items xs its' :
  its !! ptr = Some items -> Z.of_nat (length items) < max ->
  bulk_result (max - Z.of_nat (length items)) (<[ptr := []]> its) xs its' -> bulk_result max its (items ++ xs) its'.
Proof.
  intros Hi Hm [Ht Hl]; pose proof (taken_one its ptr items (length items) Hi) as H1; rewrite take_ge, drop_ge in H1 by lia.
  split; [by eapply taken_app|]; pose proof (taken_count _ _ _ H1); rewrite length_app; lia.
Qed.

Lemma bulk_around_ok fuel : forall ptr q its c current e max,
  tq_ok q its -> ct_currentProducer c = Some current -> (current < length its)%nat -> (ptr < length its)%nat -> (e < length its)%nat ->
  (distance (length its) ptr e + length its <= fuel)%nat -> 0 < max < 2 ^ 64 -> ct_ok (length its) c ->
  left_behind its ptr e -> its !! e = Some [] ->
  (current = e \/ (distance (length its) ptr e < distance (length its) current e)%nat) ->
  exists xs c' q' its', dequeue_bulk_around fuel (Some (length its - 1)%nat) ptr max c q = Done (xs, c', q') /\
    tq_ok q' its' /\ ct_ok (length its) c' /\ same_ids q q' /\ bulk_result max its xs its'.
Proof.
  induction fuel as [|fuel IH]; intros ptr q its c current e max Hok Hcu Hc Hp He Hf Hm Hct Hl Hie Hcur.
  { exfalso; lia. }
  destruct (decide (ptr = e)) as [->|Hpe].
  { assert (concat its = []) as Hall.
    { apply all_empty_concat; intros i Hi; destruct (decide (i = e)) as [->|]; [done|by apply (left_behind_all its e)]. }
    pose proof (distance_lt _ _ _ Hp Hc); destruct (around_empty (S fuel) e q its c current max) as (q' & -> & Hok' & Hid'); try done; [lia|].
    exists [], c, q', its; split_all; try done; apply bulk_result_nil; [done|lia]. }
  cbn [dequeue_bulk_around]; rewrite Hcu; destruct (decide (Some ptr = Some current)) as [E|_].
  { injection E as <-; exfalso; destruct Hcur; [done|lia]. }
  destruct (lookup_lt_is_Some_2 its ptr Hp) as [items Hi]; pose proof (taken_one its ptr items (Z.to_nat max) Hi) as Ht1.
  destruct (at_dequeue_bulk max q its ptr items Hok Hi ltac:(lia)) as (q1 & -> & Hok1 & Hid); rewrite bind_Done.
  pose proof (taken_count _ _ _ Ht1) as Hcnt; set (d := Z.of_nat (length (take (Z.to_nat max) items))).
  assert (ct_ok (length its) (if d =? 0 then c else set_ct_consumed (Some ptr) (u32 d) c)) as Hct1.
  { destruct (d =? 0); [done|by apply ct_ok_set]. }
  destruct (Z.eqb_spec d max) as [Ed|Hd].
  { eexists _, _, q1, _; split; [reflexivity|]; split; [done|]; split; [done|]; split; [done|]; split; [done|]; unfold d in Ed; lia. }
  rewrite length_take in *; assert (Z.of_nat (length items) < max) as Hlt by (unfold d in Hd; rewrite length_take in Hd; lia).
  rewrite drop_ge in Hok1 by lia; assert (d = Z.of_nat (length items)) as Ed by (unfold d; rewrite length_take; lia).
  rewrite take_ge by lia; rewrite next_or_tail_before by done; cbn [deref]; rewrite bind_Done, wrap_small by (unfold in_u; lia).
  assert (length (<[ptr := []]> its) = length its) as Hlen by apply length_insert.
  assert (<[ptr := []]> its !! ptr = Some []) as Hpn by (by apply list_lookup_insert_eq).
  pose proof (distance_before _ _ _ Hp He Hpe) as Hdb; rewrite <- Hlen in *.
  destruct (IH (before (length (<[ptr := []]> its)) ptr) q1 (<[ptr := []]> its)
    (if d =? 0 then c else set_ct_consumed (Some ptr) (u32 d) c) (if d =? 0 then current else ptr) e (max - d))
    as (ys & c2 & q2 & its2 & -> & Hok2 & Hct2 & Hid2 & Hres); try done; try lia.
  - by destruct (d =? 0).
  - by destruct (d =? 0).
  - rewrite Hlen in *; by apply before_lt.
  - apply left_behind_step; try done; intros i Hi' Hdi; destruct (decide (i = ptr)) as [->|Hne]; [done|].
    rewrite list_lookup_insert_ne by done; apply Hl; by rewrite <- Hlen.
  - by rewrite list_lookup_insert_ne.
  - destruct (d =? 0); [destruct Hcur; [by left|right; lia]|right; lia].
  - rewrite bind_Done; exists (items ++ ys), c2, q2, its2; split; [done|]; split; [done|]; split; [done|]; split; [by eapply same_ids_trans|].
    eapply bulk_result_step; [done|done|]; by rewrite <- Ed.
Qed.

(** [try_dequeue_bulk] through a token: the walk, which starts again at every producer
    that gives some, ends, and gets as much as there is. *)
Lemma try_dequeue_bulk_token_ok q its c max :
  tq_ok q its -> ct_ok (length its) c -> 0 <= max < 2 ^ 64 ->
  exists xs c' q' its', try_dequeue_bulk_token max c q = Done (xs, c', q') /\ tq_ok q' its' /\ ct_ok (length its) c' /\
    same_ids q q' /\ bulk_result max its xs its'.
Proof.
  intros Hok Hc Hm; pose proof (rotate_ok q its c Hok Hc) as Hr; unfold try_dequeue_bulk_token; destruct (length its) as [|n] eqn:Hn.
  { rewrite Hr, bind_Done; cbn [negb]; exists [], c, q, its; split; [done|]; split; [done|]; split; [done|]; split; [apply same_ids_refl|]; apply bulk_result_nil; [by destruct its|lia]. }
  rewrite <- Hn in *; destruct Hr as (c1 & k & -> & Hc1 & Hk & Hlt); rewrite bind_Done, Hk; cbn [negb deref]; rewrite bind_Done.
  destruct (lookup_lt_is_Some_2 its k Hlt) as [items Hi]; pose proof (taken_one its k items (Z.to_nat max) Hi) as Ht1.
  destruct (at_dequeue_bulk max q its k items Hok Hi Hm) as (q1 & -> & Hok1 & Hid); rewrite bind_Done.
  pose proof (taken_count _ _ _ Ht1) as Hcnt; set (d := Z.of_nat (length (take (Z.to_nat max) items))).
  destruct (Z.eqb_spec d max) as [Ed|Hd].
  { eexists _, _, _, _; split; [reflexivity|]; split; [|split; [by apply ct_ok_set|split; [by destruct (_ <=? _)|split; [done|unfold d in Ed; lia]]]].
    destruct (_ <=? _); [by destruct Hok1|done]. }
  rewrite length_take in *; assert (Z.of_nat (length items) < max) as Hlt' by (unfold d in Hd; rewrite length_take in Hd; lia).
  rewrite drop_ge in Hok1 by lia; assert (d = Z.of_nat (length items)) as Ed by (unfold d; rewrite length_take; lia).
  rewrite take_ge by lia; assert (length (<[k := []]> its) = length its) as Hlen by apply length_insert.
  rewrite (tail_ok _ _ Hok1), (tq_length _ _ Hok1), Hlen, next_or_tail_before by lia; cbn [deref]; rewrite bind_Done, wrap_small by (unfold in_u; lia).
  rewrite <- Hlen in *.
  destruct (bulk_around_ok (2 * length (<[k := []]> its)) (before (length (<[k := []]> its)) k) q1 (<[k := []]> its)
    (set_ct_consumed (Some k) (u32 (ct_itemsConsumedFromCurrent c1 + u32 d)) c1) k k (max - d))
    as (ys & c2 & q2 & its2 & -> & Hok2 & Hct2 & Hid2 & Hres); try done; try lia.
  - rewrite Hlen in *; by apply before_lt.
  - rewrite distance_from_before by done; lia.
  - by apply ct_ok_set.
  - by apply left_behind_start.
  - apply list_lookup_insert_eq; by rewrite <- Hlen.
  - rewrite bind_Done; exists (items ++ ys), c2, q2, its2; split; [done|]; split; [done|]; split; [done|]; split; [by eapply same_ids_trans|].
    eapply bulk_result_step; [done|done|]; by rewrite <- Ed.
Qed.
End dequeue.
