(* ===== verification/TokenLife.v ===== *)
(** * Tokens: a queue in use

    A client creates, moves, swaps and destroys tokens of both kinds and enqueues and
    dequeues through them, next to threads that use implicit producers.  [token_step]
    is one operation that [may] admits; [token_spec] says what it does to the
    tokens and to the lists of elements.  Here are the invariant of the tokens and what
    each operation on producer tokens does to it; [TokenSteps.v] has the theorems. *)

From S2P Require Import Prelude BlockPool ImplicitProducer BlockIndex ProducerFifo ProducerHash Producers ExplicitProducer ExplicitFifo ExplicitBulk ExplicitQueue Tokens TokenQueue.

(** ** A queue and its tokens *)

(** Producer tokens by address, consumer tokens by name. *)
Record tsys (A : Type) := TSys {
  ts_queue : tqueue A; ts_tokens : gmap Z (option nat); ts_consumers : gmap nat ConsumerToken }.
Arguments TSys {A} _ _ _.
Arguments ts_queue {A} _.
Arguments ts_tokens {A} _.
Arguments ts_consumers {A} _.

Inductive token_op (A : Type) :=
  | NewToken (t : Z) | MoveToken (t other : Z) | SwapTokens (t other : Z) | DestroyToken (t : Z)
  | TokenEnqueue (canAlloc : bool) (t : Z) (x : A) | TokenDequeue (t : Z) | TokenDequeueBulk (t max : Z)
  | NewConsumer (i : nat) | SwapConsumers (i j : nat) | ConsumerDequeue (i : nat) | ConsumerDequeueBulk (i : nat) (max : Z)
  | TokenEnqueueBulk (t : Z) (xs : list A) | MoveConsumer (i j : nat)
  | ThreadProducer | ThreadEnqueue (canAlloc : bool) (k : nat) (x : A) | ThreadEnqueueBulk (canAlloc : bool) (k : nat) (xs : list A).
Arguments NewToken {A} _.
Arguments MoveToken {A} _ _.
Arguments SwapTokens {A} _ _.
Arguments DestroyToken {A} _.
Arguments TokenEnqueue {A} _ _ _.
Arguments TokenDequeue {A} _.
Arguments TokenDequeueBulk {A} _ _.
Arguments NewConsumer {A} _.
Arguments SwapConsumers {A} _ _.
Arguments ConsumerDequeue {A} _.
Arguments ConsumerDequeueBulk {A} _ _.
Arguments ThreadProducer {A}.
Arguments ThreadEnqueue {A} _ _ _.
Arguments TokenEnqueueBulk {A} _ _.
Arguments MoveConsumer {A} _ _.
Arguments ThreadEnqueueBulk {A} _ _ _.

Inductive token_answer (A : Type) := Ready | Accepted (ok : bool) | Taken (xs : list A).
Arguments Ready {A}.
Arguments Accepted {A} _.
Arguments Taken {A} _.

Section system.
Context {A : Type} (junk : Z).
Implicit Types (s : tsys A) (op : token_op A) (q : tqueue A) (its : list (list A)).

(** The enqueues of a thread without a token that has found its producer. *)
Definition implicit_enqueue (canAlloc : bool) (x : A) (po : pool A) (p : any_producer) : run (bool * pool A * any_producer) :=
  match p with
  | Implicit p => '(ok, po, p) ← ip_enqueue junk canAlloc x po p; mret (ok, po, Implicit p)
  | Explicit _ => Undefined
  end.
Definition implicit_enqueue_bulk (canAlloc : bool) (xs : list A) (po : pool A) (p : any_producer) : run (bool * pool A * any_producer) :=
  match p with
  | Implicit p => '(ok, po, p) ← ip_enqueue_bulk junk canAlloc xs po p; mret (ok, po, Implicit p)
  | Explicit _ => Undefined
  end.

Definition token_do op s : run (token_answer A * tsys A) :=
  let 'TSys q ts cs := s in
  match op with
  | NewToken t => '(ts, q) ← ProducerToken_new junk t ts q; mret (Ready, TSys q ts cs)
  | MoveToken t other => '(ts, q) ← ProducerToken_move t other ts q; mret (Ready, TSys q ts cs)
  | SwapTokens t other => '(ts, q) ← ProducerToken_swap t other ts q; mret (Ready, TSys q ts cs)
  | DestroyToken t => '(ts, q) ← ProducerToken_destroy t ts q; mret (Ready, TSys q ts cs)
  | TokenEnqueue canAlloc t x => '(ok, q) ← inner_enqueue_token canAlloc t x ts q; mret (Accepted ok, TSys q ts cs)
  | TokenDequeue t => '(r, q) ← try_dequeue_from_producer t ts q; mret (Taken (option_list r), TSys q ts cs)
  | TokenDequeueBulk t max => '(xs, q) ← try_dequeue_bulk_from_producer t max ts q; mret (Taken xs, TSys q ts cs)
  | NewConsumer i => let '(c, q) := ConsumerToken_new q in mret (Ready, TSys q ts (<[i := c]> cs))
  | SwapConsumers i j =>
      c ← deref (cs !! i); other ← deref (cs !! j);
      let '(c, other) := ConsumerToken_swap c other in mret (Ready, TSys q ts (<[j := other]> (<[i := c]> cs)))
  | ConsumerDequeue i =>
      c ← deref (cs !! i); '(r, c, q) ← try_dequeue_token c q; mret (Taken (option_list r), TSys q ts (<[i := c]> cs))
  | ConsumerDequeueBulk i max =>
      c ← deref (cs !! i); '(xs, c, q) ← try_dequeue_bulk_token max c q; mret (Taken xs, TSys q ts (<[i := c]> cs))
  | ThreadProducer => '(_, q) ← recycle_or_create junk false q; mret (Ready, TSys q ts cs)
  | ThreadEnqueue canAlloc k x => '(ok, q) ← at_prod k (implicit_enqueue canAlloc x) q; mret (Accepted ok, TSys q ts cs)
  | ThreadEnqueueBulk canAlloc k xs => '(ok, q) ← at_prod k (implicit_enqueue_bulk canAlloc xs) q; mret (Accepted ok, TSys q ts cs)
  | TokenEnqueueBulk t xs => '(ok, q) ← inner_enqueue_bulk_token true t xs ts q; mret (Accepted ok, TSys q ts cs)
  | MoveConsumer i j =>
      other ← deref (cs !! j);
      let '(c, other) := ConsumerToken_move other in mret (Ready, TSys q ts (<[j := other]> (<[i := c]> cs)))
  end.

(** Blocks and the initial array fit the address space. *)
Definition addresses_left q : Prop := po_brk (tq_pool q) <= 2 ^ 58 /\ po_initialBlockPoolSize (tq_pool q) <= 2 ^ 58.
Definition producers_left q : Prop := Z.of_nat (length (tq_producers q)) + 1 < 2 ^ 32.
Definition valid (ts : gmap Z (option nat)) (t : Z) : Prop := exists k, ts !! t = Some (Some k).

(** The producer of a token, and whether it can hold [n] more. *)
Definition token_producer (ts : gmap Z (option nat)) (t : Z) q : option ExplicitProducer :=
  k ← mjoin (ts !! t); b ← tq_producers q !! k; match pb_producer b with Explicit p => Some p | Implicit _ => None end.
Definition room_left (ts : gmap Z (option nat)) (t n : Z) q : bool :=
  match token_producer ts t q with
  | Some p => u64 (ep_tailIndex p - ep_headIndex p) + n + 64 <? 2 ^ 63
  | None => false
  end.

(** The operations considered: tokens exist and, to be used, are valid; a new one has
    an address of its own.  Narrower than the documentation, which lets a bulk enqueue
    through a token fail: here it is called only where it cannot, because one that does
    leaves the order of the elements undetermined. *)
Definition may op s : Prop :=
  let 'TSys q ts cs := s in
  match op with
  | NewToken t => t <> 0 /\ ts !! t = None /\ addresses_left q /\ producers_left q
  | MoveToken t other => t <> 0 /\ ts !! t = None /\ is_Some (ts !! other)
  | SwapTokens t other => is_Some (ts !! t) /\ is_Some (ts !! other)
  | DestroyToken t => is_Some (ts !! t)
  | TokenEnqueue _ t _ => valid ts t /\ addresses_left q
  | TokenDequeue t => valid ts t
  | TokenDequeueBulk t max => valid ts t /\ 0 <= max < 2 ^ 64
  | NewConsumer i => cs !! i = None
  | SwapConsumers i j => is_Some (cs !! i) /\ is_Some (cs !! j)
  | ConsumerDequeue i => is_Some (cs !! i)
  | ConsumerDequeueBulk i max => is_Some (cs !! i) /\ 0 <= max < 2 ^ 64
  | ThreadProducer => addresses_left q /\ producers_left q
  | TokenEnqueueBulk t xs =>
      valid ts t /\ addresses_left q /\ po_mallocs (tq_pool q) = [] /\ room_left ts t (Z.of_nat (length xs)) q = true
  | MoveConsumer i j => cs !! i = None /\ is_Some (cs !! j)
  | ThreadEnqueue _ k _ => exists b, tq_producers q !! k = Some b /\ isExplicit (pb_producer b) = false
  | ThreadEnqueueBulk _ k xs =>
      (exists b, tq_producers q !! k = Some b /\ isExplicit (pb_producer b) = false) /\ Z.of_nat (length xs) < 2 ^ 63
  end.

#[export] Instance valid_dec ts t : Decision (valid ts t).
Proof. destruct (ts !! t) as [[k|]|] eqn:E; [left; by exists k|right; intros [k Hk]; congruence..]. Defined.
#[export] Instance implicit_dec q k : Decision (exists b, tq_producers q !! k = Some b /\ isExplicit (pb_producer b) = false).
Proof.
  destruct (tq_producers q !! k) as [b|]; [|right; by intros (? & ? & _)]; destruct (isExplicit (pb_producer b)) eqn:E.
  - right; intros (b' & ? & ?); simplify_eq; congruence.
  - left; by exists b.
Defined.
#[export] Instance may_dec op s : Decision (may op s).
Proof. destruct s, op; cbn; unfold addresses_left, producers_left; apply _. Defined.

Inductive token_step s : tsys A -> Prop :=
  | TokenStep op r s' : may op s -> token_do op s = Done (r, s') -> token_step s s'.

Definition new_tsys (self capacity brk : Z) (ms : list bool) : tsys A := TSys (new_tqueue self capacity brk ms) ∅ ∅.
Definition token_reachable (self capacity brk : Z) (ms : list bool) : tsys A -> Prop := rtc token_step (new_tsys self capacity brk ms).

(** Operations in turn, as far as they are allowed and return. *)
Fixpoint token_run ops s : tsys A :=
  match ops with
  | [] => s
  | op :: ops =>
      if decide (may op s) then match token_do op s with Done (_, s) => token_run ops s | _ => s end else s
  end.

(** ** The specification *)

(** Through the token [t], a list becomes another. *)
Definition through (ts : gmap Z (option nat)) (t : Z) its its' (f : list A -> list A -> Prop) : Prop :=
  exists k items items', ts !! t = Some (Some k) /\ its !! k = Some items /\ its' = <[k := items']> its /\ f items items'.

(** The producer of a new token: one that no token has, or a new one. *)
Definition unowned (ts : gmap Z (option nat)) its its' (producer : option nat) : Prop :=
  match producer with
  | None => its' = its
  | Some k => (forall t, ts !! t <> Some (Some k)) /\
      (its' = its /\ (k < length its)%nat \/ k = length its /\ its' = its ++ [[]])
  end.

(** [sure]: no allocation fails. *)
Definition token_spec (sure : Prop) op (r : token_answer A) its ts its' ts' : Prop :=
  match op, r with
  | NewToken t, Ready =>
      exists producer, ts' = <[t := producer]> ts /\ unowned ts its its' producer /\ (sure -> producer <> None)
  | MoveToken t other, Ready =>
      its' = its /\ exists producer, ts !! other = Some producer /\ ts' = <[t := producer]> (<[other := None]> ts)
  | SwapTokens t other, Ready =>
      its' = its /\ exists mine theirs, ts !! t = Some mine /\ ts !! other = Some theirs /\
        ts' = <[other := mine]> (<[t := theirs]> ts)
  | DestroyToken t, Ready => its' = its /\ ts' = delete t ts
  | TokenEnqueue canAlloc t x, Accepted ok =>
      ts' = ts /\ through ts t its its' (fun items items' =>
        items' = (if ok then items ++ [x] else items) /\ (sure -> canAlloc = true -> room items 0 -> ok = true))
  | TokenDequeue t, Taken xs =>
      ts' = ts /\ through ts t its its' (fun items items' => xs = option_list (head items) /\ items' = tail items)
  | TokenDequeueBulk t max, Taken xs =>
      ts' = ts /\ through ts t its its' (fun items items' => xs = take (Z.to_nat max) items /\ items' = drop (Z.to_nat max) items)
  | NewConsumer _, Ready | SwapConsumers _ _, Ready | MoveConsumer _ _, Ready => ts' = ts /\ its' = its
  | ConsumerDequeue _, Taken xs =>
      ts' = ts /\ match xs with
                  | [] => concat its = [] /\ its' = its
                  | x :: xs => xs = [] /\ exists i l, took its x i l /\ its' = <[i := l]> its
                  end
  | ConsumerDequeueBulk _ max, Taken xs => ts' = ts /\ bulk_result max its xs its'
  | ThreadProducer, Ready => ts' = ts /\ (its' = its \/ its' = its ++ [[]])
  | ThreadEnqueue _ k x, Accepted ok =>
      ts' = ts /\ exists items, its !! k = Some items /\ its' = <[k := if (ok : bool) then items ++ [x] else items]> its
  | ThreadEnqueueBulk _ k xs, Accepted ok =>
      ts' = ts /\ exists items, its !! k = Some items /\ its' = <[k := if (ok : bool) then items ++ xs else items]> its
  | TokenEnqueueBulk t xs, Accepted ok => ok = true /\ ts' = ts /\ through ts t its its' (fun items items' => items' = items ++ xs)
  | _, _ => False
  end.

(** ** The invariant *)

(** A valid token and its explicit producer point to each other; an inactive producer
    has no token; nor has an implicit one, or one that does not exist. *)
Definition owner_ok (ts : gmap Z (option nat)) (k : nat) (o : option ProducerBase) : Prop :=
  match o with
  | Some b =>
      if isExplicit (pb_producer b) then
        (forall t, ts !! t = Some (Some k) <-> pb_inactive b = false /\ pb_token b = t) /\ (pb_inactive b = true -> pb_token b = 0)
      else (forall t, ts !! t <> Some (Some k)) /\ pb_inactive b = false /\ pb_token b = 0
  | None => forall t, ts !! t <> Some (Some k)
  end.
Record tokens_ok (ts : gmap Z (option nat)) (ps : list ProducerBase) : Prop := {
  tk_null : ts !! 0 = None; tk_owner : forall k, owner_ok ts k (ps !! k) }.

Record tsys_ok s its : Prop := {
  sy_queue : tq_ok (ts_queue s) its;
  sy_tokens : tokens_ok (ts_tokens s) (tq_producers (ts_queue s));
  sy_consumers : forall i c, ts_consumers s !! i = Some c -> ct_ok (length its) c }.
End system.

(** ** Tokens and producers *)

Section tokens.
Implicit Types (ts : gmap Z (option nat)) (ps : list ProducerBase) (b : ProducerBase).

Lemma tokens_owner ts ps t k :
  tokens_ok ts ps -> ts !! t = Some (Some k) ->
  exists b, ps !! k = Some b /\ isExplicit (pb_producer b) = true /\ pb_inactive b = false /\ pb_token b = t.
Proof.
  intros [_ Ho] Ht; specialize (Ho k); destruct (ps !! k) as [b|]; cbn in Ho; [|by destruct (Ho t)]; exists b.
  destruct (isExplicit (pb_producer b)); [|by destruct Ho as [Hn _]; destruct (Hn t)].
  by destruct Ho as [Ho _]; apply Ho in Ht as [? ?].
Qed.

Lemma owner_ext ts ts' k o : (forall t, ts' !! t = Some (Some k) <-> ts !! t = Some (Some k)) -> owner_ok ts k o -> owner_ok ts' k o.
Proof.
  intros He; destruct o as [b|]; cbn; [destruct (isExplicit (pb_producer b))|].
  - intros [Ho Hi]; split; [|done]; intros t; by rewrite He.
  - intros [Ho Hi]; split; [|done]; intros t; by rewrite He.
  - intros Ho t; by rewrite He.
Qed.
Lemma owner_same ts k b b' : same_tags b b' -> owner_ok ts k (Some b) -> owner_ok ts k (Some b').
Proof. intros (E1 & E2 & E3 & _); cbn; by rewrite E1, E2, E3. Qed.

(** An operation on the contents. *)
Lemma tokens_same ts ps ps' : Forall2 same_tags ps ps' -> tokens_ok ts ps -> tokens_ok ts ps'.
Proof.
  intros Hf [Hz Ho]; split; [done|]; intros k; specialize (Ho k); destruct (ps' !! k) as [b'|] eqn:E'.
  - destruct (Forall2_lookup_r _ _ _ _ _ Hf E') as (b & E & Hs); rewrite E in Ho; by eapply owner_same.
  - apply lookup_ge_None in E'; rewrite <- (Forall2_length _ _ _ Hf) in E'; by rewrite (proj2 (lookup_ge_None ps k) E') in Ho.
Qed.

(** A token without a producer. *)
Lemma tokens_null ts ps t : tokens_ok ts ps -> ts !! t = None -> t <> 0 -> tokens_ok (<[t := None]> ts) ps.
Proof.
  intros [Hz Ho] Ht Hne; split; [by rewrite lookup_insert_ne|]; intros k; eapply owner_ext; [|exact (Ho k)].
  intros u; destruct (decide (u = t)) as [->|]; [rewrite lookup_insert_eq, Ht; split; done|by rewrite lookup_insert_ne].
Qed.

(** A token gets a producer that no token has. *)
Lemma tokens_own ts ps ps' t k b' :
  tokens_ok ts ps -> ts !! t = None -> t <> 0 -> (forall u, ts !! u <> Some (Some k)) ->
  ps' !! k = Some b' -> isExplicit (pb_producer b') = true -> pb_inactive b' = false -> pb_token b' = t ->
  (forall j, j <> k -> ps' !! j = ps !! j) -> tokens_ok (<[t := Some k]> ts) ps'.
Proof.
  intros [Hz Ho] Ht Hne Hun Hb He Hi Hto Hps; split; [by rewrite lookup_insert_ne|]; intros j.
  destruct (decide (j = k)) as [->|Hj].
  - rewrite Hb; cbn; rewrite He, Hi, Hto; split; [|done]; intros u; destruct (decide (u = t)) as [->|Hu].
    + by rewrite lookup_insert_eq.
    + rewrite lookup_insert_ne by done; split; [intros E; by destruct (Hun u)|intros [_ ?]; congruence].
  - rewrite Hps by done; eapply owner_ext; [|exact (Ho j)]; intros u; destruct (decide (u = t)) as [->|Hu].
    + rewrite lookup_insert_eq, Ht; split; congruence.
    + by rewrite lookup_insert_ne.
Qed.

(** Two tokens change places. *)
Definition swap_addr (t other u : Z) : Z := if decide (u = t) then other else if decide (u = other) then t else u.

Lemma swap_addr_inv t other u v : swap_addr t other u = v <-> u = swap_addr t other v.
Proof. unfold swap_addr; repeat case_decide; split; intros; congruence. Qed.

Lemma tokens_rename ts ts' ps ps' t other :
  tokens_ok ts ps -> ts' !! 0 = None -> (forall u k, ts' !! u = Some (Some k) <-> ts !! swap_addr t other u = Some (Some k)) ->
  (forall k, ps' !! k = (fun b => if isExplicit (pb_producer b) && negb (pb_inactive b)
                                  then set_pb_token (swap_addr t other (pb_token b)) b else b) <$> ps !! k) -> tokens_ok ts' ps'.
Proof.
  intros [Hz Ho] Hz' Hts Hps; split; [done|]; intros k; rewrite Hps; specialize (Ho k); destruct (ps !! k) as [b|]; cbn in *.
  - destruct (isExplicit (pb_producer b)) eqn:Ee; cbn.
    + destruct Ho as [Ho Hin]; destruct (pb_inactive b) eqn:Ei; cbn; rewrite Ee, ?Ei.
      * split; [|done]; intros u; rewrite Hts, Ho; split; by intros [? _].
      * split; [|done]; intros u; rewrite Hts, Ho, swap_addr_inv; split; intros [_ E]; split; done.
    + rewrite Ee; destruct Ho as [Ho ?]; split; [|done]; intros u; by rewrite Hts.
  - intros u; by rewrite Hts.
Qed.
End tokens.

(** ** Operations on producer tokens *)

Section producer_tokens.
Context {A : Type} (junk : Z).
Implicit Types (q : tqueue A) (its : list (list A)) (ts : gmap Z (option nat)).

Lemma retag_ok q its ps : tq_ok q its -> map pb_producer ps = map pb_producer (tq_producers q) -> tq_ok (set_tq_producers ps q) its.
Proof. intros [[pss Hp] Hc Hs] E; split; cbn; [exists pss; by rewrite E|done|done]. Qed.
Lemma map_producer_insert (ps : list ProducerBase) k b b' :
  ps !! k = Some b -> pb_producer b' = pb_producer b -> map pb_producer (<[k := b']> ps) = map pb_producer ps.
Proof.
  intros Hb E; change (map ?g ?l) with (g <$> l); rewrite list_fmap_insert; apply list_insert_id.
  by rewrite list_lookup_fmap, Hb, E.
Qed.

Lemma update_prod_ok k (f : ProducerBase -> ProducerBase) q its b :
  tq_ok q its -> tq_producers q !! k = Some b -> pb_producer (f b) = pb_producer b ->
  exists q', update_prod k f q = Done q' /\ tq_ok q' its /\ tq_producers q' = <[k := f b]> (tq_producers q).
Proof.
  intros Hok Hb E; unfold update_prod; rewrite Hb; cbn [deref]; rewrite bind_Done; eexists; split; [reflexivity|]; split; [|done].
  apply retag_ok; [done|by apply (map_producer_insert _ _ b)].
Qed.

Lemma point_back_ok producer t q its :
  tq_ok q its -> (forall k, producer = Some k -> is_Some (tq_producers q !! k)) ->
  exists q', point_back producer t q = Done q' /\ tq_ok q' its /\
    forall k, tq_producers q' !! k = (fun b => if bool_decide (producer = Some k) then set_pb_token t b else b) <$> tq_producers q !! k.
Proof.
  intros Hok Hp; destruct producer as [k|]; cbn [point_back].
  - destruct (Hp k eq_refl) as [b Hb]; destruct (update_prod_ok k (set_pb_token t) q its b Hok Hb eq_refl) as (q' & -> & Hok' & E).
    exists q'; split; [done|]; split; [done|]; intros j; rewrite E; destruct (decide (k = j)) as [<-|Hne].
    + rewrite bool_decide_eq_true_2, Hb by done; apply list_lookup_insert_eq; by eapply lookup_lt_Some.
    + rewrite bool_decide_eq_false_2, list_lookup_insert_ne by congruence; by destruct (_ !! j).
  - exists q; split; [done|]; split; [done|]; intros j; rewrite bool_decide_eq_false_2 by done; by destruct (_ !! j).
Qed.

(** Where a producer in use has its token. *)
Lemma owner_token ts ps k b :
  tokens_ok ts ps -> ps !! k = Some b -> isExplicit (pb_producer b) && negb (pb_inactive b) = true -> ts !! pb_token b = Some (Some k).
Proof.
  intros [_ Ho] Hb [He Hi]%andb_true_iff; specialize (Ho k); rewrite Hb in Ho; cbn in Ho; rewrite He in Ho; destruct Ho as [Ho _].
  apply Ho; by rewrite negb_true_iff in Hi.
Qed.
Lemma set_pb_token_id b : set_pb_token (pb_token b) b = b.
Proof. by destruct b. Qed.
Lemma owner_some ts (ps : list ProducerBase) t producer k :
  tokens_ok ts ps -> ts !! t = Some producer -> producer = Some k -> is_Some (ps !! k).
Proof. intros Hto Ht ->; destruct (tokens_owner _ _ _ _ Hto Ht) as (b & Hb & _); by exists b. Qed.
(** A producer in use is that of its token and of no other. *)
Lemma owner_unique ts ps k b t producer :
  tokens_ok ts ps -> ps !! k = Some b -> ts !! t = Some producer ->
  (producer = Some k <-> isExplicit (pb_producer b) && negb (pb_inactive b) = true /\ pb_token b = t).
Proof.
  intros Hto Hb Ht; split.
  - intros ->; destruct (tokens_owner _ _ _ _ Hto Ht) as (b' & Hb' & He & Hi & Htk); simplify_eq; by rewrite He, Hi.
  - intros [Hact <-]; rewrite (owner_token _ _ _ _ Hto Hb Hact) in Ht; by injection Ht.
Qed.

Lemma move_ok t other ts q its :
  tq_ok q its -> tokens_ok ts (tq_producers q) -> t <> 0 -> ts !! t = None -> is_Some (ts !! other) ->
  exists producer q', ts !! other = Some producer /\
    ProducerToken_move t other ts q = Done (<[t := producer]> (<[other := None]> ts), q') /\ tq_ok q' its /\
    tokens_ok (<[t := producer]> (<[other := None]> ts)) (tq_producers q').
Proof.
  intros Hok Hto Hne Ht [producer Hot]; exists producer; unfold ProducerToken_move; rewrite Hot; cbn [deref]; rewrite bind_Done.
  destruct (point_back_ok producer t q its Hok) as (q' & -> & Hok' & Hps'); [intros k; by apply (owner_some _ _ _ _ _ Hto Hot)|].
  rewrite bind_Done; exists q'; split; [done|]; split; [done|]; split; [done|].
  assert (t <> other) by congruence; assert (other <> 0) by (intros ->; by rewrite (tk_null _ _ Hto) in Hot).
  apply (tokens_rename ts _ (tq_producers q) _ t other); [done|by rewrite !lookup_insert_ne, (tk_null _ _ Hto)| |].
  - intros u k; unfold swap_addr; destruct (decide (u = t)) as [->|]; [by rewrite lookup_insert_eq, Hot|].
    rewrite lookup_insert_ne by done; destruct (decide (u = other)) as [->|]; [by rewrite lookup_insert_eq, Ht|by rewrite lookup_insert_ne].
  - intros k; rewrite Hps'; destruct (tq_producers q !! k) as [b|] eqn:Hb; cbn; [|done]; f_equal.
    pose proof (owner_unique _ _ _ _ _ _ Hto Hb Hot) as Hu; destruct (_ && _) eqn:Eact.
    + unfold swap_addr; pose proof (owner_token _ _ _ _ Hto Hb Eact) as Hown; rewrite decide_False by congruence; case_decide.
      * rewrite (bool_decide_eq_true_2 (producer = Some k)); [done|by apply Hu].
      * rewrite (bool_decide_eq_false_2 (producer = Some k)); [by rewrite set_pb_token_id|by intros [_ ?]%Hu].
    + rewrite (bool_decide_eq_false_2 (producer = Some k)); [done|by intros [? _]%Hu].
Qed.

Lemma swap_ok t other ts q its :
  tq_ok q its -> tokens_ok ts (tq_producers q) -> is_Some (ts !! t) -> is_Some (ts !! other) ->
  exists mine theirs q', ts !! t = Some mine /\ ts !! other = Some theirs /\
    ProducerToken_swap t other ts q = Done (<[other := mine]> (<[t := theirs]> ts), q') /\ tq_ok q' its /\
    tokens_ok (<[other := mine]> (<[t := theirs]> ts)) (tq_producers q').
Proof.
  intros Hok Hto [mine Ht] [theirs Hot]; exists mine, theirs; unfold ProducerToken_swap; rewrite Ht; cbn [deref]; rewrite bind_Done, Hot; cbn [deref]; rewrite bind_Done.
  destruct (point_back_ok theirs t q its Hok) as (q1 & -> & Hok1 & Hps1); [intros k; by apply (owner_some _ _ _ _ _ Hto Hot)|].
  rewrite bind_Done; destruct (point_back_ok mine other q1 its Hok1) as (q2 & -> & Hok2 & Hps2).
  { intros k Hk; rewrite Hps1; by destruct (owner_some _ _ _ _ _ Hto Ht Hk) as [b ->]. }
  rewrite bind_Done; exists q2; split; [done|]; split; [done|]; split; [done|]; split; [done|].
  assert (t <> 0 /\ other <> 0) as [Hz1 Hz2] by (split; intros ->; by rewrite (tk_null _ _ Hto) in *).
  apply (tokens_rename ts _ (tq_producers q) _ t other); [done|by rewrite !lookup_insert_ne, (tk_null _ _ Hto)| |].
  - intros u k; unfold swap_addr; destruct (decide (u = other)) as [->|].
    + rewrite lookup_insert_eq; case_decide; [simplify_eq; by rewrite Ht|by rewrite Ht].
    + rewrite lookup_insert_ne by done; destruct (decide (u = t)) as [->|]; [by rewrite lookup_insert_eq, Hot|by rewrite lookup_insert_ne].
  - intros k; rewrite Hps2, Hps1; destruct (tq_producers q !! k) as [b|] eqn:Hb; cbn; [|done]; f_equal.
    pose proof (owner_unique _ _ _ _ _ _ Hto Hb Ht) as Hm; pose proof (owner_unique _ _ _ _ _ _ Hto Hb Hot) as Hu; destruct (_ && _) eqn:Eact.
    + unfold swap_addr; destruct (decide (pb_token b = t)) as [Et|Et]; [|destruct (decide (pb_token b = other)) as [Eo|Eo]].
      * rewrite (bool_decide_eq_true_2 (mine = Some k)) by (by apply Hm); by destruct (bool_decide _).
      * rewrite (bool_decide_eq_true_2 (theirs = Some k)) by (by apply Hu); rewrite (bool_decide_eq_false_2 (mine = Some k)); [done|by intros [_ ?]%Hm].
      * rewrite (bool_decide_eq_false_2 (theirs = Some k)) by (by intros [_ ?]%Hu); rewrite (bool_decide_eq_false_2 (mine = Some k)) by (by intros [_ ?]%Hm).
        by rewrite set_pb_token_id.
    + rewrite (bool_decide_eq_false_2 (theirs = Some k)) by (by intros [? _]%Hu); by rewrite (bool_decide_eq_false_2 (mine = Some k)) by (by intros [? _]%Hm).
Qed.

Lemma destroy_ok t ts q its :
  tq_ok q its -> tokens_ok ts (tq_producers q) -> is_Some (ts !! t) ->
  exists q', ProducerToken_destroy t ts q = Done (delete t ts, q') /\ tq_ok q' its /\ tokens_ok (delete t ts) (tq_producers q').
Proof.
  intros Hok Hto [producer Ht]; unfold ProducerToken_destroy; rewrite Ht; cbn [deref]; rewrite bind_Done.
  assert (forall k, producer <> Some k -> forall u, delete t ts !! u = Some (Some k) <-> ts !! u = Some (Some k)) as Hext.
  { intros k Hk u; destruct (decide (u = t)) as [->|]; [rewrite lookup_delete_eq, Ht; split; congruence|by rewrite lookup_delete_ne]. }
  assert (delete t ts !! 0 = None) as Hz.
  { apply lookup_delete_None; right; by apply (tk_null _ _ Hto). }
  destruct producer as [k|].
  2:{ rewrite bind_Done; exists q; split; [done|]; split; [done|]; split; [done|]; intros k; eapply owner_ext; [by apply Hext|apply Hto]. }
  destruct (tokens_owner _ _ _ _ Hto Ht) as (b & Hb & He & Hi & Htk).
  destruct (update_prod_ok k (set_pb_token 0) q its b Hok Hb eq_refl) as (q1 & -> & Hok1 & E1); rewrite bind_Done.
  assert (tq_producers q1 !! k = Some (set_pb_token 0 b)) as Hb1 by (rewrite E1; apply list_lookup_insert_eq; by eapply lookup_lt_Some).
  destruct (update_prod_ok k (set_pb_inactive true) q1 its _ Hok1 Hb1 eq_refl) as (q2 & -> & Hok2 & E2); rewrite bind_Done.
  exists q2; split; [done|]; split; [done|]; split; [done|]; intros j; rewrite E2, E1, list_insert_insert_eq; destruct (decide (k = j)) as [<-|Hne].
  - rewrite list_lookup_insert_eq by (by eapply lookup_lt_Some); cbn; rewrite He; split; [|done]; intros u; split; [|by intros [? _]].
    intros Hu; destruct (decide (u = t)) as [->|Hut]; [by rewrite lookup_delete_eq in Hu|]; rewrite lookup_delete_ne in Hu by done.
    destruct (tokens_owner _ _ _ _ Hto Hu) as (b' & Hb' & _ & _ & <-); congruence.
  - rewrite list_lookup_insert_ne by done; eapply owner_ext; [apply Hext; congruence|apply Hto].
Qed.

Lemma find_inactive_ok explicit n (ps : list ProducerBase) k :
  find_inactive explicit n ps = Some k ->
  exists b, ps !! k = Some b /\ pb_inactive b = true /\ isExplicit (pb_producer b) = explicit.
Proof.
  induction n as [|n IH]; cbn; [done|]; destruct (ps !! n) as [b|] eqn:Hb; [|done]; destruct (_ && _) eqn:E; [|done].
  intros [= <-]; apply andb_true_iff in E as [Hi He%eqb_prop]; by exists b.
Qed.

Lemma new_any_ok explicit (po : pool A) free others :
  pool_inv po free others -> po_initialBlockPoolSize po <= 2 ^ 58 ->
  exists po' p, new_any junk explicit po = Done (po', p) /\ any_holds po' p [] [] others /\ keeps others po po' /\
    isExplicit p = explicit.
Proof.
  intros Hp Hs; destruct explicit; cbn [new_any].
  - destruct (new_explicit_producer_ok po free others Hp Hs) as (po' & p & -> & Hf & Hk & _); rewrite bind_Done.
    exists po', (Explicit p); split_all; try done; by exists 0, 0.
  - destruct (new_producer_ok junk po free others Hp) as (po' & p & -> & Hh & Hk & _); rewrite bind_Done; by exists po', (Implicit p).
Qed.

Lemma recycle_ok explicit q its :
  tq_ok q its -> addresses_left q -> producers_left q ->
  exists r q', recycle_or_create junk explicit q = Done (r, q') /\ (po_mallocs (tq_pool q) = [] -> r <> None) /\
    match r with
    | None => tq_ok q' its /\ tq_producers q' = tq_producers q
    | Some (k, true) => tq_ok q' its /\ exists b, tq_producers q !! k = Some b /\ pb_inactive b = true /\
        isExplicit (pb_producer b) = explicit /\ tq_producers q' = <[k := set_pb_inactive false b]> (tq_producers q)
    | Some (k, false) => k = length its /\ tq_ok q' (its ++ [[]]) /\ exists b, isExplicit (pb_producer b) = explicit /\
        pb_inactive b = false /\ pb_token b = 0 /\ tq_producers q' = tq_producers q ++ [b]
    end.
Proof.
  intros Hok [_ Hsz] Hleft; unfold recycle_or_create; destruct (find_inactive _ _ _) as [k|] eqn:Ef.
  { destruct (find_inactive_ok _ _ _ _ Ef) as (b & Hb & Hi & He).
    destruct (update_prod_ok k (set_pb_inactive false) q its b Hok Hb eq_refl) as (q' & -> & Hok' & E); rewrite bind_Done.
    exists (Some (k, true)), q'; split_all; try done; by exists b. }
  pose proof (tq_length _ _ Hok) as Hlen; destruct Hok as [[pss Hpk%producers_malloc] Hc Hs]; unfold producers_left in Hleft; rewrite Hlen in Hleft.
  unfold malloc_ok in *; cbn [snd] in *; destruct (default true (head (po_mallocs (tq_pool q)))) eqn:Em; cbn [negb].
  2:{ exists None; eexists; split; [done|]; split; [intros E; by rewrite E in Em|]; split; [|done]; split; [by exists pss|done|done]. }
  pose proof Hpk as [_ _ _ (free & Hp)]; destruct (new_any_ok explicit _ free _ Hp Hsz) as (po' & p & E & Hh & Hk & He).
  cbn [tq_pool set_tq_pool]; rewrite E, bind_Done; eexists (Some (_, false)), _; split; [reflexivity|]; split; [done|]; cbn.
  split; [done|]; split; [|eexists; split; [|split; [|split; [|done]]]; done].
  split; cbn; rewrite ?length_app; cbn [length]; [|rewrite Hc, wrap_small by (unfold in_u; lia); lia|lia].
  exists (pss ++ [[]]); rewrite map_app; by eapply producers_snoc.
Qed.

Lemma insert_snoc {B} (l : list B) x y : <[length l := y]> (l ++ [x]) = l ++ [y].
Proof. by rewrite insert_app_r_alt, Nat.sub_diag by lia. Qed.

Lemma new_token_ok t ts q its :
  tq_ok q its -> tokens_ok ts (tq_producers q) -> t <> 0 -> ts !! t = None -> addresses_left q -> producers_left q ->
  exists producer q' its', ProducerToken_new junk t ts q = Done (<[t := producer]> ts, q') /\ tq_ok q' its' /\
    tokens_ok (<[t := producer]> ts) (tq_producers q') /\ unowned ts its its' producer /\
    (po_mallocs (tq_pool q) = [] -> producer <> None).
Proof.
  intros Hok Hto Hne Ht Ha Hl; pose proof (tq_length _ _ Hok) as Hlen; unfold ProducerToken_new.
  destruct (recycle_ok true q its Hok Ha Hl) as ([[k [|]]|] & q1 & -> & Hsure & Hres); rewrite bind_Done; cbn [fmap option_fmap option_map fst point_back].
  - destruct Hres as (Hok1 & b & Hb & Hi & He & E1); pose proof (lookup_lt_Some _ _ _ Hb) as Hlt.
    assert (tq_producers q1 !! k = Some (set_pb_inactive false b)) as Hb1 by (rewrite E1; by apply list_lookup_insert_eq).
    destruct (update_prod_ok k (set_pb_token t) q1 its _ Hok1 Hb1 eq_refl) as (q2 & -> & Hok2 & E2); rewrite bind_Done.
    assert (forall u, ts !! u <> Some (Some k)) as Hun.
    { intros u Hu; destruct (tokens_owner _ _ _ _ Hto Hu) as (b' & Hb' & _ & Hi' & _); congruence. }
    exists (Some k), q2, its; split; [done|]; split; [done|]; split; [|split; [split; [done|left; split; [done|lia]]|done]].
    apply (tokens_own ts (tq_producers q) _ t k (set_pb_token t (set_pb_inactive false b))); try done.
    + rewrite E2; apply list_lookup_insert_eq; rewrite E1, length_insert; done.
    + intros j Hj; by rewrite E2, E1, !list_lookup_insert_ne.
  - destruct Hres as (-> & Hok1 & b & He & Hi & Htk & E1).
    assert (tq_producers q1 !! length its = Some b) as Hb1 by (rewrite E1, <- Hlen; by apply list_lookup_middle).
    destruct (update_prod_ok _ (set_pb_token t) q1 _ _ Hok1 Hb1 eq_refl) as (q2 & -> & Hok2 & E2); rewrite bind_Done.
    assert (forall u, ts !! u <> Some (Some (length its))) as Hun.
    { intros u Hu; destruct (tokens_owner _ _ _ _ Hto Hu) as (b' & Hb' & _); apply lookup_lt_Some in Hb'; lia. }
    exists (Some (length its)), q2, (its ++ [[]]); split; [done|]; split; [done|]; split; [|split; [split; [done|by right]|done]].
    rewrite E1, <- Hlen, insert_snoc in E2.
    apply (tokens_own ts (tq_producers q) _ t _ (set_pb_token t b)); try done.
    + rewrite E2; by apply list_lookup_middle.
    + intros j Hj; rewrite E2; destruct (decide (j < length (tq_producers q))%nat); [by rewrite lookup_app_l|].
      rewrite (proj2 (lookup_ge_None (tq_producers q) j)) by lia; apply lookup_ge_None; rewrite length_app; cbn; lia.
  - destruct Hres as [Hok1 E1]; rewrite bind_Done; exists None, q1, its; split; [done|]; split; [done|]; split; [|split; [done|]].
    + rewrite E1; by apply tokens_null.
    + intros E; by destruct (Hsure E).
Qed.
End producer_tokens.
