(* ===== verification/TokenSteps.v ===== *)
(** * Tokens: the queue refines its specification

    One operation after the other, for every state the invariant of [TokenLife.v]
    holds in; then the theorems about whole runs and about queues that change places.
    [TokenDestroy.v] has the end of a queue. *)

From S2P Require Import Prelude BlockPool ImplicitProducer BlockIndex ProducerFifo ProducerHash Producers ExplicitProducer ExplicitFifo ExplicitBulk ExplicitQueue Tokens TokenQueue TokenLife.

(** ** Operations on the contents *)

Section contents.
Context {A : Type} (junk : Z).
Implicit Types (q : tqueue A) (its : list (list A)) (ts : gmap Z (option nat)).

Lemma on_token_ok {B} (P : B -> list A -> list A -> Prop) (f : pool A -> ExplicitProducer -> run (B * pool A * ExplicitProducer)) t ts q its :
  tq_ok q its -> tokens_ok ts (tq_producers q) -> valid ts t ->
  (forall p items ps others, token_producer ts t q = Some p -> ex_holds (tq_pool q) p items ps others ->
     exists r items' po' p' ps', f (tq_pool q) p = Done (r, po', p') /\ keeps others (tq_pool q) po' /\
       ex_holds po' p' items' ps' others /\ P r items items') ->
  exists r q' its', on_token t ts f q = Done (r, q') /\ tq_ok q' its' /\ same_ids q q' /\ through ts t its its' (P r).
Proof.
  intros Hok Hto [k Ht] Hf; destruct (tokens_owner _ _ _ _ Hto Ht) as (b & Hb & He & _); pose proof (lookup_lt_Some _ _ _ Hb) as Hlt.
  rewrite (tq_length _ _ Hok) in Hlt; destruct (lookup_lt_is_Some_2 its k Hlt) as [items Hi].
  unfold on_token; rewrite Ht; cbn [deref]; rewrite bind_Done; cbn [deref]; rewrite bind_Done.
  edestruct (at_prod_ok (fun r items' => P r items items') (fun po p => match p with
    | Explicit p => '(r, po, p) ← f po p; mret (r, po, Explicit p) | Implicit _ => Undefined end) q its k items Hok Hi)
    as (r & items' & q' & -> & Hok' & Hid & HP); [|exists r, q', (<[k := items']> its); split_all; try done; by exists k, items, items'].
  intros b' ps others Hb' Hh; simplify_eq; destruct (pb_producer b) as [p|p] eqn:Ep; [done|]; cbn in Hh.
  destruct (Hf p items ps others) as (r & items' & po' & p' & ps' & -> & Hk & Hh' & HP); [unfold token_producer; rewrite Ht; cbn; rewrite Hb; cbn; by rewrite Ep|done|].
  rewrite bind_Done; by exists r, items', po', (Explicit p'), ps'.
Qed.

Lemma token_enqueue_ok canAlloc t x ts q its :
  tq_ok q its -> tokens_ok ts (tq_producers q) -> valid ts t -> addresses_left q ->
  exists ok q' its', inner_enqueue_token canAlloc t x ts q = Done (ok, q') /\ tq_ok q' its' /\ same_ids q q' /\
    through ts t its its' (fun items items' => items' = (if ok then items ++ [x] else items) /\
      (po_mallocs (tq_pool q) = [] -> canAlloc = true -> room items 0 -> ok = true)).
Proof.
  intros Hok Hto Hv [Ha _]; apply (on_token_ok (fun (ok : bool) items items' => _)); [done..|].
  intros p items ps others _ (H & T & Hf); pose proof (ec_len _ _ _ _ _ _ _ _ _ (ef_core _ _ _ _ _ _ _ Hf)) as Hlen.
  destruct (ep_enqueue_ok canAlloc x _ p H T items ps others Hf Ha) as (ok & po' & p' & E & Hk & _ & Hres).
  destruct ok; [destruct Hres as [ps' Hf']; exists true, (items ++ [x]), po', p', ps'|destruct Hres as [Hf' Hm]; exists false, items, po', p', ps];
    (split; [done|]; split; [done|]; split; [by eexists _, _|]; split; [done|]); [done|].
  unfold room; intros Hs Hc Hr; destruct Hm as [?|[?|?]]; [lia|congruence|done].
Qed.
Lemma token_enqueue_bulk_ok t (xs : list A) ts q its :
  tq_ok q its -> tokens_ok ts (tq_producers q) -> may (TokenEnqueueBulk t xs) (TSys q ts ∅) ->
  exists q' its', inner_enqueue_bulk_token true t xs ts q = Done (true, q') /\ tq_ok q' its' /\ same_ids q q' /\
    through ts t its its' (fun items items' => items' = items ++ xs).
Proof.
  intros Hok Hto (Hv & [Ha _] & Hm & Hroom).
  destruct (on_token_ok (fun (ok : bool) items items' => ok = true /\ items' = items ++ xs) (ep_enqueue_bulk true xs) t ts q its Hok Hto Hv)
    as (ok & q' & its' & E & Hok' & Hid & (k & items & items' & ? & ? & ? & -> & ?)); [|by exists q', its'; split_all; try done; exists k, items, items'].
  intros p items ps others Hp (H & T & Hf); unfold room_left in Hroom; rewrite Hp in Hroom; apply Z.ltb_lt in Hroom.
  pose proof (ec_len _ _ _ _ _ _ _ _ _ (ef_core _ _ _ _ _ _ _ Hf)) as Hlen; destruct (ef_counters _ _ _ _ _ _ _ Hf) as (Et & Eh & _).
  pose proof (ex_not_empty _ _ _ _ _ _ _ Hf) as (_ & Hr & _); rewrite Et, Eh, u64_sub, wrap_small in Hroom by (unfold in_u; lia).
  destruct (ep_enqueue_bulk_ok true xs _ p H T items ps others Hf) as (ok & po' & p' & E & Hk & _ & Hres); [lia|done|].
  destruct ok; [destruct Hres as [ps' Hf']; exists true, (items ++ xs), po', p', ps'; split_all; try done; by eexists _, _|exfalso].
  pose proof (Z.mul_div_le (T + Z.of_nat (length xs) + 31) 32 ltac:(lia)); destruct Hres as [?|[?|?]]; [lia|done|done].
Qed.
Lemma token_dequeue_ok t ts q its :
  tq_ok q its -> tokens_ok ts (tq_producers q) -> valid ts t ->
  exists r q' its', try_dequeue_from_producer t ts q = Done (r, q') /\ tq_ok q' its' /\ same_ids q q' /\
    through ts t its its' (fun items items' => r = head items /\ items' = tail items).
Proof.
  intros Hok Hto Hv; apply (on_token_ok (fun r items items' => _)); [done..|]; intros p items ps others _ Hh.
  destruct (@dq_one A _ _ _ explicit_dequeues _ _ _ _ _ Hh) as (po' & p' & ps' & E & Hk & Hh'); cbn in E.
  exists (head items), (tail items), po', p', ps'; by split_all.
Qed.
Lemma token_dequeue_bulk_ok t max ts q its :
  tq_ok q its -> tokens_ok ts (tq_producers q) -> valid ts t -> 0 <= max < 2 ^ 64 ->
  exists xs q' its', try_dequeue_bulk_from_producer t max ts q = Done (xs, q') /\ tq_ok q' its' /\ same_ids q q' /\
    through ts t its its' (fun items items' => xs = take (Z.to_nat max) items /\ items' = drop (Z.to_nat max) items).
Proof.
  intros Hok Hto Hv Hm; apply (on_token_ok (fun xs items items' => _)); [done..|]; intros p items ps others _ Hh.
  destruct (@dq_many A _ _ _ explicit_dequeues max _ _ _ _ _ Hh Hm) as (po' & p' & ps' & E & Hk & Hh'); cbn in E.
  exists (take (Z.to_nat max) items), (drop (Z.to_nat max) items), po', p', ps'; by split_all.
Qed.

(** What a thread appends to its producer's list, all or nothing. *)
Lemma on_implicit_ok (xs : list A) (f : pool A -> ImplicitProducer -> run (bool * pool A * ImplicitProducer)) k q its b :
  tq_ok q its -> tq_producers q !! k = Some b -> isExplicit (pb_producer b) = false ->
  (forall p items ps others, holds (tq_pool q) p items ps others ->
     exists ok po' p' ps', f (tq_pool q) p = Done (ok, po', p') /\ keeps others (tq_pool q) po' /\
       holds po' p' (if (ok : bool) then items ++ xs else items) ps' others) ->
  exists ok items q', at_prod k (fun po p => match p with
      | Implicit p => '(ok, po, p) ← f po p; mret (ok, po, Implicit p) | Explicit _ => Undefined end) q = Done (ok, q') /\
    its !! k = Some items /\ tq_ok q' (<[k := if (ok : bool) then items ++ xs else items]> its) /\ same_ids q q'.
Proof.
  intros Hok Hb He Hf; pose proof (lookup_lt_Some _ _ _ Hb) as Hlt; rewrite (tq_length _ _ Hok) in Hlt.
  destruct (lookup_lt_is_Some_2 its k Hlt) as [items Hi].
  edestruct (at_prod_ok (fun (ok : bool) items' => items' = if ok then items ++ xs else items)) as (ok & items' & q' & E & Hok' & Hid & ->);
    [exact Hok|exact Hi| |exists ok, items, q'; split; [exact E|done]].
  intros b' ps others Hb' Hh; simplify_eq; destruct (pb_producer b) as [p|p]; [|done]; cbn [any_holds] in *.
  destruct (Hf p items ps others Hh) as (ok & po' & p' & ps' & -> & Hk & Hh'); rewrite bind_Done.
  by eexists ok, _, po', (Implicit p'), ps'.
Qed.
Lemma thread_enqueue_ok canAlloc k x q its b :
  tq_ok q its -> tq_producers q !! k = Some b -> isExplicit (pb_producer b) = false ->
  exists ok items q', at_prod k (implicit_enqueue junk canAlloc x) q = Done (ok, q') /\ its !! k = Some items /\
    tq_ok q' (<[k := if (ok : bool) then items ++ [x] else items]> its) /\ same_ids q q'.
Proof.
  intros Hok Hb He; apply (on_implicit_ok _ _ _ q its b Hok Hb He); intros p items ps others Hh.
  destruct (enqueue_holds junk canAlloc x _ p items ps others Hh) as (ok & po' & p' & ps' & -> & (Hk & _) & Hh' & _); by eexists ok, po', p', ps'.
Qed.
Lemma thread_enqueue_bulk_ok canAlloc k xs q its b :
  tq_ok q its -> tq_producers q !! k = Some b -> isExplicit (pb_producer b) = false -> Z.of_nat (length xs) < 2 ^ 63 ->
  exists ok items q', at_prod k (implicit_enqueue_bulk junk canAlloc xs) q = Done (ok, q') /\ its !! k = Some items /\
    tq_ok q' (<[k := if (ok : bool) then items ++ xs else items]> its) /\ same_ids q q'.
Proof.
  intros Hok Hb He Hx; apply (on_implicit_ok _ _ _ q its b Hok Hb He); intros p items ps others Hh.
  destruct (enqueue_bulk_holds junk canAlloc xs _ p items ps others Hh Hx) as (ok & po' & p' & ps' & -> & (Hk & _) & Hh' & _); by eexists ok, po', p', ps'.
Qed.

Lemma ct_ok_grow n m c : (n <= m)%nat -> ct_ok n c -> ct_ok m c.
Proof.
  unfold ct_ok; intros Hl Hc; destruct (ct_desiredProducer c) as [d|]; [|done]; destruct Hc as (Hd & k & Hk & Hkn).
  split; [lia|]; exists k; split; [done|lia].
Qed.
Lemma through_length ts t its its' f : through ts t its its' f -> length its' = length its.
Proof. intros (k & items & items' & _ & _ & -> & _); apply length_insert. Qed.
End contents.

(** ** Steps *)

Section steps.
Context {A : Type} (junk : Z).
Implicit Types (s : tsys A) (op : token_op A) (q : tqueue A) (its : list (list A)).

Definition token_does op s its : Prop :=
  exists r s' its', token_do junk op s = Done (r, s') /\ tsys_ok s' its' /\
    token_spec (po_mallocs (tq_pool (ts_queue s)) = []) op r its (ts_tokens s) its' (ts_tokens s').

(** The consumers after an operation of something else. *)
Lemma sys_others q q' ts ts' cs its its' :
  tsys_ok (TSys q ts cs) its -> tq_ok q' its' -> tokens_ok ts' (tq_producers q') -> (length its <= length its')%nat ->
  tsys_ok (TSys q' ts' cs) its'.
Proof. intros [_ _ Hc] Hok Hto Hl; split; try done; intros i c Hi; eapply ct_ok_grow; [exact Hl|by eapply Hc]. Qed.
Lemma sys_same q q' ts cs its its' :
  tsys_ok (TSys q ts cs) its -> tq_ok q' its' -> same_ids q q' -> length its' = length its -> tsys_ok (TSys q' ts cs) its'.
Proof.
  intros Hs Hok [Hid _] Hl; apply (sys_others q q' ts ts cs its its' Hs Hok); [|lia].
  eapply tokens_same; [exact Hid|apply (sy_tokens _ _ Hs)].
Qed.
(** A consumer's own operation. *)
Lemma sys_consumer q q' ts cs its its' i c :
  tsys_ok (TSys q ts cs) its -> tq_ok q' its' -> same_ids q q' -> length its' = length its -> ct_ok (length its) c ->
  tsys_ok (TSys q' ts (<[i := c]> cs)) its'.
Proof.
  intros Hs Hok Hid Hl Hc; destruct (sys_same _ _ _ _ _ _ Hs Hok Hid Hl) as [? ? Hcs]; split; try done; cbn.
  intros j c' Hj; destruct (decide (j = i)) as [->|]; [rewrite lookup_insert_eq in Hj; simplify_eq; by rewrite Hl|].
  rewrite lookup_insert_ne in Hj by done; by eapply Hcs.
Qed.
Lemma unowned_length ts its its' producer : unowned ts its its' producer -> (length its <= length its')%nat.
Proof. destruct producer; cbn; [intros (_ & [[-> _]|[_ ->]]); rewrite ?length_app; lia|by intros ->]. Qed.

(** Producer tokens themselves. *)
Lemma tokens_do_ok op s its :
  tsys_ok s its -> may op s ->
  match op with NewToken _ | MoveToken _ _ | SwapTokens _ _ | DestroyToken _ => True | _ => False end -> token_does op s its.
Proof.
  destruct s as [q ts cs]; intros Hs Hm Hop; pose proof Hs as [Hok Hto _]; cbn in Hok, Hto; destruct op; try done; cbn in Hm; destruct_and?; unfold token_does; cbn [token_do].
  - destruct (new_token_ok junk t ts q its) as (producer & q' & its' & -> & Hok' & Hto' & Hun & Hsure); try done; rewrite bind_Done.
    eexists _, _, its'; split; [done|]; split; [|by exists producer].
    apply (sys_others q q' ts _ cs its its'); try done; by eapply unowned_length.
  - destruct (move_ok t other ts q its) as (producer & q' & Hp & -> & Hok' & Hto'); try done; rewrite bind_Done.
    eexists _, _, its; split; [done|]; split; [by apply (sys_others q q' ts _ cs its its)|]; split; [done|by exists producer].
  - destruct (swap_ok t other ts q its) as (mine & theirs & q' & Hp & Hp' & -> & Hok' & Hto'); try done; rewrite bind_Done.
    eexists _, _, its; split; [done|]; split; [by apply (sys_others q q' ts _ cs its its)|]; split; [done|by exists mine, theirs].
  - destruct (destroy_ok t ts q its) as (q' & -> & Hok' & Hto'); try done; rewrite bind_Done.
    eexists _, _, its; split; [done|]; split; [by apply (sys_others q q' ts _ cs its its)|done].
Qed.

(** Enqueues, and dequeues through producer tokens. *)
Lemma contents_do_ok op s its :
  tsys_ok s its -> may op s ->
  match op with TokenEnqueue _ _ _ | TokenDequeue _ | TokenDequeueBulk _ _ | ThreadEnqueue _ _ _
    | TokenEnqueueBulk _ _ | ThreadEnqueueBulk _ _ _ => True | _ => False end -> token_does op s its.
Proof.
  destruct s as [q ts cs]; intros Hs Hm Hop; pose proof Hs as [Hok Hto _]; cbn in Hok, Hto; destruct op; try done; cbn in Hm; unfold token_does; cbn [token_do].
  - destruct Hm as [Hv Ha]; destruct (token_enqueue_ok canAlloc t x ts q its Hok Hto Hv Ha) as (ok & q' & its' & -> & Hok' & Hid & Ht); rewrite bind_Done.
    eexists _, _, its'; split; [done|]; split; [apply (sys_same q q' ts cs its its'); try done; by eapply through_length|done].
  - destruct (token_dequeue_ok t ts q its Hok Hto Hm) as (r & q' & its' & -> & Hok' & Hid & Ht); rewrite bind_Done.
    eexists _, _, its'; split; [done|]; split; [apply (sys_same q q' ts cs its its'); try done; by eapply through_length|].
    split; [done|]; destruct Ht as (k & items & items' & ? & ? & ? & -> & ?); by exists k, items, items'.
  - destruct Hm as [Hv Hmax]; destruct (token_dequeue_bulk_ok t max ts q its Hok Hto Hv Hmax) as (xs & q' & its' & -> & Hok' & Hid & Ht); rewrite bind_Done.
    eexists _, _, its'; split; [done|]; split; [apply (sys_same q q' ts cs its its'); try done; by eapply through_length|done].
  - destruct (token_enqueue_bulk_ok t xs ts q its Hok Hto Hm) as (q' & its' & -> & Hok' & Hid & Ht); rewrite bind_Done.
    eexists _, _, its'; split; [done|]; split; [apply (sys_same q q' ts cs its its'); try done; by eapply through_length|done].
  - destruct Hm as (b & Hb & He); destruct (thread_enqueue_ok junk canAlloc k x q its b Hok Hb He) as (ok & items & q' & -> & Hi & Hok' & Hid); rewrite bind_Done.
    eexists _, _, _; split; [done|]; split; [apply (sys_same q q' ts cs its _); try done; apply length_insert|]; split; [done|by exists items].
  - destruct Hm as [(b & Hb & He) Hx]; destruct (thread_enqueue_bulk_ok junk canAlloc k xs q its b Hok Hb He Hx) as (ok & items & q' & -> & Hi & Hok' & Hid); rewrite bind_Done.
    eexists _, _, _; split; [done|]; split; [apply (sys_same q q' ts cs its _); try done; apply length_insert|]; split; [done|by exists items].
Qed.

(** Consumers, and threads without a token. *)
Lemma consumers_do_ok op s its :
  tsys_ok s its -> may op s ->
  match op with NewConsumer _ | SwapConsumers _ _ | MoveConsumer _ _ | ConsumerDequeue _ | ConsumerDequeueBulk _ _ => True | _ => False end -> token_does op s its.
Proof.
  destruct s as [q ts cs]; intros Hs Hm Hop; pose proof Hs as [Hok Hto Hcs]; cbn in Hok, Hto, Hcs; destruct op; try done; cbn in Hm; unfold token_does; cbn [token_do].
  - eexists _, _, its; split; [done|]; split; [|done]; apply (sys_consumer q _ ts cs its its i); try done; [by destruct Hok|].
    exact (same_ids_refl q).
  - destruct Hm as [[c Hc] [c' Hc']]; rewrite Hc; cbn [deref]; rewrite bind_Done, Hc'; cbn [deref]; rewrite bind_Done.
    eexists _, _, its; split; [done|]; split; [|done]; apply (sys_consumer q q _ _ its its); try done; [|apply same_ids_refl|by eapply Hcs].
    apply (sys_consumer q q ts cs its its i); try done; [apply same_ids_refl|by eapply Hcs].
  - destruct Hm as [c Hc]; rewrite Hc; cbn [deref]; rewrite bind_Done.
    destruct (try_dequeue_token_ok q its c Hok (Hcs _ _ Hc)) as (r & c' & q' & -> & Hc' & Hid & Hr); rewrite bind_Done.
    destruct r as [x|]; [destruct Hr as (j & l & Ht & Hok'); eexists _, _, (<[j := l]> its)|destruct Hr as [He Hok']; eexists _, _, its];
      (split; [done|]); (split; [apply (sys_consumer q q' ts cs its); try done; by rewrite ?length_insert|]); split; try done.
    split; [done|by exists j, l].
  - destruct Hm as [[c Hc] Hmax]; rewrite Hc; cbn [deref]; rewrite bind_Done.
    destruct (try_dequeue_bulk_token_ok q its c max Hok (Hcs _ _ Hc) Hmax) as (xs & c' & q' & its' & -> & Hok' & Hc' & Hid & Hr); rewrite bind_Done.
    eexists _, _, its'; split; [done|]; split; [|done]; apply (sys_consumer q q' ts cs its its'); try done; by destruct Hr as [?%taken_length _].
  - destruct Hm as [_ [c Hc]]; rewrite Hc; cbn [deref]; rewrite bind_Done; cbn [ConsumerToken_move].
    eexists _, _, its; split; [done|]; split; [|done]; apply (sys_consumer q q _ _ its its); try done; [|apply same_ids_refl|by eapply Hcs].
    apply (sys_consumer q q ts cs its its i); try done; [apply same_ids_refl|by eapply Hcs].
Qed.

Lemma thread_do_ok s its : tsys_ok s its -> may ThreadProducer s -> token_does ThreadProducer s its.
Proof.
  destruct s as [q ts cs]; intros Hs [Ha Hl]; pose proof Hs as [Hok Hto _]; cbn in Hok, Hto; unfold token_does; cbn [token_do].
  destruct (recycle_ok junk false q its Hok Ha Hl) as (r & q' & -> & _ & Hr); rewrite bind_Done.
  destruct r as [[k [|]]|].
  - exfalso; destruct Hr as (_ & b & Hb & Hi & He & _); pose proof (tk_owner _ _ Hto k) as Ho; rewrite Hb in Ho; cbn in Ho; rewrite He in Ho.
    destruct Ho as (_ & ? & _); congruence.
  - destruct Hr as (-> & Hok' & b & He & Hi & Htk & E); eexists _, _, _; split; [done|]; split; [|split; [done|by right]].
    apply (sys_others q q' ts ts cs its); try done; [|rewrite length_app; lia]; rewrite E; split; [apply (tk_null _ _ Hto)|]; intros j.
    pose proof (tk_owner _ _ Hto j) as Ho; destruct (decide (j < length (tq_producers q))%nat) as [Hj|Hj]; [by rewrite lookup_app_l|].
    rewrite (proj2 (lookup_ge_None (tq_producers q) j)) in Ho by lia; rewrite lookup_app_r by lia; cbn in Ho.
    destruct (j - length (tq_producers q))%nat; [cbn; by rewrite He|done].
  - destruct Hr as [Hok' E]; eexists _, _, its; split; [done|]; split; [|split; [done|by left]].
    apply (sys_others q q' ts ts cs its); try done; by rewrite E.
Qed.

Lemma token_do_ok op s its : tsys_ok s its -> may op s -> token_does op s its.
Proof.
  intros Hs Hm; destruct op; first [by apply tokens_do_ok|by apply contents_do_ok|by apply consumers_do_ok|by apply thread_do_ok].
Qed.

Lemma new_tsys_ok self capacity brk ms :
  0 <= initial_blocks capacity < 2 ^ 64 -> 0 < brk -> tsys_ok (new_tsys self capacity brk ms : tsys A) [].
Proof.
  intros Hc Hb; split; cbn; [|split; [done|intros k; by rewrite lookup_nil]|done].
  split; [|done|done]; exists []; split; try done; cbn; eexists; by apply populate_ok.
Qed.

Lemma reachable_ok self capacity brk ms s :
  0 <= initial_blocks capacity < 2 ^ 64 -> 0 < brk -> token_reachable junk self capacity brk ms s -> exists its, tsys_ok s its.
Proof.
  intros Hc Hb; apply (rtc_ind_r (fun s => exists its, tsys_ok s its)); [exists []; by apply new_tsys_ok|].
  intros s1 s2 _ [op r s2' Hm Hd] [its Hs]; destruct (token_do_ok op s1 its Hs Hm) as (r' & s' & its' & E & Hs' & _).
  rewrite Hd in E; simplify_eq; by exists its'.
Qed.

(** *** Moving and swapping queues *)

(** The contents and the tokens of [other] are now at the address [self]. *)
Definition moved_to (self : Z) other q : Prop :=
  (forall its, tq_ok other its -> tq_ok q its) /\ (forall ts, tokens_ok ts (tq_producers other) -> tokens_ok ts (tq_producers q)) /\
  tq_self q = self /\ Forall (fun b => pb_parent b = self) (tq_producers q).

Lemma reown_moved q other :
  tq_pool q = tq_pool other -> tq_producers q = tq_producers other -> tq_producerCount q = tq_producerCount other ->
  moved_to (tq_self q) other (reown_producers q).
Proof.
  intros E1 E2 E3; split; [|split; [|split; [done|]]].
  - intros its [[pss Hp] Hc Hs]; split; cbn; try done; [|by rewrite E3]; exists pss; rewrite map_map, E1, E2; exact Hp.
  - intros ts [Hz Ho]; split; [done|]; intros k; cbn; rewrite list_lookup_fmap, E2; specialize (Ho k).
    by destruct (tq_producers other !! k).
  - apply Forall_forall; intros b Hb; apply list_elem_of_fmap in Hb as (b' & -> & _); done.
Qed.
End steps.

(** ** The theorems *)

Section theorems.
Context {A : Type} (junk : Z).
Implicit Types (s : tsys A) (op : token_op A) (q other : tqueue A) (its : list (list A)).

Lemma token_run_reachable ops : forall s, rtc (token_step junk) s (token_run junk ops s).
Proof.
  induction ops as [|op ops IH]; intros s; cbn [token_run]; [done|]; destruct (decide (may op s)) as [Hm|]; [|done].
  destruct (token_do junk op s) as [[r s']| | |] eqn:E; try done; eapply rtc_l; [by eapply TokenStep|apply IH].
Qed.

(** C9: a queue with tokens is a list of lists and a map from tokens to lists: from
    the new queue on, every operation that [may] admits returns, and answers and
    changes the lists and the map as [token_spec] says.  [may] asks that the tokens
    exist and those used are valid, that addresses and producers are not used up, and,
    which is narrower than the documentation, that a bulk enqueue through a token can
    allocate, meets no failing allocation and finds room: one that fails leaves the
    order of the elements undetermined.  A consumer token finds an element if there
    is one in any producer, of either kind, and a bulk dequeue gets as many as there
    are, each producer's from its front; an enqueue of one element through a token
    succeeds if it may allocate, no allocation fails and the list is shorter than
    [2 ^ 63 - 64]. *)
Theorem token_queue_refines self capacity brk ms :
  0 <= initial_blocks capacity < 2 ^ 64 -> 0 < brk ->
  exists R : tsys A -> list (list A) -> Prop,
    R (new_tsys self capacity brk ms) [] /\
    forall op s its, R s its -> may op s ->
      exists r s' its', token_do junk op s = Done (r, s') /\ R s' its' /\
        token_spec (po_mallocs (tq_pool (ts_queue s)) = []) op r its (ts_tokens s) its' (ts_tokens s').
Proof. intros Hc Hb; exists tsys_ok; split; [by apply new_tsys_ok|]; intros op s its; apply token_do_ok. Qed.

(** C20: each explicit producer belongs to at most one producer token: in every
    reachable state with a valid token, its producer is explicit and in use and points
    back to the token, no other token has the same producer, and any explicit producer
    that no token has is free for the next one. *)
Theorem producer_tokens_exclusive self capacity brk ms s t k :
  0 <= initial_blocks capacity < 2 ^ 64 -> 0 < brk -> token_reachable junk self capacity brk ms s ->
  ts_tokens s !! t = Some (Some k) ->
  (exists b, tq_producers (ts_queue s) !! k = Some b /\ isExplicit (pb_producer b) = true /\ pb_inactive b = false /\ pb_token b = t) /\
  (forall t', ts_tokens s !! t' = Some (Some k) -> t' = t) /\
  (forall j b, tq_producers (ts_queue s) !! j = Some b -> isExplicit (pb_producer b) = true ->
     (forall t', ts_tokens s !! t' <> Some (Some j)) -> pb_inactive b = true).
Proof.
  intros Hc Hb Hr Ht; destruct (reachable_ok junk _ _ _ _ s Hc Hb Hr) as [its [_ Hto _]].
  destruct (tokens_owner _ _ _ _ Hto Ht) as (b & Hpb & He & Hi & Htk); split; [by exists b|]; split.
  - intros t' Ht'; destruct (tokens_owner _ _ _ _ Hto Ht') as (b' & ? & _ & _ & <-); congruence.
  - intros j b' Hj He' Hn; pose proof (tk_owner _ _ Hto j) as Ho; rewrite Hj in Ho; cbn in Ho; rewrite He' in Ho.
    destruct Ho as [Ho _]; destruct (pb_inactive b') eqn:E; [done|]; destruct (Hn (pb_token b')); by apply Ho.
Qed.

(** swapping two queues exchanges their contents, with their tokens, and a queue
    made from another by moving takes over everything and leaves an empty queue; every
    producer's parent is then the queue it is in. *)
Theorem swapped_and_moved q other self brk ms :
  (tq_self q <> tq_self other ->
   moved_to (tq_self q) other (swap_queues q other).1 /\ moved_to (tq_self other) q (swap_queues q other).2) /\
  moved_to self other (move_queue self brk ms other).1 /\
  (0 < brk -> tq_ok (move_queue self brk ms other).2 [] /\ tq_self (move_queue self brk ms other).2 = tq_self other).
Proof.
  split; [|split; [by apply reown_moved|]].
  - intros Hne; unfold swap_queues; destruct (Z.eqb_spec (tq_self q) (tq_self other)); [done|].
    split; [by apply (reown_moved (with_contents q other) other)|by apply (reown_moved (with_contents other q) q)].
  - intros Hb; split; [|done]; split; [|done|done]; exists []; split; try done; exists [].
    exact (populate_ok 0 brk ms ltac:(lia) Hb).
Qed.
End theorems.

(** *** A run *)

(** Three tokens, one of them moved and one destroyed, two of them swapped; a thread
    without a token and two consumers. *)
Definition token_client : list (token_op Z) :=
  [NewToken 10; NewToken 20; NewConsumer 0; TokenEnqueue true 10 1; TokenEnqueue true 20 2; MoveToken 30 10;
   ThreadProducer; ThreadEnqueue true 2 3; SwapTokens 20 30; TokenEnqueue true 30 4; DestroyToken 20; NewToken 40;
   TokenEnqueue true 40 5; NewConsumer 1; ConsumerDequeue 0].
Definition token_client_end : tsys Z := token_run 0 token_client (new_tsys 1000 64 1 []).

Lemma token_queue_refines_witness :
  exists R : tsys Z -> list (list Z) -> Prop,
    R (new_tsys 1000 64 1 [true; false]) [] /\
    forall op s its, R s its -> may op s ->
      exists r s' its', token_do 0 op s = Done (r, s') /\ R s' its' /\
        token_spec (po_mallocs (tq_pool (ts_queue s)) = []) op r its (ts_tokens s) its' (ts_tokens s').
Proof. apply (token_queue_refines 0 1000 64 1 [true; false]); [by vm_compute|done]. Defined.

(** Everything in it is allowed; the elements are where the tokens have put them. *)
Lemma token_client_answers :
  token_do 0 (TokenDequeueBulk 30 9) token_client_end = Done (Taken [2; 4], token_run 0 [TokenDequeueBulk 30 9] token_client_end) /\
  ts_tokens token_client_end = <[40 := Some 0%nat]> (<[30 := Some 1%nat]> (<[10 := None]> ∅)) /\
  (token_do 0 (ConsumerDequeueBulk 1 9) token_client_end ≫= fun r => mret r.1) = Done (Taken [1; 5; 2; 4]).
Proof. by vm_compute. Qed.

Lemma producer_tokens_exclusive_witness :
  (exists b, tq_producers (ts_queue token_client_end) !! 1%nat = Some b /\ isExplicit (pb_producer b) = true /\
     pb_inactive b = false /\ pb_token b = 30) /\
  (forall t', ts_tokens token_client_end !! t' = Some (Some 1%nat) -> t' = 30) /\
  (forall j b, tq_producers (ts_queue token_client_end) !! j = Some b -> isExplicit (pb_producer b) = true ->
     (forall t', ts_tokens token_client_end !! t' <> Some (Some j)) -> pb_inactive b = true).
Proof.
  apply (producer_tokens_exclusive 0 1000 64 1 [] token_client_end 30 1); [by vm_compute|done|apply token_run_reachable|by vm_compute].
Defined.
