(* ===== verification/TokenDestroy.v ===== *)
(** * Tokens: the end of a queue

    The destructor of a queue with producers of both kinds: its tokens no longer refer
    to it, every element still queued is destroyed with its producer, and every block
    is freed once. *)

From S2P Require Import Prelude BlockPool ImplicitProducer BlockIndex ProducerFifo ProducerDestroy ProducerHash ExplicitProducer ExplicitFifo ExplicitDestroy Producers QueueDestroy Tokens TokenQueue TokenLife TokenSteps.

Section destroy.
Context {A : Type} (junk : Z).
Implicit Types (po : pool A) (q : tqueue A) (its : list (list A)) (ts : gmap Z (option nat)) (ps : list ProducerBase).

#[export] Instance any_destroy_ops : destroy_ops A any_producer := {| pd_destroy := any_destroy; pd_fits brk := brk <= 2 ^ 58 |}.
#[export] Instance any_destroys : destroys A any_producer.
Proof.
  split; intros po [p|p] items ps others Hh Hbrk.
  - destruct (fun Hfit => ds_ok po p items ps others Hh Hfit) as (freed & po' & free' & E & ?); [exact I|]; by exists freed, po', free'.
  - destruct (fun Hfit => ds_ok po p items ps others Hh Hfit) as (freed & po' & free' & E & ?); [exact Hbrk|]; by exists freed, po', free'.
Qed.

(** ** Tokens *)

Fixpoint forget_tokens ps ts : run (gmap Z (option nat)) :=
  match ps with [] => mret ts | b :: ps => ts ← forget_token b ts; forget_tokens ps ts end.

(** The walk does two things at once that have nothing to do with each other. *)
Lemma destroy_walk_split ps : forall ts ts' po xs freed po',
  forget_tokens ps ts = Done ts' -> destroy_each (map pb_producer ps) po = Done (xs, freed, po') ->
  destroy_walk ps ts po = Done (ts', xs, freed, po').
Proof.
  induction ps as [|b ps IH]; intros ts ts' po xs freed po'; cbn [forget_tokens map destroy_each destroy_walk]; [by intros [= <-] [= <- <- <-]|].
  intros (ts1 & -> & Ht)%bind_Done_inv ([[x1 f1] po1] & H1 & ([[x2 f2] po2] & H2 & [= <- <- <-])%bind_Done_inv)%bind_Done_inv; cbn in H1.
  by rewrite bind_Done, H1, bind_Done, (IH _ _ _ _ _ _ Ht H2), bind_Done.
Qed.

Lemma forget_tokens_ok ps : forall ts,
  (forall b, b ∈ ps -> pb_token b <> 0 -> is_Some (ts !! pb_token b)) ->
  exists ts', forget_tokens ps ts = Done ts' /\
    forall t, ts' !! t = if bool_decide (t <> 0 /\ t ∈ map pb_token ps) then Some None else ts !! t.
Proof.
  induction ps as [|b ps IH]; intros ts Hl; cbn [forget_tokens map].
  { exists ts; split; [done|]; intros t; rewrite bool_decide_eq_false_2; [done|]; intros [_ H]; by apply elem_of_nil in H. }
  assert (exists ts1, forget_token b ts = Done ts1 /\ forall t, ts1 !! t = if bool_decide (t <> 0 /\ t = pb_token b) then Some None else ts !! t)
    as (ts1 & -> & Hts1).
  { unfold forget_token; destruct (Z.eqb_spec (pb_token b) 0) as [Hz|Hz].
    - exists ts; split; [done|]; intros t; rewrite bool_decide_eq_false_2; [done|]; rewrite Hz; tauto.
    - destruct (Hl b) as [v ->]; [by left|done|]; cbn [deref]; rewrite bind_Done; eexists; split; [done|]; intros t.
      case_bool_decide as E; [destruct E as [_ ->]; by rewrite lookup_insert_eq|]; rewrite lookup_insert_ne; [done|]; intros <-; tauto. }
  rewrite bind_Done; destruct (IH ts1) as (ts' & -> & Hts').
  { intros b' Hb' Hz; rewrite Hts1; destruct (bool_decide _); [by eexists|]; apply Hl; [by right|done]. }
  exists ts'; split; [done|]; intros t; rewrite Hts', Hts1; pose proof (elem_of_cons (map pb_token ps) t (pb_token b)).
  repeat case_bool_decide; try done; exfalso; tauto.
Qed.

(** A producer has a token exactly if the token has the producer. *)
Lemma tokens_back ts ps t : tokens_ok ts ps -> (t <> 0 /\ t ∈ map pb_token ps) <-> exists k, ts !! t = Some (Some k).
Proof.
  intros Hto; split.
  - intros [Hz (b & -> & [k Hb]%list_elem_of_lookup)%list_elem_of_fmap]; exists k; pose proof (tk_owner _ _ Hto k) as Ho; rewrite Hb in Ho; cbn in Ho.
    destruct (isExplicit (pb_producer b)); [|by destruct Ho as (_ & _ & ?)]; destruct Ho as [Ho Hi]; apply Ho; split; [|done].
    destruct (pb_inactive b); [by destruct (Hz (Hi eq_refl))|done].
  - intros [k Hk]; destruct (tokens_owner _ _ _ _ Hto Hk) as (b & Hb & _ & _ & Ht); split; [intros ->; by rewrite (tk_null _ _ Hto) in Hk|].
    rewrite <- Ht; apply list_elem_of_fmap; exists b; split; [done|by eapply list_elem_of_lookup_2].
Qed.

Lemma map_reverse {B C} (f : B -> C) (l : list B) : map f (reverse l) = reverse (map f l).
Proof. apply fmap_reverse. Qed.

Lemma forget_all_ok ts ps :
  tokens_ok ts ps -> exists ts', forget_tokens (reverse ps) ts = Done ts' /\ forall t, ts' !! t = (fun _ => None) <$> ts !! t.
Proof.
  intros Hto; destruct (forget_tokens_ok (reverse ps) ts) as (ts' & E & Hts).
  - intros b Hb Hz; destruct (proj1 (tokens_back ts ps (pb_token b) Hto)) as [k ->]; [split; [done|]|by eexists].
    apply list_elem_of_fmap; exists b; split; [done|by apply elem_of_reverse].
  - exists ts'; split; [done|]; intros t; rewrite Hts, map_reverse; pose proof (tokens_back ts ps t Hto) as Hb; case_bool_decide as E'; rewrite elem_of_reverse in E'.
    + apply Hb in E' as [k ->]; done.
    + destruct (ts !! t) as [[k|]|] eqn:Ht; [|done..]; destruct E'; apply Hb; by exists k.
Qed.

(** ** Producers and blocks *)

(** The order does not matter to [producers_ok]. *)
Lemma producers_rev {B} (items_of : B -> list A) po (prs : list any_producer) a pss :
  producers_ok items_of po prs a pss -> producers_ok items_of po (reverse prs) (reverse a) (reverse pss).
Proof.
  intros [Hl Hb He (free & Hp)]; split; [by rewrite !length_reverse..| |].
  - intros i p x ps Hi Hx Hps; apply reverse_lookup_Some in Hi as [Hi ?], Hx as [Hx _], Hps as [Hps _].
    rewrite Hl in Hi; rewrite Hb in Hps; by apply (He _ _ _ _ Hi Hx Hps).
  - exists free; eapply pool_inv_perm; [|exact Hp]; by rewrite reverse_Permutation.
Qed.

Lemma destroy_tqueue_ok ts q its :
  tq_ok q its -> tokens_ok ts (tq_producers q) -> po_brk (tq_pool q) <= 2 ^ 58 ->
  exists ts' freed,
    destroy_tqueue ts q = Done (ts', concat (reverse its), freed_hashes (tq_hashes q), freed,
      (po_initialBlockPool (tq_pool q), po_initialBlockPoolSize (tq_pool q))) /\
    (forall t, ts' !! t = (fun _ => None) <$> ts !! t) /\ frees_all (tq_pool q) freed.
Proof.
  intros [[pss Hpk%producers_rev] _ _] Hto Hbrk; destruct (forget_all_ok ts _ Hto) as (ts' & Ef & Hts); rewrite <- map_reverse in Hpk.
  destruct (fun Hfit => destroy_each_ok _ _ _ _ _ Hpk Hfit) as (freed & po' & free & Ed & Hp & Hr); [exact Hbrk|].
  unfold destroy_tqueue; rewrite (destroy_walk_split _ _ _ _ _ _ _ Ef Ed), bind_Done, map_id.
  destruct (retires_sweep _ _ _ _ Hr Hp) as (rest & -> & Hf & -> & ->); rewrite bind_Done; by exists ts', (freed ++ rest).
Qed.

(** ** The theorem *)

(** C25: a queue ends cleanly whatever its tokens have been through: in every reachable
    state, with [its] the lists of elements queued in its producers of either kind, the
    destructor returns, destroys exactly these elements, producer by producer from the
    newest on and each list in order, frees each block that is not of the initial array
    once, and the array as a whole; the tokens still exist but are no longer valid, and
    destroying one later touches nothing. *)
Theorem queue_destruction self capacity brk ms (s : tsys A) :
  0 <= initial_blocks capacity < 2 ^ 64 -> 0 < brk -> token_reachable junk self capacity brk ms s -> addresses_left (ts_queue s) ->
  exists its ts freed, tq_ok (ts_queue s) its /\
    destroy_tqueue (ts_tokens s) (ts_queue s) =
      Done (ts, concat (reverse its), freed_hashes (tq_hashes (ts_queue s)), freed,
        (po_initialBlockPool (tq_pool (ts_queue s)), po_initialBlockPoolSize (tq_pool (ts_queue s)))) /\
    NoDup freed /\ (forall p, p ∈ freed <-> p ∈ dom (po_blocks (tq_pool (ts_queue s))) /\ in_array (tq_pool (ts_queue s)) p = false) /\
    dom ts = dom (ts_tokens s) /\
    forall t q, t ∈ dom ts -> ProducerToken_valid t ts = Done false /\ ProducerToken_destroy t ts q = Done (delete t ts, q).
Proof.
  intros Hc Hb Hr [Ha _]; destruct (reachable_ok junk _ _ _ _ s Hc Hb Hr) as [its [Hok Hto _]].
  destruct (destroy_tqueue_ok _ _ its Hok Hto Ha) as (ts & freed & E & Hts & Hn & Hf); exists its, ts, freed; split; [done|]; split; [done|]; split; [done|]; split; [done|].
  split; [apply set_eq; intros t; rewrite !elem_of_dom, Hts; by rewrite fmap_is_Some|].
  intros t q [v Hv]%elem_of_dom; pose proof (Hts t) as Ht; rewrite Hv in Ht; destruct (ts_tokens s !! t); [|done].
  injection Ht as ->; unfold ProducerToken_valid, ProducerToken_destroy; by rewrite Hv.
Qed.
End destroy.

(** More than the initial blocks can hold, through a token and by a thread. *)
Definition last_client : tsys Z :=
  token_run 0 (token_client ++ [TokenEnqueueBulk 40 (seqZ 100 70); MoveConsumer 2 1; ThreadEnqueueBulk true 2 (seqZ 200 40); ConsumerDequeueBulk 2 50])
    (new_tsys 1000 64 1 []).

Lemma queue_destruction_witness :
  exists its ts freed, tq_ok (ts_queue last_client) its /\
    destroy_tqueue (ts_tokens last_client) (ts_queue last_client) =
      Done (ts, concat (reverse its), freed_hashes (tq_hashes (ts_queue last_client)), freed, (po_initialBlockPool (tq_pool (ts_queue last_client)), po_initialBlockPoolSize (tq_pool (ts_queue last_client)))) /\
    NoDup freed /\ (forall p, p ∈ freed <-> p ∈ dom (po_blocks (tq_pool (ts_queue last_client))) /\ in_array (tq_pool (ts_queue last_client)) p = false) /\
    dom ts = dom (ts_tokens last_client) /\
    forall t (q : tqueue Z), t ∈ dom ts -> ProducerToken_valid t ts = Done false /\ ProducerToken_destroy t ts q = Done (delete t ts, q).
Proof.
  apply (queue_destruction 0 1000 64 1 []); [by vm_compute|done|apply token_run_reachable|by vm_compute].
Defined.

(** Two blocks are freed with the token's producer, two from the free list. *)
Example last_client_destroyed :
  ('(_, xs, _, freed, array) ← destroy_tqueue (ts_tokens last_client) (ts_queue last_client); mret (xs, freed, array)) =
    Done (seqZ 200 40 ++ [2; 4] ++ seqZ 148 22, [5; 4; 6; 3], (1, 2)).
Proof. by vm_compute. Qed.
