(* ===== verification/Cq.v ===== *)
(** * Work queues and completion queues ([common/cq.h], [common/cq.cpp])

    The objects an application shares with the two threads of a stream.  They
    live on the heap and are named by pointers, because the send queue and the
    receive queue of a stream may or may not share one completion queue.
    [malloc] hands out the pointer given as an argument; the previous content of
    the block is an argument too, for the members the code does not set. *)

From S2P Require Import Prelude Endian Wire CQueue.

(** ** Completions *)
Inductive wc_status :=
| WC_SUCCESS | WC_LOC_LEN_ERR | WC_LOC_QP_OP_ERR | WC_LOC_EEC_OP_ERR | WC_LOC_PROT_ERR
| WC_WR_FLUSH_ERR | WC_MW_BIND_ERR | WC_BAD_RESP_ERR | WC_LOC_ACCESS_ERR | WC_REM_INV_REQ_ERR
| WC_REM_ACCESS_ERR | WC_REM_OP_ERR | WC_RETRY_EXC_ERR | WC_RNR_RETRY_EXC_ERR
| WC_LOC_RDD_VIOL_ERR | WC_REM_INV_RD_REQ_ERR | WC_REM_ABORT_ERR | WC_INV_EECN_ERR
| WC_INV_EEC_STATE_ERR | WC_FATAL_ERR | WC_RESP_TIMEOUT_ERR | WC_GENERAL_ERR | WC_TM_ERR
| WC_TM_RNDV_INCOMPLETE.

#[global] Instance wc_status_eq_dec : EqDecision wc_status.
Proof. solve_decision. Defined.

Inductive wc_opcode :=
| WC_WRITE | WC_READ_REQUEST | WC_READ_RESPONSE | WC_SEND | WC_SEND_INVALIDATE
| WC_SEND_SOLICIT | WC_SEND_SOLICIT_INVALIDATE | WC_TERMINATE | WC_RECV.

Definition wc_opcode_val (o : wc_opcode) : Z :=
  match o with
  | WC_WRITE => 0 | WC_READ_REQUEST => 1 | WC_READ_RESPONSE => 2 | WC_SEND => 3
  | WC_SEND_INVALIDATE => 4 | WC_SEND_SOLICIT => 5 | WC_SEND_SOLICIT_INVALIDATE => 6
  | WC_TERMINATE => 7 | WC_RECV => Z.shiftl 1 7
  end.

Definition WC_IP_CSUM_OK_SHIFT : Z := 2.
Inductive wc_flags :=
| WC_GRH | WC_WITH_IMM | WC_IP_CSUM_OK | WC_WITH_INV | WC_TM_SYNC_REQ | WC_TM_MATCH
| WC_TM_DATA_VALID.
Definition wc_flags_val (f : wc_flags) : Z :=
  match f with
  | WC_GRH => Z.shiftl 1 0 | WC_WITH_IMM => Z.shiftl 1 1
  | WC_IP_CSUM_OK => Z.shiftl 1 WC_IP_CSUM_OK_SHIFT | WC_WITH_INV => Z.shiftl 1 3
  | WC_TM_SYNC_REQ => Z.shiftl 1 4 | WC_TM_MATCH => Z.shiftl 1 5 | WC_TM_DATA_VALID => Z.shiftl 1 6
  end.

(** An [enum wc_opcode] object can hold any of the values the code casts to it,
    so [wce_opcode] is the integer. *)
Record work_completion := {
  wce_wr_id : Z; wce_status : wc_status; wce_opcode : Z; wce_vendor_err : Z; wce_byte_len : Z;
  wce_imm_data : Z; wce_qp_num : Z; wce_src_qp : Z; wce_flags : Z; wce_pkey_index : Z;
  wce_slid : Z; wce_sl : Z; wce_dlid_path_bits : Z }.

Definition set_wce_wr_id (v : Z) (w : work_completion) : work_completion :=
  {| wce_wr_id := v; wce_status := wce_status w; wce_opcode := wce_opcode w;
     wce_vendor_err := wce_vendor_err w; wce_byte_len := wce_byte_len w;
     wce_imm_data := wce_imm_data w; wce_qp_num := wce_qp_num w; wce_src_qp := wce_src_qp w;
     wce_flags := wce_flags w; wce_pkey_index := wce_pkey_index w; wce_slid := wce_slid w;
     wce_sl := wce_sl w; wce_dlid_path_bits := wce_dlid_path_bits w |}.
Definition set_wce_status (v : wc_status) (w : work_completion) : work_completion :=
  {| wce_wr_id := wce_wr_id w; wce_status := v; wce_opcode := wce_opcode w;
     wce_vendor_err := wce_vendor_err w; wce_byte_len := wce_byte_len w;
     wce_imm_data := wce_imm_data w; wce_qp_num := wce_qp_num w; wce_src_qp := wce_src_qp w;
     wce_flags := wce_flags w; wce_pkey_index := wce_pkey_index w; wce_slid := wce_slid w;
     wce_sl := wce_sl w; wce_dlid_path_bits := wce_dlid_path_bits w |}.
Definition set_wce_opcode (v : Z) (w : work_completion) : work_completion :=
  {| wce_wr_id := wce_wr_id w; wce_status := wce_status w; wce_opcode := v;
     wce_vendor_err := wce_vendor_err w; wce_byte_len := wce_byte_len w;
     wce_imm_data := wce_imm_data w; wce_qp_num := wce_qp_num w; wce_src_qp := wce_src_qp w;
     wce_flags := wce_flags w; wce_pkey_index := wce_pkey_index w; wce_slid := wce_slid w;
     wce_sl := wce_sl w; wce_dlid_path_bits := wce_dlid_path_bits w |}.
Definition set_wce_byte_len (v : Z) (w : work_completion) : work_completion :=
  {| wce_wr_id := wce_wr_id w; wce_status := wce_status w; wce_opcode := wce_opcode w;
     wce_vendor_err := wce_vendor_err w; wce_byte_len := u32 v;
     wce_imm_data := wce_imm_data w; wce_qp_num := wce_qp_num w; wce_src_qp := wce_src_qp w;
     wce_flags := wce_flags w; wce_pkey_index := wce_pkey_index w; wce_slid := wce_slid w;
     wce_sl := wce_sl w; wce_dlid_path_bits := wce_dlid_path_bits w |}.
Definition set_wce_src_qp (v : Z) (w : work_completion) : work_completion :=
  {| wce_wr_id := wce_wr_id w; wce_status := wce_status w; wce_opcode := wce_opcode w;
     wce_vendor_err := wce_vendor_err w; wce_byte_len := wce_byte_len w;
     wce_imm_data := wce_imm_data w; wce_qp_num := wce_qp_num w; wce_src_qp := v;
     wce_flags := wce_flags w; wce_pkey_index := wce_pkey_index w; wce_slid := wce_slid w;
     wce_sl := wce_sl w; wce_dlid_path_bits := wce_dlid_path_bits w |}.

(** ** Work requests *)
Inductive wq_state := WQS_RESET | WQS_RDY | WQS_ERR | WQS_UNKNOWN.
Inductive wq_type := WQT_RQ | WQT_SQ.

(** [sg_list] is a pointer to an array of [num_sge] elements. *)
Record recv_wr := { rwr_wr_id : Z; rwr_sg_list : Z; rwr_num_sge : Z }.

Record send_wr := {
  swr_wr_id : Z; swr_sg_list : Z; swr_num_sge : Z; swr_opcode : rdma_opcode;
  swr_send_flags : Z; swr_invalidate_rkey : Z; swr_remote_addr : Z; swr_rkey : Z }.

#[global] Instance recv_wr_eq_dec : EqDecision recv_wr.
Proof. solve_decision. Defined.
#[global] Instance send_wr_eq_dec : EqDecision send_wr.
Proof. solve_decision. Defined.
#[global] Instance work_completion_eq_dec : EqDecision work_completion.
Proof. solve_decision. Defined.

(** ** Queues *)
Record cq := { cq_ctx : Z; cq_q : cqueue work_completion; cq_pending_q : cqueue work_completion }.

(** The union [send_q]/[recv_q], selected by [wq_type]. *)
Inductive wq_queue :=
| SendQ (q : cqueue send_wr)
| RecvQ (q : cqueue recv_wr).

Record wq := {
  wq_context : Z; wq_pd : Z; wq_cq : Z; wq_wq_num : Z; wq_handle : Z; wq_st : wq_state;
  wq_wq_type : wq_type; wq_queue_of : wq_queue; wq_events_completed : Z; wq_comp_mask : Z }.

Record wq_init_attr := {
  wia_wq_context : Z; wia_wq_type : wq_type; wia_max_wr : Z; wia_max_sge : Z; wia_pd : Z;
  wia_cq : Z; wia_comp_mask : Z }.

(** The heap blocks of these two types. *)
Record qheap := { cqs : gmap Z cq; wqs : gmap Z wq }.

Definition set_cqs (f : gmap Z cq -> gmap Z cq) (h : qheap) : qheap :=
  {| cqs := f (cqs h); wqs := wqs h |}.
Definition set_wqs (f : gmap Z wq -> gmap Z wq) (h : qheap) : qheap :=
  {| cqs := cqs h; wqs := f (wqs h) |}.

(** [num_cqe] only sizes the initial block pool of the two queues. *)
Definition create_cq (p : Z) (ctx num_cqe : Z) (h : qheap) : Z * qheap :=
  (p, set_cqs <[p := {| cq_ctx := ctx; cq_q := cq_new; cq_pending_q := cq_new |}]> h).

(** The block must be a live one. *)
Definition destroy_cq (p : Z) (h : qheap) : run (Z * qheap) :=
  _ ← deref (cqs h !! p); mret (0, set_cqs (delete p) h).

(** [num_entries] is converted to [size_t]. *)
Definition poll_cq (p num_entries : Z) (h : qheap) : option (Z * list work_completion * qheap) :=
  c ← cqs h !! p;
  let '(got, q) := try_dequeue_bulk (Z.to_nat (u64 num_entries)) (cq_q c) in
  Some (zlen got, got,
        set_cqs <[p := {| cq_ctx := cq_ctx c; cq_q := q; cq_pending_q := cq_pending_q c |}]> h).

Definition create_wq (p context : Z) (attr : wq_init_attr) (junk : wq) (h : qheap) : Z * qheap :=
  (p, set_wqs <[p := {|
    wq_context := context; wq_pd := wia_pd attr; wq_cq := wia_cq attr;
    wq_wq_num := wq_wq_num junk; wq_handle := wq_handle junk; wq_st := wq_st junk;
    wq_wq_type := wia_wq_type attr;
    wq_queue_of := match wia_wq_type attr with WQT_SQ => SendQ cq_new | WQT_RQ => RecvQ cq_new end;
    wq_events_completed := wq_events_completed junk; wq_comp_mask := wia_comp_mask attr |}]> h).

(** The [switch] on [wq_type] picks the member of the union that is deleted. *)
Definition destroy_wq (p : Z) (h : qheap) : run (Z * qheap) :=
  w ← deref (wqs h !! p);
  match wq_wq_type w, wq_queue_of w with
  | WQT_SQ, SendQ _ => mret (0, set_wqs (delete p) h)
  | WQT_RQ, RecvQ _ => mret (0, set_wqs (delete p) h)
  | _, _ => Undefined
  end.

(** The two assignments of the function; its missing [return] is undefined
    behaviour in C++, and no caller reads the result. *)
Definition send_wr_to_wce (wr : send_wr) (wce : work_completion) : work_completion :=
  set_wce_opcode (rdma_opcode_val (swr_opcode wr)) (set_wce_wr_id (swr_wr_id wr) wce).

(** ** Invariant: the queue stored in a work queue is the one its type says *)
Definition wq_ok (w : wq) : Prop :=
  match wq_wq_type w, wq_queue_of w with
  | WQT_SQ, SendQ q => wf_queue q
  | WQT_RQ, RecvQ q => wf_queue q
  | _, _ => False
  end.

Definition cq_ok (c : cq) : Prop := wf_queue (cq_q c) /\ wf_queue (cq_pending_q c).

Definition heap_ok (h : qheap) : Prop :=
  map_Forall (fun _ c => cq_ok c) (cqs h) /\ map_Forall (fun _ w => wq_ok w) (wqs h).

Lemma wf_queue_new {A} : wf_queue (@cq_new A).
Proof. apply NoDup_nil_2. Qed.

Lemma heap_ok_cqs h p c : heap_ok h -> cq_ok c -> heap_ok (set_cqs <[p := c]> h).
Proof. intros [H1 H2] Hc; split; [by apply map_Forall_insert_2|done]. Qed.
Lemma heap_ok_wqs h p w : heap_ok h -> wq_ok w -> heap_ok (set_wqs <[p := w]> h).
Proof. intros [H1 H2] Hc; split; [done|by apply map_Forall_insert_2]. Qed.

#[export] Hint Resolve heap_ok_cqs heap_ok_wqs wf_queue_new : word.

(** The heap of queues stays well formed under creation, destruction and polling: every
    work queue holds a queue of the kind its type announces, and every queue has one
    producer per thread.  So destroying a live queue deletes the member of the union
    that is there; destroying it again is undefined. *)
Theorem queue_heap_invariant h p ctx n attr junk :
  heap_ok h ->
  heap_ok (create_cq p ctx n h).2 /\ heap_ok (create_wq p ctx attr junk h).2 /\
  (forall c, cqs h !! p = Some c ->
     destroy_cq p h = Done (0, set_cqs (delete p) h) /\ heap_ok (set_cqs (delete p) h) /\
     destroy_cq p (set_cqs (delete p) h) = Undefined) /\
  (forall w, wqs h !! p = Some w ->
     destroy_wq p h = Done (0, set_wqs (delete p) h) /\ heap_ok (set_wqs (delete p) h) /\
     destroy_wq p (set_wqs (delete p) h) = Undefined) /\
  forall k got h', poll_cq p n h = Some (k, got, h') -> heap_ok h'.
Proof.
  intros Hh; split_all.
  - apply heap_ok_cqs; [done|split; apply wf_queue_new].
  - apply heap_ok_wqs; [done|]; unfold wq_ok; cbn; destruct (wia_wq_type attr); apply wf_queue_new.
  - intros c Hc; unfold destroy_cq; cbn [cqs set_cqs]; rewrite Hc, lookup_delete_eq.
    destruct Hh; split; [done|split; [split; [by apply map_Forall_delete|done]|done]].
  - intros w Hw; unfold destroy_wq; cbn [wqs set_wqs]; rewrite Hw, lookup_delete_eq.
    destruct Hh as [H1 H2]; pose proof (H2 p w Hw) as Hok; cbn beta in Hok; unfold wq_ok in Hok.
    split; [cbn; by destruct (wq_wq_type w), (wq_queue_of w)|].
    split; [split; [done|by apply map_Forall_delete]|done].
  - intros k got h' E; unfold poll_cq in E; apply bind_Some in E as (c&Hc&E).
    pose proof (try_dequeue_bulk_facts (cq_q c) (Z.to_nat (u64 n))) as (_&_&Ht&_).
    destruct (try_dequeue_bulk _ _) as [g q] eqn:?; simplify_eq; cbn [snd] in Ht.
    destruct Hh as [H1 H2] eqn:?; apply heap_ok_cqs; [done|].
    destruct (H1 _ _ Hc) as [Hq Hp]; split; [|done].
    unfold wf_queue; cbn [cq_q]; by rewrite Ht.
Qed.
