(* ===== verification/Ddp.v ===== *)
(** * DDP: direct data placement ([suiw/ddp/ddp.h], [suiw/ddp/buffer.h], [suiw/ddp/ddp.cpp])

    Segmentation of messages into MPA frames, and placement of received segments
    straight into memory: at the address the header carries for tagged messages,
    at an offset of a posted buffer for untagged ones. *)

From S2P Require Import Prelude Endian Wire Socket Mpa Memory CQueue.

(** ** Buffers *)
Record untagged_buffer := { ub_data : Z; ub_len : Z; ub_next : Z }.
Record untagged_buffer_queue := { ubq_q : cqueue untagged_buffer; ubq_msn : Z }.
Record pd_t := { pd_id : Z }.
Record stag_t := { st_tag : Z; st_pd : pd_t }.
Record tagged_buffer := { tb_stag : stag_t; tb_data : Z; tb_len : Z; tb_access_ctrl : Z }.

(** ** Headers *)
Definition MAX_UNTAGGED_BUFFERS : Z := 3.
Definition DDP_CTRL_SIZE : Z := 1.
Definition DDP_TAGGED_HDR_SIZE : Z := 13.
Definition DDP_UNTAGGED_HDR_SIZE : Z := 17.

Definition DDP_HDR_T : Z := Z.shiftl 1 7.
Definition DDP_HDR_L : Z := Z.shiftl 1 6.
Definition DDP_HDR_RSVD : Z := Z.shiftl 0xF 2.
Definition DDP_HDR_DV : Z := 0x3.

Definition ddp_set_tagged (bits : Z) : Z := bits.
Definition ddp_is_tagged (bits : Z) : Z := Z.land DDP_HDR_T bits.

(** Packed structs; the multi-byte members hold network order on the sending
    path and are converted in place on the receiving path. *)
Record ddp_tagged_meta := { tm_rsvdULP1 : Z; tm_tag : Z; tm_TO : Z }.
Record ddp_untagged_meta := {
  um_rsvdULP1 : Z; um_rsvdULP2 : Z; um_qn : Z; um_msn : Z; um_mo : Z }.

Definition set_tm_TO (v : Z) (t : ddp_tagged_meta) : ddp_tagged_meta :=
  {| tm_rsvdULP1 := tm_rsvdULP1 t; tm_tag := tm_tag t; tm_TO := v |}.
Definition set_um_mo (v : Z) (u : ddp_untagged_meta) : ddp_untagged_meta :=
  {| um_rsvdULP1 := um_rsvdULP1 u; um_rsvdULP2 := um_rsvdULP2 u; um_qn := um_qn u;
     um_msn := um_msn u; um_mo := v |}.

Definition tagged_meta_bytes (t : ddp_tagged_meta) : list byte :=
  le_bytes 1 (tm_rsvdULP1 t) ++ le_bytes 4 (tm_tag t) ++ le_bytes 8 (tm_TO t).
Definition tagged_meta_of_bytes (bs : list byte) : ddp_tagged_meta :=
  let '(r, bs) := get_le 1 bs in let '(t, bs) := get_le 4 bs in let '(o, _) := get_le 8 bs in
  {| tm_rsvdULP1 := r; tm_tag := t; tm_TO := o |}.

Definition untagged_meta_bytes (u : ddp_untagged_meta) : list byte :=
  le_bytes 1 (um_rsvdULP1 u) ++ le_bytes 4 (um_rsvdULP2 u) ++ le_bytes 4 (um_qn u) ++
  le_bytes 4 (um_msn u) ++ le_bytes 4 (um_mo u).
Definition untagged_meta_of_bytes (bs : list byte) : ddp_untagged_meta :=
  let '(r1, bs) := get_le 1 bs in let '(r2, bs) := get_le 4 bs in let '(q, bs) := get_le 4 bs in
  let '(n, bs) := get_le 4 bs in let '(o, _) := get_le 4 bs in
  {| um_rsvdULP1 := r1; um_rsvdULP2 := r2; um_qn := q; um_msn := n; um_mo := o |}.

Definition wf_tagged_meta (t : ddp_tagged_meta) : Prop :=
  in_u 8 (tm_rsvdULP1 t) /\ in_u 32 (tm_tag t) /\ in_u 64 (tm_TO t).
Definition wf_untagged_meta (u : ddp_untagged_meta) : Prop :=
  in_u 8 (um_rsvdULP1 u) /\ in_u 32 (um_rsvdULP2 u) /\ in_u 32 (um_qn u) /\
  in_u 32 (um_msn u) /\ in_u 32 (um_mo u).

Lemma length_tagged_meta_bytes t : length (tagged_meta_bytes t) = 13%nat.
Proof. unfold tagged_meta_bytes; by rewrite !length_app, !length_le_bytes. Qed.
Lemma length_untagged_meta_bytes u : length (untagged_meta_bytes u) = 17%nat.
Proof. unfold untagged_meta_bytes; by rewrite !length_app, !length_le_bytes. Qed.

Lemma tagged_meta_roundtrip t rest :
  wf_tagged_meta t -> tagged_meta_of_bytes (tagged_meta_bytes t ++ rest) = t.
Proof.
  destruct t as [r t o]; intros (?&?&?); unfold tagged_meta_of_bytes, tagged_meta_bytes.
  cbn [tm_rsvdULP1 tm_tag tm_TO] in *; rewrite <- !app_assoc, !get_le_bytes.
  by rewrite !wrap_small.
Qed.
Lemma untagged_meta_roundtrip u rest :
  wf_untagged_meta u -> untagged_meta_of_bytes (untagged_meta_bytes u ++ rest) = u.
Proof.
  destruct u as [r1 r2 q n o]; intros (?&?&?&?&?); unfold untagged_meta_of_bytes, untagged_meta_bytes.
  cbn [um_rsvdULP1 um_rsvdULP2 um_qn um_msn um_mo] in *; rewrite <- !app_assoc, !get_le_bytes.
  by rewrite !wrap_small.
Qed.

#[global] Instance tagged_meta_codec : Codec ddp_tagged_meta 13 := {|
  wf_codec := wf_tagged_meta; encode := tagged_meta_bytes; decode := tagged_meta_of_bytes;
  length_encode := length_tagged_meta_bytes; decode_encode := tagged_meta_roundtrip |}.
#[global] Instance untagged_meta_codec : Codec ddp_untagged_meta 17 := {|
  wf_codec := wf_untagged_meta; encode := untagged_meta_bytes; decode := untagged_meta_of_bytes;
  length_encode := length_untagged_meta_bytes; decode_encode := untagged_meta_roundtrip |}.

(** The two unions of [ddp_message].  The buffer union is read through the
    member that was not written last when an untagged message finds its queue
    empty: [as_untag_buf] gives the members a [tagged_buffer] object shows there
    ([data] overlays the stag and the protection domain, [len] the low half of
    the data pointer, [next] the length). *)
Inductive msg_meta := TaggedMeta (t : ddp_tagged_meta) | UntaggedMeta (u : ddp_untagged_meta).
Inductive msg_buffer := UntagBuf (b : untagged_buffer) | TagBuf (b : tagged_buffer).

Definition meta_rsvdULP1 (m : msg_meta) : Z :=
  match m with TaggedMeta t => tm_rsvdULP1 t | UntaggedMeta u => um_rsvdULP1 u end.
Definition as_untag_buf (b : msg_buffer) : untagged_buffer :=
  match b with
  | UntagBuf b => b
  | TagBuf t => {| ub_data := u64 (st_tag (tb_stag t) + 2 ^ 32 * pd_id (st_pd (tb_stag t)));
                   ub_len := u32 (tb_data t); ub_next := tb_len t |}
  end.

Record ddp_message := { dm_bits : Z; dm_meta : msg_meta; dm_buf : msg_buffer; dm_len : Z }.

Definition set_dm_bits (v : Z) (m : ddp_message) : ddp_message :=
  {| dm_bits := v; dm_meta := dm_meta m; dm_buf := dm_buf m; dm_len := dm_len m |}.
Definition set_dm_meta (v : msg_meta) (m : ddp_message) : ddp_message :=
  {| dm_bits := dm_bits m; dm_meta := v; dm_buf := dm_buf m; dm_len := dm_len m |}.
Definition set_dm_buf (v : msg_buffer) (m : ddp_message) : ddp_message :=
  {| dm_bits := dm_bits m; dm_meta := dm_meta m; dm_buf := v; dm_len := dm_len m |}.
Definition set_dm_len (v : Z) (m : ddp_message) : ddp_message :=
  {| dm_bits := dm_bits m; dm_meta := dm_meta m; dm_buf := dm_buf m; dm_len := v |}.

(** ** The stream *)
Record ddp_stream_context := {
  dc_sockfd : Z; dc_pd : Z; dc_queues : list untagged_buffer_queue;
  dc_tagged_buffers : gmap Z tagged_buffer }.

Definition set_dc_queues (f : list untagged_buffer_queue -> list untagged_buffer_queue)
    (c : ddp_stream_context) : ddp_stream_context :=
  {| dc_sockfd := dc_sockfd c; dc_pd := dc_pd c; dc_queues := f (dc_queues c);
     dc_tagged_buffers := dc_tagged_buffers c |}.
Definition set_dc_tagged (f : gmap Z tagged_buffer -> gmap Z tagged_buffer)
    (c : ddp_stream_context) : ddp_stream_context :=
  {| dc_sockfd := dc_sockfd c; dc_pd := dc_pd c; dc_queues := dc_queues c;
     dc_tagged_buffers := f (dc_tagged_buffers c) |}.

Definition ddp_init_stream (sockfd pd : Z) : ddp_stream_context :=
  {| dc_sockfd := sockfd; dc_pd := pd;
     dc_queues := replicate (Z.to_nat MAX_UNTAGGED_BUFFERS) {| ubq_q := cq_new; ubq_msn := 1 |};
     dc_tagged_buffers := ∅ |}.

(** The calling thread [t] enqueues; an invalid queue number is only logged. *)
Definition ddp_post_recv (t : nat) (ctx : ddp_stream_context) (qn : Z)
    (bufs : list untagged_buffer) : ddp_stream_context :=
  if (qn <? 0) || (MAX_UNTAGGED_BUFFERS <=? qn) then ctx
  else set_dc_queues (alter (fun u => {| ubq_q := enqueue_bulk t bufs (ubq_q u);
                                         ubq_msn := ubq_msn u |}) (Z.to_nat qn)) ctx.

(** The index of the queue a header selects, or [None] for [NULL].  The signed
    [ut_q->msn] is converted to unsigned by the comparison. *)
Definition ddp_check_untagged_hdr (ctx : ddp_stream_context) (hdr : ddp_untagged_meta)
  : option nat :=
  if MAX_UNTAGGED_BUFFERS <=? um_qn hdr then None
  else
    u ← dc_queues ctx !! Z.to_nat (um_qn hdr);
    if um_msn hdr <? u32 (ubq_msn u) then None else Some (Z.to_nat (um_qn hdr)).

Definition register_tagged_buffer (ctx : ddp_stream_context) (buf : tagged_buffer)
  : Z * tagged_buffer * ddp_stream_context :=
  let buf := {| tb_stag := {| st_tag := u32 (tb_data buf); st_pd := st_pd (tb_stag buf) |};
                tb_data := tb_data buf; tb_len := tb_len buf;
                tb_access_ctrl := tb_access_ctrl buf |} in
  (0, buf, set_dc_tagged <[st_tag (tb_stag buf) := buf]> ctx).

(** [unordered_map::erase] returns the number of entries removed. *)
Definition deregister_tagged_buffer (ctx : ddp_stream_context) (stag : stag_t)
  : Z * ddp_stream_context :=
  (match dc_tagged_buffers ctx !! st_tag stag with Some _ => 1 | None => 0 end,
   set_dc_tagged (delete (st_tag stag)) ctx).

Definition ddp_check_stag (ctx : ddp_stream_context) (hdr : ddp_tagged_meta)
  : option tagged_buffer :=
  b ← dc_tagged_buffers ctx !! tm_tag hdr;
  if (tm_TO hdr <? tb_data b) || (u64 (tb_data b + tb_len b) <? tm_TO hdr) then None
  else Some b.

(** ** Sending *)

(** One scatter/gather element is cut into segments of at most [MULPDU] bytes.
    [packet_len] is the length of the next segment. *)
Definition packet_len (remaining : Z) : Z := if MULPDU <? remaining then MULPDU else remaining.

(** [hdr.bits |= DDP_FLAG_LAST] on the last segment of the last element. *)
Definition seg_bits (bits : Z) (last_sge : bool) (remaining : Z) : Z :=
  if last_sge && (packet_len remaining =? remaining) then u8 (Z.lor bits DDP_FLAG_LAST) else bits.

(** The payload of the segment that starts [remaining] bytes before the end of
    the element; the offset is computed in 32 bits. *)
Definition seg_payload (m : mem) (g : sge) (remaining : Z) : list byte :=
  mem_read m (sge_addr g + u32 (sge_length g - remaining)) (packet_len remaining).

(** Iterations the segmentation loop needs for [remaining] bytes. *)
Definition seg_fuel (remaining : Z) : nat := Z.to_nat (Z.max 0 remaining / MULPDU + 2).

Record tagged_send_state := { ts_bits : Z; ts_hdr : ddp_tagged_meta; ts_ho_TO : Z }.

Fixpoint send_tagged_loop (fuel : nat) (m : mem) (g : sge) (last_sge : bool) (remaining : Z)
    (st : tagged_send_state) (s : sock) : option (Z * tagged_send_state * sock) :=
  match fuel with
  | O => None
  | S fuel =>
      if remaining <=? 0 then Some (0, st, s)
      else
        let bits := seg_bits (ts_bits st) last_sge remaining in
        let '(ret, s) := mpa_send [le_bytes 1 bits; encode (ts_hdr st); seg_payload m g remaining] s in
        if ret <? 0
        then Some (ret, {| ts_bits := bits; ts_hdr := ts_hdr st; ts_ho_TO := ts_ho_TO st |}, s)
        else
          let ho_TO := u64 (ts_ho_TO st + packet_len remaining) in
          send_tagged_loop fuel m g last_sge (remaining - packet_len remaining)
            {| ts_bits := bits; ts_hdr := set_tm_TO (htonll ho_TO) (ts_hdr st);
               ts_ho_TO := ho_TO |} s
  end.

(** The loop over the elements; [i == num_sge - 1] is "no element left". *)
Fixpoint send_tagged_sges (m : mem) (gs : list sge) (st : tagged_send_state) (s : sock)
  : option (Z * sock) :=
  match gs with
  | [] => Some (0, s)
  | g :: gs =>
      let remaining := i32 (sge_length g) in
      match send_tagged_loop (seg_fuel remaining) m g (bool_decide (gs = [])) remaining st s with
      | None => None
      | Some (ret, st, s) => if ret <? 0 then Some (ret, s) else send_tagged_sges m gs st s
      end
  end.

Definition ddp_send_tagged (m : mem) (next_hdr : ddp_tagged_meta) (sge_list : list sge) (s : sock)
  : option (Z * sock) :=
  send_tagged_sges m sge_list
    {| ts_bits := u8 (Z.lor (u8 (Z.lor 0 DDP_HDR_T)) 1); ts_hdr := next_hdr;
       ts_ho_TO := ntohll (tm_TO next_hdr) |} s.

Record untagged_send_state := { us_bits : Z; us_hdr : ddp_untagged_meta }.

Fixpoint send_untagged_loop (fuel : nat) (m : mem) (g : sge) (last_sge : bool) (remaining : Z)
    (st : untagged_send_state) (s : sock) : option (Z * untagged_send_state * sock) :=
  match fuel with
  | O => None
  | S fuel =>
      if remaining <=? 0 then Some (0, st, s)
      else
        let bits := seg_bits (us_bits st) last_sge remaining in
        let '(ret, s) := mpa_send [le_bytes 1 bits; encode (us_hdr st); seg_payload m g remaining] s in
        if ret <? 0 then Some (ret, {| us_bits := bits; us_hdr := us_hdr st |}, s)
        else
          send_untagged_loop fuel m g last_sge (remaining - packet_len remaining)
            {| us_bits := bits;
               us_hdr := set_um_mo (u32 (um_mo (us_hdr st) + packet_len remaining)) (us_hdr st) |} s
  end.

Fixpoint send_untagged_sges (m : mem) (gs : list sge) (st : untagged_send_state) (s : sock)
  : option (Z * sock) :=
  match gs with
  | [] => Some (0, s)
  | g :: gs =>
      let remaining := i32 (sge_length g) in
      match send_untagged_loop (seg_fuel remaining) m g (bool_decide (gs = [])) remaining st s with
      | None => None
      | Some (ret, st, s) => if ret <? 0 then Some (ret, s) else send_untagged_sges m gs st s
      end
  end.

Definition ddp_send_untagged (m : mem) (next_hdr : ddp_untagged_meta) (sge_list : list sge) (s : sock)
  : option (Z * sock) :=
  send_untagged_sges m sge_list
    {| us_bits := u8 (Z.lor 0 1); us_hdr := set_um_mo 0 next_hdr |} s.

(** ** Receiving *)

(** [struct ddp_hdr_packed]: eighteen bytes, read through either member of its
    union.  Members that are never assigned before they are read do not occur. *)
Definition ph_bits (ph : list byte) : Z := le_Z (take 1 ph).
Definition ph_TO (ph : list byte) : Z := le_Z (take 8 (drop 6 ph)).
Definition ph_mo (ph : list byte) : Z := le_Z (take 4 (drop 14 ph)).
Definition set_ph_TO (v : Z) (ph : list byte) : list byte :=
  take 6 ph ++ le_bytes 8 v ++ drop 14 ph.
Definition set_ph_mo (v : Z) (ph : list byte) : list byte :=
  take 14 ph ++ le_bytes 4 v.

(** Where the parts of a segment go: the memory after the call, the running
    payload length (an [int], which wraps as compiled), the packet, the socket. *)
Record ddp_io := { io_mem : mem; io_len : Z; io_info : siw_mpa_packet; io_sock : sock }.

(** The [while(true)] loop of the tagged branch: the payload goes to the address
    in the packed header, which each further segment overwrites. *)
Fixpoint recv_tagged_loop (segs fuel : nat) (ph : list byte) (mpa_payload_len : Z) (io : ddp_io)
  : option (Z * ddp_io) :=
  match segs with
  | O => None
  | S segs =>
      match mpa_recv fuel (io_info io) mpa_payload_len (io_sock io) with
      | None => None
      | Some o =>
          let io := {| io_mem := mem_write (io_mem io) (ph_TO ph) (mo_buf o);
                       io_len := i32 (io_len io + mpa_payload_len);
                       io_info := mo_info o; io_sock := mo_sock o |} in
          if mo_ret o <? 0 then Some (-1, io)
          else if negb (Z.land (ph_bits ph) DDP_FLAG_LAST =? 0) then Some (0, io)
          else
            match mpa_recv fuel (set_bytes_rcvd 0 (io_info io))
                    (DDP_CTRL_SIZE + DDP_TAGGED_HDR_SIZE) (io_sock io) with
            | None => None
            | Some o =>
                let ph := overlay (mo_buf o) ph in
                let io := {| io_mem := io_mem io; io_len := io_len io;
                             io_info := mo_info o; io_sock := mo_sock o |} in
                if mo_ret o <? 0 then Some (-1, io)
                else
                  recv_tagged_loop segs fuel (set_ph_TO (ntohll (ph_TO ph)) ph)
                    (i32 (ulpdu_len (mo_info o) - (DDP_CTRL_SIZE + DDP_TAGGED_HDR_SIZE))) io
            end
      end
  end.

(** The same loop for the untagged branch: the payload goes to an offset of the
    buffer at [data]. *)
Fixpoint recv_untagged_loop (segs fuel : nat) (data : Z) (ph : list byte) (mpa_payload_len : Z)
    (io : ddp_io) : option (Z * ddp_io) :=
  match segs with
  | O => None
  | S segs =>
      match mpa_recv fuel (io_info io) mpa_payload_len (io_sock io) with
      | None => None
      | Some o =>
          let io := {| io_mem := mem_write (io_mem io) (u64 (data + ph_mo ph)) (mo_buf o);
                       io_len := i32 (io_len io + mpa_payload_len);
                       io_info := mo_info o; io_sock := mo_sock o |} in
          if mo_ret o <? 0 then Some (-1, io)
          else if negb (Z.land (ph_bits ph) DDP_FLAG_LAST =? 0) then Some (0, io)
          else
            match mpa_recv fuel (set_bytes_rcvd 0 (io_info io))
                    (DDP_CTRL_SIZE + DDP_UNTAGGED_HDR_SIZE) (io_sock io) with
            | None => None
            | Some o =>
                let ph := overlay (mo_buf o) ph in
                let io := {| io_mem := io_mem io; io_len := io_len io;
                             io_info := mo_info o; io_sock := mo_sock o |} in
                if mo_ret o <? 0 then Some (-1, io)
                else
                  recv_untagged_loop segs fuel data (set_ph_mo (ntohl (ph_mo ph)) ph)
                    (i32 (ulpdu_len (mo_info o) - (DDP_CTRL_SIZE + DDP_UNTAGGED_HDR_SIZE))) io
            end
      end
  end.

(** The result of [ddp_recv]: its return value and everything it changed. *)
Record ddp_recv_out := {
  ro_ret : Z; ro_ctx : ddp_stream_context; ro_msg : ddp_message; ro_mem : mem; ro_sock : sock }.

Definition zero_ph (bits : Z) : list byte := le_bytes 1 bits ++ replicate 17 (Z_byte 0).

Definition ddp_recv_tagged (segs fuel : nat) (ctx : ddp_stream_context) (msg : ddp_message)
    (m : mem) (info : siw_mpa_packet) (s : sock) : option ddp_recv_out :=
  let mpa_payload_len := i32 (ulpdu_len info - (DDP_CTRL_SIZE + DDP_TAGGED_HDR_SIZE)) in
  if mpa_payload_len <? 0
  then Some {| ro_ret := -1; ro_ctx := ctx; ro_msg := msg; ro_mem := m; ro_sock := s |}
  else
    match mpa_recv fuel info DDP_TAGGED_HDR_SIZE s with
    | None => None
    | Some o =>
        if mo_ret o <? 0
        then Some {| ro_ret := mo_ret o; ro_ctx := ctx; ro_msg := msg; ro_mem := m;
                     ro_sock := mo_sock o |}
        else
          let t : ddp_tagged_meta := decode (mo_buf o) in
          let t := {| tm_rsvdULP1 := tm_rsvdULP1 t; tm_tag := ntohl (tm_tag t);
                      tm_TO := ntohll (tm_TO t) |} in
          let msg := set_dm_meta (TaggedMeta t) msg in
          match ddp_check_stag ctx t with
          | None => Some {| ro_ret := -1; ro_ctx := ctx; ro_msg := msg; ro_mem := m;
                            ro_sock := mo_sock o |}
          | Some b =>
              let msg := set_dm_buf (TagBuf b) msg in
              match recv_tagged_loop segs fuel (set_ph_TO (tm_TO t) (zero_ph (dm_bits msg)))
                      mpa_payload_len
                      {| io_mem := m; io_len := 0; io_info := mo_info o; io_sock := mo_sock o |} with
              | None => None
              | Some (ret, io) =>
                  Some {| ro_ret := ret; ro_ctx := ctx;
                          ro_msg := if ret <? 0 then msg else set_dm_len (io_len io) msg;
                          ro_mem := io_mem io; ro_sock := io_sock io |}
              end
          end
    end.

(** [ut_q->q->try_dequeue(msg->untag_buf)]: an empty queue is only logged, and
    what the union member held before is used as the buffer. *)
Definition untagged_dequeue (ctx : ddp_stream_context) (msg : ddp_message) (i : nat)
  : untagged_buffer * ddp_stream_context :=
  match dc_queues ctx !! i with
  | None => (as_untag_buf (dm_buf msg), ctx)
  | Some ut_q =>
      match try_dequeue (ubq_q ut_q) with
      | None => (as_untag_buf (dm_buf msg), ctx)
      | Some (b, q) => (b, set_dc_queues <[i := {| ubq_q := q; ubq_msn := ubq_msn ut_q |}]> ctx)
      end
  end.

Definition ddp_recv_untagged (segs fuel : nat) (ctx : ddp_stream_context) (msg : ddp_message)
    (m : mem) (info : siw_mpa_packet) (s : sock) : option ddp_recv_out :=
  let mpa_payload_len := i32 (ulpdu_len info - (DDP_CTRL_SIZE + DDP_UNTAGGED_HDR_SIZE)) in
  if mpa_payload_len <? 0
  then Some {| ro_ret := -1; ro_ctx := ctx; ro_msg := msg; ro_mem := m; ro_sock := s |}
  else
    match mpa_recv fuel info DDP_UNTAGGED_HDR_SIZE s with
    | None => None
    | Some o =>
        if mo_ret o <? 0
        then Some {| ro_ret := mo_ret o; ro_ctx := ctx; ro_msg := msg; ro_mem := m;
                     ro_sock := mo_sock o |}
        else
          let u : ddp_untagged_meta := decode (mo_buf o) in
          let u := {| um_rsvdULP1 := um_rsvdULP1 u; um_rsvdULP2 := um_rsvdULP2 u;
                      um_qn := ntohl (um_qn u); um_msn := ntohl (um_msn u);
                      um_mo := ntohl (um_mo u) |} in
          let msg := set_dm_meta (UntaggedMeta u) msg in
          match ddp_check_untagged_hdr ctx u with
          | None => Some {| ro_ret := -1; ro_ctx := ctx; ro_msg := msg; ro_mem := m;
                            ro_sock := mo_sock o |}
          | Some i =>
              let '(buf, ctx) := untagged_dequeue ctx msg i in
              let msg := set_dm_buf (UntagBuf buf) msg in
              match recv_untagged_loop segs fuel (ub_data buf)
                      (set_ph_mo (um_mo u) (zero_ph (dm_bits msg))) mpa_payload_len
                      {| io_mem := m; io_len := 0; io_info := mo_info o; io_sock := mo_sock o |} with
              | None => None
              | Some (ret, io) =>
                  Some {| ro_ret := ret; ro_ctx := ctx;
                          ro_msg := if ret <? 0 then msg
                                    else set_dm_len (io_len io)
                                           (set_dm_meta (UntaggedMeta (set_um_mo 0 u)) msg);
                          ro_mem := io_mem io; ro_sock := io_sock io |}
              end
          end
    end.

(** [segs] bounds the number of segments of the message, [fuel] the [recv] calls
    for one payload. *)
Definition ddp_recv (segs fuel : nat) (ctx : ddp_stream_context) (msg : ddp_message) (m : mem)
    (s : sock) : option ddp_recv_out :=
  match mpa_recv fuel new_mpa_packet DDP_CTRL_SIZE s with
  | None => None
  | Some o =>
      if mo_ret o <? DDP_CTRL_SIZE
      then Some {| ro_ret := mo_ret o; ro_ctx := ctx; ro_msg := msg; ro_mem := m;
                   ro_sock := mo_sock o |}
      else
        let msg := set_dm_bits (le_Z (take 1 (mo_buf o))) msg in
        if negb (Z.land (dm_bits msg) DDP_HDR_T =? 0)
        then ddp_recv_tagged segs fuel ctx msg m (mo_info o) (mo_sock o)
        else ddp_recv_untagged segs fuel ctx msg m (mo_info o) (mo_sock o)
  end.
