(* ===== verification/DdpSegment.v ===== *)
(** * DDP: the segmentation contract

    A reference description of the frames a message turns into ([cut],
    [tagged_frames], [untagged_frames]), and the proof that the sending loops of
    [ddp.cpp] emit exactly these frames. *)

From S2P Require Import Prelude Endian Wire Socket Mpa Memory CQueue Ddp.

(** ** Reference segmentation: pieces of at most [MULPDU] bytes *)
Fixpoint cut (fuel : nat) (p : list byte) : list (list byte) :=
  match fuel with
  | O => []
  | S fuel =>
      if zlen p <=? 0 then []
      else if MULPDU <? zlen p then ztake MULPDU p :: cut fuel (zdrop MULPDU p) else [p]
  end.

Definition pieces (p : list byte) : list (list byte) := cut (seg_fuel (zlen p)) p.

Definition seg_ok (p : list byte) : Prop := 0 < zlen p <= MULPDU.

Lemma MULPDU_val : MULPDU = 65014.
Proof. reflexivity. Qed.

Lemma cut_ok fuel p : Forall seg_ok (cut fuel p).
Proof.
  revert p; induction fuel as [|fuel IH]; intros p; cbn [cut]; [constructor|].
  do 2 case_Z; repeat constructor; unfold seg_ok; try (rewrite MULPDU_val in *; zlen_lia).
  apply IH.
Qed.

Lemma seg_fuel_step n : MULPDU < n -> seg_fuel n = S (seg_fuel (n - MULPDU)).
Proof.
  intros H; unfold seg_fuel; rewrite MULPDU_val in *; rewrite !Z.max_r by lia.
  replace (n / 65014) with ((n - 65014) / 65014 + 1).
  2:{ rewrite <- Z.div_add by lia; f_equal; lia. }
  assert (0 <= (n - 65014) / 65014) by (apply Z.div_pos; lia); lia.
Qed.

Lemma seg_fuel_pos n : exists k, seg_fuel n = S (S k).
Proof.
  unfold seg_fuel.
  assert (0 <= Z.max 0 n / MULPDU) by (apply Z.div_pos; rewrite ?MULPDU_val; lia).
  exists (Z.to_nat (Z.max 0 n / MULPDU)); lia.
Qed.

(** The loop equation of the reference segmentation. *)
Lemma pieces_eq p :
  pieces p = if zlen p <=? 0 then []
             else if MULPDU <? zlen p then ztake MULPDU p :: pieces (zdrop MULPDU p) else [p].
Proof.
  unfold pieces; destruct (seg_fuel_pos (zlen p)) as [k E].
  remember (S k) as j eqn:Ej; clear k Ej; rewrite E; cbn [cut].
  destruct (Z.leb_spec (zlen p) 0); [done|].
  destruct (Z.ltb_spec MULPDU (zlen p)); [|done].
  rewrite seg_fuel_step in E by done; injection E as <-; do 2 f_equal.
  f_equal; rewrite zlen_zdrop, MULPDU_val in *; lia.
Qed.

Lemma pieces_small p : 0 < zlen p <= MULPDU -> pieces p = [p].
Proof. intros H; rewrite pieces_eq; do 2 case_Z; try lia; done. Qed.

(** Induction along the segmentation. *)
Lemma pieces_ind (P : list byte -> Prop) :
  P [] -> (forall p, seg_ok p -> P p) ->
  (forall p, MULPDU < zlen p -> P (zdrop MULPDU p) -> P p) -> forall p, P p.
Proof.
  intros H0 H1 H2 p; remember (length p) as n eqn:E.
  revert p E; induction n as [n IH] using lt_wf_ind; intros p ->.
  destruct (Z.le_gt_cases (zlen p) 0) as [Hle|Hgt]; [by rewrite (zlen_0_inv p Hle)|].
  destruct (Z.le_gt_cases (zlen p) MULPDU) as [Hm|Hm]; [by apply H1|].
  apply H2; [done|]; eapply IH; [|done]; unfold zdrop; rewrite length_drop.
  rewrite MULPDU_val in *; unfold zlen in *; lia.
Qed.

Lemma concat_pieces p : concat (pieces p) = p.
Proof.
  induction p as [|p H|p H IH] using pieces_ind.
  - done.
  - rewrite pieces_small by done; cbn; apply app_nil_r.
  - rewrite pieces_eq; do 2 case_Z; try (rewrite MULPDU_val in *; lia).
    cbn [concat]; rewrite IH; apply ztake_zdrop.
Qed.

Lemma pieces_ok p : Forall seg_ok (pieces p).
Proof. apply cut_ok. Qed.

Lemma pieces_nonempty p : p <> [] -> pieces p <> [].
Proof. intros H E; apply H; by rewrite <- (concat_pieces p), E. Qed.

(** ** Frames *)
Definition tagged_bits (last : bool) : Z := if last then 0xC1 else 0x81.
Definition untagged_bits (last : bool) : Z := if last then 0x41 else 0x01.

Definition tagged_frame (h : ddp_tagged_meta) (last : bool) (TO : Z) (p : list byte) : list byte :=
  fpdu (le_bytes 1 (tagged_bits last) ++ encode (set_tm_TO (htonll TO) h) ++ p).

(** The offset of an untagged segment is stored as a host integer. *)
Definition untagged_frame (h : ddp_untagged_meta) (last : bool) (mo : Z) (p : list byte) : list byte :=
  fpdu (le_bytes 1 (untagged_bits last) ++ encode (set_um_mo mo h) ++ p).

(** The frames of consecutive pieces; [last] says whether the final one carries
    the Last flag. *)
Fixpoint tagged_frames (h : ddp_tagged_meta) (last : bool) (TO : Z) (ps : list (list byte))
  : list byte :=
  match ps with
  | [] => []
  | p :: ps => tagged_frame h (last && bool_decide (ps = [])) TO p ++
               tagged_frames h last (u64 (TO + zlen p)) ps
  end.

Fixpoint untagged_frames (h : ddp_untagged_meta) (last : bool) (mo : Z) (ps : list (list byte))
  : list byte :=
  match ps with
  | [] => []
  | p :: ps => untagged_frame h (last && bool_decide (ps = [])) mo p ++
               untagged_frames h last (u32 (mo + zlen p)) ps
  end.

Lemma tagged_frames_app h TO ps qs :
  qs <> [] -> tagged_frames h true TO (ps ++ qs) =
    tagged_frames h false TO ps ++ tagged_frames h true (u64 (TO + sum_zlen ps)) qs.
Proof.
  intros Hq; revert TO; induction ps as [|p ps IH]; intros TO; cbn [app tagged_frames].
  - change (sum_zlen []) with 0; rewrite Z.add_0_r.
    destruct qs as [|q qs]; [done|]; cbn [tagged_frames]; unfold tagged_frame.
    rewrite !htonll_swap; f_equal.
    + do 4 f_equal; unfold set_tm_TO; f_equal.
      unfold swap, be_bytes; by rewrite (le_bytes_wrap 8).
    + by rewrite wrap_add_l.
  - rewrite bool_decide_false by (by destruct ps); rewrite IH, <- app_assoc; cbn [andb].
    do 2 f_equal; by rewrite wrap_add_l, sum_zlen_cons, Z.add_assoc.
Qed.

Lemma untagged_frames_app h mo ps qs :
  in_u 32 mo -> qs <> [] -> untagged_frames h true mo (ps ++ qs) =
    untagged_frames h false mo ps ++ untagged_frames h true (u32 (mo + sum_zlen ps)) qs.
Proof.
  intros Hm Hq; revert mo Hm; induction ps as [|p ps IH]; intros mo Hm; cbn [app untagged_frames].
  - change (sum_zlen []) with 0; by rewrite Z.add_0_r, wrap_small.
  - rewrite bool_decide_false by (by destruct ps); rewrite IH, <- app_assoc by (by apply wrap_range).
    cbn [andb]; do 2 f_equal; by rewrite wrap_add_l, sum_zlen_cons, Z.add_assoc.
Qed.

(** ** The sending loops emit the reference frames *)
Definition sge_bytes (m : mem) (g : sge) : list byte := mem_read m (sge_addr g) (sge_length g).

(** A socket that accepts everything, with [out] already sent. *)
Definition sent (s : sock) (out : list byte) : sock :=
  {| rx := rx s; tx := tx s ++ out; tx_plan := [] |}.

Lemma sent_sent s a b : sent (sent s a) b = sent s (a ++ b).
Proof. unfold sent; cbn; by rewrite app_assoc. Qed.
Lemma sent_nil s : tx_plan s = [] -> sent s [] = s.
Proof. destruct s; unfold sent; cbn; intros ->; by rewrite app_nil_r. Qed.

(** The part of an element that is still to be sent. *)
Definition sge_rest (m : mem) (g : sge) (remaining : Z) : list byte :=
  mem_read m (sge_addr g + (sge_length g - remaining)) remaining.

Lemma zlen_sge_rest m g n : 0 <= n -> zlen (sge_rest m g n) = n.
Proof. intros; unfold sge_rest; rewrite zlen_mem_read; lia. Qed.

Lemma sge_rest_split m g n :
  MULPDU < n -> ztake MULPDU (sge_rest m g n) = seg_payload m g n ->
  sge_rest m g n = seg_payload m g n ++ sge_rest m g (n - MULPDU).
Proof.
  intros Hn <-; rewrite <- (ztake_zdrop MULPDU (sge_rest m g n)) at 1; f_equal.
  unfold sge_rest; replace n with (MULPDU + (n - MULPDU)) at 2 by lia.
  rewrite mem_read_app by (rewrite MULPDU_val in *; lia).
  rewrite zdrop_app_exact by (rewrite zlen_mem_read, MULPDU_val; lia).
  f_equal; lia.
Qed.

Lemma seg_payload_take m g n :
  0 < n <= sge_length g -> in_u 32 (sge_length g) ->
  seg_payload m g n = ztake MULPDU (sge_rest m g n).
Proof.
  intros Hn Hl; unfold seg_payload, sge_rest, packet_len.
  rewrite wrap_small by word_lia; case_Z.
  - replace n with (MULPDU + (n - MULPDU)) at 3 by lia.
    rewrite mem_read_app by (rewrite MULPDU_val in *; lia).
    by rewrite ztake_app_exact by (rewrite zlen_mem_read, MULPDU_val; lia).
  - by rewrite ztake_ge by (rewrite zlen_mem_read; lia).
Qed.

(** Each segment fits in a frame. *)
Lemma mpa_send_segment (hd meta p : list byte) s :
  tx_plan s = [] -> zlen hd = 1 -> zlen meta <= 17 -> seg_ok p ->
  mpa_send [hd; meta; p] s = (zlen (fpdu (hd ++ meta ++ p)), sent s (fpdu (hd ++ meta ++ p))).
Proof.
  intros Hp Hh Hm Hs; unfold seg_ok in Hs; rewrite MULPDU_val in Hs.
  rewrite mpa_send_fpdu, sendmsg_full by (done || rewrite !sum_zlen_cons; unfold sum_zlen; cbn [concat];
    znil; lia).
  cbn [concat]; by rewrite app_nil_r.
Qed.

Lemma fpdu_ret_nonneg p : (zlen (fpdu p) <? 0) = false.
Proof. apply Z.ltb_ge, zlen_nonneg. Qed.

Lemma seg_bits_tagged last n :
  seg_bits 0x81 last n = tagged_bits (last && bool_decide (n <= MULPDU)).
Proof.
  unfold seg_bits, packet_len; destruct last; [|done]; cbn [andb].
  destruct (Z.ltb_spec MULPDU n); case_bool_decide; try lia.
  - by destruct (Z.eqb_spec MULPDU n); [lia|].
  - by rewrite Z.eqb_refl.
Qed.
Lemma seg_bits_untagged last n :
  seg_bits 0x01 last n = untagged_bits (last && bool_decide (n <= MULPDU)).
Proof.
  unfold seg_bits, packet_len; destruct last; [|done]; cbn [andb].
  destruct (Z.ltb_spec MULPDU n); case_bool_decide; try lia.
  - by destruct (Z.eqb_spec MULPDU n); [lia|].
  - by rewrite Z.eqb_refl.
Qed.

Lemma zlen_encode {T n} `{Codec T n} (x : T) : zlen (encode x) = Z.of_nat n.
Proof. unfold zlen; by rewrite length_encode. Qed.

(** The side conditions of [mpa_send_segment]. *)
Ltac seg_side :=
  first [ done | rewrite zlen_le_bytes; done | rewrite zlen_encode; lia
        | unfold seg_ok; rewrite MULPDU_val in *; lia ].

(** Induction on the number of bytes still to be sent. *)
Lemma remaining_ind (P : Z -> Prop) :
  P 0 -> (forall n, 0 < n <= MULPDU -> P n) ->
  (forall n, MULPDU < n -> P (n - MULPDU) -> P n) -> forall n, 0 <= n -> P n.
Proof.
  intros H0 H1 H2 n Hn; replace n with (zlen (replicate (Z.to_nat n) (Z_byte 0)))
    by (rewrite zlen_replicate; lia).
  generalize (replicate (Z.to_nat n) (Z_byte 0)) as p; clear n Hn.
  induction p as [|p H|p H IH] using pieces_ind; [done|by apply H1|].
  apply H2; [done|].
  assert (zlen (zdrop MULPDU p) = zlen p - MULPDU) as E
    by (rewrite zlen_zdrop, MULPDU_val in *; lia).
  by rewrite E in IH.
Qed.

Definition tagged_st (h : ddp_tagged_meta) (last : bool) (TO : Z) : tagged_send_state :=
  {| ts_bits := tagged_bits last; ts_hdr := set_tm_TO (htonll TO) h; ts_ho_TO := TO |}.
Definition untagged_st (h : ddp_untagged_meta) (last : bool) (mo : Z) : untagged_send_state :=
  {| us_bits := untagged_bits last; us_hdr := set_um_mo mo h |}.

Section sending.
Context (m : mem) (g : sge) (last : bool).
Hypothesis Hlen : in_u 32 (sge_length g).

Lemma pieces_sge_rest_big n :
  MULPDU < n <= sge_length g ->
  pieces (sge_rest m g n) = seg_payload m g n :: pieces (sge_rest m g (n - MULPDU)).
Proof.
  intros Hn; rewrite pieces_eq, zlen_sge_rest by (rewrite MULPDU_val in *; lia).
  destruct (Z.leb_spec n 0); [rewrite MULPDU_val in *; lia|].
  destruct (Z.ltb_spec MULPDU n); [|lia].
  rewrite <- seg_payload_take by (done || lia); f_equal.
  rewrite sge_rest_split by (try (rewrite <- seg_payload_take by (done || lia)); done || lia).
  rewrite zdrop_app_exact; [done|].
  rewrite seg_payload_take, zlen_ztake, zlen_sge_rest by (done || rewrite MULPDU_val in *; lia).
  rewrite MULPDU_val in *; lia.
Qed.

Lemma pieces_sge_rest_small n :
  0 < n <= MULPDU -> n <= sge_length g ->
  pieces (sge_rest m g n) = [seg_payload m g n] /\ zlen (seg_payload m g n) = n.
Proof.
  intros Hn Hl; rewrite seg_payload_take, ztake_ge by (done || rewrite ?zlen_sge_rest; lia).
  rewrite zlen_sge_rest by lia; split; [|done].
  apply pieces_small; rewrite zlen_sge_rest; lia.
Qed.

Lemma zlen_seg_payload_big n : MULPDU < n <= sge_length g -> zlen (seg_payload m g n) = MULPDU.
Proof.
  intros Hn; rewrite seg_payload_take, zlen_ztake, zlen_sge_rest
    by (done || rewrite MULPDU_val in *; lia); rewrite MULPDU_val in *; lia.
Qed.

Lemma send_tagged_loop_frames h n TO s :
  0 <= n <= sge_length g -> tx_plan s = [] -> in_u 64 TO ->
  send_tagged_loop (seg_fuel n) m g last n (tagged_st h false TO) s =
    Some (0, tagged_st h (last && bool_decide (0 < n)) (u64 (TO + n)),
          sent s (tagged_frames h last TO (pieces (sge_rest m g n)))).
Proof.
  intros [Hn Hl]; revert TO s Hl; pattern n; apply remaining_ind; [| |clear n Hn|done].
  - intros TO s _ Hp HTO; cbn; rewrite andb_false_r, Z.add_0_r, wrap_small by done.
    by rewrite sent_nil.
  - clear n Hn; intros n Hn TO s Hl Hp HTO; destruct (seg_fuel_pos n) as [k ->].
    destruct (pieces_sge_rest_small n Hn Hl) as [-> Hz].
    cbn [send_tagged_loop]; destruct (Z.leb_spec n 0); [lia|].
    change (ts_bits (tagged_st h false TO)) with 0x81; rewrite seg_bits_tagged.
    rewrite bool_decide_true by lia; rewrite andb_true_r.
    rewrite mpa_send_segment by seg_side.
    rewrite fpdu_ret_nonneg; assert (packet_len n = n) as -> by (unfold packet_len; case_Z; lia).
    rewrite Z.sub_diag; cbn [Z.leb]; change (0 <=? 0) with true; cbv iota.
    rewrite bool_decide_true by lia; rewrite andb_true_r; cbn [tagged_frames].
    rewrite bool_decide_true by done; rewrite andb_true_r, app_nil_r; done.
  - intros n Hn IH TO s Hl Hp HTO; rewrite seg_fuel_step by done.
    rewrite pieces_sge_rest_big by lia; cbn [send_tagged_loop tagged_frames].
    destruct (Z.leb_spec n 0); [rewrite MULPDU_val in *; lia|].
    change (ts_bits (tagged_st h false TO)) with 0x81; rewrite seg_bits_tagged.
    rewrite (bool_decide_false (n <= MULPDU)), andb_false_r by lia.
    pose proof (zlen_seg_payload_big n ltac:(lia)) as Hz.
    rewrite mpa_send_segment by seg_side.
    rewrite fpdu_ret_nonneg; assert (packet_len n = MULPDU) as -> by (unfold packet_len; case_Z; lia).
    change {| ts_bits := tagged_bits false;
      ts_hdr := set_tm_TO (htonll (u64 (ts_ho_TO (tagged_st h false TO) + MULPDU)))
                  (ts_hdr (tagged_st h false TO));
      ts_ho_TO := u64 (ts_ho_TO (tagged_st h false TO) + MULPDU) |}
      with (tagged_st h false (u64 (TO + MULPDU))).
    rewrite IH by first [done | rewrite MULPDU_val in *; lia | by apply wrap_range]; rewrite sent_sent, Hz, wrap_add_l.
    replace (TO + MULPDU + (n - MULPDU)) with (TO + n) by lia.
    rewrite !bool_decide_true by (rewrite MULPDU_val in *; lia).
    rewrite (bool_decide_false (pieces _ = [])); [by rewrite andb_false_r|].
    apply pieces_nonempty; intros E; apply (f_equal zlen) in E.
    rewrite zlen_sge_rest in E by lia; znil; lia.
Qed.

Lemma send_untagged_loop_frames h n mo s :
  0 <= n <= sge_length g -> tx_plan s = [] -> in_u 32 mo ->
  send_untagged_loop (seg_fuel n) m g last n (untagged_st h false mo) s =
    Some (0, untagged_st h (last && bool_decide (0 < n)) (u32 (mo + n)),
          sent s (untagged_frames h last mo (pieces (sge_rest m g n)))).
Proof.
  intros [Hn Hl]; revert mo s Hl; pattern n; apply remaining_ind; [| |clear n Hn|done].
  - intros mo s _ Hp Hmo; cbn; rewrite andb_false_r, Z.add_0_r, wrap_small by done.
    by rewrite sent_nil.
  - clear n Hn; intros n Hn mo s Hl Hp Hmo; destruct (seg_fuel_pos n) as [k ->].
    destruct (pieces_sge_rest_small n Hn Hl) as [-> Hz].
    cbn [send_untagged_loop]; destruct (Z.leb_spec n 0); [lia|].
    change (us_bits (untagged_st h false mo)) with 0x01; rewrite seg_bits_untagged.
    rewrite bool_decide_true by lia; rewrite andb_true_r.
    rewrite mpa_send_segment by seg_side.
    rewrite fpdu_ret_nonneg; assert (packet_len n = n) as -> by (unfold packet_len; case_Z; lia).
    rewrite Z.sub_diag; change (0 <=? 0) with true; cbv iota.
    rewrite bool_decide_true by lia; rewrite andb_true_r; cbn [untagged_frames].
    rewrite bool_decide_true by done; rewrite andb_true_r, app_nil_r; done.
  - intros n Hn IH mo s Hl Hp Hmo; rewrite seg_fuel_step by done.
    rewrite pieces_sge_rest_big by lia; cbn [send_untagged_loop untagged_frames].
    destruct (Z.leb_spec n 0); [rewrite MULPDU_val in *; lia|].
    change (us_bits (untagged_st h false mo)) with 0x01; rewrite seg_bits_untagged.
    rewrite (bool_decide_false (n <= MULPDU)), andb_false_r by lia.
    pose proof (zlen_seg_payload_big n ltac:(lia)) as Hz.
    rewrite mpa_send_segment by seg_side.
    rewrite fpdu_ret_nonneg; assert (packet_len n = MULPDU) as -> by (unfold packet_len; case_Z; lia).
    change {| us_bits := untagged_bits false;
      us_hdr := set_um_mo (u32 (um_mo (us_hdr (untagged_st h false mo)) + MULPDU))
                  (us_hdr (untagged_st h false mo)) |}
      with (untagged_st h false (u32 (mo + MULPDU))).
    rewrite IH by first [done | rewrite MULPDU_val in *; lia | by apply wrap_range]; rewrite sent_sent, Hz, wrap_add_l.
    replace (mo + MULPDU + (n - MULPDU)) with (mo + n) by lia.
    rewrite !bool_decide_true by (rewrite MULPDU_val in *; lia).
    rewrite (bool_decide_false (pieces _ = [])); [by rewrite andb_false_r|].
    apply pieces_nonempty; intros E; apply (f_equal zlen) in E.
    rewrite zlen_sge_rest in E by lia; znil; lia.
Qed.
End sending.

(** ** Whole messages *)

(** Elements as the sending code can represent them: lengths below 2 GiB. *)
Definition sges_ok (gs : list sge) : Prop := Forall (fun g => 0 <= sge_length g < 2 ^ 31) gs.
Definition msg_bytes (m : mem) (gs : list sge) : list byte := concat (map (sge_bytes m) gs).
Definition msg_pieces (m : mem) (gs : list sge) : list (list byte) :=
  concat (map (fun g => pieces (sge_bytes m g)) gs).

Lemma concat_msg_pieces m gs : concat (msg_pieces m gs) = msg_bytes m gs.
Proof.
  unfold msg_pieces, msg_bytes; induction gs as [|g gs IH]; [done|]; cbn [map concat].
  by rewrite concat_app, concat_pieces, IH.
Qed.

Lemma msg_pieces_ok m gs : Forall seg_ok (msg_pieces m gs).
Proof.
  unfold msg_pieces; induction gs as [|g gs IH]; cbn [map concat]; [constructor|].
  apply Forall_app; split; [apply pieces_ok|done].
Qed.

Lemma sge_rest_all m g : sge_rest m g (sge_length g) = sge_bytes m g.
Proof. unfold sge_rest, sge_bytes; f_equal; lia. Qed.

(** The last element is not empty. *)
Definition last_nonempty (gs : list sge) : Prop :=
  match last gs with Some g => 0 < sge_length g | None => False end.

Lemma msg_pieces_nonempty m gs : last_nonempty gs -> msg_pieces m gs <> [].
Proof.
  unfold last_nonempty; destruct (last gs) as [g|] eqn:E; [|done]; intros Hg He.
  apply last_Some in E as [gs' ->]; unfold msg_pieces in He.
  rewrite map_app, concat_app in He; cbn [map concat] in He; rewrite app_nil_r in He.
  apply app_eq_nil in He as [_ He]; revert He; apply pieces_nonempty.
  intros En; apply (f_equal zlen) in En; unfold sge_bytes in En; rewrite zlen_mem_read in En.
  znil; lia.
Qed.

Lemma sge_i32 g : 0 <= sge_length g < 2 ^ 31 -> i32 (sge_length g) = sge_length g.
Proof. intros; apply swrap_small; [lia|change (32 - 1) with 31; lia]. Qed.

(** An element that is not the last one. *)
Lemma last_nonempty_cons g gs : last_nonempty (g :: gs) -> gs <> [] -> last_nonempty gs.
Proof. unfold last_nonempty; destruct gs; [done|]; cbn; done. Qed.

Lemma sum_zlen_pieces p : sum_zlen (pieces p) = zlen p.
Proof. unfold sum_zlen; by rewrite concat_pieces. Qed.

Lemma zlen_sge_bytes m g : 0 <= sge_length g -> zlen (sge_bytes m g) = sge_length g.
Proof. intros; unfold sge_bytes; rewrite zlen_mem_read; lia. Qed.

Lemma send_tagged_sges_frames m h gs TO s :
  sges_ok gs -> last_nonempty gs -> tx_plan s = [] -> in_u 64 TO ->
  send_tagged_sges m gs (tagged_st h false TO) s =
    Some (0, sent s (tagged_frames h true TO (msg_pieces m gs))).
Proof.
  revert TO s; induction gs as [|g gs IH]; intros TO s Hok Hl Hp HTO; [done|].
  apply Forall_cons_1 in Hok as [Hg Hok]; cbn [send_tagged_sges]; rewrite sge_i32 by done.
  rewrite send_tagged_loop_frames by (done || word_lia); rewrite sge_rest_all.
  change (0 <? 0) with false; cbv iota.
  unfold msg_pieces; cbn [map concat]; fold (msg_pieces m gs).
  destruct (decide (gs = [])) as [->|Hne].
  - rewrite bool_decide_true by done; cbn [send_tagged_sges]; do 3 f_equal.
    unfold msg_pieces; cbn; by rewrite app_nil_r.
  - rewrite (bool_decide_false (gs = [])) by done; cbn [andb].
    rewrite IH; [|done|by eapply last_nonempty_cons|done|by apply wrap_range].
    rewrite sent_sent, tagged_frames_app
      by (apply msg_pieces_nonempty; by eapply last_nonempty_cons).
    by rewrite sum_zlen_pieces, zlen_sge_bytes by lia.
Qed.

Lemma send_untagged_sges_frames m h gs mo s :
  sges_ok gs -> last_nonempty gs -> tx_plan s = [] -> in_u 32 mo ->
  send_untagged_sges m gs (untagged_st h false mo) s =
    Some (0, sent s (untagged_frames h true mo (msg_pieces m gs))).
Proof.
  revert mo s; induction gs as [|g gs IH]; intros mo s Hok Hl Hp Hmo; [done|].
  apply Forall_cons_1 in Hok as [Hg Hok]; cbn [send_untagged_sges]; rewrite sge_i32 by done.
  rewrite send_untagged_loop_frames by (done || word_lia); rewrite sge_rest_all.
  change (0 <? 0) with false; cbv iota.
  unfold msg_pieces; cbn [map concat]; fold (msg_pieces m gs).
  destruct (decide (gs = [])) as [->|Hne].
  - rewrite bool_decide_true by done; cbn [send_untagged_sges]; do 3 f_equal.
    unfold msg_pieces; cbn; by rewrite app_nil_r.
  - rewrite (bool_decide_false (gs = [])) by done; cbn [andb].
    rewrite IH; [|done|by eapply last_nonempty_cons|done|by apply wrap_range].
    rewrite sent_sent, untagged_frames_app
      by (done || (apply msg_pieces_nonempty; by eapply last_nonempty_cons)).
    by rewrite sum_zlen_pieces, zlen_sge_bytes by lia.
Qed.

Lemma ddp_send_tagged_frames m h TO gs s :
  sges_ok gs -> last_nonempty gs -> tx_plan s = [] -> in_u 64 TO ->
  ddp_send_tagged m (set_tm_TO (htonll TO) h) gs s =
    Some (0, sent s (tagged_frames h true TO (msg_pieces m gs))).
Proof.
  intros; unfold ddp_send_tagged; cbn [tm_TO set_tm_TO].
  rewrite ntohll_htonll, (wrap_small 64 TO) by done.
  change (u8 (Z.lor (u8 (Z.lor 0 DDP_HDR_T)) 1)) with (tagged_bits false).
  by apply (send_tagged_sges_frames m h gs TO s).
Qed.

Lemma ddp_send_untagged_frames m h gs s :
  sges_ok gs -> last_nonempty gs -> tx_plan s = [] ->
  ddp_send_untagged m h gs s =
    Some (0, sent s (untagged_frames h true 0 (msg_pieces m gs))).
Proof.
  intros; unfold ddp_send_untagged; change (u8 (Z.lor 0 1)) with (untagged_bits false).
  apply (send_untagged_sges_frames m h gs 0 s); done || word_lia.
Qed.

(** ** Segmentation theorems *)

(** C12: Segmentation is exact: a message of elements below 2 GiB whose last
    element is not empty goes out as consecutive frames of at most [MULPDU]
    payload bytes whose payloads concatenate to the message, with the tagged
    offset advanced by what was sent before and the Last flag on the final frame
    only. *)
Theorem ddp_send_tagged_segments m h TO gs s :
  sges_ok gs -> last_nonempty gs -> tx_plan s = [] -> in_u 64 TO ->
  exists ps, concat ps = msg_bytes m gs /\ Forall seg_ok ps /\ ps <> [] /\
    ddp_send_tagged m (set_tm_TO (htonll TO) h) gs s =
      Some (0, sent s (tagged_frames h true TO ps)).
Proof.
  intros; exists (msg_pieces m gs); split_all.
  - apply concat_msg_pieces.
  - apply msg_pieces_ok.
  - by apply msg_pieces_nonempty.
  - by apply ddp_send_tagged_frames.
Qed.

Lemma ddp_send_tagged_segments_witness :
  exists ps, concat ps = msg_bytes ∅ [{| sge_addr := 16; sge_length := 3; sge_lkey := 0 |}] /\
    Forall seg_ok ps /\ ps <> [] /\
    ddp_send_tagged ∅ (set_tm_TO (htonll 4096) {| tm_rsvdULP1 := 64; tm_tag := 7; tm_TO := 0 |})
      [{| sge_addr := 16; sge_length := 3; sge_lkey := 0 |}] {| rx := []; tx := []; tx_plan := [] |} =
      Some (0, sent {| rx := []; tx := []; tx_plan := [] |}
                 (tagged_frames {| tm_rsvdULP1 := 64; tm_tag := 7; tm_TO := 0 |} true 4096 ps)).
Proof.
  apply (ddp_send_tagged_segments ∅ {| tm_rsvdULP1 := 64; tm_tag := 7; tm_TO := 0 |} 4096).
  - repeat constructor; cbn; lia.
  - cbn; lia.
  - reflexivity.
  - split; lia.
Defined.


(** ** Termination, errors and what is dropped *)

(** The messages of [sendmsg] that come back as failures: nothing is sent after
    the first one.  The two loops share this shape, so the facts below are proved
    once for each by induction on the bytes left. *)
Lemma remaining_ind_all (P : Z -> Prop) :
  (forall n, n <= 0 -> P n) -> (forall n, 0 < n <= MULPDU -> P n) ->
  (forall n, MULPDU < n -> P (n - MULPDU) -> P n) -> forall n, P n.
Proof.
  intros H0 H1 H2 n; destruct (Z.le_gt_cases n 0); [by apply H0|].
  apply remaining_ind; auto; try lia; intros; apply H0; lia.
Qed.

Lemma packet_len_big n : MULPDU < n -> packet_len n = MULPDU.
Proof. intros; unfold packet_len; case_Z; lia. Qed.
Lemma packet_len_small n : n <= MULPDU -> packet_len n = n.
Proof. intros; unfold packet_len; case_Z; lia. Qed.

(** The call has returned: read the result off the goal. *)
Ltac result := repeat eexists; first [reflexivity | lia].

Lemma send_tagged_loop_total m g last n st s :
  exists ret st' s', send_tagged_loop (seg_fuel n) m g last n st s = Some (ret, st', s') /\ ret <= 0.
Proof.
  revert st s; pattern n; apply remaining_ind_all; clear n.
  - intros n Hn st s; destruct (seg_fuel_pos n) as [k ->]; cbn [send_tagged_loop].
    destruct (Z.leb_spec n 0); [by result|lia].
  - intros n Hn st s; destruct (seg_fuel_pos n) as [k ->]; cbn [send_tagged_loop].
    destruct (Z.leb_spec n 0); [lia|]; destruct (mpa_send _ s) as [ret s'].
    destruct (Z.ltb_spec ret 0); [by result|].
    rewrite packet_len_small, Z.sub_diag by lia; change (0 <=? 0) with true; by result.
  - intros n Hn IH st s; rewrite seg_fuel_step by done; cbn [send_tagged_loop].
    destruct (Z.leb_spec n 0); [by result|]; destruct (mpa_send _ s) as [ret s'].
    destruct (Z.ltb_spec ret 0); [by result|].
    rewrite packet_len_big by done; apply IH.
Qed.

Lemma send_untagged_loop_total m g last n st s :
  exists ret st' s', send_untagged_loop (seg_fuel n) m g last n st s = Some (ret, st', s') /\ ret <= 0.
Proof.
  revert st s; pattern n; apply remaining_ind_all; clear n.
  - intros n Hn st s; destruct (seg_fuel_pos n) as [k ->]; cbn [send_untagged_loop].
    destruct (Z.leb_spec n 0); [by result|lia].
  - intros n Hn st s; destruct (seg_fuel_pos n) as [k ->]; cbn [send_untagged_loop].
    destruct (Z.leb_spec n 0); [lia|]; destruct (mpa_send _ s) as [ret s'].
    destruct (Z.ltb_spec ret 0); [by result|].
    rewrite packet_len_small, Z.sub_diag by lia; change (0 <=? 0) with true; by result.
  - intros n Hn IH st s; rewrite seg_fuel_step by done; cbn [send_untagged_loop].
    destruct (Z.leb_spec n 0); [by result|]; destruct (mpa_send _ s) as [ret s'].
    destruct (Z.ltb_spec ret 0); [by result|].
    rewrite packet_len_big by done; apply IH.
Qed.

Lemma send_tagged_sges_total m gs st s :
  exists ret s', send_tagged_sges m gs st s = Some (ret, s') /\ ret <= 0.
Proof.
  revert st s; induction gs as [|g gs IH]; intros st s; cbn [send_tagged_sges]; [by result|].
  destruct (send_tagged_loop_total m g (bool_decide (gs = [])) (i32 (sge_length g)) st s)
    as (ret & st' & s' & -> & Hr).
  destruct (ret <? 0); [by result|apply IH].
Qed.

Lemma send_untagged_sges_total m gs st s :
  exists ret s', send_untagged_sges m gs st s = Some (ret, s') /\ ret <= 0.
Proof.
  revert st s; induction gs as [|g gs IH]; intros st s; cbn [send_untagged_sges]; [by result|].
  destruct (send_untagged_loop_total m g (bool_decide (gs = [])) (i32 (sge_length g)) st s)
    as (ret & st' & s' & -> & Hr).
  destruct (ret <? 0); [by result|apply IH].
Qed.

(** Both senders terminate for every header, every list of elements, every
    memory and every behaviour of the socket, and return either 0 or the
    negative value of the [mpa_send] that failed. *)
Theorem ddp_send_terminates m th uh gs s :
  (exists ret s', ddp_send_tagged m th gs s = Some (ret, s') /\ ret <= 0) /\
  (exists ret s', ddp_send_untagged m uh gs s = Some (ret, s') /\ ret <= 0).
Proof. split; [apply send_tagged_sges_total|apply send_untagged_sges_total]. Qed.

(** An element of 2 GiB or more is negative once it is stored in the signed
    byte counter: a message of such elements only sends nothing at all and the
    call still reports success. *)
Theorem ddp_send_drops_huge_elements m th uh gs s :
  Forall (fun g => 2 ^ 31 <= sge_length g < 2 ^ 32) gs ->
  ddp_send_tagged m th gs s = Some (0, s) /\ ddp_send_untagged m uh gs s = Some (0, s).
Proof.
  intros H; unfold ddp_send_tagged, ddp_send_untagged; split.
  all: match goal with |- _ _ _ ?st _ = _ => generalize st end.
  all: induction H as [|g gs Hg H IH]; intros st; [done|].
  all: cbn [send_tagged_sges send_untagged_sges]; destruct (seg_fuel_pos (i32 (sge_length g))) as [k ->].
  all: cbn [send_tagged_loop send_untagged_loop].
  all: assert (i32 (sge_length g) <= 0) as Hn by (rewrite swrap_high by (try change (32 - 1) with 31; lia); lia).
  all: apply Z.leb_le in Hn; rewrite Hn; apply IH.
Qed.

Lemma ddp_send_drops_huge_elements_witness :
  ddp_send_tagged ∅ {| tm_rsvdULP1 := 64; tm_tag := 7; tm_TO := 0 |}
    [{| sge_addr := 16; sge_length := 2 ^ 31; sge_lkey := 0 |}]
    {| rx := []; tx := []; tx_plan := [] |} = Some (0, {| rx := []; tx := []; tx_plan := [] |}) /\
  ddp_send_untagged ∅ {| um_rsvdULP1 := 67; um_rsvdULP2 := 0; um_qn := 0; um_msn := 0; um_mo := 0 |}
    [{| sge_addr := 16; sge_length := 2 ^ 31; sge_lkey := 0 |}]
    {| rx := []; tx := []; tx_plan := [] |} = Some (0, {| rx := []; tx := []; tx_plan := [] |}).
Proof. apply ddp_send_drops_huge_elements; repeat constructor; cbn; lia. Defined.
