(* ===== verification/DdpRoundtrip.v ===== *)
(** * DDP: from the sender's buffers to the receiver's memory

    What [ddp_recv] does with the frames of [DdpSegment.v].  A tagged message
    lands at its tagged offset, byte for byte.  An untagged message lands at the
    offsets its segments announce, which are the intended ones for the first
    segment only. *)

From S2P Require Import Prelude Endian Wire Socket Mpa Memory CQueue Ddp DdpSegment.

(** ** The packed header *)
Section packed.
Implicit Types ph : list byte.

Lemma ph_bits_set_TO v ph : length ph = 18%nat -> ph_bits (set_ph_TO v ph) = ph_bits ph.
Proof.
  intros H; unfold ph_bits, set_ph_TO; rewrite take_app_le by (rewrite length_take; lia).
  by rewrite take_take.
Qed.
Lemma ph_TO_set_TO v ph : length ph = 18%nat -> ph_TO (set_ph_TO v ph) = u64 v.
Proof.
  intros H; unfold ph_TO, set_ph_TO; rewrite drop_app_length' by (rewrite length_take; lia).
  rewrite take_app_length' by (by rewrite length_le_bytes); by rewrite le_Z_bytes.
Qed.
Lemma length_set_ph_TO v ph : length ph = 18%nat -> length (set_ph_TO v ph) = 18%nat.
Proof.
  intros H; unfold set_ph_TO; rewrite !length_app, length_take, length_drop, length_le_bytes; lia.
Qed.

Lemma ph_bits_set_mo v ph : length ph = 18%nat -> ph_bits (set_ph_mo v ph) = ph_bits ph.
Proof.
  intros H; unfold ph_bits, set_ph_mo; rewrite take_app_le by (rewrite length_take; lia).
  by rewrite take_take.
Qed.
Lemma ph_mo_set_mo v ph : length ph = 18%nat -> ph_mo (set_ph_mo v ph) = u32 v.
Proof.
  intros H; unfold ph_mo, set_ph_mo; rewrite drop_app_length' by (rewrite length_take; lia).
  rewrite take_ge by (rewrite length_le_bytes; lia); by rewrite le_Z_bytes.
Qed.
Lemma length_set_ph_mo v ph : length ph = 18%nat -> length (set_ph_mo v ph) = 18%nat.
Proof. intros H; unfold set_ph_mo; rewrite length_app, length_take, length_le_bytes; lia. Qed.

Lemma length_zero_ph b : length (zero_ph b) = 18%nat.
Proof. reflexivity. Qed.
Lemma ph_bits_zero b : ph_bits (zero_ph b) = u8 b.
Proof.
  unfold ph_bits, zero_ph; rewrite take_app_length' by (by rewrite length_le_bytes).
  by rewrite le_Z_bytes.
Qed.

(** The object after a header has been received into it. *)
Lemma ph_tagged_header b t ph :
  length ph = 18%nat ->
  ph_bits (overlay (le_bytes 1 b ++ tagged_meta_bytes t) ph) = u8 b /\
  ph_TO (overlay (le_bytes 1 b ++ tagged_meta_bytes t) ph) = u64 (tm_TO t) /\
  length (overlay (le_bytes 1 b ++ tagged_meta_bytes t) ph) = 18%nat.
Proof.
  intros H; split_all.
  - unfold ph_bits, overlay; rewrite <- app_assoc, take_app_length' by (by rewrite length_le_bytes).
    by rewrite le_Z_bytes.
  - unfold ph_TO, overlay, tagged_meta_bytes; rewrite <- !app_assoc.
    change (drop 6) with (@drop byte (1 + (1 + 4))); rewrite <- !drop_drop.
    rewrite !drop_app_length' by (by rewrite length_le_bytes).
    rewrite take_app_length' by (by rewrite length_le_bytes); by rewrite le_Z_bytes.
  - rewrite length_overlay; [done|].
    rewrite length_app, length_le_bytes, length_tagged_meta_bytes; lia.
Qed.

Lemma ph_untagged_header b u ph :
  length ph = 18%nat ->
  ph_bits (overlay (le_bytes 1 b ++ untagged_meta_bytes u) ph) = u8 b /\
  ph_mo (overlay (le_bytes 1 b ++ untagged_meta_bytes u) ph) = u32 (um_mo u) /\
  length (overlay (le_bytes 1 b ++ untagged_meta_bytes u) ph) = 18%nat.
Proof.
  intros H; split_all.
  - unfold ph_bits, overlay; rewrite <- app_assoc, take_app_length' by (by rewrite length_le_bytes).
    by rewrite le_Z_bytes.
  - unfold ph_mo, overlay, untagged_meta_bytes; rewrite <- !app_assoc.
    change (drop 14) with (@drop byte (1 + (1 + (4 + (4 + 4))))); rewrite <- !drop_drop.
    rewrite !drop_app_length' by (by rewrite length_le_bytes).
    rewrite take_app_length' by (by rewrite length_le_bytes); by rewrite le_Z_bytes.
  - rewrite length_overlay; [done|].
    rewrite length_app, length_le_bytes, length_untagged_meta_bytes; lia.
Qed.
End packed.

(** ** Receiving the parts of a frame *)

(** The first [zlen a] bytes of the next frame's PDU, on a packet whose
    [bytes_rcvd] is zero. *)
Lemma mpa_recv_frame_prefix fuel a b rest r s info :
  rx s = RxData (fpdu (a ++ b) ++ rest) :: r -> bytes_rcvd info = 0 ->
  a <> [] -> b <> [] -> zlen a + zlen b < 2 ^ 16 ->
  mpa_recv (S fuel) info (zlen a) s =
    Some {| mo_ret := MPA_HDR_SIZE + zlen a; mo_buf := a;
            mo_info := mpa_at (zlen a + zlen b) (zlen a) (crc info);
            mo_sock := set_rx (RxData (b ++ mpa_trailer (zlen a + zlen b) ++ rest) :: r) s |}.
Proof.
  intros Hr Hb Ha Hn Hl; unfold fpdu in Hr; rewrite zlen_app, <- !app_assoc in Hr.
  assert (0 < zlen b) by (destruct b; [done|zlen_lia]); pose proof (zlen_nonneg a).
  assert (in_u 16 (zlen a + zlen b)) by (split; lia).
  destruct info as [old c k]; cbn [bytes_rcvd crc] in *; subst k.
  rewrite (mpa_recv_next _ _ old c _ _ r s Hr) by done.
  by rewrite (mpa_recv_part fuel _ 0 c a _ r (set_rx _ s) eq_refl) by (done || lia).
Qed.

Lemma seg_ok_nonempty p : seg_ok p -> p <> [].
Proof. unfold seg_ok; intros H ->; znil; lia. Qed.

Lemma last_flag_tagged b :
  (Z.land (u8 (tagged_bits b)) DDP_FLAG_LAST =? 0) = negb b.
Proof. by destruct b. Qed.
Lemma last_flag_untagged b :
  (Z.land (u8 (untagged_bits b)) DDP_FLAG_LAST =? 0) = negb b.
Proof. by destruct b. Qed.

(** The payload of the frame the packet is in the middle of. *)
Lemma mpa_recv_payload fuel hl c p rest r s :
  rx s = RxData (p ++ mpa_trailer (hl + zlen p) ++ rest) :: r -> seg_ok p -> 0 <= hl <= 18 ->
  mpa_recv (S fuel) (mpa_at (hl + zlen p) hl c) (zlen p) s =
    Some {| mo_ret := bytes_rcvd (mpa_done (hl + zlen p)); mo_buf := p;
            mo_info := mpa_done (hl + zlen p); mo_sock := set_rx (RxData rest :: r) s |}.
Proof.
  intros Hr Hp Hh; unfold seg_ok in Hp; rewrite MULPDU_val in Hp.
  apply (mpa_recv_last fuel _ hl c _ p rest r s Hr); [|lia|lia|lia|split; lia].
  apply seg_ok_nonempty; unfold seg_ok; rewrite MULPDU_val; lia.
Qed.

Lemma mpa_done_rcvd_nonneg n : 0 <= n -> (bytes_rcvd (mpa_done n) <? 0) = false.
Proof.
  intros; apply Z.ltb_ge; cbn; pose proof (mpa_padding_range n).
  unfold MPA_HDR_SIZE, MPA_CRC_SIZE; lia.
Qed.
Lemma i32_len_sub hl n : 0 <= n -> n <= MULPDU -> i32 (hl + n - hl) = n.
Proof.
  intros; replace (hl + n - hl) with n by lia; rewrite MULPDU_val in *.
  apply swrap_small; [lia|change (32 - 1) with 31; lia].
Qed.

(** The header of a later segment, received in one call. *)
Lemma mpa_recv_header_of fuel a q rest r s info :
  rx s = RxData (fpdu (a ++ q) ++ rest) :: r -> bytes_rcvd info = 0 ->
  0 < zlen a <= 18 -> seg_ok q ->
  mpa_recv (S fuel) info (zlen a) s =
    Some {| mo_ret := MPA_HDR_SIZE + zlen a; mo_buf := a;
            mo_info := mpa_at (zlen a + zlen q) (zlen a) (crc info);
            mo_sock := set_rx (RxData (q ++ mpa_trailer (zlen a + zlen q) ++ rest) :: r) s |}.
Proof.
  intros Hr Hb Ha Hq; apply mpa_recv_frame_prefix; [done|done| |by apply seg_ok_nonempty|].
  - intros ->; znil; lia.
  - unfold seg_ok in Hq; rewrite MULPDU_val in Hq; lia.
Qed.

Definition tagged_hdr (h : ddp_tagged_meta) (last : bool) (TO : Z) : list byte :=
  le_bytes 1 (tagged_bits last) ++ tagged_meta_bytes (set_tm_TO (htonll TO) h).
Definition untagged_hdr (h : ddp_untagged_meta) (last : bool) (mo : Z) : list byte :=
  le_bytes 1 (untagged_bits last) ++ untagged_meta_bytes (set_um_mo mo h).

Lemma zlen_tagged_hdr h last TO : zlen (tagged_hdr h last TO) = 14.
Proof. unfold tagged_hdr, zlen; by rewrite length_app, length_le_bytes, length_tagged_meta_bytes. Qed.
Lemma zlen_untagged_hdr h last mo : zlen (untagged_hdr h last mo) = 18.
Proof. unfold untagged_hdr, zlen; by rewrite length_app, length_le_bytes, length_untagged_meta_bytes. Qed.

Lemma tagged_frame_hdr h last TO p : tagged_frame h last TO p = fpdu (tagged_hdr h last TO ++ p).
Proof. unfold tagged_frame, tagged_hdr; by rewrite <- app_assoc. Qed.
Lemma untagged_frame_hdr h last mo p : untagged_frame h last mo p = fpdu (untagged_hdr h last mo ++ p).
Proof. unfold untagged_frame, untagged_hdr; by rewrite <- app_assoc. Qed.

Lemma mpa_recv_tagged_hdr fuel h last TO q rest r s info :
  rx s = RxData (tagged_frame h last TO q ++ rest) :: r -> bytes_rcvd info = 0 -> seg_ok q ->
  mpa_recv (S fuel) info (DDP_CTRL_SIZE + DDP_TAGGED_HDR_SIZE) s =
    Some {| mo_ret := 16; mo_buf := tagged_hdr h last TO;
            mo_info := mpa_at (14 + zlen q) 14 (crc info);
            mo_sock := set_rx (RxData (q ++ mpa_trailer (14 + zlen q) ++ rest) :: r) s |}.
Proof.
  intros Hr Hb Hq; rewrite tagged_frame_hdr in Hr; pose proof (zlen_tagged_hdr h last TO) as Hz.
  pose proof (mpa_recv_header_of fuel _ q rest r s info Hr Hb) as E; rewrite Hz in E.
  apply E; [lia|done].
Qed.
Lemma mpa_recv_untagged_hdr fuel h last mo q rest r s info :
  rx s = RxData (untagged_frame h last mo q ++ rest) :: r -> bytes_rcvd info = 0 -> seg_ok q ->
  mpa_recv (S fuel) info (DDP_CTRL_SIZE + DDP_UNTAGGED_HDR_SIZE) s =
    Some {| mo_ret := 20; mo_buf := untagged_hdr h last mo;
            mo_info := mpa_at (18 + zlen q) 18 (crc info);
            mo_sock := set_rx (RxData (q ++ mpa_trailer (18 + zlen q) ++ rest) :: r) s |}.
Proof.
  intros Hr Hb Hq; rewrite untagged_frame_hdr in Hr; pose proof (zlen_untagged_hdr h last mo) as Hz.
  pose proof (mpa_recv_header_of fuel _ q rest r s info Hr Hb) as E; rewrite Hz in E.
  apply E; [lia|done].
Qed.

(** ** The tagged loop *)
Lemma recv_tagged_loop_frames fuel h ps : forall segs TO p ph rest r c io,
  (length ps < segs)%nat -> seg_ok p -> Forall seg_ok ps -> length ph = 18%nat ->
  ph_TO ph = u64 TO -> ph_bits ph = u8 (tagged_bits (bool_decide (ps = []))) ->
  io_info io = mpa_at (14 + zlen p) 14 c ->
  rx (io_sock io) = RxData (p ++ mpa_trailer (14 + zlen p) ++
                            tagged_frames h true (u64 (TO + zlen p)) ps ++ rest) :: r ->
  exists info, recv_tagged_loop segs (S fuel) ph (zlen p) io =
    Some (0, {| io_mem := mem_write (io_mem io) TO (p ++ concat ps);
                io_len := i32 (io_len io + zlen p + sum_zlen ps);
                io_info := info; io_sock := set_rx (RxData rest :: r) (io_sock io) |}).
Proof.
  induction ps as [|q ps IH]; intros segs TO p ph rest r c io Hs Hp Hps Hph HTO Hbits Hinfo Hr;
    (destruct segs as [|segs]; [lia|]); cbn [recv_tagged_loop].
  all: rewrite Hinfo, (mpa_recv_payload fuel 14 c p _ r _ Hr Hp) by lia.
  all: cbn [mo_ret mo_buf mo_info mo_sock].
  all: rewrite mpa_done_rcvd_nonneg by (pose proof (zlen_nonneg p); lia).
  all: rewrite Hbits, last_flag_tagged, negb_involutive, HTO, mem_write_u64.
  - eexists; cbn [concat tagged_frames app]; rewrite bool_decide_true, app_nil_r by done.
    unfold sum_zlen; cbn [concat]; znil; rewrite Z.add_0_r; done.
  - rewrite (bool_decide_false (q :: ps = [])) by done; cbv zeta iota.
    apply Forall_cons_1 in Hps as [Hq Hps]; cbn [tagged_frames] in Hr.
    cbn [io_info io_sock io_mem io_len].
    rewrite (mpa_recv_tagged_hdr fuel h (bool_decide (ps = [])) (u64 (TO + zlen p)) q
      (tagged_frames h true (u64 (u64 (TO + zlen p) + zlen q)) ps ++ rest) r);
      [|by rewrite rx_set_rx; cbn [tagged_frames andb]; rewrite <- app_assoc|done|done].
    cbn [mo_ret mo_buf mo_info mo_sock io_mem io_len crc mpa_at ulpdu_len andb].
    change (16 <? 0) with false; cbv iota; unfold tagged_hdr.
    destruct (ph_tagged_header (tagged_bits (bool_decide (ps = [])))
      (set_tm_TO (htonll (u64 (TO + zlen p))) h) ph Hph) as (Hb' & HTO' & Hl').
    change (DDP_CTRL_SIZE + DDP_TAGGED_HDR_SIZE) with 14.
    rewrite HTO', i32_len_sub by (unfold seg_ok in Hq; lia); cbn [tm_TO set_tm_TO].
    rewrite (wrap_small 64 (htonll _)) by (rewrite htonll_swap; apply swap_range).
    rewrite ntohll_htonll, wrap_idemp by lia.
    edestruct (IH segs (TO + zlen p) q) as [info E]; [..|eexists; rewrite E]; clear IH.
    + cbn [length] in Hs; lia.
    + done.
    + done.
    + by apply length_set_ph_TO.
    + by rewrite ph_TO_set_TO, wrap_idemp by (done || lia).
    + by rewrite ph_bits_set_TO by done.
    + cbn [io_info]; done.
    + cbn [io_sock]; rewrite rx_set_rx; do 3 f_equal; by rewrite wrap_add_l.
    + cbn [io_mem io_len io_sock concat]; rewrite !set_rx_set_rx, sum_zlen_cons.
      rewrite <- (mem_write_app (io_mem io) TO p), <- Z.add_assoc, swrap_add_l; do 4 f_equal; lia.
Qed.

(** ** The untagged loop *)

(** Where the receiver puts the segments: each at the byte-swapped offset. *)
Fixpoint place_untagged (m : mem) (data mo : Z) (ps : list (list byte)) : mem :=
  match ps with
  | [] => m
  | p :: ps => place_untagged (mem_write m (data + ntohl mo) p) data (u32 (mo + zlen p)) ps
  end.

Lemma recv_untagged_loop_frames fuel h data ps : forall segs mo p ph rest r c io,
  (length ps < segs)%nat -> seg_ok p -> Forall seg_ok ps -> length ph = 18%nat -> in_u 32 mo ->
  ph_mo ph = ntohl mo -> ph_bits ph = u8 (untagged_bits (bool_decide (ps = []))) ->
  io_info io = mpa_at (18 + zlen p) 18 c ->
  rx (io_sock io) = RxData (p ++ mpa_trailer (18 + zlen p) ++
                            untagged_frames h true (u32 (mo + zlen p)) ps ++ rest) :: r ->
  exists info, recv_untagged_loop segs (S fuel) data ph (zlen p) io =
    Some (0, {| io_mem := place_untagged (io_mem io) data mo (p :: ps);
                io_len := i32 (io_len io + zlen p + sum_zlen ps);
                io_info := info; io_sock := set_rx (RxData rest :: r) (io_sock io) |}).
Proof.
  induction ps as [|q ps IH]; intros segs mo p ph rest r c io Hs Hp Hps Hph Hmo Hpm Hbits Hinfo Hr;
    (destruct segs as [|segs]; [lia|]); cbn [recv_untagged_loop].
  all: rewrite Hinfo, (mpa_recv_payload fuel 18 c p _ r _ Hr Hp) by lia.
  all: cbn [mo_ret mo_buf mo_info mo_sock].
  all: rewrite mpa_done_rcvd_nonneg by (pose proof (zlen_nonneg p); lia).
  all: rewrite Hbits, last_flag_untagged, negb_involutive, Hpm, mem_write_u64.
  - eexists; cbn [untagged_frames place_untagged app]; rewrite bool_decide_true by done.
    unfold sum_zlen; cbn [concat]; znil; rewrite Z.add_0_r; done.
  - rewrite (bool_decide_false (q :: ps = [])) by done; cbv zeta iota.
    apply Forall_cons_1 in Hps as [Hq Hps]; cbn [untagged_frames] in Hr.
    cbn [io_info io_sock io_mem io_len].
    rewrite (mpa_recv_untagged_hdr fuel h (bool_decide (ps = [])) (u32 (mo + zlen p)) q
      (untagged_frames h true (u32 (u32 (mo + zlen p) + zlen q)) ps ++ rest) r);
      [|by rewrite rx_set_rx; cbn [untagged_frames andb]; rewrite <- app_assoc|done|done].
    cbn [mo_ret mo_buf mo_info mo_sock io_mem io_len crc mpa_at ulpdu_len andb].
    change (20 <? 0) with false; cbv iota; unfold untagged_hdr.
    destruct (ph_untagged_header (untagged_bits (bool_decide (ps = [])))
      (set_um_mo (u32 (mo + zlen p)) h) ph Hph) as (Hb' & Hmo' & Hl').
    change (DDP_CTRL_SIZE + DDP_UNTAGGED_HDR_SIZE) with 18.
    rewrite Hmo', i32_len_sub by (unfold seg_ok in Hq; lia); cbn [um_mo set_um_mo].
    rewrite wrap_idemp by lia.
    edestruct (IH segs (u32 (mo + zlen p)) q) as [info E]; [..|eexists; rewrite E]; clear IH.
    + cbn [length] in Hs; lia.
    + done.
    + done.
    + by apply length_set_ph_mo.
    + by apply wrap_range.
    + rewrite ph_mo_set_mo by done; apply wrap_small, ntohl_range.
    + by rewrite ph_bits_set_mo by done.
    + cbn [io_info]; done.
    + done.
    + cbn [io_mem io_len io_sock concat place_untagged]; rewrite !set_rx_set_rx, sum_zlen_cons.
      rewrite <- Z.add_assoc, swrap_add_l; do 4 f_equal; lia.
Qed.

(** ** Whole messages *)

(** The control byte and the rest of the header, in two calls. *)
Lemma mpa_recv_split_hdr fuel b meta p rest r s :
  rx s = RxData (fpdu ((le_bytes 1 b ++ meta) ++ p) ++ rest) :: r ->
  0 < zlen meta <= 17 -> seg_ok p ->
  exists o, mpa_recv (S fuel) new_mpa_packet DDP_CTRL_SIZE s = Some o /\
    mo_ret o = 3 /\ mo_buf o = le_bytes 1 b /\ ulpdu_len (mo_info o) = 1 + zlen meta + zlen p /\
    mpa_recv (S fuel) (mo_info o) (zlen meta) (mo_sock o) =
      Some {| mo_ret := MPA_HDR_SIZE + (1 + zlen meta); mo_buf := meta;
              mo_info := mpa_at (1 + zlen meta + zlen p) (1 + zlen meta) 0;
              mo_sock := set_rx (RxData (p ++ mpa_trailer (1 + zlen meta + zlen p) ++ rest) :: r) s |}.
Proof.
  intros Hr Hm Hp; pose proof Hp as Hp'; unfold seg_ok in Hp'; rewrite MULPDU_val in Hp'.
  rewrite <- app_assoc in Hr.
  pose proof (mpa_recv_frame_prefix fuel (le_bytes 1 b) (meta ++ p) rest r s new_mpa_packet Hr) as E.
  rewrite zlen_le_bytes in E; change (Z.of_nat 1) with 1 in E; rewrite zlen_app, Z.add_assoc in E.
  eexists; split; [apply E|cbn [mo_ret mo_buf mo_info mo_sock ulpdu_len mpa_at]; split_all]; try done.
  - intros Hn; apply app_eq_nil in Hn as [-> _]; znil; lia.
  - lia.
  - rewrite <- app_assoc; change (crc new_mpa_packet) with 0.
    rewrite (mpa_recv_part fuel _ 1 0 meta _ r (set_rx _ s) eq_refl);
      [by rewrite set_rx_set_rx|intros ->; znil; lia|lia|lia|split; lia].
Qed.

(** [ddp_recv] up to the check of the header, on a frame whose header is [h]. *)
Lemma ddp_recv_tagged_start segs fuel ctx msg m h last TO p tl r s :
  wf_tagged_meta h -> in_u 64 TO -> seg_ok p ->
  rx s = RxData (tagged_frame h last TO p ++ tl) :: r ->
  let t := {| tm_rsvdULP1 := tm_rsvdULP1 h; tm_tag := ntohl (tm_tag h); tm_TO := TO |} in
  let msg' := set_dm_meta (TaggedMeta t) (set_dm_bits (tagged_bits last) msg) in
  let s' := set_rx (RxData (p ++ mpa_trailer (14 + zlen p) ++ tl) :: r) s in
  ddp_recv segs (S fuel) ctx msg m s =
    match ddp_check_stag ctx t with
    | None => Some {| ro_ret := -1; ro_ctx := ctx; ro_msg := msg'; ro_mem := m; ro_sock := s' |}
    | Some b =>
        match recv_tagged_loop segs (S fuel) (set_ph_TO TO (zero_ph (tagged_bits last))) (zlen p)
                {| io_mem := m; io_len := 0; io_info := mpa_at (14 + zlen p) 14 0; io_sock := s' |} with
        | None => None
        | Some (ret, io) =>
            let msg' := set_dm_buf (TagBuf b) msg' in
            Some {| ro_ret := ret; ro_ctx := ctx;
                    ro_msg := if ret <? 0 then msg' else set_dm_len (io_len io) msg';
                    ro_mem := io_mem io; ro_sock := io_sock io |}
        end
    end.
Proof.
  intros (H1 & H2 & _) HTO Hp Hr t msg' s'.
  rewrite tagged_frame_hdr in Hr; unfold tagged_hdr in Hr.
  set (h' := set_tm_TO (htonll TO) h) in *.
  assert (wf_tagged_meta h') as Hwf.
  { split; [done|split; [done|]]; cbn; rewrite htonll_swap; apply swap_range. }
  assert (zlen (tagged_meta_bytes h') = 13) as Hz by (unfold zlen; by rewrite length_tagged_meta_bytes).
  destruct (mpa_recv_split_hdr fuel _ (tagged_meta_bytes h') p _ r s Hr ltac:(lia) Hp)
    as (o & E1 & Er & Eb & El & E2); unfold ddp_recv; rewrite E1, Er, Eb.
  change (3 <? DDP_CTRL_SIZE) with false; cbv iota; cbn [dm_bits set_dm_bits].
  rewrite take_ge, le_Z_bytes by (rewrite length_le_bytes; lia).
  change (8 * Z.of_nat 1) with 8.
  assert (u8 (tagged_bits last) = tagged_bits last) as -> by (by destruct last).
  assert ((Z.land (tagged_bits last) DDP_HDR_T =? 0) = false) as -> by (by destruct last).
  cbn [negb]; unfold ddp_recv_tagged; rewrite El, Hz in *.
  change (DDP_CTRL_SIZE + DDP_TAGGED_HDR_SIZE) with (1 + 13).
  rewrite i32_len_sub by (unfold seg_ok in Hp; lia).
  destruct (Z.ltb_spec (zlen p) 0); [unfold seg_ok in Hp; lia|].
  change DDP_TAGGED_HDR_SIZE with 13; rewrite E2; cbn [mo_ret mo_buf mo_info mo_sock].
  change (MPA_HDR_SIZE + (1 + 13) <? 0) with false; cbv iota zeta.
  change (tagged_meta_bytes h') with (encode h'); rewrite decode_encode_nil by done.
  cbn [tm_rsvdULP1 tm_tag tm_TO set_tm_TO h' dm_bits set_dm_meta set_dm_bits set_dm_buf].
  by rewrite ntohll_htonll, (wrap_small 64 TO) by done.
Qed.

Lemma ddp_recv_untagged_start segs fuel ctx msg m h last p tl r s :
  wf_untagged_meta h -> seg_ok p ->
  rx s = RxData (untagged_frame h last 0 p ++ tl) :: r ->
  let u := {| um_rsvdULP1 := um_rsvdULP1 h; um_rsvdULP2 := um_rsvdULP2 h;
              um_qn := ntohl (um_qn h); um_msn := ntohl (um_msn h); um_mo := 0 |} in
  let msg' := set_dm_meta (UntaggedMeta u) (set_dm_bits (untagged_bits last) msg) in
  let s' := set_rx (RxData (p ++ mpa_trailer (18 + zlen p) ++ tl) :: r) s in
  ddp_recv segs (S fuel) ctx msg m s =
    match ddp_check_untagged_hdr ctx u with
    | None => Some {| ro_ret := -1; ro_ctx := ctx; ro_msg := msg'; ro_mem := m; ro_sock := s' |}
    | Some i =>
        let '(buf, ctx') := untagged_dequeue ctx msg i in
        match recv_untagged_loop segs (S fuel) (ub_data buf)
                (set_ph_mo 0 (zero_ph (untagged_bits last))) (zlen p)
                {| io_mem := m; io_len := 0; io_info := mpa_at (18 + zlen p) 18 0; io_sock := s' |} with
        | None => None
        | Some (ret, io) =>
            let msg' := set_dm_buf (UntagBuf buf) msg' in
            Some {| ro_ret := ret; ro_ctx := ctx';
                    ro_msg := if ret <? 0 then msg' else set_dm_len (io_len io) msg';
                    ro_mem := io_mem io; ro_sock := io_sock io |}
        end
    end.
Proof.
  intros (H1 & H2 & H3 & H4 & _) Hp Hr u msg' s'.
  rewrite untagged_frame_hdr in Hr; unfold untagged_hdr in Hr.
  set (h' := set_um_mo 0 h) in *.
  assert (wf_untagged_meta h') as Hwf by (repeat split; done || apply H1 || apply H2 || apply H3 || apply H4).
  assert (zlen (untagged_meta_bytes h') = 17) as Hz
    by (unfold zlen; by rewrite length_untagged_meta_bytes).
  destruct (mpa_recv_split_hdr fuel _ (untagged_meta_bytes h') p _ r s Hr ltac:(lia) Hp)
    as (o & E1 & Er & Eb & El & E2); unfold ddp_recv; rewrite E1, Er, Eb.
  change (3 <? DDP_CTRL_SIZE) with false; cbv iota; cbn [dm_bits set_dm_bits].
  rewrite take_ge, le_Z_bytes by (rewrite length_le_bytes; lia).
  change (8 * Z.of_nat 1) with 8.
  assert (u8 (untagged_bits last) = untagged_bits last) as -> by (by destruct last).
  assert ((Z.land (untagged_bits last) DDP_HDR_T =? 0) = true) as -> by (by destruct last).
  cbn [negb]; unfold ddp_recv_untagged; rewrite El, Hz in *.
  change (DDP_CTRL_SIZE + DDP_UNTAGGED_HDR_SIZE) with (1 + 17).
  rewrite i32_len_sub by (unfold seg_ok in Hp; lia).
  destruct (Z.ltb_spec (zlen p) 0); [unfold seg_ok in Hp; lia|].
  change DDP_UNTAGGED_HDR_SIZE with 17; rewrite E2; cbn [mo_ret mo_buf mo_info mo_sock].
  change (MPA_HDR_SIZE + (1 + 17) <? 0) with false; cbv iota zeta.
  change (untagged_meta_bytes h') with (encode h'); rewrite decode_encode_nil by done.
  cbn [um_rsvdULP1 um_rsvdULP2 um_qn um_msn um_mo set_um_mo h' dm_bits set_dm_meta set_dm_bits set_dm_buf].
  done.
Qed.

Lemma ddp_recv_tagged_frames segs fuel ctx msg m h TO b p ps rest r s :
  wf_tagged_meta h -> in_u 64 TO -> Forall seg_ok (p :: ps) -> (length ps < segs)%nat ->
  rx s = RxData (tagged_frames h true TO (p :: ps) ++ rest) :: r ->
  let t := {| tm_rsvdULP1 := tm_rsvdULP1 h; tm_tag := ntohl (tm_tag h); tm_TO := TO |} in
  ddp_check_stag ctx t = Some b ->
  ddp_recv segs (S fuel) ctx msg m s =
    Some {| ro_ret := 0; ro_ctx := ctx;
            ro_msg := {| dm_bits := tagged_bits (bool_decide (ps = [])); dm_meta := TaggedMeta t;
                         dm_buf := TagBuf b; dm_len := i32 (sum_zlen (p :: ps)) |};
            ro_mem := mem_write m TO (concat (p :: ps));
            ro_sock := set_rx (RxData rest :: r) s |}.
Proof.
  intros Hw HTO [Hp Hps]%Forall_cons_1 Hs Hr t Hst; cbn [tagged_frames andb] in Hr.
  rewrite <- app_assoc in Hr.
  rewrite (ddp_recv_tagged_start segs fuel ctx msg m h _ TO p _ r s Hw HTO Hp Hr).
  fold t; rewrite Hst.
  edestruct (recv_tagged_loop_frames fuel h ps segs TO p) as [info E]; [..|rewrite E]; try done.
  - by apply ph_TO_set_TO.
  - by rewrite ph_bits_set_TO, ph_bits_zero.
  - by cbn [io_mem io_len io_sock set_dm_len]; rewrite set_rx_set_rx, Z.add_0_l, sum_zlen_cons.
Qed.

Lemma ddp_recv_untagged_frames segs fuel ctx msg m h i p ps rest r s :
  wf_untagged_meta h -> Forall seg_ok (p :: ps) -> (length ps < segs)%nat ->
  rx s = RxData (untagged_frames h true 0 (p :: ps) ++ rest) :: r ->
  let u := {| um_rsvdULP1 := um_rsvdULP1 h; um_rsvdULP2 := um_rsvdULP2 h;
              um_qn := ntohl (um_qn h); um_msn := ntohl (um_msn h); um_mo := 0 |} in
  ddp_check_untagged_hdr ctx u = Some i ->
  let '(buf, ctx') := untagged_dequeue ctx msg i in
  ddp_recv segs (S fuel) ctx msg m s =
    Some {| ro_ret := 0; ro_ctx := ctx';
            ro_msg := {| dm_bits := untagged_bits (bool_decide (ps = [])); dm_meta := UntaggedMeta u;
                         dm_buf := UntagBuf buf; dm_len := i32 (sum_zlen (p :: ps)) |};
            ro_mem := place_untagged m (ub_data buf) 0 (p :: ps);
            ro_sock := set_rx (RxData rest :: r) s |}.
Proof.
  intros Hw [Hp Hps]%Forall_cons_1 Hs Hr u Hst; cbn [untagged_frames andb] in Hr.
  rewrite <- app_assoc in Hr.
  pose proof (ddp_recv_untagged_start segs fuel ctx msg m h _ p _ r s Hw Hp Hr) as E0; cbv zeta in E0.
  fold u in E0; rewrite Hst in E0; destruct (untagged_dequeue ctx msg i) as [buf ctx']; rewrite E0.
  edestruct (recv_untagged_loop_frames fuel h (ub_data buf) ps segs 0 p) as [info E];
    [..|rewrite E]; try done.
  - by rewrite ph_bits_set_mo, ph_bits_zero.
  - by cbn [io_mem io_len io_sock set_dm_len]; rewrite set_rx_set_rx, Z.add_0_l, sum_zlen_cons.
Qed.

(** ** Transfer theorems *)

(** The headers as [ddp_recv] hands them on: host order. *)
Definition host_tagged (h : ddp_tagged_meta) (TO : Z) : ddp_tagged_meta :=
  {| tm_rsvdULP1 := tm_rsvdULP1 h; tm_tag := ntohl (tm_tag h); tm_TO := TO |}.
Definition host_untagged (h : ddp_untagged_meta) : ddp_untagged_meta :=
  {| um_rsvdULP1 := um_rsvdULP1 h; um_rsvdULP2 := um_rsvdULP2 h;
     um_qn := ntohl (um_qn h); um_msn := ntohl (um_msn h); um_mo := 0 |}.

Lemma sum_zlen_msg_pieces m gs : sum_zlen (msg_pieces m gs) = zlen (msg_bytes m gs).
Proof. unfold sum_zlen; by rewrite concat_msg_pieces. Qed.

Lemma send_tagged_recv segs fuel ctx msg m1 m2 h TO gs b s1 s2 rest r :
  wf_tagged_meta h -> in_u 64 TO -> sges_ok gs -> last_nonempty gs ->
  tx s1 = [] -> tx_plan s1 = [] -> (length (msg_pieces m1 gs) <= segs)%nat ->
  ddp_check_stag ctx (host_tagged h TO) = Some b ->
  exists s1' out,
    ddp_send_tagged m1 (set_tm_TO (htonll TO) h) gs s1 = Some (0, s1') /\
    ddp_recv segs (S fuel) ctx msg m2 (set_rx (RxData (tx s1' ++ rest) :: r) s2) = Some out /\
    ro_ret out = 0 /\ ro_mem out = mem_write m2 TO (msg_bytes m1 gs) /\
    dm_len (ro_msg out) = i32 (zlen (msg_bytes m1 gs)) /\
    dm_meta (ro_msg out) = TaggedMeta (host_tagged h TO) /\
    rx (ro_sock out) = RxData rest :: r /\ ro_ctx out = ctx.
Proof.
  intros Hw HTO Hok Hl Htx Hp Hs Hst.
  pose proof (ddp_send_tagged_frames m1 h TO gs s1 Hok Hl Hp HTO) as Es.
  pose proof (msg_pieces_ok m1 gs) as Hps; pose proof (msg_pieces_nonempty m1 gs Hl) as Hne.
  pose proof (sum_zlen_msg_pieces m1 gs) as Hsum; pose proof (concat_msg_pieces m1 gs) as Hcat.
  destruct (msg_pieces m1 gs) as [|p ps]; [done|]; cbn [length] in Hs.
  eexists _, _; split; [exact Es|].
  split; [apply (ddp_recv_tagged_frames segs fuel ctx msg m2 h TO b p ps rest r); try done|].
  - cbn [sent tx rx set_rx]; by rewrite Htx, app_nil_l.
  - cbn [ro_ret ro_mem ro_msg ro_sock ro_ctx dm_len dm_meta]; by rewrite Hsum, Hcat, rx_set_rx.
Qed.

(** C5: Tagged round trip: what [ddp_send_tagged] puts on the wire for any list
    of elements (the last one not empty, below 2 GiB together), when it accepts
    everything and the receiver gets it in one delivery, [ddp_recv] places
    at the tagged offset, byte for byte and in one piece however many segments
    it took; the call returns 0 with the message's length and header, leaves the
    stream at the byte after the message and the context untouched. *)
Theorem ddp_tagged_roundtrip segs fuel ctx msg m1 m2 h TO gs b s1 s2 rest r :
  wf_tagged_meta h -> in_u 64 TO -> sges_ok gs -> last_nonempty gs ->
  zlen (msg_bytes m1 gs) < 2 ^ 31 ->
  tx s1 = [] -> tx_plan s1 = [] -> (length (msg_pieces m1 gs) <= segs)%nat ->
  ddp_check_stag ctx (host_tagged h TO) = Some b ->
  exists s1' out,
    ddp_send_tagged m1 (set_tm_TO (htonll TO) h) gs s1 = Some (0, s1') /\
    ddp_recv segs (S fuel) ctx msg m2 (set_rx (RxData (tx s1' ++ rest) :: r) s2) = Some out /\
    ro_ret out = 0 /\ ro_mem out = mem_write m2 TO (msg_bytes m1 gs) /\
    dm_len (ro_msg out) = zlen (msg_bytes m1 gs) /\
    dm_meta (ro_msg out) = TaggedMeta (host_tagged h TO) /\
    rx (ro_sock out) = RxData rest :: r /\ ro_ctx out = ctx.
Proof.
  intros Hw HTO Hok Hl Hlen Htx Hp Hs Hst.
  destruct (send_tagged_recv segs fuel ctx msg m1 m2 h TO gs b s1 s2 rest r)
    as (s1' & out & ? & ? & ? & ? & En & ?); try done.
  pose proof (zlen_nonneg (msg_bytes m1 gs)); rewrite swrap_small in En by lia; by exists s1', out.
Qed.

Module TaggedExample.
Definition buf : tagged_buffer :=
  {| tb_stag := {| st_tag := 4096; st_pd := {| pd_id := 0 |} |}; tb_data := 4096; tb_len := 64;
     tb_access_ctrl := 0 |}.
Definition ctx : ddp_stream_context := (register_tagged_buffer (ddp_init_stream 3 0) buf).2.
Definition h : ddp_tagged_meta := {| tm_rsvdULP1 := 64; tm_tag := htonl 4096; tm_TO := 0 |}.
Definition gs : list sge :=
  [{| sge_addr := 16; sge_length := 2; sge_lkey := 0 |};
   {| sge_addr := 32; sge_length := 3; sge_lkey := 0 |}].
Definition m1 : mem := mem_write ∅ 16 (map Z_byte [1; 2]) ∪ mem_write ∅ 32 (map Z_byte [3; 4; 5]).
Definition msg : ddp_message :=
  {| dm_bits := 0; dm_meta := TaggedMeta h; dm_buf := TagBuf buf; dm_len := 0 |}.
Definition sk : sock := {| rx := []; tx := []; tx_plan := [] |}.

Lemma h_wf : wf_tagged_meta h.
Proof. repeat split; vm_compute; congruence. Qed.
Lemma gs_ok : sges_ok gs.
Proof. repeat constructor; cbn; lia. Qed.
End TaggedExample.

Lemma ddp_tagged_roundtrip_witness :
  exists s1' out,
    ddp_send_tagged TaggedExample.m1 (set_tm_TO (htonll 4100) TaggedExample.h) TaggedExample.gs
      TaggedExample.sk = Some (0, s1') /\
    ddp_recv 2 1 TaggedExample.ctx TaggedExample.msg ∅
      (set_rx [RxData (tx s1' ++ [Z_byte 9])] TaggedExample.sk) = Some out /\
    ro_ret out = 0 /\
    ro_mem out = mem_write ∅ 4100 (msg_bytes TaggedExample.m1 TaggedExample.gs) /\
    dm_len (ro_msg out) = zlen (msg_bytes TaggedExample.m1 TaggedExample.gs) /\
    dm_meta (ro_msg out) = TaggedMeta (host_tagged TaggedExample.h 4100) /\
    rx (ro_sock out) = [RxData [Z_byte 9]] /\ ro_ctx out = TaggedExample.ctx.
Proof.
  apply (ddp_tagged_roundtrip 2 0 TaggedExample.ctx TaggedExample.msg TaggedExample.m1 ∅
    TaggedExample.h 4100 TaggedExample.gs TaggedExample.buf TaggedExample.sk TaggedExample.sk
    [Z_byte 9] []).
  - apply TaggedExample.h_wf.
  - split; lia.
  - apply TaggedExample.gs_ok.
  - cbn; lia.
  - vm_compute; reflexivity.
  - reflexivity.
  - reflexivity.
  - vm_compute; lia.
  - vm_compute; reflexivity.
Defined.

(** C24: Memory safety of tagged placement when the message fits: if the tagged
    offset and the whole message lie inside the registered buffer, receiving it
    changes no byte outside that buffer. *)
Theorem ddp_tagged_placement_in_bounds segs fuel ctx msg m1 m2 h TO gs b s1 s2 rest r x :
  wf_tagged_meta h -> in_u 64 TO -> sges_ok gs -> last_nonempty gs ->
  tx s1 = [] -> tx_plan s1 = [] -> (length (msg_pieces m1 gs) <= segs)%nat ->
  ddp_check_stag ctx (host_tagged h TO) = Some b ->
  0 <= tb_data b -> tb_data b + tb_len b < 2 ^ 64 ->
  TO + zlen (msg_bytes m1 gs) <= tb_data b + tb_len b ->
  in_u 64 x -> x < tb_data b \/ tb_data b + tb_len b <= x ->
  exists s1' out,
    ddp_send_tagged m1 (set_tm_TO (htonll TO) h) gs s1 = Some (0, s1') /\
    ddp_recv segs (S fuel) ctx msg m2 (set_rx (RxData (tx s1' ++ rest) :: r) s2) = Some out /\
    mem_get (ro_mem out) x = mem_get m2 x.
Proof.
  intros Hw HTO Hok Hl Htx Hp Hs Hst Hd Hlim Hfit Hx Hout.
  destruct (send_tagged_recv segs fuel ctx msg m1 m2 h TO gs b s1 s2 rest r)
    as (s1' & out & E1 & E2 & _ & Em & _); try done.
  exists s1', out; split_all; [done|done|]; rewrite Em.
  assert (tb_data b <= TO) as Hlo.
  { unfold ddp_check_stag in Hst; destruct (dc_tagged_buffers ctx !! _) as [b'|]; [|done].
    cbn in Hst; destruct (Z.ltb_spec TO (tb_data b')); [done|].
    destruct (_ <? TO); [done|]; by simplify_eq/=. }
  pose proof (zlen_nonneg (msg_bytes m1 gs)); rewrite mem_get_write by word_lia.
  rewrite lookup_ge_None_2; [done|]; destruct Hout.
  - assert (u64 (x - TO) = x - TO + 2 ^ 64) as ->.
    { unfold wrap; symmetry; apply Z.mod_unique with (-1); [left|]; word_lia. }
    unfold zlen in *; word_lia.
  - rewrite wrap_small by word_lia; unfold zlen in *; lia.
Qed.

Lemma ddp_tagged_placement_in_bounds_witness :
  exists s1' out,
    ddp_send_tagged TaggedExample.m1 (set_tm_TO (htonll 4100) TaggedExample.h) TaggedExample.gs
      TaggedExample.sk = Some (0, s1') /\
    ddp_recv 2 1 TaggedExample.ctx TaggedExample.msg ∅
      (set_rx [RxData (tx s1' ++ [])] TaggedExample.sk) = Some out /\
    mem_get (ro_mem out) 4160 = mem_get ∅ 4160.
Proof.
  apply (ddp_tagged_placement_in_bounds 2 0 TaggedExample.ctx TaggedExample.msg TaggedExample.m1 ∅
    TaggedExample.h 4100 TaggedExample.gs TaggedExample.buf TaggedExample.sk TaggedExample.sk
    [] [] 4160).
  - apply TaggedExample.h_wf.
  - split; lia.
  - apply TaggedExample.gs_ok.
  - cbn; lia.
  - reflexivity.
  - reflexivity.
  - vm_compute; lia.
  - vm_compute; reflexivity.
  - cbn; lia.
  - cbn [tb_data tb_len TaggedExample.buf]; lia.
  - vm_compute; congruence.
  - split; lia.
  - right; cbn; lia.
Defined.
