(* ===== verification/DdpUntagged.v ===== *)
(** * DDP: untagged messages and the checks of the receiver

    Untagged messages between [ddp_send_untagged] and [ddp_recv]; the registry of
    tagged buffers; what [ddp_recv] refuses and what it lets through. *)

From S2P Require Import Prelude Endian Wire Socket Mpa Memory CQueue Ddp DdpSegment DdpRoundtrip.

(** ** Untagged transfer *)
Lemma send_untagged_recv segs fuel ctx msg m1 m2 h gs i s1 s2 rest r :
  wf_untagged_meta h -> sges_ok gs -> last_nonempty gs ->
  tx s1 = [] -> tx_plan s1 = [] -> (length (msg_pieces m1 gs) <= segs)%nat ->
  ddp_check_untagged_hdr ctx (host_untagged h) = Some i ->
  exists s1' out,
    ddp_send_untagged m1 h gs s1 = Some (0, s1') /\
    ddp_recv segs (S fuel) ctx msg m2 (set_rx (RxData (tx s1' ++ rest) :: r) s2) = Some out /\
    ro_ret out = 0 /\ ro_ctx out = (untagged_dequeue ctx msg i).2 /\
    ro_mem out = place_untagged m2 (ub_data (untagged_dequeue ctx msg i).1) 0 (msg_pieces m1 gs) /\
    dm_buf (ro_msg out) = UntagBuf (untagged_dequeue ctx msg i).1 /\
    dm_len (ro_msg out) = i32 (zlen (msg_bytes m1 gs)) /\
    dm_meta (ro_msg out) = UntaggedMeta (host_untagged h) /\
    rx (ro_sock out) = RxData rest :: r.
Proof.
  intros Hw Hok Hl Htx Hp Hs Hst.
  pose proof (ddp_send_untagged_frames m1 h gs s1 Hok Hl Hp) as Es.
  pose proof (msg_pieces_ok m1 gs) as Hps; pose proof (msg_pieces_nonempty m1 gs Hl) as Hne.
  pose proof (sum_zlen_msg_pieces m1 gs) as Hsum.
  destruct (msg_pieces m1 gs) as [|p ps]; [done|]; cbn [length] in Hs.
  set (s' := sent s1 (untagged_frames h true 0 (p :: ps))) in *.
  assert (rx (set_rx (RxData (tx s' ++ rest) :: r) s2) =
    RxData (untagged_frames h true 0 (p :: ps) ++ rest) :: r) as Hr
    by (rewrite rx_set_rx; unfold s', sent; cbn [tx]; by rewrite Htx).
  pose proof (ddp_recv_untagged_frames segs fuel ctx msg m2 h i p ps rest r _ Hw Hps
    ltac:(lia) Hr Hst) as Er; destruct (untagged_dequeue ctx msg i) as [buf ctx'].
  eexists s', _; split; [exact Es|split; [exact Er|]].
  cbn [ro_ret ro_mem ro_msg ro_sock ro_ctx dm_len dm_meta dm_buf fst snd].
  by rewrite Hsum, rx_set_rx.
Qed.

(** C22: Untagged transfer: a message of one element of 1 to [MULPDU] bytes is
    placed at the start of the oldest buffer of the queue its header names, byte
    for byte; that buffer leaves the queue, the message reports it with the
    message's length, and the stream is left at the byte after the message. *)
Theorem ddp_untagged_transfer segs fuel ctx msg m1 m2 h g i uq buf q s1 s2 rest r :
  wf_untagged_meta h -> 0 < sge_length g <= MULPDU ->
  tx s1 = [] -> tx_plan s1 = [] ->
  ddp_check_untagged_hdr ctx (host_untagged h) = Some i ->
  dc_queues ctx !! i = Some uq -> try_dequeue (ubq_q uq) = Some (buf, q) ->
  exists s1' out,
    ddp_send_untagged m1 h [g] s1 = Some (0, s1') /\
    ddp_recv (S segs) (S fuel) ctx msg m2 (set_rx (RxData (tx s1' ++ rest) :: r) s2) = Some out /\
    ro_ret out = 0 /\ ro_mem out = mem_write m2 (ub_data buf) (sge_bytes m1 g) /\
    dm_buf (ro_msg out) = UntagBuf buf /\ dm_len (ro_msg out) = sge_length g /\
    dm_meta (ro_msg out) = UntaggedMeta (host_untagged h) /\
    dc_queues (ro_ctx out) !! i = Some {| ubq_q := q; ubq_msn := ubq_msn uq |} /\
    rx (ro_sock out) = RxData rest :: r.
Proof.
  intros Hw Hg Htx Hp Hst Hq Hdq.
  assert (msg_pieces m1 [g] = [sge_bytes m1 g]) as Hps.
  { unfold msg_pieces; cbn [map concat]; rewrite app_nil_r.
    apply pieces_small; rewrite zlen_sge_bytes; lia. }
  destruct (send_untagged_recv (S segs) fuel ctx msg m1 m2 h [g] i s1 s2 rest r)
    as (s1' & out & E1 & E2 & H0 & Hc & Hm & Hb & Hn & Hmeta & Hr); try done.
  - repeat constructor; rewrite MULPDU_val in Hg; lia.
  - cbn; lia.
  - rewrite Hps; cbn; lia.
  - unfold untagged_dequeue in *; rewrite Hq, Hdq in *; cbn [fst snd] in *.
    exists s1', out; split_all; try done.
    + rewrite Hm, Hps; cbn [place_untagged]; change (ntohl 0) with 0; by rewrite Z.add_0_r.
    + rewrite Hn; unfold msg_bytes; cbn [map concat]; rewrite app_nil_r, zlen_sge_bytes by lia.
      rewrite MULPDU_val in *; apply swrap_small; lia.
    + rewrite Hc; cbn [dc_queues set_dc_queues].
      apply list_lookup_insert_eq; by eapply lookup_lt_Some.
Qed.

Module UntaggedExample.
Definition buf : untagged_buffer := {| ub_data := 8192; ub_len := 64; ub_next := 0 |}.
Definition ctx : ddp_stream_context := ddp_post_recv 7 (ddp_init_stream 3 0) 0 [buf].
Definition h : ddp_untagged_meta :=
  {| um_rsvdULP1 := 67; um_rsvdULP2 := 0; um_qn := htonl 0; um_msn := htonl 1; um_mo := 0 |}.
Definition g : sge := {| sge_addr := 16; sge_length := 2; sge_lkey := 0 |}.
Definition m1 : mem := mem_write ∅ 16 (map Z_byte [1; 2]).
Definition msg : ddp_message :=
  {| dm_bits := 0; dm_meta := UntaggedMeta h; dm_buf := UntagBuf buf; dm_len := 0 |}.
Definition sk : sock := {| rx := []; tx := []; tx_plan := [] |}.
Definition big (n : Z) : sge := {| sge_addr := 16; sge_length := n; sge_lkey := 0 |}.

Lemma uh_wf : wf_untagged_meta h.
Proof. repeat split; vm_compute; congruence. Qed.
Lemma q_ok : dc_queues ctx !! 0%nat =
  Some {| ubq_q := enqueue_bulk 7 [buf] cq_new; ubq_msn := 1 |}.
Proof. reflexivity. Qed.
End UntaggedExample.

Lemma ddp_untagged_transfer_witness :
  exists s1' out,
    ddp_send_untagged UntaggedExample.m1 UntaggedExample.h [UntaggedExample.g]
      UntaggedExample.sk = Some (0, s1') /\
    ddp_recv 1 1 UntaggedExample.ctx UntaggedExample.msg ∅
      (set_rx [RxData (tx s1' ++ [])] UntaggedExample.sk) = Some out /\
    ro_ret out = 0 /\
    ro_mem out = mem_write ∅ 8192 (sge_bytes UntaggedExample.m1 UntaggedExample.g) /\
    dm_buf (ro_msg out) = UntagBuf UntaggedExample.buf /\ dm_len (ro_msg out) = 2 /\
    dm_meta (ro_msg out) = UntaggedMeta (host_untagged UntaggedExample.h) /\
    dc_queues (ro_ctx out) !! 0%nat =
      Some {| ubq_q := [Producer 7 []]; ubq_msn := 1 |} /\
    rx (ro_sock out) = [RxData []].
Proof.
  apply (ddp_untagged_transfer 0 0 UntaggedExample.ctx UntaggedExample.msg UntaggedExample.m1 ∅
    UntaggedExample.h UntaggedExample.g 0 {| ubq_q := enqueue_bulk 7 [UntaggedExample.buf] cq_new;
    ubq_msn := 1 |} UntaggedExample.buf [Producer 7 []]
    UntaggedExample.sk UntaggedExample.sk [] []).
  - apply UntaggedExample.uh_wf.
  - cbn [sge_length UntaggedExample.g]; rewrite MULPDU_val; lia.
  - reflexivity.
  - reflexivity.
  - vm_compute; reflexivity.
  - apply UntaggedExample.q_ok.
  - vm_compute; reflexivity.
Defined.

(** The offset of an untagged segment is sent as a host integer and byte
    swapped on arrival: of a message of one element of more than [MULPDU] bytes
    (two segments) the first [MULPDU] bytes land at the start of the buffer, the
    rest at [data + 0xF6FD0000] instead of [data + MULPDU]; the call reports
    success. *)
Theorem ddp_untagged_second_segment_misplaced segs fuel ctx msg m1 m2 h g i s1 s2 rest r :
  wf_untagged_meta h -> MULPDU < sge_length g <= 2 * MULPDU ->
  tx s1 = [] -> tx_plan s1 = [] ->
  ddp_check_untagged_hdr ctx (host_untagged h) = Some i ->
  exists s1' out,
    ddp_send_untagged m1 h [g] s1 = Some (0, s1') /\
    ddp_recv (S (S segs)) (S fuel) ctx msg m2 (set_rx (RxData (tx s1' ++ rest) :: r) s2) = Some out /\
    ro_ret out = 0 /\
    ro_mem out =
      (let data := ub_data (untagged_dequeue ctx msg i).1 in
       mem_write (mem_write m2 data (ztake MULPDU (sge_bytes m1 g)))
         (data + 0xF6FD0000) (zdrop MULPDU (sge_bytes m1 g))).
Proof.
  intros Hw Hg Htx Hp Hst; rewrite MULPDU_val in Hg.
  assert (zlen (sge_bytes m1 g) = sge_length g) as Hz by (apply zlen_sge_bytes; lia).
  assert (msg_pieces m1 [g] = [ztake MULPDU (sge_bytes m1 g); zdrop MULPDU (sge_bytes m1 g)]) as Hps.
  { unfold msg_pieces; cbn [map concat]; rewrite app_nil_r, pieces_eq, Hz, MULPDU_val.
    destruct (Z.leb_spec (sge_length g) 0); [lia|].
    destruct (Z.ltb_spec 65014 (sge_length g)); [|lia]; f_equal.
    apply pieces_small; rewrite zlen_zdrop, MULPDU_val; lia. }
  destruct (send_untagged_recv (S (S segs)) fuel ctx msg m1 m2 h [g] i s1 s2 rest r)
    as (s1' & out & E1 & E2 & H0 & _ & Hm & _); try done.
  - repeat constructor; lia.
  - cbn; lia.
  - rewrite Hps; cbn; lia.
  - exists s1', out; split_all; try done.
    rewrite Hm, Hps; cbn [place_untagged]; cbv zeta; change (ntohl 0) with 0; rewrite Z.add_0_r.
    rewrite zlen_ztake, Hz, Z.min_l, MULPDU_val by (rewrite MULPDU_val; lia).
    by change (ntohl (u32 (0 + Z.max 0 65014))) with 0xF6FD0000.
Qed.

Lemma ddp_untagged_second_segment_misplaced_witness :
  exists s1' out,
    ddp_send_untagged ∅ UntaggedExample.h [UntaggedExample.big 70000] UntaggedExample.sk = Some (0, s1') /\
    ddp_recv 2 1 UntaggedExample.ctx UntaggedExample.msg ∅
      (set_rx [RxData (tx s1' ++ [])] UntaggedExample.sk) = Some out /\
    ro_ret out = 0 /\
    ro_mem out =
      (let data := ub_data (untagged_dequeue UntaggedExample.ctx UntaggedExample.msg 0).1 in
       mem_write (mem_write ∅ data (ztake MULPDU (sge_bytes ∅ (UntaggedExample.big 70000))))
         (data + 0xF6FD0000) (zdrop MULPDU (sge_bytes ∅ (UntaggedExample.big 70000)))).
Proof.
  apply (ddp_untagged_second_segment_misplaced 0 0 UntaggedExample.ctx UntaggedExample.msg ∅ ∅
    UntaggedExample.h (UntaggedExample.big 70000) 0 UntaggedExample.sk UntaggedExample.sk [] []).
  - apply UntaggedExample.uh_wf.
  - cbn [sge_length UntaggedExample.big]; rewrite MULPDU_val; lia.
  - reflexivity.
  - reflexivity.
  - vm_compute; reflexivity.
Defined.

(** ** The registry of tagged buffers *)

Definition with_stag (b : tagged_buffer) : tagged_buffer :=
  {| tb_stag := {| st_tag := u32 (tb_data b); st_pd := st_pd (tb_stag b) |};
     tb_data := tb_data b; tb_len := tb_len b; tb_access_ctrl := tb_access_ctrl b |}.

Lemma register_lookup ctx b :
  dc_tagged_buffers (register_tagged_buffer ctx b).2 !! u32 (tb_data b) = Some (with_stag b).
Proof. cbn; by rewrite lookup_insert_eq. Qed.

(** The registry: a registered buffer is found by its tag for every tagged
    offset from its first address to one past its end (inclusive) and for no
    other, registering leaves the other tags alone, and after deregistering
    nothing is found under the tag. *)
Theorem registered_stag_check ctx b hdr :
  0 <= tb_data b -> 0 <= tb_len b -> tb_data b + tb_len b < 2 ^ 64 ->
  let ctx' := (register_tagged_buffer ctx b).2 in
  (tm_tag hdr = u32 (tb_data b) ->
   ddp_check_stag ctx' hdr =
     (if (tb_data b <=? tm_TO hdr) && (tm_TO hdr <=? tb_data b + tb_len b)
      then Some (with_stag b) else None) /\
   ddp_check_stag (deregister_tagged_buffer ctx' (tb_stag (with_stag b))).2 hdr = None) /\
  (tm_tag hdr <> u32 (tb_data b) -> ddp_check_stag ctx' hdr = ddp_check_stag ctx hdr).
Proof.
  intros Hd Hl Hs ctx'; split.
  - intros Ht; split.
    + unfold ddp_check_stag, ctx'; rewrite Ht, register_lookup; cbn [mbind option_bind].
      cbn [tb_data tb_len with_stag]; rewrite wrap_small by (split; lia).
      rewrite Z.leb_antisym, (Z.leb_antisym (tb_data b + tb_len b)).
      by destruct (tm_TO hdr <? tb_data b), (_ <? tm_TO hdr).
    + unfold ddp_check_stag; cbn [deregister_tagged_buffer snd dc_tagged_buffers set_dc_tagged].
      rewrite Ht; cbn [with_stag tb_stag st_tag]; by rewrite lookup_delete_eq.
  - intros Ht; unfold ddp_check_stag, ctx'; cbn [register_tagged_buffer snd dc_tagged_buffers
      set_dc_tagged tb_stag st_tag tb_data].
    by rewrite lookup_insert_ne by congruence.
Qed.

Lemma registered_stag_check_witness :
  let ctx' := (register_tagged_buffer (ddp_init_stream 3 0) TaggedExample.buf).2 in
  let hdr := {| tm_rsvdULP1 := 0; tm_tag := 4096; tm_TO := 4160 |} in
  (tm_tag hdr = u32 4096 ->
   ddp_check_stag ctx' hdr =
     (if (4096 <=? tm_TO hdr) && (tm_TO hdr <=? 4096 + 64)
      then Some (with_stag TaggedExample.buf) else None) /\
   ddp_check_stag (deregister_tagged_buffer ctx' (tb_stag (with_stag TaggedExample.buf))).2 hdr = None) /\
  (tm_tag hdr <> u32 4096 -> ddp_check_stag ctx' hdr = ddp_check_stag (ddp_init_stream 3 0) hdr).
Proof.
  apply (registered_stag_check (ddp_init_stream 3 0) TaggedExample.buf
    {| tm_rsvdULP1 := 0; tm_tag := 4096; tm_TO := 4160 |});
    cbn [tb_data tb_len TaggedExample.buf]; lia.
Defined.

(** Tags are the low 32 bits of the buffer's address: registering a second
    buffer whose address differs by a multiple of 4 GiB silently replaces the
    first, whose own addresses are refused from then on. *)
Theorem register_stag_collision ctx b1 b2 rsvd TO :
  in_u 64 (tb_data b1) -> 0 <= tb_len b1 -> tb_data b1 + tb_len b1 < tb_data b2 ->
  tb_data b2 < 2 ^ 64 -> u32 (tb_data b1) = u32 (tb_data b2) ->
  tb_data b1 <= TO <= tb_data b1 + tb_len b1 ->
  let ctx1 := (register_tagged_buffer ctx b1).2 in
  let hdr := {| tm_rsvdULP1 := rsvd; tm_tag := u32 (tb_data b1); tm_TO := TO |} in
  ddp_check_stag ctx1 hdr = Some (with_stag b1) /\
  ddp_check_stag (register_tagged_buffer ctx1 b2).2 hdr = None.
Proof.
  intros Hd Hl Hlt H2 He HTO ctx1 hdr; split; unfold ddp_check_stag.
  - unfold hdr, ctx1; cbn [tm_tag tm_TO]; rewrite register_lookup.
    cbn [mbind option_bind with_stag tb_data tb_len]; rewrite wrap_small by word_lia.
    destruct (Z.ltb_spec TO (tb_data b1)); [lia|].
    by destruct (Z.ltb_spec (tb_data b1 + tb_len b1) TO); [lia|].
  - unfold hdr; cbn [tm_tag tm_TO]; rewrite He, register_lookup; cbn [mbind option_bind with_stag tb_data].
    by destruct (Z.ltb_spec TO (tb_data b2)); [|lia].
Qed.

Lemma register_stag_collision_witness :
  let b2 := {| tb_stag := {| st_tag := 0; st_pd := {| pd_id := 0 |} |}; tb_data := 4294971392;
               tb_len := 8; tb_access_ctrl := 0 |} in
  let ctx1 := (register_tagged_buffer (ddp_init_stream 3 0) TaggedExample.buf).2 in
  let hdr := {| tm_rsvdULP1 := 0; tm_tag := u32 4096; tm_TO := 4100 |} in
  ddp_check_stag ctx1 hdr = Some (with_stag TaggedExample.buf) /\
  ddp_check_stag (register_tagged_buffer ctx1 b2).2 hdr = None.
Proof.
  apply (register_stag_collision (ddp_init_stream 3 0) TaggedExample.buf
    {| tb_stag := {| st_tag := 0; st_pd := {| pd_id := 0 |} |}; tb_data := 4294971392;
       tb_len := 8; tb_access_ctrl := 0 |} 0 4100);
    cbn [tb_data tb_len TaggedExample.buf]; first [reflexivity | split; lia | lia].
Defined.

(** C39: The offset check admits the address one past the end of the buffer and
    never looks at the length: a message whose tagged offset is the end of a
    registered buffer is accepted and placed entirely outside it. *)
Theorem ddp_tagged_write_past_end segs fuel ctx msg m1 m2 h b gs s1 s2 rest r :
  wf_tagged_meta h -> sges_ok gs -> last_nonempty gs -> tx s1 = [] -> tx_plan s1 = [] ->
  (length (msg_pieces m1 gs) <= segs)%nat ->
  0 <= tb_data b -> 0 <= tb_len b -> tb_data b + tb_len b < 2 ^ 64 ->
  ntohl (tm_tag h) = u32 (tb_data b) ->
  let TO := tb_data b + tb_len b in
  exists s1' out,
    ddp_send_tagged m1 (set_tm_TO (htonll TO) h) gs s1 = Some (0, s1') /\
    ddp_recv segs (S fuel) (register_tagged_buffer ctx b).2 msg m2
      (set_rx (RxData (tx s1' ++ rest) :: r) s2) = Some out /\
    ro_ret out = 0 /\ ro_mem out = mem_write m2 TO (msg_bytes m1 gs).
Proof.
  intros Hw Hok Hl Htx Hp Hs Hd Hlen Hlim Htag TO.
  assert (ddp_check_stag (register_tagged_buffer ctx b).2 (host_tagged h TO) = Some (with_stag b)) as Hc.
  { unfold ddp_check_stag; cbn [tm_tag host_tagged tm_TO]; rewrite Htag, register_lookup.
    cbn [mbind option_bind with_stag tb_data tb_len]; rewrite wrap_small by (split; lia).
    unfold TO; destruct (Z.ltb_spec (tb_data b + tb_len b) (tb_data b)); [lia|].
    by rewrite Z.ltb_irrefl. }
  destruct (send_tagged_recv segs fuel _ msg m1 m2 h TO gs _ s1 s2 rest r Hw
    ltac:(unfold TO; split; lia) Hok Hl Htx Hp Hs Hc) as (s1' & out & E1 & E2 & H0 & Hm & _).
  by exists s1', out.
Qed.

Lemma ddp_tagged_write_past_end_witness :
  exists s1' out,
    ddp_send_tagged TaggedExample.m1 (set_tm_TO (htonll (4096 + 64)) TaggedExample.h) TaggedExample.gs
      TaggedExample.sk = Some (0, s1') /\
    ddp_recv 2 1 (register_tagged_buffer (ddp_init_stream 3 0) TaggedExample.buf).2 TaggedExample.msg ∅
      (set_rx [RxData (tx s1' ++ [])] TaggedExample.sk) = Some out /\
    ro_ret out = 0 /\
    ro_mem out = mem_write ∅ (4096 + 64) (msg_bytes TaggedExample.m1 TaggedExample.gs).
Proof.
  apply (ddp_tagged_write_past_end 2 0 (ddp_init_stream 3 0) TaggedExample.msg TaggedExample.m1 ∅
    TaggedExample.h TaggedExample.buf TaggedExample.gs TaggedExample.sk TaggedExample.sk [] []).
  - apply TaggedExample.h_wf.
  - apply TaggedExample.gs_ok.
  - cbn; lia.
  - reflexivity.
  - reflexivity.
  - vm_compute; lia.
  - cbn; lia.
  - cbn; lia.
  - cbn [tb_data tb_len TaggedExample.buf]; lia.
  - reflexivity.
Defined.

(** ** What the receiver refuses *)

(** C29: A message [ddp_recv] refuses touches nothing: for a tagged frame whose
    tag or offset is not valid, and for an untagged frame whose queue number is
    out of range or whose sequence number is below the queue's, the call returns
    -1 with the memory, the registry and the queues unchanged. *)
Theorem ddp_recv_rejects segs fuel ctx msg m th uh last TO p tl r s :
  seg_ok p -> in_u 64 TO ->
  (wf_tagged_meta th -> ddp_check_stag ctx (host_tagged th TO) = None ->
   rx s = RxData (tagged_frame th last TO p ++ tl) :: r ->
   exists out, ddp_recv segs (S fuel) ctx msg m s = Some out /\
     ro_ret out = -1 /\ ro_mem out = m /\ ro_ctx out = ctx) /\
  (wf_untagged_meta uh -> ddp_check_untagged_hdr ctx (host_untagged uh) = None ->
   rx s = RxData (untagged_frame uh last 0 p ++ tl) :: r ->
   exists out, ddp_recv segs (S fuel) ctx msg m s = Some out /\
     ro_ret out = -1 /\ ro_mem out = m /\ ro_ctx out = ctx).
Proof.
  intros Hp HTO; split; intros Hw Hc Hr.
  - pose proof (ddp_recv_tagged_start segs fuel ctx msg m th last TO p tl r s Hw HTO Hp Hr) as E.
    cbv zeta in E; fold (host_tagged th TO) in E; rewrite Hc in E; by eexists.
  - pose proof (ddp_recv_untagged_start segs fuel ctx msg m uh last p tl r s Hw Hp Hr) as E.
    cbv zeta in E; fold (host_untagged uh) in E; rewrite Hc in E; by eexists.
Qed.

Lemma ddp_recv_rejects_witness :
  exists out, ddp_recv 1 1 (ddp_init_stream 3 0) TaggedExample.msg ∅
      (set_rx [RxData (tagged_frame TaggedExample.h true 4100 [Z_byte 1] ++ [])] TaggedExample.sk)
      = Some out /\
    ro_ret out = -1 /\ ro_mem out = ∅ /\ ro_ctx out = ddp_init_stream 3 0.
Proof.
  refine (proj1 (ddp_recv_rejects 1 0 (ddp_init_stream 3 0) TaggedExample.msg ∅ TaggedExample.h
    UntaggedExample.h true 4100 [Z_byte 1] [] []
    (set_rx [RxData (tagged_frame TaggedExample.h true 4100 [Z_byte 1] ++ [])] TaggedExample.sk) _ _) _ _ _).
  - unfold seg_ok; rewrite MULPDU_val; vm_compute; split; congruence.
  - split; lia.
  - apply TaggedExample.h_wf.
  - reflexivity.
  - reflexivity.
Defined.

(** Three queues that expect sequence number 1. *)
Definition queues_ok (ctx : ddp_stream_context) : Prop :=
  length (dc_queues ctx) = 3%nat /\ Forall (fun u => ubq_msn u = 1) (dc_queues ctx).

Lemma untagged_dequeue_queues_ok ctx msg i buf ctx' :
  untagged_dequeue ctx msg i = (buf, ctx') -> queues_ok ctx -> queues_ok ctx'.
Proof.
  intros E [Hl Hm]; unfold untagged_dequeue in E; repeat case_match; simplify_eq; try done.
  split; cbn [dc_queues set_dc_queues]; [by rewrite length_insert|].
  apply Forall_insert; [done|]; cbn [ubq_msn]; eapply (Forall_lookup_1 _ _ _ _ Hm); eassumption.
Qed.

Lemma ddp_recv_queues_ok segs fuel ctx msg m s out :
  ddp_recv segs fuel ctx msg m s = Some out -> queues_ok ctx -> queues_ok (ro_ctx out).
Proof.
  intros Hrecv Hok; unfold ddp_recv, ddp_recv_tagged, ddp_recv_untagged in Hrecv.
  repeat (case_match; try done); simplify_eq; try exact Hok.
  all: cbn [ro_ctx]; by eapply untagged_dequeue_queues_ok.
Qed.

(** The queue check, at any time in the life of a stream: an untagged header
    is accepted exactly when its queue number is one of the three and its
    sequence number is at least 1, the value every queue starts with.  Receiving
    keeps the expected number, so a sequence number is accepted any number of
    times. *)
Theorem untagged_msn_never_advances segs fuel ctx msg m s out hdr :
  queues_ok ctx -> 0 <= um_qn hdr -> ddp_recv segs fuel ctx msg m s = Some out ->
  queues_ok (ro_ctx out) /\
  ddp_check_untagged_hdr (ro_ctx out) hdr =
    (if (um_qn hdr <? 3) && (1 <=? um_msn hdr) then Some (Z.to_nat (um_qn hdr)) else None).
Proof.
  intros Hok Hq Hrecv; pose proof (ddp_recv_queues_ok _ _ _ _ _ _ _ Hrecv Hok) as [Hl Hm].
  split; [done|].
  unfold ddp_check_untagged_hdr, MAX_UNTAGGED_BUFFERS; rewrite Z.ltb_antisym.
  destruct (Z.leb_spec 3 (um_qn hdr)); [done|]; cbn [negb andb].
  destruct (lookup_lt_is_Some_2 (dc_queues (ro_ctx out)) (Z.to_nat (um_qn hdr))) as [u Eu]; [lia|].
  rewrite Eu; cbn [mbind option_bind]; rewrite (Forall_lookup_1 _ _ _ _ Hm Eu).
  change (u32 1) with 1; rewrite Z.leb_antisym; by destruct (um_msn hdr <? 1).
Qed.

Lemma untagged_msn_never_advances_witness :
  queues_ok (ddp_init_stream 3 0) /\
  ddp_check_untagged_hdr (ddp_init_stream 3 0)
    {| um_rsvdULP1 := 0; um_rsvdULP2 := 0; um_qn := 1; um_msn := 5; um_mo := 0 |} = Some 1%nat.
Proof.
  apply (untagged_msn_never_advances 1 1 (ddp_init_stream 3 0) TaggedExample.msg ∅
    (set_rx [RxData (tagged_frame TaggedExample.h true 4100 [Z_byte 1])] TaggedExample.sk)
    {| ro_ret := -1; ro_ctx := ddp_init_stream 3 0;
       ro_msg := set_dm_meta (TaggedMeta (host_tagged TaggedExample.h 4100))
                   (set_dm_bits 0xC1 TaggedExample.msg);
       ro_mem := ∅;
       ro_sock := set_rx [RxData ([Z_byte 1] ++ mpa_trailer 15)] TaggedExample.sk |}
    {| um_rsvdULP1 := 0; um_rsvdULP2 := 0; um_qn := 1; um_msn := 5; um_mo := 0 |}).
  - split; [reflexivity|repeat constructor].
  - cbn; lia.
  - vm_compute; reflexivity.
Defined.
