(* ===== verification/Rdmap.v ===== *)
(** * RDMAP: the two threads of a stream ([suiw/rdmap/rdmap.h],
      [suiw/rdmap/rdmap_structs.h], [suiw/rdmap/rdmap.cpp])

    A stream runs a thread that turns send work requests into DDP messages
    ([rnic_send]) and one that handles received messages ([rnic_recv]).  The
    state they share with the application is the record [rnic]; one iteration of
    each loop is a function on it.  [RdmapSystem.v] interleaves the iterations. *)

From S2P Require Import Prelude Endian Wire Socket Mpa Memory CQueue Cq Ddp.

(** ** Messages *)
Definition SEND_QN : Z := 0.
Definition READ_QN : Z := 1.
Definition TERMINATE_QN : Z := 2.

Definition get_rdmap_op (bits : Z) : Z := Z.land bits 0xF.

Record rdmap_read_req_fields := {
  rf_sink_tag : Z; rf_sink_TO : Z; rf_rdma_rd_sz : Z; rf_src_tag : Z; rf_src_TO : Z }.

Definition read_req_bytes (f : rdmap_read_req_fields) : list byte :=
  le_bytes 4 (rf_sink_tag f) ++ le_bytes 8 (rf_sink_TO f) ++ le_bytes 4 (rf_rdma_rd_sz f) ++
  le_bytes 4 (rf_src_tag f) ++ le_bytes 8 (rf_src_TO f).
Definition read_req_of_bytes (bs : list byte) : rdmap_read_req_fields :=
  let '(a, bs) := get_le 4 bs in let '(b, bs) := get_le 8 bs in let '(c, bs) := get_le 4 bs in
  let '(d, bs) := get_le 4 bs in let '(e, _) := get_le 8 bs in
  {| rf_sink_tag := a; rf_sink_TO := b; rf_rdma_rd_sz := c; rf_src_tag := d; rf_src_TO := e |}.
Definition wf_read_req (f : rdmap_read_req_fields) : Prop :=
  in_u 32 (rf_sink_tag f) /\ in_u 64 (rf_sink_TO f) /\ in_u 32 (rf_rdma_rd_sz f) /\
  in_u 32 (rf_src_tag f) /\ in_u 64 (rf_src_TO f).

Lemma length_read_req_bytes f : length (read_req_bytes f) = 28%nat.
Proof. unfold read_req_bytes; by rewrite !length_app, !length_le_bytes. Qed.
Lemma read_req_roundtrip f rest :
  wf_read_req f -> read_req_of_bytes (read_req_bytes f ++ rest) = f.
Proof.
  destruct f; intros (?&?&?&?&?); unfold read_req_of_bytes, read_req_bytes.
  cbn [rf_sink_tag rf_sink_TO rf_rdma_rd_sz rf_src_tag rf_src_TO] in *.
  rewrite <- !app_assoc, !get_le_bytes; by rewrite !wrap_small.
Qed.
#[global] Instance read_req_codec : Codec rdmap_read_req_fields 28 := {|
  wf_codec := wf_read_req; encode := read_req_bytes; decode := read_req_of_bytes;
  length_encode := length_read_req_bytes; decode_encode := read_req_roundtrip |}.

Definition READ_REQ_SIZE : Z := 28.

(** [#ifdef RPING]: the fields are converted in place. *)
Definition swizzle (f : rdmap_read_req_fields) : rdmap_read_req_fields :=
  {| rf_sink_tag := ntohl (rf_sink_tag f); rf_sink_TO := ntohll (rf_sink_TO f);
     rf_rdma_rd_sz := ntohl (rf_rdma_rd_sz f); rf_src_tag := ntohl (rf_src_tag f);
     rf_src_TO := ntohll (rf_src_TO f) |}.

(** ** State *)

(** How the program was built: with [NDEBUG] (no assertions), with [RPING]. *)
Record config := { ndebug : bool; rping : bool }.

Definition assert_ (cfg : config) (b : bool) : run unit :=
  if ndebug cfg || b then Done tt else Aborted.

Record rdmap_stream_context := {
  rc_connected : Z; rc_send_q : Z; rc_recv_q : Z; rc_recv_thread : nat; rc_send_thread : nat }.

(** The stream, the objects its pointers lead to, and the function-local
    [static] counters of [rnic_send] (one per case, shared by all streams).
    [rn_ddp] is [None] once the DDP context has been deleted.  Arrays of
    scatter/gather elements are objects of their own, named by pointers. *)
Record rnic := {
  rn_ctx : rdmap_stream_context; rn_ddp : option ddp_stream_context; rn_heap : qheap;
  rn_sgs : gmap Z (list sge); rn_mem : mem; rn_sock : sock;
  rn_msn_send : Z; rn_msn_inval : Z; rn_msn_read : Z }.

Definition set_rn_ctx (v : rdmap_stream_context) (st : rnic) : rnic :=
  {| rn_ctx := v; rn_ddp := rn_ddp st; rn_heap := rn_heap st; rn_sgs := rn_sgs st;
     rn_mem := rn_mem st; rn_sock := rn_sock st; rn_msn_send := rn_msn_send st;
     rn_msn_inval := rn_msn_inval st; rn_msn_read := rn_msn_read st |}.
Definition set_rn_ddp (v : option ddp_stream_context) (st : rnic) : rnic :=
  {| rn_ctx := rn_ctx st; rn_ddp := v; rn_heap := rn_heap st; rn_sgs := rn_sgs st;
     rn_mem := rn_mem st; rn_sock := rn_sock st; rn_msn_send := rn_msn_send st;
     rn_msn_inval := rn_msn_inval st; rn_msn_read := rn_msn_read st |}.
Definition set_rn_heap (v : qheap) (st : rnic) : rnic :=
  {| rn_ctx := rn_ctx st; rn_ddp := rn_ddp st; rn_heap := v; rn_sgs := rn_sgs st;
     rn_mem := rn_mem st; rn_sock := rn_sock st; rn_msn_send := rn_msn_send st;
     rn_msn_inval := rn_msn_inval st; rn_msn_read := rn_msn_read st |}.
Definition set_rn_sgs (v : gmap Z (list sge)) (st : rnic) : rnic :=
  {| rn_ctx := rn_ctx st; rn_ddp := rn_ddp st; rn_heap := rn_heap st; rn_sgs := v;
     rn_mem := rn_mem st; rn_sock := rn_sock st; rn_msn_send := rn_msn_send st;
     rn_msn_inval := rn_msn_inval st; rn_msn_read := rn_msn_read st |}.
Definition set_rn_mem (v : mem) (st : rnic) : rnic :=
  {| rn_ctx := rn_ctx st; rn_ddp := rn_ddp st; rn_heap := rn_heap st; rn_sgs := rn_sgs st;
     rn_mem := v; rn_sock := rn_sock st; rn_msn_send := rn_msn_send st;
     rn_msn_inval := rn_msn_inval st; rn_msn_read := rn_msn_read st |}.
Definition set_rn_sock (v : sock) (st : rnic) : rnic :=
  {| rn_ctx := rn_ctx st; rn_ddp := rn_ddp st; rn_heap := rn_heap st; rn_sgs := rn_sgs st;
     rn_mem := rn_mem st; rn_sock := v; rn_msn_send := rn_msn_send st;
     rn_msn_inval := rn_msn_inval st; rn_msn_read := rn_msn_read st |}.
Definition set_rn_msns (s i r : Z) (st : rnic) : rnic :=
  {| rn_ctx := rn_ctx st; rn_ddp := rn_ddp st; rn_heap := rn_heap st; rn_sgs := rn_sgs st;
     rn_mem := rn_mem st; rn_sock := rn_sock st; rn_msn_send := s;
     rn_msn_inval := i; rn_msn_read := r |}.

Definition set_connected (v : Z) (st : rnic) : rnic :=
  let c := rn_ctx st in
  set_rn_ctx {| rc_connected := v; rc_send_q := rc_send_q c; rc_recv_q := rc_recv_q c;
                rc_recv_thread := rc_recv_thread c; rc_send_thread := rc_send_thread c |} st.

(** ** Queues of the stream *)
Definition send_wq (st : rnic) : run wq := deref (wqs (rn_heap st) !! rc_send_q (rn_ctx st)).
Definition recv_wq (st : rnic) : run wq := deref (wqs (rn_heap st) !! rc_recv_q (rn_ctx st)).

Definition as_send_q (w : wq) : run (cqueue send_wr) :=
  match wq_queue_of w with SendQ q => Done q | RecvQ _ => Undefined end.
Definition as_recv_q (w : wq) : run (cqueue recv_wr) :=
  match wq_queue_of w with RecvQ q => Done q | SendQ _ => Undefined end.

Definition set_wq_queue (q : wq_queue) (w : wq) : wq :=
  {| wq_context := wq_context w; wq_pd := wq_pd w; wq_cq := wq_cq w; wq_wq_num := wq_wq_num w;
     wq_handle := wq_handle w; wq_st := wq_st w; wq_wq_type := wq_wq_type w; wq_queue_of := q;
     wq_events_completed := wq_events_completed w; wq_comp_mask := wq_comp_mask w |}.

Definition put_wq (p : Z) (w : wq) (st : rnic) : rnic :=
  set_rn_heap (set_wqs <[p := w]> (rn_heap st)) st.
Definition put_cq (p : Z) (c : cq) (st : rnic) : rnic :=
  set_rn_heap (set_cqs <[p := c]> (rn_heap st)) st.

(** [ctx->send_q->send_q->try_dequeue(req)]. *)
Definition sq_try_dequeue (st : rnic) : run (option (send_wr * rnic)) :=
  w ← send_wq st; q ← as_send_q w;
  mret match try_dequeue q with
       | None => None
       | Some (x, q) => Some (x, put_wq (rc_send_q (rn_ctx st)) (set_wq_queue (SendQ q) w) st)
       end.
Definition sq_enqueue (t : nat) (wr : send_wr) (st : rnic) : run rnic :=
  w ← send_wq st; q ← as_send_q w;
  mret (put_wq (rc_send_q (rn_ctx st)) (set_wq_queue (SendQ (enqueue t wr q)) w) st).
Definition rq_try_dequeue (st : rnic) : run (option (recv_wr * rnic)) :=
  w ← recv_wq st; q ← as_recv_q w;
  mret match try_dequeue q with
       | None => None
       | Some (x, q) => Some (x, put_wq (rc_recv_q (rn_ctx st)) (set_wq_queue (RecvQ q) w) st)
       end.
Definition rq_enqueue (t : nat) (wr : recv_wr) (st : rnic) : run rnic :=
  w ← recv_wq st; q ← as_recv_q w;
  mret (put_wq (rc_recv_q (rn_ctx st)) (set_wq_queue (RecvQ (enqueue t wr q)) w) st).

(** [ctx->send_q->cq]: both threads complete into the send queue's queue. *)
Definition send_cq (st : rnic) : run (Z * cq) :=
  w ← send_wq st; c ← deref (cqs (rn_heap st) !! wq_cq w); mret (wq_cq w, c).

Definition cq_enqueue (t : nat) (e : work_completion) (st : rnic) : run rnic :=
  '(p, c) ← send_cq st;
  mret (put_cq p {| cq_ctx := cq_ctx c; cq_q := enqueue t e (cq_q c);
                    cq_pending_q := cq_pending_q c |} st).
Definition pending_enqueue (t : nat) (e : work_completion) (st : rnic) : run rnic :=
  '(p, c) ← send_cq st;
  mret (put_cq p {| cq_ctx := cq_ctx c; cq_q := cq_q c;
                    cq_pending_q := enqueue t e (cq_pending_q c) |} st).
Definition pending_try_dequeue (st : rnic) : run (option (work_completion * rnic)) :=
  '(p, c) ← send_cq st;
  mret match try_dequeue (cq_pending_q c) with
       | None => None
       | Some (e, q) => Some (e, put_cq p {| cq_ctx := cq_ctx c; cq_q := cq_q c;
                                             cq_pending_q := q |} st)
       end.

(** The elements [sg_list[0 .. num_sge - 1]]. *)
Definition sg_array (st : rnic) (p n : Z) : list sge :=
  take (Z.to_nat n) (default [] (rn_sgs st !! p)).

(** ** Registration, shared by the application and the receive thread *)
Definition rdma_register (buf : tagged_buffer) (st : rnic) : run (Z * tagged_buffer * rnic) :=
  ddp ← deref (rn_ddp st);
  let '(ret, buf, ddp) := register_tagged_buffer ddp buf in
  mret (ret, buf, set_rn_ddp (Some ddp) st).
Definition rdma_invalidate (stag : stag_t) (st : rnic) : run (Z * rnic) :=
  ddp ← deref (rn_ddp st);
  let '(erased, ddp) := deregister_tagged_buffer ddp stag in
  mret (erased, set_rn_ddp (Some ddp) st).

(** ** The send thread *)

(** What the thread keeps between iterations: its completion object and the
    address of its local [fields]. *)
Record send_thread := { snd_wce : work_completion; snd_fields : Z }.

Section rnic_send.
(** What uninitialised header members contain. *)
Variable junk : Z.

Definition rdma_hdr (req : send_wr) : Z :=
  u8 (Z.lor (Z.shiftl 1 6) (rdma_opcode_val (swr_opcode req))).

Definition send_hdr (req : send_wr) (rsvd2 qn msn : Z) : ddp_untagged_meta :=
  {| um_rsvdULP1 := rdma_hdr req; um_rsvdULP2 := rsvd2; um_qn := htonl qn; um_msn := htonl msn;
     um_mo := u32 junk |}.
Definition write_hdr (req : send_wr) : ddp_tagged_meta :=
  {| tm_rsvdULP1 := rdma_hdr req; tm_tag := htonl (swr_rkey req);
     tm_TO := htonll (swr_remote_addr req) |}.

(** [ddp_send_*(ctx->ddp_ctx, ...)]: only the socket of the context is used. *)
Definition send_untagged (h : ddp_untagged_meta) (gs : list sge) (st : rnic) : run (Z * rnic) :=
  _ ← deref (rn_ddp st);
  '(ret, s) ← returns (ddp_send_untagged (rn_mem st) h gs (rn_sock st));
  mret (ret, set_rn_sock s st).
Definition send_tagged (h : ddp_tagged_meta) (gs : list sge) (st : rnic) : run (Z * rnic) :=
  _ ← deref (rn_ddp st);
  '(ret, s) ← returns (ddp_send_tagged (rn_mem st) h gs (rn_sock st));
  mret (ret, set_rn_sock s st).

Definition read_fields (req : send_wr) (g : sge) : rdmap_read_req_fields :=
  {| rf_sink_tag := sge_lkey g; rf_sink_TO := sge_addr g; rf_rdma_rd_sz := sge_length g;
     rf_src_tag := swr_rkey req; rf_src_TO := swr_remote_addr req |}.

(** The part of a case that talks to DDP: the return value of the call, or
    [None] where the case ends before it. *)
Definition rnic_send_wire (th : send_thread) (req : send_wr) (st : rnic)
  : run (option Z * rnic) :=
  let gs := sg_array st (swr_sg_list req) (swr_num_sge req) in
  match swr_opcode req with
  | RDMAP_SEND_SE | RDMAP_SEND =>
      let h := send_hdr req (u32 junk) SEND_QN (rn_msn_send st) in
      let st := set_rn_msns (u32 (rn_msn_send st + 1)) (rn_msn_inval st) (rn_msn_read st) st in
      '(ret, st) ← send_untagged h gs st; mret (Some ret, st)
  | RDMAP_SEND_SE_INVAL | RDMAP_SEND_INVAL =>
      let h := send_hdr req (htonl (swr_invalidate_rkey req)) SEND_QN (rn_msn_inval st) in
      let st := set_rn_msns (rn_msn_send st) (u32 (rn_msn_inval st + 1)) (rn_msn_read st) st in
      '(ret, st) ← send_untagged h gs st; mret (Some ret, st)
  | RDMAP_RDMA_READ_REQ =>
      let h := send_hdr req (u32 junk) READ_QN (rn_msn_read st) in
      let st := set_rn_msns (rn_msn_send st) (rn_msn_inval st) (u32 (rn_msn_read st + 1)) st in
      if negb (swr_num_sge req =? 1) then mret (None, st)
      else
        g ← deref (head gs);
        let st := set_rn_mem (mem_write (rn_mem st) (snd_fields th)
                                (encode (read_fields req g))) st in
        '(ret, st) ← send_untagged h
           [{| sge_addr := snd_fields th; sge_length := READ_REQ_SIZE; sge_lkey := u32 junk |}] st;
        mret (Some ret, st)
  | RDMAP_RDMA_WRITE | RDMAP_RDMA_READ_RESP =>
      '(ret, st) ← send_tagged (write_hdr req) gs st; mret (Some ret, st)
  | RDMAP_TERMINATE | RDMAP_NOT_SUPPORTED => mret (None, st)
  end.

(** The completion of a request whose DDP call returned [ret]. *)
Definition send_completion (th : send_thread) (req : send_wr) (ret : Z) : work_completion :=
  set_wce_status (if ret <? 0 then WC_FATAL_ERR else WC_SUCCESS)
    (set_wce_byte_len ret (send_wr_to_wce req (snd_wce th))).

Definition rnic_send_complete (th : send_thread) (req : send_wr) (r : option Z) (st : rnic)
  : run (send_thread * rnic) :=
  let t := rc_send_thread (rn_ctx st) in
  match r with
  | None => mret (th, st)
  | Some ret =>
      let e := send_completion th req ret in
      let th' := {| snd_wce := e; snd_fields := snd_fields th |} in
      match swr_opcode req with
      | RDMAP_SEND_SE | RDMAP_SEND | RDMAP_SEND_SE_INVAL | RDMAP_SEND_INVAL | RDMAP_RDMA_WRITE =>
          st ← cq_enqueue t e st; mret (th', st)
      | RDMAP_RDMA_READ_REQ =>
          st ← (if ret <? 0 then cq_enqueue t e st else pending_enqueue t e st); mret (th', st)
      | RDMAP_RDMA_READ_RESP | RDMAP_TERMINATE | RDMAP_NOT_SUPPORTED => mret (th, st)
      end
  end.

(** One turn of [while (ctx->connected)]. *)
Definition rnic_send_iter (th : send_thread) (st : rnic) : run (send_thread * rnic) :=
  found ← sq_try_dequeue st;
  match found with
  | None => mret (th, st)
  | Some (req, st) => '(r, st) ← rnic_send_wire th req st; rnic_send_complete th req r st
  end.
End rnic_send.

(** The prologue of [rnic_send]; [wce] starts with its default initialisers and
    whatever the other members contain. *)
Definition rnic_send_start (cfg : config) (wce : work_completion) (fields : Z) (st : rnic)
  : run send_thread :=
  w ← send_wq st;
  _ ← assert_ cfg (match wq_wq_type w with WQT_SQ => true | WQT_RQ => false end);
  mret {| snd_wce := set_wce_src_qp (wq_wq_num w) wce; snd_fields := fields |}.

(** ** The receive thread *)

(** What the thread keeps between iterations: the DDP message, its completion
    object, the read response it posts and the address of the single [sg] every
    read response points to. *)
Record recv_thread := {
  rcv_msg : ddp_message; rcv_wce : work_completion; rcv_read_resp : send_wr; rcv_sg : Z }.

Definition rnic_recv_start (msg : ddp_message) (wce : work_completion) (read_resp : send_wr)
    (sg : Z) : recv_thread :=
  {| rcv_msg := msg; rcv_wce := wce; rcv_sg := sg;
     rcv_read_resp :=
       {| swr_wr_id := 1001; swr_sg_list := sg; swr_num_sge := 1;
          swr_opcode := RDMAP_RDMA_READ_RESP; swr_send_flags := 0;
          swr_invalidate_rkey := swr_invalidate_rkey read_resp;
          swr_remote_addr := swr_remote_addr read_resp; swr_rkey := swr_rkey read_resp |} |}.

Definition set_rcv_msg (v : ddp_message) (th : recv_thread) : recv_thread :=
  {| rcv_msg := v; rcv_wce := rcv_wce th; rcv_read_resp := rcv_read_resp th; rcv_sg := rcv_sg th |}.
Definition set_rcv_wce (v : work_completion) (th : recv_thread) : recv_thread :=
  {| rcv_msg := rcv_msg th; rcv_wce := v; rcv_read_resp := rcv_read_resp th; rcv_sg := rcv_sg th |}.
Definition set_rcv_read_resp (v : send_wr) (th : recv_thread) : recv_thread :=
  {| rcv_msg := rcv_msg th; rcv_wce := rcv_wce th; rcv_read_resp := v; rcv_sg := rcv_sg th |}.

(** [read_resp] with the target and the id of this response. *)
Definition read_resp_for (f : rdmap_read_req_fields) (r : send_wr) : send_wr :=
  {| swr_wr_id := swr_wr_id r; swr_sg_list := swr_sg_list r; swr_num_sge := swr_num_sge r;
     swr_opcode := swr_opcode r; swr_send_flags := swr_send_flags r;
     swr_invalidate_rkey := swr_invalidate_rkey r; swr_remote_addr := rf_sink_TO f;
     swr_rkey := rf_sink_tag f |}.
Definition bump_wr_id (r : send_wr) : send_wr :=
  {| swr_wr_id := u64 (swr_wr_id r + 1); swr_sg_list := swr_sg_list r;
     swr_num_sge := swr_num_sge r; swr_opcode := swr_opcode r; swr_send_flags := swr_send_flags r;
     swr_invalidate_rkey := swr_invalidate_rkey r; swr_remote_addr := swr_remote_addr r;
     swr_rkey := swr_rkey r |}.

Definition msg_is_tagged (msg : ddp_message) : bool := negb (ddp_is_tagged (dm_bits msg) =? 0).

(** How a turn of the loop ends: it goes round again, or the thread returns. *)
Inductive recv_end := RecvNext (th : recv_thread) (st : rnic) | RecvExit (st : rnic).

Section rnic_recv.
Variable cfg : config.

(** [case RDMAP_RDMA_READ_REQ].  A tag that is not registered is only logged. *)
Definition recv_read_req (th : recv_thread) (st : rnic) : run recv_end :=
  _ ← assert_ cfg (negb (msg_is_tagged (rcv_msg th)));
  let t := rc_recv_thread (rn_ctx st) in
  let buf := as_untag_buf (dm_buf (rcv_msg th)) in
  let f : rdmap_read_req_fields := decode (mem_read (rn_mem st) (ub_data buf) READ_REQ_SIZE) in
  let f := if rping cfg then swizzle f else f in
  let st := if rping cfg then set_rn_mem (mem_write (rn_mem st) (ub_data buf) (encode f)) st else st in
  let sg := {| sge_addr := rf_src_TO f; sge_length := rf_rdma_rd_sz f; sge_lkey := rf_src_tag f |} in
  let st := set_rn_sgs (<[rcv_sg th := [sg]]> (rn_sgs st)) st in
  let resp := read_resp_for f (rcv_read_resp th) in
  st ← sq_enqueue t resp st;
  ddp ← deref (rn_ddp st);
  mret (RecvNext (set_rcv_read_resp (bump_wr_id resp) th)
                 (set_rn_ddp (Some (ddp_post_recv t ddp READ_QN [buf])) st)).

(** [case RDMAP_RDMA_READ_RESP]. *)
Definition recv_read_resp (th : recv_thread) (ret : Z) (st : rnic) : run recv_end :=
  _ ← assert_ cfg (msg_is_tagged (rcv_msg th));
  found ← pending_try_dequeue st;
  match found with
  | None => mret (RecvNext th st)
  | Some (wce, st) =>
      let wce := set_wce_byte_len ret wce in
      st ← cq_enqueue (rc_recv_thread (rn_ctx st)) wce st;
      mret (RecvNext (set_rcv_wce wce th) st)
  end.

(** [case RDMAP_SEND], where the other three kinds of send end up. *)
Definition recv_send (th : recv_thread) (opcode ret : Z) (st : rnic) : run recv_end :=
  _ ← assert_ cfg (negb (msg_is_tagged (rcv_msg th)));
  found ← rq_try_dequeue st;
  match found with
  | None => mret (RecvNext th st)
  | Some (wr, st) =>
      let wce := set_wce_wr_id (rwr_wr_id wr) (set_wce_status WC_SUCCESS
                   (set_wce_byte_len ret (set_wce_opcode opcode (rcv_wce th)))) in
      st ← cq_enqueue (rc_recv_thread (rn_ctx st)) wce st;
      mret (RecvNext (set_rcv_wce wce th) st)
  end.

(** [case RDMAP_SEND_INVAL]: the tag is read from [rsvdULP1], the byte that
    holds the RDMAP control field; an unknown tag ends the thread. *)
Definition recv_send_inval (th : recv_thread) (opcode ret : Z) (st : rnic) : run recv_end :=
  let stag := {| st_tag := meta_rsvdULP1 (dm_meta (rcv_msg th)); st_pd := {| pd_id := 0 |} |} in
  '(erased, st) ← rdma_invalidate stag st;
  if erased <=? 0 then mret (RecvExit st) else recv_send th opcode ret st.

(** The [switch]; opcodes without a case fall out of it. *)
Definition recv_dispatch (th : recv_thread) (ret : Z) (st : rnic) : run recv_end :=
  let opcode := get_rdmap_op (meta_rsvdULP1 (dm_meta (rcv_msg th))) in
  match rdma_opcode_of_Z opcode with
  | Some RDMAP_RDMA_WRITE =>
      _ ← assert_ cfg (msg_is_tagged (rcv_msg th)); mret (RecvNext th st)
  | Some RDMAP_RDMA_READ_REQ => recv_read_req th st
  | Some RDMAP_RDMA_READ_RESP => recv_read_resp th ret st
  | Some RDMAP_SEND_SE_INVAL | Some RDMAP_SEND_INVAL => recv_send_inval th opcode ret st
  | Some RDMAP_SEND_SE | Some RDMAP_SEND => recv_send th opcode ret st
  | Some RDMAP_TERMINATE =>
      _ ← assert_ cfg (negb (msg_is_tagged (rcv_msg th)));
      mret (RecvNext th (set_connected 0 st))
  | Some RDMAP_NOT_SUPPORTED | None => mret (RecvNext th st)
  end.

(** One turn of [while(ctx->connected)]. *)
Definition rnic_recv_iter (segs fuel : nat) (th : recv_thread) (st : rnic) : run recv_end :=
  ddp ← deref (rn_ddp st);
  o ← returns (ddp_recv segs fuel ddp (rcv_msg th) (rn_mem st) (rn_sock st));
  let st := set_rn_sock (ro_sock o) (set_rn_mem (ro_mem o) (set_rn_ddp (Some (ro_ctx o)) st)) in
  let th := set_rcv_msg (ro_msg o) th in
  if ro_ret o <? 0 then mret (RecvExit st) else recv_dispatch th (ro_ret o) st.
End rnic_recv.

(** ** Stream life cycle and the application's calls *)

Record rdmap_stream_init_attr := {
  ria_sockfd : Z; ria_pd : Z; ria_send_q : Z; ria_recv_q : Z; ria_max_pending_read_requests : Z }.

(** The buffers for incoming read requests, one [malloc] each; the calling
    thread [t] posts them; [next] is not initialised. *)
Fixpoint post_read_buffers (junk : Z) (t : nat) (ptrs : list Z) (ddp : ddp_stream_context) : ddp_stream_context :=
  match ptrs with
  | [] => ddp
  | p :: ptrs =>
      post_read_buffers junk t ptrs
        (ddp_post_recv t ddp READ_QN [{| ub_data := p; ub_len := READ_REQ_SIZE; ub_next := junk |}])
  end.

Lemma post_read_buffers_tagged junk t ptrs ddp :
  dc_tagged_buffers (post_read_buffers junk t ptrs ddp) = dc_tagged_buffers ddp.
Proof.
  revert ddp; induction ptrs as [|p ptrs IH]; intros ddp; [done|].
  cbn [post_read_buffers]; rewrite IH; unfold ddp_post_recv; by destruct (_ || _).
Qed.

(** [ptrs] are the addresses the [max_pending_read_requests] allocations return.
    [rc] are the results of the two [pthread_create] calls; on failure the
    function returns [NULL] and leaves what it built behind. *)
Definition rdmap_init_stream (junk : Z) (t : nat) (attr : rdmap_stream_init_attr) (ptrs : list Z)
    (tids : nat * nat) (rc : Z * Z) (heap : qheap) (sgs : gmap Z (list sge)) (m : mem) (s : sock)
    (msns : Z * Z * Z) : bool * rnic :=
  let ddp := post_read_buffers junk t (take (Z.to_nat (ria_max_pending_read_requests attr)) ptrs)
               (ddp_init_stream (ria_sockfd attr) (ria_pd attr)) in
  let st := {| rn_ctx := {| rc_connected := 1; rc_send_q := ria_send_q attr;
                            rc_recv_q := ria_recv_q attr; rc_recv_thread := tids.1;
                            rc_send_thread := tids.2 |};
               rn_ddp := Some ddp; rn_heap := heap; rn_sgs := sgs; rn_mem := m; rn_sock := s;
               rn_msn_send := msns.1.1; rn_msn_inval := msns.1.2; rn_msn_read := msns.2 |} in
  ((rc.1 =? 0) && (rc.2 =? 0), st).

(** The two steps of [rdmap_kill_stream] before it joins the threads: the DDP
    context goes first, [connected] is cleared afterwards. *)
Definition ddp_kill_stream (st : rnic) : rnic := set_rn_ddp None st.
Definition rdmap_kill_stream (st : rnic) : rnic := set_connected 0 (ddp_kill_stream st).

(** [enqueue] returns [true], converted to 1. *)
Definition rdmap_send (t : nat) (wr : send_wr) (st : rnic) : run (Z * rnic) :=
  st ← sq_enqueue t wr st; mret (1, st).
Definition rdmap_write (cfg : config) (t : nat) (wr : send_wr) (st : rnic) : run (Z * rnic) :=
  _ ← assert_ cfg (bool_decide (swr_opcode wr = RDMAP_RDMA_WRITE));
  st ← sq_enqueue t wr st; mret (1, st).
Definition rdmap_read (cfg : config) (t : nat) (wr : send_wr) (st : rnic) : run (Z * rnic) :=
  _ ← assert_ cfg (bool_decide (swr_opcode wr = RDMAP_RDMA_READ_REQ));
  st ← sq_enqueue t wr st; mret (1, st).

(** One untagged buffer per element; the [next] members are not initialised. *)
Definition recv_bufs (junk : Z) (gs : list sge) : list untagged_buffer :=
  map (fun g => {| ub_data := sge_addr g; ub_len := sge_length g; ub_next := junk |}) gs.

(** Its two operations on queues: the buffers, then the request. *)
Definition rdma_post_bufs (junk : Z) (t : nat) (wr : recv_wr) (st : rnic) : run rnic :=
  ddp ← deref (rn_ddp st);
  let bufs := recv_bufs junk (sg_array st (rwr_sg_list wr) (rwr_num_sge wr)) in
  mret (set_rn_ddp (Some (ddp_post_recv t ddp SEND_QN bufs)) st).
Definition rdma_post_recv (junk : Z) (t : nat) (wr : recv_wr) (st : rnic) : run (Z * rnic) :=
  st ← rdma_post_bufs junk t wr st; st ← rq_enqueue t wr st; mret (0, st).
