(* ===== verification/RdmapView.v ===== *)
(** * RDMAP: the four queues of a stream, without the pointers

    [rnic_send], [rnic_recv] and the posting calls reach their queues through
    pointers of the stream context.  A [view] is what they find there: the send
    queue, the receive queue, the completion queue and the queue of completions
    that wait for a read response.  The lemmas say that each pointer-level
    operation does to the heap what the queue operation does to the view; the
    proofs about the threads only use these. *)

From S2P Require Import Prelude Endian Wire Socket Mpa Memory CQueue Cq Ddp Rdmap.

Record view := {
  v_sq : cqueue send_wr; v_rq : cqueue recv_wr;
  v_cq : cqueue work_completion; v_pend : cqueue work_completion }.

Definition with_sq (q : cqueue send_wr) (v : view) : view :=
  {| v_sq := q; v_rq := v_rq v; v_cq := v_cq v; v_pend := v_pend v |}.
Definition with_rq (q : cqueue recv_wr) (v : view) : view :=
  {| v_sq := v_sq v; v_rq := q; v_cq := v_cq v; v_pend := v_pend v |}.
Definition with_cq (q : cqueue work_completion) (v : view) : view :=
  {| v_sq := v_sq v; v_rq := v_rq v; v_cq := q; v_pend := v_pend v |}.
Definition with_pend (q : cqueue work_completion) (v : view) : view :=
  {| v_sq := v_sq v; v_rq := v_rq v; v_cq := v_cq v; v_pend := q |}.

Definition has_view (c : rdmap_stream_context) (h : qheap) (v : view) : Prop :=
  exists w w' k, wqs h !! rc_send_q c = Some w /\ wq_queue_of w = SendQ (v_sq v) /\
    wqs h !! rc_recv_q c = Some w' /\ wq_queue_of w' = RecvQ (v_rq v) /\
    cqs h !! wq_cq w = Some k /\ cq_q k = v_cq v /\ cq_pending_q k = v_pend v.

(** A stream whose queues are [v]. *)
Abbreviation sees st v := (has_view (rn_ctx st) (rn_heap st) v).

Lemma has_view_det c h v v' : has_view c h v -> has_view c h v' -> v = v'.
Proof.
  intros (w & w' & k & H1 & H2 & H3 & H4 & H5 & H6 & H7)
         (x & x' & l & G1 & G2 & G3 & G4 & G5 & G6 & G7); simplify_eq.
  destruct v, v'; cbn in *; congruence.
Qed.

(** The send queue and the receive queue are different blocks. *)
Lemma has_view_ne c h v : has_view c h v -> rc_send_q c <> rc_recv_q c.
Proof. intros (w & w' & k & H1 & H2 & H3 & H4 & _) E; rewrite E in H1; simplify_eq; congruence. Qed.

Section ops.
Context (st : rnic) (v : view).
Hypothesis Hv : sees st v.

(** Takes the view apart and runs the pointer-level operation. *)
Ltac open_view :=
  pose proof (has_view_ne _ _ _ Hv) as Hne;
  destruct Hv as (w & w' & k & H1 & H2 & H3 & H4 & H5 & H6 & H7);
  unfold send_cq, send_wq, recv_wq, as_send_q, as_recv_q;
  rewrite ?H1, ?H3; cbn [deref]; rewrite ?bind_Done, ?H2, ?H4, ?bind_Done, ?H5; cbn [deref];
  rewrite ?bind_Done; cbn [mret run_ret].
Ltac close_view w w' k :=
  exists w, w', k; cbn [set_wqs set_cqs set_rn_heap rn_heap rn_ctx wqs cqs wq_queue_of set_wq_queue
    with_sq with_rq with_cq with_pend v_sq v_rq v_cq v_pend cq_q cq_pending_q wq_cq];
  rewrite ?lookup_insert_eq, ?lookup_insert_ne by done; split_all; congruence.

Lemma sq_enqueue_sees t x :
  exists h, sq_enqueue t x st = Done (set_rn_heap h st) /\
    has_view (rn_ctx st) h (with_sq (enqueue t x (v_sq v)) v).
Proof.
  unfold sq_enqueue; open_view; eexists; split; [done|].
  close_view (set_wq_queue (SendQ (enqueue t x (v_sq v))) w) w' k.
Qed.
Lemma rq_enqueue_sees t x :
  exists h, rq_enqueue t x st = Done (set_rn_heap h st) /\
    has_view (rn_ctx st) h (with_rq (enqueue t x (v_rq v)) v).
Proof.
  unfold rq_enqueue; open_view; eexists; split; [done|].
  close_view w (set_wq_queue (RecvQ (enqueue t x (v_rq v))) w') k.
Qed.
Lemma sq_try_dequeue_sees :
  match try_dequeue (v_sq v) with
  | None => sq_try_dequeue st = Done None
  | Some (x, q) => exists h, sq_try_dequeue st = Done (Some (x, set_rn_heap h st)) /\
      has_view (rn_ctx st) h (with_sq q v)
  end.
Proof.
  unfold sq_try_dequeue; open_view; destruct (try_dequeue (v_sq v)) as [[x q]|]; [|done].
  eexists; split; [done|]; close_view (set_wq_queue (SendQ q) w) w' k.
Qed.
Lemma rq_try_dequeue_sees :
  match try_dequeue (v_rq v) with
  | None => rq_try_dequeue st = Done None
  | Some (x, q) => exists h, rq_try_dequeue st = Done (Some (x, set_rn_heap h st)) /\
      has_view (rn_ctx st) h (with_rq q v)
  end.
Proof.
  unfold rq_try_dequeue; open_view; destruct (try_dequeue (v_rq v)) as [[x q]|]; [|done].
  eexists; split; [done|]; close_view w (set_wq_queue (RecvQ q) w') k.
Qed.
Lemma cq_enqueue_sees t e :
  exists h, cq_enqueue t e st = Done (set_rn_heap h st) /\
    has_view (rn_ctx st) h (with_cq (enqueue t e (v_cq v)) v).
Proof.
  unfold cq_enqueue; open_view; eexists; split; [done|].
  close_view w w' {| cq_ctx := cq_ctx k; cq_q := enqueue t e (cq_q k);
                     cq_pending_q := cq_pending_q k |}.
Qed.
Lemma pending_enqueue_sees t e :
  exists h, pending_enqueue t e st = Done (set_rn_heap h st) /\
    has_view (rn_ctx st) h (with_pend (enqueue t e (v_pend v)) v).
Proof.
  unfold pending_enqueue; open_view; eexists; split; [done|].
  close_view w w' {| cq_ctx := cq_ctx k; cq_q := cq_q k;
                     cq_pending_q := enqueue t e (cq_pending_q k) |}.
Qed.
Lemma pending_try_dequeue_sees :
  match try_dequeue (v_pend v) with
  | None => pending_try_dequeue st = Done None
  | Some (x, q) => exists h, pending_try_dequeue st = Done (Some (x, set_rn_heap h st)) /\
      has_view (rn_ctx st) h (with_pend q v)
  end.
Proof.
  unfold pending_try_dequeue; open_view; rewrite H7.
  destruct (try_dequeue (v_pend v)) as [[x q]|]; [|done]; eexists; split; [done|].
  close_view w w' {| cq_ctx := cq_ctx k; cq_q := cq_q k; cq_pending_q := q |}.
Qed.
End ops.
