(* ===== verification/RdmapThreads.v ===== *)
(** * RDMAP: what one turn of each thread does

    The iterations of [rnic_send] and [rnic_recv] against the abstract view of
    the queues: which completions appear where, in every branch. *)

From S2P Require Import Prelude Endian Wire Socket Mpa Memory CQueue Cq Ddp DdpSegment Rdmap RdmapView.

(** ** The send thread *)

(** Requests that end in a completion. *)
Definition completes (req : send_wr) : bool :=
  match swr_opcode req with
  | RDMAP_SEND | RDMAP_SEND_SE | RDMAP_SEND_INVAL | RDMAP_SEND_SE_INVAL | RDMAP_RDMA_WRITE => true
  | RDMAP_RDMA_READ_REQ => swr_num_sge req =? 1
  | RDMAP_RDMA_READ_RESP | RDMAP_TERMINATE | RDMAP_NOT_SUPPORTED => false
  end.

(** A read request needs the element its pointer promises. *)
Definition sg_ready (req : send_wr) (st : rnic) : Prop :=
  swr_opcode req = RDMAP_RDMA_READ_REQ -> swr_num_sge req = 1 ->
  sg_array st (swr_sg_list req) 1 <> [].

Lemma send_untagged_total h gs st ddp :
  rn_ddp st = Some ddp ->
  exists ret s, send_untagged h gs st = Done (ret, set_rn_sock s st) /\ ret <= 0.
Proof.
  intros Hd; unfold send_untagged; rewrite Hd; cbn [deref]; rewrite bind_Done.
  destruct (send_untagged_sges_total (rn_mem st) gs
    {| us_bits := u8 (Z.lor 0 1); us_hdr := set_um_mo 0 h |} (rn_sock st)) as (ret & s & E & Hr).
  unfold ddp_send_untagged; rewrite E; by exists ret, s.
Qed.
Lemma send_tagged_total h gs st ddp :
  rn_ddp st = Some ddp ->
  exists ret s, send_tagged h gs st = Done (ret, set_rn_sock s st) /\ ret <= 0.
Proof.
  intros Hd; unfold send_tagged; rewrite Hd; cbn [deref]; rewrite bind_Done.
  destruct (send_tagged_sges_total (rn_mem st) gs
    {| ts_bits := u8 (Z.lor (u8 (Z.lor 0 DDP_HDR_T)) 1); ts_hdr := h; ts_ho_TO := ntohll (tm_TO h) |}
    (rn_sock st)) as (ret & s & E & Hr).
  unfold ddp_send_tagged; rewrite E; by exists ret, s.
Qed.

(** The parts of the state the wire part of an iteration leaves alone. *)
Definition wire_frame (st st' : rnic) : Prop :=
  rn_ctx st' = rn_ctx st /\ rn_heap st' = rn_heap st /\ rn_ddp st' = rn_ddp st /\
  rn_sgs st' = rn_sgs st.

(** The DDP calls of an iteration always return. *)
Lemma rnic_send_wire_total junk th req st ddp :
  rn_ddp st = Some ddp -> sg_ready req st ->
  exists r st', rnic_send_wire junk th req st = Done (r, st') /\ wire_frame st st' /\
    match r with
    | None => completes req = false
    | Some ret => ret <= 0 /\ (completes req = true \/ swr_opcode req = RDMAP_RDMA_READ_RESP)
    end.
Proof.
  intros Hd Hsg; unfold rnic_send_wire, completes.
  destruct (swr_opcode req) eqn:Ho.
  1,3: destruct (send_tagged_total (write_hdr req)
         (sg_array st (swr_sg_list req) (swr_num_sge req)) st ddp Hd) as (ret & s & -> & Hr);
       rewrite bind_Done; repeat eexists; try done; first [by left | by right].
  2,3,4,5: match goal with |- context [send_untagged ?h ?g ?x] =>
         destruct (send_untagged_total h g x ddp Hd) as (ret & s & -> & Hr) end;
       rewrite bind_Done; repeat eexists; try done; by left.
  2,3: repeat eexists; done.
  destruct (Z.eqb_spec (swr_num_sge req) 1) as [Hn|Hn]; cbn [negb]; [|repeat eexists; done].
  specialize (Hsg Ho Hn); rewrite <- Hn in Hsg.
  match goal with |- context [head ?l] => change l with (sg_array st (swr_sg_list req) (swr_num_sge req)) end.
  destruct (sg_array st (swr_sg_list req) (swr_num_sge req)) as [|g gs]; [done|].
  cbn [head deref]; rewrite bind_Done.
  match goal with |- context [send_untagged ?h ?g ?x] =>
    destruct (send_untagged_total h g x ddp Hd) as (ret & s & -> & Hr) end.
  rewrite bind_Done; repeat eexists; try done; by left.
Qed.

(** The DDP call a request asks for, and what it returns: the value and the socket it
    leaves.  [None]: the case ends without a call. *)
Definition ddp_call (junk : Z) (th : send_thread) (req : send_wr) (st : rnic) : option (option (Z * sock)) :=
  let gs := sg_array st (swr_sg_list req) (swr_num_sge req) in
  let untagged h := ddp_send_untagged (rn_mem st) h gs (rn_sock st) in
  match swr_opcode req with
  | RDMAP_SEND_SE | RDMAP_SEND => Some (untagged (send_hdr junk req (u32 junk) SEND_QN (rn_msn_send st)))
  | RDMAP_SEND_SE_INVAL | RDMAP_SEND_INVAL =>
      Some (untagged (send_hdr junk req (htonl (swr_invalidate_rkey req)) SEND_QN (rn_msn_inval st)))
  | RDMAP_RDMA_READ_REQ =>
      if swr_num_sge req =? 1 then
        g ← head gs;
        Some (ddp_send_untagged (mem_write (rn_mem st) (snd_fields th) (encode (read_fields req g)))
          (send_hdr junk req (u32 junk) READ_QN (rn_msn_read st))
          [{| sge_addr := snd_fields th; sge_length := READ_REQ_SIZE; sge_lkey := u32 junk |}] (rn_sock st))
      else None
  | RDMAP_RDMA_WRITE | RDMAP_RDMA_READ_RESP =>
      Some (ddp_send_tagged (rn_mem st) (write_hdr req) gs (rn_sock st))
  | RDMAP_TERMINATE | RDMAP_NOT_SUPPORTED => None
  end.

Lemma send_untagged_call h gs st ret st' :
  send_untagged h gs st = Done (ret, st') ->
  ddp_send_untagged (rn_mem st) h gs (rn_sock st) = Some (ret, rn_sock st').
Proof.
  unfold send_untagged; destruct (rn_ddp st); [|done]; cbn [deref]; rewrite bind_Done.
  by destruct (ddp_send_untagged _ _ _ _) as [[r s]|]; [intros [= <- <-]|].
Qed.
Lemma send_tagged_call h gs st ret st' :
  send_tagged h gs st = Done (ret, st') ->
  ddp_send_tagged (rn_mem st) h gs (rn_sock st) = Some (ret, rn_sock st').
Proof.
  unfold send_tagged; destruct (rn_ddp st); [|done]; cbn [deref]; rewrite bind_Done.
  by destruct (ddp_send_tagged _ _ _ _) as [[r s]|]; [intros [= <- <-]|].
Qed.
Lemma rnic_send_wire_call junk th req st r st' :
  rnic_send_wire junk th req st = Done (r, st') ->
  match r with
  | None => ddp_call junk th req st = None /\ rn_sock st' = rn_sock st
  | Some ret => ddp_call junk th req st = Some (Some (ret, rn_sock st'))
  end.
Proof.
  unfold rnic_send_wire, ddp_call; destruct (swr_opcode req); intros E.
  all: try (apply bind_Done_inv in E as ([ret s] & E & Ef); injection Ef as <- <-;
            by first [apply send_untagged_call in E as <- | apply send_tagged_call in E as <-]).
  2,3: by injection E as <- <-.
  destruct (swr_num_sge req =? 1); cbn [negb] in E; [|by injection E as <- <-].
  apply bind_Done_inv in E as (g & Eg & E); apply bind_Done_inv in E as ([ret s] & E & Ef).
  injection Ef as <- <-; apply send_untagged_call in E.
  destruct (head _) as [g'|]; [|done]; injection Eg as ->; by rewrite <- E.
Qed.

(** Where the completion of [req] goes. *)
Definition complete_spec (t : nat) (th : send_thread) (req : send_wr) (r : option Z) (v : view) : view :=
  match r with
  | None => v
  | Some ret =>
      let e := send_completion th req ret in
      match swr_opcode req with
      | RDMAP_SEND_SE | RDMAP_SEND | RDMAP_SEND_SE_INVAL | RDMAP_SEND_INVAL | RDMAP_RDMA_WRITE =>
          with_cq (enqueue t e (v_cq v)) v
      | RDMAP_RDMA_READ_REQ =>
          if ret <? 0 then with_cq (enqueue t e (v_cq v)) v else with_pend (enqueue t e (v_pend v)) v
      | RDMAP_RDMA_READ_RESP | RDMAP_TERMINATE | RDMAP_NOT_SUPPORTED => v
      end
  end.

Lemma set_rn_heap_id st : set_rn_heap (rn_heap st) st = st.
Proof. by destruct st. Qed.

Lemma rnic_send_complete_sees th req r st v :
  sees st v ->
  exists th' h, rnic_send_complete th req r st = Done (th', set_rn_heap h st) /\
    has_view (rn_ctx st) h (complete_spec (rc_send_thread (rn_ctx st)) th req r v) /\
    snd_fields th' = snd_fields th.
Proof.
  intros Hv; unfold rnic_send_complete, complete_spec; destruct r as [ret|].
  2:{ exists th, (rn_heap st); by rewrite set_rn_heap_id. }
  assert (exists th' h, Done (th, st) = Done (th', set_rn_heap h st) /\ has_view (rn_ctx st) h v /\
    snd_fields th' = snd_fields th) as Hnop.
  { exists th, (rn_heap st); by rewrite set_rn_heap_id. }
  destruct (cq_enqueue_sees st v Hv (rc_send_thread (rn_ctx st)) (send_completion th req ret))
    as (h1 & E1 & V1).
  destruct (pending_enqueue_sees st v Hv (rc_send_thread (rn_ctx st)) (send_completion th req ret))
    as (h2 & E2 & V2).
  destruct (swr_opcode req); try exact Hnop.
  2: destruct (ret <? 0); [rewrite E1|rewrite E2]; rewrite bind_Done.
  all: try (rewrite E1, bind_Done).
  all: eexists _, _; split; [reflexivity|split; [eassumption|done]].
Qed.

(** C14: One turn of the send loop on a live stream always returns, whatever the
    socket does.  It takes the request the queue yields, makes the DDP call the request
    asks for, leaves the DDP context, the element arrays and the receive queue alone,
    and files exactly one completion: for the four sends and the write into the
    completion queue, for a read request into the queue of pending reads (into the
    completion queue when the call failed), and none for a read response or where no
    call is made.  The completion carries the request's id and opcode and the value the
    call returned, and is successful exactly when that value is not negative. *)
Theorem rnic_send_iter_completes junk th st v ddp :
  sees st v -> rn_ddp st = Some ddp ->
  (forall req q, try_dequeue (v_sq v) = Some (req, q) -> sg_ready req st) ->
  match try_dequeue (v_sq v) with
  | None => rnic_send_iter junk th st = Done (th, st)
  | Some (req, q) => exists r th' st',
      rnic_send_iter junk th st = Done (th', st') /\
      rn_ctx st' = rn_ctx st /\ rn_ddp st' = rn_ddp st /\ rn_sgs st' = rn_sgs st /\
      sees st' (complete_spec (rc_send_thread (rn_ctx st)) th req r (with_sq q v)) /\
      match r with
      | None => ddp_call junk th req st = None /\ rn_sock st' = rn_sock st /\ completes req = false
      | Some ret =>
          let e := send_completion th req ret in
          ddp_call junk th req st = Some (Some (ret, rn_sock st')) /\
          (completes req = true \/ swr_opcode req = RDMAP_RDMA_READ_RESP) /\
          wce_wr_id e = swr_wr_id req /\ wce_opcode e = rdma_opcode_val (swr_opcode req) /\
          wce_byte_len e = u32 ret /\ (wce_status e = WC_SUCCESS <-> 0 <= ret)
      end
  end.
Proof.
  intros Hv Hd Hsg; unfold rnic_send_iter; pose proof (sq_try_dequeue_sees st v Hv) as Hq.
  destruct (try_dequeue (v_sq v)) as [[req q]|]; [|by rewrite Hq].
  destruct Hq as (h & -> & V1); rewrite bind_Done.
  destruct (rnic_send_wire_total junk th req (set_rn_heap h st) ddp Hd (Hsg req q eq_refl))
    as (r & st1 & Ew & (Hc & Hh & Hdd & Hgs) & Hr); rewrite Ew, bind_Done.
  apply rnic_send_wire_call in Ew.
  assert (sees st1 (with_sq q v)) as V2 by (rewrite Hc, Hh; exact V1).
  destruct (rnic_send_complete_sees th req r st1 _ V2) as (th' & h' & -> & V3 & _).
  exists r, th', (set_rn_heap h' st1); split_all; try done.
  - cbn [rn_ctx set_rn_heap rn_heap]; rewrite Hc in *; exact V3.
  - destruct r as [ret|]; [|by destruct Ew]; destruct Hr as [Hr Hk]; split_all; try done.
    cbn; destruct (Z.ltb_spec ret 0); split; intros; first [done | lia].
Qed.

(** ** The receive thread *)

Definition msg_op (th : recv_thread) : Z := get_rdmap_op (meta_rsvdULP1 (dm_meta (rcv_msg th))).

(** The assertion the message runs into: not with [NDEBUG], and a send that
    invalidates comes to it only when the tag was registered. *)
Definition aborts (cfg : config) (th : recv_thread) (ddp : ddp_stream_context) : bool :=
  negb (ndebug cfg) &&
  match rdma_opcode_of_Z (msg_op th) with
  | Some RDMAP_RDMA_WRITE | Some RDMAP_RDMA_READ_RESP => negb (msg_is_tagged (rcv_msg th))
  | Some RDMAP_RDMA_READ_REQ | Some RDMAP_SEND | Some RDMAP_SEND_SE | Some RDMAP_TERMINATE =>
      msg_is_tagged (rcv_msg th)
  | Some RDMAP_SEND_INVAL | Some RDMAP_SEND_SE_INVAL =>
      msg_is_tagged (rcv_msg th) &&
      bool_decide (is_Some (dc_tagged_buffers ddp !! meta_rsvdULP1 (dm_meta (rcv_msg th))))
  | Some RDMAP_NOT_SUPPORTED | None => false
  end.

(** The fields of a received read request. *)
Definition recv_fields (cfg : config) (th : recv_thread) (m : mem) : rdmap_read_req_fields :=
  let f := decode (mem_read m (ub_data (as_untag_buf (dm_buf (rcv_msg th)))) READ_REQ_SIZE) in
  if rping cfg then swizzle f else f.

Definition recv_completion (th : recv_thread) (ret : Z) (wr : recv_wr) : work_completion :=
  set_wce_wr_id (rwr_wr_id wr) (set_wce_status WC_SUCCESS
    (set_wce_byte_len ret (set_wce_opcode (msg_op th) (rcv_wce th)))).

(** The queues after a message has been handled by thread [t]. *)
Definition recv_send_spec (t : nat) (th : recv_thread) (ret : Z) (v : view) : view :=
  match try_dequeue (v_rq v) with
  | None => v
  | Some (wr, q) => let v := with_rq q v in with_cq (enqueue t (recv_completion th ret wr) (v_cq v)) v
  end.
Definition recv_spec (cfg : config) (t : nat) (th : recv_thread) (m : mem)
    (ddp : ddp_stream_context) (ret : Z) (v : view) : view :=
  match rdma_opcode_of_Z (msg_op th) with
  | Some RDMAP_RDMA_READ_REQ =>
      with_sq (enqueue t (read_resp_for (recv_fields cfg th m) (rcv_read_resp th)) (v_sq v)) v
  | Some RDMAP_RDMA_READ_RESP =>
      match try_dequeue (v_pend v) with
      | None => v
      | Some (e, q) =>
          let v := with_pend q v in with_cq (enqueue t (set_wce_byte_len ret e) (v_cq v)) v
      end
  | Some RDMAP_SEND | Some RDMAP_SEND_SE => recv_send_spec t th ret v
  | Some RDMAP_SEND_INVAL | Some RDMAP_SEND_SE_INVAL =>
      match dc_tagged_buffers ddp !! meta_rsvdULP1 (dm_meta (rcv_msg th)) with
      | Some _ => recv_send_spec t th ret v
      | None => v
      end
  | _ => v
  end.

Definition end_st (e : recv_end) : rnic := match e with RecvNext _ st => st | RecvExit st => st end.
Definition exits (e : recv_end) : bool := match e with RecvNext _ _ => false | RecvExit _ => true end.

Lemma assert_ok cfg b : ndebug cfg = true \/ b = true -> assert_ cfg b = Done tt.
Proof. unfold assert_; intros [-> | ->]; [done|by rewrite orb_true_r]. Qed.

Lemma recv_send_sees cfg th ret st v :
  sees st v -> ndebug cfg = true \/ msg_is_tagged (rcv_msg th) = false ->
  exists th' h, recv_send cfg th (msg_op th) ret st = Done (RecvNext th' (set_rn_heap h st)) /\
    has_view (rn_ctx st) h (recv_send_spec (rc_recv_thread (rn_ctx st)) th ret v).
Proof.
  intros Hv Ha; unfold recv_send, recv_send_spec.
  rewrite assert_ok, bind_Done by (destruct Ha as [? | ->]; [by left|by right]).
  pose proof (rq_try_dequeue_sees st v Hv) as Hq; destruct (try_dequeue (v_rq v)) as [[wr q]|].
  - destruct Hq as (h & -> & V1); rewrite bind_Done.
    destruct (cq_enqueue_sees (set_rn_heap h st) _ V1 (rc_recv_thread (rn_ctx st))
      (recv_completion th ret wr)) as (h' & E & V2).
    unfold recv_completion in E; cbn [rn_ctx set_rn_heap] in *; rewrite E, bind_Done; by eexists _, h'.
  - rewrite Hq, bind_Done; exists th, (rn_heap st); by rewrite set_rn_heap_id.
Qed.

Lemma recv_read_req_sees cfg th st v ddp :
  sees st v -> rn_ddp st = Some ddp -> ndebug cfg = true \/ msg_is_tagged (rcv_msg th) = false ->
  exists th' st', recv_read_req cfg th st = Done (RecvNext th' st') /\ rn_ctx st' = rn_ctx st /\
    sees st' (with_sq (enqueue (rc_recv_thread (rn_ctx st))
                (read_resp_for (recv_fields cfg th (rn_mem st)) (rcv_read_resp th)) (v_sq v)) v).
Proof.
  intros Hv Hd Ha; unfold recv_read_req; fold (recv_fields cfg th (rn_mem st)).
  rewrite assert_ok, bind_Done by (destruct Ha as [? | ->]; [by left|by right]); cbv zeta.
  match goal with |- context [sq_enqueue ?t ?x ?s] =>
    assert (rn_ctx s = rn_ctx st /\ rn_heap s = rn_heap st /\ rn_ddp s = rn_ddp st)
      as (E1 & E2 & E3) by (by destruct (rping cfg)); set (s' := s) in * end.
  assert (sees s' v) as Hv' by (by rewrite E1, E2).
  match goal with |- context [sq_enqueue ?t ?x s'] =>
    destruct (sq_enqueue_sees s' v Hv' t x) as (h & -> & V1) end.
  rewrite bind_Done; cbn [rn_ddp set_rn_heap]; rewrite E3, Hd; cbn [deref]; rewrite bind_Done.
  eexists _, _; split; [reflexivity|split; [by cbn|]]; cbn [rn_ctx rn_heap set_rn_ddp set_rn_heap].
  rewrite E1 in *; exact V1.
Qed.

Lemma recv_read_resp_sees cfg th ret st v :
  sees st v -> ndebug cfg = true \/ msg_is_tagged (rcv_msg th) = true ->
  exists th' h, recv_read_resp cfg th ret st = Done (RecvNext th' (set_rn_heap h st)) /\
    has_view (rn_ctx st) h
      match try_dequeue (v_pend v) with
      | None => v
      | Some (e, q) =>
          let v := with_pend q v in
          with_cq (enqueue (rc_recv_thread (rn_ctx st)) (set_wce_byte_len ret e) (v_cq v)) v
      end.
Proof.
  intros Hv Ha; unfold recv_read_resp; rewrite assert_ok, bind_Done by done.
  pose proof (pending_try_dequeue_sees st v Hv) as Hq; destruct (try_dequeue (v_pend v)) as [[e q]|].
  - destruct Hq as (h & -> & V1); rewrite bind_Done.
    destruct (cq_enqueue_sees (set_rn_heap h st) _ V1 (rc_recv_thread (rn_ctx st))
      (set_wce_byte_len ret e)) as (h' & E & V2).
    cbn [rn_ctx set_rn_heap] in *; rewrite E, bind_Done; by eexists _, h'.
  - rewrite Hq, bind_Done; exists th, (rn_heap st); by rewrite set_rn_heap_id.
Qed.

Lemma recv_send_inval_sees cfg th ret st v ddp :
  sees st v -> rn_ddp st = Some ddp ->
  let tag := meta_rsvdULP1 (dm_meta (rcv_msg th)) in
  (dc_tagged_buffers ddp !! tag <> None -> ndebug cfg = true \/ msg_is_tagged (rcv_msg th) = false) ->
  exists e, recv_send_inval cfg th (msg_op th) ret st = Done e /\ rn_ctx (end_st e) = rn_ctx st /\
    sees (end_st e) match dc_tagged_buffers ddp !! tag with
                    | Some _ => recv_send_spec (rc_recv_thread (rn_ctx st)) th ret v
                    | None => v
                    end /\
    exits e = bool_decide (dc_tagged_buffers ddp !! tag = None).
Proof.
  intros Hv Hd tag Ha; unfold recv_send_inval, rdma_invalidate; rewrite Hd; cbn [deref].
  rewrite !bind_Done; cbn [deregister_tagged_buffer st_tag]; fold tag; cbv beta iota zeta.
  destruct (dc_tagged_buffers ddp !! tag) as [b|].
  - cbn [mret run_ret]; rewrite bind_Done; change (1 <=? 0) with false; cbv iota.
    destruct (recv_send_sees cfg th ret (set_rn_ddp (Some (set_dc_tagged (delete tag) ddp)) st) v Hv (Ha ltac:(done)))
      as (th' & h & -> & V1); by eexists.
  - cbn [mret run_ret]; rewrite bind_Done; change (0 <=? 0) with true; cbv iota; by eexists.
Qed.

Lemma aborts_true cfg th ddp ret st :
  rn_ddp st = Some ddp -> aborts cfg th ddp = true -> recv_dispatch cfg th ret st = Aborted.
Proof.
  intros Hd [Hn Ha]%andb_true_iff; unfold recv_dispatch; fold (msg_op th).
  assert (assert_ cfg false = Aborted) as Hf by (unfold assert_; by destruct (ndebug cfg)).
  destruct (rdma_opcode_of_Z (msg_op th)) as [[]|]; try done.
  5,7: apply andb_true_iff in Ha as [Ha [b Hb]%bool_decide_eq_true];
    unfold recv_send_inval, rdma_invalidate; rewrite Hd; cbn [deref]; cbv zeta;
    rewrite !bind_Done; cbn [deregister_tagged_buffer st_tag]; rewrite Hb; cbn [mret run_ret];
    rewrite bind_Done; change (1 <=? 0) with false; cbv iota.
  all: unfold recv_read_req, recv_read_resp, recv_send; destruct (msg_is_tagged (rcv_msg th)); try done.
  all: cbn [negb]; by rewrite Hf.
Qed.

(** C13: What handling a received message does, for every opcode.  If the message's tagged
    bit is not the one the opcode's [assert] demands and assertions are compiled in, the
    program aborts (for a send with invalidation only if the tag was registered: the
    tag is looked at first).  Otherwise the thread goes on, and: a read request puts one
    read response on the send queue; a read response moves the oldest pending read to
    the completion queue; a send takes the oldest receive request and completes it (with
    invalidation, only if the tag was registered); a write, a terminate and an unknown
    opcode touch no queue.  The stream context is unchanged, except that a terminate
    clears [connected], and the thread ends exactly on an invalidation of an unknown tag. *)
Theorem recv_dispatch_spec cfg th ret st v ddp :
  sees st v -> rn_ddp st = Some ddp ->
  if aborts cfg th ddp then recv_dispatch cfg th ret st = Aborted
  else exists e, recv_dispatch cfg th ret st = Done e /\
    sees (end_st e) (recv_spec cfg (rc_recv_thread (rn_ctx st)) th (rn_mem st) ddp ret v) /\
    rn_ctx (end_st e) =
      rn_ctx (if msg_op th =? rdma_opcode_val RDMAP_TERMINATE then set_connected 0 st else st) /\
    exits e = match rdma_opcode_of_Z (msg_op th) with
              | Some RDMAP_SEND_INVAL | Some RDMAP_SEND_SE_INVAL =>
                  bool_decide (dc_tagged_buffers ddp !! meta_rsvdULP1 (dm_meta (rcv_msg th)) = None)
              | _ => false
              end.
Proof.
  intros Hv Hd; destruct (aborts cfg th ddp) eqn:Ha; [by eapply aborts_true|].
  unfold recv_dispatch, recv_spec; fold (msg_op th); unfold aborts in Ha.
  assert (forall o, rdma_opcode_of_Z (msg_op th) = Some o -> msg_op th = rdma_opcode_val o) as Hval.
  { intros o; unfold rdma_opcode_of_Z; repeat case_match; intros; simplify_eq; done. }
  destruct (rdma_opcode_of_Z (msg_op th)) as [o|] eqn:Ho.
  2:{ eexists; split_all; try done; cbn [end_st].
      destruct (Z.eqb_spec (msg_op th) (rdma_opcode_val RDMAP_TERMINATE)) as [E|]; [|done].
      by rewrite E in Ho. }
  specialize (Hval o eq_refl).
  assert ((msg_op th =? rdma_opcode_val RDMAP_TERMINATE) = bool_decide (o = RDMAP_TERMINATE)) as ->
    by (rewrite Hval; by destruct o).
  assert (forall b, negb (ndebug cfg) && b = false -> ndebug cfg = true \/ b = false) as Hdec
    by (intros b [Hn|Hb]%andb_false_iff; [left; by apply negb_false_iff|by right]).
  apply Hdec in Ha; clear Hdec; rewrite ?negb_false_iff in Ha; destruct o; rewrite ?negb_false_iff in Ha.
  - rewrite assert_ok, bind_Done by done; by eexists.
  - destruct (recv_read_req_sees cfg th st v ddp Hv Hd Ha) as (th' & st' & -> & Hc & V1).
    eexists; split_all; [done|exact V1|cbn; by rewrite Hc|done].
  - destruct (recv_read_resp_sees cfg th ret st v Hv Ha) as (th' & h & -> & V1); by eexists.
  - destruct (recv_send_sees cfg th ret st v Hv Ha) as (th' & h & -> & V1); by eexists.
  - destruct (recv_send_inval_sees cfg th ret st v ddp Hv Hd) as (e & -> & Hc & V1 & Hx).
    { intros Ht; destruct Ha as [?|[?|Ha]%andb_false_iff]; [by left|by right|].
      apply bool_decide_eq_false in Ha; destruct Ha; by destruct (dc_tagged_buffers ddp !! _). }
    eexists; split_all; [done|exact V1|cbn; by rewrite Hc|done].
  - destruct (recv_send_sees cfg th ret st v Hv Ha) as (th' & h & -> & V1); by eexists.
  - destruct (recv_send_inval_sees cfg th ret st v ddp Hv Hd) as (e & -> & Hc & V1 & Hx).
    { intros Ht; destruct Ha as [?|[?|Ha]%andb_false_iff]; [by left|by right|].
      apply bool_decide_eq_false in Ha; destruct Ha; by destruct (dc_tagged_buffers ddp !! _). }
    eexists; split_all; [done|exact V1|cbn; by rewrite Hc|done].
  - rewrite assert_ok, bind_Done by (destruct Ha as [? | ->]; [by left|by right]); by eexists.
  - by eexists.
Qed.

(** ** A concrete stream *)
Module Example.
Definition wce0 : work_completion :=
  {| wce_wr_id := 0; wce_status := WC_SUCCESS; wce_opcode := 0; wce_vendor_err := 0;
     wce_byte_len := 0; wce_imm_data := 0; wce_qp_num := 0; wce_src_qp := 0; wce_flags := 0;
     wce_pkey_index := 0; wce_slid := 0; wce_sl := 0; wce_dlid_path_bits := 0 |}.
Definition junk_wq : wq :=
  {| wq_context := 0; wq_pd := 0; wq_cq := 0; wq_wq_num := 0; wq_handle := 0;
     wq_st := WQS_UNKNOWN; wq_wq_type := WQT_RQ; wq_queue_of := RecvQ []; wq_events_completed := 0;
     wq_comp_mask := 0 |}.
Definition attr (t : wq_type) : wq_init_attr :=
  {| wia_wq_context := 0; wia_wq_type := t; wia_max_wr := 10; wia_max_sge := 10; wia_pd := 0;
     wia_cq := 1; wia_comp_mask := 0 |}.
(** One completion queue at 1, the send queue at 2, the receive queue at 3. *)
Definition heap : qheap :=
  (create_wq 3 0 (attr WQT_RQ) junk_wq
    (create_wq 2 0 (attr WQT_SQ) junk_wq (create_cq 1 0 10 {| cqs := ∅; wqs := ∅ |}).2).2).2.
Definition sk : sock := {| rx := []; tx := []; tx_plan := [] |}.
Definition stream_attr : rdmap_stream_init_attr :=
  {| ria_sockfd := 4; ria_pd := 0; ria_send_q := 2; ria_recv_q := 3;
     ria_max_pending_read_requests := 2 |}.

(** Thread 0 is the application, 1 the receive thread, 2 the send thread. *)
Definition fresh (m : mem) (sgs : gmap Z (list sge)) : rnic :=
  (rdmap_init_stream 0 0 stream_attr [0x1000; 0x2000] (1%nat, 2%nat) (0, 0) heap sgs m sk (1, 1, 1)).2.

Definition empty_view : view := {| v_sq := []; v_rq := []; v_cq := []; v_pend := [] |}.
Lemma fresh_sees m sgs : sees (fresh m sgs) empty_view.
Proof. do 3 eexists; split_all; reflexivity. Qed.

Definition req (id : Z) (op : rdma_opcode) : send_wr :=
  {| swr_wr_id := id; swr_sg_list := 64; swr_num_sge := 1; swr_opcode := op; swr_send_flags := 0;
     swr_invalidate_rkey := 0; swr_remote_addr := 0x5000; swr_rkey := 0x5000 |}.
Definition sgs : gmap Z (list sge) :=
  {[ 64 := [{| sge_addr := 0x3000; sge_length := 3; sge_lkey := 0x3000 |}] ]}.

(** A stream on which the application has posted one request. *)
Definition put_req (r : send_wr) (st : rnic) : rnic :=
  match sq_enqueue 0 r st with Done st => st | _ => st end.
Definition posted (op : rdma_opcode) : rnic := put_req (req 7 op) (fresh ∅ sgs).
Definition posted_view (op : rdma_opcode) : view := with_sq [Producer 0 [req 7 op]] empty_view.
Lemma posted_sees op : sees (posted op) (posted_view op).
Proof. do 3 eexists; split_all; reflexivity. Qed.

Definition snd : send_thread := {| snd_wce := wce0; snd_fields := 0x7000 |}.
Definition msg (bits : Z) (op : Z) : ddp_message :=
  {| dm_bits := bits; dm_meta := UntaggedMeta {| um_rsvdULP1 := 64 + op; um_rsvdULP2 := 0;
       um_qn := 0; um_msn := 1; um_mo := 0 |};
     dm_buf := UntagBuf {| ub_data := 0x1000; ub_len := 28; ub_next := 0 |}; dm_len := 0 |}.
Definition rcv (bits op : Z) : recv_thread :=
  rnic_recv_start (msg bits op) wce0 (req 0 RDMAP_SEND) 0x8000.
Definition debug : config := {| ndebug := false; rping := false |}.
End Example.

Lemma rnic_send_iter_completes_witness :
  exists r th' st',
    rnic_send_iter 0 Example.snd (Example.posted RDMAP_SEND) = Done (th', st') /\
    rn_ctx st' = rn_ctx (Example.posted RDMAP_SEND) /\
    rn_ddp st' = rn_ddp (Example.posted RDMAP_SEND) /\
    rn_sgs st' = rn_sgs (Example.posted RDMAP_SEND) /\
    sees st' (complete_spec 2 Example.snd (Example.req 7 RDMAP_SEND) r
                (with_sq [Producer 0 []] (Example.posted_view RDMAP_SEND))) /\
    match r with
    | None =>
        ddp_call 0 Example.snd (Example.req 7 RDMAP_SEND) (Example.posted RDMAP_SEND) = None /\
        rn_sock st' = rn_sock (Example.posted RDMAP_SEND) /\ completes (Example.req 7 RDMAP_SEND) = false
    | Some ret =>
        let e := send_completion Example.snd (Example.req 7 RDMAP_SEND) ret in
        ddp_call 0 Example.snd (Example.req 7 RDMAP_SEND) (Example.posted RDMAP_SEND)
          = Some (Some (ret, rn_sock st')) /\
        (completes (Example.req 7 RDMAP_SEND) = true \/ RDMAP_SEND = RDMAP_RDMA_READ_RESP) /\
        wce_wr_id e = 7 /\ wce_opcode e = rdma_opcode_val RDMAP_SEND /\
        wce_byte_len e = u32 ret /\ (wce_status e = WC_SUCCESS <-> 0 <= ret)
    end.
Proof.
  apply (rnic_send_iter_completes 0 Example.snd (Example.posted RDMAP_SEND)
    (Example.posted_view RDMAP_SEND) (post_read_buffers 0 0 [0x1000; 0x2000] (ddp_init_stream 4 0))).
  - apply Example.posted_sees.
  - reflexivity.
  - intros req q E; vm_compute in E; simplify_eq; done.
Defined.

Lemma recv_dispatch_spec_witness :
  exists e, recv_dispatch Example.debug (Example.rcv 0x41 1) 0 (Example.posted RDMAP_SEND) = Done e /\
    sees (end_st e)
      (recv_spec Example.debug 1 (Example.rcv 0x41 1) ∅
         (post_read_buffers 0 0 [0x1000; 0x2000] (ddp_init_stream 4 0)) 0 (Example.posted_view RDMAP_SEND)) /\
    rn_ctx (end_st e) = rn_ctx (Example.posted RDMAP_SEND) /\ exits e = false.
Proof.
  apply (recv_dispatch_spec Example.debug (Example.rcv 0x41 1) 0 (Example.posted RDMAP_SEND)
    (Example.posted_view RDMAP_SEND) (post_read_buffers 0 0 [0x1000; 0x2000] (ddp_init_stream 4 0))).
  - apply Example.posted_sees.
  - reflexivity.
Defined.
