(* ===== verification/RdmapTurns.v ===== *)
(** * RDMAP: the receive thread, operation by operation

    [rnic_recv_iter] runs a turn of the receive loop in one go.  Here the turn is cut
    where another thread can get in between: receiving the message, each operation on
    a queue or on the tag registry, filing the completion.  [recv_dispatch_steps] says
    that without interference the pieces make up the turn. *)

From S2P Require Import Prelude Endian Wire Socket Mpa Memory CQueue Cq Ddp DdpSegment Rdmap RdmapView RdmapThreads.

(** Where the thread is, with its local variables: at [while (ctx->connected)]; about to
    receive a message; at the [switch]; about to post a read response, to replenish the buffer of its request,
    to take a receive request, to file a completion; returned. *)
Inductive rcv_pc :=
| RcvTop (th : recv_thread)
| RcvRecv (th : recv_thread)
| RcvSwitch (th : recv_thread) (ret : Z)
| RcvPostResp (th : recv_thread) (resp : send_wr) (buf : untagged_buffer)
| RcvReplenish (th : recv_thread) (buf : untagged_buffer)
| RcvTake (th : recv_thread) (ret : Z)
| RcvFile (th : recv_thread) (wce : work_completion)
| RcvExit.

Section turns.
Variable cfg : config.

(** [rq->try_dequeue(wr)], and the completion for what it yields. *)
Definition recv_take (th : recv_thread) (ret : Z) (st : rnic) : run (rcv_pc * rnic) :=
  _ ← assert_ cfg (negb (msg_is_tagged (rcv_msg th)));
  found ← rq_try_dequeue st;
  mret match found with
       | None => (RcvTop th, st)
       | Some (wr, st) =>
           (RcvFile th (set_wce_wr_id (rwr_wr_id wr) (set_wce_status WC_SUCCESS
              (set_wce_byte_len ret (set_wce_opcode (msg_op th) (rcv_wce th))))), st)
       end.

(** The [switch], up to the first operation other threads can see. *)
Definition recv_switch (th : recv_thread) (ret : Z) (st : rnic) : run (rcv_pc * rnic) :=
  match rdma_opcode_of_Z (msg_op th) with
  | Some RDMAP_RDMA_WRITE => _ ← assert_ cfg (msg_is_tagged (rcv_msg th)); mret (RcvTop th, st)
  | Some RDMAP_RDMA_READ_REQ =>
      _ ← assert_ cfg (negb (msg_is_tagged (rcv_msg th)));
      let buf := as_untag_buf (dm_buf (rcv_msg th)) in
      let f : rdmap_read_req_fields := decode (mem_read (rn_mem st) (ub_data buf) READ_REQ_SIZE) in
      let f := if rping cfg then swizzle f else f in
      let st := if rping cfg then set_rn_mem (mem_write (rn_mem st) (ub_data buf) (encode f)) st else st in
      let sg := {| sge_addr := rf_src_TO f; sge_length := rf_rdma_rd_sz f; sge_lkey := rf_src_tag f |} in
      mret (RcvPostResp th (read_resp_for f (rcv_read_resp th)) buf,
            set_rn_sgs (<[rcv_sg th := [sg]]> (rn_sgs st)) st)
  | Some RDMAP_RDMA_READ_RESP =>
      _ ← assert_ cfg (msg_is_tagged (rcv_msg th));
      found ← pending_try_dequeue st;
      mret match found with
           | None => (RcvTop th, st)
           | Some (wce, st) => (RcvFile th (set_wce_byte_len ret wce), st)
           end
  | Some RDMAP_SEND_SE_INVAL | Some RDMAP_SEND_INVAL =>
      let stag := {| st_tag := meta_rsvdULP1 (dm_meta (rcv_msg th)); st_pd := {| pd_id := 0 |} |} in
      '(erased, st) ← rdma_invalidate stag st;
      mret (if erased <=? 0 then RcvExit else RcvTake th ret, st)
  | Some RDMAP_SEND_SE | Some RDMAP_SEND => recv_take th ret st
  | Some RDMAP_TERMINATE =>
      _ ← assert_ cfg (negb (msg_is_tagged (rcv_msg th))); mret (RcvTop th, set_connected 0 st)
  | Some RDMAP_NOT_SUPPORTED | None => mret (RcvTop th, st)
  end.

(** The next operation of the thread. *)
Definition recv_turn (segs fuel : nat) (pc : rcv_pc) (st : rnic) : run (rcv_pc * rnic) :=
  let t := rc_recv_thread (rn_ctx st) in
  match pc with
  | RcvTop th =>
      mret (if rc_connected (rn_ctx st) =? 0 then RcvExit else RcvRecv th, st)
  | RcvRecv th =>
      ddp ← deref (rn_ddp st);
      o ← returns (ddp_recv segs fuel ddp (rcv_msg th) (rn_mem st) (rn_sock st));
      let st := set_rn_sock (ro_sock o) (set_rn_mem (ro_mem o) (set_rn_ddp (Some (ro_ctx o)) st)) in
      let th := set_rcv_msg (ro_msg o) th in
      mret (if ro_ret o <? 0 then RcvExit else RcvSwitch th (ro_ret o), st)
  | RcvSwitch th ret => recv_switch th ret st
  | RcvPostResp th resp buf =>
      st ← sq_enqueue t resp st; mret (RcvReplenish (set_rcv_read_resp (bump_wr_id resp) th) buf, st)
  | RcvReplenish th buf =>
      ddp ← deref (rn_ddp st);
      mret (RcvTop th, set_rn_ddp (Some (ddp_post_recv t ddp READ_QN [buf])) st)
  | RcvTake th ret => recv_take th ret st
  | RcvFile th wce => st ← cq_enqueue t wce st; mret (RcvTop (set_rcv_wce wce th), st)
  | RcvExit => Blocked
  end.

(** ** A turn without interference *)

Fixpoint finish_turn (segs fuel n : nat) (pc : rcv_pc) (st : rnic) : run recv_end :=
  match pc, n with
  | RcvTop th, _ => mret (RecvNext th st)
  | RcvExit, _ => mret (RecvExit st)
  | _, O => Blocked
  | _, S n => '(pc, st) ← recv_turn segs fuel pc st; finish_turn segs fuel n pc st
  end.

Lemma finish_file segs fuel n th wce st :
  finish_turn segs fuel (S n) (RcvFile th wce) st =
  st ← cq_enqueue (rc_recv_thread (rn_ctx st)) wce st; mret (RecvNext (set_rcv_wce wce th) st).
Proof.
  cbn [finish_turn recv_turn]; cbv zeta; destruct (cq_enqueue _ _ _); rewrite ?bind_Done; try done; by destruct n.
Qed.
Lemma finish_take segs fuel n th ret st :
  ('(pc, st) ← recv_take th ret st; finish_turn segs fuel (S n) pc st) = recv_send cfg th (msg_op th) ret st.
Proof.
  unfold recv_take, recv_send; destruct (assert_ cfg _); try done; rewrite !bind_Done.
  destruct (rq_try_dequeue st) as [[[wr st1]|]| | |]; try done; rewrite !bind_Done; apply finish_file.
Qed.

Lemma sq_enqueue_ctx t wr st st' : sq_enqueue t wr st = Done st' -> rn_ctx st' = rn_ctx st.
Proof. by unfold sq_enqueue; intros (w & _ & (q & _ & [= <-])%bind_Done_inv)%bind_Done_inv. Qed.
Lemma finish_read_req segs fuel n th t resp buf st :
  rc_recv_thread (rn_ctx st) = t ->
  finish_turn segs fuel (S (S n)) (RcvPostResp th resp buf) st =
  st ← sq_enqueue t resp st; ddp ← deref (rn_ddp st);
  mret (RecvNext (set_rcv_read_resp (bump_wr_id resp) th) (set_rn_ddp (Some (ddp_post_recv t ddp READ_QN [buf])) st)).
Proof.
  intros <-; cbn [finish_turn recv_turn]; cbv zeta.
  destruct (sq_enqueue _ _ _) as [st1| | |] eqn:E; try done; rewrite !bind_Done; apply sq_enqueue_ctx in E.
  cbn [finish_turn recv_turn]; cbv zeta; rewrite E; destruct (rn_ddp st1); cbn [deref]; rewrite ?bind_Done; [by destruct n|done].
Qed.

Lemma recv_dispatch_steps segs fuel n th ret st :
  finish_turn segs fuel (S (S (S n))) (RcvSwitch th ret) st = recv_dispatch cfg th ret st.
Proof.
  unfold recv_dispatch; fold (msg_op th); cbn [finish_turn]; cbn [recv_turn]; cbv zeta; unfold recv_switch.
  destruct (rdma_opcode_of_Z (msg_op th)) as [[]|]; try done; try exact (finish_take segs fuel (S n) th ret st).
  - by destruct (assert_ cfg _).
  - unfold recv_read_req; destruct (assert_ cfg _); try done; rewrite !bind_Done; cbv zeta.
    apply finish_read_req; by destruct (rping cfg).
  - unfold recv_read_resp; destruct (assert_ cfg _); try done; rewrite !bind_Done.
    destruct (pending_try_dequeue st) as [[[wce st1]|]| | |]; try done; rewrite !bind_Done; exact (finish_file segs fuel (S n) th _ st1).
  - unfold recv_send_inval; cbv zeta; destruct (rdma_invalidate _ _) as [[e st1]| | |]; try done; rewrite !bind_Done.
    destruct (e <=? 0); [done|]; exact (finish_take segs fuel n th ret st1).
  - unfold recv_send_inval; cbv zeta; destruct (rdma_invalidate _ _) as [[e st1]| | |]; try done; rewrite !bind_Done.
    destruct (e <=? 0); [done|]; exact (finish_take segs fuel n th ret st1).
  - by destruct (assert_ cfg _).
Qed.

(** A whole turn of the loop. *)
Lemma recv_iter_steps segs fuel n th st :
  finish_turn segs fuel (S (S (S (S n)))) (RcvRecv th) st = rnic_recv_iter cfg segs fuel th st.
Proof.
  unfold rnic_recv_iter; change (finish_turn segs fuel (S (S (S (S n)))) (RcvRecv th) st)
    with ('(pc, st) ← recv_turn segs fuel (RcvRecv th) st; finish_turn segs fuel (S (S (S n))) pc st).
  cbn [recv_turn]; destruct (deref (rn_ddp st)) as [ddp| | |]; try done; rewrite !bind_Done.
  destruct (returns _) as [o| | |]; try done; rewrite !bind_Done; cbv zeta.
  destruct (ro_ret o <? 0); [done|]; apply recv_dispatch_steps.
Qed.
End turns.
