(* ===== verification/RdmapSystem.v ===== *)
(** * RDMAP: a running stream

    The application, the send thread, the receive thread and the network as a
    step relation.  Every step is one operation on a queue, on the tag registry or
    on [connected], or one call of the DDP layer, which is taken as a whole: the send
    thread's turn is cut into testing [connected], taking a request, the DDP call and
    filing the completion; the receive thread runs by [recv_turn]; a call of
    [rdma_post_recv] is cut between the buffers and the request.  The invariant: every
    request that promises a completion is at every moment in exactly one place, from
    the posting call to the poll that returns its completion. *)

From S2P Require Import Prelude Endian Wire Socket Mpa Memory CQueue Cq Ddp DdpSegment Rdmap RdmapView RdmapThreads RdmapTurns.

(** ** States and steps *)
Inductive snd_pc :=
| SndIdle (th : send_thread)
| SndLook (th : send_thread)
| SndHave (th : send_thread) (req : send_wr)
| SndSent (th : send_thread) (req : send_wr) (r : option Z)
| SndExit.

(** [y_posting]: the calls of [rdma_post_recv] that have queued the buffers and not yet
    the request.  [y_posted], [y_rposted]: the ids of the posted send requests that
    promise a completion and of the posted receive requests; [y_polled]: the ids of the
    completions returned by [poll_cq]. *)
Record sys := {
  y_st : rnic; y_snd : snd_pc; y_rcv : rcv_pc; y_posting : list (nat * recv_wr);
  y_posted : list Z; y_rposted : list Z; y_polled : list Z }.

Definition y_set (st : rnic) (y : sys) : sys :=
  {| y_st := st; y_snd := y_snd y; y_rcv := y_rcv y; y_posting := y_posting y;
     y_posted := y_posted y; y_rposted := y_rposted y; y_polled := y_polled y |}.
Definition y_set_snd (pc : snd_pc) (st : rnic) (y : sys) : sys :=
  {| y_st := st; y_snd := pc; y_rcv := y_rcv y; y_posting := y_posting y;
     y_posted := y_posted y; y_rposted := y_rposted y; y_polled := y_polled y |}.
Definition y_set_rcv (pc : rcv_pc) (st : rnic) (y : sys) : sys :=
  {| y_st := st; y_snd := y_snd y; y_rcv := pc; y_posting := y_posting y;
     y_posted := y_posted y; y_rposted := y_rposted y; y_polled := y_polled y |}.
Definition y_set_posting (l : list (nat * recv_wr)) (st : rnic) (y : sys) : sys :=
  {| y_st := st; y_snd := y_snd y; y_rcv := y_rcv y; y_posting := l;
     y_posted := y_posted y; y_rposted := y_rposted y; y_polled := y_polled y |}.
Definition y_log (posted rposted polled : list Z) (y : sys) : sys :=
  {| y_st := y_st y; y_snd := y_snd y; y_rcv := y_rcv y; y_posting := y_posting y;
     y_posted := posted ++ y_posted y;
     y_rposted := rposted ++ y_rposted y; y_polled := polled ++ y_polled y |}.

Definition promised (wr : send_wr) : list Z := if completes wr then [swr_wr_id wr] else [].

Section system.
Variables (cfg : config) (junk : Z).

Inductive step : sys -> sys -> Prop :=
(* the application *)
| step_send y t wr ret st :
    rdmap_send t wr (y_st y) = Done (ret, st) ->
    step y (y_log (promised wr) [] [] (y_set st y))
| step_write y t wr ret st :
    rdmap_write cfg t wr (y_st y) = Done (ret, st) ->
    step y (y_log (promised wr) [] [] (y_set st y))
| step_read y t wr ret st :
    rdmap_read cfg t wr (y_st y) = Done (ret, st) ->
    step y (y_log (promised wr) [] [] (y_set st y))
(* the two halves of [rdma_post_recv] *)
| step_post_bufs y t wr st :
    rdma_post_bufs junk t wr (y_st y) = Done st ->
    step y (y_log [] [rwr_wr_id wr] [] (y_set_posting ((t, wr) :: y_posting y) st y))
| step_post_rq y l1 t wr l2 st :
    y_posting y = l1 ++ (t, wr) :: l2 -> rq_enqueue t wr (y_st y) = Done st ->
    step y (y_set_posting (l1 ++ l2) st y)
| step_register y buf ret buf' st :
    rdma_register buf (y_st y) = Done (ret, buf', st) -> step y (y_set st y)
| step_invalidate y stag ret st :
    rdma_invalidate stag (y_st y) = Done (ret, st) -> step y (y_set st y)
| step_poll y p c n k got h :
    send_cq (y_st y) = Done (p, c) -> poll_cq p n (rn_heap (y_st y)) = Some (k, got, h) ->
    step y (y_log [] [] (map wce_wr_id got) (y_set (set_rn_heap h (y_st y)) y))
| step_app_memory y m sgs : step y (y_set (set_rn_sgs sgs (set_rn_mem m (y_st y))) y)
(* the two halves of [rdmap_kill_stream] *)
| step_kill_ddp y : step y (y_set (ddp_kill_stream (y_st y)) y)
| step_disconnect y : step y (y_set (set_connected 0 (y_st y)) y)
(* the network: data arrives, transmit buffers fill and drain *)
| step_network y s : step y (y_set (set_rn_sock s (y_st y)) y)
(* the send thread *)
| step_snd_look y th :
    y_snd y = SndIdle th ->
    step y (y_set_snd (if rc_connected (rn_ctx (y_st y)) =? 0 then SndExit else SndLook th) (y_st y) y)
| step_snd_take y th found :
    y_snd y = SndLook th -> sq_try_dequeue (y_st y) = Done found ->
    step y match found with
           | Some (req, st) => y_set_snd (SndHave th req) st y
           | None => y_set_snd (SndIdle th) (y_st y) y
           end
| step_snd_wire y th req r st :
    y_snd y = SndHave th req -> rnic_send_wire junk th req (y_st y) = Done (r, st) ->
    step y (y_set_snd (SndSent th req r) st y)
| step_snd_complete y th req r th' st :
    y_snd y = SndSent th req r -> rnic_send_complete th req r (y_st y) = Done (th', st) ->
    step y (y_set_snd (SndIdle th') st y)
(* the receive thread *)
| step_rcv y segs fuel pc st :
    recv_turn cfg segs fuel (y_rcv y) (y_st y) = Done (pc, st) ->
    step y (y_set_rcv pc st y).

Definition steps : sys -> sys -> Prop := rtc step.

(** The state [rdmap_init_stream] leaves when the application's queues are new. *)
Definition initial (y : sys) : Prop :=
  sees (y_st y) Example.empty_view /\ (exists th, y_snd y = SndIdle th) /\
  (exists msg wce r sg, y_rcv y = RcvTop (rnic_recv_start msg wce r sg)) /\
  y_posting y = [] /\ y_posted y = [] /\ y_rposted y = [] /\ y_polled y = [].

(** ** The steps of the threads on the view *)

Lemma send_untagged_Done h gs st ret st' :
  send_untagged h gs st = Done (ret, st') -> wire_frame st st' /\ ret <= 0.
Proof.
  unfold send_untagged; destruct (rn_ddp st) as [ddp|] eqn:Hd; [|done]; rewrite <- Hd.
  destruct (send_untagged_total h gs st ddp Hd) as (r & s & E & Hr).
  unfold send_untagged in E; rewrite E; intros; by simplify_eq.
Qed.
Lemma send_tagged_Done h gs st ret st' :
  send_tagged h gs st = Done (ret, st') -> wire_frame st st' /\ ret <= 0.
Proof.
  unfold send_tagged; destruct (rn_ddp st) as [ddp|] eqn:Hd; [|done]; rewrite <- Hd.
  destruct (send_tagged_total h gs st ddp Hd) as (r & s & E & Hr).
  unfold send_tagged in E; rewrite E; intros; by simplify_eq.
Qed.

(** What an in-flight request still owes. *)
Definition sent_ok (req : send_wr) (r : option Z) : Prop :=
  match r with
  | None => completes req = false
  | Some ret => completes req = true \/ swr_opcode req = RDMAP_RDMA_READ_RESP
  end.

Lemma rnic_send_wire_Done th req st r st' :
  rnic_send_wire junk th req st = Done (r, st') -> wire_frame st st' /\ sent_ok req r.
Proof.
  unfold rnic_send_wire, sent_ok, completes; destruct (swr_opcode req) eqn:Ho; intros E.
  all: try (apply bind_Done_inv in E as ([ret s] & E & Ef); injection Ef as <- <-).
  all: try (apply send_untagged_Done in E as [(?&?&?&?) ?]; repeat split; try done; by left).
  all: try (apply send_tagged_Done in E as [(?&?&?&?) ?]; repeat split; try done;
            first [by left | by right]).
  all: try (injection E as <- <-; repeat split; done).
  destruct (Z.eqb_spec (swr_num_sge req) 1); cbn [negb] in E; [|by injection E as <- <-].
  apply bind_Done_inv in E as (g & _ & E); apply bind_Done_inv in E as ([ret s] & E & Ef).
  injection Ef as <- <-; apply send_untagged_Done in E as [(?&?&?&?) ?].
  repeat split; try done; by left.
Qed.

(** The parts of the context the queues are reached through. *)
Definition same_ptrs (c c' : rdmap_stream_context) : Prop :=
  rc_send_q c' = rc_send_q c /\ rc_recv_q c' = rc_recv_q c /\
  rc_send_thread c' = rc_send_thread c /\ rc_recv_thread c' = rc_recv_thread c.

Lemma poll_cq_sees st v p c n k got h :
  sees st v -> send_cq st = Done (p, c) -> poll_cq p n (rn_heap st) = Some (k, got, h) ->
  exists q, has_view (rn_ctx st) h (with_cq q v) /\ q_items (v_cq v) ≡ₚ got ++ q_items q.
Proof.
  intros (w & w' & k' & H1 & H2 & H3 & H4 & H5 & H6 & H7) Hc Hp.
  unfold send_cq, send_wq in Hc; rewrite H1 in Hc; cbn in Hc; rewrite H5 in Hc; cbn in Hc.
  injection Hc as <- <-; unfold poll_cq in Hp; rewrite H5 in Hp; cbn [mbind option_bind] in Hp.
  pose proof (try_dequeue_bulk_facts (cq_q k') (Z.to_nat (u64 n))) as (_ & Hperm & _).
  destruct (try_dequeue_bulk _ _) as [g q] eqn:?; simplify_eq; cbn [fst snd] in Hperm.
  exists q; split; [|by rewrite <- H6].
  exists w, w', {| cq_ctx := cq_ctx k'; cq_q := q; cq_pending_q := cq_pending_q k' |}.
  cbn; rewrite lookup_insert_eq; done.
Qed.

(** ** Conservation *)
Definition in_flight (pc : snd_pc) : list Z :=
  match pc with
  | SndHave _ req | SndSent _ req _ => promised req
  | SndIdle _ | SndLook _ | SndExit => []
  end.
Definition in_hands (pc : rcv_pc) : list Z :=
  match pc with RcvFile _ wce => [wce_wr_id wce] | _ => [] end.
Definition posting_ids (y : sys) : list Z := map (fun c => rwr_wr_id c.2) (y_posting y).

(** The ids that are somewhere in the queues. *)
Definition sq_ids (q : cqueue send_wr) : list Z := concat (map promised (q_items q)).
Definition queued (v : view) : list Z :=
  sq_ids (v_sq v) ++ map rwr_wr_id (q_items (v_rq v)) ++
  map wce_wr_id (q_items (v_cq v)) ++ map wce_wr_id (q_items (v_pend v)).

Definition pc_ok (pc : snd_pc) : Prop :=
  match pc with SndSent _ req r => sent_ok req r | _ => True end.

(** The local [read_resp] stays a read response. *)
Definition rcv_ok (pc : rcv_pc) : Prop :=
  match pc with
  | RcvTop th | RcvRecv th | RcvSwitch th _ | RcvReplenish th _ | RcvTake th _ | RcvFile th _ =>
      swr_opcode (rcv_read_resp th) = RDMAP_RDMA_READ_RESP
  | RcvPostResp th resp _ =>
      swr_opcode (rcv_read_resp th) = RDMAP_RDMA_READ_RESP /\ swr_opcode resp = RDMAP_RDMA_READ_RESP
  | RcvExit => True
  end.

Record conserved (y : sys) (v : view) : Prop := {
  co_view : sees (y_st y) v;
  co_pc : pc_ok (y_snd y);
  co_rcv : rcv_ok (y_rcv y);
  co_pend : only (rc_send_thread (rn_ctx (y_st y))) (v_pend v);
  co_ids : y_posted y ++ y_rposted y ≡ₚ queued v ++ in_flight (y_snd y) ++ in_hands (y_rcv y) ++
    posting_ids y ++ y_polled y }.

Lemma sq_ids_enqueue t wr q : sq_ids (enqueue t wr q) ≡ₚ promised wr ++ sq_ids q.
Proof. unfold sq_ids; by rewrite enqueue_items. Qed.
Lemma sq_ids_dequeue q wr q' : try_dequeue q = Some (wr, q') -> sq_ids q ≡ₚ promised wr ++ sq_ids q'.
Proof. intros E; unfold sq_ids; by rewrite (try_dequeue_items _ _ _ E). Qed.

Ltac cbn_view := cbn [v_sq v_rq v_cq v_pend with_sq with_rq with_cq with_pend].

Lemma queued_enqueue_sq t wr v :
  queued (with_sq (enqueue t wr (v_sq v)) v) ≡ₚ promised wr ++ queued v.
Proof. unfold queued; cbn_view; by rewrite sq_ids_enqueue, <- app_assoc. Qed.
Lemma queued_dequeue_sq wr q v :
  try_dequeue (v_sq v) = Some (wr, q) -> queued v ≡ₚ promised wr ++ queued (with_sq q v).
Proof. intros E; unfold queued; cbn_view; by rewrite (sq_ids_dequeue _ _ _ E), <- app_assoc. Qed.
Lemma queued_enqueue_rq t wr v :
  queued (with_rq (enqueue t wr (v_rq v)) v) ≡ₚ rwr_wr_id wr :: queued v.
Proof. unfold queued; cbn_view; rewrite enqueue_items; cbn [map]; solve_Permutation. Qed.
Lemma queued_dequeue_rq wr q v :
  try_dequeue (v_rq v) = Some (wr, q) -> queued v ≡ₚ rwr_wr_id wr :: queued (with_rq q v).
Proof.
  intros E; unfold queued; cbn_view; rewrite (try_dequeue_items _ _ _ E); cbn [map]; solve_Permutation.
Qed.
Lemma queued_enqueue_cq t e v :
  queued (with_cq (enqueue t e (v_cq v)) v) ≡ₚ wce_wr_id e :: queued v.
Proof. unfold queued; cbn_view; rewrite enqueue_items; cbn [map]; solve_Permutation. Qed.
Lemma queued_enqueue_pend t e v :
  queued (with_pend (enqueue t e (v_pend v)) v) ≡ₚ wce_wr_id e :: queued v.
Proof. unfold queued; cbn_view; rewrite enqueue_items; cbn [map]; solve_Permutation. Qed.
Lemma queued_dequeue_pend e q v :
  try_dequeue (v_pend v) = Some (e, q) -> queued v ≡ₚ wce_wr_id e :: queued (with_pend q v).
Proof.
  intros E; unfold queued; cbn_view; rewrite (try_dequeue_items _ _ _ E); cbn [map]; solve_Permutation.
Qed.

(** ** The receive thread's steps *)

(** The queue of pending reads after a step from [pc] to [pc']: only the [switch] on a
    read response touches it. *)
Definition turn_pend (pc : rcv_pc) (v : view) (pc' : rcv_pc) (v' : view) : Prop :=
  match pc with
  | RcvSwitch th ret =>
      if decide (rdma_opcode_of_Z (msg_op th) = Some RDMAP_RDMA_READ_RESP) then
        match try_dequeue (v_pend v) with
        | None => v_pend v' = v_pend v /\ pc' = RcvTop th
        | Some (e, q) => v_pend v' = q /\ pc' = RcvFile th (set_wce_byte_len ret e)
        end
      else v_pend v' = v_pend v
  | _ => v_pend v' = v_pend v
  end.
Definition turn_file (t : nat) (pc : rcv_pc) (v : view) (pc' : rcv_pc) (v' : view) : Prop :=
  match pc with
  | RcvFile th wce => pc' = RcvTop (set_rcv_wce wce th) /\ v_cq v' = enqueue t wce (v_cq v)
  | _ => True
  end.

Record turned (st : rnic) (pc : rcv_pc) (v : view) (pc' : rcv_pc) (st' : rnic) (v' : view) : Prop := {
  tu_view : sees st' v';
  tu_ptrs : same_ptrs (rn_ctx st) (rn_ctx st');
  tu_ok : rcv_ok pc';
  tu_ids : queued v' ++ in_hands pc' ≡ₚ queued v ++ in_hands pc;
  tu_pend : turn_pend pc v pc' v';
  tu_file : turn_file (rc_recv_thread (rn_ctx st)) pc v pc' v' }.

Lemma same_ptrs_refl c : same_ptrs c c.
Proof. done. Qed.

(** A step that touches no queue. *)
Lemma turned_same st pc v pc' st' :
  sees st v -> rn_heap st' = rn_heap st -> same_ptrs (rn_ctx st) (rn_ctx st') -> rcv_ok pc' ->
  in_hands pc' = in_hands pc -> turn_pend pc v pc' v -> turn_file (rc_recv_thread (rn_ctx st)) pc v pc' v ->
  turned st pc v pc' st' v.
Proof.
  intros Hv Hh Hp Hok Hi ? ?; split; try done; [|by rewrite Hi].
  destruct Hp as (E1 & E2 & _); unfold has_view; by rewrite Hh, E1, E2.
Qed.

Lemma recv_take_turned th ret st v pc' st' pc :
  sees st v -> swr_opcode (rcv_read_resp th) = RDMAP_RDMA_READ_RESP -> in_hands pc = [] ->
  (forall v', v_pend v' = v_pend v -> turn_pend pc v pc' v') ->
  (forall v', turn_file (rc_recv_thread (rn_ctx st)) pc v pc' v') ->
  recv_take cfg th ret st = Done (pc', st') -> exists v', turned st pc v pc' st' v'.
Proof.
  intros Hv Hok Hi Hp Hf E; unfold recv_take in E; apply bind_Done_inv in E as (_ & _ & E).
  pose proof (rq_try_dequeue_sees st v Hv) as Hq; destruct (try_dequeue (v_rq v)) as [[wr q]|] eqn:Eq.
  - destruct Hq as (h & E1 & V); rewrite E1, bind_Done in E; injection E as <- <-.
    exists (with_rq q v); split; [exact V|by apply same_ptrs_refl|done| |by apply Hp|apply Hf].
    rewrite Hi, (queued_dequeue_rq wr q v Eq); cbn; solve_Permutation.
  - rewrite Hq, bind_Done in E; injection E as <- <-; exists v.
    apply turned_same; try done; by apply Hp.
Qed.

Lemma recv_switch_turned th ret st v pc' st' :
  sees st v -> rcv_ok (RcvSwitch th ret) -> recv_switch cfg th ret st = Done (pc', st') ->
  exists v', turned st (RcvSwitch th ret) v pc' st' v'.
Proof.
  intros Hv Hok E; unfold recv_switch in E.
  assert (forall p s, Done (p, s) = Done (pc', st') -> rn_heap s = rn_heap st ->
    same_ptrs (rn_ctx st) (rn_ctx s) -> rcv_ok p -> in_hands p = [] ->
    rdma_opcode_of_Z (msg_op th) <> Some RDMAP_RDMA_READ_RESP ->
    exists v', turned st (RcvSwitch th ret) v pc' st' v') as Hsame.
  { intros p s [= <- <-] ????; exists v; apply turned_same; try done; cbn; by rewrite decide_False. }
  assert (forall s, sees s v -> rn_ctx s = rn_ctx st ->
    rdma_opcode_of_Z (msg_op th) <> Some RDMAP_RDMA_READ_RESP ->
    recv_take cfg th ret s = Done (pc', st') -> exists v', turned st (RcvSwitch th ret) v pc' st' v') as Htake.
  { intros s Hs Hc Ho Ht.
    destruct (recv_take_turned th ret s v pc' st' (RcvSwitch th ret) Hs Hok eq_refl) as (v' & [V1 V2 V3 V4 V5 V6]);
      try done; [by intros v' Hp; cbn; rewrite decide_False|].
    exists v'; rewrite Hc in V2, V6; by split. }
  destruct (rdma_opcode_of_Z (msg_op th)) as [[]|] eqn:Ho; try (by eapply Hsame); try (by eapply Htake).
  - apply bind_Done_inv in E as (_ & _ & E); by eapply Hsame.
  - apply bind_Done_inv in E as (_ & _ & E); cbv zeta in E.
    eapply Hsame; [exact E|by destruct (rping cfg)|by destruct (rping cfg)|done..].
  - apply bind_Done_inv in E as (_ & _ & E).
    pose proof (pending_try_dequeue_sees st v Hv) as Hq; clear Hsame Htake.
    destruct (try_dequeue (v_pend v)) as [[e q]|] eqn:Eq.
    + destruct Hq as (h & E1 & V); rewrite E1, bind_Done in E; injection E as <- <-.
      exists (with_pend q v); split; try done; [|cbn; by rewrite decide_True, Eq].
      rewrite (queued_dequeue_pend e q v Eq); cbn; solve_Permutation.
    + rewrite Hq, bind_Done in E; injection E as <- <-; exists v; apply turned_same; try done.
      cbn; by rewrite decide_True, Eq.
  - apply bind_Done_inv in E as ([e s] & Ei & E); injection E as <- <-.
    unfold rdma_invalidate in Ei; apply bind_Done_inv in Ei as (ddp & _ & Ei).
    destruct (deregister_tagged_buffer _ _) as [r d]; injection Ei as <- <-.
    eapply Hsame; [reflexivity|done..|by case_match|by case_match|done].
  - apply bind_Done_inv in E as ([e s] & Ei & E); injection E as <- <-.
    unfold rdma_invalidate in Ei; apply bind_Done_inv in Ei as (ddp & _ & Ei).
    destruct (deregister_tagged_buffer _ _) as [r d]; injection Ei as <- <-.
    eapply Hsame; [reflexivity|done..|by case_match|by case_match|done].
  - apply bind_Done_inv in E as (_ & _ & E); by eapply Hsame.
Qed.

Lemma recv_turn_turned segs fuel pc st v pc' st' :
  sees st v -> rcv_ok pc -> recv_turn cfg segs fuel pc st = Done (pc', st') ->
  exists v', turned st pc v pc' st' v'.
Proof.
  intros Hv Hok E; destruct pc as [th|th|th ret|th resp buf|th buf|th ret|th wce|]; cbn in E; try done.
  - injection E as <- <-; exists v; apply turned_same; try done; by case_match.
  - apply bind_Done_inv in E as (ddp & _ & E); apply bind_Done_inv in E as (o & _ & E).
    cbv zeta in E; injection E as <- <-; exists v; apply turned_same; try done; by case_match.
  - by apply recv_switch_turned.
  - destruct Hok as [Hok Hop].
    apply bind_Done_inv in E as (s & Es & E); injection E as <- <-.
    destruct (sq_enqueue_sees st v Hv (rc_recv_thread (rn_ctx st)) resp) as (h & E1 & V).
    rewrite E1 in Es; injection Es as <-; eexists; split; [exact V|done|done| |done|done].
    rewrite queued_enqueue_sq; unfold promised, completes; by rewrite Hop.
  - apply bind_Done_inv in E as (ddp & _ & E); injection E as <- <-.
    exists v; by apply turned_same.
  - by eapply recv_take_turned.
  - apply bind_Done_inv in E as (s & Es & E); injection E as <- <-.
    destruct (cq_enqueue_sees st v Hv (rc_recv_thread (rn_ctx st)) wce) as (h & E1 & V).
    rewrite E1 in Es; injection Es as <-; eexists; split; [exact V|done|done| |done|done].
    rewrite queued_enqueue_cq; cbn; solve_Permutation.
Qed.

(** The pending queue keeps its single producer. *)
Lemma turn_pend_only t pc v pc' v' :
  turn_pend pc v pc' v' -> only t (v_pend v) -> only t (v_pend v').
Proof.
  intros H Ho; unfold turn_pend in H; destruct pc; try (by rewrite H).
  destruct (decide _); [|by rewrite H].
  pose proof (only_try_dequeue t (v_pend v) Ho) as Hq; destruct (try_dequeue (v_pend v)) as [[x l]|].
  - destruct H as [-> _]; by destruct Hq.
  - by destruct H as [-> _].
Qed.

(** ** Every step conserves *)

Lemma complete_spec_queued t th req r v :
  sent_ok req r -> queued (complete_spec t th req r v) ≡ₚ promised req ++ queued v.
Proof.
  unfold sent_ok, complete_spec, promised; destruct r as [ret|]; [|by intros ->].
  intros [Hc|Ho]; [|unfold completes; by rewrite Ho].
  rewrite Hc; unfold completes in Hc; cbn [app].
  destruct (swr_opcode req); try done.
  all: repeat case_match; cbv zeta; by rewrite ?queued_enqueue_cq, ?queued_enqueue_pend.
Qed.

Lemma complete_spec_pend t th req r v :
  only t (v_pend v) -> only t (v_pend (complete_spec t th req r v)).
Proof.
  intros Ho; unfold complete_spec; repeat case_match; try done.
  apply (only_enqueue_bulk t [_] (v_pend v) Ho).
Qed.

(** Steps that reach neither the queues nor the threads. *)
Lemma conserved_same y v st :
  conserved y v -> rn_heap st = rn_heap (y_st y) -> same_ptrs (rn_ctx (y_st y)) (rn_ctx st) ->
  conserved (y_set st y) v.
Proof.
  intros [Hv Hpc Hr Hp Hids] Hh (E1 & E2 & E3 & E4); split; cbn; try done.
  - unfold has_view; by rewrite Hh, E1, E2.
  - by rewrite E3.
Qed.

Lemma sees_ptrs st st' v :
  sees st v -> rn_heap st' = rn_heap st -> same_ptrs (rn_ctx st) (rn_ctx st') -> sees st' v.
Proof. intros Hv Hh (E1 & E2 & _); unfold has_view; by rewrite Hh, E1, E2. Qed.

Lemma conserved_rcv y v segs fuel pc st :
  conserved y v -> recv_turn cfg segs fuel (y_rcv y) (y_st y) = Done (pc, st) ->
  exists v', conserved (y_set_rcv pc st y) v'.
Proof.
  intros [Hv Hpc Hr Hp Hids] E.
  destruct (recv_turn_turned _ _ _ _ _ _ _ Hv Hr E) as (v' & [V1 (_&_&V2&_) V3 V4 V5 _]).
  exists v'; split; cbn [y_st y_set_rcv y_snd y_rcv y_posted y_rposted y_polled]; try done.
  - rewrite V2; by eapply turn_pend_only.
  - rewrite Hids, (Permutation_app_comm (in_flight _)), <- !app_assoc, app_assoc, <- V4.
    unfold posting_ids; cbn; solve_Permutation.
Qed.

Lemma conserved_snd_complete y v th req r th' st :
  conserved y v -> y_snd y = SndSent th req r ->
  rnic_send_complete th req r (y_st y) = Done (th', st) ->
  exists v', conserved (y_set_snd (SndIdle th') st y) v'.
Proof.
  intros [Hv Hpc Hr Hp Hids] Hy E; rewrite Hy in *.
  destruct (rnic_send_complete_sees th req r (y_st y) v Hv) as (th2 & h & E2 & V & _).
  rewrite E in E2; injection E2 as -> ->.
  eexists; split; cbn [y_st y_set_snd y_snd y_rcv y_posted y_rposted y_polled rn_ctx set_rn_heap].
  + exact V.
  + done.
  + done.
  + by apply complete_spec_pend.
  + rewrite complete_spec_queued by done; rewrite Hids; cbn [in_flight]; solve_Permutation.
Qed.

(** Posting a write or a read is posting a send that passed the assertion. *)
Lemma rdmap_write_send t wr st r :
  rdmap_write cfg t wr st = Done r -> rdmap_send t wr st = Done r.
Proof. intros E; by apply bind_Done_inv in E as (? & _ & E). Qed.
Lemma rdmap_read_send t wr st r :
  rdmap_read cfg t wr st = Done r -> rdmap_send t wr st = Done r.
Proof. intros E; by apply bind_Done_inv in E as (? & _ & E). Qed.

Lemma rdmap_send_view t wr st v ret st' :
  sees st v -> rdmap_send t wr st = Done (ret, st') ->
  ret = 1 /\ rn_ctx st' = rn_ctx st /\ sees st' (with_sq (enqueue t wr (v_sq v)) v).
Proof.
  intros Hv H; unfold rdmap_send in H; destruct (sq_enqueue_sees _ _ Hv t wr) as (h & E & V).
  rewrite E, bind_Done in H; by injection H as <- <-.
Qed.

Lemma conserved_post y v t wr ret st :
  conserved y v -> rdmap_send t wr (y_st y) = Done (ret, st) ->
  exists v', conserved (y_log (promised wr) [] [] (y_set st y)) v'.
Proof.
  intros [Hv Hpc Hr Hp Hids] H; apply (rdmap_send_view _ _ _ _ _ _ Hv) in H as (_ & Hc & V).
  exists (with_sq (enqueue t wr (v_sq v)) v); split;
    cbn [y_st y_log y_set y_snd y_rcv y_posted y_rposted y_polled]; try done; [by rewrite Hc|].
  unfold posting_ids in *; cbn [y_posting y_log y_set]; rewrite queued_enqueue_sq, <- !app_assoc, Hids; solve_Permutation.
Qed.

Lemma conserved_step y y' v : conserved y v -> step y y' -> exists v', conserved y' v'.
Proof.
  intros Hc Hs; pose proof Hc as [Hv Hpc Hr Hp Hids]; destruct Hs.
  - by eapply conserved_post.
  - apply rdmap_write_send in H; by eapply conserved_post.
  - apply rdmap_read_send in H; by eapply conserved_post.
  - unfold rdma_post_bufs in H; apply bind_Done_inv in H as (ddp & Hd & H); injection H as <-.
    exists v; split; try done; unfold posting_ids in *; cbn in *; rewrite <- Permutation_middle, Hids.
    solve_Permutation.
  - destruct (rq_enqueue_sees _ v Hv t wr) as (h & E & V); rewrite E in H0; injection H0 as <-.
    exists (with_rq (enqueue t wr (v_rq v)) v); split; try done; unfold posting_ids in *.
    rewrite queued_enqueue_rq; cbn in *; rewrite Hids, H, !map_app; cbn; solve_Permutation.
  - unfold rdma_register in H; apply bind_Done_inv in H as (ddp & Hd & H); injection H as <- <- <-.
    exists v; by apply conserved_same.
  - unfold rdma_invalidate in H; apply bind_Done_inv in H as (ddp & Hd & H).
    destruct (deregister_tagged_buffer _ _); injection H as <- <-.
    exists v; by apply conserved_same.
  - destruct (poll_cq_sees _ _ _ _ _ _ _ _ Hv H H0) as (q & V & Hq).
    exists (with_cq q v); split; cbn; try done; rewrite Hids; unfold queued; cbn_view.
    rewrite Hq, map_app; solve_Permutation.
  - exists v; by apply conserved_same.
  - exists v; by apply conserved_same.
  - exists v; by apply conserved_same.
  - exists v; by apply conserved_same.
  - rewrite H in *; exists v; split; try done; cbn; by case_match.
  - pose proof (sq_try_dequeue_sees _ _ Hv) as Hq; rewrite H in *.
    destruct (try_dequeue (v_sq v)) as [[x q]|] eqn:Eq.
    + destruct Hq as (h & E & V); rewrite E in H0; injection H0 as <-.
      exists (with_sq q v); split; try done; unfold posting_ids in *; cbn.
      rewrite Hids, (queued_dequeue_sq _ _ _ Eq); cbn; solve_Permutation.
    + rewrite Hq in H0; injection H0 as <-; by exists v.
  - rewrite H in *; apply rnic_send_wire_Done in H0 as [(Ec & Eh & _) Hok].
    exists v; split; cbn; rewrite ?Ec, ?Eh; done.
  - by eapply conserved_snd_complete.
  - by eapply conserved_rcv.
Qed.

Lemma conserved_reachable y0 y : initial y0 -> steps y0 y -> exists v, conserved y v.
Proof.
  intros (Hv & (th & Hs) & (m & e & r & sg & Hr) & Hg & Hp & Hrp & Hpo) Hsteps.
  assert (conserved y0 Example.empty_view) as H0.
  { split; unfold posting_ids; rewrite ?Hs, ?Hr, ?Hg, ?Hp, ?Hrp, ?Hpo; try done; by left. }
  revert H0; generalize Example.empty_view as v; clear -Hsteps.
  induction Hsteps as [y|y y1 y2 Hst Hsts IH]; intros v Hc; [by exists v|].
  destruct (conserved_step y y1 v Hc Hst) as [v' Hc']; by eapply IH.
Qed.

(** ** Pending reads *)

(** What a step does to the queue of pending reads: the send thread adds the completion
    of a read request it has sent with success; the receive thread, on a read response,
    takes the oldest one into its hands; or the queue stays as it is, and then neither
    thread has got past the point where it has to do so. *)
Inductive pend_step (y y' : sys) (v v' : view) : Prop :=
| pend_filed th req ret th' :
    y_snd y = SndSent th req (Some ret) -> swr_opcode req = RDMAP_RDMA_READ_REQ -> 0 <= ret ->
    y_snd y' = SndIdle th' ->
    q_items (v_pend v') = q_items (v_pend v) ++ [send_completion th req ret] -> pend_step y y' v v'
| pend_taken th ret e :
    y_rcv y = RcvSwitch th ret -> rdma_opcode_of_Z (msg_op th) = Some RDMAP_RDMA_READ_RESP ->
    y_rcv y' = RcvFile th (set_wce_byte_len ret e) ->
    q_items (v_pend v) = e :: q_items (v_pend v') -> pend_step y y' v v'
| pend_kept :
    (forall th req ret, y_snd y = SndSent th req (Some ret) ->
       swr_opcode req = RDMAP_RDMA_READ_REQ -> 0 <= ret -> y_snd y' = y_snd y) ->
    (forall th ret, y_rcv y = RcvSwitch th ret ->
       rdma_opcode_of_Z (msg_op th) = Some RDMAP_RDMA_READ_RESP -> q_items (v_pend v) <> [] ->
       y_rcv y' = y_rcv y) ->
    q_items (v_pend v') = q_items (v_pend v) -> pend_step y y' v v'.

(** What the receive thread has in its hands, its next step puts on the completion queue. *)
Definition file_step (y y' : sys) (v v' : view) : Prop :=
  forall th wce, y_rcv y = RcvFile th wce -> y_rcv y' <> y_rcv y ->
    y_rcv y' = RcvTop (set_rcv_wce wce th) /\
    v_cq v' = enqueue (rc_recv_thread (rn_ctx (y_st y))) wce (v_cq v).

(** A step of neither thread, or one of the send thread that files nothing. *)
Lemma pend_step_same y y' v v' :
  y_rcv y' = y_rcv y -> v_pend v' = v_pend v ->
  (forall th req r, y_snd y = SndSent th req r -> y_snd y' = y_snd y) ->
  pend_step y y' v v' /\ file_step y y' v v'.
Proof.
  intros Hr Hp Hs; split; [apply pend_kept; [by intros; eapply Hs|done|by rewrite Hp]|].
  by intros th wce _ Hn.
Qed.

Lemma pend_step_complete y v th req r th' st :
  conserved y v -> y_snd y = SndSent th req r ->
  pend_step y (y_set_snd (SndIdle th') st y) v
    (complete_spec (rc_send_thread (rn_ctx (y_st y))) th req r v).
Proof.
  intros [Hv Hpc Hr Hp Hids] Hy; unfold complete_spec.
  destruct (decide (swr_opcode req = RDMAP_RDMA_READ_REQ)) as [Ho|Ho].
  - destruct r as [ret|]; [rewrite Ho; destruct (Z.ltb_spec ret 0)|].
    1,3: apply pend_kept; [intros ??? Hy'; rewrite Hy in Hy'; simplify_eq; lia|done|done].
    eapply pend_filed; try done; cbn; apply (only_enqueue_bulk _ [_] (v_pend v) Hp).
  - apply pend_kept; [intros ??? Hy'; rewrite Hy in Hy'; by simplify_eq|done|by repeat case_match].
Qed.

Lemma pend_step_recv y v segs fuel pc st v' :
  conserved y v -> recv_turn cfg segs fuel (y_rcv y) (y_st y) = Done (pc, st) ->
  turned (y_st y) (y_rcv y) v pc st v' ->
  pend_step y (y_set_rcv pc st y) v v' /\ file_step y (y_set_rcv pc st y) v v'.
Proof.
  intros [_ _ _ Hp _] E [_ _ _ _ T F]; split.
  2:{ intros th wce Hy _; by rewrite Hy in F. }
  destruct (y_rcv y) as [th|th|th ret|th resp buf|th buf|th ret|th wce|] eqn:Hy; try done.
  3:{ cbn in T; destruct (decide _) as [Ho|Ho].
      2:{ apply pend_kept; [done|intros ?? Hy'; rewrite Hy in Hy'; by simplify_eq|by rewrite T]. }
      pose proof (only_try_dequeue _ (v_pend v) Hp) as Hq.
      destruct (try_dequeue (v_pend v)) as [[x l]|].
      - destruct T as [T ->], Hq as [_ Hq]; rewrite <- T in Hq; by eapply pend_taken.
      - destruct T as [T _]; apply pend_kept; [done|by rewrite Hq|by rewrite T]. }
  all: apply pend_kept; [done|by rewrite Hy|by rewrite T].
Qed.

Lemma step_cases y y' v v' :
  conserved y v -> step y y' -> sees (y_st y') v' -> pend_step y y' v v' /\ file_step y y' v v'.
Proof.
  intros Hc Hs Hv'; pose proof (co_view _ _ Hc) as Hv.
  assert (forall u, sees (y_st y') u -> pend_step y y' v u /\ file_step y y' v u ->
    pend_step y y' v v' /\ file_step y y' v v') as Hdet.
  { intros u Hu; by rewrite (has_view_det _ _ _ _ Hv' Hu). }
  assert (forall u, sees (y_st y') u -> v_pend u = v_pend v -> y_rcv y' = y_rcv y ->
    (forall th req r, y_snd y = SndSent th req r -> y_snd y' = y_snd y) ->
    pend_step y y' v v' /\ file_step y y' v v') as Hid.
  { intros u Hu ???; apply (Hdet u Hu); by apply pend_step_same. }
  assert (forall t wr ret, rdmap_send t wr (y_st y) = Done (ret, y_st y') ->
    exists u, sees (y_st y') u /\ v_pend u = v_pend v) as Hpost.
  { intros t wr ret E; apply (rdmap_send_view _ _ _ _ _ _ Hv) in E as (_ & _ & V); by eexists. }
  destruct Hs.
  - apply Hpost in H as (u & Hu & ?); by apply (Hid u).
  - apply rdmap_write_send, Hpost in H as (u & Hu & ?); by apply (Hid u).
  - apply rdmap_read_send, Hpost in H as (u & Hu & ?); by apply (Hid u).
  - unfold rdma_post_bufs in H; apply bind_Done_inv in H as (ddp & Hd & H); injection H as <-.
    by apply (Hid v).
  - destruct (rq_enqueue_sees _ v Hv t wr) as (h & E & V); rewrite E in H0; injection H0 as <-.
    by apply (Hid _ V).
  - unfold rdma_register in H; apply bind_Done_inv in H as (ddp & Hd & H); injection H as <- <- <-.
    by apply (Hid v).
  - unfold rdma_invalidate in H; apply bind_Done_inv in H as (ddp & Hd & H).
    destruct (deregister_tagged_buffer _ _); injection H as <- <-; by apply (Hid v).
  - destruct (poll_cq_sees _ _ _ _ _ _ _ _ Hv H H0) as (q & V & Hq); by apply (Hid _ V).
  - by apply (Hid v).
  - by apply (Hid v).
  - by apply (Hid v).
  - by apply (Hid v).
  - apply (Hid v); try done; intros; congruence.
  - pose proof (sq_try_dequeue_sees _ _ Hv) as Hq.
    destruct (try_dequeue (v_sq v)) as [[x q]|].
    + destruct Hq as (h & E & V); rewrite E in H0; injection H0 as <-.
      apply (Hid _ V); try done; intros; congruence.
    + rewrite Hq in H0; injection H0 as <-; apply (Hid v); try done; intros; congruence.
  - apply rnic_send_wire_Done in H0 as [(Ec & Eh & _) Hok].
    apply (Hid v); try done; [cbn; by rewrite Ec, Eh|intros; congruence].
  - destruct (rnic_send_complete_sees th req r (y_st y) v Hv) as (th2 & h & E2 & V & _).
    rewrite E2 in H0; injection H0 as <- <-; eapply Hdet; [exact V|].
    split; [by apply pend_step_complete|by intros ? ? _].
  - destruct (recv_turn_turned _ _ _ _ _ _ _ Hv (co_rcv _ _ Hc) H) as (u & Hu).
    eapply Hdet; [apply (tu_view _ _ _ _ _ _ Hu)|by eapply pend_step_recv].
Qed.
End system.

(** ** Theorems *)

(** C4: Conservation of completions.  Take the application, the two threads and the
    network in any interleaving of their steps, where a step is one operation on a
    queue or on the registry, or one DDP call.  Then in every reachable state each
    posted request that promises a completion and each posted receive request is in
    exactly one place: a queue, the hands of the send thread, the completion the
    receive thread is about to file, a call of [rdma_post_recv] under way, or among the
    completions already polled.  No completion is lost, duplicated or invented. *)
Theorem completions_conserved cfg junk y0 y :
  initial y0 -> steps cfg junk y0 y ->
  exists v, sees (y_st y) v /\
    y_posted y ++ y_rposted y ≡ₚ
      queued v ++ in_flight (y_snd y) ++ in_hands (y_rcv y) ++ posting_ids y ++ y_polled y.
Proof.
  intros Hi Hs; destruct (conserved_reachable cfg junk y0 y Hi Hs) as [v Hc].
  exists v; split; [apply Hc|apply Hc].
Qed.

(** If the application gives every request its own id, no id is polled
    twice, and only posted ids are polled. *)
Theorem polled_at_most_once cfg junk y0 y :
  initial y0 -> steps cfg junk y0 y -> NoDup (y_posted y ++ y_rposted y) ->
  NoDup (y_polled y) /\ forall i, i ∈ y_polled y -> i ∈ y_posted y ++ y_rposted y.
Proof.
  intros Hi Hs Hn; destruct (conserved_reachable cfg junk y0 y Hi Hs) as [v [_ _ _ _ Hp]].
  rewrite Hp in Hn; split.
  - rewrite !app_assoc in Hn; by apply NoDup_app in Hn as (_ & _ & Hn).
  - intros i Hin; rewrite Hp, !elem_of_app; tauto.
Qed.


(** ** A concrete run: a read request is posted, taken, sent and filed *)
Module Run.
Import Example.
Definition wr : send_wr := req 7 RDMAP_RDMA_READ_REQ.
Definition y0 : sys :=
  {| y_st := fresh ∅ sgs; y_snd := SndIdle snd; y_rcv := RcvTop (rcv 0 0); y_posting := [];
     y_posted := []; y_rposted := []; y_polled := [] |}.
Definition get {A} (d : A) (r : run A) : A := match r with Done a => a | _ => d end.

Definition y1 : sys := y_log (promised wr) [] [] (y_set (get (0, y_st y0) (rdmap_send 0 wr (y_st y0))).2 y0).
Definition y1' : sys := y_set_snd (SndLook snd) (y_st y1) y1.
Definition y2 : sys :=
  y_set_snd (SndHave snd wr)
    (match sq_try_dequeue (y_st y1) with Done (Some (_, st)) => st | _ => y_st y1 end) y1'.
Definition y3 : sys :=
  y_set_snd (SndSent snd wr (Some 0)) (get (None, y_st y2) (rnic_send_wire 0 snd wr (y_st y2))).2 y2.
Definition y4 : sys :=
  let '(th, st) := get (snd, y_st y3) (rnic_send_complete snd wr (Some 0) (y_st y3)) in
  y_set_snd (SndIdle th) st y3.

Lemma y0_initial : initial y0.
Proof.
  split; [apply fresh_sees|]; split; [by eexists|]; split; [by do 4 eexists|done].
Qed.
Lemma step01 : step debug 0 y0 y1.
Proof. apply (step_send debug 0 y0 0 wr 1); vm_compute; reflexivity. Qed.
Lemma step11 : step debug 0 y1 y1'.
Proof. by apply (step_snd_look debug 0 y1 snd). Qed.
Lemma step12 : step debug 0 y1' y2.
Proof.
  assert (sq_try_dequeue (y_st y1') = Done (Some (wr, y_st y2))) as E by (vm_compute; reflexivity).
  by apply (step_snd_take debug 0 y1' snd _ eq_refl E).
Qed.
Lemma step23 : step debug 0 y2 y3.
Proof. apply step_snd_wire; [reflexivity|vm_compute; reflexivity]. Qed.
Lemma step34 : step debug 0 y3 y4.
Proof. eapply step_snd_complete; [reflexivity|vm_compute; reflexivity]. Qed.
Lemma steps03 : steps debug 0 y0 y3.
Proof. eapply rtc_l, rtc_l, rtc_l, rtc_l, rtc_refl;
  [apply step01|apply step11|apply step12|apply step23]. Qed.
Lemma steps04 : steps debug 0 y0 y4.
Proof. eapply rtc_r; [apply steps03|apply step34]. Qed.

Definition v3 : view := with_sq [Producer 0 []] empty_view.
Definition v4 : view := with_pend [Producer 2 [send_completion snd wr 0]] v3.
Lemma y3_sees : sees (y_st y3) v3.
Proof. do 3 eexists; split_all; vm_compute; reflexivity. Qed.
Lemma y4_sees : sees (y_st y4) v4.
Proof. do 3 eexists; split_all; vm_compute; reflexivity. Qed.
End Run.

Lemma completions_conserved_witness :
  exists v, sees (y_st Run.y4) v /\ [7] ++ [] ≡ₚ queued v ++ [] ++ [] ++ [] ++ [].
Proof. apply (completions_conserved Example.debug 0 Run.y0 Run.y4 Run.y0_initial Run.steps04). Defined.

Lemma polled_at_most_once_witness :
  NoDup (y_polled Run.y4) /\ forall i, i ∈ y_polled Run.y4 -> i ∈ y_posted Run.y4 ++ y_rposted Run.y4.
Proof.
  apply (polled_at_most_once Example.debug 0 Run.y0 Run.y4 Run.y0_initial Run.steps04).
  apply NoDup_singleton.
Defined.

