(* ===== verification/RdmapEndToEnd.v ===== *)
(** * RDMAP: operations between two connected streams

    An RDMA Write, a Send and an RDMA Read from the request on one side to the
    memory and the completions on both sides, through the iterations of the
    threads involved. *)

From S2P Require Import Prelude Endian Wire Socket Mpa Memory CQueue Cq Ddp DdpSegment DdpRoundtrip DdpUntagged Rdmap RdmapView RdmapThreads.

(** The bytes [bs] arrive at [st], ahead of what the network does later. *)
Definition arrive (bs : list byte) (r : list rx_event) (st : rnic) : rnic :=
  set_rn_sock (set_rx (RxData bs :: r) (rn_sock st)) st.

Definition req_sges (st : rnic) (req : send_wr) : list sge :=
  sg_array st (swr_sg_list req) (swr_num_sge req).

(** A socket on which nothing has been written yet and nothing fails. *)
Definition clean_tx (st : rnic) : Prop := tx (rn_sock st) = [] /\ tx_plan (rn_sock st) = [].

(** ** Queues that hold one element *)
Lemma try_dequeue_enqueue_empty {A} (q : cqueue A) t x :
  q_items q = [] -> exists q', try_dequeue (enqueue t x q) = Some (x, q') /\ q_items q' = [].
Proof.
  intros H; pose proof (enqueue_items t x q) as He; rewrite H in He.
  destruct (try_dequeue (enqueue t x q)) as [[y q']|] eqn:E.
  - rewrite (try_dequeue_items _ _ _ E) in He; symmetry in He.
    apply Permutation_singleton_l in He; simplify_eq; by exists q'.
  - pose proof (try_dequeue_cases (enqueue t x q)) as Hc; rewrite E in Hc; rewrite Hc in He.
    by apply Permutation_nil_l in He.
Qed.

(** ** The sending side *)
Lemma rdma_hdr_range req : in_u 8 (rdma_hdr req).
Proof. by apply wrap_range. Qed.
Lemma rdma_hdr_op req : get_rdmap_op (rdma_hdr req) = rdma_opcode_val (swr_opcode req).
Proof. unfold rdma_hdr; by destruct (swr_opcode req). Qed.

Lemma htonl_range z : in_u 32 (htonl z).
Proof. apply (swap_range 4). Qed.
Lemma htonll_range z : in_u 64 (htonll z).
Proof. rewrite htonll_swap; apply (swap_range 8). Qed.

Lemma send_hdr_wf junk req rsvd2 qn msn : in_u 32 rsvd2 -> wf_untagged_meta (send_hdr junk req rsvd2 qn msn).
Proof.
  intros; split; [apply rdma_hdr_range|]; split; [done|]; split; [apply htonl_range|].
  split; [apply htonl_range|by apply wrap_range].
Qed.
Lemma write_hdr_wf req : wf_tagged_meta (write_hdr req).
Proof.
  split; [apply rdma_hdr_range|]; split; [apply htonl_range|apply htonll_range].
Qed.

Lemma send_tagged_frames_of st ddp req gs :
  rn_ddp st = Some ddp -> clean_tx st -> sges_ok gs -> last_nonempty gs ->
  in_u 64 (swr_remote_addr req) ->
  send_tagged (write_hdr req) gs st =
    Done (0, set_rn_sock (sent (rn_sock st)
      (tagged_frames (write_hdr req) true (swr_remote_addr req) (msg_pieces (rn_mem st) gs))) st).
Proof.
  intros Hd [Htx Hp] Hok Hl Ha; unfold send_tagged; rewrite Hd; cbn [deref]; rewrite bind_Done.
  pose proof (ddp_send_tagged_frames (rn_mem st) (write_hdr req) (swr_remote_addr req) gs
    (rn_sock st) Hok Hl Hp Ha) as E.
  change (set_tm_TO (htonll (swr_remote_addr req)) (write_hdr req)) with (write_hdr req) in E.
  by rewrite E.
Qed.

Lemma send_untagged_frames_of st ddp h gs :
  rn_ddp st = Some ddp -> tx_plan (rn_sock st) = [] -> sges_ok gs -> last_nonempty gs ->
  send_untagged h gs st =
    Done (0, set_rn_sock (sent (rn_sock st) (untagged_frames h true 0 (msg_pieces (rn_mem st) gs))) st).
Proof.
  intros Hd Hp Hok Hl; unfold send_untagged; rewrite Hd; cbn [deref]; rewrite bind_Done.
  by rewrite (ddp_send_untagged_frames (rn_mem st) h gs (rn_sock st) Hok Hl Hp).
Qed.

(** ** The receiving side *)

(** [rnic_recv_iter] when [ddp_recv] delivers a message. *)
Lemma rnic_recv_iter_msg cfg segs fuel th st ddp o :
  rn_ddp st = Some ddp ->
  ddp_recv segs fuel ddp (rcv_msg th) (rn_mem st) (rn_sock st) = Some o -> ro_ret o = 0 ->
  rnic_recv_iter cfg segs fuel th st =
    recv_dispatch cfg (set_rcv_msg (ro_msg o) th) 0
      (set_rn_sock (ro_sock o) (set_rn_mem (ro_mem o) (set_rn_ddp (Some (ro_ctx o)) st))).
Proof.
  intros Hd Hr H0; unfold rnic_recv_iter; rewrite Hd; cbn [deref]; rewrite bind_Done, Hr.
  cbn [returns]; by rewrite bind_Done, H0.
Qed.

(** A tagged message from [req] arrives. *)
Lemma recv_iter_tagged cfg segs fuel th st db req m gs b rest r :
  rn_ddp st = Some db -> sges_ok gs -> last_nonempty gs -> in_u 64 (swr_remote_addr req) ->
  in_u 32 (swr_rkey req) -> (length (msg_pieces m gs) <= segs)%nat ->
  ddp_check_stag db {| tm_rsvdULP1 := rdma_hdr req; tm_tag := swr_rkey req;
                       tm_TO := swr_remote_addr req |} = Some b ->
  exists msg,
    msg_is_tagged msg = true /\ meta_rsvdULP1 (dm_meta msg) = rdma_hdr req /\
    rnic_recv_iter cfg segs (S fuel) th
      (arrive (tagged_frames (write_hdr req) true (swr_remote_addr req) (msg_pieces m gs) ++ rest) r st) =
    recv_dispatch cfg (set_rcv_msg msg th) 0
      (set_rn_mem (mem_write (rn_mem st) (swr_remote_addr req) (msg_bytes m gs)) (arrive rest r st)).
Proof.
  intros Hd Hok Hl Ha Hk Hs Hst.
  pose proof (msg_pieces_ok m gs) as Hps; pose proof (msg_pieces_nonempty m gs Hl) as Hne.
  pose proof (concat_msg_pieces m gs) as Hcat; destruct (msg_pieces m gs) as [|p ps]; [done|].
  pose proof (ddp_recv_tagged_frames segs fuel db (rcv_msg th) (rn_mem st) (write_hdr req)
    (swr_remote_addr req) b p ps rest r
    (rn_sock (arrive (tagged_frames (write_hdr req) true (swr_remote_addr req) (p :: ps) ++ rest) r st))
    (write_hdr_wf req) Ha Hps) as E; cbn [length] in Hs; specialize (E ltac:(lia) eq_refl).
  cbv zeta in E; cbn [tm_rsvdULP1 tm_tag write_hdr] in E.
  rewrite ntohl_htonl, (wrap_small 32) in E by done; specialize (E Hst).
  eexists; split; [|split; [|erewrite rnic_recv_iter_msg; [|exact Hd|exact E|done]]]; cycle 2.
  - cbn [ro_msg ro_mem ro_sock ro_ctx]; rewrite Hcat; f_equal.
    unfold arrive, set_rn_sock, set_rn_mem, set_rn_ddp; cbn; by rewrite Hd.
  - cbn [msg_is_tagged dm_bits]; unfold msg_is_tagged; cbn [dm_bits]; by case_bool_decide.
  - done.
Qed.

(** An untagged message of one segment arrives. *)
Lemma recv_iter_untagged cfg segs fuel th st db h p i rest r buf db' :
  rn_ddp st = Some db -> wf_untagged_meta h -> seg_ok p ->
  ddp_check_untagged_hdr db (host_untagged h) = Some i ->
  untagged_dequeue db (rcv_msg th) i = (buf, db') ->
  exists msg,
    msg_is_tagged msg = false /\ meta_rsvdULP1 (dm_meta msg) = um_rsvdULP1 h /\
    dm_buf msg = UntagBuf buf /\
    rnic_recv_iter cfg (S segs) (S fuel) th (arrive (untagged_frames h true 0 [p] ++ rest) r st) =
    recv_dispatch cfg (set_rcv_msg msg th) 0
      (set_rn_ddp (Some db') (set_rn_mem (mem_write (rn_mem st) (ub_data buf) p) (arrive rest r st))).
Proof.
  intros Hd Hw Hp Hst Hdq.
  pose proof (ddp_recv_untagged_frames (S segs) fuel db (rcv_msg th) (rn_mem st) h i p [] rest r
    (rn_sock (arrive (untagged_frames h true 0 [p] ++ rest) r st)) Hw) as E.
  assert (Forall seg_ok [p]) as Hps by (apply Forall_singleton, Hp).
  specialize (E Hps ltac:(cbn; lia) eq_refl Hst); rewrite Hdq in E.
  eexists; split; [|split; [|split; [|erewrite rnic_recv_iter_msg; [|exact Hd|exact E|done]]]]; cycle 3.
  - cbn [ro_msg ro_mem ro_sock ro_ctx place_untagged]; f_equal.
    change (ntohl 0) with 0; by rewrite Z.add_0_r.
  - done.
  - done.
  - done.
Qed.

(** ** RDMA Write *)

(** C2: RDMA Write, end to end: when the requester's send thread handles the
    write and the bytes reach the responder, the responder's receive thread
    stores exactly the requested bytes at the remote address, touches none of
    its queues and goes on; the requester gets one successful completion with
    the request's id, and the responder's application none. *)
Theorem rdma_write_end_to_end cfg junk segs fuel tha thb a b va da db req q buf rest r :
  sees a va -> rn_ddp a = Some da -> clean_tx a -> rn_ddp b = Some db ->
  try_dequeue (v_sq va) = Some (req, q) -> swr_opcode req = RDMAP_RDMA_WRITE ->
  sges_ok (req_sges a req) -> last_nonempty (req_sges a req) ->
  (length (msg_pieces (rn_mem a) (req_sges a req)) <= segs)%nat ->
  in_u 64 (swr_remote_addr req) -> in_u 32 (swr_rkey req) ->
  ddp_check_stag db {| tm_rsvdULP1 := rdma_hdr req; tm_tag := swr_rkey req;
                       tm_TO := swr_remote_addr req |} = Some buf ->
  exists tha' a' thb',
    rnic_send_iter junk tha a = Done (tha', a') /\
    sees a' (with_cq (enqueue (rc_send_thread (rn_ctx a)) (send_completion tha req 0) (v_cq va))
                     (with_sq q va)) /\
    rnic_recv_iter cfg segs (S fuel) thb (arrive (tx (rn_sock a') ++ rest) r b) =
      Done (RecvNext thb' (set_rn_mem
        (mem_write (rn_mem b) (swr_remote_addr req) (msg_bytes (rn_mem a) (req_sges a req)))
        (arrive rest r b))).
Proof.
  intros Hv Hda Htx Hdb Hq Ho Hok Hl Hs Ha Hk Hst.
  pose proof (sq_try_dequeue_sees a va Hv) as Hdq; rewrite Hq in Hdq; destruct Hdq as (h & E1 & V1).
  destruct (rnic_send_complete_sees tha req (Some 0)
    (set_rn_sock (sent (rn_sock a) (tagged_frames (write_hdr req) true (swr_remote_addr req)
       (msg_pieces (rn_mem a) (req_sges a req)))) (set_rn_heap h a)) (with_sq q va) V1)
    as (tha' & h' & E2 & V2 & _).
  destruct (recv_iter_tagged cfg segs fuel thb b db req (rn_mem a) (req_sges a req) buf rest r
    Hdb Hok Hl Ha Hk Hs Hst) as (msg & Htag & Hr1 & E3).
  eexists tha', _, _; split; [|split].
  - unfold rnic_send_iter; rewrite E1, bind_Done; unfold rnic_send_wire; rewrite Ho.
    unfold rnic_send_wire; change (sg_array (set_rn_heap h a) ?p ?n) with (req_sges a req).
    rewrite (send_tagged_frames_of (set_rn_heap h a) da req (req_sges a req)) by done.
    rewrite !bind_Done; exact E2.
  - unfold complete_spec in V2; rewrite Ho in V2; exact V2.
  - cbn [rn_sock set_rn_heap set_rn_sock sent tx]; rewrite (proj1 Htx), app_nil_l, E3.
    unfold recv_dispatch; cbn [rcv_msg set_rcv_msg]; rewrite Hr1, rdma_hdr_op, Ho.
    cbn [rdma_opcode_val rdma_opcode_of_Z]; rewrite Htag, assert_ok by (by right); done.
Qed.

(** ** Send *)

(** The wire part for one untagged element of at most [MULPDU] bytes. *)
Lemma send_untagged_one st ddp hd g :
  rn_ddp st = Some ddp -> tx_plan (rn_sock st) = [] -> 0 < sge_length g <= MULPDU ->
  send_untagged hd [g] st =
    Done (0, set_rn_sock (sent (rn_sock st) (untagged_frames hd true 0 [sge_bytes (rn_mem st) g])) st).
Proof.
  intros Hd Hp Hlen; rewrite (send_untagged_frames_of st ddp hd [g]);
    [|done|done|repeat constructor; rewrite MULPDU_val in Hlen; lia|cbn; lia].
  unfold msg_pieces; cbn [map concat]; rewrite app_nil_r, pieces_small; [done|].
  rewrite zlen_sge_bytes; lia.
Qed.

(** The header of a message for queue [qn] passes the responder's check. *)
Lemma send_hdr_accepted junk req rsvd2 qn msn db uq :
  queues_ok db -> 0 <= qn < 3 -> 1 <= msn < 2 ^ 32 -> dc_queues db !! Z.to_nat qn = Some uq ->
  ddp_check_untagged_hdr db (host_untagged (send_hdr junk req rsvd2 qn msn)) = Some (Z.to_nat qn).
Proof.
  intros [_ Hm] Hq Hn Hu; unfold host_untagged, send_hdr; cbn [um_rsvdULP1 um_rsvdULP2 um_qn um_msn].
  rewrite !ntohl_htonl, !wrap_small by (split; lia); unfold ddp_check_untagged_hdr; cbn [um_qn um_msn].
  unfold MAX_UNTAGGED_BUFFERS; destruct (Z.leb_spec 3 qn); [lia|]; rewrite Hu.
  cbn [mbind option_bind]; rewrite (Forall_lookup_1 _ _ _ _ Hm Hu); change (u32 1) with 1.
  by destruct (Z.ltb_spec msn 1); [lia|].
Qed.

Lemma send_requester junk tha a va da req q g :
  sees a va -> rn_ddp a = Some da -> clean_tx a -> try_dequeue (v_sq va) = Some (req, q) ->
  (swr_opcode req = RDMAP_SEND \/ swr_opcode req = RDMAP_SEND_SE) ->
  req_sges a req = [g] -> 0 < sge_length g <= MULPDU ->
  exists tha' a', rnic_send_iter junk tha a = Done (tha', a') /\
    sees a' (with_cq (enqueue (rc_send_thread (rn_ctx a)) (send_completion tha req 0) (v_cq va))
                     (with_sq q va)) /\
    tx (rn_sock a') = untagged_frames (send_hdr junk req (u32 junk) SEND_QN (rn_msn_send a)) true 0
                        [sge_bytes (rn_mem a) g].
Proof.
  intros Hva Hda [Htx Hpl] Hq Ho Hg Hlen.
  pose proof (sq_try_dequeue_sees a va Hva) as Hdq; rewrite Hq in Hdq; destruct Hdq as (h & E1 & V1).
  set (hd := send_hdr junk req (u32 junk) SEND_QN (rn_msn_send a)).
  set (a1 := set_rn_msns (u32 (rn_msn_send a + 1)) (rn_msn_inval a) (rn_msn_read a) (set_rn_heap h a)).
  pose proof (send_untagged_one a1 da hd g Hda Hpl Hlen) as E2.
  destruct (rnic_send_complete_sees tha req (Some 0) (set_rn_sock (sent (rn_sock a1)
    (untagged_frames hd true 0 [sge_bytes (rn_mem a1) g])) a1) (with_sq q va) V1)
    as (tha' & h' & E3 & V2 & _).
  eexists tha', _; split_all.
  - unfold rnic_send_iter; rewrite E1, bind_Done; unfold rnic_send_wire.
    change (sg_array (set_rn_heap h a) _ _) with (req_sges a req); rewrite Hg.
    destruct Ho as [-> | ->]; cbv zeta;
      change (send_untagged _ [g] _) with (send_untagged hd [g] a1); rewrite E2, !bind_Done; exact E3.
  - unfold complete_spec in V2; destruct Ho as [Ho|Ho]; rewrite Ho in V2; exact V2.
  - cbn [rn_sock set_rn_heap set_rn_sock sent tx]; change (rn_sock a1) with (rn_sock a).
    by rewrite Htx.
Qed.

(** C3: Send, end to end: a send (solicited or not) of one element of at most
    [MULPDU] bytes lands in the oldest buffer of the responder's queue 0, the
    oldest receive request is completed with its own id and the opcode of the
    send, and the requester's request is completed.  Both completions are
    successful; the receive completion goes to the send side's completion queue
    and its byte count is 0 whatever the length of the message. *)
Theorem rdma_send_end_to_end cfg junk segs fuel tha thb a b va vb da db req q g wr rq uq buf uq' rest r :
  sees a va -> rn_ddp a = Some da -> clean_tx a ->
  sees b vb -> rn_ddp b = Some db -> queues_ok db ->
  try_dequeue (v_sq va) = Some (req, q) ->
  (swr_opcode req = RDMAP_SEND \/ swr_opcode req = RDMAP_SEND_SE) ->
  req_sges a req = [g] -> 0 < sge_length g <= MULPDU -> 1 <= rn_msn_send a < 2 ^ 32 ->
  try_dequeue (v_rq vb) = Some (wr, rq) ->
  dc_queues db !! 0%nat = Some uq -> try_dequeue (ubq_q uq) = Some (buf, uq') ->
  exists tha' a' thb' b' e,
    rnic_send_iter junk tha a = Done (tha', a') /\
    sees a' (with_cq (enqueue (rc_send_thread (rn_ctx a)) (send_completion tha req 0) (v_cq va))
                     (with_sq q va)) /\
    rnic_recv_iter cfg (S segs) (S fuel) thb (arrive (tx (rn_sock a') ++ rest) r b) =
      Done (RecvNext thb' b') /\
    rn_mem b' = mem_write (rn_mem b) (ub_data buf) (sge_bytes (rn_mem a) g) /\
    sees b' (with_cq (enqueue (rc_recv_thread (rn_ctx b)) e (v_cq vb)) (with_rq rq vb)) /\
    wce_wr_id e = rwr_wr_id wr /\ wce_status e = WC_SUCCESS /\
    wce_opcode e = rdma_opcode_val (swr_opcode req) /\ wce_byte_len e = 0.
Proof.
  intros Hva Hda Htx Hvb Hdb Hqok Hq Ho Hg Hlen Hmsn Hrq Huq Hbuf.
  destruct (send_requester junk tha a va da req q g) as (tha' & a' & E1 & V1 & Etx); try done.
  set (hd := send_hdr junk req (u32 junk) SEND_QN (rn_msn_send a)) in *.
  assert (seg_ok (sge_bytes (rn_mem a) g)) as Hseg by (unfold seg_ok; rewrite zlen_sge_bytes; lia).
  destruct (recv_iter_untagged cfg segs fuel thb b db hd (sge_bytes (rn_mem a) g) 0 rest r buf
    (set_dc_queues <[0%nat := {| ubq_q := uq'; ubq_msn := ubq_msn uq |}]> db)) as (msg & Htag & Hr1 & Hb & E2);
    [done|apply send_hdr_wf; by apply wrap_range|done|by apply (send_hdr_accepted _ _ _ 0 _ _ uq)|
     unfold untagged_dequeue; by rewrite Huq, Hbuf|].
  set (thb1 := set_rcv_msg msg thb) in *.
  assert (msg_op thb1 = rdma_opcode_val (swr_opcode req)) as Hop.
  { unfold msg_op, thb1; cbn [rcv_msg set_rcv_msg]; rewrite Hr1; apply rdma_hdr_op. }
  match type of E2 with _ = recv_dispatch _ _ _ ?s => set (b1 := s) in * end.
  destruct (recv_send_sees cfg thb1 0 b1 vb Hvb (or_intror Htag)) as (thb2 & hb & E3 & V2).
  eexists tha', _, thb2, (set_rn_heap hb b1), (recv_completion thb1 0 wr); split_all; try done.
  - rewrite Etx, E2; unfold recv_dispatch; fold (msg_op thb1); rewrite Hop in *.
    destruct Ho as [Ho|Ho]; rewrite Ho in *; exact E3.
  - unfold recv_send_spec in V2; rewrite Hrq in V2; exact V2.
Qed.

(** ** RDMA Read *)

(** First stage: the requester sends the read request. *)
Lemma read_requester junk tha a va da req q g :
  sees a va -> rn_ddp a = Some da -> clean_tx a -> try_dequeue (v_sq va) = Some (req, q) ->
  swr_opcode req = RDMAP_RDMA_READ_REQ -> swr_num_sge req = 1 -> req_sges a req = [g] ->
  let f := read_fields req g in
  exists tha' a', rnic_send_iter junk tha a = Done (tha', a') /\
    sees a' (with_pend (enqueue (rc_send_thread (rn_ctx a)) (send_completion tha req 0) (v_pend va))
                       (with_sq q va)) /\
    tx (rn_sock a') = untagged_frames (send_hdr junk req (u32 junk) READ_QN (rn_msn_read a)) true 0
                        [encode f] /\
    rn_mem a' = mem_write (rn_mem a) (snd_fields tha) (encode f) /\
    rn_ddp a' = Some da /\ rn_ctx a' = rn_ctx a.
Proof.
  intros Hva Hda [Htx Hpl] Hq Ho Hn Hg f.
  pose proof (sq_try_dequeue_sees a va Hva) as Hdq; rewrite Hq in Hdq; destruct Hdq as (h & E1 & V1).
  set (hd := send_hdr junk req (u32 junk) READ_QN (rn_msn_read a)).
  set (a1 := set_rn_mem (mem_write (rn_mem a) (snd_fields tha) (encode f))
    (set_rn_msns (rn_msn_send a) (rn_msn_inval a) (u32 (rn_msn_read a + 1)) (set_rn_heap h a))).
  set (gf := {| sge_addr := snd_fields tha; sge_length := READ_REQ_SIZE; sge_lkey := u32 junk |}).
  pose proof (send_untagged_one a1 da hd gf Hda Hpl ltac:(rewrite MULPDU_val; unfold gf, READ_REQ_SIZE; cbn [sge_length]; lia)) as E2.
  assert (sge_bytes (rn_mem a1) gf = encode f) as Hbytes.
  { unfold sge_bytes, gf, a1; cbn [sge_addr sge_length rn_mem set_rn_mem].
    replace READ_REQ_SIZE with (zlen (encode f)) by (rewrite zlen_encode; done).
    apply mem_read_write; rewrite zlen_encode; lia. }
  rewrite Hbytes in E2.
  destruct (rnic_send_complete_sees tha req (Some 0) (set_rn_sock (sent (rn_sock a1)
    (untagged_frames hd true 0 [encode f])) a1) (with_sq q va) V1) as (tha' & h' & E3 & V2 & _).
  eexists tha', _; split_all.
  - unfold rnic_send_iter; rewrite E1, bind_Done; unfold rnic_send_wire; rewrite Ho.
    change (sg_array (set_rn_heap h a) _ _) with (req_sges a req); rewrite Hg, Hn; cbv zeta.
    change (negb (1 =? 1)) with false; cbn [head deref]; rewrite bind_Done.
    change (send_untagged _ _ _) with (send_untagged hd [gf] a1); rewrite E2, !bind_Done; exact E3.
  - unfold complete_spec in V2; rewrite Ho in V2; exact V2.
  - cbn [rn_sock set_rn_heap set_rn_sock sent tx]; change (rn_sock a1) with (rn_sock a).
    by rewrite Htx.
  - done.
  - done.
  - done.
Qed.

(** Second stage: the responder's receive thread turns it into a response. *)
Lemma read_responder_recv cfg junk segs fuel thb b vb db req g uq buf uq' rest r :
  rping cfg = false -> sees b vb -> rn_ddp b = Some db -> queues_ok db ->
  swr_opcode req = RDMAP_RDMA_READ_REQ -> wf_read_req (read_fields req g) ->
  dc_queues db !! 1%nat = Some uq -> try_dequeue (ubq_q uq) = Some (buf, uq') ->
  forall msn, 1 <= msn < 2 ^ 32 ->
  let f := read_fields req g in
  let t := rc_recv_thread (rn_ctx b) in
  let hd := send_hdr junk req (u32 junk) READ_QN msn in
  let resp := read_resp_for f (rcv_read_resp thb) in
  exists thb' b',
    rnic_recv_iter cfg (S segs) (S fuel) thb (arrive (untagged_frames hd true 0 [encode f] ++ rest) r b) =
      Done (RecvNext thb' b') /\
    sees b' (with_sq (enqueue t resp (v_sq vb)) vb) /\
    rn_mem b' = mem_write (rn_mem b) (ub_data buf) (encode f) /\
    rn_sgs b' !! rcv_sg thb = Some [{| sge_addr := rf_src_TO f; sge_length := rf_rdma_rd_sz f;
                                       sge_lkey := rf_src_tag f |}] /\
    rn_sock b' = set_rx (RxData rest :: r) (rn_sock b) /\
    (exists db', rn_ddp b' = Some db' /\
       dc_queues db' !! 1%nat = Some {| ubq_q := enqueue_bulk t [buf] uq'; ubq_msn := ubq_msn uq |}).
Proof.
  intros Hrp Hvb Hdb Hqok Ho Hwf Huq Hbuf msn Hmsn f t hd resp.
  assert (zlen (encode f) = 28) as Hz by (rewrite zlen_encode; done).
  destruct (recv_iter_untagged cfg segs fuel thb b db hd (encode f) 1 rest r buf
    (set_dc_queues <[1%nat := {| ubq_q := uq'; ubq_msn := ubq_msn uq |}]> db)) as (msg & Htag & Hr1 & Hb & E);
    [done|apply send_hdr_wf; by apply wrap_range|unfold seg_ok; rewrite Hz, MULPDU_val; lia|
     by apply (send_hdr_accepted _ _ _ 1 _ _ uq)|unfold untagged_dequeue; by rewrite Huq, Hbuf|].
  set (thb1 := set_rcv_msg msg thb) in *.
  match type of E with _ = recv_dispatch _ _ _ ?s => set (b1 := s) in * end.
  assert (recv_fields cfg thb1 (rn_mem b1) = f) as Hf.
  { unfold recv_fields; rewrite Hrp; unfold thb1; cbn [rcv_msg set_rcv_msg]; rewrite Hb.
    cbn [as_untag_buf]; change (rn_mem b1) with (mem_write (rn_mem b) (ub_data buf) (encode f)).
    change READ_REQ_SIZE with 28; rewrite <- Hz, mem_read_write by (rewrite Hz; lia).
    by rewrite decode_encode_nil. }
  unfold recv_dispatch in E; cbn [rcv_msg thb1 set_rcv_msg] in E; rewrite Hr1 in E.
  change (um_rsvdULP1 hd) with (rdma_hdr req) in E; rewrite rdma_hdr_op, Ho in E.
  cbn [rdma_opcode_val rdma_opcode_of_Z] in E; unfold recv_read_req in E; fold thb1 in E.
  fold (recv_fields cfg thb1 (rn_mem b1)) in E; cbn [rcv_msg thb1 set_rcv_msg] in E; fold thb1 in E.
  rewrite Htag, assert_ok, bind_Done, Hrp, Hf in E by (by right); cbv zeta in E.
  match type of E with context [sq_enqueue ?t ?x ?s] =>
    destruct (sq_enqueue_sees s vb Hvb t x) as (h & E2 & V) end.
  rewrite E2, bind_Done in E; cbn [rn_ddp set_rn_heap set_rn_sgs b1 set_rn_ddp deref] in E.
  rewrite bind_Done in E; rewrite Hb in E; cbn [as_untag_buf] in E.
  eexists _, _; split; [exact E|]; split_all; try done.
  - cbn [rn_sgs set_rn_ddp set_rn_heap set_rn_sgs]; apply lookup_insert_eq.
  - eexists; split; [reflexivity|]; unfold ddp_post_recv; change ((READ_QN <? 0) ||
      (MAX_UNTAGGED_BUFFERS <=? READ_QN)) with false; cbv iota; cbn [dc_queues set_dc_queues].
    change (Z.to_nat READ_QN) with 1%nat; rewrite list_lookup_alter_eq, list_lookup_insert_eq;
      [done|by eapply lookup_lt_Some].
Qed.

(** Third stage: the responder's send thread sends the response; no completion. *)
Lemma read_responder_send junk thb b vb db resp q g :
  sees b vb -> rn_ddp b = Some db -> clean_tx b -> try_dequeue (v_sq vb) = Some (resp, q) ->
  swr_opcode resp = RDMAP_RDMA_READ_RESP -> req_sges b resp = [g] -> 0 < sge_length g < 2 ^ 31 ->
  in_u 64 (swr_remote_addr resp) ->
  exists b', rnic_send_iter junk thb b = Done (thb, b') /\ sees b' (with_sq q vb) /\
    rn_mem b' = rn_mem b /\
    tx (rn_sock b') = tagged_frames (write_hdr resp) true (swr_remote_addr resp)
                        (msg_pieces (rn_mem b) [g]).
Proof.
  intros Hvb Hdb [Htx Hpl] Hq Ho Hg Hlen Ha.
  pose proof (sq_try_dequeue_sees b vb Hvb) as Hdq; rewrite Hq in Hdq; destruct Hdq as (h & E1 & V1).
  eexists; split_all.
  - unfold rnic_send_iter; rewrite E1, bind_Done; unfold rnic_send_wire; rewrite Ho.
    change (sg_array (set_rn_heap h b) _ _) with (req_sges b resp); rewrite Hg; cbv zeta.
    rewrite (send_tagged_frames_of (set_rn_heap h b) db resp [g]);
      [|done|done|repeat constructor; lia|cbn; lia|done].
    rewrite !bind_Done; unfold rnic_send_complete; rewrite Ho; reflexivity.
  - exact V1.
  - done.
  - cbn [rn_sock set_rn_heap set_rn_sock sent tx]; by rewrite Htx.
Qed.

(** Fourth stage: the requester's receive thread completes the read. *)
Lemma read_requester_recv cfg segs fuel tha a va da resp m g buf e q rest r :
  sees a va -> rn_ddp a = Some da -> swr_opcode resp = RDMAP_RDMA_READ_RESP ->
  0 < sge_length g < 2 ^ 31 -> in_u 64 (swr_remote_addr resp) -> in_u 32 (swr_rkey resp) ->
  (length (msg_pieces m [g]) <= segs)%nat ->
  ddp_check_stag da {| tm_rsvdULP1 := rdma_hdr resp; tm_tag := swr_rkey resp;
                       tm_TO := swr_remote_addr resp |} = Some buf ->
  try_dequeue (v_pend va) = Some (e, q) ->
  exists tha' a',
    rnic_recv_iter cfg segs (S fuel) tha
      (arrive (tagged_frames (write_hdr resp) true (swr_remote_addr resp) (msg_pieces m [g]) ++ rest) r a) =
      Done (RecvNext tha' a') /\
    rn_mem a' = mem_write (rn_mem a) (swr_remote_addr resp) (msg_bytes m [g]) /\
    sees a' (with_cq (enqueue (rc_recv_thread (rn_ctx a)) (set_wce_byte_len 0 e) (v_cq va))
                     (with_pend q va)).
Proof.
  intros Hva Hda Ho Hlen Ha Hk Hs Hst Hq.
  destruct (recv_iter_tagged cfg segs fuel tha a da resp m [g] buf rest r) as (msg & Htag & Hr1 & E);
    try done; [repeat constructor; lia|cbn; lia|].
  match type of E with _ = recv_dispatch _ ?t _ ?s => set (th1 := t) in *; set (a1 := s) in * end.
  destruct (recv_read_resp_sees cfg th1 0 a1 va Hva (or_intror Htag)) as (th2 & h & E2 & V).
  exists th2, (set_rn_heap h a1); split_all.
  - rewrite E; unfold recv_dispatch, th1; cbn [rcv_msg set_rcv_msg]; rewrite Hr1, rdma_hdr_op, Ho.
    exact E2.
  - done.
  - rewrite Hq in V; exact V.
Qed.

(** The response object of the receive thread, as [rnic_recv] sets it up. *)
Definition resp_ok (th : recv_thread) : Prop :=
  swr_opcode (rcv_read_resp th) = RDMAP_RDMA_READ_RESP /\
  swr_sg_list (rcv_read_resp th) = rcv_sg th /\ swr_num_sge (rcv_read_resp th) = 1.

Lemma msg_bytes_one m g : msg_bytes m [g] = sge_bytes m g.
Proof. unfold msg_bytes; cbn; apply app_nil_r. Qed.

(** A read response names the receive thread's element. *)
Lemma read_resp_sges th f st gs :
  resp_ok th -> rn_sgs st !! rcv_sg th = Some gs ->
  req_sges st (read_resp_for f (rcv_read_resp th)) = take 1 gs.
Proof.
  intros (_ & Hp & Hn) Hs; unfold req_sges, sg_array; cbn [swr_sg_list swr_num_sge read_resp_for].
  by rewrite Hp, Hn, Hs.
Qed.

(** C1: RDMA Read, end to end, through four turns of four threads: the requester
    sends the read request, the responder's receive thread queues a response,
    its send thread sends it, the requester's receive thread takes it.  At the
    end the requester's buffer holds the bytes the responder had at the remote
    address, the read has moved from the pending queue to the completion queue
    under its own id, the responder's application has seen no completion, and
    the buffer the request arrived in is back in the responder's read queue. *)
Theorem rdma_read_end_to_end cfg junk segs fuel tha ra thb rb a b va vb da db req q g sink uq buf uq' :
  rping cfg = false ->
  sees a va -> rn_ddp a = Some da -> clean_tx a -> q_items (v_pend va) = [] ->
  sees b vb -> rn_ddp b = Some db -> clean_tx b -> q_items (v_sq vb) = [] -> queues_ok db ->
  try_dequeue (v_sq va) = Some (req, q) -> swr_opcode req = RDMAP_RDMA_READ_REQ ->
  swr_num_sge req = 1 -> req_sges a req = [g] -> wf_read_req (read_fields req g) ->
  0 < sge_length g < 2 ^ 31 -> 1 <= rn_msn_read a < 2 ^ 32 ->
  dc_queues db !! 1%nat = Some uq -> try_dequeue (ubq_q uq) = Some (buf, uq') ->
  resp_ok rb ->
  disjoint (swr_remote_addr req) (sge_length g) (ub_data buf) 28 ->
  (length (pieces (mem_read (rn_mem b) (swr_remote_addr req) (sge_length g))) <= segs)%nat ->
  ddp_check_stag da {| tm_rsvdULP1 := 0; tm_tag := sge_lkey g; tm_TO := sge_addr g |} = Some sink ->
  exists tha' a1 rb' b1 b2 ra' a2 v2 w2 e,
    rnic_send_iter junk tha a = Done (tha', a1) /\
    rnic_recv_iter cfg (S segs) (S fuel) rb (arrive (tx (rn_sock a1)) [] b) = Done (RecvNext rb' b1) /\
    rnic_send_iter junk thb b1 = Done (thb, b2) /\
    rnic_recv_iter cfg segs (S fuel) ra (arrive (tx (rn_sock b2)) [] a1) = Done (RecvNext ra' a2) /\
    mem_read (rn_mem a2) (sge_addr g) (sge_length g) =
      mem_read (rn_mem b) (swr_remote_addr req) (sge_length g) /\
    sees a2 v2 /\ q_items (v_pend v2) = [] /\ q_items (v_cq v2) ≡ₚ e :: q_items (v_cq va) /\
    wce_wr_id e = swr_wr_id req /\ wce_status e = WC_SUCCESS /\
    sees b2 w2 /\ v_cq w2 = v_cq vb /\ q_items (v_sq w2) = [] /\
    (exists db' uq2, rn_ddp b1 = Some db' /\ dc_queues db' !! 1%nat = Some uq2 /\
       q_items (ubq_q uq2) ≡ₚ q_items (ubq_q uq)).
Proof.
  intros Hrp Hva Hda Hta Hpe Hvb Hdb [Htb Hpb] Hsb Hqok Hq Ho Hn Hg Hwf Hlen Hmsn Huq Hbuf Hrr Hdis Hsegs Hsink.
  destruct (read_requester junk tha a va da req q g) as (tha' & a1 & E1 & V1 & Etx & Em & Ed & Ec); try done.
  destruct (read_responder_recv cfg junk segs fuel rb b vb db req g uq buf uq' [] [] Hrp Hvb Hdb Hqok Ho
    Hwf Huq Hbuf (rn_msn_read a) Hmsn) as (rb' & b1 & E2 & V2 & Em2 & Esg & Esk & db' & Ed2 & Eq2).
  rewrite app_nil_r in E2.
  set (f := read_fields req g) in *; set (resp := read_resp_for f (rcv_read_resp rb)) in *.
  destruct Hwf as (W1 & W2 & W3 & W4 & W5).
  destruct (try_dequeue_enqueue_empty (v_sq vb) (rc_recv_thread (rn_ctx b)) resp Hsb) as (q' & Hq' & Hi').
  set (gs := {| sge_addr := rf_src_TO f; sge_length := rf_rdma_rd_sz f; sge_lkey := rf_src_tag f |}) in *.
  assert (swr_opcode resp = RDMAP_RDMA_READ_RESP) as Hor by apply Hrr.
  assert (req_sges b1 resp = [gs]) as Hgs by (by apply (read_resp_sges rb f b1 [gs])).
  destruct (read_responder_send junk thb b1 _ db' resp q' gs V2 Ed2) as (b2 & E3 & V3 & Em3 & Etx3);
    [unfold clean_tx; by rewrite Esk|done|done|done|done|done|].
  assert (sge_bytes (rn_mem b1) gs = mem_read (rn_mem b) (swr_remote_addr req) (sge_length g)) as Hby.
  { unfold sge_bytes, gs; rewrite Em2; cbn [sge_addr sge_length f read_fields rf_src_TO rf_rdma_rd_sz].
    apply mem_read_write_disjoint; rewrite zlen_encode; done. }
  destruct (try_dequeue_enqueue_empty (v_pend va) (rc_send_thread (rn_ctx a)) (send_completion tha req 0) Hpe)
    as (qp & Hqp & Hip).
  destruct (read_requester_recv cfg segs fuel ra a1 _ da resp (rn_mem b1) gs sink
    (send_completion tha req 0) qp [] [] V1 Ed Hor) as (ra' & a2 & E4 & Em4 & V4); try done.
  { unfold msg_pieces; cbn [map concat]; by rewrite app_nil_r, Hby. }
  rewrite app_nil_r in E4; rewrite msg_bytes_one, Hby in Em4.
  eexists tha', a1, rb', b1, b2, ra', a2, _, _, _; split_all.
  - exact E1.
  - rewrite Etx; exact E2.
  - exact E3.
  - rewrite Etx3; exact E4.
  - rewrite Em4; change (swr_remote_addr resp) with (sge_addr g); apply mem_read_copied; lia.
  - exact V4.
  - done.
  - cbn [v_cq with_cq]; apply enqueue_items.
  - done.
  - done.
  - exact V3.
  - done.
  - done.
  - eexists _, _; split_all; [done|exact Eq2|]; cbn [ubq_q].
    by rewrite enqueue_bulk_items, (try_dequeue_items _ _ _ Hbuf).
Qed.

(** ** Concrete instances *)
Module TwoStreams.
Import Example.
Definition target : tagged_buffer :=
  {| tb_stag := {| st_tag := 0; st_pd := {| pd_id := 0 |} |}; tb_data := 0x5000; tb_len := 64;
     tb_access_ctrl := 0 |}.
Definition sink : tagged_buffer :=
  {| tb_stag := {| st_tag := 0; st_pd := {| pd_id := 0 |} |}; tb_data := 0x3000; tb_len := 64;
     tb_access_ctrl := 0 |}.
Definition ddp0 : ddp_stream_context := post_read_buffers 0 0 [0x1000; 0x2000] (ddp_init_stream 4 0).
Definition m : mem := mem_write ∅ 0x3000 (map Z_byte [1; 2; 3]).

(** The requester, with its own buffer registered for reads. *)
Definition a (op : rdma_opcode) : rnic :=
  set_rn_mem m (set_rn_ddp (Some (register_tagged_buffer ddp0 sink).2) (posted op)).
(** The responder, with a registered buffer and a posted receive. *)
Definition rbuf : untagged_buffer := {| ub_data := 0x6000; ub_len := 16; ub_next := 0 |}.
Definition bdb : ddp_stream_context :=
  ddp_post_recv 0 (register_tagged_buffer ddp0 target).2 SEND_QN [rbuf].
Definition rwr : recv_wr := {| rwr_wr_id := 55; rwr_sg_list := 64; rwr_num_sge := 1 |}.
Definition b : rnic :=
  match rq_enqueue 0 rwr (set_rn_mem (mem_write ∅ 0x5000 (map Z_byte [4; 5; 6]))
                            (set_rn_ddp (Some bdb) (fresh ∅ sgs))) with
  | Done st => st
  | _ => fresh ∅ sgs
  end.
Definition vb : view := with_rq [Producer 0 [rwr]] empty_view.

Lemma a_sees op : sees (a op) (posted_view op).
Proof. apply posted_sees. Qed.
Lemma b_sees : sees b vb.
Proof. do 3 eexists; split_all; reflexivity. Qed.
Lemma bdb_ok : queues_ok bdb.
Proof. split; [reflexivity|repeat constructor]. Qed.
Definition g : sge := {| sge_addr := 0x3000; sge_length := 3; sge_lkey := 0x3000 |}.
End TwoStreams.

Lemma rdma_write_end_to_end_witness :
  exists tha' a' thb',
    rnic_send_iter 0 Example.snd (TwoStreams.a RDMAP_RDMA_WRITE) = Done (tha', a') /\
    sees a' (with_cq [Producer 2 [send_completion Example.snd (Example.req 7 RDMAP_RDMA_WRITE) 0]]
               (with_sq [Producer 0 []] (Example.posted_view RDMAP_RDMA_WRITE))) /\
    rnic_recv_iter Example.debug 1 1 (Example.rcv 0 0) (arrive (tx (rn_sock a') ++ []) [] TwoStreams.b) =
      Done (RecvNext thb' (set_rn_mem
        (mem_write (rn_mem TwoStreams.b) 0x5000
           (msg_bytes TwoStreams.m (req_sges (TwoStreams.a RDMAP_RDMA_WRITE)
              (Example.req 7 RDMAP_RDMA_WRITE))))
        (arrive [] [] TwoStreams.b))).
Proof.
  apply (rdma_write_end_to_end Example.debug 0 1 0 Example.snd (Example.rcv 0 0)
    (TwoStreams.a RDMAP_RDMA_WRITE) TwoStreams.b (Example.posted_view RDMAP_RDMA_WRITE)
    (register_tagged_buffer TwoStreams.ddp0 TwoStreams.sink).2 TwoStreams.bdb
    (Example.req 7 RDMAP_RDMA_WRITE) [Producer 0 []] (with_stag TwoStreams.target) [] []).
  - apply TwoStreams.a_sees.
  - reflexivity.
  - split; reflexivity.
  - reflexivity.
  - vm_compute; reflexivity.
  - reflexivity.
  - repeat constructor; cbn; lia.
  - vm_compute; reflexivity.
  - vm_compute; lia.
  - split; cbn; lia.
  - split; cbn; lia.
  - vm_compute; reflexivity.
Defined.

Lemma rdma_send_end_to_end_witness :
  exists tha' a' thb' b' e,
    rnic_send_iter 0 Example.snd (TwoStreams.a RDMAP_SEND) = Done (tha', a') /\
    sees a' (with_cq [Producer 2 [send_completion Example.snd (Example.req 7 RDMAP_SEND) 0]]
               (with_sq [Producer 0 []] (Example.posted_view RDMAP_SEND))) /\
    rnic_recv_iter Example.debug 1 1 (Example.rcv 0 0) (arrive (tx (rn_sock a') ++ []) [] TwoStreams.b) =
      Done (RecvNext thb' b') /\
    rn_mem b' = mem_write (rn_mem TwoStreams.b) 0x6000 (sge_bytes TwoStreams.m TwoStreams.g) /\
    sees b' (with_cq [Producer 1 [e]] (with_rq [Producer 0 []] TwoStreams.vb)) /\
    wce_wr_id e = 55 /\ wce_status e = WC_SUCCESS /\ wce_opcode e = rdma_opcode_val RDMAP_SEND /\
    wce_byte_len e = 0.
Proof.
  apply (rdma_send_end_to_end Example.debug 0 0 0 Example.snd (Example.rcv 0 0)
    (TwoStreams.a RDMAP_SEND) TwoStreams.b (Example.posted_view RDMAP_SEND) TwoStreams.vb
    (register_tagged_buffer TwoStreams.ddp0 TwoStreams.sink).2 TwoStreams.bdb
    (Example.req 7 RDMAP_SEND) [Producer 0 []] TwoStreams.g TwoStreams.rwr [Producer 0 []]
    {| ubq_q := [Producer 0 [TwoStreams.rbuf]]; ubq_msn := 1 |} TwoStreams.rbuf [Producer 0 []] [] []).
  - apply TwoStreams.a_sees.
  - reflexivity.
  - split; reflexivity.
  - apply TwoStreams.b_sees.
  - reflexivity.
  - apply TwoStreams.bdb_ok.
  - vm_compute; reflexivity.
  - left; reflexivity.
  - vm_compute; reflexivity.
  - cbn [sge_length TwoStreams.g]; rewrite MULPDU_val; lia.
  - split; vm_compute; congruence.
  - vm_compute; reflexivity.
  - vm_compute; reflexivity.
  - vm_compute; reflexivity.
Defined.

Lemma rdma_read_end_to_end_witness :
  exists tha' a1 rb' b1 b2 ra' a2,
    rnic_send_iter 0 Example.snd (TwoStreams.a RDMAP_RDMA_READ_REQ) = Done (tha', a1) /\
    rnic_recv_iter Example.debug 2 1 (Example.rcv 0 0) (arrive (tx (rn_sock a1)) [] TwoStreams.b) =
      Done (RecvNext rb' b1) /\
    rnic_send_iter 0 Example.snd b1 = Done (Example.snd, b2) /\
    rnic_recv_iter Example.debug 1 1 (Example.rcv 0 0) (arrive (tx (rn_sock b2)) [] a1) =
      Done (RecvNext ra' a2) /\
    mem_read (rn_mem a2) 0x3000 3 = mem_read (rn_mem TwoStreams.b) 0x5000 3.
Proof.
  destruct (rdma_read_end_to_end Example.debug 0 1 0 Example.snd (Example.rcv 0 0) Example.snd
    (Example.rcv 0 0) (TwoStreams.a RDMAP_RDMA_READ_REQ) TwoStreams.b
    (Example.posted_view RDMAP_RDMA_READ_REQ) TwoStreams.vb
    (register_tagged_buffer TwoStreams.ddp0 TwoStreams.sink).2 TwoStreams.bdb
    (Example.req 7 RDMAP_RDMA_READ_REQ) [Producer 0 []] TwoStreams.g (with_stag TwoStreams.sink)
    {| ubq_q := [Producer 0 [{| ub_data := 0x1000; ub_len := 28; ub_next := 0 |};
                             {| ub_data := 0x2000; ub_len := 28; ub_next := 0 |}]]; ubq_msn := 1 |}
    {| ub_data := 0x1000; ub_len := 28; ub_next := 0 |}
    [Producer 0 [{| ub_data := 0x2000; ub_len := 28; ub_next := 0 |}]])
    as (tha' & a1 & rb' & b1 & b2 & ra' & a2 & v2 & w2 & e & E1 & E2 & E3 & E4 & Em & _).
  - reflexivity.
  - apply TwoStreams.a_sees.
  - reflexivity.
  - split; reflexivity.
  - reflexivity.
  - apply TwoStreams.b_sees.
  - reflexivity.
  - split; reflexivity.
  - reflexivity.
  - apply TwoStreams.bdb_ok.
  - vm_compute; reflexivity.
  - reflexivity.
  - reflexivity.
  - vm_compute; reflexivity.
  - repeat split; cbn; lia.
  - cbn; lia.
  - split; vm_compute; congruence.
  - vm_compute; reflexivity.
  - vm_compute; reflexivity.
  - repeat split.
  - intros i j Hi Hj; cbn [swr_remote_addr Example.req ub_data sge_length TwoStreams.g] in *.
    rewrite !wrap_small by (split; lia); lia.
  - vm_compute; lia.
  - vm_compute; reflexivity.
  - exists tha', a1, rb', b1, b2, ra', a2; split_all; [exact E1|exact E2|exact E3|exact E4|exact Em].
Defined.
