(* ===== verification/RdmapLife.v ===== *)
(** * RDMAP: set-up, posting and the corner cases of the two threads *)

From S2P Require Import Prelude Endian Wire Socket Mpa Memory CQueue Cq Ddp DdpSegment DdpRoundtrip DdpUntagged Rdmap RdmapView RdmapThreads RdmapEndToEnd.

(** ** Set-up *)

(** The items of queue [i] of a DDP context. *)
Definition queue_items (ddp : ddp_stream_context) (i : nat) : list untagged_buffer :=
  match dc_queues ddp !! i with Some u => q_items (ubq_q u) | None => [] end.

(** Queue [i] exists and only thread [t] has posted to it. *)
Definition posted_by (t : nat) (ddp : ddp_stream_context) (i : nat) : Prop :=
  exists u, dc_queues ddp !! i = Some u /\ only t (ubq_q u).

Lemma ddp_post_recv_items t ddp i bufs :
  (i < 3)%nat -> posted_by t ddp i ->
  posted_by t (ddp_post_recv t ddp (Z.of_nat i) bufs) i /\
  queue_items (ddp_post_recv t ddp (Z.of_nat i) bufs) i = queue_items ddp i ++ bufs /\
  forall j, j <> i -> dc_queues (ddp_post_recv t ddp (Z.of_nat i) bufs) !! j = dc_queues ddp !! j.
Proof.
  intros Hi (u & Hu & Ho); unfold ddp_post_recv, MAX_UNTAGGED_BUFFERS.
  destruct (Z.ltb_spec (Z.of_nat i) 0); [lia|]; destruct (Z.leb_spec 3 (Z.of_nat i)); [lia|].
  cbn [orb]; rewrite Nat2Z.id; destruct (only_enqueue_bulk t bufs (ubq_q u) Ho) as [Ho' Hi'].
  unfold posted_by, queue_items; cbn [dc_queues set_dc_queues].
  rewrite list_lookup_alter_eq, Hu; cbn [fmap option_fmap option_map ubq_q]; split_all.
  - eexists; split; [reflexivity|exact Ho'].
  - exact Hi'.
  - intros j Hj; by apply list_lookup_alter_ne.
Qed.

Definition read_buffer (junk p : Z) : untagged_buffer :=
  {| ub_data := p; ub_len := READ_REQ_SIZE; ub_next := junk |}.

Lemma post_read_buffers_items junk t ptrs ddp :
  posted_by t ddp 1 ->
  posted_by t (post_read_buffers junk t ptrs ddp) 1 /\
  queue_items (post_read_buffers junk t ptrs ddp) 1 = queue_items ddp 1 ++ map (read_buffer junk) ptrs /\
  forall j, j <> 1%nat -> dc_queues (post_read_buffers junk t ptrs ddp) !! j = dc_queues ddp !! j.
Proof.
  revert ddp; induction ptrs as [|p ptrs IH]; intros ddp Hp; cbn [post_read_buffers map].
  - by rewrite app_nil_r.
  - destruct (ddp_post_recv_items t ddp 1 [read_buffer junk p] ltac:(lia) Hp) as (H1 & H2 & H3).
    fold (read_buffer junk p); change (Z.of_nat 1) with READ_QN in *; destruct (IH _ H1) as (G1 & G2 & G3).
    split; [done|]; split; [by rewrite G2, H2, <- app_assoc|].
    intros j Hj; by rewrite G3, H3.
Qed.

(** [rdmap_init_stream] leaves a stream that is connected, on the
    application's two work queues, whose read queue holds one 28-byte buffer per
    allowed pending read request, in the order they were allocated, whose send
    and terminate queues are empty and expect sequence number 1, and which has
    no tagged buffer; it reports failure when either thread cannot be started. *)
Theorem rdmap_init_stream_ok junk t attr ptrs tids rc heap sgs m s msns :
  length ptrs = Z.to_nat (ria_max_pending_read_requests attr) ->
  let '(ok, st) := rdmap_init_stream junk t attr ptrs tids rc heap sgs m s msns in
  (ok = true <-> rc.1 = 0 /\ rc.2 = 0) /\
  rc_connected (rn_ctx st) = 1 /\ rc_send_q (rn_ctx st) = ria_send_q attr /\
  rc_recv_q (rn_ctx st) = ria_recv_q attr /\
  exists ddp, rn_ddp st = Some ddp /\ queue_items ddp 1 = map (read_buffer junk) ptrs /\
    queue_items ddp 0 = [] /\ queue_items ddp 2 = [] /\ dc_tagged_buffers ddp = ∅ /\
    (forall i, (i < 3)%nat -> i <> 1%nat -> dc_queues ddp !! i = Some {| ubq_q := cq_new; ubq_msn := 1 |}).
Proof.
  intros Hlen; unfold rdmap_init_stream; split_all.
  - cbn; rewrite andb_true_iff, !Z.eqb_eq; done.
  - done.
  - done.
  - done.
  - rewrite take_ge by lia; eexists; split; [reflexivity|].
    destruct (post_read_buffers_items junk t ptrs (ddp_init_stream (ria_sockfd attr) (ria_pd attr)))
      as (_ & H1 & H2); [eexists; split; [reflexivity|by left]|].
    split_all.
    + exact H1.
    + unfold queue_items; rewrite H2 by done; done.
    + unfold queue_items; rewrite H2 by done; done.
    + by rewrite post_read_buffers_tagged.
    + intros i Hi Hne; rewrite H2 by done; destruct i as [|[|[|i]]]; done || lia.
Qed.

Lemma rdmap_init_stream_ok_witness :
  let '(ok, st) := rdmap_init_stream 0 0 Example.stream_attr [0x1000; 0x2000] (1%nat, 2%nat) (0, 0)
                     Example.heap ∅ ∅ Example.sk (1, 1, 1) in
  (ok = true <-> 0 = 0 /\ 0 = 0) /\
  rc_connected (rn_ctx st) = 1 /\ rc_send_q (rn_ctx st) = 2 /\ rc_recv_q (rn_ctx st) = 3 /\
  exists ddp, rn_ddp st = Some ddp /\ queue_items ddp 1 = map (read_buffer 0) [0x1000; 0x2000] /\
    queue_items ddp 0 = [] /\ queue_items ddp 2 = [] /\ dc_tagged_buffers ddp = ∅ /\
    (forall i, (i < 3)%nat -> i <> 1%nat -> dc_queues ddp !! i = Some {| ubq_q := cq_new; ubq_msn := 1 |}).
Proof.
  apply (rdmap_init_stream_ok 0 0 Example.stream_attr [0x1000; 0x2000] (1%nat, 2%nat) (0, 0)
    Example.heap ∅ ∅ Example.sk (1, 1, 1)); reflexivity.
Defined.

(** ** Posting *)

(** [rdma_post_recv] returns 0, queues one buffer per element on queue 0, in
    order, with the element's address and length, and the request itself once
    on the receive queue; the other queues are untouched. *)
Theorem rdma_post_recv_spec junk t wr st v ddp :
  sees st v -> rn_ddp st = Some ddp -> posted_by t ddp 0 ->
  exists st' ddp', rdma_post_recv junk t wr st = Done (0, st') /\
    sees st' (with_rq (enqueue t wr (v_rq v)) v) /\ rn_ddp st' = Some ddp' /\
    queue_items ddp' 0 = queue_items ddp 0 ++
      map (fun g => {| ub_data := sge_addr g; ub_len := sge_length g; ub_next := junk |})
        (sg_array st (rwr_sg_list wr) (rwr_num_sge wr)) /\
    forall j, j <> 0%nat -> dc_queues ddp' !! j = dc_queues ddp !! j.
Proof.
  intros Hv Hd Hp; unfold rdma_post_recv, rdma_post_bufs; rewrite Hd; cbn [deref]; rewrite !bind_Done; cbv zeta.
  destruct (ddp_post_recv_items t ddp 0 (recv_bufs junk (sg_array st (rwr_sg_list wr) (rwr_num_sge wr)))
    ltac:(lia) Hp) as (_ & H1 & H2); change (Z.of_nat 0) with SEND_QN in *.
  match goal with |- context [rq_enqueue _ _ ?s] => destruct (rq_enqueue_sees s v Hv t wr) as (h & E & V) end.
  eexists _, _; rewrite E; split; [reflexivity|]; split; [exact V|]; split; [reflexivity|done].
Qed.

Lemma rdma_post_recv_spec_witness :
  exists st' ddp',
    rdma_post_recv 0 0 TwoStreams.rwr (Example.fresh ∅ Example.sgs) = Done (0, st') /\
    sees st' (with_rq [Producer 0 [TwoStreams.rwr]] Example.empty_view) /\ rn_ddp st' = Some ddp' /\
    queue_items ddp' 0 = [] ++ map (fun g => {| ub_data := sge_addr g; ub_len := sge_length g; ub_next := 0 |})
        (sg_array (Example.fresh ∅ Example.sgs) 64 1) /\
    forall j, j <> 0%nat -> dc_queues ddp' !! j = dc_queues TwoStreams.ddp0 !! j.
Proof.
  apply (rdma_post_recv_spec 0 0 TwoStreams.rwr (Example.fresh ∅ Example.sgs) Example.empty_view
    TwoStreams.ddp0).
  - apply Example.fresh_sees.
  - reflexivity.
  - eexists; split; [reflexivity|by left].
Defined.

(** ** Read responses share one element *)
Definition sge_of (f : rdmap_read_req_fields) : sge :=
  {| sge_addr := rf_src_TO f; sge_length := rf_rdma_rd_sz f; sge_lkey := rf_src_tag f |}.

Lemma recv_read_req_effect cfg th st v ddp :
  rping cfg = false -> sees st v -> rn_ddp st = Some ddp -> msg_is_tagged (rcv_msg th) = false ->
  let f := recv_fields cfg th (rn_mem st) in
  let resp := read_resp_for f (rcv_read_resp th) in
  exists st', recv_read_req cfg th st = Done (RecvNext (set_rcv_read_resp (bump_wr_id resp) th) st') /\
    sees st' (with_sq (enqueue (rc_recv_thread (rn_ctx st)) resp (v_sq v)) v) /\
    rn_sgs st' = <[rcv_sg th := [sge_of f]]> (rn_sgs st) /\ rn_ddp st' <> None /\
    rn_ctx st' = rn_ctx st.
Proof.
  intros Hrp Hv Hd Ht f resp; unfold recv_read_req; fold (recv_fields cfg th (rn_mem st)).
  rewrite Ht, assert_ok, bind_Done, Hrp by (by right); cbv zeta; fold f; fold resp.
  match goal with |- context [sq_enqueue ?t ?x ?s] => destruct (sq_enqueue_sees s v Hv t x) as (h & E & V) end.
  rewrite E, bind_Done; cbn [rn_ddp set_rn_heap set_rn_sgs]; rewrite Hd; cbn [deref]; rewrite bind_Done.
  eexists; split; [reflexivity|]; split; [exact V|done].
Qed.

(** All queued read responses point to the receive thread's single [sg]: if a
    second read request is handled before the first response has been sent,
    both responses now read the second request's source, while the first one is
    still addressed to the first request's sink. *)
Theorem read_responses_share_element cfg th st v ddp msg2 m2 :
  rping cfg = false -> sees st v -> rn_ddp st = Some ddp -> resp_ok th ->
  msg_is_tagged (rcv_msg th) = false -> msg_is_tagged msg2 = false ->
  let f1 := recv_fields cfg th (rn_mem st) in
  let f2 := recv_fields cfg (set_rcv_msg msg2 th) m2 in
  exists th1 st1 th2 st2 resp1 resp2,
    recv_read_req cfg th st = Done (RecvNext th1 st1) /\
    recv_read_req cfg (set_rcv_msg msg2 th1) (set_rn_mem m2 st1) = Done (RecvNext th2 st2) /\
    sees st2 (with_sq (enqueue (rc_recv_thread (rn_ctx st)) resp2
                        (enqueue (rc_recv_thread (rn_ctx st)) resp1 (v_sq v))) v) /\
    swr_remote_addr resp1 = rf_sink_TO f1 /\ swr_remote_addr resp2 = rf_sink_TO f2 /\
    req_sges st2 resp1 = [sge_of f2] /\ req_sges st2 resp2 = [sge_of f2].
Proof.
  intros Hrp Hv Hd (R1 & R2 & R3) Ht1 Ht2 f1 f2.
  destruct (recv_read_req_effect cfg th st v ddp Hrp Hv Hd Ht1) as (st1 & E1 & V1 & S1 & D1 & C1).
  destruct (rn_ddp st1) as [ddp1|] eqn:Hd1; [|done].
  fold f1 in E1, V1, S1; set (resp1 := read_resp_for f1 (rcv_read_resp th)) in *.
  destruct (recv_read_req_effect cfg (set_rcv_msg msg2 (set_rcv_read_resp (bump_wr_id resp1) th))
    (set_rn_mem m2 st1) _ ddp1 Hrp V1 Hd1 Ht2) as (st2 & E2 & V2 & S2 & _).
  change (recv_fields cfg _ (rn_mem (set_rn_mem m2 st1))) with f2 in E2, V2, S2.
  eexists _, st1, _, st2, resp1, _; split; [exact E1|]; split; [exact E2|].
  cbn [rn_ctx set_rn_mem] in V2; rewrite C1 in V2; split; [exact V2|]; split; [done|]; split; [done|].
  unfold req_sges, sg_array; rewrite S2; cbn [swr_sg_list swr_num_sge resp1 read_resp_for bump_wr_id
    rcv_read_resp set_rcv_msg set_rcv_read_resp rcv_sg]; rewrite R2, R3, lookup_insert_eq; done.
Qed.

Lemma read_responses_share_element_witness :
  let m2 := mem_write ∅ 0x1000 (encode (read_fields (Example.req 1 RDMAP_SEND) TwoStreams.g)) in
  let f1 := recv_fields Example.debug (Example.rcv 0x41 1) ∅ in
  let f2 := recv_fields Example.debug (set_rcv_msg (Example.msg 0x41 1) (Example.rcv 0x41 1)) m2 in
  (rf_src_TO f1 = 0 /\ rf_src_TO f2 = 0x5000) /\
  exists th1 st1 th2 st2 resp1 resp2,
    recv_read_req Example.debug (Example.rcv 0x41 1) (Example.fresh ∅ ∅) = Done (RecvNext th1 st1) /\
    recv_read_req Example.debug (set_rcv_msg (Example.msg 0x41 1) th1) (set_rn_mem m2 st1)
      = Done (RecvNext th2 st2) /\
    sees st2 (with_sq (enqueue 1 resp2 (enqueue 1 resp1 [])) Example.empty_view) /\
    swr_remote_addr resp1 = rf_sink_TO f1 /\ swr_remote_addr resp2 = rf_sink_TO f2 /\
    req_sges st2 resp1 = [sge_of f2] /\ req_sges st2 resp2 = [sge_of f2].
Proof.
  intros m2 f1 f2; split; [vm_compute; split; reflexivity|].
  apply (read_responses_share_element Example.debug (Example.rcv 0x41 1) (Example.fresh ∅ ∅)
    Example.empty_view TwoStreams.ddp0 (Example.msg 0x41 1) m2).
  - reflexivity.
  - apply Example.fresh_sees.
  - reflexivity.
  - repeat split.
  - reflexivity.
  - reflexivity.
Defined.

(** ** A response that overtakes its completion *)

(** C38: The send thread files the pending completion of a read only after the request
    is on the wire.  If the response, a tagged message, is handled in between and no
    other read is pending, the receive thread drops it and goes on with nothing
    changed; the completion filed afterwards stays in the pending queue, and the
    completion queue gets nothing. *)
Theorem read_response_before_pending cfg th snd st v req :
  sees st v -> q_items (v_pend v) = [] -> msg_is_tagged (rcv_msg th) = true ->
  rdma_opcode_of_Z (msg_op th) = Some RDMAP_RDMA_READ_RESP ->
  swr_opcode req = RDMAP_RDMA_READ_REQ ->
  exists snd' st' v',
    recv_dispatch cfg th 0 st = Done (RecvNext th st) /\
    rnic_send_complete snd req (Some 0) st = Done (snd', st') /\
    sees st' v' /\ v_cq v' = v_cq v /\ q_items (v_pend v') = [send_completion snd req 0].
Proof.
  intros Hv Hp Ht Ho Hr.
  destruct (rnic_send_complete_sees snd req (Some 0) st v Hv) as (snd' & h & E & V & _).
  eexists snd', _, _; split; [|split; [exact E|split; [exact V|]]].
  - unfold recv_dispatch; fold (msg_op th); rewrite Ho; unfold recv_read_resp.
    rewrite assert_ok, bind_Done by (by right).
    pose proof (pending_try_dequeue_sees st v Hv) as Hq; pose proof (try_dequeue_cases (v_pend v)) as Hc.
    destruct (try_dequeue (v_pend v)) as [[e q]|]; [|by rewrite Hq].
    destruct Hc as (q1 & t & l & q2 & Eq & _); rewrite Eq, q_items_app, q_items_cons in Hp.
    by apply app_eq_nil in Hp as [_ [? _]%app_eq_nil].
  - unfold complete_spec; rewrite Hr; change (0 <? 0) with false; cbv iota zeta; split; [done|].
    cbn [v_pend with_pend]; apply Permutation_singleton_r.
    rewrite enqueue_items, Hp; done.
Qed.

Lemma read_response_before_pending_witness :
  let th := rnic_recv_start {| dm_bits := 0xC1; dm_meta := TaggedMeta {| tm_rsvdULP1 := 66; tm_tag := 0;
                tm_TO := 0 |}; dm_buf := TagBuf TwoStreams.sink; dm_len := 3 |}
              Example.wce0 (Example.req 0 RDMAP_SEND) 0x8000 in
  exists snd' st' v',
    recv_dispatch Example.debug th 0 (Example.fresh ∅ ∅) = Done (RecvNext th (Example.fresh ∅ ∅)) /\
    rnic_send_complete Example.snd (Example.req 7 RDMAP_RDMA_READ_REQ) (Some 0) (Example.fresh ∅ ∅)
      = Done (snd', st') /\
    sees st' v' /\ v_cq v' = [] /\
    q_items (v_pend v') = [send_completion Example.snd (Example.req 7 RDMAP_RDMA_READ_REQ) 0].
Proof.
  intros th; apply (read_response_before_pending Example.debug th Example.snd (Example.fresh ∅ ∅)
    Example.empty_view (Example.req 7 RDMAP_RDMA_READ_REQ)); try reflexivity.
  apply Example.fresh_sees.
Defined.

(** ** Send with invalidate *)

(** The receiver of a Send with Invalidate reads the tag to invalidate from
    the byte that holds the RDMAP control field: with a header built by
    [rnic_send] that is 0x44 or 0x46, whatever key was to be invalidated.
    Unless a buffer happens to be registered under that number, the receive
    thread ends, the registry keeps the key, and no receive is completed. *)
Theorem send_inval_reads_control_byte cfg th ret st v ddp req :
  sees st v -> rn_ddp st = Some ddp -> meta_rsvdULP1 (dm_meta (rcv_msg th)) = rdma_hdr req ->
  (swr_opcode req = RDMAP_SEND_INVAL \/ swr_opcode req = RDMAP_SEND_SE_INVAL) ->
  dc_tagged_buffers ddp !! 0x44 = None -> dc_tagged_buffers ddp !! 0x46 = None ->
  exists st' ddp', recv_dispatch cfg th ret st = Done (RecvExit st') /\ sees st' v /\
    rn_ddp st' = Some ddp' /\
    dc_tagged_buffers ddp' !! swr_invalidate_rkey req = dc_tagged_buffers ddp !! swr_invalidate_rkey req.
Proof.
  intros Hv Hd Hm Ho H1 H2.
  assert (dc_tagged_buffers ddp !! rdma_hdr req = None) as Hn.
  { unfold rdma_hdr; destruct Ho as [-> | ->]; [exact H1|exact H2]. }
  assert (recv_dispatch cfg th ret st = recv_send_inval cfg th (msg_op th) ret st) as ->.
  { unfold recv_dispatch; fold (msg_op th); unfold msg_op; rewrite Hm, rdma_hdr_op.
    by destruct Ho as [-> | ->]. }
  unfold recv_send_inval, rdma_invalidate; rewrite Hd, Hm; cbn [deref]; rewrite bind_Done.
  cbn [deregister_tagged_buffer st_tag]; rewrite Hn, bind_Done; cbn [Z.leb].
  change (0 <=? 0) with true; cbv iota.
  eexists _, _; split; [reflexivity|]; split; [exact Hv|]; split; [reflexivity|].
  cbn [dc_tagged_buffers set_dc_tagged]; by rewrite delete_id.
Qed.

Lemma send_inval_reads_control_byte_witness :
  exists st' ddp',
    recv_dispatch Example.debug (Example.rcv 0x41 4) 0 (TwoStreams.a RDMAP_SEND) = Done (RecvExit st') /\
    sees st' (Example.posted_view RDMAP_SEND) /\ rn_ddp st' = Some ddp' /\
    dc_tagged_buffers ddp' !! 0 =
      dc_tagged_buffers (register_tagged_buffer TwoStreams.ddp0 TwoStreams.sink).2 !! 0.
Proof.
  apply (send_inval_reads_control_byte Example.debug (Example.rcv 0x41 4) 0 (TwoStreams.a RDMAP_SEND)
    (Example.posted_view RDMAP_SEND) (register_tagged_buffer TwoStreams.ddp0 TwoStreams.sink).2
    (Example.req 7 RDMAP_SEND_INVAL)).
  - apply TwoStreams.a_sees.
  - reflexivity.
  - reflexivity.
  - by left.
  - vm_compute; reflexivity.
  - vm_compute; reflexivity.
Defined.

(** ** Tear-down *)

(** [rdmap_kill_stream] deletes the DDP context while [connected] still lets
    both threads go round: between its two halves the receive thread's next
    turn, and the send thread's next turn with a send or a write to do, use the
    deleted context. *)
Theorem rdmap_kill_stream_use_after_free cfg junk segs fuel rth sth st v req q :
  sees st v -> rc_connected (rn_ctx st) = 1 -> try_dequeue (v_sq v) = Some (req, q) ->
  (swr_opcode req = RDMAP_SEND \/ swr_opcode req = RDMAP_RDMA_WRITE) ->
  let st' := ddp_kill_stream st in
  rc_connected (rn_ctx st') = 1 /\ rnic_recv_iter cfg segs fuel rth st' = Undefined /\
  rnic_send_iter junk sth st' = Undefined /\ rdmap_kill_stream st = set_connected 0 st'.
Proof.
  intros Hv Hc Hq Ho st'; split_all; [done|done| |done].
  assert (sees st' v) as Hv' by exact Hv.
  unfold rnic_send_iter; pose proof (sq_try_dequeue_sees st' v Hv') as Hd; rewrite Hq in Hd.
  destruct Hd as (h & -> & _); rewrite bind_Done; unfold rnic_send_wire.
  by destruct Ho as [-> | ->].
Qed.

Lemma rdmap_kill_stream_use_after_free_witness :
  let st' := ddp_kill_stream (Example.posted RDMAP_SEND) in
  rc_connected (rn_ctx st') = 1 /\
  rnic_recv_iter Example.debug 1 1 (Example.rcv 0 0) st' = Undefined /\
  rnic_send_iter 0 Example.snd st' = Undefined /\
  rdmap_kill_stream (Example.posted RDMAP_SEND) = set_connected 0 st'.
Proof.
  apply (rdmap_kill_stream_use_after_free Example.debug 0 1 1 (Example.rcv 0 0) Example.snd
    (Example.posted RDMAP_SEND) (Example.posted_view RDMAP_SEND) (Example.req 7 RDMAP_SEND)
    [Producer 0 []]).
  - apply Example.posted_sees.
  - reflexivity.
  - vm_compute; reflexivity.
  - by left.
Defined.
