(* ===== verification/StreamSetup.v ===== *)
(** * How the applications set up a stream ([perftest/perftest.cpp],
      [fake_ping_client.cpp])

    Both programs create a completion queue, a send queue and a receive queue on
    it, start the stream, write its address into the three objects and register
    one buffer with it. *)

From S2P Require Import Prelude Endian Wire Socket Mpa Memory CQueue Cq Ddp Rdmap RdmapView.

(** The addresses of the completion queue, the two work queues and the stream
    context. *)
Definition addresses : Type := Z * Z * Z * Z.

(** Uninitialised values, what [create_wq] does not set, and the address of the
    protection domain. *)
Section setup.
Variables (junk : Z) (junk_wq : wq) (pd : Z).

Definition app_wq_attr (ty : wq_type) (n cq : Z) : wq_init_attr :=
  {| wia_wq_context := junk; wia_wq_type := ty; wia_max_wr := n; wia_max_sge := n;
     wia_pd := pd; wia_cq := cq; wia_comp_mask := junk |}.

(** The completion queue, the send queue and the receive queue. *)
Definition app_queues (a : addresses) (n : Z) (h : qheap) : Z * Z * Z * qheap :=
  let '(cq, sq, rq, _) := a in
  let '(cq, h) := create_cq cq 0 n h in
  let '(sq, h) := create_wq sq 0 (app_wq_attr WQT_SQ n cq) junk_wq h in
  let '(rq, h) := create_wq rq 0 (app_wq_attr WQT_RQ n cq) junk_wq h in
  (cq, sq, rq, h).

(** [cq->ctx = ctx; sq->context = ctx; rq->context = ctx;] *)
Definition set_contexts (ctx cq sq rq : Z) (h : qheap) : qheap :=
  let set_cq c := {| cq_ctx := ctx; cq_q := cq_q c; cq_pending_q := cq_pending_q c |} in
  let set_wq w :=
    {| wq_context := ctx; wq_pd := wq_pd w; wq_cq := wq_cq w; wq_wq_num := wq_wq_num w;
       wq_handle := wq_handle w; wq_st := wq_st w; wq_wq_type := wq_wq_type w;
       wq_queue_of := wq_queue_of w; wq_events_completed := wq_events_completed w;
       wq_comp_mask := wq_comp_mask w |} in
  set_wqs (alter set_wq rq) (set_wqs (alter set_wq sq) (set_cqs (alter set_cq cq) h)).

(** What the system answers while the stream starts: the addresses of the read
    buffers, the threads' identities, the results of [pthread_create], and what the
    two threads, which run from then on, do before the buffer is registered. *)
Record os_stream := {
  or_ptrs : list Z; or_tids : nat * nat; or_rc : Z * Z; or_turns : rnic -> rnic }.

(** [rdmap_init_stream], the three pointers, and [register_tagged_buffer] of the
    [len] bytes at [buf]; a stream that could not be started is dereferenced.  The
    attribute's protection domain is not initialised.  The result is the tag. *)
Definition app_stream (t : nat) (os : os_stream) (ctx n buf len : Z) (queues : Z * Z * Z * qheap)
    (m : mem) (s : sock) (msns : Z * Z * Z) (sockfd : Z) : run (Z * rnic) :=
  let '(cq, sq, rq, h) := queues in
  let attr := {| ria_sockfd := sockfd; ria_pd := junk; ria_send_q := sq; ria_recv_q := rq;
                 ria_max_pending_read_requests := n |} in
  let '(ok, st) := rdmap_init_stream junk t attr (or_ptrs os) (or_tids os) (or_rc os) h ∅ m s msns in
  if negb ok then Undefined
  else
    let st := or_turns os (set_rn_heap (set_contexts ctx cq sq rq (rn_heap st)) st) in
    '(_, tg_buf, st) ← rdma_register {| tb_stag := {| st_tag := junk; st_pd := {| pd_id := junk |} |};
        tb_data := buf; tb_len := u64 len; tb_access_ctrl := junk |} st;
    mret (st_tag (tb_stag tg_buf), st).

(** The queues of an application are there. *)
Definition queues_allocated (a : addresses) (h : qheap) : Prop :=
  let '(cq, sq, rq, _) := a in
  is_Some (cqs h !! cq) /\ is_Some (wqs h !! sq) /\ is_Some (wqs h !! rq).

Lemma app_queues_allocated a n h : queues_allocated a (app_queues a n h).2.
Proof.
  unfold queues_allocated, app_queues; destruct a as [[[cq sq] rq] ctx]; cbn.
  split; [by rewrite lookup_insert_eq|]; split; [|by rewrite lookup_insert_eq].
  by destruct (decide (rq = sq)) as [->|]; [rewrite lookup_insert_eq|rewrite lookup_insert_ne, lookup_insert_eq].
Qed.

(** The stream an application gets, when its threads start and have not yet taken a
    turn: connected, on four empty queues, with the buffer registered under the low 32
    bits of its address; nothing else is registered. *)
Theorem app_stream_ok t os cq sq rq ctx n buf len h m s msns sockfd :
  or_rc os = (0, 0) -> (forall st, or_turns os st = st) -> sq <> rq ->
  exists st ddp tb,
    app_stream t os ctx n buf len (app_queues (cq, sq, rq, ctx) n h) m s msns sockfd = Done (u32 buf, st) /\
    rc_connected (rn_ctx st) = 1 /\
    sees st {| v_sq := cq_new; v_rq := cq_new; v_cq := cq_new; v_pend := cq_new |} /\
    rn_mem st = m /\ rn_sock st = s /\ rn_sgs st = ∅ /\ rn_ddp st = Some ddp /\
    dc_tagged_buffers ddp = {[ u32 buf := tb ]} /\ st_tag (tb_stag tb) = u32 buf /\
    tb_data tb = buf /\ tb_len tb = u64 len.
Proof.
  intros Hrc Htu Hne; unfold app_stream, app_queues, rdmap_init_stream; rewrite Hrc.
  cbn [create_cq create_wq fst snd Z.eqb andb negb].
  set (ptrs := take _ _).
  set (ddp := post_read_buffers _ _ _ _).
  assert (dc_tagged_buffers ddp = ∅) as Ht by apply post_read_buffers_tagged.
  rewrite Htu; unfold rdma_register; cbn [rn_ddp set_rn_heap deref]; rewrite bind_Done.
  cbn [register_tagged_buffer]; unfold mret, run_ret; rewrite bind_Done.
  eexists _, _, _; split; [reflexivity|]; split; [done|]; split.
  - unfold sees, has_view; cbn.
    rewrite !lookup_alter_ne, lookup_alter_eq, lookup_insert_ne, lookup_insert_eq by done.
    do 3 eexists; split; [reflexivity|]; split; [reflexivity|].
    rewrite lookup_alter_eq, lookup_alter_ne, lookup_insert_eq by done.
    split; [reflexivity|]; split; [reflexivity|]; cbn.
    by rewrite lookup_alter_eq, lookup_insert_eq.
  - split; [done|]; split; [done|]; split; [done|]; split; [reflexivity|].
    unfold set_dc_tagged; cbn [dc_tagged_buffers tb_stag st_tag tb_data]; rewrite Ht.
    split; [reflexivity|done].
Qed.
End setup.
