(* ===== verification/Verbs.v ===== *)
(** * The libibverbs interposition ([libibverbs/verbs.cpp], the device part of
      [libsuiw/softuiwarp.cpp], and the types they use of [libibverbs/verbs.h])

    The library is loaded in place of libibverbs.  It adds one software device
    to the list the real library returns, serves that device itself and hands
    every other device to the real library, whose entry points it looks up when
    it is loaded.  The real library is not part of the repository: its functions
    are variables of the sections below. *)

From stdpp Require Import strings.
From S2P Require Import Prelude Endian.

(** ** Devices ([verbs.h]) *)
Inductive ibv_transport_type :=
| IBV_TRANSPORT_UNKNOWN | IBV_TRANSPORT_IB | IBV_TRANSPORT_IWARP | IBV_TRANSPORT_USNIC
| IBV_TRANSPORT_USNIC_UDP.
Definition ibv_transport_type_val (t : ibv_transport_type) : Z :=
  match t with
  | IBV_TRANSPORT_UNKNOWN => -1 | IBV_TRANSPORT_IB => 0 | IBV_TRANSPORT_IWARP => 1
  | IBV_TRANSPORT_USNIC => 2 | IBV_TRANSPORT_USNIC_UDP => 3
  end.

(** [_ops] holds two function pointers; [memset] leaves 0 in [node_type], which
    is not a constant of [ibv_node_type], so the member is an integer. *)
Record ibv_device := {
  dv_ops : Z * Z; dv_node_type : Z; dv_transport_type : Z; dv_name : string;
  dv_dev_name : string; dv_dev_path : string; dv_ibdev_path : string }.

(** ** The C heap: one cell per allocated block *)
Inductive cell :=
| CDevice (d : ibv_device)      (* a [struct ibv_device] *)
| CArray (ps : list Z)          (* an array of pointers *)
| CContext (device : Z).        (* a zeroed [struct ibv_context] with its [device] *)

Record heap := { h_next : Z; h_cells : gmap Z cell }.

(** [malloc] (and what the caller then stores in the block): an address that
    designates nothing yet. *)
Definition malloc (c : cell) (h : heap) : Z * heap :=
  (h_next h, {| h_next := h_next h + 1; h_cells := <[h_next h := c]> (h_cells h) |}).

(** [free]: [NULL] is ignored; anything that is not a live block is undefined. *)
Definition free (p : Z) (h : heap) : run heap :=
  if p =? 0 then Done h
  else match h_cells h !! p with
       | Some _ => Done {| h_next := h_next h; h_cells := delete p (h_cells h) |}
       | None => Undefined
       end.

Definition the_device (p : Z) (h : heap) : run ibv_device :=
  match h_cells h !! p with Some (CDevice d) => Done d | _ => Undefined end.
Definition the_array (p : Z) (h : heap) : run (list Z) :=
  match h_cells h !! p with Some (CArray l) => Done l | _ => Undefined end.
Definition the_context (p : Z) (h : heap) : run Z :=
  match h_cells h !! p with Some (CContext d) => Done d | _ => Undefined end.

(** ** The software device ([softuiwarp.cpp]) *)
Definition kernel_dev_name : string := "enp94s0f0".
Definition dev_name : string := "softuiwarp0".
Definition dev_path : string := "/dev/zero".
Definition ibdev_path : string := "/dev/zero".
Definition dev_guid : Z := 0xdeadbeef.

Definition suiw_device : ibv_device :=
  {| dv_ops := (0, 0); dv_node_type := 0;
     dv_transport_type := ibv_transport_type_val IBV_TRANSPORT_IWARP;
     dv_name := kernel_dev_name; dv_dev_name := dev_name; dv_dev_path := dev_path;
     dv_ibdev_path := ibdev_path |}.

Definition create_suiw_device (h : heap) : Z * heap := malloc (CDevice suiw_device) h.

(** A copy of the device that the constructor left at [suiw_ibv_device]. *)
Definition suiw_get_ibv_device (suiw_ibv_device : Z) (h : heap) : run (Z * heap) :=
  d ← the_device suiw_ibv_device h; mret (malloc (CDevice d) h).

Definition suiw_is_device_softuiwarp (device : Z) (h : heap) : run bool :=
  if device =? 0 then mret false
  else d ← the_device device h; mret (bool_decide (dv_dev_name d = dev_name)).

Definition suiw_open_device (device : Z) (h : heap) : Z * heap :=
  if device =? 0 then (0, h) else malloc (CContext device) h.

Definition suiw_close_device (context : Z) (h : heap) : run (Z * heap) :=
  if context =? 0 then mret (0, h) else h ← free context h; mret (0, h).

(** [htobe64(dev_guid)]. *)
Definition suiw_get_device_guid : Z := swap 8 dev_guid.
Definition suiw_query_device : Z := -1.

(** ** The device list ([verbs.cpp]) *)

(** [while (list[i]) free(list[i++]);] then the array itself. *)
Fixpoint free_devices (ps : list Z) (h : heap) : run heap :=
  match ps with
  | [] => Undefined
  | p :: ps => if p =? 0 then Done h else h ← free p h; free_devices ps h
  end.
Definition ibv_free_device_list (list : Z) (h : heap) : run heap :=
  ps ← the_array list h; h ← free_devices ps h; free list h.

(** [for (i = 0; i < num; i++)]: a copy of every device of the real list. *)
Fixpoint copy_devices (n i : nat) (device_list : list Z) (h : heap) : run (list Z * heap) :=
  match n with
  | O => mret ([], h)
  | S n =>
      p ← deref (device_list !! i);
      d ← the_device p h;
      let '(dev, h) := malloc (CDevice d) h in
      '(devs, h) ← copy_devices n (S i) device_list h;
      mret (dev :: devs, h)
  end.

Section ibv_get_device_list.
(** What the real [ibv_get_device_list] returns: the pointer, the number it
    stores through its argument and the heap it leaves. *)
Variable real_get_device_list : heap -> Z * Z * heap.

(** The result is the array, and what is stored through [num_devices] when it
    is not [NULL]. *)
Definition ibv_get_device_list (suiw_ibv_device : Z) (num_devices : bool) (h : heap)
  : run (Z * option Z * heap) :=
  let '(device_list, num, h) := real_get_device_list h in
  let '(result, h) := malloc (CArray []) h in
  devices ← (if 0 <? num then the_array device_list h else mret []);
  '(devs, h) ← copy_devices (Z.to_nat num) 0 devices h;
  '(dev, h) ← suiw_get_ibv_device suiw_ibv_device h;
  let h := {| h_next := h_next h; h_cells := <[result := CArray (devs ++ [dev; 0])]> (h_cells h) |} in
  h ← ibv_free_device_list device_list h;
  mret (result, if num_devices then Some (num + 1) else None, h).
End ibv_get_device_list.

(** ** Dispatch between the software device and the real library *)
Section dispatch.
Variable real_get_device_name : Z -> heap -> run string.
Variable real_get_device_guid : Z -> heap -> run Z.
Variable real_open_device : Z -> heap -> run (Z * heap).
Variable real_close_device : Z -> heap -> run (Z * heap).
Variable real_query_device : Z -> heap -> run (Z * heap).

Definition ibv_get_device_name (device : Z) (h : heap) : run string :=
  b ← suiw_is_device_softuiwarp device h;
  if b : bool then d ← the_device device h; mret (dv_dev_name d)
  else real_get_device_name device h.

Definition ibv_get_device_guid (device : Z) (h : heap) : run Z :=
  b ← suiw_is_device_softuiwarp device h;
  if b : bool then mret suiw_get_device_guid else real_get_device_guid device h.

Definition ibv_open_device (device : Z) (h : heap) : run (Z * heap) :=
  b ← suiw_is_device_softuiwarp device h;
  if b : bool then mret (suiw_open_device device h) else real_open_device device h.

Definition ibv_close_device (context : Z) (h : heap) : run (Z * heap) :=
  dev ← the_context context h;
  b ← suiw_is_device_softuiwarp dev h;
  if b : bool then suiw_close_device context h else real_close_device context h.

Definition ibv_query_device (context : Z) (h : heap) : run (Z * heap) :=
  dev ← the_context context h;
  b ← suiw_is_device_softuiwarp dev h;
  if b : bool then mret (suiw_query_device, h) else real_query_device context h.
End dispatch.

(** ** What the device list holds *)

(** Live blocks are below the allocation pointer and none is at [NULL]. *)
Definition heap_ok (h : heap) : Prop :=
  0 < h_next h /\ forall p c, h_cells h !! p = Some c -> 0 < p < h_next h.

(** The pointers [ps] designate the devices [devs], in order. *)
Definition devices_at (h : heap) (ps : list Z) (devs : list ibv_device) : Prop :=
  Forall2 (fun p d => h_cells h !! p = Some (CDevice d)) ps devs.

(** What the documentation of [ibv_get_device_list] says of a list: a [NULL]-terminated
    array of [num] devices. *)
Record listed (h : heap) (arr num : Z) (ps : list Z) (devs : list ibv_device) : Prop := {
  li_ok : heap_ok h;
  li_array : h_cells h !! arr = Some (CArray (ps ++ [0]));
  li_num : num = zlen ps;
  li_devs : devices_at h ps devs }.

(** Such a list in [h'], all of whose blocks have been added to those of [h], each an
    allocation of its own. *)
Record own_list (h : heap) (arr num : Z) (ps : list Z) (devs : list ibv_device) (h' : heap)
  : Prop := {
  ol_listed : listed h' arr num ps devs;
  ol_nodup : NoDup (arr :: ps);
  ol_new : Forall (fun p => h_cells h !! p = None) (arr :: ps);
  ol_rest : foldr delete (h_cells h') (arr :: ps) = h_cells h }.

Lemma malloc_ok c h p h' : heap_ok h -> malloc c h = (p, h') -> heap_ok h'.
Proof.
  intros [H0 Hb] E; unfold malloc in E; simplify_eq; split; cbn; [lia|].
  intros q d; rewrite lookup_insert_Some; intros [[<- _]|[_ Hq%Hb]]; lia.
Qed.

Lemma malloc_fresh h : heap_ok h -> h_cells h !! h_next h = None.
Proof.
  intros [_ Hb]; destruct (h_cells h !! h_next h) eqn:E; [|done].
  apply Hb in E; lia.
Qed.

Lemma devices_at_mono h h' ps devs :
  devices_at h ps devs ->
  (forall p c, p ∈ ps -> h_cells h !! p = Some c -> h_cells h' !! p = Some c) ->
  devices_at h' ps devs.
Proof.
  intros H; induction H as [|p d ps devs Hp H IH]; intros Hm; constructor.
  - apply Hm; [by left|done].
  - apply IH; intros q c Hq; apply Hm; by right.
Qed.

Lemma foldr_delete_lookup {A} (m : gmap Z A) ps i :
  foldr delete m ps !! i = if decide (i ∈ ps) then None else m !! i.
Proof.
  case_decide; [by apply lookup_foldr_delete|by apply lookup_foldr_delete_not_elem_of].
Qed.

Lemma foldr_delete_first {A} (m : gmap Z A) ps p :
  foldr delete (delete p m) ps = delete p (foldr delete m ps).
Proof. induction ps as [|q ps IH]; cbn; [done|]; rewrite IH; apply delete_delete. Qed.

(** The heap after one [malloc] per device of [devs]. *)
Fixpoint alloc_devices (devs : list ibv_device) (h : heap) : heap :=
  match devs with
  | [] => h
  | d :: devs => alloc_devices devs (malloc (CDevice d) h).2
  end.

Lemma alloc_devices_next devs h : h_next (alloc_devices devs h) = h_next h + zlen devs.
Proof.
  revert h; induction devs as [|d devs IH]; intros h; cbn [alloc_devices]; [zlen_lia|].
  rewrite IH; cbn; zlen_lia.
Qed.

Lemma alloc_devices_other devs h i :
  ~ (h_next h <= i < h_next h + zlen devs) ->
  h_cells (alloc_devices devs h) !! i = h_cells h !! i.
Proof.
  revert h; induction devs as [|d devs IH]; intros h Hi; cbn [alloc_devices]; [done|].
  rewrite zlen_cons in Hi; pose proof (zlen_nonneg devs).
  rewrite IH by (cbn; lia); cbn; apply lookup_insert_ne; lia.
Qed.

Lemma alloc_devices_ok devs h : heap_ok h -> heap_ok (alloc_devices devs h).
Proof.
  revert h; induction devs as [|d devs IH]; intros h Hh; [done|].
  by eapply IH, malloc_ok.
Qed.

Lemma alloc_devices_at devs h :
  heap_ok h -> devices_at (alloc_devices devs h) (seqZ (h_next h) (zlen devs)) devs.
Proof.
  revert h; induction devs as [|d devs IH]; intros h Hh; [constructor|].
  rewrite zlen_cons, seqZ_cons by (pose proof (zlen_nonneg devs); lia).
  constructor; cbn [alloc_devices].
  - rewrite alloc_devices_other by (cbn; lia); cbn; by rewrite lookup_insert_eq.
  - replace (Z.pred (1 + zlen devs)) with (zlen devs) by lia.
    apply (IH (malloc (CDevice d) h).2); by eapply malloc_ok.
Qed.

Lemma copy_devices_spec devs i l h :
  heap_ok h -> devices_at h (take (length devs) (drop i l)) devs ->
  copy_devices (length devs) i l h =
  Done (seqZ (h_next h) (zlen devs), alloc_devices devs h).
Proof.
  revert i h; induction devs as [|d devs IH]; intros i h Hh Hd; [done|].
  cbn [length] in Hd; destruct (drop i l) as [|p l'] eqn:Edr; [by inversion Hd|].
  apply Forall2_cons_1 in Hd as [Hp Hd].
  assert (l !! i = Some p) as Hli.
  { by rewrite <- (Nat.add_0_r i), <- lookup_drop, Edr. }
  assert (drop (S i) l = l') as Edr'.
  { by rewrite <- Nat.add_1_r, <- drop_drop, Edr. }
  cbn [length copy_devices]; rewrite Hli; cbn [deref]; rewrite bind_Done.
  unfold the_device; rewrite Hp, bind_Done; cbn [malloc].
  rewrite IH.
  - rewrite bind_Done; cbn [alloc_devices malloc snd h_next].
    rewrite zlen_cons, (seqZ_cons (h_next h)) by (pose proof (zlen_nonneg devs); lia).
    by replace (Z.pred (1 + zlen devs)) with (zlen devs) by lia.
  - by eapply (malloc_ok (CDevice d)).
  - rewrite Edr'; eapply Forall2_impl; [done|]; cbn; intros q e Hq.
    rewrite lookup_insert_ne; [done|]; intros <-; by rewrite malloc_fresh in Hq.
Qed.

Lemma free_devices_spec ps l h :
  heap_ok h -> NoDup ps -> Forall (fun p => is_Some (h_cells h !! p)) ps ->
  free_devices (ps ++ 0 :: l) h =
  Done {| h_next := h_next h; h_cells := foldr delete (h_cells h) ps |}.
Proof.
  revert h; induction ps as [|p ps IH]; intros h Hh Hnd Hl; cbn [app free_devices foldr].
  { by destruct h. }
  apply NoDup_cons in Hnd as [Hni Hnd]; apply Forall_cons in Hl as [[c Hc] Hl].
  destruct Hh as [H0 Hb]; pose proof (Hb _ _ Hc).
  destruct (Z.eqb_spec p 0) as [->|_]; [lia|].
  unfold free; destruct (Z.eqb_spec p 0) as [->|_]; [lia|]; rewrite Hc, bind_Done.
  rewrite IH; cbn [h_next h_cells]; [by rewrite foldr_delete_first| |done|].
  - split; [done|]; cbn; intros q e [_ Hq]%lookup_delete_Some; by apply Hb in Hq.
  - rewrite Forall_forall in *; intros q Hq; rewrite lookup_delete_ne; [by apply Hl|].
    by intros <-.
Qed.

Lemma listed_live h arr num ps devs :
  listed h arr num ps devs -> Forall (fun p => is_Some (h_cells h !! p)) ps.
Proof.
  intros H; apply li_devs in H; induction H; constructor; eauto.
Qed.

Lemma ibv_free_device_list_run arr ps h :
  heap_ok h -> h_cells h !! arr = Some (CArray (ps ++ [0])) -> NoDup (arr :: ps) ->
  Forall (fun p => is_Some (h_cells h !! p)) ps ->
  ibv_free_device_list arr h =
  Done {| h_next := h_next h; h_cells := foldr delete (h_cells h) (arr :: ps) |}.
Proof.
  intros Hh Ha [Hni Hnd]%NoDup_cons Hl; unfold ibv_free_device_list, the_array.
  rewrite Ha, bind_Done, (free_devices_spec ps []), bind_Done by done.
  unfold free; cbn [h_cells h_next]; destruct Hh as [_ Hb]; pose proof (Hb _ _ Ha).
  destruct (Z.eqb_spec arr 0); [lia|].
  by rewrite foldr_delete_lookup, decide_False, Ha by done.
Qed.

(** Releasing a list gives back exactly the blocks it was made of. *)
Lemma ibv_free_device_list_spec h arr num ps devs h' :
  own_list h arr num ps devs h' ->
  ibv_free_device_list arr h' = Done {| h_next := h_next h'; h_cells := h_cells h |}.
Proof.
  intros [Hl Hn _ Hr]; rewrite (ibv_free_device_list_run arr ps);
    [by rewrite Hr|apply Hl|apply Hl|done|by eapply listed_live].
Qed.

(** A release that returns has taken away the list's blocks and nothing else. *)
Lemma free_Done p h h' :
  free p h = Done h' -> p <> 0 -> h' = {| h_next := h_next h; h_cells := delete p (h_cells h) |}.
Proof.
  unfold free; intros H Hp; destruct (Z.eqb_spec p 0); [done|].
  by destruct (h_cells h !! p); [injection H as <-|].
Qed.
Lemma free_devices_Done ps l : forall h h',
  Forall (fun p => p <> 0) ps -> free_devices (ps ++ 0 :: l) h = Done h' ->
  h' = {| h_next := h_next h; h_cells := foldr delete (h_cells h) ps |}.
Proof.
  induction ps as [|p ps IH]; intros h h' Hne H; cbn [app free_devices foldr] in *.
  { destruct h; by injection H as <-. }
  apply Forall_cons in Hne as [Hp Hne]; destruct (Z.eqb_spec p 0); [done|].
  apply bind_Done_inv in H as (h1 & H1%free_Done & H); [|done].
  apply IH in H; [|done]; subst; cbn; by rewrite foldr_delete_first.
Qed.
Lemma ibv_free_device_list_Done h arr num ps devs h' :
  listed h arr num ps devs -> ibv_free_device_list arr h = Done h' ->
  h' = {| h_next := h_next h; h_cells := foldr delete (h_cells h) (arr :: ps) |}.
Proof.
  intros Hl H; pose proof (li_ok _ _ _ _ _ Hl) as [_ Hb]; unfold ibv_free_device_list, the_array in H.
  pose proof (li_array _ _ _ _ _ Hl) as Ha; rewrite Ha, bind_Done in H; pose proof (Hb _ _ Ha).
  apply bind_Done_inv in H as (h1 & H1%free_devices_Done & H).
  - apply free_Done in H; [|lia]; by subst.
  - eapply Forall_impl; [by eapply listed_live|]; intros p [c Hp]; apply Hb in Hp; lia.
Qed.

Section device_list.
Context (real_get_device_list : heap -> Z * Z * heap) (h h1 : heap) (arr num g n k : Z)
        (ps : list Z) (devs : list ibv_device) (d : ibv_device).
Hypothesis Hreal : real_get_device_list h = (arr, num, h1).
Hypothesis Hlist : listed h1 arr num ps devs.
Hypothesis Hg : h_cells h1 !! g = Some (CDevice d).
Hypothesis Hn : h_next h1 = n.
Hypothesis Hk : zlen devs = k.

(** The heap when every copy is there; when the result array is filled in; and without
    the real library's list. *)
Definition copies : heap := alloc_devices devs (malloc (CArray []) h1).2.
Definition filled : heap :=
  let h' := (malloc (CDevice d) copies).2 in
  {| h_next := h_next h';
     h_cells := <[n := CArray (seqZ (n + 1) k ++ [n + 1 + k; 0])]> (h_cells h') |}.
Definition released : heap :=
  {| h_next := h_next filled; h_cells := foldr delete (h_cells filled) (arr :: ps) |}.

Lemma k_nonneg : 0 <= k.
Proof. rewrite <- Hk; apply zlen_nonneg. Qed.

Lemma num_k : num = k.
Proof.
  rewrite (li_num _ _ _ _ _ Hlist), <- Hk; unfold zlen; f_equal.
  apply (Forall2_length _ _ _ (li_devs _ _ _ _ _ Hlist)).
Qed.

Lemma copies_next : h_next copies = n + 1 + k.
Proof. unfold copies; rewrite alloc_devices_next; cbn; lia. Qed.

Lemma filled_eq :
  filled = {| h_next := n + 1 + k + 1;
              h_cells := <[n := CArray (seqZ (n + 1) k ++ [n + 1 + k; 0])]>
                           (<[n + 1 + k := CDevice d]> (h_cells copies)) |}.
Proof. unfold filled; cbn; by rewrite copies_next. Qed.

Lemma filled_lookup i :
  h_cells filled !! i =
  if decide (i = n) then Some (CArray (seqZ (n + 1) k ++ [n + 1 + k; 0]))
  else if decide (i = n + 1 + k) then Some (CDevice d)
  else if decide (n + 1 <= i < n + 1 + k) then h_cells copies !! i
  else h_cells h1 !! i.
Proof.
  unfold filled; cbn [h_cells malloc snd]; rewrite copies_next.
  case_decide; [by subst; rewrite lookup_insert_eq|]; rewrite lookup_insert_ne by done.
  case_decide; [by subst; rewrite lookup_insert_eq|]; rewrite lookup_insert_ne by done.
  case_decide; [done|]; unfold copies.
  rewrite alloc_devices_other by (cbn; lia); cbn; apply lookup_insert_ne; lia.
Qed.

Lemma filled_ok : heap_ok filled.
Proof.
  pose proof (li_ok _ _ _ _ _ Hlist) as [H0 Hb]; pose proof k_nonneg.
  assert (h_next filled = n + 1 + k + 1) as E by (unfold filled; cbn; rewrite copies_next; lia).
  split; rewrite E; [lia|]; intros p c; rewrite filled_lookup.
  repeat case_decide; intros Hp; try lia; apply Hb in Hp; lia.
Qed.

Lemma kept_filled p c :
  h_cells h1 !! p = Some c -> p < n /\ h_cells filled !! p = Some c.
Proof.
  intros Hp; pose proof (li_ok _ _ _ _ _ Hlist) as [_ Hb]; pose proof (Hb _ _ Hp).
  pose proof k_nonneg; split; [lia|]; rewrite filled_lookup.
  by rewrite !decide_False by lia.
Qed.

Lemma copies_filled : devices_at filled (seqZ (n + 1) k ++ [n + 1 + k]) (devs ++ [d]).
Proof.
  apply Forall2_app; [|constructor; [|constructor]].
  - assert (devices_at copies (seqZ (n + 1) k) devs) as Hc.
    { rewrite <- Hk, <- Hn; apply (alloc_devices_at devs (malloc (CArray []) h1).2).
      eapply malloc_ok; [apply Hlist|done]. }
    eapply devices_at_mono; [exact Hc|]; intros p c [??]%elem_of_seqZ Hp.
    by rewrite filled_lookup, !decide_False, decide_True by lia.
  - rewrite filled_lookup, decide_False, decide_True; [done|done|pose proof k_nonneg; lia].
Qed.

(** The blocks of the result are the consecutive addresses from [n]. *)
Lemma result_blocks : n :: seqZ (n + 1) k ++ [n + 1 + k] = seqZ n (k + 2).
Proof.
  pose proof k_nonneg; rewrite (seqZ_cons n) by lia; f_equal.
  replace (Z.pred (k + 2)) with (k + 1) by lia; rewrite (seqZ_app (Z.succ n) k 1) by lia.
  by rewrite <- Z.add_1_r.
Qed.

Lemma released_lookup p c :
  n <= p -> h_cells filled !! p = Some c -> h_cells released !! p = Some c.
Proof.
  intros Hp E; unfold released; cbn [h_cells]; rewrite foldr_delete_lookup, decide_False; [done|].
  intros Hin; enough (p < n) by lia.
  apply list_elem_of_In in Hin as [<-|Hin].
  - eapply kept_filled, Hlist.
  - pose proof (listed_live _ _ _ _ _ Hlist) as Hl; rewrite List.Forall_forall in Hl.
    destruct (Hl _ Hin) as [e He]; by eapply kept_filled.
Qed.

Lemma filled_list : own_list h1 n (num + 1) (seqZ (n + 1) k ++ [n + 1 + k]) (devs ++ [d]) filled.
Proof.
  pose proof k_nonneg; split; [split| | |].
  - apply filled_ok.
  - rewrite filled_lookup, decide_True by done; by rewrite <- app_assoc.
  - rewrite num_k, zlen_app, zlen_cons, zlen_nil; unfold zlen; rewrite length_seqZ; lia.
  - apply copies_filled.
  - rewrite result_blocks; apply NoDup_seqZ.
  - rewrite result_blocks, Forall_forall; intros p [??]%elem_of_seqZ.
    destruct (h_cells h1 !! p) eqn:E; [|done]; apply kept_filled in E; lia.
  - rewrite result_blocks; apply map_eq; intros i; rewrite foldr_delete_lookup, filled_lookup.
    repeat case_decide; try done; rewrite ?elem_of_seqZ in *; try lia.
    destruct (h_cells h1 !! i) eqn:E; [|done]; apply kept_filled in E; lia.
Qed.

Lemma released_list :
  own_list {| h_next := h_next h1; h_cells := foldr delete (h_cells h1) (arr :: ps) |}
    n (num + 1) (seqZ (n + 1) k ++ [n + 1 + k]) (devs ++ [d]) released.
Proof.
  pose proof k_nonneg; destruct filled_list as [[[H0 Hb] Ha Hnum Hd] Hnd Hnew Hrest].
  assert (forall p, p ∈ seqZ n (k + 2) -> n <= p) as Hge by (intros p [??]%elem_of_seqZ; lia).
  split; [split| | |]; try done.
  - split; [done|]; unfold released; cbn [h_cells h_next]; intros p c.
    rewrite foldr_delete_lookup; case_decide; [done|]; apply Hb.
  - apply released_lookup; [lia|done].
  - eapply devices_at_mono; [exact Hd|]; intros p c Hp; apply released_lookup, Hge.
    rewrite <- result_blocks; by right.
  - eapply Forall_impl; [exact Hnew|]; intros p Hp; cbn [h_cells].
    rewrite foldr_delete_lookup; by case_decide.
  - unfold released; cbn [h_cells]; apply map_eq; intros i; rewrite !foldr_delete_lookup.
    rewrite <- Hrest, foldr_delete_lookup; repeat case_decide; done.
Qed.

(** The blocks of the real list and [g] outlive the allocations. *)
Lemma array_lookup p c :
  h_cells h1 !! p = Some c -> h_cells (malloc (CArray []) h1).2 !! p = Some c.
Proof.
  intros Hp; cbn; rewrite lookup_insert_ne; [done|]; intros E.
  by rewrite <- E, malloc_fresh in Hp by apply Hlist.
Qed.

Lemma copy_run :
  (devices ← (if 0 <? num then the_array arr (malloc (CArray []) h1).2 else mret []);
   copy_devices (Z.to_nat num) 0 devices (malloc (CArray []) h1).2) =
  Done (seqZ (n + 1) k, copies).
Proof.
  pose proof k_nonneg; rewrite num_k.
  replace (Z.to_nat k) with (length devs) by (rewrite <- Hk; unfold zlen; lia).
  destruct (Z.ltb_spec 0 k).
  - unfold the_array; rewrite (array_lookup _ _ (li_array _ _ _ _ _ Hlist)), bind_Done.
    rewrite copy_devices_spec; [unfold copies; cbn; by rewrite Hk, Hn| |].
    + eapply malloc_ok; [apply Hlist|done].
    + rewrite drop_0, <- (Forall2_length _ _ _ (li_devs _ _ _ _ _ Hlist)), take_app_length.
      eapply devices_at_mono; [apply Hlist|]; intros; by apply array_lookup.
  - assert (k = 0) as -> by lia; apply Z.eq_le_incl, zlen_0_inv in Hk as E.
    unfold copies; by rewrite E.
Qed.

Lemma get_device_list_run b :
  ibv_get_device_list real_get_device_list g b h =
  h' ← ibv_free_device_list arr filled; mret (n, if b then Some (num + 1) else None, h').
Proof.
  unfold ibv_get_device_list; rewrite Hreal; cbn [malloc].
  pose proof copy_run as Hc; cbn [malloc snd] in Hc.
  apply bind_Done_inv in Hc as (devices & Ed & Ec).
  rewrite Ed, bind_Done, Ec, bind_Done.
  assert (h_cells copies !! g = Some (CDevice d)) as Hgc.
  { pose proof (li_ok _ _ _ _ _ Hlist) as [_ Hb]; pose proof (Hb _ _ Hg).
    unfold copies; rewrite alloc_devices_other by (cbn; lia); by apply array_lookup. }
  unfold suiw_get_ibv_device, the_device; rewrite Hgc, !bind_Done; cbn [malloc].
  rewrite copies_next, Hn; cbn [h_next h_cells]; by rewrite <- filled_eq.
Qed.
End device_list.

(** C32: If the real library returns what its documentation says, a [NULL]-terminated
    array of [num] devices, [ibv_get_device_list] makes a list of the same kind one
    entry longer, all in blocks of its own: copies of the real devices in order, then
    the software device; [num + 1] is stored through the argument.  Releasing that list
    would give back exactly these blocks.  The call then ends with its own
    [ibv_free_device_list] on the real library's list, and returns if that does (that
    this list may be given to [free] is not documented, and not assumed here); then the
    real list's blocks are gone, and the new list is intact and can still be released. *)
Theorem device_list_spec real h h1 arr num g ps devs d :
  real h = (arr, num, h1) -> listed h1 arr num ps devs -> h_cells h1 !! g = Some (CDevice d) ->
  exists r qs h2,
    ibv_get_device_list real g true h = (h3 ← ibv_free_device_list arr h2; mret (r, Some (num + 1), h3)) /\
    own_list h1 r (num + 1) qs (devs ++ [d]) h2 /\
    ibv_free_device_list r h2 = Done {| h_next := h_next h2; h_cells := h_cells h1 |} /\
    forall h3, ibv_free_device_list arr h2 = Done h3 ->
      own_list {| h_next := h_next h1; h_cells := foldr delete (h_cells h1) (arr :: ps) |}
        r (num + 1) qs (devs ++ [d]) h3 /\
      ibv_free_device_list r h3 =
        Done {| h_next := h_next h3; h_cells := foldr delete (h_cells h1) (arr :: ps) |}.
Proof.
  intros Hr Hl Hg; pose proof (filled_list h1 arr num _ _ ps devs d Hl eq_refl eq_refl) as Hf.
  pose proof (released_list h1 arr num _ _ ps devs d Hl eq_refl eq_refl) as Hrel.
  eexists _, _, _; split; [by eapply (get_device_list_run real h h1 arr num g)|].
  split; [exact Hf|]; split; [by eapply ibv_free_device_list_spec|]; intros h3 H3.
  eapply (ibv_free_device_list_Done _ arr num ps devs) in H3 as ->.
  - split; [exact Hrel|]; apply (ibv_free_device_list_spec _ _ _ _ _ _ Hrel).
  - destruct Hl as [Hok Ha Hn Hd]; split; [apply Hf|..|done|].
    + by eapply kept_filled.
    + eapply devices_at_mono; [exact Hd|]; intros p c _ Hp; by eapply kept_filled.
Qed.

(** A real library with one device. *)
Definition mthca : ibv_device :=
  {| dv_ops := (0, 0); dv_node_type := 1; dv_transport_type := 0; dv_name := "mthca0";
     dv_dev_name := "uverbs0"; dv_dev_path := "/sys"; dv_ibdev_path := "/sys" |}.
Definition heap0 : heap := (create_suiw_device {| h_next := 1; h_cells := ∅ |}).2.
Definition real_one (h : heap) : Z * Z * heap :=
  let '(p, h) := malloc (CDevice mthca) h in
  let '(a, h) := malloc (CArray [p; 0]) h in (a, 1, h).

Lemma device_list_spec_witness :
  exists r qs h2,
    ibv_get_device_list real_one 1 true heap0 = (h3 ← ibv_free_device_list 3 h2; mret (r, Some 2, h3)) /\
    own_list (real_one heap0).2 r 2 qs [mthca; suiw_device] h2 /\
    ibv_free_device_list r h2 = Done {| h_next := h_next h2; h_cells := h_cells (real_one heap0).2 |} /\
    forall h3, ibv_free_device_list 3 h2 = Done h3 ->
      own_list {| h_next := 4; h_cells := foldr delete (h_cells (real_one heap0).2) [3; 2] |}
        r 2 qs [mthca; suiw_device] h3 /\
      ibv_free_device_list r h3 =
        Done {| h_next := h_next h3; h_cells := foldr delete (h_cells (real_one heap0).2) [3; 2] |}.
Proof.
  apply (device_list_spec real_one heap0 (real_one heap0).2 3 1 1 [2] [mthca] suiw_device);
    [reflexivity| |reflexivity].
  split; try reflexivity.
  - split; [reflexivity|]; intros p c; cbn.
    rewrite !lookup_insert_Some, lookup_empty.
    intros [[<- _]|[_ [[<- _]|[_ [[<- _]|[_ [=]]]]]]]; lia.
  - repeat constructor.
Defined.

(** The software device is served by the library and every other device by
    the real one: on the software device the name is ["softuiwarp0"], the GUID is
    0xdeadbeef in network order, querying fails, and opening then closing it
    succeeds and leaves the heap as it was; on any other device each call is the
    real library's. *)
Theorem device_dispatch rname rguid ropen rclose rquery p d h :
  heap_ok h -> h_cells h !! p = Some (CDevice d) ->
  if decide (dv_dev_name d = dev_name) then
    ibv_get_device_name rname p h = Done "softuiwarp0"%string /\
    ibv_get_device_guid rguid p h = Done 0xefbeadde00000000 /\
    exists c h', ibv_open_device ropen p h = Done (c, h') /\ c <> 0 /\
      ibv_query_device rquery c h' = Done (-1, h') /\
      ibv_close_device rclose c h' = Done (0, {| h_next := h_next h'; h_cells := h_cells h |})
  else
    ibv_get_device_name rname p h = rname p h /\
    ibv_get_device_guid rguid p h = rguid p h /\ ibv_open_device ropen p h = ropen p h /\
    forall c, h_cells h !! c = Some (CContext p) ->
      ibv_query_device rquery c h = rquery c h /\ ibv_close_device rclose c h = rclose c h.
Proof.
  intros Hh Hp; destruct (Hh) as [H0 Hb]; pose proof (Hb _ _ Hp) as Hpn.
  assert (forall h', h_cells h' !! p = Some (CDevice d) ->
            suiw_is_device_softuiwarp p h' = Done (bool_decide (dv_dev_name d = dev_name))) as Hs.
  { intros h' Hp'; unfold suiw_is_device_softuiwarp, the_device; rewrite Hp'.
    by destruct (Z.eqb_spec p 0); [lia|]. }
  unfold ibv_get_device_name, ibv_get_device_guid, ibv_open_device.
  rewrite (Hs h), !bind_Done by done.
  destruct (decide (dv_dev_name d = dev_name)) as [Hd|Hd].
  - rewrite bool_decide_true by done; unfold the_device; rewrite Hp; split_all.
    + cbn; by rewrite Hd.
    + reflexivity.
    + assert (h_cells (malloc (CContext p) h).2 !! p = Some (CDevice d)) as Hc.
      { cbn; by rewrite lookup_insert_ne by lia. }
      pose proof (Hs _ Hc) as Hs'; cbn [malloc snd] in Hs'.
      exists (h_next h), (malloc (CContext p) h).2; split_all.
      * unfold suiw_open_device; by destruct (Z.eqb_spec p 0); [lia|].
      * lia.
      * unfold ibv_query_device, the_context; cbn [malloc snd h_cells].
        rewrite lookup_insert_eq, bind_Done.
        by rewrite Hs', bind_Done, bool_decide_true by done.
      * unfold ibv_close_device, the_context; cbn [malloc snd h_cells].
        rewrite lookup_insert_eq, bind_Done.
        rewrite Hs', bind_Done, bool_decide_true by done.
        unfold suiw_close_device, free; destruct (Z.eqb_spec (h_next h) 0); [lia|].
        cbn [h_cells]; rewrite lookup_insert_eq, bind_Done; cbn [h_next].
        by rewrite delete_insert_id by (by apply malloc_fresh).
  - rewrite bool_decide_false by done; split_all; try done; intros c Hc; split.
    all: unfold ibv_query_device, ibv_close_device, the_context; rewrite Hc, !bind_Done.
    all: by rewrite Hs, bind_Done, bool_decide_false.
Qed.

Lemma device_dispatch_witness :
  ibv_get_device_name (fun _ _ => Done "mthca0"%string) 1 heap0 = Done "softuiwarp0"%string /\
  ibv_get_device_name (fun _ _ => Done "mthca0"%string) 2 (real_one heap0).2 = Done "mthca0"%string.
Proof.
  split.
  - apply (device_dispatch (fun _ _ => Done "mthca0"%string) (fun _ _ => Done 0)
             (fun _ h => Done (0, h)) (fun _ h => Done (0, h)) (fun _ h => Done (0, h))
             1 suiw_device heap0); [|reflexivity].
    split; [reflexivity|]; intros p c; cbn; rewrite lookup_insert_Some, lookup_empty.
    intros [[<- _]|[_ [=]]]; lia.
  - apply (device_dispatch (fun _ _ => Done "mthca0"%string) (fun _ _ => Done 0)
             (fun _ h => Done (0, h)) (fun _ h => Done (0, h)) (fun _ h => Done (0, h))
             2 mthca (real_one heap0).2); [|reflexivity].
    split; [reflexivity|]; intros p c; cbn; rewrite !lookup_insert_Some, lookup_empty.
    intros [[<- _]|[_ [[<- _]|[_ [[<- _]|[_ [=]]]]]]]; lia.
Defined.
