(* ===== verification/Interpose.v ===== *)
(** * Loading the interposition libraries and the rate tables
      ([libibverbs/verbs.cpp], [librdmacm/rdma_cma.cpp])

    Each library's constructor fills its table of pointers into the real library
    by name, and aborts the process when the library or a symbol is missing. *)

From stdpp Require Import strings.
From S2P Require Import Prelude.

(** ** Binding symbols *)
Section bind.
(** Whether [dlopen] finds the real library, and what [dlsym] finds in it
    ([None] is [NULL]); every lookup opens the library again. *)
Variables (dlopen : bool) (dlsym : string -> option Z).

Definition bind_symbol (sym : string) : run Z :=
  if dlopen then match dlsym sym with Some ptr => Done ptr | None => Aborted end else Aborted.

(** The constructor: one assignment per entry of [bs], in order; a pointer that
    is not assigned stays [NULL]. *)
Fixpoint bind_all (bs : list (string * string)) (tbl : gmap string Z) : run (gmap string Z) :=
  match bs with
  | [] => mret tbl
  | (real, sym) :: bs => ptr ← bind_symbol sym; bind_all bs (<[real := ptr]> tbl)
  end.
End bind.

(** The static pointers of [verbs.cpp] (without their [real_] prefix) and the
    assignments of its constructor. *)
Definition real_pointers : list string :=
  ["get_device_list"; "free_device_list"; "get_device_name"; "get_device_guid";
   "open_device"; "close_device"; "get_async_event"; "ack_async_event"; "query_device";
   "query_port"; "query_gid"; "query_pkey"; "alloc_pd"; "dealloc_pd"; "reg_mr"; "rereg_mr";
   "dereg_mr"; "create_comp_channel"; "destroy_comp_channel"; "create_cq"; "resize_cq";
   "destroy_cq"; "get_cq_event"; "ack_cq_events"; "create_srq"; "modify_srq"; "query_srq";
   "destroy_srq"; "create_qp"; "modify_qp"; "query_qp"; "destroy_qp"; "create_ah";
   "init_ah_from_wc"; "create_ah_from_wc"; "destroy_ah"; "attach_mcast"; "detach_mcast";
   "fork_init"; "node_type_str"; "port_state_str"; "event_type_str";
   "resolve_eth_l2_from_gid"]%string.

Definition bindings : list (string * string) :=
  [("get_device_list", "ibv_get_device_list");
   ("free_device_list", "ibv_free_device_list");
   ("get_device_name", "ibv_get_device_name"); ("get_device_guid", "ibv_get_device_guid");
   ("open_device", "ibv_open_device"); ("close_device", "ibv_close_device");
   ("get_async_event", "ibv_get_async_event"); ("ack_async_event", "ibv_ack_async_event");
   ("query_device", "ibv_query_device"); ("query_port", "ibv_query_port");
   ("query_gid", "ibv_query_gid"); ("query_pkey", "ibv_query_pkey");
   ("alloc_pd", "ibv_alloc_pd"); ("dealloc_pd", "ibv_dealloc_pd");
   ("reg_mr", "ibv_reg_mr"); ("rereg_mr", "ibv_rereg_mr"); ("dereg_mr", "ibv_dereg_mr");
   ("create_comp_channel", "ibv_create_comp_channel"); ("create_cq", "ibv_create_cq");
   ("resize_cq", "ibv_resize_cq"); ("destroy_cq", "ibv_destroy_cq");
   ("get_cq_event", "ibv_get_cq_event"); ("ack_cq_events", "ibv_ack_cq_events");
   ("create_srq", "ibv_create_srq"); ("modify_srq", "ibv_modify_srq");
   ("query_srq", "ibv_query_srq"); ("destroy_srq", "ibv_destroy_srq");
   ("create_qp", "ibv_create_qp"); ("modify_qp", "ibv_modify_qp");
   ("query_qp", "ibv_query_qp"); ("destroy_qp", "ibv_destroy_qp");
   ("create_ah", "ibv_create_ah"); ("init_ah_from_wc", "ibv_init_ah_from_wc");
   ("create_ah_from_wc", "ibv_create_ah_from_wc"); ("destroy_ah", "ibv_destroy_ah");
   ("attach_mcast", "ibv_attach_mcast"); ("detach_mcast", "ibv_detach_mcast");
   ("fork_init", "ibv_fork_init"); ("node_type_str", "ibv_node_type_str");
   ("port_state_str", "ibv_port_state_str"); ("event_type_str", "ibv_event_type_str");
   ("resolve_eth_l2_from_gid", "ibv_resolve_eth_l2_from_gid")]%string.

(** The same for [rdma_cma.cpp]. *)
Definition cm_real_pointers : list string :=
  ["create_event_channel"; "destroy_event_channel"; "create_id"; "create_ep"; "destroy_ep";
   "destroy_id"; "bind_addr"; "resolve_addr"; "resolve_route"; "create_qp"; "create_qp_ex";
   "destroy_qp"; "connect"; "listen"; "get_request"; "accept"; "reject"; "notify";
   "disconnect"; "join_multicast"; "leave_multicast"; "join_multicast_ex"; "get_cm_event";
   "ack_cm_event"; "get_src_port"; "get_dst_port"; "get_devices"; "free_devices";
   "event_str"; "set_option"; "migrate_id"; "getaddrinfo"; "freeaddrinfo"]%string.

Definition cm_bindings : list (string * string) :=
  [("create_event_channel", "rdma_create_event_channel");
   ("destroy_event_channel", "rdma_destroy_event_channel");
   ("create_id", "rdma_create_id"); ("create_ep", "rdma_create_ep");
   ("destroy_ep", "rdma_destroy_ep"); ("destroy_id", "rdma_destroy_id");
   ("bind_addr", "rdma_bind_addr"); ("resolve_addr", "rdma_resolve_addr");
   ("resolve_route", "rdma_resolve_route"); ("create_qp", "rdma_create_qp");
   ("create_qp_ex", "rdma_create_qp_ex"); ("destroy_qp", "rdma_destroy_qp");
   ("connect", "rdma_connect"); ("listen", "rdma_listen");
   ("get_request", "rdma_get_request"); ("accept", "rdma_accept");
   ("reject", "rdma_reject"); ("notify", "rdma_notify"); ("disconnect", "rdma_disconnect");
   ("join_multicast", "rdma_join_multicast"); ("leave_multicast", "rdma_leave_multicast");
   ("join_multicast_ex", "rdma_join_multicast_ex"); ("get_cm_event", "rdma_get_cm_event");
   ("ack_cm_event", "rdma_ack_cm_event"); ("get_src_port", "rdma_get_src_port");
   ("get_dst_port", "rdma_get_dst_port"); ("get_devices", "rdma_get_devices");
   ("free_devices", "rdma_free_devices"); ("event_str", "rdma_event_str");
   ("set_option", "rdma_set_option"); ("migrate_id", "rdma_migrate_id");
   ("getaddrinfo", "rdma_getaddrinfo"); ("freeaddrinfo", "rdma_freeaddrinfo")]%string.

Definition verbs_init (dlopen : bool) (dlsym : string -> option Z) : run (gmap string Z) :=
  bind_all dlopen dlsym bindings ∅.
Definition cma_init (dlopen : bool) (dlsym : string -> option Z) : run (gmap string Z) :=
  bind_all dlopen dlsym cm_bindings ∅.

(** A call through a table entry: jumping to [NULL] is undefined. *)
Definition real_call (tbl : gmap string Z) (real : string) : run Z := deref (tbl !! real).

Lemma bind_all_spec dlopen dlsym bs tbl :
  bind_all dlopen dlsym bs tbl =
  if decide (dlopen = true /\ Forall (fun b => is_Some (dlsym b.2)) bs \/ bs = [])
  then Done (foldl (fun t b => <[b.1 := default 0 (dlsym b.2)]> t) tbl bs)
  else Aborted.
Proof.
  revert tbl; induction bs as [|[real sym] bs IH]; intros tbl; cbn [bind_all foldl].
  { rewrite decide_True; [done|by right]. }
  unfold bind_symbol; destruct dlopen; cbn [fst snd].
  - destruct (dlsym sym) as [ptr|] eqn:E; cbn; [rewrite IH|].
    + destruct (decide (_ \/ bs = [])) as [H|H], (decide (_ \/ _ :: _ = [])) as [H'|H']; try done.
      * destruct H' as []; left; split; [done|]; constructor; [cbn; by rewrite E|].
        by destruct H as [[_ H]| ->].
      * destruct H as []; destruct H' as [[_ H']|]; [|done]; left; split; [done|].
        by apply Forall_cons_1 in H' as [_ ?].
    + rewrite decide_False; [done|]; intros [[_ [[? H] _]%Forall_cons_1]|]; [|done].
      cbn in H; congruence.
  - rewrite decide_False; [done|]; by intros [[]|].
Qed.

(** [foldl] of insertions: a key that is assigned is in the table. *)
Lemma foldl_insert_dom (dlsym : string -> option Z) bs (tbl : gmap string Z) :
  dom (foldl (fun t b => <[b.1 := default 0 (dlsym b.2)]> t) tbl bs) =
  list_to_set (map fst bs) ∪ dom tbl.
Proof.
  revert tbl; induction bs as [|b bs IH]; intros tbl; cbn [foldl map list_to_set].
  { by rewrite union_empty_l_L. }
  rewrite IH, dom_insert_L, !(assoc_L (∪)); f_equal; apply (comm_L (∪)).
Qed.

(** The pointers the interposed functions call through. *)
Definition called_real_pointers : list string :=
  ["get_device_list"; "get_device_name"; "get_device_guid"; "open_device"; "close_device";
   "query_device"; "node_type_str"; "port_state_str"; "event_type_str"]%string.

(** Loading libibverbs' interposition either binds every pointer the
    interposed functions call through, so that no such call jumps to [NULL], or
    aborts, which it does exactly when the library or one of the symbols is
    missing.  One declared pointer, [real_destroy_comp_channel], is never bound. *)
Theorem verbs_init_binds dlopen dlsym :
  match verbs_init dlopen dlsym with
  | Done tbl =>
      dlopen = true /\ (forall b, b ∈ bindings -> is_Some (dlsym b.2)) /\
      (forall real, real ∈ called_real_pointers -> exists ptr, real_call tbl real = Done ptr) /\
      (forall real, real ∈ real_pointers ->
         tbl !! real = None <-> real = "destroy_comp_channel"%string)
  | Aborted => dlopen = false \/ exists b, b ∈ bindings /\ dlsym b.2 = None
  | Blocked | Undefined => False
  end.
Proof.
  unfold verbs_init; rewrite bind_all_spec; case_decide as H.
  - assert (forall r, r ∈ dom (foldl (fun t b => <[b.1 := default 0 (dlsym b.2)]> t)
                         (∅ : gmap string Z) bindings) <-> r ∈ map fst bindings) as Hd.
    { intros r; by rewrite foldl_insert_dom, dom_empty_L, union_empty_r_L, elem_of_list_to_set. }
    destruct H as [[-> Hall]|?]; [|done].
    set (tbl := foldl _ _ _) in *; clearbody tbl; split_all; [done| | |].
    + by apply Forall_forall.
    + intros r Hr; unfold real_call; assert (r ∈ map fst bindings) as Hb.
      { revert r Hr; apply Forall_forall, (bool_decide_unpack _); vm_compute; reflexivity. }
      apply Hd, elem_of_dom in Hb as [ptr ->]; by exists ptr.
    + intros r Hr; rewrite <- not_elem_of_dom, Hd.
      assert (r = "destroy_comp_channel"%string \/ r ∈ map fst bindings) as Hb.
      { revert r Hr; apply Forall_forall, (bool_decide_unpack _); vm_compute; reflexivity. }
      split; [by destruct Hb|]; intros ->.
      apply (bool_decide_unpack _); vm_compute; reflexivity.
  - destruct dlopen; [right|by left].
    assert (~ Forall (fun b => is_Some (dlsym b.2)) bindings) as Hf by tauto.
    apply not_Forall_Exists, Exists_exists in Hf as (b & Hb & Hs); [|apply _].
    exists b; split; [done|]; by apply eq_None_not_Some.
Qed.

(** ** Link rates ([enum ibv_rate] of [verbs.h]) *)
Inductive ibv_rate :=
| IBV_RATE_MAX | IBV_RATE_2_5_GBPS | IBV_RATE_5_GBPS | IBV_RATE_10_GBPS | IBV_RATE_20_GBPS
| IBV_RATE_30_GBPS | IBV_RATE_40_GBPS | IBV_RATE_60_GBPS | IBV_RATE_80_GBPS | IBV_RATE_120_GBPS
| IBV_RATE_14_GBPS | IBV_RATE_56_GBPS | IBV_RATE_112_GBPS | IBV_RATE_168_GBPS | IBV_RATE_25_GBPS
| IBV_RATE_100_GBPS | IBV_RATE_200_GBPS | IBV_RATE_300_GBPS.

Definition ibv_rate_val (r : ibv_rate) : Z :=
  match r with
  | IBV_RATE_MAX => 0 | IBV_RATE_2_5_GBPS => 2 | IBV_RATE_5_GBPS => 5 | IBV_RATE_10_GBPS => 3
  | IBV_RATE_20_GBPS => 6 | IBV_RATE_30_GBPS => 4 | IBV_RATE_40_GBPS => 7 | IBV_RATE_60_GBPS => 8
  | IBV_RATE_80_GBPS => 9 | IBV_RATE_120_GBPS => 10 | IBV_RATE_14_GBPS => 11
  | IBV_RATE_56_GBPS => 12 | IBV_RATE_112_GBPS => 13 | IBV_RATE_168_GBPS => 14
  | IBV_RATE_25_GBPS => 15 | IBV_RATE_100_GBPS => 16 | IBV_RATE_200_GBPS => 17
  | IBV_RATE_300_GBPS => 18
  end.

Definition ibv_rate_to_mult (rate : ibv_rate) : Z :=
  match rate with
  | IBV_RATE_2_5_GBPS => 1 | IBV_RATE_5_GBPS => 2 | IBV_RATE_10_GBPS => 4 | IBV_RATE_20_GBPS => 8
  | IBV_RATE_30_GBPS => 12 | IBV_RATE_40_GBPS => 16 | IBV_RATE_60_GBPS => 24
  | IBV_RATE_80_GBPS => 32 | IBV_RATE_120_GBPS => 48
  | _ => -1
  end.

Definition mult_to_ibv_rate (mult : Z) : ibv_rate :=
  match mult with
  | 1 => IBV_RATE_2_5_GBPS | 2 => IBV_RATE_5_GBPS | 4 => IBV_RATE_10_GBPS | 8 => IBV_RATE_20_GBPS
  | 12 => IBV_RATE_30_GBPS | 16 => IBV_RATE_40_GBPS | 24 => IBV_RATE_60_GBPS
  | 32 => IBV_RATE_80_GBPS | 48 => IBV_RATE_120_GBPS
  | _ => IBV_RATE_MAX
  end.

Definition ibv_rate_to_mbps (rate : ibv_rate) : Z :=
  match rate with
  | IBV_RATE_2_5_GBPS => 2500 | IBV_RATE_5_GBPS => 5000 | IBV_RATE_10_GBPS => 10000
  | IBV_RATE_20_GBPS => 20000 | IBV_RATE_30_GBPS => 30000 | IBV_RATE_40_GBPS => 40000
  | IBV_RATE_60_GBPS => 60000 | IBV_RATE_80_GBPS => 80000 | IBV_RATE_120_GBPS => 120000
  | IBV_RATE_14_GBPS => 14062 | IBV_RATE_56_GBPS => 56250 | IBV_RATE_112_GBPS => 112500
  | IBV_RATE_168_GBPS => 168750 | IBV_RATE_25_GBPS => 25781 | IBV_RATE_100_GBPS => 103125
  | IBV_RATE_200_GBPS => 206250 | IBV_RATE_300_GBPS => 309375
  | IBV_RATE_MAX => -1
  end.

Definition mbps_to_ibv_rate (mbps : Z) : ibv_rate :=
  match mbps with
  | 2500 => IBV_RATE_2_5_GBPS | 5000 => IBV_RATE_5_GBPS | 10000 => IBV_RATE_10_GBPS
  | 20000 => IBV_RATE_20_GBPS | 30000 => IBV_RATE_30_GBPS | 40000 => IBV_RATE_40_GBPS
  | 60000 => IBV_RATE_60_GBPS | 80000 => IBV_RATE_80_GBPS | 120000 => IBV_RATE_120_GBPS
  | 14062 => IBV_RATE_14_GBPS | 56250 => IBV_RATE_56_GBPS | 112500 => IBV_RATE_112_GBPS
  | 168750 => IBV_RATE_168_GBPS | 25781 => IBV_RATE_25_GBPS | 103125 => IBV_RATE_100_GBPS
  | 206250 => IBV_RATE_200_GBPS | 309375 => IBV_RATE_300_GBPS
  | _ => IBV_RATE_MAX
  end.

(** The rate conversions are inverse to each other: every rate survives the
    trip through Mbit/s, every integer that is the Mbit/s value of some rate
    survives the trip back, the multiples of 2.5 Gbit/s likewise, and the two
    tables agree ([mbps = 2500 * mult]) wherever a rate is such a multiple. *)
Theorem rate_conversions_roundtrip :
  (forall r, mbps_to_ibv_rate (ibv_rate_to_mbps r) = r) /\
  (forall z, mbps_to_ibv_rate z <> IBV_RATE_MAX -> ibv_rate_to_mbps (mbps_to_ibv_rate z) = z) /\
  (forall r, ibv_rate_to_mult r <> -1 -> mult_to_ibv_rate (ibv_rate_to_mult r) = r) /\
  (forall z, mult_to_ibv_rate z <> IBV_RATE_MAX -> ibv_rate_to_mult (mult_to_ibv_rate z) = z) /\
  (forall r, ibv_rate_to_mult r <> -1 -> ibv_rate_to_mbps r = 2500 * ibv_rate_to_mult r).
Proof.
  split_all.
  - by intros [].
  - intros z; unfold mbps_to_ibv_rate; repeat case_match; done.
  - by intros [].
  - intros z; unfold mult_to_ibv_rate; repeat case_match; done.
  - by intros [].
Qed.
