(* ===== verification/Stubs.v ===== *)
(** * The entry points that only announce themselves ([libibverbs/verbs.cpp],
      [librdmacm/rdma_cma.cpp])

    The interposed libraries define every function of the two interfaces, so that
    no call of an application reaches the real library by accident.  Those the
    software device does not implement print their name and return a constant:
    -1, [NULL], or nothing (0 here).  The machine they run on is shared with the
    header's inline functions ([VerbsApi]): the members of objects, [errno], and
    the lines printed, the last first. *)

From stdpp Require Import strings.
From S2P Require Import Prelude.

(** A member of an object is found by the object's address and its name; a
    member that is not there is not allocated. *)
Record mach := { m_members : gmap (Z * string) Z; m_errno : Z; m_out : list string }.

Definition print (line : string) (s : mach) : mach :=
  {| m_members := m_members s; m_errno := m_errno s; m_out := line :: m_out s |}.
Definition set_errno (e : Z) (s : mach) : mach :=
  {| m_members := m_members s; m_errno := e; m_out := m_out s |}.
Definition set_member (p : Z) (name : string) (v : Z) (s : mach) : mach :=
  {| m_members := <[(p, name) := v]> (m_members s); m_errno := m_errno s; m_out := m_out s |}.
Definition member (p : Z) (name : string) (s : mach) : run Z := deref (m_members s !! (p, name)).

(** [printf("name\\n"); return ret;] *)
Definition stub (name : string) (ret : Z) (s : mach) : run (Z * mach) := mret (ret, print name s).

(** ** [libibverbs/verbs.cpp] *)
Definition ibv_get_async_event (context event : Z) := stub "ibv_get_async_event" (-1).
Definition ibv_ack_async_event (event : Z) := stub "ibv_ack_async_event" 0.
Definition ibv_query_port (context port_num port_attr : Z) := stub "ibv_query_port" (-1).
Definition ibv_query_gid (context port_num index gid : Z) := stub "ibv_query_gid" (-1).
Definition ibv_query_pkey (context port_num index pkey : Z) := stub "ibv_query_gid" (-1).
Definition ibv_alloc_pd (context : Z) := stub "ibv_alloc_pd" 0.
Definition ibv_dealloc_pd (pd : Z) := stub "ibv_dealloc_pd" (-1).
Definition ibv_reg_mr (pd addr length access : Z) := stub "ibv_reg_mr" 0.
Definition ibv_rereg_mr (mr flags pd addr length access : Z) := stub "ibv_rereg_mr" (-1).
Definition ibv_dereg_mr (mr : Z) := stub "ibv_dereg_mr" (-1).
Definition ibv_create_comp_channel (context : Z) := stub "ibv_create_comp_channel" 0.
Definition ibv_destroy_comp_channel (channel : Z) := stub "ibv_destroy_comp_channel" (-1).
Definition ibv_create_cq (context cqe cq_context channel comp_vector : Z) := stub "ibv_create_cq" 0.
Definition ibv_resize_cq (cq cqe : Z) := stub "ibv_resize_cq" (-1).
Definition ibv_destroy_cq (cq : Z) := stub "ibv_destroy_cq" (-1).
Definition ibv_get_cq_event (channel cq cq_context : Z) := stub "ibv_get_cq_event" (-1).
Definition ibv_ack_cq_events (cq nevents : Z) := stub "ibv_ack_cq_events" 0.
Definition ibv_create_srq (pd srq_init_attr : Z) := stub "ibv_create_srq" 0.
Definition ibv_modify_srq (srq srq_attr srq_attr_mask : Z) := stub "ibv_modify_srq" (-1).
Definition ibv_query_srq (srq srq_attr : Z) := stub "ibv_query_srq" (-1).
Definition ibv_destroy_srq (srq : Z) := stub "ibv_destroy_srq" (-1).
Definition ibv_create_qp (pd qp_init_attr : Z) := stub "ibv_create_qp" 0.
Definition ibv_modify_qp (qp attr attr_mask : Z) := stub "ibv_modify_qp" (-1).
Definition ibv_query_qp (qp attr attr_mask init_attr : Z) := stub "ibv_query_qp" (-1).
Definition ibv_destroy_qp (qp : Z) := stub "ibv_destroy_qp" (-1).
Definition ibv_create_ah (pd attr : Z) := stub "ibv_create_ah" 0.
Definition ibv_init_ah_from_wc (context port_num wc grh ah_attr : Z) := stub "ibv_init_ah_from_wc" (-1).
Definition ibv_create_ah_from_wc (pd wc grh port_num : Z) := stub "ibv_create_ah_from_wc" 0.
Definition ibv_destroy_ah (ah : Z) := stub "ibv_destroy_ah" (-1).
Definition ibv_attach_mcast (qp gid lid : Z) := stub "ibv_attach_mcast" (-1).
Definition ibv_detach_mcast (qp gid lid : Z) := stub "ibv_detach_mcast" (-1).
Definition ibv_fork_init := stub "ibv_fork_init" (-1).
Definition ibv_resolve_eth_l2_from_gid (context attr eth_mac vid : Z) := stub "ibv_resolve_eth_l2_from_gid" (-1).
(** ** [librdmacm/rdma_cma.cpp] *)
Definition rdma_create_ep (id res pd qp_init_attr : Z) := stub "rdma_create_ep" (-1).
Definition rdma_destroy_ep (id : Z) := stub "rdma_destroy_ep" 0.
Definition rdma_bind_addr (id addr : Z) := stub "rdma_bind_addr" (-1).
Definition rdma_create_qp (id pd qp_init_attr : Z) := stub "rdma_create_qp" (-1).
Definition rdma_create_qp_ex (id qp_init_attr : Z) := stub "rdma_create_qp_ex" (-1).
Definition rdma_destroy_qp (id : Z) := stub "rdma_destroy_qp" 0.
Definition rdma_connect (id conn_param : Z) := stub "rdma_connect" (-1).
Definition rdma_establish (id : Z) := stub "rdma_establish" (-1).
Definition rdma_listen (id backlog : Z) := stub "rdma_listen" (-1).
Definition rdma_get_request (listen id : Z) := stub "rdma_get_request" (-1).
Definition rdma_accept (id conn_param : Z) := stub "rdma_accept" (-1).
Definition rdma_reject (id private_data private_data_len : Z) := stub "rdma_reject" (-1).
Definition rdma_reject_ece (id private_data private_data_len : Z) := stub "rdma_reject_ece" (-1).
Definition rdma_notify (id event : Z) := stub "rdma_notify" (-1).
Definition rdma_disconnect (id : Z) := stub "rdma_disconnect" (-1).
Definition rdma_join_multicast (id addr context : Z) := stub "rdma_join_multicast" (-1).
Definition rdma_leave_multicast (id addr : Z) := stub "rdma_leave_multicast" (-1).
Definition rdma_join_multicast_ex (id mc_join_attr context : Z) := stub "rdma_join_multicast_ex" (-1).
Definition rdma_get_src_port (id : Z) := stub "rdma_get_src_port" 65535.
Definition rdma_get_dst_port (id : Z) := stub "rdma_get_dst_port" 65535.
Definition rdma_get_devices (num_devices : Z) := stub "rdma_get_devices" 0.
Definition rdma_free_devices (list : Z) := stub "rdma_free_devices" 0.
Definition rdma_set_option (id level optname optval optlen : Z) := stub "rdma_set_option" (-1).
Definition rdma_migrate_id (id channel : Z) := stub "rdma_migrate_id" (-1).
Definition rdma_getaddrinfo (node service hints res : Z) := stub "rdma_getaddrinfo" (-1).
Definition rdma_freeaddrinfo (res : Z) := stub "rdma_freeaddrinfo" 0.
