(* ===== verification/VerbsApi.v ===== *)
(** * The inline half of the verbs interface ([libibverbs/verbs.h])

    An application compiles these functions into itself.  They find the device's
    functions in the context it opened: the old ones in the table [ops] inside
    the context, the extended ones in the [verbs_context] around it, which exists
    if [abi_compat] says so and of which an older provider has only the last [sz]
    bytes.

    - [verbs_get_ctx_op_spec]: an extended operation is looked up without reading
      anything the provider did not allocate;
    - [extended_verb_dispatch]: each is the provider's function, or fails;
    - [software_device_verbs]: what all of them do on the context
      [suiw_open_device] makes;
    - [ibv_inc_rkey_spec]: the next key of a memory window. *)

From stdpp Require Import strings.
From S2P Require Import Prelude Endian Verbs Interpose Stubs.

(** ** Constants and layouts *)
Definition ENOSYS : Z := 38.
Definition EINVAL : Z := 22.
Definition IBV_SRQ_INIT_ATTR_TYPE : Z := Z.shiftl 1 0.
Definition IBV_SRQ_INIT_ATTR_PD : Z := Z.shiftl 1 1.
Definition IBV_SRQT_BASIC : Z := 0.
Definition IBV_QP_INIT_ATTR_PD : Z := Z.shiftl 1 0.
Definition IBV_MW_TYPE_1 : Z := 1.
Definition IBV_LINK_LAYER_UNSPECIFIED : Z := 0.
(** [UINTPTR_MAX] *)
Definition VERBS_ABI_IS_EXTENDED : Z := 2 ^ 64 - 1.

(** The pointers of [ibv_context_ops], and the members of [ibv_context]. *)
Definition ibv_context_ops : list string :=
  ["_compat_query_device"; "_compat_query_port"; "_compat_alloc_pd"; "_compat_dealloc_pd";
   "_compat_reg_mr"; "_compat_rereg_mr"; "_compat_dereg_mr"; "alloc_mw"; "bind_mw";
   "dealloc_mw"; "_compat_create_cq"; "poll_cq"; "req_notify_cq"; "_compat_cq_event";
   "_compat_resize_cq"; "_compat_destroy_cq"; "_compat_create_srq"; "_compat_modify_srq";
   "_compat_query_srq"; "_compat_destroy_srq"; "post_srq_recv"; "_compat_create_qp";
   "_compat_query_qp"; "_compat_modify_qp"; "_compat_destroy_qp"; "post_send"; "post_recv";
   "_compat_create_ah"; "_compat_destroy_ah"; "_compat_attach_mcast"; "_compat_detach_mcast";
   "_compat_async_event"]%string.
Definition ibv_context_members : list string :=
  "device"%string :: map (String.append "ops.") ibv_context_ops ++
  ["cmd_fd"; "async_fd"; "num_comp_vectors"; "mutex"; "abi_compat"]%string.
(** [device], the table, three [int]s and their padding, a [pthread_mutex_t], and
    [abi_compat]. *)
Definition SIZEOF_IBV_CONTEXT : Z := 8 + 8 * zlen ibv_context_ops + 16 + 40 + 8.

(** The members of [verbs_context] before the context itself, eight bytes each. *)
Definition verbs_context_members : list string :=
  ["alloc_null_mr"; "read_counters"; "attach_counters_point_flow"; "create_counters";
   "destroy_counters"; "reg_dm_mr"; "alloc_dm"; "free_dm"; "modify_flow_action_esp";
   "destroy_flow_action"; "create_flow_action_esp"; "modify_qp_rate_limit";
   "alloc_parent_domain"; "dealloc_td"; "alloc_td"; "modify_cq"; "post_srq_ops";
   "destroy_rwq_ind_table"; "create_rwq_ind_table"; "destroy_wq"; "modify_wq"; "create_wq";
   "query_rt_values"; "create_cq_ex"; "priv"; "query_device_ex"; "ibv_destroy_flow";
   "ABI_placeholder2"; "ibv_create_flow"; "ABI_placeholder1"; "open_qp"; "create_qp_ex";
   "get_srq_num"; "create_srq_ex"; "open_xrcd"; "close_xrcd"; "_ABI_placeholder3"; "sz"]%string.
Fixpoint field_index (name : string) (l : list string) : Z :=
  match l with
  | [] => 0
  | x :: l => if bool_decide (x = name) then 0 else 1 + field_index name l
  end.
Definition offsetof (name : string) : Z := 8 * field_index name verbs_context_members.
Definition offsetof_context : Z := 8 * zlen verbs_context_members.
Definition SIZEOF_VERBS_CONTEXT : Z := offsetof_context + SIZEOF_IBV_CONTEXT.

(** The members of [ibv_device_attr_ex]. *)
Definition attr_ex_members : list string :=
  ["orig_attr"; "comp_mask"; "odp_caps"; "completion_timestamp_mask"; "hca_core_clock";
   "device_cap_flags_ex"; "tso_caps"; "rss_caps"; "max_wq_type_rq"; "packet_pacing_caps";
   "raw_packet_caps"; "tm_caps"; "cq_mod_caps"; "max_dm_size"]%string.

(** ** Finding an operation *)

(** [container_of]: the [verbs_context] around the context, or [NULL]. *)
Definition verbs_get_ctx (ctx : Z) (s : mach) : run (option Z) :=
  abi ← member ctx "abi_compat" s;
  mret (if abi =? VERBS_ABI_IS_EXTENDED then Some (ctx - offsetof_context) else None).

(** The macro [verbs_get_ctx_op], with its short-circuit evaluation. *)
Definition verbs_get_ctx_op (ctx : Z) (op : string) (s : mach) : run (option Z) :=
  v ← verbs_get_ctx ctx s;
  match v with
  | None => mret None
  | Some vctx =>
      sz ← member vctx "sz" s;
      if sz <? SIZEOF_VERBS_CONTEXT - offsetof op then mret None
      else f ← member vctx op s; mret (if f =? 0 then None else Some vctx)
  end.

Definition null_enosys (s : mach) : run (Z * mach) := mret (0, set_errno ENOSYS s).
Definition enosys (ret : Z) (s : mach) : run (Z * mach) := mret (ret, s).

(** [ibv_inc_rkey] *)
Definition ibv_inc_rkey (rkey : Z) : Z :=
  let mask := 0x000000ff in
  let newtag := u8 (Z.land (u32 (rkey + 1)) mask) in
  Z.lor (Z.land rkey (u32 (Z.lnot mask))) newtag.

(** [1 << qpt] is an [int]: defined below bit 31, and at bit 31 in practice. *)
Definition ibv_is_qpt_supported (caps qpt : Z) : Z :=
  if Z.land caps (u32 (Z.shiftl 1 qpt)) =? 0 then 0 else 1.

Definition ibv_cq_ex_to_cq (cq : Z) : Z := cq.

Section verbs.
(** The code behind function pointers; [ibv_query_device] of the interposed
    library; [sizeof(struct ibv_device_attr_ex)]. *)
Variable code : Z -> option (list Z -> mach -> run (Z * mach)).
Variable ibv_query_device : Z -> Z -> mach -> run (Z * mach).
Variable SIZEOF_ATTR_EX : Z.

Definition call (f : Z) (args : list Z) (s : mach) : run (Z * mach) :=
  if f =? 0 then Undefined else p ← deref (code f); p args s.

(** [vctx = verbs_get_ctx_op(ctx, op); if (!vctx) fail; return vctx->op(args);] *)
Definition call_ext (ctx : Z) (op : string) (args : list Z) (fail : mach -> run (Z * mach)) (s : mach)
  : run (Z * mach) :=
  v ← verbs_get_ctx_op ctx op s;
  match v with
  | None => fail s
  | Some vctx => f ← member vctx op s; call f args s
  end.

(** [return obj->context->ops.op(args);] *)
Definition call_ops (obj : Z) (op : string) (args : list Z) (s : mach) : run (Z * mach) :=
  context ← member obj "context" s; f ← member context (String.append "ops." op) s; call f args s.

(** Verbs that return a pointer and take the context itself. *)
Definition ibv_create_flow_action_esp (ctx esp : Z) (s : mach) : run (Z * mach) :=
  call_ext ctx "create_flow_action_esp" [ctx; esp] null_enosys s.
Definition ibv_open_xrcd (context xrcd_init_attr : Z) (s : mach) : run (Z * mach) :=
  call_ext context "open_xrcd" [context; xrcd_init_attr] null_enosys s.
Definition ibv_alloc_dm (context attr : Z) (s : mach) : run (Z * mach) :=
  call_ext context "alloc_dm" [context; attr] null_enosys s.
Definition ibv_create_cq_ex (context cq_attr : Z) (s : mach) : run (Z * mach) :=
  call_ext context "create_cq_ex" [context; cq_attr] null_enosys s.
Definition ibv_alloc_td (context init_attr : Z) (s : mach) : run (Z * mach) :=
  call_ext context "alloc_td" [context; init_attr] null_enosys s.
Definition ibv_alloc_parent_domain (context attr : Z) (s : mach) : run (Z * mach) :=
  call_ext context "alloc_parent_domain" [context; attr] null_enosys s.
Definition ibv_open_qp (context qp_open_attr : Z) (s : mach) : run (Z * mach) :=
  call_ext context "open_qp" [context; qp_open_attr] null_enosys s.
Definition ibv_create_rwq_ind_table (context init_attr : Z) (s : mach) : run (Z * mach) :=
  call_ext context "create_rwq_ind_table" [context; init_attr] null_enosys s.
Definition ibv_create_counters (context init_attr : Z) (s : mach) : run (Z * mach) :=
  call_ext context "create_counters" [context; init_attr] null_enosys s.

(** Verbs that return a pointer and find the context in an object. *)
Definition ibv_create_flow (qp flow : Z) (s : mach) : run (Z * mach) :=
  context ← member qp "context" s; call_ext context "ibv_create_flow" [qp; flow] null_enosys s.
Definition ibv_alloc_null_mr (pd : Z) (s : mach) : run (Z * mach) :=
  context ← member pd "context" s; call_ext context "alloc_null_mr" [pd] null_enosys s.
Definition ibv_reg_dm_mr (pd dm dm_offset length access : Z) (s : mach) : run (Z * mach) :=
  context ← member pd "context" s; call_ext context "reg_dm_mr" [pd; dm; dm_offset; length; access] null_enosys s.

(** Verbs that return an error number. *)
Definition ibv_query_rt_values_ex (context values : Z) (s : mach) : run (Z * mach) :=
  call_ext context "query_rt_values" [context; values] (enosys ENOSYS) s.
Definition ibv_modify_flow_action_esp (action esp : Z) (s : mach) : run (Z * mach) :=
  context ← member action "context" s;
  call_ext context "modify_flow_action_esp" [action; esp] (enosys ENOSYS) s.
Definition ibv_destroy_flow_action (action : Z) (s : mach) : run (Z * mach) :=
  context ← member action "context" s;
  call_ext context "destroy_flow_action" [action] (enosys ENOSYS) s.
Definition ibv_free_dm (dm : Z) (s : mach) : run (Z * mach) :=
  context ← member dm "context" s;
  call_ext context "free_dm" [dm] (enosys ENOSYS) s.
Definition ibv_modify_cq (cq attr : Z) (s : mach) : run (Z * mach) :=
  context ← member cq "context" s;
  call_ext context "modify_cq" [cq; attr] (enosys ENOSYS) s.
Definition ibv_get_srq_num (srq srq_num : Z) (s : mach) : run (Z * mach) :=
  context ← member srq "context" s;
  call_ext context "get_srq_num" [srq; srq_num] (enosys ENOSYS) s.
Definition ibv_dealloc_td (td : Z) (s : mach) : run (Z * mach) :=
  context ← member td "context" s;
  call_ext context "dealloc_td" [td] (enosys ENOSYS) s.
Definition ibv_modify_qp_rate_limit (qp attr : Z) (s : mach) : run (Z * mach) :=
  context ← member qp "context" s;
  call_ext context "modify_qp_rate_limit" [qp; attr] (enosys ENOSYS) s.
Definition ibv_modify_wq (wq wq_attr : Z) (s : mach) : run (Z * mach) :=
  context ← member wq "context" s;
  call_ext context "modify_wq" [wq; wq_attr] (enosys ENOSYS) s.
Definition ibv_destroy_wq (wq : Z) (s : mach) : run (Z * mach) :=
  context ← member wq "context" s;
  call_ext context "destroy_wq" [wq] (enosys ENOSYS) s.
Definition ibv_destroy_rwq_ind_table (rwq_ind_table : Z) (s : mach) : run (Z * mach) :=
  context ← member rwq_ind_table "context" s;
  call_ext context "destroy_rwq_ind_table" [rwq_ind_table] (enosys ENOSYS) s.
Definition ibv_destroy_counters (counters : Z) (s : mach) : run (Z * mach) :=
  context ← member counters "context" s;
  call_ext context "destroy_counters" [counters] (enosys ENOSYS) s.
Definition ibv_attach_counters_point_flow (counters attr flow : Z) (s : mach) : run (Z * mach) :=
  context ← member counters "context" s;
  call_ext context "attach_counters_point_flow" [counters; attr; flow] (enosys ENOSYS) s.
Definition ibv_read_counters (counters counters_value ncounters flags : Z) (s : mach) : run (Z * mach) :=
  context ← member counters "context" s;
  call_ext context "read_counters" [counters; counters_value; ncounters; flags] (enosys ENOSYS) s.
(** This one returns the number negated. *)
Definition ibv_destroy_flow (flow_id : Z) (s : mach) : run (Z * mach) :=
  context ← member flow_id "context" s;
  call_ext context "ibv_destroy_flow" [flow_id] (enosys (- ENOSYS)) s.
(** [*bad_op = op] on failure. *)
Definition ibv_post_srq_ops (srq op bad_op : Z) (s : mach) : run (Z * mach) :=
  context ← member srq "context" s;
  call_ext context "post_srq_ops" [srq; op; bad_op] (fun s => enosys ENOSYS (set_member bad_op "*" op s)) s.
(** The result of [verbs_get_ctx] and the pointer are used unchecked. *)
Definition ibv_close_xrcd (xrcd : Z) (s : mach) : run (Z * mach) :=
  context ← member xrcd "context" s; v ← verbs_get_ctx context s;
  vctx ← deref v; f ← member vctx "close_xrcd" s; call f [xrcd] s.
(** A queue the provider made gets its counter, mutex and condition initialised. *)
Definition ibv_create_wq (context wq_init_attr : Z) (s : mach) : run (Z * mach) :=
  v ← verbs_get_ctx_op context "create_wq" s;
  match v with
  | None => null_enosys s
  | Some vctx =>
      f ← member vctx "create_wq" s;
      '(wq, s) ← call f [context; wq_init_attr] s;
      if wq =? 0 then mret (wq, s)
      else mret (wq, set_member wq "cond" 0 (set_member wq "mutex" 0 (set_member wq "events_completed" 0 s)))
  end.

(** The tests on [comp_mask] and [srq_type] that choose the old entry point. *)
Definition basic_srq (mask srq_type : Z) : bool :=
  (Z.land mask (Z.lnot (Z.lor IBV_SRQ_INIT_ATTR_PD IBV_SRQ_INIT_ATTR_TYPE)) =? 0) &&
  negb (Z.land mask IBV_SRQ_INIT_ATTR_PD =? 0) &&
  ((Z.land mask IBV_SRQ_INIT_ATTR_TYPE =? 0) || (srq_type =? IBV_SRQT_BASIC)).
Definition ibv_create_srq_ex (context srq_init_attr_ex : Z) (s : mach) : run (Z * mach) :=
  mask ← member srq_init_attr_ex "comp_mask" s;
  srq_type ← member srq_init_attr_ex "srq_type" s;
  if basic_srq mask srq_type
  then pd ← member srq_init_attr_ex "pd" s; ibv_create_srq pd srq_init_attr_ex s
  else call_ext context "create_srq_ex" [context; srq_init_attr_ex] null_enosys s.
Definition ibv_create_qp_ex (context qp_init_attr_ex : Z) (s : mach) : run (Z * mach) :=
  mask ← member qp_init_attr_ex "comp_mask" s;
  if mask =? IBV_QP_INIT_ATTR_PD
  then pd ← member qp_init_attr_ex "pd" s; ibv_create_qp pd qp_init_attr_ex s
  else call_ext context "create_qp_ex" [context; qp_init_attr_ex] null_enosys s.

(** The [memset] of the whole struct. *)
Definition zero_attr_ex (attr : Z) (s : mach) : mach := foldl (fun s m => set_member attr m 0 s) s attr_ex_members.
(** The old entry point when there is no extended one, or when it says so. *)
Definition ibv_query_device_ex (context input attr : Z) (s : mach) : run (Z * mach) :=
  let legacy (s : mach) := ibv_query_device context attr (zero_attr_ex attr s) in
  v ← verbs_get_ctx_op context "query_device_ex" s;
  match v with
  | None => legacy s
  | Some vctx =>
      f ← member vctx "query_device_ex" s;
      '(ret, s) ← call f [context; input; attr; SIZEOF_ATTR_EX] s;
      if ret =? ENOSYS then legacy s else mret (ret, s)
  end.

(** What the name [ibv_query_port] means to a user of the header. *)
Definition ___ibv_query_port (context port_num port_attr : Z) (s : mach) : run (Z * mach) :=
  ibv_query_port context port_num port_attr
    (set_member port_attr "flags" 0 (set_member port_attr "link_layer" IBV_LINK_LAYER_UNSPECIFIED s)).

(** Verbs served by the context's own table: the pointers are not checked. *)
Definition ibv_dealloc_mw (mw : Z) (s : mach) : run (Z * mach) :=
  call_ops mw "dealloc_mw" [mw] s.
Definition ibv_poll_cq (cq num_entries wc : Z) (s : mach) : run (Z * mach) :=
  call_ops cq "poll_cq" [cq; num_entries; wc] s.
Definition ibv_req_notify_cq (cq solicited_only : Z) (s : mach) : run (Z * mach) :=
  call_ops cq "req_notify_cq" [cq; solicited_only] s.
Definition ibv_post_srq_recv (srq recv_wr bad_recv_wr : Z) (s : mach) : run (Z * mach) :=
  call_ops srq "post_srq_recv" [srq; recv_wr; bad_recv_wr] s.
Definition ibv_post_send (qp wr bad_wr : Z) (s : mach) : run (Z * mach) :=
  call_ops qp "post_send" [qp; wr; bad_wr] s.
Definition ibv_post_recv (qp wr bad_wr : Z) (s : mach) : run (Z * mach) :=
  call_ops qp "post_recv" [qp; wr; bad_wr] s.
Definition ibv_bind_mw (qp mw mw_bind : Z) (s : mach) : run (Z * mach) :=
  type ← member mw "type" s;
  if negb (type =? IBV_MW_TYPE_1) then mret (EINVAL, s) else call_ops mw "bind_mw" [qp; mw; mw_bind] s.
(** The only one of them that looks at its pointer. *)
Definition ibv_alloc_mw (pd type : Z) (s : mach) : run (Z * mach) :=
  context ← member pd "context" s; f ← member context "ops.alloc_mw" s;
  if f =? 0 then null_enosys s else call f [pd; type] s.

(** Calls through a pointer kept in the object itself. *)
Definition ibv_start_poll (cq attr : Z) (s : mach) : run (Z * mach) :=
  f ← member cq "start_poll" s; call f [cq; attr] s.
Definition ibv_next_poll (cq : Z) (s : mach) : run (Z * mach) :=
  f ← member cq "next_poll" s; call f [cq] s.
Definition ibv_end_poll (cq : Z) (s : mach) : run (Z * mach) :=
  f ← member cq "end_poll" s; call f [cq] s.
Definition ibv_wc_read_opcode (cq : Z) (s : mach) : run (Z * mach) :=
  f ← member cq "read_opcode" s; call f [cq] s.
Definition ibv_wc_read_vendor_err (cq : Z) (s : mach) : run (Z * mach) :=
  f ← member cq "read_vendor_err" s; call f [cq] s.
Definition ibv_wc_read_byte_len (cq : Z) (s : mach) : run (Z * mach) :=
  f ← member cq "read_byte_len" s; call f [cq] s.
Definition ibv_wc_read_imm_data (cq : Z) (s : mach) : run (Z * mach) :=
  f ← member cq "read_imm_data" s; call f [cq] s.
Definition ibv_wc_read_invalidated_rkey (cq : Z) (s : mach) : run (Z * mach) :=
  f ← member cq "read_imm_data" s; call f [cq] s.
Definition ibv_wc_read_qp_num (cq : Z) (s : mach) : run (Z * mach) :=
  f ← member cq "read_qp_num" s; call f [cq] s.
Definition ibv_wc_read_src_qp (cq : Z) (s : mach) : run (Z * mach) :=
  f ← member cq "read_src_qp" s; call f [cq] s.
Definition ibv_wc_read_wc_flags (cq : Z) (s : mach) : run (Z * mach) :=
  f ← member cq "read_wc_flags" s; call f [cq] s.
Definition ibv_wc_read_slid (cq : Z) (s : mach) : run (Z * mach) :=
  f ← member cq "read_slid" s; call f [cq] s.
Definition ibv_wc_read_sl (cq : Z) (s : mach) : run (Z * mach) :=
  f ← member cq "read_sl" s; call f [cq] s.
Definition ibv_wc_read_dlid_path_bits (cq : Z) (s : mach) : run (Z * mach) :=
  f ← member cq "read_dlid_path_bits" s; call f [cq] s.
Definition ibv_wc_read_completion_ts (cq : Z) (s : mach) : run (Z * mach) :=
  f ← member cq "read_completion_ts" s; call f [cq] s.
Definition ibv_wc_read_completion_wallclock_ns (cq : Z) (s : mach) : run (Z * mach) :=
  f ← member cq "read_completion_wallclock_ns" s; call f [cq] s.
Definition ibv_wc_read_cvlan (cq : Z) (s : mach) : run (Z * mach) :=
  f ← member cq "read_cvlan" s; call f [cq] s.
Definition ibv_wc_read_flow_tag (cq : Z) (s : mach) : run (Z * mach) :=
  f ← member cq "read_flow_tag" s; call f [cq] s.
Definition ibv_wc_read_tm_info (cq tm_info : Z) (s : mach) : run (Z * mach) :=
  f ← member cq "read_tm_info" s; call f [cq; tm_info] s.
Definition ibv_post_wq_recv (wq recv_wr bad_recv_wr : Z) (s : mach) : run (Z * mach) :=
  f ← member wq "post_recv" s; call f [wq; recv_wr; bad_recv_wr] s.
Definition ibv_memcpy_to_dm (dm dm_offset host_addr length : Z) (s : mach) : run (Z * mach) :=
  f ← member dm "memcpy_to_dm" s; call f [dm; dm_offset; host_addr; length] s.
Definition ibv_memcpy_from_dm (host_addr dm dm_offset length : Z) (s : mach) : run (Z * mach) :=
  f ← member dm "memcpy_from_dm" s; call f [host_addr; dm; dm_offset; length] s.

(** ** Strings from the real library ([verbs.cpp], [rdma_cma.cpp]) *)
Definition ibv_node_type_str (tbl : gmap string Z) (node_type : Z) (s : mach) : run (Z * mach) :=
  f ← real_call tbl "node_type_str"; call f [node_type] s.
Definition ibv_port_state_str (tbl : gmap string Z) (port_state : Z) (s : mach) : run (Z * mach) :=
  f ← real_call tbl "port_state_str"; call f [port_state] s.
Definition ibv_event_type_str (tbl : gmap string Z) (event : Z) (s : mach) : run (Z * mach) :=
  f ← real_call tbl "event_type_str"; call f [event] s.
Definition rdma_event_str (tbl : gmap string Z) (event : Z) (s : mach) : run (Z * mach) :=
  f ← real_call tbl "event_str"; call f [event] s.
End verbs.

(** What [suiw_open_device] leaves at [context] ([memset] and one assignment). *)
Definition suiw_context (context device : Z) (s : mach) : mach :=
  set_member context "device" device (foldl (fun s m => set_member context m 0 s) s ibv_context_members).

(** ** Finding an operation reads only what is there *)

Lemma member_set p f v q g s :
  member q g (set_member p f v s) = if decide ((q, g) = (p, f)) then Done v else member q g s.
Proof.
  unfold member, set_member; cbn [m_members]; case_decide as E; simplify_eq.
  - by rewrite lookup_insert_eq.
  - by rewrite lookup_insert_ne by congruence.
Qed.

(** What a provider of extended operations vouches for: [sz] bytes, counted from
    the end of the structure, are its own. *)
Definition provides (ctx sz : Z) (s : mach) : Prop :=
  member ctx "abi_compat" s = Done VERBS_ABI_IS_EXTENDED /\
  member (ctx - offsetof_context) "sz" s = Done sz /\
  forall op, op ∈ verbs_context_members -> SIZEOF_VERBS_CONTEXT - offsetof op <= sz ->
    exists f, member (ctx - offsetof_context) op s = Done f.

(** C33: Looking up an extended operation of a context whose provider was built
    against any version of the structure reads nothing outside the [sz] bytes the
    provider allocated, and finds the operation exactly when it lies within them
    and its pointer is not [NULL]. *)
Theorem verbs_get_ctx_op_spec ctx sz op s :
  provides ctx sz s -> op ∈ verbs_context_members ->
  exists r, verbs_get_ctx_op ctx op s = Done r /\
    (r = None \/ r = Some (ctx - offsetof_context)) /\
    (r <> None <-> SIZEOF_VERBS_CONTEXT - offsetof op <= sz /\
       exists f, f <> 0 /\ member (ctx - offsetof_context) op s = Done f).
Proof.
  intros (Ha & Hs & Hm) Hop; unfold verbs_get_ctx_op, verbs_get_ctx.
  rewrite Ha, bind_Done, Z.eqb_refl; unfold mret, run_ret; rewrite bind_Done, Hs, bind_Done.
  case_Z.
  - exists None; split; [done|]; split; [by left|]; split; [done|]; intros [? _]; lia.
  - destruct (Hm op Hop) as [f Hf]; [lia|]; rewrite Hf, bind_Done.
    destruct (Z.eqb_spec f 0) as [->|Hne].
    + exists None; split; [done|]; split; [by left|]; split; [done|].
      intros (_ & f & ? & [= <-]); done.
    + exists (Some (ctx - offsetof_context)); split; [done|]; split; [by right|]; split; [|done].
      intros _; split; [lia|]; by exists f.
Qed.

(** A provider that knows the structure only from [query_device_ex] on. *)
Definition old_provider : mach :=
  foldl (fun s m => set_member (4096 - offsetof_context) m 0x100 s)
    (set_member (4096 - offsetof_context) "sz" (SIZEOF_VERBS_CONTEXT - offsetof "query_device_ex")
       (set_member 4096 "abi_compat" VERBS_ABI_IS_EXTENDED {| m_members := ∅; m_errno := 0; m_out := [] |}))
    (drop 25 (take 37 verbs_context_members)).

Definition provides_b (ctx sz : Z) (s : mach) : bool :=
  forallb (fun op => negb (SIZEOF_VERBS_CONTEXT - offsetof op <=? sz) ||
             match member (ctx - offsetof_context) op s with Done _ => true | _ => false end)
    verbs_context_members.
Lemma provides_b_ok ctx sz s :
  member ctx "abi_compat" s = Done VERBS_ABI_IS_EXTENDED ->
  member (ctx - offsetof_context) "sz" s = Done sz -> provides_b ctx sz s = true -> provides ctx sz s.
Proof.
  intros H1 H2 H3; split; [done|]; split; [done|]; intros op Hop Hle.
  unfold provides_b in H3; rewrite forallb_forall in H3.
  specialize (H3 op (proj1 (list_elem_of_In _ _) Hop)).
  destruct (Z.leb_spec (SIZEOF_VERBS_CONTEXT - offsetof op) sz); [|lia]; cbn in H3.
  destruct (member _ op s) as [f| | |]; try done; by exists f.
Qed.

Lemma verbs_get_ctx_op_spec_witness :
  exists r, verbs_get_ctx_op 4096 "alloc_td" old_provider = Done r /\
    (r = None \/ r = Some (4096 - offsetof_context)) /\
    (r <> None <-> SIZEOF_VERBS_CONTEXT - offsetof "alloc_td" <= SIZEOF_VERBS_CONTEXT - offsetof "query_device_ex" /\
       exists f, f <> 0 /\ member (4096 - offsetof_context) "alloc_td" old_provider = Done f).
Proof.
  apply (verbs_get_ctx_op_spec 4096 (SIZEOF_VERBS_CONTEXT - offsetof "query_device_ex") "alloc_td" old_provider).
  - apply provides_b_ok; vm_compute; reflexivity.
  - apply (bool_decide_unpack _); vm_compute; reflexivity.
Defined.

Example old_provider_lacks_alloc_td : verbs_get_ctx_op 4096 "alloc_td" old_provider = Done None.
Proof. vm_compute; reflexivity. Qed.
Example old_provider_has_open_xrcd :
  verbs_get_ctx_op 4096 "open_xrcd" old_provider = Done (Some (4096 - offsetof_context)).
Proof. vm_compute; reflexivity. Qed.

(** Every extended verb is the provider's function, called with the verb's own
    arguments, or its failure; nothing else happens. *)
Lemma extended_verb_dispatch code ctx sz op args fail s :
  provides ctx sz s -> op ∈ verbs_context_members ->
  call_ext code ctx op args fail s =
  match member (ctx - offsetof_context) op s with
  | Done f => if (SIZEOF_VERBS_CONTEXT - offsetof op <=? sz) && negb (f =? 0)
              then call code f args s else fail s
  | _ => fail s
  end.
Proof.
  intros (Ha & Hs & Hm) Hop; unfold call_ext, verbs_get_ctx_op, verbs_get_ctx.
  rewrite Ha, bind_Done, Z.eqb_refl; unfold mret, run_ret; rewrite bind_Done, Hs, bind_Done.
  destruct (Z.ltb_spec sz (SIZEOF_VERBS_CONTEXT - offsetof op)).
  - destruct (Z.leb_spec (SIZEOF_VERBS_CONTEXT - offsetof op) sz); [lia|].
    by destruct (member _ op s).
  - destruct (Hm op Hop) as [f Hf]; [lia|]; rewrite Hf, bind_Done.
    destruct (Z.leb_spec (SIZEOF_VERBS_CONTEXT - offsetof op) sz); [|lia].
    destruct (Z.eqb_spec f 0); cbn [andb negb]; rewrite bind_Done; [done|]; by rewrite Hf, bind_Done.
Qed.

(** ** The software device *)

Lemma zeroed_member context ms m s :
  m ∈ ms -> member context m (foldl (fun s m => set_member context m 0 s) s ms) = Done 0.
Proof.
  revert s; induction ms as [|x ms IH] using rev_ind; intros s; [by intros ?%elem_of_nil|].
  rewrite foldl_app; cbn [foldl]; rewrite member_set, elem_of_app, list_elem_of_singleton.
  case_decide as E; [done|]; intros [H|H]; [by apply IH|]; by subst.
Qed.

Lemma suiw_context_zero context device s m :
  m ∈ ibv_context_members -> m <> "device"%string -> member context m (suiw_context context device s) = Done 0.
Proof.
  intros Hm Hd; unfold suiw_context; rewrite member_set; case_decide as E; [congruence|].
  by apply zeroed_member.
Qed.

Section software.
Variables (code : Z -> option (list Z -> mach -> run (Z * mach))) (context : Z) (s : mach).
Hypothesis zeroed : forall m, m ∈ ibv_context_members -> m <> "device"%string -> member context m s = Done 0.

Lemma software_get_ctx : verbs_get_ctx context s = Done None.
Proof.
  unfold verbs_get_ctx; rewrite zeroed; [done| |done].
  apply (bool_decide_unpack _); vm_compute; reflexivity.
Qed.

Lemma software_ext op args fail : call_ext code context op args fail s = fail s.
Proof. unfold call_ext, verbs_get_ctx_op; by rewrite software_get_ctx. Qed.

Lemma software_ops obj op args :
  member obj "context" s = Done context -> op ∈ ibv_context_ops -> call_ops code obj op args s = Undefined.
Proof.
  intros Ho Hop; unfold call_ops; rewrite Ho, bind_Done, zeroed; [done| |done].
  right; apply elem_of_app; left; apply list_elem_of_fmap; by exists op.
Qed.
End software.

(** The two constructors of the header that may use the old entry points, and the
    extended query: on the software device the old ones are stubs, and the query
    clears the caller's struct and reports the device's -1. *)
Lemma software_device_fallbacks code context device attr pd srq_type mask input size s0 :
  let s := suiw_context context device s0 in
  member attr "comp_mask" s = Done mask -> member attr "srq_type" s = Done srq_type ->
  member attr "pd" s = Done pd ->
  ibv_create_srq_ex code context attr s =
    (if basic_srq mask srq_type then Done (0, print "ibv_create_srq" s) else Done (0, set_errno ENOSYS s)) /\
  ibv_create_qp_ex code context attr s =
    (if mask =? IBV_QP_INIT_ATTR_PD then Done (0, print "ibv_create_qp" s) else Done (0, set_errno ENOSYS s)) /\
  ibv_query_device_ex code (fun _ _ s => Done (suiw_query_device, s)) size context input attr s =
    Done (-1, zero_attr_ex attr s).
Proof.
  intros s Hm Ht Hp; pose proof (suiw_context_zero context device s0) as Hz; fold s in Hz.
  pose proof (software_ext code context s (fun m => Hz m)) as He.
  pose proof (software_get_ctx context s (fun m => Hz m)) as Hg.
  split; [|split].
  - unfold ibv_create_srq_ex; rewrite Hm, bind_Done, Ht, bind_Done.
    destruct (basic_srq mask srq_type); [by rewrite Hp|apply He].
  - unfold ibv_create_qp_ex; rewrite Hm, bind_Done; destruct (mask =? _); [by rewrite Hp|apply He].
  - unfold ibv_query_device_ex, verbs_get_ctx_op; by rewrite Hg.
Qed.


(** ** Keys of memory windows *)
Lemma land_not_low k : in_u 32 k -> Z.land k (u32 (Z.lnot (Z.ones 8))) = Z.shiftl (k / 256) 8.
Proof.
  intros Hk; change (u32 (Z.lnot (Z.ones 8))) with (Z.shiftl (Z.ones 24) 8).
  change 256 with (2 ^ 8); rewrite <- Z.shiftr_div_pow2 by lia.
  apply Z.bits_inj'; intros i Hi; rewrite Z.land_spec.
  destruct (Z.ltb_spec i 8); [by rewrite !Z.shiftl_spec_low, andb_false_r by lia|].
  rewrite !Z.shiftl_spec, Z.shiftr_spec by lia; replace (i - 8 + 8) with i by lia.
  destruct (Z.ltb_spec (i - 8) 24); [by rewrite Z.ones_spec_low, andb_true_r by lia|].
  rewrite Z.ones_spec_high, andb_false_r by lia; symmetry.
  rewrite <- (Z.mod_small k (2 ^ 32)) by exact Hk; by apply Z.mod_pow2_bits_high; lia.
Qed.

Lemma inc_rkey_eq k : in_u 32 k -> ibv_inc_rkey k = 256 * (k / 256) + (k + 1) mod 256.
Proof.
  intros Hk; unfold ibv_inc_rkey; cbv zeta.
  change 0x000000ff with (Z.ones 8); rewrite land_not_low by done.
  rewrite Z.land_ones by lia; change (2 ^ 8) with 256.
  assert (u8 (u32 (k + 1) mod 256) = (k + 1) mod 256) as ->.
  { unfold wrap; change (2 ^ 8) with 256; rewrite Z.mod_mod by lia.
    apply Z.mod_mod_divide; by exists (2 ^ 24). }
  rewrite lor_shiftl_add by (try lia; apply Z.mod_pos_bound; lia); change (2 ^ 8) with 256; lia.
Qed.

Lemma inc_rkey_range k : in_u 32 k -> in_u 32 (ibv_inc_rkey k).
Proof.
  intros Hk; rewrite inc_rkey_eq by done; unfold in_u in *; change (2 ^ 32) with 4294967296 in *.
  pose proof (Z.mod_pos_bound (k + 1) 256); pose proof (Z.div_mod k 256).
  pose proof (Z.div_lt_upper_bound k 256 16777216); pose proof (Z.div_pos k 256); lia.
Qed.

Lemma inc_rkey_iter n k :
  in_u 32 k -> Nat.iter n ibv_inc_rkey k = 256 * (k / 256) + (k + Z.of_nat n) mod 256 /\
  in_u 32 (Nat.iter n ibv_inc_rkey k).
Proof.
  intros Hk; induction n as [|n [IH IHr]].
  { split; [|done]; rewrite Z.add_0_r; apply Z.div_mod; lia. }
  rewrite Nat.iter_succ; split; [|by apply inc_rkey_range].
  rewrite inc_rkey_eq, IH by done; set (x := k + Z.of_nat n).
  replace (k + Z.of_nat (S n)) with (x + 1) by lia; clearbody x.
  pose proof (Z.mod_pos_bound x 256 ltac:(lia)).
  set (q := k / 256); assert ((256 * q + x mod 256) / 256 = q) as ->.
  { rewrite (Z.mul_comm 256), Z.div_add_l, (Z.div_small (x mod 256)) by lia; lia. }
  f_equal; rewrite <- Z.add_assoc, Z.add_comm, (Z.mul_comm 256), Z_mod_plus_full; apply Zplus_mod_idemp_l.
Qed.

(** [ibv_inc_rkey] adds one to the low eight bits of a key, wrapping around
    from 255 to 0, and leaves the other twenty-four alone; 256 calls come back to
    the key they started from. *)
Theorem ibv_inc_rkey_spec rkey :
  in_u 32 rkey ->
  ibv_inc_rkey rkey = 256 * (rkey / 256) + (rkey + 1) mod 256 /\ in_u 32 (ibv_inc_rkey rkey) /\
  Nat.iter 256 ibv_inc_rkey rkey = rkey.
Proof.
  intros Hk; split; [by apply inc_rkey_eq|]; split; [by apply inc_rkey_range|].
  rewrite (proj1 (inc_rkey_iter 256 rkey Hk)); change (Z.of_nat 256) with (1 * 256).
  rewrite Z_mod_plus_full; symmetry; apply Z.div_mod; lia.
Qed.

Lemma ibv_inc_rkey_spec_witness :
  ibv_inc_rkey 0x12ff = 0x1200 /\ in_u 32 (ibv_inc_rkey 0x12ff) /\ Nat.iter 256 ibv_inc_rkey 0x12ff = 0x12ff.
Proof. apply (ibv_inc_rkey_spec 0x12ff); vm_compute; split; [discriminate|reflexivity]. Defined.

