(* ===== verification/Cm.v ===== *)
(** * Connection management in the library ([libsuiw/softuiwarp.cpp],
      [libsuiw/libsuiw_internal.h], [librdmacm/rdma_cma.h], [librdmacm/rdma_cma.cpp])

    The library keeps one TCP connection to the daemon for control messages and
    one per event channel.  Resolving an address or a route sends a ready-made
    event on the channel; the daemon is expected to send it back, and
    [rdma_get_cm_event] reads it.  [Daemon.v] is the other end. *)

From stdpp Require Import strings.
From S2P Require Import Prelude Endian Socket Verbs.

(** ** Types of [rdma_cma.h] *)
Inductive rdma_cm_event_type :=
| RDMA_CM_EVENT_ADDR_RESOLVED | RDMA_CM_EVENT_ADDR_ERROR | RDMA_CM_EVENT_ROUTE_RESOLVED
| RDMA_CM_EVENT_ROUTE_ERROR | RDMA_CM_EVENT_CONNECT_REQUEST | RDMA_CM_EVENT_CONNECT_RESPONSE
| RDMA_CM_EVENT_CONNECT_ERROR | RDMA_CM_EVENT_UNREACHABLE | RDMA_CM_EVENT_REJECTED
| RDMA_CM_EVENT_ESTABLISHED | RDMA_CM_EVENT_DISCONNECTED | RDMA_CM_EVENT_DEVICE_REMOVAL
| RDMA_CM_EVENT_MULTICAST_JOIN | RDMA_CM_EVENT_MULTICAST_ERROR | RDMA_CM_EVENT_ADDR_CHANGE
| RDMA_CM_EVENT_TIMEWAIT_EXIT.

Definition rdma_cm_event_type_val (t : rdma_cm_event_type) : Z :=
  match t with
  | RDMA_CM_EVENT_ADDR_RESOLVED => 0 | RDMA_CM_EVENT_ADDR_ERROR => 1
  | RDMA_CM_EVENT_ROUTE_RESOLVED => 2 | RDMA_CM_EVENT_ROUTE_ERROR => 3
  | RDMA_CM_EVENT_CONNECT_REQUEST => 4 | RDMA_CM_EVENT_CONNECT_RESPONSE => 5
  | RDMA_CM_EVENT_CONNECT_ERROR => 6 | RDMA_CM_EVENT_UNREACHABLE => 7
  | RDMA_CM_EVENT_REJECTED => 8 | RDMA_CM_EVENT_ESTABLISHED => 9
  | RDMA_CM_EVENT_DISCONNECTED => 10 | RDMA_CM_EVENT_DEVICE_REMOVAL => 11
  | RDMA_CM_EVENT_MULTICAST_JOIN => 12 | RDMA_CM_EVENT_MULTICAST_ERROR => 13
  | RDMA_CM_EVENT_ADDR_CHANGE => 14 | RDMA_CM_EVENT_TIMEWAIT_EXIT => 15
  end.

Inductive rdma_port_space := RDMA_PS_IPOIB | RDMA_PS_TCP | RDMA_PS_UDP | RDMA_PS_IB.
Definition rdma_port_space_val (p : rdma_port_space) : Z :=
  match p with
  | RDMA_PS_IPOIB => 0x0002 | RDMA_PS_TCP => 0x0106 | RDMA_PS_UDP => 0x0111 | RDMA_PS_IB => 0x013F
  end.

Record rdma_event_channel := { ch_fd : Z }.

(** The members [suiw_create_id] sets; the others keep what [malloc] returned
    and no code here reads them. *)
Record rdma_cm_id := { id_verbs : Z; id_channel : Z; id_context : Z }.

(** The union [param] is kept as its storage: its larger member,
    [rdma_ud_param], takes 56 bytes. *)
Definition PARAM_SIZE : nat := 56.
Record rdma_cm_event := {
  ev_id : Z; ev_listen_id : Z; ev_event : Z; ev_status : Z; ev_param : list byte }.

Definition cm_event_bytes (e : rdma_cm_event) : list byte :=
  le_bytes 8 (ev_id e) ++ le_bytes 8 (ev_listen_id e) ++ le_bytes 4 (ev_event e) ++
  le_bytes 4 (ev_status e) ++ resize PARAM_SIZE (Z_byte 0) (ev_param e).
Definition cm_event_of_bytes (bs : list byte) : rdma_cm_event :=
  let '(i, bs) := get_le 8 bs in
  let '(l, bs) := get_le 8 bs in
  let '(t, bs) := get_le 4 bs in
  let '(s, bs) := get_le 4 bs in
  {| ev_id := i; ev_listen_id := l; ev_event := t; ev_status := s; ev_param := take PARAM_SIZE bs |}.

(** [status] is an [int]; its object representation is kept here. *)
Definition wf_cm_event (e : rdma_cm_event) : Prop :=
  in_u 64 (ev_id e) /\ in_u 64 (ev_listen_id e) /\ in_u 32 (ev_event e) /\
  in_u 32 (ev_status e) /\ length (ev_param e) = PARAM_SIZE.

#[global] Instance wf_cm_event_dec e : Decision (wf_cm_event e).
Proof. unfold wf_cm_event; apply _. Defined.

Lemma length_cm_event_bytes e : length (cm_event_bytes e) = 80%nat.
Proof.
  unfold cm_event_bytes; by rewrite !length_app, !length_le_bytes, length_resize.
Qed.

Lemma cm_event_of_to_bytes e rest :
  wf_cm_event e -> cm_event_of_bytes (cm_event_bytes e ++ rest) = e.
Proof.
  intros (Hi & Hl & Ht & Hs & Hp); unfold cm_event_of_bytes, cm_event_bytes.
  rewrite <- !app_assoc, !get_le_bytes.
  rewrite resize_all_alt by done; rewrite <- Hp, take_app_length.
  destruct e; cbn in *; f_equal; by apply wrap_small.
Qed.

#[global] Instance cm_event_codec : Codec rdma_cm_event 80 := {|
  wf_codec := wf_cm_event; encode := cm_event_bytes; decode := cm_event_of_bytes;
  length_encode := length_cm_event_bytes; decode_encode := cm_event_of_to_bytes |}.

Definition SIZEOF_CM_EVENT : Z := 80.

(** Messages of [libsuiw_internal.h]: one [enum] in a packed struct. *)
Inductive daemon_msg_t := DAEMON_CREATE_EC | DAEMON_CREATE_CQ | DAEMON_CREATE_QP.
Definition daemon_msg_val (t : daemon_msg_t) : Z :=
  match t with DAEMON_CREATE_EC => 0 | DAEMON_CREATE_CQ => 1 | DAEMON_CREATE_QP => 2 end.
Definition daemon_msg_bytes (t : daemon_msg_t) : list byte := le_bytes 4 (daemon_msg_val t).
Definition SIZEOF_DAEMON_MSG : Z := 4.

Definition daemon_hostname : string := "127.0.0.1".
Definition daemon_port : string := "9999".

(** ** The library's state

    The global device pointer and control socket, the C heap of [Verbs.v] for
    devices and contexts, the objects this file allocates, and the open
    descriptors. *)
Record suiw := {
  su_device : Z; su_dfd : Z; su_heap : heap; su_channels : gmap Z rdma_event_channel;
  su_ids : gmap Z rdma_cm_id; su_events : gmap Z (list byte); su_socks : gmap Z sock }.

Definition set_su_heap (v : heap) (st : suiw) : suiw :=
  {| su_device := su_device st; su_dfd := su_dfd st; su_heap := v; su_channels := su_channels st;
     su_ids := su_ids st; su_events := su_events st; su_socks := su_socks st |}.
Definition set_su_channels (v : gmap Z rdma_event_channel) (st : suiw) : suiw :=
  {| su_device := su_device st; su_dfd := su_dfd st; su_heap := su_heap st; su_channels := v;
     su_ids := su_ids st; su_events := su_events st; su_socks := su_socks st |}.
Definition set_su_ids (v : gmap Z rdma_cm_id) (st : suiw) : suiw :=
  {| su_device := su_device st; su_dfd := su_dfd st; su_heap := su_heap st;
     su_channels := su_channels st; su_ids := v; su_events := su_events st;
     su_socks := su_socks st |}.
Definition set_su_events (v : gmap Z (list byte)) (st : suiw) : suiw :=
  {| su_device := su_device st; su_dfd := su_dfd st; su_heap := su_heap st;
     su_channels := su_channels st; su_ids := su_ids st; su_events := v; su_socks := su_socks st |}.
Definition set_su_socks (v : gmap Z sock) (st : suiw) : suiw :=
  {| su_device := su_device st; su_dfd := su_dfd st; su_heap := su_heap st;
     su_channels := su_channels st; su_ids := su_ids st; su_events := su_events st; su_socks := v |}.

(** [send] and [recv] on a descriptor; one that is not open fails ([EBADF]). *)
Definition fd_send (fd : Z) (bs : list byte) (fds : gmap Z sock) : Z * gmap Z sock :=
  match fds !! fd with
  | None => (-1, fds)
  | Some s => let '(n, s) := sendmsg bs s in (n, <[fd := s]> fds)
  end.
Definition fd_recv (fd len : Z) (fds : gmap Z sock) : recv_res * gmap Z sock :=
  match fds !! fd with
  | None => (rv_fail 9, fds)
  | Some s => let '(v, s) := recv false len s in (v, <[fd := s]> fds)
  end.

(** What the operating system answers to [connect_to_daemon]: the descriptor
    [socket] returns (or -1), the results of [getaddrinfo] and [connect], and the
    stream a connection gives. *)
Record os_connect := { oc_socket : Z; oc_getaddrinfo : Z; oc_connect : Z; oc_stream : sock }.

(** The descriptor is not closed on the two later failures. *)
Definition connect_to_daemon (os : os_connect) (fds : gmap Z sock) : Z * gmap Z sock :=
  if oc_socket os =? -1 then (-1, fds)
  else
    let fds := <[oc_socket os := oc_stream os]> fds in
    if negb (oc_getaddrinfo os =? 0) then (-1, fds)
    else if oc_connect os =? -1 then (-1, fds) else (oc_socket os, fds).

(** The constructor and the destructor. *)
Definition suiw_init (os : os_connect) (h : heap) (fds : gmap Z sock) : suiw :=
  let '(dev, h) := create_suiw_device h in
  let '(dfd, fds) := connect_to_daemon os fds in
  {| su_device := dev; su_dfd := dfd; su_heap := h; su_channels := ∅; su_ids := ∅;
     su_events := ∅; su_socks := fds |}.
Definition suiw_fini (st : suiw) : run suiw :=
  h ← free (su_device st) (su_heap st);
  mret (set_su_socks (delete (su_dfd st) (su_socks st)) (set_su_heap h st)).

(** ** Event channels and identifiers

    [p] is the address [malloc] returns. *)
Definition suiw_create_event_channel (p : Z) (os : os_connect) (st : suiw) : Z * suiw :=
  let '(_, fds) := fd_send (su_dfd st) (daemon_msg_bytes DAEMON_CREATE_EC) (su_socks st) in
  let '(ec_fd, fds) := connect_to_daemon os fds in
  (p, set_su_channels (<[p := {| ch_fd := ec_fd |}]> (su_channels st)) (set_su_socks fds st)).

Definition suiw_destroy_event_channel (channel : Z) (st : suiw) : run suiw :=
  ch ← deref (su_channels st !! channel);
  mret (set_su_channels (delete channel (su_channels st))
          (set_su_socks (delete (ch_fd ch) (su_socks st)) st)).

(** [ps] is not recorded. *)
Definition suiw_create_id (p channel context : Z) (ps : rdma_port_space) (st : suiw)
  : Z * Z * suiw :=
  let '(verbs, h) := suiw_open_device (su_device st) (su_heap st) in
  let id := {| id_verbs := verbs; id_channel := channel; id_context := context |} in
  (0, p, set_su_ids (<[p := id]> (su_ids st)) (set_su_heap h st)).

Definition suiw_destroy_id (id : Z) (st : suiw) : run (Z * suiw) :=
  _ ← deref (su_ids st !! id); mret (0, set_su_ids (delete id (su_ids st)) st).

(** The zeroed event with its type and its identifier. *)
Definition cm_event (t : rdma_cm_event_type) (id : Z) : rdma_cm_event :=
  {| ev_id := id; ev_listen_id := 0; ev_event := rdma_cm_event_type_val t; ev_status := 0;
     ev_param := replicate PARAM_SIZE (Z_byte 0) |}.

Definition send_event (e : rdma_cm_event) (id : Z) (st : suiw) : run (Z * suiw) :=
  i ← deref (su_ids st !! id);
  ch ← deref (su_channels st !! id_channel i);
  let '(ret, fds) := fd_send (ch_fd ch) (encode e) (su_socks st) in
  mret (if ret =? SIZEOF_CM_EVENT then 0 else -1, set_su_socks fds st).

Definition suiw_resolve_addr (id : Z) (st : suiw) : run (Z * suiw) :=
  send_event (cm_event RDMA_CM_EVENT_ADDR_RESOLVED id) id st.
Definition suiw_resolve_route (id : Z) (st : suiw) : run (Z * suiw) :=
  send_event (cm_event RDMA_CM_EVENT_ROUTE_RESOLVED id) id st.

(** [p] is the event's block; what [recv] does not fill keeps [junk]. *)
Definition suiw_get_cm_event (p : Z) (junk : list byte) (channel : Z) (st : suiw)
  : run (Z * Z * suiw) :=
  ch ← deref (su_channels st !! channel);
  let '(v, fds) := fd_recv (ch_fd ch) SIZEOF_CM_EVENT (su_socks st) in
  mret (if rv_ret v =? SIZEOF_CM_EVENT then 0 else -1, p,
        set_su_events (<[p := overlay (rv_data v) junk]> (su_events st)) (set_su_socks fds st)).

Definition suiw_ack_cm_event (event : Z) (st : suiw) : run (Z * suiw) :=
  _ ← deref (su_events st !! event); mret (0, set_su_events (delete event (su_events st)) st).

(** ** The interposed librdmacm calls that are implemented *)
Definition rdma_create_event_channel := suiw_create_event_channel.
Definition rdma_destroy_event_channel := suiw_destroy_event_channel.
Definition rdma_create_id := suiw_create_id.
Definition rdma_destroy_id := suiw_destroy_id.
Definition rdma_resolve_addr := suiw_resolve_addr.
Definition rdma_resolve_route := suiw_resolve_route.
Definition rdma_get_cm_event := suiw_get_cm_event.
Definition rdma_ack_cm_event := suiw_ack_cm_event.
