(* ===== verification/Daemon.v ===== *)
(** * The daemon ([libsuiw/libsuiwd.cpp])

    One thread polls the control connection of the library, a (never opened)
    DPDK descriptor, the event channels and the completion queues.  Control
    messages add descriptors; what arrives on an event channel is sent back.

    The operating system's answers are inputs: what [poll] reports in each round
    and the connections [accept] yields. *)

From S2P Require Import Prelude Endian Socket Verbs Cm.

Definition POLLIN : Z := 1.
Definition POLLERR : Z := 8.
Definition POLLHUP : Z := 16.
Definition POLLNVAL : Z := 32.

(** The static vectors, the [pollfd] array's descriptors, the open sockets and
    the connections [accept] is going to return. *)
Record daemon := {
  ec_fds : list Z; cq_fds : list Z; fds : list Z; d_socks : gmap Z sock;
  d_accepts : list (Z * sock) }.

Definition set_ec_fds (v : list Z) (d : daemon) : daemon :=
  {| ec_fds := v; cq_fds := cq_fds d; fds := fds d; d_socks := d_socks d; d_accepts := d_accepts d |}.
Definition set_cq_fds (v : list Z) (d : daemon) : daemon :=
  {| ec_fds := ec_fds d; cq_fds := v; fds := fds d; d_socks := d_socks d; d_accepts := d_accepts d |}.
Definition set_fds (v : list Z) (d : daemon) : daemon :=
  {| ec_fds := ec_fds d; cq_fds := cq_fds d; fds := v; d_socks := d_socks d; d_accepts := d_accepts d |}.
Definition set_d_socks (v : gmap Z sock) (d : daemon) : daemon :=
  {| ec_fds := ec_fds d; cq_fds := cq_fds d; fds := fds d; d_socks := v; d_accepts := d_accepts d |}.

(** [recv(fd, buf, len, MSG_WAITALL)]: the call goes on until [len] bytes are
    there, the stream ends or an error occurs; an error after some bytes is left
    for the next call. *)
Fixpoint recv_waitall_rx (len : Z) (r : list rx_event) : recv_res * list rx_event :=
  match r with
  | [] => (rv_bytes [], [])
  | RxGap :: r => recv_waitall_rx len r
  | RxErr e :: r => (rv_fail e, r)
  | RxData bs :: r =>
      if len <=? zlen bs then (rv_bytes (ztake len bs), RxData (zdrop len bs) :: r)
      else let '(v, r') := recv_waitall_rx (len - zlen bs) r in
           if rv_ret v <? 0 then
             if zlen bs =? 0 then (v, r') else (rv_bytes bs, RxErr (rv_errno v) :: r')
           else (rv_bytes (bs ++ rv_data v), r')
  end.
Definition recv_waitall (fd len : Z) (m : gmap Z sock) : recv_res * gmap Z sock :=
  match m !! fd with
  | None => (rv_fail 9, m)
  | Some s => let '(v, r) := recv_waitall_rx len (rx s) in (v, <[fd := set_rx r s]> m)
  end.

(** [accept]: waits when no connection is coming; -1 is a failure and opens no
    descriptor. *)
Definition wait_for_client_connect (d : daemon) : run (Z * daemon) :=
  match d_accepts d with
  | [] => Blocked
  | (fd, s) :: l =>
      mret (fd, {| ec_fds := ec_fds d; cq_fds := cq_fds d; fds := fds d; d_accepts := l;
                   d_socks := if fd =? -1 then d_socks d else <[fd := s]> (d_socks d) |})
  end.

Definition create_event_channel (d : daemon) : run daemon :=
  '(fd, d) ← wait_for_client_connect d; mret (set_ec_fds (ec_fds d ++ [fd]) d).
Definition create_completion_queue (d : daemon) : run daemon :=
  '(fd, d) ← wait_for_client_connect d; mret (set_cq_fds (cq_fds d ++ [fd]) d).
Definition create_queue_pair (d : daemon) : daemon := d.

Definition lib_handle_recv (fd : Z) (d : daemon) : run (Z * daemon) :=
  let '(v, m) := recv_waitall fd SIZEOF_DAEMON_MSG (d_socks d) in
  let d := set_d_socks m d in
  if rv_ret v =? -1 then mret (-1, d)
  else if rv_ret v =? 0 then mret (0, d)
  else if rv_ret v <? SIZEOF_DAEMON_MSG then mret (-1, d)
  else
    let type := le_Z (rv_data v) in
    d ← (if type =? daemon_msg_val DAEMON_CREATE_EC then create_event_channel d
         else if type =? daemon_msg_val DAEMON_CREATE_CQ then create_completion_queue d
         else if type =? daemon_msg_val DAEMON_CREATE_QP then mret (create_queue_pair d)
         else mret d);
    mret (rv_ret v, d).

(** Neither function has a [return] statement, so its value does not exist. *)
Definition dpdk_handle_recv (fd : Z) (d : daemon) : run (Z * daemon) := Undefined.
Definition cq_handle_recv (fd : Z) (d : daemon) : run (Z * daemon) := Undefined.

Definition ec_handle_recv (fd : Z) (d : daemon) : run (Z * daemon) :=
  let '(v, m) := fd_recv fd SIZEOF_CM_EVENT (d_socks d) in
  let d := set_d_socks m d in
  if rv_ret v =? -1 then mret (-1, d)
  else if rv_ret v =? 0 then mret (0, d)
  else if rv_ret v <? SIZEOF_CM_EVENT then mret (-1, d)
  else
    let '(ret, m) := fd_send fd (rv_data v) (d_socks d) in
    let d := set_d_socks m d in
    mret (if ret =? -1 then -1 else if ret =? 0 then 0
          else if ret <? SIZEOF_CM_EVENT then -1 else ret, d).

(** ** The poll table *)

(** The descriptor at index [i] of the rebuilt array; [bzero] left 0 in an entry
    that no branch fills. *)
Definition fd_at (lib_fd dpdk_fd : Z) (d : daemon) (i : nat) : Z :=
  if decide (i = 0)%nat then lib_fd
  else if decide (i = 1)%nat then dpdk_fd
  else if decide (i - 2 < length (ec_fds d))%nat then default 0 (ec_fds d !! (i - 2)%nat)
  else let cq_fd_start := (2 + length (ec_fds d))%nat in
       if decide (i - cq_fd_start < length (cq_fds d))%nat
       then default 0 (cq_fds d !! (i - cq_fd_start)%nat) else 0.

Definition num_fds (d : daemon) : nat := (2 + length (ec_fds d) + length (cq_fds d))%nat.

(** The array is rebuilt when the number of descriptors has changed. *)
Definition rebuild (lib_fd dpdk_fd : Z) (d : daemon) : daemon :=
  if decide (length (fds d) = num_fds d) then d
  else set_fds (map (fd_at lib_fd dpdk_fd d) (seq 0 (num_fds d))) d.

(** ** One round of the loop *)
Inductive loop_end := LoopNext (ret : Z) (d : daemon) | LoopReturn (ret : Z) (d : daemon).

Section workloop.
(** Whether assertions are compiled out. *)
Variable ndebug : bool.

(** [while (pollret > 0)] over the [revents], from index [i]; [cq_fd_start] was
    computed before the round, the sizes of the vectors are current. *)
Fixpoint serve (revents : list Z) (i : nat) (pollret ret : Z) (cq_fd_start : nat) (d : daemon)
  : run loop_end :=
  if pollret <=? 0 then mret (LoopNext ret d)
  else match revents with
  | [] => Undefined
  | re :: revents =>
      if re =? 0 then serve revents (S i) pollret ret cq_fd_start d
      else if negb (Z.land re POLLHUP =? 0) then mret (LoopReturn (-1) d)
      else if negb (Z.land re (Z.lor POLLERR POLLNVAL) =? 0) then mret (LoopReturn (-1) d)
      else if negb ndebug && (Z.land re POLLIN =? 0) then Aborted
      else
        fd ← deref (fds d !! i);
        '(ret, d) ←
          (if decide (i = 0)%nat then lib_handle_recv fd d
           else if decide (i = 1)%nat then dpdk_handle_recv fd d
           else if decide (i - 2 < length (ec_fds d))%nat then ec_handle_recv fd d
           else if decide (i - cq_fd_start < length (cq_fds d))%nat then cq_handle_recv fd d
           else mret (ret, d));
        if decide (i = 0%nat /\ ret = 0) then mret (LoopReturn 0 d)
        else if ret =? -1 then mret (LoopReturn (-1) d)
        else serve revents (S i) (pollret - 1) ret cq_fd_start d
  end.

(** What [poll] reports: a failure, or the [revents] of every entry; its return
    value is the number of entries that are not 0. *)
Inductive poll_result := PollFail | Poll (revents : list Z).
Definition poll_count (revents : list Z) : Z := zlen (filter (fun re => re <> 0) revents).

Definition workloop_round (lib_fd dpdk_fd ret : Z) (p : poll_result) (d : daemon) : run loop_end :=
  let cq_fd_start := (2 + length (ec_fds d))%nat in
  let d := rebuild lib_fd dpdk_fd d in
  match p with
  | PollFail => mret (LoopReturn (-1) d)
  | Poll revents =>
      if poll_count revents =? 0 then mret (LoopNext ret d)
      else serve revents 0 (poll_count revents) ret cq_fd_start d
  end.

(** [workloop]: the rounds of a whole run; it is still polling when they are used
    up.  [ret] lives across the rounds. *)
Fixpoint workloop (lib_fd dpdk_fd ret : Z) (ps : list poll_result) (d : daemon)
  : run (Z * daemon) :=
  match ps with
  | [] => Blocked
  | p :: ps =>
      e ← workloop_round lib_fd dpdk_fd ret p d;
      match e with
      | LoopNext ret d => workloop lib_fd dpdk_fd ret ps d
      | LoopReturn ret d => mret (ret, d)
      end
  end.
End workloop.

(** [bind_server]: the results of [getaddrinfo], [bind] and [listen]. *)
Definition bind_server (gai bind listen : Z) : Z :=
  if negb (gai =? 0) then gai else if negb (bind =? 0) then bind else listen.

(** [main]: [socket], the server address, the library's connection, the loop.  The
    table starts with the control connection and the DPDK descriptor, which is
    -1. *)
Definition daemon_main (ndebug : bool) (server_fd gai bind listen : Z) (ps : list poll_result)
    (accepts : list (Z * sock)) : run Z :=
  if server_fd =? -1 then mret (-1)
  else if negb (bind_server gai bind listen =? 0) then mret (-1)
  else
    '(lib_fd, d) ← wait_for_client_connect
       {| ec_fds := []; cq_fds := []; fds := []; d_socks := ∅; d_accepts := accepts |};
    if lib_fd =? -1 then mret (-1)
    else '(ret, _) ← workloop ndebug lib_fd (-1) 0 ps (set_fds [lib_fd; -1] d); mret ret.

(** ** The table always matches the vectors *)

(** The array lists the control connection, the DPDK descriptor and beginnings of
    the two vectors, which only grow. *)
Definition table_ok (lib_fd dpdk_fd : Z) (d : daemon) : Prop :=
  exists ec cq, fds d = lib_fd :: dpdk_fd :: ec ++ cq /\
    ec `prefix_of` ec_fds d /\ cq `prefix_of` cq_fds d.

Lemma fd_at_table lib dpdk d :
  map (fd_at lib dpdk d) (seq 0 (num_fds d)) = lib :: dpdk :: ec_fds d ++ cq_fds d.
Proof.
  apply list_eq; intros i; rewrite list_lookup_fmap.
  destruct (decide (i < num_fds d)%nat) as [Hi|Hi].
  - rewrite lookup_seq_lt by done; cbn [fmap option_fmap option_map]; rewrite Nat.add_0_l.
    unfold fd_at, num_fds in *; destruct i as [|[|i]]; try done.
    change ((lib :: dpdk :: ec_fds d ++ cq_fds d) !! S (S i)) with ((ec_fds d ++ cq_fds d) !! i).
    rewrite !decide_False by lia; replace (S (S i) - 2)%nat with i by lia.
    case_decide as He.
    + rewrite lookup_app_l by done; destruct (lookup_lt_is_Some_2 _ _ He) as [x Hx].
      by rewrite Hx.
    + replace (S (S i) - (2 + length (ec_fds d)))%nat with (i - length (ec_fds d))%nat by lia.
      rewrite lookup_app_r by lia; rewrite decide_True by lia.
      destruct (lookup_lt_is_Some_2 (cq_fds d) (i - length (ec_fds d))) as [x Hx]; [lia|].
      by rewrite Hx.
  - rewrite lookup_seq_ge by lia; symmetry; apply lookup_ge_None_2.
    unfold num_fds in Hi; cbn [length]; rewrite length_app; lia.
Qed.

Lemma prefix_same_length {A} (l k : list A) :
  l `prefix_of` k -> length l = length k -> l = k.
Proof.
  intros [r ->] H; rewrite length_app in H.
  destruct r; [by rewrite app_nil_r|cbn in H; lia].
Qed.

Lemma rebuild_table lib dpdk d :
  table_ok lib dpdk d ->
  fds (rebuild lib dpdk d) = lib :: dpdk :: ec_fds d ++ cq_fds d /\
  ec_fds (rebuild lib dpdk d) = ec_fds d /\ cq_fds (rebuild lib dpdk d) = cq_fds d /\
  d_socks (rebuild lib dpdk d) = d_socks d /\ d_accepts (rebuild lib dpdk d) = d_accepts d.
Proof.
  intros (ec & cq & Hf & He & Hc); unfold rebuild; case_decide as Hl.
  - split_all; try done; rewrite Hf; do 2 f_equal.
    rewrite Hf in Hl; unfold num_fds in Hl; cbn [length] in Hl; rewrite length_app in Hl.
    apply prefix_length in He as Hle; apply prefix_length in Hc as Hlc.
    by f_equal; apply prefix_same_length; [done|lia|done|lia].
  - split_all; try done; apply fd_at_table.
Qed.

(** The handlers only append to the vectors and leave the array alone. *)
Definition grows (d d' : daemon) : Prop :=
  fds d' = fds d /\ ec_fds d `prefix_of` ec_fds d' /\ cq_fds d `prefix_of` cq_fds d'.

#[global] Instance grows_preorder : PreOrder grows.
Proof.
  split; [by intros d; split_all|].
  intros d1 d2 d3 (? & ? & ?) (? & ? & ?); split; [congruence|split; by etrans].
Qed.

Lemma set_d_socks_grows m d : grows d (set_d_socks m d).
Proof. by split_all. Qed.

Lemma accept_grows d fd d' : wait_for_client_connect d = Done (fd, d') -> grows d d'.
Proof.
  unfold wait_for_client_connect; destruct (d_accepts d) as [|[f s] l]; [done|].
  intros [= <- <-]; by split_all.
Qed.

Lemma create_ec_grows d d' : create_event_channel d = Done d' -> grows d d'.
Proof.
  intros H; apply bind_Done_inv in H as ([fd d1] & E & [= <-]).
  apply accept_grows in E; etrans; [exact E|].
  split; [done|split; [by apply prefix_app_r|done]].
Qed.

Lemma create_cq_grows d d' : create_completion_queue d = Done d' -> grows d d'.
Proof.
  intros H; apply bind_Done_inv in H as ([fd d1] & E & [= <-]).
  apply accept_grows in E; etrans; [exact E|].
  split; [done|split; [done|by apply prefix_app_r]].
Qed.

Lemma lib_handle_recv_grows fd d ret d' : lib_handle_recv fd d = Done (ret, d') -> grows d d'.
Proof.
  unfold lib_handle_recv; destruct (recv_waitall _ _ _) as [v m].
  repeat (case_match; [by intros [= <- <-]; apply set_d_socks_grows|]).
  intros HH; apply bind_Done_inv in HH as (d1 & E & [= <- <-]).
  etrans; [apply (set_d_socks_grows m)|].
  unfold mret, run_ret in E.
  repeat case_match; simplify_eq; eauto using create_ec_grows, create_cq_grows; reflexivity.
Qed.

Lemma ec_handle_recv_grows fd d ret d' : ec_handle_recv fd d = Done (ret, d') -> grows d d'.
Proof.
  unfold ec_handle_recv; destruct (fd_recv _ _ _) as [v m].
  repeat (case_match; [by intros [= <- <-]; apply set_d_socks_grows|]).
  destruct (fd_send _ _ _) as [n m']; intros [= <- <-]; by split_all.
Qed.

Lemma serve_grows ndebug revents i pollret ret c d ret' d' :
  serve ndebug revents i pollret ret c d = Done (LoopNext ret' d') -> grows d d'.
Proof.
  revert i pollret ret d; induction revents as [|re revents IH]; intros i pollret ret d;
    cbn [serve]; case_match; try done; try (by intros [= <- <-]).
  case_match; [by eauto|]; do 3 (case_match; [done|]).
  intros H'; apply bind_Done_inv in H' as (fd & _ & H').
  apply bind_Done_inv in H' as ([ret1 d1] & E & H').
  assert (grows d d1) as Hg.
  { unfold mret, run_ret in E; repeat case_match; simplify_eq; try done;
      eauto using lib_handle_recv_grows, ec_handle_recv_grows; reflexivity. }
  do 2 (case_match; [done|]); etrans; eauto.
Qed.

Lemma round_table ndebug lib dpdk ret p d ret' d' :
  table_ok lib dpdk d ->
  workloop_round ndebug lib dpdk ret p d = Done (LoopNext ret' d') -> table_ok lib dpdk d'.
Proof.
  intros (Hf & He & Hc & _)%rebuild_table H.
  assert (grows (rebuild lib dpdk d) d') as (Gf & Ge & Gc).
  { unfold workloop_round in H; destruct p as [|revents]; [done|].
    case_match; [injection H as _ <-; reflexivity|by eapply serve_grows]. }
  exists (ec_fds d), (cq_fds d); split; [by rewrite Gf, Hf|].
  by rewrite <- He, <- Hc.
Qed.

(** The states between rounds of a run that started with the table of [main]. *)
Inductive daemon_reach (ndebug : bool) (lib_fd dpdk_fd : Z) (socks : gmap Z sock)
    (accepts : list (Z * sock)) : daemon -> Prop :=
| reach_start :
    daemon_reach ndebug lib_fd dpdk_fd socks accepts
      {| ec_fds := []; cq_fds := []; fds := [lib_fd; dpdk_fd]; d_socks := socks;
         d_accepts := accepts |}
| reach_round d ret p ret' d' :
    daemon_reach ndebug lib_fd dpdk_fd socks accepts d ->
    workloop_round ndebug lib_fd dpdk_fd ret p d = Done (LoopNext ret' d') ->
    daemon_reach ndebug lib_fd dpdk_fd socks accepts d'.

Lemma reach_table ndebug lib dpdk socks accepts d :
  daemon_reach ndebug lib dpdk socks accepts d -> table_ok lib dpdk d.
Proof.
  induction 1; [by exists [], []|by eapply round_table].
Qed.

(** C37: Whatever was received, accepted and polled before, the array handed to
    [poll] is the control connection, the DPDK descriptor, every event channel
    and every completion queue, in this order and up to date: rebuilding it only
    when the number of descriptors changes misses no change. *)
Theorem poll_table_current ndebug lib dpdk socks accepts d :
  daemon_reach ndebug lib dpdk socks accepts d ->
  fds (rebuild lib dpdk d) = lib :: dpdk :: ec_fds d ++ cq_fds d.
Proof. intros H; by apply rebuild_table, (reach_table ndebug _ _ socks accepts). Qed.

Definition ec_example : daemon :=
  {| ec_fds := []; cq_fds := []; fds := [4; -1];
     d_socks := {[ 4 := {| rx := [RxData (daemon_msg_bytes DAEMON_CREATE_EC)]; tx := [];
                           tx_plan := [] |} ]};
     d_accepts := [(5, {| rx := []; tx := []; tx_plan := [] |})] |}.

Lemma poll_table_current_witness :
  exists d, daemon_reach false 4 (-1) (d_socks ec_example) (d_accepts ec_example) d /\
    fds (rebuild 4 (-1) d) = [4; -1; 5].
Proof.
  eexists; split.
  - eapply (reach_round _ _ _ _ _ ec_example 0 (Poll [POLLIN; 0]) 4); [apply reach_start|].
    vm_compute; reflexivity.
  - rewrite (poll_table_current false 4 (-1) (d_socks ec_example) (d_accepts ec_example));
      [reflexivity|].
    eapply (reach_round _ _ _ _ _ ec_example 0 (Poll [POLLIN; 0]) 4); [apply reach_start|].
    vm_compute; reflexivity.
Defined.
