(* ===== verification/CmEvents.v ===== *)
(** * Connection events through the daemon ([libsuiw/softuiwarp.cpp] against
      [libsuiw/libsuiwd.cpp])

    What the two programs of [Cm.v] and [Daemon.v] do together: the events a
    client asks for come back in order; and what happens when one arrives in
    pieces, when a channel is closed, and when a channel is created in the round
    in which a completion queue is ready. *)

From S2P Require Import Prelude Endian Socket Verbs Cm Daemon.

(** ** One ready event channel *)

(** The [revents] of a round in which only the [k]-th event channel is readable,
    with [b] entries after it. *)
Definition only_ready (k b : nat) : list Z := replicate (2 + k) 0 ++ POLLIN :: replicate b 0.

Lemma serve_zeros nd n rs i pollret ret c d :
  serve nd (replicate n 0 ++ rs) i pollret ret c d = serve nd rs (n + i)%nat pollret ret c d.
Proof.
  revert i; induction n as [|n IH]; intros i; cbn [replicate app]; [done|].
  cbn [serve]; destruct (Z.leb_spec pollret 0) as [H|H].
  - destruct rs; cbn [serve]; by destruct (Z.leb_spec pollret 0); [|lia].
  - rewrite IH; f_equal; lia.
Qed.

(** A readable entry is dispatched on its index. *)
Lemma serve_pollin nd rs i pollret ret c d :
  0 < pollret ->
  serve nd (POLLIN :: rs) i pollret ret c d =
  (fd ← deref (fds d !! i);
   '(ret, d) ←
     (if decide (i = 0)%nat then lib_handle_recv fd d
      else if decide (i = 1)%nat then dpdk_handle_recv fd d
      else if decide (i - 2 < length (ec_fds d))%nat then ec_handle_recv fd d
      else if decide (i - c < length (cq_fds d))%nat then cq_handle_recv fd d
      else mret (ret, d));
   if decide (i = 0%nat /\ ret = 0) then mret (LoopReturn 0 d)
   else if ret =? -1 then mret (LoopReturn (-1) d)
   else serve nd rs (S i) (pollret - 1) ret c d).
Proof.
  intros H; cbn [serve]; destruct (Z.leb_spec pollret 0); [lia|].
  by destruct nd.
Qed.

Lemma filter_zeros n : filter (fun re : Z => re <> 0) (replicate n 0) = [].
Proof.
  induction n as [|n IH]; [done|]; cbn [replicate]; by rewrite filter_cons_False by auto.
Qed.

Lemma poll_count_only k b : poll_count (only_ready k b) = 1.
Proof.
  unfold poll_count, only_ready; rewrite filter_app, filter_cons.
  by rewrite !filter_zeros, decide_True by done.
Qed.

Lemma table_ok_start lib dpdk d : fds d = [lib; dpdk] -> table_ok lib dpdk d.
Proof. intros H; exists [], []; split; [done|]; split; apply prefix_nil. Qed.

Definition after_handler (r : run (Z * daemon)) : run loop_end :=
  '(ret, d) ← r; if ret =? -1 then mret (LoopReturn (-1) d) else mret (LoopNext ret d).

Lemma round_only nd lib dpdk ret k b f d :
  table_ok lib dpdk d -> ec_fds d !! k = Some f ->
  workloop_round nd lib dpdk ret (Poll (only_ready k b)) d =
  after_handler (ec_handle_recv f (rebuild lib dpdk d)).
Proof.
  intros (Hf & He & Hc & _)%rebuild_table Hk; unfold workloop_round.
  rewrite poll_count_only; cbn [Z.eqb]; unfold only_ready; rewrite serve_zeros.
  rewrite Nat.add_0_r, serve_pollin by lia.
  rewrite Hf; change ((lib :: dpdk :: ec_fds d ++ cq_fds d) !! (2 + k)%nat)
    with ((ec_fds d ++ cq_fds d) !! k).
  pose proof (lookup_lt_Some _ _ _ Hk) as Hlt; rewrite lookup_app_l, Hk by done.
  cbn [deref]; rewrite bind_Done, He.
  rewrite (decide_False (P := (2 + k = 0)%nat)), (decide_False (P := (2 + k = 1)%nat)),
    (decide_True (P := (2 + k - 2 < length (ec_fds d))%nat)) by lia.
  unfold after_handler; destruct (ec_handle_recv _ _) as [[r d1]| | |]; cbn; try done.
  rewrite decide_False by (intros []; lia); case_match; [done|]; by destruct b.
Qed.

(** ** The three things a readable channel can mean *)
Definition set_sock (f : Z) (s : sock) (d : daemon) : daemon :=
  set_d_socks (<[f := s]> (d_socks d)) d.

(** [deliver es r]: the script [r] delivers the 80-byte messages [es] one after
    the other, any number of whole messages at a time. *)
Inductive deliver : list (list byte) -> list rx_event -> Prop :=
| deliver_nil r : deliver [] r
| deliver_skip e es r : deliver (e :: es) r -> deliver (e :: es) (RxData [] :: r)
| deliver_event bs es rest r :
    length bs = 80%nat -> deliver es (RxData rest :: r) ->
    deliver (bs :: es) (RxData (bs ++ rest) :: r).

Lemma deliver_recv bs es r :
  deliver (bs :: es) r ->
  length bs = 80%nat /\ exists r', recv_rx false 80 r = (rv_bytes bs, r') /\ deliver es r'.
Proof.
  remember (bs :: es) as l eqn:El; intros H; revert bs es El.
  induction H as [|e es0 r H IH|b es0 rest r Hb H IH]; intros bs es El; [done|by apply IH|].
  simplify_eq; split; [done|]; exists (RxData rest :: r); split; [|done].
  assert (zlen bs = 80) as Hz by (unfold zlen; by rewrite Hb).
  destruct bs as [|x bs]; [done|]; change ((x :: bs) ++ rest) with (x :: (bs ++ rest)).
  cbn [recv_rx]; change (x :: (bs ++ rest)) with ((x :: bs) ++ rest).
  by rewrite ztake_app_exact, zdrop_app_exact by done.
Qed.

(** Reading one message from a descriptor. *)
Lemma fd_recv_deliver f m s bs es :
  m !! f = Some s -> deliver (bs :: es) (rx s) ->
  length bs = 80%nat /\ exists r', deliver es r' /\
    fd_recv f SIZEOF_CM_EVENT m = (rv_bytes bs, <[f := set_rx r' s]> m).
Proof.
  intros Hs (Hl & r' & E & Hd)%deliver_recv; split; [done|]; exists r'; split; [done|].
  unfold fd_recv, recv; rewrite Hs; change (SIZEOF_CM_EVENT =? 0) with false.
  change (Z.min SIZEOF_CM_EVENT MAX_RW_COUNT) with 80; by rewrite E.
Qed.

Lemma ec_handle_event f d s bs es :
  d_socks d !! f = Some s -> deliver (bs :: es) (rx s) -> tx_plan s = [] ->
  exists r', deliver es r' /\
    ec_handle_recv f d = Done (80, set_sock f {| rx := r'; tx := tx s ++ bs; tx_plan := [] |} d).
Proof.
  intros Hs Hd Hp; destruct (fd_recv_deliver f (d_socks d) s bs es) as (Hl & r' & Hd' & E);
    [done..|]; exists r'; split; [done|].
  assert (zlen bs = SIZEOF_CM_EVENT) as Hz by (unfold zlen; by rewrite Hl).
  unfold ec_handle_recv; rewrite E; cbn [rv_ret rv_bytes rv_data]; rewrite Hz.
  cbn [Z.eqb Z.ltb]; unfold fd_send; cbn [set_d_socks d_socks].
  rewrite lookup_insert_eq, sendmsg_full by done; rewrite Hz.
  unfold set_sock, set_d_socks; cbn; by rewrite insert_insert_eq.
Qed.

Lemma ec_handle_partial f d s bs r :
  d_socks d !! f = Some s -> rx s = RxData bs :: r -> (0 < length bs < 80)%nat ->
  exists d', ec_handle_recv f d = Done (-1, d').
Proof.
  intros Hs Hr Hl; unfold ec_handle_recv, fd_recv; rewrite Hs.
  unfold recv; rewrite Hr; cbn [Z.eqb SIZEOF_CM_EVENT]; destruct bs as [|x bs]; [cbn in Hl; lia|].
  cbn [recv_rx rv_ret rv_bytes]; set (l := x :: bs) in *.
  rewrite ztake_ge by (change (Z.min _ _) with 80; unfold zlen; lia).
  destruct (Z.eqb_spec (zlen l) (-1)); [by eexists|].
  destruct (Z.eqb_spec (zlen l) 0); [unfold zlen in *; lia|].
  destruct (Z.ltb_spec (zlen l) SIZEOF_CM_EVENT); [by eexists|].
  unfold zlen, SIZEOF_CM_EVENT in *; lia.
Qed.

Lemma ec_handle_closed f d s :
  d_socks d !! f = Some s -> rx s = [] -> ec_handle_recv f d = Done (0, d).
Proof.
  intros Hs Hr; unfold ec_handle_recv, fd_recv; rewrite Hs; unfold recv; rewrite Hr; cbn.
  rewrite <- Hr, set_rx_rx, insert_id by done; by destruct d.
Qed.

(** ** The daemon echoes every message *)
Lemma set_sock_table lib dpdk f s d : table_ok lib dpdk d -> table_ok lib dpdk (set_sock f s d).
Proof. by intros H. Qed.

Lemma rebuild_table_ok lib dpdk d : table_ok lib dpdk d -> table_ok lib dpdk (rebuild lib dpdk d).
Proof.
  intros (Hf & He & Hc & _)%rebuild_table; exists (ec_fds d), (cq_fds d).
  by rewrite He, Hc.
Qed.

Lemma echo_rounds nd lib dpdk k b f ps es ret d s :
  table_ok lib dpdk d -> ec_fds d !! k = Some f -> d_socks d !! f = Some s ->
  deliver es (rx s) -> tx_plan s = [] ->
  exists ret' d' s',
    workloop nd lib dpdk ret (replicate (length es) (Poll (only_ready k b)) ++ ps) d =
    workloop nd lib dpdk ret' ps d' /\
    table_ok lib dpdk d' /\ d_socks d' !! f = Some s' /\ tx s' = tx s ++ concat es.
Proof.
  revert ret d s; induction es as [|bs es IH]; intros ret d s Ht Hk Hs Hd Hp.
  { exists ret, d, s; by rewrite app_nil_r. }
  destruct (rebuild_table _ _ _ Ht) as (Hf & He & Hc & Hso & _).
  destruct (ec_handle_event f (rebuild lib dpdk d) s bs es) as (r' & Hd' & E);
    [by rewrite Hso|done..|].
  cbn [length replicate app workloop]; rewrite (round_only _ _ _ _ _ _ f) by done.
  rewrite E; unfold after_handler; rewrite !bind_Done; change (80 =? -1) with false.
  cbn [mret run_ret mbind run_bind].
  set (s' := {| rx := r'; tx := tx s ++ bs; tx_plan := [] |}) in *.
  destruct (IH 80 (set_sock f s' (rebuild lib dpdk d)) s')
    as (ret1 & d1 & s1 & E1 & Ht1 & Hs1 & Htx).
  - by apply set_sock_table, rebuild_table_ok.
  - cbn; by rewrite He.
  - apply lookup_insert_eq.
  - exact Hd'.
  - done.
  - exists ret1, d1, s1; rewrite E1; split_all; try done.
    rewrite Htx; cbn [tx concat]; by rewrite app_assoc.
Qed.

(** ** The client *)
Inductive request := ResolveAddr (id : Z) | ResolveRoute (id : Z).

Definition request_id (r : request) : Z := match r with ResolveAddr i | ResolveRoute i => i end.
Definition request_event (r : request) : rdma_cm_event :=
  match r with
  | ResolveAddr i => cm_event RDMA_CM_EVENT_ADDR_RESOLVED i
  | ResolveRoute i => cm_event RDMA_CM_EVENT_ROUTE_RESOLVED i
  end.
Definition resolve (r : request) (st : suiw) : run (Z * suiw) :=
  match r with
  | ResolveAddr i => rdma_resolve_addr i st
  | ResolveRoute i => rdma_resolve_route i st
  end.

(** A program that issues the requests and one that reads as many events, into
    the blocks [ps]. *)
Fixpoint resolve_all (rs : list request) (st : suiw) : run (list Z * suiw) :=
  match rs with
  | [] => mret ([], st)
  | r :: rs => '(ret, st) ← resolve r st; '(l, st) ← resolve_all rs st; mret (ret :: l, st)
  end.
Fixpoint get_events (ps : list Z) (junk : list byte) (channel : Z) (st : suiw)
  : run (list (Z * rdma_cm_event) * suiw) :=
  match ps with
  | [] => mret ([], st)
  | p :: ps =>
      '(ret, e, st) ← rdma_get_cm_event p junk channel st;
      bs ← deref (su_events st !! e);
      '(l, st) ← get_events ps junk channel st;
      mret ((ret, decode bs) :: l, st)
  end.

Lemma request_event_wf r : in_u 64 (request_id r) -> wf_cm_event (request_event r).
Proof.
  intros H; destruct r; split_all; try done; cbn; try word_lia.
Qed.

(** The identifiers of the requests are live and belong to [channel], whose
    descriptor is [c]. *)
Definition on_channel (st : suiw) (channel c : Z) (rs : list request) : Prop :=
  (exists ch, su_channels st !! channel = Some ch /\ ch_fd ch = c) /\
  Forall (fun r => in_u 64 (request_id r) /\
            exists i, su_ids st !! request_id r = Some i /\ id_channel i = channel) rs.

Lemma resolve_run r st channel c s :
  on_channel st channel c [r] -> su_socks st !! c = Some s -> tx_plan s = [] ->
  resolve r st =
  Done (0, set_su_socks (<[c := {| rx := rx s; tx := tx s ++ encode (request_event r);
                                   tx_plan := [] |}]> (su_socks st)) st).
Proof.
  intros [(ch & Hch & Hc) [[_ (i & Hi & Hic)] _]%Forall_cons_1] Hs Hp.
  assert (resolve r st = send_event (request_event r) (request_id r) st) as -> by (by destruct r).
  unfold send_event; rewrite Hi; cbn [deref]; rewrite bind_Done, Hic, Hch; cbn [deref].
  rewrite bind_Done, Hc; unfold fd_send; rewrite Hs, sendmsg_full by done.
  assert (zlen (encode (request_event r)) = SIZEOF_CM_EVENT) as ->; [|done].
  unfold zlen; by rewrite length_encode.
Qed.

Lemma resolve_all_run rs st channel c s :
  on_channel st channel c rs -> su_socks st !! c = Some s -> tx_plan s = [] ->
  exists st', resolve_all rs st = Done (replicate (length rs) 0, st') /\
    su_socks st' !! c = Some {| rx := rx s; tx := tx s ++ concat (map (encode ∘ request_event) rs);
                                tx_plan := [] |}.
Proof.
  revert st s; induction rs as [|r rs IH]; intros st s [Hch Hids] Hs Hp.
  { exists st; split; [done|]; cbn; rewrite app_nil_r, Hs, <- Hp; by destruct s. }
  apply Forall_cons_1 in Hids as [Hr Hids].
  cbn [resolve_all]; rewrite (resolve_run r st channel c s); [|by split; [|constructor]|done..].
  rewrite bind_Done; set (s1 := {| rx := rx s; tx := tx s ++ _; tx_plan := [] |}).
  destruct (IH (set_su_socks (<[c := s1]> (su_socks st)) st) s1) as (st' & E & Hs').
  - by split.
  - apply lookup_insert_eq.
  - done.
  - rewrite E, bind_Done; exists st'; split; [done|]; rewrite Hs'; cbn; by rewrite <- app_assoc.
Qed.

Lemma get_events_run rs ps junk channel ch st s :
  su_channels st !! channel = Some ch -> su_socks st !! ch_fd ch = Some s ->
  deliver (map (encode ∘ request_event) rs) (rx s) ->
  Forall (fun r => in_u 64 (request_id r)) rs ->
  length ps = length rs -> (length junk <= 80)%nat ->
  exists st', get_events ps junk channel st = Done (map (fun r => (0, request_event r)) rs, st').
Proof.
  revert ps st s; induction rs as [|r rs IH]; intros [|p ps] st s Hch Hs Hd Hw Hl Hj; try done.
  { by exists st. }
  apply Forall_cons_1 in Hw as [Hr Hw]; cbn [map] in Hd.
  destruct (fd_recv_deliver _ _ _ _ _ Hs Hd) as (Hlb & r' & Hd' & E).
  cbn [get_events]; unfold rdma_get_cm_event, suiw_get_cm_event; rewrite Hch; cbn [deref].
  rewrite !bind_Done, E; cbn [rv_ret rv_bytes rv_data].
  set (bs := (encode ∘ request_event) r) in *.
  assert (zlen bs = SIZEOF_CM_EVENT) as -> by (unfold zlen; by rewrite Hlb).
  change (SIZEOF_CM_EVENT =? SIZEOF_CM_EVENT) with true; cbv iota.
  rewrite overlay_full by lia; rewrite bind_Done; cbn [su_events set_su_events].
  rewrite lookup_insert_eq; cbn [deref]; rewrite bind_Done.
  set (st1 := set_su_events _ _).
  destruct (IH ps st1 (set_rx r' s)) as [st' E']; try done.
  { apply lookup_insert_eq. }
  { by injection Hl. }
  exists st'; rewrite E', bind_Done; unfold bs.
  change ((encode ∘ request_event) r) with (encode (request_event r)).
  by rewrite decode_encode_nil by (by apply request_event_wf).
Qed.

(** C31: Connection events are delivered exactly once and in the order of the
    requests.  Every address or route resolution on a channel succeeds and puts
    its event on the channel's connection; the daemon, whatever whole number of
    events each delivery brings, sends back the same bytes in the same order; and
    reading as many events returns success with the event type and the identifier
    of each request. *)
Theorem cm_events_fifo rs st channel c s nd lib dpdk k b f ps ret d sd channel' ch' st2 s2 blocks junk :
  on_channel st channel c rs -> su_socks st !! c = Some s -> tx_plan s = [] ->
  table_ok lib dpdk d -> ec_fds d !! k = Some f -> d_socks d !! f = Some sd -> tx_plan sd = [] ->
  deliver (map (encode ∘ request_event) rs) (rx sd) ->
  su_channels st2 !! channel' = Some ch' -> su_socks st2 !! ch_fd ch' = Some s2 ->
  deliver (map (encode ∘ request_event) rs) (rx s2) ->
  length blocks = length rs -> (length junk <= 80)%nat ->
  let sent := concat (map (encode ∘ request_event) rs) in
  (exists st', resolve_all rs st = Done (replicate (length rs) 0, st') /\
     su_socks st' !! c = Some {| rx := rx s; tx := tx s ++ sent; tx_plan := [] |}) /\
  (exists ret' d' sd',
     workloop nd lib dpdk ret (replicate (length rs) (Poll (only_ready k b)) ++ ps) d =
     workloop nd lib dpdk ret' ps d' /\ d_socks d' !! f = Some sd' /\ tx sd' = tx sd ++ sent) /\
  exists st3, get_events blocks junk channel' st2 =
              Done (map (fun r => (0, request_event r)) rs, st3).
Proof.
  intros Hon Hs Hp Ht Hk Hsd Hpd Hd Hch Hs2 Hd2 Hl Hj sent; split; [|split].
  - by eapply resolve_all_run.
  - destruct (echo_rounds nd lib dpdk k b f ps _ ret d sd Ht Hk Hsd Hd Hpd)
      as (ret' & d' & sd' & E & _ & Hs' & Htx).
    rewrite length_map in E; eauto 10.
  - destruct Hon as [_ Hids]; eapply get_events_run; try done.
    by eapply Forall_impl; [exact Hids|]; intros r [].
Qed.

(** Two requests on one channel; both directions coalesce the two events. *)
Definition two_requests : list request := [ResolveAddr 100; ResolveRoute 100].
Definition coalesced : sock :=
  {| rx := [RxData (concat (map (encode ∘ request_event) two_requests))]; tx := []; tx_plan := [] |}.
Definition suiw_example (s : sock) : suiw :=
  {| su_device := 1; su_dfd := 3; su_heap := {| h_next := 2; h_cells := ∅ |};
     su_channels := {[ 50 := {| ch_fd := 7 |} ]};
     su_ids := {[ 100 := {| id_verbs := 1; id_channel := 50; id_context := 0 |} ]};
     su_events := ∅; su_socks := {[ 7 := s ]} |}.
Definition daemon_example (s : sock) : daemon :=
  {| ec_fds := [5]; cq_fds := []; fds := [4; -1]; d_socks := {[ 5 := s ]}; d_accepts := [] |}.

Lemma coalesced_deliver : deliver (map (encode ∘ request_event) two_requests) (rx coalesced).
Proof.
  apply (deliver_event _ _ (encode (request_event (ResolveRoute 100)) ++ [])); [done|].
  apply (deliver_event _ _ []); [done|constructor].
Qed.

Lemma cm_events_fifo_witness :
  exists st3, get_events [200; 201] [] 50 (suiw_example coalesced) =
    Done ([(0, cm_event RDMA_CM_EVENT_ADDR_RESOLVED 100);
           (0, cm_event RDMA_CM_EVENT_ROUTE_RESOLVED 100)], st3).
Proof.
  apply (cm_events_fifo two_requests (suiw_example {| rx := []; tx := []; tx_plan := [] |}) 50 7
           {| rx := []; tx := []; tx_plan := [] |} false 4 (-1) 0 0 5 [] 0
           (daemon_example coalesced) coalesced 50 {| ch_fd := 7 |} (suiw_example coalesced)
           coalesced [200; 201] []); try reflexivity; try lia.
  - split; [by exists {| ch_fd := 7 |}|].
    repeat constructor; cbn; try lia; by eexists.
  - by apply table_ok_start.
  - apply coalesced_deliver.
  - apply coalesced_deliver.
  - cbn; lia.
Defined.

(** An event that does not arrive in one piece stops the daemon: the handler
    reads what is there without waiting for the rest, reports an error, and the
    loop returns -1, whatever would have come next. *)
Theorem fragmented_event_stops_daemon nd lib dpdk ret k b f ps d s bs r :
  table_ok lib dpdk d -> ec_fds d !! k = Some f -> d_socks d !! f = Some s ->
  rx s = RxData bs :: r -> (0 < length bs < 80)%nat ->
  exists d', workloop nd lib dpdk ret (Poll (only_ready k b) :: ps) d = Done (-1, d').
Proof.
  intros Ht Hk Hs Hr Hl; destruct (rebuild_table _ _ _ Ht) as (_ & _ & _ & Hso & _).
  destruct (ec_handle_partial f (rebuild lib dpdk d) s bs r) as [d' E]; [by rewrite Hso|done..|].
  exists d'; cbn [workloop]; rewrite (round_only _ _ _ _ _ _ f), E by done.
  unfold after_handler; by rewrite bind_Done.
Qed.

Lemma fragmented_event_stops_daemon_witness :
  exists d', workloop false 4 (-1) 0 [Poll (only_ready 0 0)]
    (daemon_example {| rx := [RxData (replicate 79 (Z_byte 0)); RxData [Z_byte 0]]; tx := [];
                       tx_plan := [] |}) = Done (-1, d').
Proof.
  eapply (fragmented_event_stops_daemon false 4 (-1) 0 0 0 5 []);
    [by apply table_ok_start|reflexivity|reflexivity|reflexivity|].
  rewrite length_replicate; lia.
Defined.

Lemma closed_round nd lib dpdk ret k b f l d s :
  table_ok lib dpdk d -> ec_fds d !! k = Some f -> d_socks d !! f = Some s -> rx s = [] ->
  workloop nd lib dpdk ret (Poll (only_ready k b) :: l) d =
  workloop nd lib dpdk 0 l (rebuild lib dpdk d).
Proof.
  intros Ht Hk Hs Hr; destruct (rebuild_table _ _ _ Ht) as (_ & _ & _ & Hso & _).
  cbn [workloop]; rewrite (round_only _ _ _ _ _ _ f) by done.
  rewrite (ec_handle_closed f _ s) by (by rewrite ?Hso).
  unfold after_handler; by rewrite !bind_Done.
Qed.

(** A closed event channel is never taken out of the table: reading its end
    of stream is not an error, so every further round finds the descriptor
    readable and leaves the daemon in the same state. *)
Theorem closed_channel_polled_forever nd lib dpdk ret k b f n ps d s :
  table_ok lib dpdk d -> ec_fds d !! k = Some f -> d_socks d !! f = Some s -> rx s = [] ->
  workloop nd lib dpdk ret (replicate (S n) (Poll (only_ready k b)) ++ ps) d =
  workloop nd lib dpdk 0 ps (rebuild lib dpdk d) /\
  f ∈ fds (rebuild lib dpdk d).
Proof.
  intros Ht Hk Hs Hr; split.
  2: { destruct (rebuild_table _ _ _ Ht) as (-> & _).
       do 2 right; apply elem_of_app; left; by eapply list_elem_of_lookup_2. }
  revert ret d Ht Hk Hs; induction n as [|n IH]; intros ret d Ht Hk Hs.
  { by eapply closed_round. }
  destruct (rebuild_table _ _ _ Ht) as (Hf & He & Hc & Hso & Ha).
  change (replicate (S (S n)) ?x ++ ps) with (x :: replicate (S n) x ++ ps).
  rewrite (closed_round _ _ _ _ _ _ f _ _ s) by done.
  rewrite IH; [|by apply rebuild_table_ok|by rewrite He|by rewrite Hso].
  f_equal; unfold rebuild at 1; rewrite decide_True; [done|].
  rewrite Hf; unfold num_fds; rewrite He, Hc; cbn; by rewrite length_app.
Qed.

Lemma closed_channel_polled_forever_witness :
  workloop false 4 (-1) 0 (replicate 3 (Poll (only_ready 0 0)) ++ [PollFail])
    (daemon_example {| rx := []; tx := []; tx_plan := [] |}) =
  workloop false 4 (-1) 0 [PollFail]
    (rebuild 4 (-1) (daemon_example {| rx := []; tx := []; tx_plan := [] |})).
Proof.
  apply (closed_channel_polled_forever false 4 (-1) 0 0 0 5 2 [PollFail]
           (daemon_example {| rx := []; tx := []; tx_plan := [] |})
           {| rx := []; tx := []; tx_plan := [] |});
    [by apply table_ok_start|reflexivity|reflexivity|reflexivity].
Defined.

(** The [revents] of a round in which the control connection and the first
    completion queue are readable, with [n] event channels in between. *)
Definition lib_and_cq_ready (n b : nat) : list Z :=
  POLLIN :: 0 :: replicate n 0 ++ POLLIN :: replicate b 0.

Lemma poll_count_two n b : poll_count (lib_and_cq_ready n b) = 2.
Proof.
  unfold poll_count, lib_and_cq_ready; rewrite filter_cons_True by done.
  rewrite filter_cons_False, filter_app, filter_cons_True, !filter_zeros by auto; done.
Qed.

(** A completion queue can be served as an event channel: when the library's
    message creates an event channel in the very round in which the first
    completion queue is readable, the dispatch compares the old index with the
    new number of channels and hands the queue's descriptor to the event-channel
    handler. *)
Theorem completion_queue_served_as_channel nd lib dpdk ret b c cq x d d1 :
  table_ok lib dpdk d -> cq_fds d = c :: cq ->
  lib_handle_recv lib (rebuild lib dpdk d) = Done (4, d1) ->
  ec_fds d1 = ec_fds d ++ [x] ->
  workloop_round nd lib dpdk ret (Poll (lib_and_cq_ready (length (ec_fds d)) b)) d =
  after_handler (ec_handle_recv c d1).
Proof.
  intros (Hf & He & Hc & _)%rebuild_table Hcq Hlib Hec; unfold workloop_round.
  rewrite poll_count_two; cbn [Z.eqb]; unfold lib_and_cq_ready.
  destruct (lib_handle_recv_grows _ _ _ _ Hlib) as (Gf & _ & _).
  rewrite serve_pollin by lia; rewrite Hf; cbn [lookup list_lookup deref]; rewrite bind_Done.
  rewrite decide_True, Hlib, bind_Done by done; rewrite decide_False by (intros []; lia).
  change (4 =? -1) with false; cbv iota; change (2 - 1) with 1.
  change (0 :: ?l) with (replicate 1 0 ++ l); rewrite !serve_zeros, serve_pollin by lia.
  rewrite Gf, Hf, Hcq; replace (length (ec_fds d) + (1 + 1))%nat with (S (S (length (ec_fds d)))) by lia.
  change ((lib :: dpdk :: ec_fds d ++ c :: cq) !! S (S (length (ec_fds d))))
    with ((ec_fds d ++ c :: cq) !! length (ec_fds d)).
  rewrite list_lookup_middle by done; cbn [deref]; rewrite bind_Done.
  rewrite !(decide_False (P := (S (S (length (ec_fds d))) = _)%nat)) by lia.
  rewrite decide_True by (rewrite Hec, length_app; cbn; lia).
  unfold after_handler; destruct (ec_handle_recv _ _) as [[r d2]| | |]; try done.
  rewrite !bind_Done, decide_False by (intros []; lia); case_match; [done|]; by destruct b.
Qed.

Definition cq_example : daemon :=
  {| ec_fds := []; cq_fds := [6]; fds := [4; -1; 6];
     d_socks := {[ 4 := {| rx := [RxData (daemon_msg_bytes DAEMON_CREATE_EC)]; tx := [];
                           tx_plan := [] |};
                   6 := {| rx := [RxData (replicate 80 (Z_byte 7))]; tx := []; tx_plan := [] |} ]};
     d_accepts := [(5, {| rx := []; tx := []; tx_plan := [] |})] |}.

Lemma completion_queue_served_as_channel_witness :
  exists d1, workloop_round false 4 (-1) 0 (Poll (lib_and_cq_ready 0 0)) cq_example =
    after_handler (ec_handle_recv 6 d1).
Proof.
  eexists; apply (completion_queue_served_as_channel false 4 (-1) 0 0 6 [] 5 cq_example);
    [|reflexivity|vm_compute; reflexivity|reflexivity].
  exists [], [6]; split; [done|]; split; [apply prefix_nil|done].
Defined.
