(* ===== verification/Ping.v ===== *)
(** * The ping client ([fake_ping_client.cpp])

    A program on top of the stream: its main loop fills a buffer, sends its
    description twice per round and waits on a semaphore after each send; a
    second thread takes receive completions off the completion queue, reposts the
    receive and posts the semaphore.  The two threads and the stream's own
    threads interleave; [ping_step] is that interleaving. *)

From stdpp Require Import relations.
From S2P Require Import Prelude Endian Format Wire Socket Mpa Memory CQueue Cq Ddp Rdmap.

(** ** Completion queues as an application sees them *)
Definition recv_cq (st : rnic) : run (Z * cq) :=
  w ← recv_wq st; c ← deref (cqs (rn_heap st) !! wq_cq w); mret (wq_cq w, c).

(** [cq->q->try_dequeue(wc)] on the queue at [p]. *)
Definition cq_try_dequeue (p : Z) (c : cq) (st : rnic) : option (work_completion * rnic) :=
  '(wc, q) ← try_dequeue (cq_q c);
  Some (wc, put_cq p {| cq_ctx := cq_ctx c; cq_q := q; cq_pending_q := cq_pending_q c |} st).

Definition poll_recv_cq (st : rnic) : run (option (work_completion * rnic)) :=
  '(p, c) ← recv_cq st; mret (cq_try_dequeue p c st).
Definition poll_send_cq (st : rnic) : run (option (work_completion * rnic)) :=
  '(p, c) ← send_cq st; mret (cq_try_dequeue p c st).

(** ** The text of a ping *)
Definition BUF_LEN : Z := 64.

(** "rdma-ping-%d: ". *)
Definition RPING_MSG_FMT (ping : Z) : list byte :=
  map Z_byte [114; 100; 109; 97; 45; 112; 105; 110; 103; 45] ++ print_int ping ++
  map Z_byte [58; 32].

(** [c++; if (c > 122) c = 65;], also the update of [start]. *)
Definition next_char (c : Z) : Z := if 122 <? c + 1 then 65 else c + 1.

(** [for (i = cc, c = start; i < sizeof(buf); i++)]: [n] bytes from [c] on. *)
Fixpoint fill_loop (n : nat) (c : Z) : list byte :=
  match n with
  | O => []
  | S n => Z_byte c :: fill_loop n (next_char c)
  end.

(** The whole buffer: the text over it, the filling from the end of the text on,
    and the final [NUL].  [snprintf]'s own [NUL] is the first byte filled. *)
Definition ping_buffer (ping start : Z) : list byte :=
  let text := RPING_MSG_FMT ping in
  let cc := zlen text in
  let buf := ztake BUF_LEN text ++ fill_loop (Z.to_nat (BUF_LEN - cc)) start in
  store_at (BUF_LEN - 1) [Z_byte 0] buf.

(** ** The threads *)
Definition RECV_WR_ID : Z := 1901.

(** The receive request of [cq_thread]; [sg] is the address of its element,
    which describes the 1000-byte [garbage_buffer]. *)
Definition ping_recv_wr (sg : Z) : recv_wr :=
  {| rwr_wr_id := RECV_WR_ID; rwr_sg_list := sg; rwr_num_sge := 1 |}.

(** The send request; [sg] describes the struct with the buffer's address, tag
    and size; the members a send does not use are not initialised. *)
Definition ping_send_wr (junk sg : Z) : send_wr :=
  {| swr_wr_id := 1; swr_sg_list := sg; swr_num_sge := 1; swr_opcode := RDMAP_SEND;
     swr_send_flags := junk; swr_invalidate_rkey := junk; swr_remote_addr := junk;
     swr_rkey := junk |}.

(** Where the main thread is: at the test of [connected], filling the buffer, at the two
    sends and the two waits, out of the loop; and the completion thread: at its test of
    [connected], at [try_dequeue], at reposting the receive, at [sem_post], out. *)
Inductive main_pc := MTop | MFill | MSend1 | MWait1 | MSend2 | MWait2 | MExit.
Inductive cq_pc := CTop | CLook | CRepost | CSignal | CStopped.

#[global] Instance main_pc_eq_dec : EqDecision main_pc.
Proof. solve_decision. Defined.

(** [pg_sends] counts the sends posted; [pg_polled] has the completions the completion
    thread has taken off the queue, the last one first. *)
Record ping := {
  pg_pc : main_pc; pg_ping : Z; pg_start : Z; pg_sem : Z; pg_cq : cq_pc; pg_st : rnic;
  pg_sends : Z; pg_polled : list work_completion }.

Definition set_pg_st (v : rnic) (s : ping) : ping :=
  {| pg_pc := pg_pc s; pg_ping := pg_ping s; pg_start := pg_start s; pg_sem := pg_sem s;
     pg_cq := pg_cq s; pg_st := v; pg_sends := pg_sends s; pg_polled := pg_polled s |}.
Definition set_pg_pc (v : main_pc) (s : ping) : ping :=
  {| pg_pc := v; pg_ping := pg_ping s; pg_start := pg_start s; pg_sem := pg_sem s;
     pg_cq := pg_cq s; pg_st := pg_st s; pg_sends := pg_sends s; pg_polled := pg_polled s |}.
Definition set_pg_cq (v : cq_pc) (st : rnic) (s : ping) : ping :=
  {| pg_pc := pg_pc s; pg_ping := pg_ping s; pg_start := pg_start s; pg_sem := pg_sem s;
     pg_cq := v; pg_st := st; pg_sends := pg_sends s; pg_polled := pg_polled s |}.
Definition log_polled (wc : work_completion) (s : ping) : ping :=
  {| pg_pc := pg_pc s; pg_ping := pg_ping s; pg_start := pg_start s; pg_sem := pg_sem s;
     pg_cq := pg_cq s; pg_st := pg_st s; pg_sends := pg_sends s; pg_polled := wc :: pg_polled s |}.

Section threads.
(** Uninitialised members, the identities of the two threads, and the addresses
    of the two elements and of the ping buffer. *)
Variables (junk : Z) (t_main t_cq : nat) (send_sg recv_sg bufp : Z).

Definition post_send (next : main_pc) (s : ping) : run ping :=
  '(ret, st) ← rdmap_send t_main (ping_send_wr junk send_sg) (pg_st s);
  mret {| pg_pc := if ret <? 0 then MExit else next; pg_ping := pg_ping s; pg_start := pg_start s;
          pg_sem := pg_sem s; pg_cq := pg_cq s; pg_st := st;
          pg_sends := pg_sends s + 1; pg_polled := pg_polled s |}.

(** The first half of an iteration of the main loop, up to the send. *)
Definition main_fill (s : ping) : ping :=
  let st := set_rn_mem (mem_write (rn_mem (pg_st s)) bufp (ping_buffer (pg_ping s) (pg_start s)))
              (pg_st s) in
  {| pg_pc := MSend1; pg_ping := pg_ping s; pg_start := next_char (pg_start s);
     pg_sem := pg_sem s; pg_cq := pg_cq s; pg_st := st; pg_sends := pg_sends s;
     pg_polled := pg_polled s |}.

Definition sem_wait (next : main_pc) (ping_inc : Z) (s : ping) : run ping :=
  if 0 <? pg_sem s then
    mret {| pg_pc := next; pg_ping := pg_ping s + ping_inc; pg_start := pg_start s;
            pg_sem := pg_sem s - 1; pg_cq := pg_cq s; pg_st := pg_st s;
            pg_sends := pg_sends s; pg_polled := pg_polled s |}
  else Blocked.
Definition sem_post (s : ping) : ping :=
  {| pg_pc := pg_pc s; pg_ping := pg_ping s; pg_start := pg_start s; pg_sem := pg_sem s + 1;
     pg_cq := pg_cq s; pg_st := pg_st s; pg_sends := pg_sends s; pg_polled := pg_polled s |}.

Definition main_step (s : ping) : run ping :=
  match pg_pc s with
  | MTop => mret (set_pg_pc (if rc_connected (rn_ctx (pg_st s)) =? 0 then MExit else MFill) s)
  | MFill => mret (main_fill s)
  | MSend1 => post_send MWait1 s
  | MWait1 => sem_wait MSend2 0 s
  | MSend2 => post_send MWait2 s
  | MWait2 => sem_wait MTop 1 s
  | MExit => Blocked
  end.

(** [while(ping_ctx->ctx->connected)] of [cq_thread], one operation at a time. *)
Definition cq_thread_step (s : ping) : run ping :=
  let st := pg_st s in
  match pg_cq s with
  | CTop => mret (set_pg_cq (if rc_connected (rn_ctx st) =? 0 then CStopped else CLook) st s)
  | CLook =>
      found ← poll_recv_cq st;
      match found with
      | None => mret (set_pg_cq CTop st s)
      | Some (wc, st) =>
          let s := log_polled wc s in
          if negb (wce_opcode wc =? wc_opcode_val WC_SEND) || negb (wce_wr_id wc =? RECV_WR_ID)
          then mret (set_pg_cq CTop st s)
          else if negb (bool_decide (wce_status wc = WC_SUCCESS))
          then mret (set_pg_cq CStopped (set_connected 0 st) s)
          else mret (set_pg_cq CRepost st s)
      end
  | CRepost =>
      '(_, st) ← rdma_post_recv junk t_cq (ping_recv_wr recv_sg) st; mret (set_pg_cq CSignal st s)
  | CSignal => mret (set_pg_cq CTop st (sem_post s))
  | CStopped => Blocked
  end.

(** The main thread, the completion thread, or any step of the stream's threads, which
    changes only what they share. *)
Inductive ping_step : ping -> ping -> Prop :=
| step_main s s' : main_step s = Done s' -> ping_step s s'
| step_cq s s' : cq_thread_step s = Done s' -> ping_step s s'
| step_stream s st : ping_step s (set_pg_st st s).
End threads.

(** ** Connecting *)

(** What [socket] and [connect] answer for one address. *)
Record attempt := { at_socket : Z; at_connect : Z }.

(** [for (p = servinfo; p != NULL; p = p->ai_next)]: [sockfd] is the last value
    [socket] returned; the second component is the set of open descriptors. *)
Fixpoint try_addresses (servinfo : list attempt) (sockfd : Z) (open : gset Z) : Z * gset Z :=
  match servinfo with
  | [] => (sockfd, open)
  | p :: servinfo =>
      if at_socket p =? -1 then try_addresses servinfo (-1) open
      else if at_connect p =? -1
      then try_addresses servinfo (at_socket p) (({[ at_socket p ]} ∪ open) ∖ {[ at_socket p ]})
      else (at_socket p, {[ at_socket p ]} ∪ open)
  end.

(** [sockfd] is not initialised. *)
Definition ping_create_tcp_connection (junk rv : Z) (servinfo : list attempt) (open : gset Z)
  : Z * gset Z :=
  if negb (rv =? 0) then (1, open) else try_addresses servinfo junk open.

(** [main] after the stream is up and the thread is started. *)
Definition ping_start (st : rnic) : ping :=
  {| pg_pc := MTop; pg_ping := 0; pg_start := 65; pg_sem := 0; pg_cq := CTop;
     pg_st := st; pg_sends := 0; pg_polled := [] |}.

(** ** The buffer a ping publishes *)

Lemma next_char_mod c : 65 <= c <= 122 -> next_char c = 65 + (c - 65 + 1) mod 58.
Proof.
  intros Hc; unfold next_char; destruct (Z.ltb_spec 122 (c + 1)).
  - assert (c = 122) as -> by lia; reflexivity.
  - rewrite Z.mod_small by lia; lia.
Qed.

Lemma next_char_range c : 65 <= c <= 122 -> 65 <= next_char c <= 122.
Proof. unfold next_char; intros; case_Z; lia. Qed.

Lemma length_fill_loop n c : length (fill_loop n c) = n.
Proof. revert c; induction n; intros c; cbn [fill_loop length]; [done|by f_equal]. Qed.

Lemma fill_loop_lookup n c j :
  65 <= c <= 122 -> (j < n)%nat ->
  fill_loop n c !! j = Some (Z_byte (65 + (c - 65 + Z.of_nat j) mod 58)).
Proof.
  revert c j; induction n as [|n IH]; intros c j Hc Hj; [lia|]; cbn [fill_loop].
  destruct j as [|j].
  - rewrite Z.add_0_r, Z.mod_small by lia; change (Z_byte c :: ?l) with ([Z_byte c] ++ l).
    cbn; do 2 f_equal; lia.
  - change ((Z_byte c :: fill_loop n (next_char c)) !! S j) with (fill_loop n (next_char c) !! j).
    rewrite IH by (try apply next_char_range; lia); rewrite next_char_mod by done.
    do 3 f_equal; replace (65 + (c - 65 + 1) mod 58 - 65) with ((c - 65 + 1) mod 58) by lia.
    rewrite Zplus_mod_idemp_l; f_equal; lia.
Qed.

Lemma text_len ping : 0 <= ping < 2 ^ 31 -> 12 <= zlen (RPING_MSG_FMT ping) <= 22.
Proof.
  intros [H _]%print_int_spec; unfold RPING_MSG_FMT; rewrite !zlen_app.
  change (zlen (map Z_byte [114; 100; 109; 97; 45; 112; 105; 110; 103; 45])) with 10.
  change (zlen (map Z_byte [58; 32])) with 2; unfold zlen; lia.
Qed.

(** For every non-negative round number the client publishes a 64-byte
    NUL-terminated buffer: "rdma-ping-N: " with N in decimal, then the letters
    from [start] on, wrapping from 'z' to 'A', up to the final NUL; the next
    round's first letter is again between 'A' and 'z'. *)
Theorem ping_message ping start :
  0 <= ping < 2 ^ 31 -> 65 <= start <= 122 ->
  let n := length (RPING_MSG_FMT ping) in
  let buf := ping_buffer ping start in
  length buf = 64%nat /\ take n buf = RPING_MSG_FMT ping /\ dec_value 0 (print_int ping) = ping /\
  (forall j, (n <= j < 63)%nat ->
     buf !! j = Some (Z_byte (65 + (start - 65 + Z.of_nat (j - n)) mod 58))) /\
  buf !! 63%nat = Some (Z_byte 0) /\ 65 <= next_char start <= 122.
Proof.
  intros Hp Hs n buf; pose proof (text_len _ Hp) as Hn; unfold zlen in Hn; fold n in Hn.
  set (rest := fill_loop (64 - n) start).
  assert (buf = RPING_MSG_FMT ping ++ take (63 - n) rest ++ [Z_byte 0]) as Hb.
  { unfold buf, ping_buffer, BUF_LEN; rewrite ztake_ge by (unfold zlen; fold n; lia).
    replace (Z.to_nat (64 - zlen (RPING_MSG_FMT ping))) with (64 - n)%nat by (unfold zlen; lia).
    fold rest; unfold store_at; change (64 - 1) with 63.
    assert (length rest = 64 - n)%nat as Hr by apply length_fill_loop.
    rewrite zdrop_ge, app_nil_r by (unfold zlen; rewrite length_app, Hr; fold n; cbn [length]; lia).
    unfold ztake; change (Z.to_nat 63) with 63%nat; rewrite take_app_ge by (fold n; lia).
    by rewrite <- app_assoc. }
  assert (length (take (63 - n) rest) = 63 - n)%nat as Hl.
  { rewrite length_take; unfold rest; rewrite length_fill_loop; lia. }
  rewrite Hb; split; [|split; [|split; [|split; [|split]]]].
  - rewrite !length_app, Hl; fold n; cbn [length]; lia.
  - apply take_app_length.
  - by apply print_int_spec.
  - intros j Hj; rewrite lookup_app_r, lookup_app_l by (fold n; lia).
    rewrite lookup_take_lt by (fold n; lia); fold n; apply fill_loop_lookup; [done|lia].
  - rewrite lookup_app_r by (fold n; lia); rewrite lookup_app_r by (fold n; lia).
    rewrite Hl; fold n; by replace (63 - n - (63 - n))%nat with 0%nat by lia.
  - by apply next_char_range.
Qed.

Lemma ping_message_witness : ping_buffer 42 65 !! 63%nat = Some (Z_byte 0).
Proof. apply (ping_message 42 65); lia. Defined.

(** ** One send at a time *)

(** The completion of a "go ahead": of the client's own receive request, a plain send,
    and successful. *)
Definition go_ahead (wc : work_completion) : bool :=
  (wce_opcode wc =? wc_opcode_val WC_SEND) && (wce_wr_id wc =? RECV_WR_ID) &&
  bool_decide (wce_status wc = WC_SUCCESS).
Definition go_aheads (s : ping) : Z := zlen (List.filter go_ahead (pg_polled s)).

Definition waiting (pc : main_pc) : Z :=
  match pc with MWait1 | MWait2 => 1 | _ => 0 end.
(** A "go ahead" in the hands of the completion thread. *)
Definition signalling (pc : cq_pc) : Z :=
  match pc with CRepost | CSignal => 1 | _ => 0 end.

Definition ping_inv (s : ping) : Prop :=
  let answered := go_aheads s - signalling (pg_cq s) in
  0 <= pg_sem s /\
  (pg_pc s <> MExit -> pg_sends s = answered - pg_sem s + waiting (pg_pc s)) /\
  pg_sends s <= answered - pg_sem s + 1.

Lemma post_send_run junk t sg next s s' :
  post_send junk t sg next s = Done s' ->
  exists st, s' = {| pg_pc := next; pg_ping := pg_ping s; pg_start := pg_start s;
                     pg_sem := pg_sem s; pg_cq := pg_cq s; pg_st := st;
                     pg_sends := pg_sends s + 1; pg_polled := pg_polled s |}.
Proof.
  unfold post_send, rdmap_send; intros H.
  apply bind_Done_inv in H as ([ret st] & E & [= <-]).
  apply bind_Done_inv in E as (st' & _ & [= <- <-]); by exists st'.
Qed.

Lemma main_step_inv junk t ssg bufp s s' :
  main_step junk t ssg bufp s = Done s' -> ping_inv s -> ping_inv s'.
Proof.
  unfold main_step, ping_inv, go_aheads; destruct (pg_pc s) eqn:Epc; intros H (Hsem & Heq & Hle); try done.
  - injection H as <-; cbn in *; specialize (Heq ltac:(done)); split; [done|].
    split; [intros _; case_match; cbn; lia|lia].
  - injection H as <-; cbn in *; specialize (Heq ltac:(done)); lia.
  - apply post_send_run in H as [st ->]; cbn in *; specialize (Heq ltac:(done)); lia.
  - unfold sem_wait in H; case_Z_in H; [injection H as <-|done]; cbn in *.
    specialize (Heq ltac:(done)); lia.
  - apply post_send_run in H as [st ->]; cbn in *; specialize (Heq ltac:(done)); lia.
  - unfold sem_wait in H; case_Z_in H; [injection H as <-|done]; cbn in *.
    specialize (Heq ltac:(done)); lia.
Qed.

(** What a step of the completion thread can do to the program's variables: what it
    has in its hands, the "go aheads" and the semaphore stay in balance. *)
Lemma cq_thread_step_balance junk t rsg s s' :
  cq_thread_step junk t rsg s = Done s' ->
  pg_pc s' = pg_pc s /\ pg_sends s' = pg_sends s /\ pg_sem s <= pg_sem s' /\
  go_aheads s' - signalling (pg_cq s') - pg_sem s' = go_aheads s - signalling (pg_cq s) - pg_sem s.
Proof.
  unfold cq_thread_step, go_aheads; destruct (pg_cq s); intros H; try done.
  - injection H as <-; cbn; case_match; cbn; split_all; done || lia.
  - apply bind_Done_inv in H as ([[wc st]|] & _ & H); [|by injection H as <-; cbn; split_all].
    assert (go_ahead wc = negb (negb (wce_opcode wc =? wc_opcode_val WC_SEND) || negb (wce_wr_id wc =? RECV_WR_ID)) &&
      bool_decide (wce_status wc = WC_SUCCESS)) as Hg by (by rewrite negb_orb, !negb_involutive).
    destruct (negb (wce_opcode wc =? _) || _); cbn [negb andb] in Hg.
    { injection H as <-; cbn [pg_pc pg_sends pg_sem pg_cq pg_polled set_pg_cq log_polled List.filter]; rewrite Hg; by split_all. }
    destruct (bool_decide _); cbn [negb] in H; injection H as <-;
      cbn [pg_pc pg_sends pg_sem pg_cq pg_polled set_pg_cq log_polled List.filter signalling]; rewrite Hg; rewrite ?zlen_cons;
      split_all; done || lia.
  - apply bind_Done_inv in H as ([? ?] & _ & H); injection H as <-; cbn; by split_all.
  - injection H as <-; cbn; split_all; done || lia.
Qed.

Lemma ping_step_inv junk tm tc ssg rsg bufp s s' :
  ping_step junk tm tc ssg rsg bufp s s' -> ping_inv s -> ping_inv s'.
Proof.
  destruct 1 as [s s' H|s s' H|s st]; [by eapply main_step_inv| |done].
  apply cq_thread_step_balance in H as (Hpc & Hs & Hm & H); unfold ping_inv; rewrite Hpc, Hs.
  intros (H0 & Heq & Hle); split; [lia|]; split; [intros Hn; rewrite Heq by done; lia|lia].
Qed.

(** C35: Under every interleaving of the main thread, the completion thread and
    whatever the stream's threads put on the completion queue, the client never has
    more than one send without an answer.  An answer is a completion the completion
    thread has taken off the queue that is successful, a plain send, and carries the id
    of the client's receive request: the client's own send completions, which arrive
    on the same queue, do not count.  The number of sends posted is at most one more
    than the number of answers; while the main thread waits it is one more than the
    answers that have gone through the semaphore and been waited for. *)
Theorem ping_one_outstanding junk tm tc ssg rsg bufp st s :
  rtc (ping_step junk tm tc ssg rsg bufp) (ping_start st) s ->
  0 <= pg_sem s /\ pg_sends s <= go_aheads s + 1 /\
  (pg_pc s = MWait1 \/ pg_pc s = MWait2 ->
   pg_sends s = go_aheads s - signalling (pg_cq s) - pg_sem s + 1).
Proof.
  intros H; assert (ping_inv s) as (H0 & Heq & Hle).
  { assert (ping_inv (ping_start st)) as Hi by (by split_all).
    induction H as [|x y z Hxy _ IH]; [done|]; by eapply IH, ping_step_inv. }
  assert (0 <= signalling (pg_cq s)) by (by destruct (pg_cq s)).
  split_all; [done|lia|]; intros Hpc; rewrite Heq by (destruct Hpc as [-> | ->]; done).
  by destruct Hpc as [-> | ->].
Qed.

(** A stream with empty queues at 10 and 11 and one completion queue at 20. *)
Definition example_wq (q : wq_queue) (t : wq_type) : wq :=
  {| wq_context := 0; wq_pd := 0; wq_cq := 20; wq_wq_num := 0; wq_handle := 0; wq_st := WQS_RDY;
     wq_wq_type := t; wq_queue_of := q; wq_events_completed := 0; wq_comp_mask := 0 |}.
Definition example_rnic (q : cqueue work_completion) : rnic :=
  {| rn_ctx := {| rc_connected := 1; rc_send_q := 10; rc_recv_q := 11; rc_recv_thread := 2;
                  rc_send_thread := 3 |};
     rn_ddp := Some (ddp_init_stream 5 0);
     rn_heap := {| cqs := {[ 20 := {| cq_ctx := 0; cq_q := q; cq_pending_q := [] |} ]};
                   wqs := {[ 10 := example_wq (SendQ []) WQT_SQ;
                             11 := example_wq (RecvQ []) WQT_RQ ]} |};
     rn_sgs := ∅; rn_mem := ∅; rn_sock := {| rx := []; tx := []; tx_plan := [] |};
     rn_msn_send := 1; rn_msn_inval := 1; rn_msn_read := 1 |}.
Definition example_wc (status : wc_status) : work_completion :=
  {| wce_wr_id := RECV_WR_ID; wce_status := status; wce_opcode := 3; wce_vendor_err := 0;
     wce_byte_len := 0; wce_imm_data := 0; wce_qp_num := 0; wce_src_qp := 0; wce_flags := 0;
     wce_pkey_index := 0; wce_slid := 0; wce_sl := 0; wce_dlid_path_bits := 0 |}.

(** The client after one send and one completion with the given status. *)
Definition run_or {A} (d : A) (r : run A) : A := match r with Done a => a | _ => d end.
Definition example_ping (status : wc_status) : ping :=
  ping_start (example_rnic [Producer 2%nat [example_wc status]]).
Fixpoint steps_of (f : ping -> run ping) (n : nat) (s : ping) : ping :=
  match n with O => s | S n => steps_of f n (run_or s (f s)) end.
Lemma steps_of_rtc (R : relation ping) (f : ping -> run ping) n s :
  (forall s s', f s = Done s' -> R s s') -> rtc R s (steps_of f n s).
Proof.
  intros Hf; revert s; induction n as [|n IH]; intros s; cbn [steps_of]; [apply rtc_refl|].
  destruct (f s) as [s'| | |] eqn:E; cbn [run_or]; try apply IH; by eapply rtc_l, IH; apply Hf.
Qed.
Definition example_sent (status : wc_status) : ping := steps_of (main_step 0 0 7 500) 3 (example_ping status).
Definition example_answered (status : wc_status) : ping :=
  steps_of (cq_thread_step 0 1 8) 4 (example_sent status).

Lemma ping_one_outstanding_witness :
  pg_sends (example_answered WC_SUCCESS) = 1 /\ go_aheads (example_answered WC_SUCCESS) = 1 /\
  pg_sends (example_answered WC_SUCCESS) <= go_aheads (example_answered WC_SUCCESS) + 1.
Proof.
  split; [vm_compute; reflexivity|]; split; [vm_compute; reflexivity|].
  apply (ping_one_outstanding 0 0 1 7 8 500
           (example_rnic [Producer 2%nat [example_wc WC_SUCCESS]])).
  etrans; [apply (steps_of_rtc _ (main_step 0 0 7 500) 3)|apply (steps_of_rtc _ (cq_thread_step 0 1 8) 4)];
    intros; [by apply step_main|by apply step_cq].
Defined.

(** When the completion thread has stopped, a main thread that waits with the
    semaphore at 0 waits for ever: clearing [connected] does not wake it, so the
    client does not terminate after a failed receive. *)
Theorem ping_main_hangs junk tm tc ssg rsg bufp s s' :
  (pg_pc s = MWait1 \/ pg_pc s = MWait2) -> pg_sem s = 0 -> pg_cq s = CStopped ->
  rtc (ping_step junk tm tc ssg rsg bufp) s s' ->
  pg_pc s' = pg_pc s /\ pg_sem s' = 0 /\ main_step junk tm ssg bufp s' = Blocked.
Proof.
  intros Hpc Hsem Hcq H.
  assert (pg_pc s' = pg_pc s /\ pg_sem s' = 0 /\ pg_cq s' = CStopped) as (H1 & H2 & _).
  { revert Hpc Hsem Hcq; induction H as [|x y z Hxy _ IH]; intros Hpc Hsem Hcq; [done|].
    destruct Hxy as [x y E|x y E|x st]; [| |by apply IH].
    - exfalso; unfold main_step, sem_wait in E.
      by destruct Hpc as [Hpc|Hpc]; rewrite Hpc, Hsem in E.
    - exfalso; unfold cq_thread_step in E; by rewrite Hcq in E. }
  split; [done|]; split; [done|]; unfold main_step, sem_wait; rewrite H1, H2.
  by destruct Hpc as [-> | ->].
Qed.

(** After one send the peer's answer arrives with an error. *)
Lemma ping_main_hangs_witness :
  pg_cq (example_answered WC_FATAL_ERR) = CStopped /\
  main_step 0 0 7 500 (example_answered WC_FATAL_ERR) = Blocked.
Proof.
  split; [vm_compute; reflexivity|].
  apply (ping_main_hangs 0 0 1 7 8 500 (example_answered WC_FATAL_ERR)
           (example_answered WC_FATAL_ERR)); [left| | |apply rtc_refl];
    vm_compute; reflexivity.
Defined.

(** ** Failures of the connection *)

Lemma try_addresses_failed servinfo sockfd (open : gset Z) :
  Forall (fun p => 0 <= at_socket p /\ at_connect p = -1 /\ at_socket p ∉ open) servinfo ->
  0 <= sockfd -> sockfd ∉ open ->
  exists fd, try_addresses servinfo sockfd open = (fd, open) /\ 0 <= fd /\ fd ∉ open.
Proof.
  revert sockfd; induction servinfo as [|p l IH]; intros sockfd Hl H0 Hni; [by exists sockfd|].
  apply Forall_cons_1 in Hl as [(Hs & Hc & Ho) Hl]; cbn [try_addresses].
  destruct (Z.eqb_spec (at_socket p) (-1)); [lia|]; rewrite Hc; cbn [Z.eqb].
  change (-1 =? -1) with true; cbv iota.
  rewrite difference_union_distr_l_L, difference_diag_L, union_empty_l_L.
  rewrite difference_disjoint_L by (intros y Hy ->%elem_of_singleton; done).
  by apply IH.
Qed.

(** The ping client does not notice that it failed to connect.  When the
    address cannot be resolved the function returns 1, and when every connection
    attempt fails it returns a descriptor it has closed; both pass the caller's
    test [sockfd < 0], although no connection is open. *)
Theorem ping_connect_failure_unnoticed junk rv p servinfo (open : gset Z) :
  Forall (fun p => 0 <= at_socket p /\ at_connect p = -1 /\ at_socket p ∉ open) (p :: servinfo) ->
  let '(fd, open') := ping_create_tcp_connection junk rv (p :: servinfo) open in
  0 <= fd /\ open' = open /\ (rv <> 0 -> fd = 1) /\ (rv = 0 -> fd ∉ open).
Proof.
  intros Hl; unfold ping_create_tcp_connection; destruct (Z.eqb_spec rv 0) as [->|Hrv]; cbn [negb].
  2: { split_all; try done. }
  apply Forall_cons_1 in Hl as [(Hs & Hc & Ho) Hl]; cbn [try_addresses].
  destruct (Z.eqb_spec (at_socket p) (-1)); [lia|]; rewrite Hc.
  change (-1 =? -1) with true; cbv iota.
  rewrite difference_union_distr_l_L, difference_diag_L, union_empty_l_L.
  rewrite difference_disjoint_L by (intros y Hy ->%elem_of_singleton; done).
  destruct (try_addresses_failed servinfo (at_socket p) open Hl Hs Ho) as (fd & -> & H0 & Hni).
  split_all; done.
Qed.

Lemma ping_connect_failure_unnoticed_witness :
  let '(fd, open') := ping_create_tcp_connection 0 0 [{| at_socket := 3; at_connect := -1 |}] {[ 0; 1; 2 ]} in
  0 <= fd /\ open' = {[ 0; 1; 2 ]} /\ (0 <> 0 -> fd = 1) /\ (0 = 0 -> fd ∉ ({[ 0; 1; 2 ]} : gset Z)).
Proof.
  apply (ping_connect_failure_unnoticed 0 0 {| at_socket := 3; at_connect := -1 |} []).
  constructor; [|constructor]; cbn; split; [lia|]; split; [reflexivity|].
  apply (bool_decide_unpack _); vm_compute; reflexivity.
Defined.
