(* ===== verification/PingMain.v ===== *)
(** * The ping client from its arguments to its loop ([main] of
      [fake_ping_client.cpp])

    The arguments, the queues, the connection, the handshake, the stream, the
    registered buffer and the description the client sends twice per round;
    [Ping] has the loop and the completion thread that start from here.

    - [ping_main_starts]: what a set-up hands to the loop; a failed handshake does not
      stop it. *)

From stdpp Require Import strings.
From S2P Require Import Prelude Endian Wire Socket Mpa MpaConnect Memory CQueue Cq Ddp Rdmap RdmapView StreamSetup Ping.

Record Config := { c_ip : string; c_port : string }.

(** [argv] has [argc] elements, the first of them the program's name; [None] is
    [exit(1)]. *)
Definition ping_argparse (argv : list string) : option Config :=
  match argv with
  | [_; ip; port] => Some {| c_ip := ip; c_port := port |}
  | _ => None
  end.

(** The description: address, tag and size, in network order. *)
Record ping_send_data := { pd_offset : Z; pd_stag : Z; pd_size : Z }.
Definition ping_send_data_bytes (d : ping_send_data) : list byte :=
  le_bytes 8 (pd_offset d) ++ le_bytes 4 (pd_stag d) ++ le_bytes 4 (pd_size d).
Definition SIZEOF_PING_SEND_DATA : Z := 16.
Definition ping_data (buf stag : Z) : ping_send_data :=
  {| pd_offset := htonll (u64 buf); pd_stag := htonl stag; pd_size := htonl BUF_LEN |}.

(** What the system answers: [getaddrinfo] and the addresses it finds, [malloc]
    in the handshake, and the stream's start. *)
Record os_ping := {
  op_getaddrinfo : Z; op_addresses : list attempt; op_malloc : bool; op_heap : addresses;
  op_stream : os_stream }.

(** How [main] gets to its loop: [exit(1)], [return 1], or the loop, with the
    stream's descriptor. *)
Inductive ping_started := Usage | NoConnection | Started (sockfd : Z) (s : ping).

(** [cq_thread] before its loop: [sg] describes the 1000 bytes at [garbage]; the
    first receive is posted. *)
Definition GARBAGE_LEN : Z := 1000.
Definition cq_thread_start (junk : Z) (t_cq : nat) (sg garbage : Z) (st : rnic) : run rnic :=
  let st := set_rn_sgs (<[sg := [{| sge_addr := garbage; sge_length := GARBAGE_LEN; sge_lkey := junk |}]]>
              (rn_sgs st)) st in
  '(_, st) ← rdma_post_recv junk t_cq (ping_recv_wr sg) st; mret st.

Section main.
(** Uninitialised values; the thread; what [create_wq] does not set; the
    addresses of the protection domain, of [buf], of [d] and of [sg]. *)
Variables (junk : Z) (t_main : nat) (junk_wq : wq) (pd bufp dp sg : Z).

(** The queues hold ten requests; the handshake's failure closes the descriptor
    and nothing else. *)
Definition ping_main (argv : list string) (os : os_ping) (h : qheap) (m : mem) (msns : Z * Z * Z)
    (s : sock) (open : gset Z) : run (ping_started * gset Z) :=
  match ping_argparse argv with
  | None => mret (Usage, open)
  | Some _ =>
      let queues := app_queues junk junk_wq pd (op_heap os) 10 h in
      let '(sockfd, open) := ping_create_tcp_connection junk (op_getaddrinfo os) (op_addresses os) open in
      if sockfd <? 0 then mret (NoConnection, open)
      else
        let '(ret, _, _, s) := mpa_client_connect (op_malloc os) [] 0 None 0 s in
        let open := if ret <? 0 then open ∖ {[ sockfd ]} else open in
        '(stag, st) ← app_stream junk t_main (op_stream os) (op_heap os).2 10 bufp BUF_LEN queues m s msns sockfd;
        let st := set_rn_mem (mem_write (rn_mem st) dp (ping_send_data_bytes (ping_data bufp stag))) st in
        let st := set_rn_sgs (<[sg := [{| sge_addr := dp; sge_length := SIZEOF_PING_SEND_DATA; sge_lkey := junk |}]]>
                    (rn_sgs st)) st in
        mret (Started sockfd (ping_start st), open)
  end.
End main.

(** ** What the loop starts from *)

Lemma ping_data_bytes buf stag :
  ping_send_data_bytes (ping_data buf stag) = be_bytes 8 (u64 buf) ++ be_bytes 4 stag ++ be_bytes 4 BUF_LEN.
Proof.
  unfold ping_send_data_bytes, ping_data; cbn [pd_offset pd_stag pd_size].
  by rewrite htonll_swap; unfold htonl; rewrite !le_bytes_swap.
Qed.

(** The state a set-up ends in: the loop at its start with nothing sent and
    nothing acknowledged, a connected stream with empty queues, the 64 bytes at
    [bufp] registered under the tag [u32 bufp], and the element at [sg] describing
    the 16 bytes that announce them: address, tag and size, most significant byte
    first. *)
Definition ready (bufp dp sg : Z) (s : ping) : Prop :=
  pg_pc s = MTop /\ ping_inv s /\ rc_connected (rn_ctx (pg_st s)) = 1 /\
  sees (pg_st s) {| v_sq := cq_new; v_rq := cq_new; v_cq := cq_new; v_pend := cq_new |} /\
  (exists ddp tb, rn_ddp (pg_st s) = Some ddp /\ dc_tagged_buffers ddp = {[ u32 bufp := tb ]} /\
     st_tag (tb_stag tb) = u32 bufp /\ tb_data tb = bufp /\ tb_len tb = 64) /\
  (exists lkey, sg_array (pg_st s) sg 1 = [{| sge_addr := dp; sge_length := 16; sge_lkey := lkey |}]) /\
  mem_read (rn_mem (pg_st s)) dp 16 = be_bytes 8 (u64 bufp) ++ be_bytes 4 (u32 bufp) ++ be_bytes 4 64.

(** With two arguments, a connection, and a stream whose two threads start and take no
    turn before the buffer is registered, the ping client reaches its loop in the state
    [ready], whatever the handshake answered: when the handshake fails, the descriptor
    the stream was started on is closed, and the client goes on all the same. *)
Theorem ping_main_starts junk t junk_wq pd bufp dp sg prog ip port os cq sq rq ctx h m msns s open
    sockfd open' ret version info s' :
  op_heap os = (cq, sq, rq, ctx) -> sq <> rq -> or_rc (op_stream os) = (0, 0) ->
  (forall st, or_turns (op_stream os) st = st) ->
  ping_create_tcp_connection junk (op_getaddrinfo os) (op_addresses os) open = (sockfd, open') ->
  0 <= sockfd -> mpa_client_connect (op_malloc os) [] 0 None 0 s = (ret, version, info, s') ->
  exists p,
    ping_main junk t junk_wq pd bufp dp sg [prog; ip; port] os h m msns s open =
      Done (Started sockfd p, if ret <? 0 then open' ∖ {[ sockfd ]} else open') /\
    rn_sock (pg_st p) = s' /\ ready bufp dp sg p.
Proof.
  intros Hh Hne Hrc Htu Hc Hfd Hm; unfold ping_main; cbn [ping_argparse]; rewrite Hh, Hc, Hm.
  destruct (Z.ltb_spec sockfd 0); [lia|]; cbn [snd].
  destruct (app_stream_ok junk junk_wq pd t (op_stream os) cq sq rq ctx 10 bufp BUF_LEN h m s' msns sockfd
    Hrc Htu Hne) as (st & ddp & tb & -> & Hconn & Hv & Hmem & Hs & Hsg & Hd & Ht & Htag & Hdata & Hlen).
  rewrite bind_Done; eexists; split; [reflexivity|]; split; [exact Hs|]; split; [done|].
  split; [by split_all|]; split; [exact Hconn|]; split; [exact Hv|]; split; [|split].
  - by exists ddp, tb.
  - exists junk; unfold sg_array; cbn; by rewrite lookup_insert_eq.
  - cbn [pg_st ping_start rn_mem set_rn_sgs set_rn_mem]; rewrite ping_data_bytes.
    by apply (mem_read_write (rn_mem st) dp (be_bytes 8 (u64 bufp) ++ be_bytes 4 (u32 bufp) ++ be_bytes 4 64)).
Qed.

(** ** Two set-ups and a first round *)
Module Example.
Definition junk_wq : wq := example_wq (SendQ []) WQT_SQ.
Definition os : os_ping :=
  {| op_getaddrinfo := 0;
     op_addresses := [{| at_socket := 3; at_connect := -1 |}; {| at_socket := 3; at_connect := 0 |}];
     op_malloc := true; op_heap := (20, 10, 11, 0x5000);
     op_stream := {| or_ptrs := [0x9000; 0x9100]; or_tids := (1%nat, 2%nat); or_rc := (0, 0); or_turns := fun st => st |} |}.
Definition h0 : qheap := {| cqs := ∅; wqs := ∅ |}.

(** The peer answers the handshake, or refuses the client's request. *)
Definition peer_sock (ok : bool) : sock :=
  {| rx := [RxData (encode (mpa_rr_header false 0)); RxGap]; tx := [];
     tx_plan := if ok then [] else [TxFail 104] |}.

Abbreviation client ok :=
  (ping_main 0 0 junk_wq 0x100 0x4000 0x3000 7 ["ping"%string; "10.0.0.1"%string; "9999"%string] os h0 ∅ (1, 1, 1)
     (peer_sock ok) {[ 0; 1; 2 ]}).

(** The set-up, the completion thread's first receive and the main thread's
    first send: the requests on the two queues. *)
Definition first_round (ok : bool) : run (list send_wr * list recv_wr) :=
  '(r, _) ← client ok;
  match r with
  | Started _ p =>
      st ← cq_thread_start 0 1 8 0x6000 (pg_st p);
      let p := steps_of (main_step 0 0 7 0x4000) 3 (set_pg_st st p) in
      sq ← send_wq (pg_st p); q ← as_send_q sq; rq ← recv_wq (pg_st p); q' ← as_recv_q rq;
      mret (q_items q, q_items q')
  | _ => Undefined
  end.
End Example.

Example first_round_posts :
  Example.first_round true = Done ([ping_send_wr 0 7], [ping_recv_wr 8]).
Proof. vm_compute; reflexivity. Qed.

(** The refused client: its descriptor is closed, and its loop starts. *)
Lemma ping_main_starts_witness :
  let open := {[ 3 ]} ∪ (({[ 3 ]} ∪ {[ 0; 1; 2 ]}) ∖ {[ 3 ]}) in
  exists p, Example.client false = Done (Started 3 p, open ∖ {[ 3 ]}) /\ ready 0x4000 0x3000 7 p.
Proof.
  intros open.
  destruct (mpa_client_connect true [] 0 None 0 (Example.peer_sock false)) as [[[ret v] info] s'] eqn:E.
  assert ((ret <? 0) = true) as Hret.
  { apply (f_equal (fun x => x.1.1.1)) in E; cbn [fst] in E; rewrite <- E; vm_compute; reflexivity. }
  destruct (ping_main_starts 0 0 Example.junk_wq 0x100 0x4000 0x3000 7 "ping"%string "10.0.0.1"%string
    "9999"%string Example.os 20 10 11 0x5000 Example.h0 ∅ (1, 1, 1) (Example.peer_sock false) {[ 0; 1; 2 ]}
    3 open ret v info s') as (p & Hp & _ & Hr); [reflexivity|done|reflexivity|done|reflexivity|done|exact E|].
  exists p; split; [|exact Hr]; rewrite Hret in Hp; exact Hp.
Defined.
