(* ===== verification/Perftest.v ===== *)
(** * The benchmark programs ([perftest/perftest.h], [perftest/perftest.cpp],
      [perftest/read_lat.cpp], [perftest/read_bw.cpp], [perftest/write_lat.cpp],
      [perftest/write_bw.cpp])

    A driver parses the options, connects, sets up a stream, exchanges buffer
    descriptions and runs the iterations of one of four tests.  The driver and
    the tests spin on completion queues and on memory while the stream's threads
    work: [env] lists what those threads do between two looks. *)

From Stdlib Require Import Ascii.
From stdpp Require Import strings.
From S2P Require Import Prelude Endian Wire Socket Mpa Memory CQueue Cq Ddp Rdmap Ping.

(** ** Options *)
Definition DEFAULT_BUF_SIZE : Z := 1024.
Definition DEFAULT_ITERS : Z := 1024.
Definition DEFAULT_IP : string := "127.0.0.1".
Definition DEFAULT_PORT : string := "9999".
Definition DEFAULT_MAX_REQS : Z := 1024.

(** [buf] and [serverfd] are set later; [huge_shmid] is not used. *)
Record perftest_context := {
  pt_port : string; pt_ip : string; pt_buf_size : Z; pt_buf : Z; pt_iters : Z; pt_max_reqs : Z;
  pt_is_client : bool; pt_serverfd : Z }.

(** What a call of [getopt] with "p:s:b:i:r:ch" returns: a known option with its
    argument, or '?'. *)
Inductive opt :=
| OptS (arg : string) | OptP (arg : string) | OptB (arg : string) | OptI (arg : string)
| OptR (arg : string) | OptC | OptH | OptUnknown.

(** [atoi] as glibc defines it: [strtol] in base 10, converted to [int]. *)
Definition digit_of (c : Ascii.ascii) : option Z :=
  let n := Z.of_N (Ascii.N_of_ascii c) - 48 in
  if (0 <=? n) && (n <=? 9) then Some n else None.
Definition is_space (c : Ascii.ascii) : bool :=
  let n := Z.of_N (Ascii.N_of_ascii c) in (n =? 32) || ((9 <=? n) && (n <=? 13)).
Fixpoint scan_digits (s : string) (acc : Z) : Z :=
  match s with
  | EmptyString => acc
  | String c s => match digit_of c with Some d => scan_digits s (10 * acc + d) | None => acc end
  end.
Fixpoint skip_spaces (s : string) : string :=
  match s with
  | String c s' => if is_space c then skip_spaces s' else s
  | EmptyString => EmptyString
  end.
Definition clamp_long (z : Z) : Z := Z.max (- 2 ^ 63) (Z.min (2 ^ 63 - 1) z).
Definition atoi (s : string) : Z :=
  i32 (clamp_long
    match skip_spaces s with
    | String "-"%char s => - scan_digits s 0
    | String "+"%char s => scan_digits s 0
    | s => scan_digits s 0
    end).

Definition default_context (serverfd : Z) : perftest_context :=
  {| pt_port := DEFAULT_PORT; pt_ip := DEFAULT_IP; pt_buf_size := DEFAULT_BUF_SIZE; pt_buf := 0;
     pt_iters := DEFAULT_ITERS; pt_max_reqs := DEFAULT_MAX_REQS; pt_is_client := false;
     pt_serverfd := serverfd |}.

Definition set_option (o : opt) (c : perftest_context) : perftest_context :=
  {| pt_port := match o with OptP a => a | _ => pt_port c end;
     pt_ip := match o with OptS a => a | _ => pt_ip c end;
     pt_buf_size := match o with OptB a => atoi a | _ => pt_buf_size c end;
     pt_buf := pt_buf c;
     pt_iters := match o with OptI a => atoi a | _ => pt_iters c end;
     pt_max_reqs := match o with OptR a => atoi a | _ => pt_max_reqs c end;
     pt_is_client := match o with OptC => true | _ => pt_is_client c end;
     pt_serverfd := pt_serverfd c |}.

(** How parsing ends: [exit(0)] after the help text, return value 1, or 0 with
    the options. *)
Inductive parsed := ParseExit | ParseError | ParseOk (c : perftest_context).

Fixpoint argparse_loop (opts : list opt) (c : perftest_context) : parsed :=
  match opts with
  | [] => ParseOk c
  | OptH :: _ => ParseExit
  | OptUnknown :: _ => ParseError
  | o :: opts => argparse_loop opts (set_option o c)
  end.
Definition argparse (opts : list opt) (c : perftest_context) : parsed :=
  argparse_loop opts (default_context (pt_serverfd c)).

(** ** Connections *)

(** What the system calls answer: descriptors or -1 for [socket] and [accept],
    results for the others. *)
Record os_tcp := {
  ot_socket : Z; ot_getaddrinfo : Z; ot_connect : Z; ot_bind : Z; ot_listen : Z; ot_accept : Z }.

(** The result, [serverfd] afterwards, and the open descriptors.  [close(-1)]
    closes nothing. *)
Definition create_tcp_connection (is_client : bool) (serverfd : Z) (os : os_tcp) (open : gset Z)
  : Z * Z * gset Z :=
  let sock := ot_socket os in
  if sock <? 0 then (-1, serverfd, open)
  else
    let open := {[ sock ]} ∪ open in
    let fail (sock serverfd : Z) (open : gset Z) := (-1, serverfd, open ∖ {[ sock ]}) in
    if negb (ot_getaddrinfo os =? 0) then fail sock serverfd open
    else if is_client then
      if ot_connect os =? -1 then fail sock serverfd open else (sock, serverfd, open)
    else
      let first := serverfd =? -1 in
      let serverfd := if first then sock else serverfd in
      if first && negb (ot_bind os =? 0) then fail sock serverfd open
      else if first && negb (ot_listen os =? 0) then fail sock serverfd open
      else if ot_accept os =? -1 then fail (-1) serverfd open
      else (ot_accept os, serverfd, {[ ot_accept os ]} ∪ open).

(** [clock_gettime] in nanoseconds, in 64 bits. *)
Definition get_nanos (tv_sec tv_nsec : Z) : Z :=
  u64 (u64 (u64 (u64 (u64 tv_sec * 1000) * 1000) * 1000) + tv_nsec).

(** ** Waiting *)

(** [do { suc = q->try_dequeue(wc); } while (!suc);]: between two looks the other
    threads take a step of [env]; the loop is still spinning when they are used
    up. *)
Fixpoint wait_completion (poll : rnic -> run (option (work_completion * rnic)))
    (env : list (rnic -> rnic)) (st : rnic) : run (work_completion * rnic * list (rnic -> rnic)) :=
  found ← poll st;
  match found with
  | Some (wc, st) => mret (wc, st, env)
  | None => match env with
            | [] => Blocked
            | f :: env => wait_completion poll env (f st)
            end
  end.

(** [while (buf[off] == v);] in the same way. *)
Fixpoint wait_byte_ne (a : Z) (v : byte) (env : list (rnic -> rnic)) (st : rnic)
  : run (rnic * list (rnic -> rnic)) :=
  if decide (mem_get (rn_mem st) a = v) then
    match env with
    | [] => Blocked
    | f :: env => wait_byte_ne a v env (f st)
    end
  else mret (st, env).

(** ** The exchange of buffer descriptions *)
Record send_data := { sd_offset : Z; sd_stag : Z; sd_size : Z }.
Definition SIZEOF_SEND_DATA : Z := 24.
Definition send_data_bytes (d : send_data) : list byte :=
  le_bytes 8 (sd_offset d) ++ le_bytes 8 (sd_stag d) ++ le_bytes 8 (sd_size d).

Section exchange.
(** The thread, uninitialised members and keys. *)
Variables (t : nat) (junk : Z).

Definition set_sge (sg : Z) (addr len : Z) (st : rnic) : rnic :=
  let lkey := match rn_sgs st !! sg with Some (g :: _) => sge_lkey g | _ => junk end in
  set_rn_sgs (<[sg := [{| sge_addr := addr; sge_length := u32 len; sge_lkey := lkey |}]]> (rn_sgs st)) st.

(** The completion that ends the wait is not looked at. *)
Definition rdmap_send_data (data len : Z) (wr : send_wr) (env : list (rnic -> rnic)) (st : rnic)
  : run (Z * rnic * list (rnic -> rnic)) :=
  let st := set_sge (swr_sg_list wr) data len st in
  '(ret, st) ← rdmap_send t wr st;
  '(_, st, env) ← wait_completion poll_send_cq env st;
  mret (ret, st, env).

Definition rdmap_recv_issue (buf len : Z) (wr : recv_wr) (st : rnic) : run (Z * rnic) :=
  rdma_post_recv junk t wr (set_sge (rwr_sg_list wr) buf len st).

Definition rdmap_recv_ack (env : list (rnic -> rnic)) (st : rnic)
  : run (Z * rnic * list (rnic -> rnic)) :=
  '(wc, st, env) ← wait_completion poll_recv_cq env st;
  if negb (bool_decide (wce_status wc = WC_SUCCESS)) then mret (-1, st, env)
  else if negb (wce_opcode wc =? wc_opcode_val WC_SEND) then mret (-1, st, env)
  else mret (0, st, env).

(** The messages both sides send; 1 and 1901 are their request ids. *)
Definition perf_send_wr (id sg : Z) : send_wr :=
  {| swr_wr_id := id; swr_sg_list := sg; swr_num_sge := 1; swr_opcode := RDMAP_SEND;
     swr_send_flags := junk; swr_invalidate_rkey := junk; swr_remote_addr := junk;
     swr_rkey := junk |}.
Definition perf_recv_wr (sg : Z) : recv_wr :=
  {| rwr_wr_id := 1901; rwr_sg_list := sg; rwr_num_sge := 1 |}.

(** Client and server run the same code: post the receive, synchronise
    ([env_sync] is what happens meanwhile), send, wait for both completions.
    Errors are only logged; the result says whether the receive succeeded. *)
Definition exchange (mine theirs send_sg recv_sg : Z) (env_sync : rnic -> rnic)
    (env : list (rnic -> rnic)) (st : rnic) : run (Z * rnic * list (rnic -> rnic)) :=
  '(_, st) ← rdmap_recv_issue theirs SIZEOF_SEND_DATA (perf_recv_wr recv_sg) st;
  '(_, st, env) ← rdmap_send_data mine SIZEOF_SEND_DATA (perf_send_wr 1 send_sg) env (env_sync st);
  rdmap_recv_ack env st.
End exchange.

(** ** The tests *)

(** [for (i = 0; i < buf_size; i++) buf[i] = (char) i;] *)
Definition fill_pattern (n : nat) : list byte := map (fun i => Z_byte (Z.of_nat i)) (seq 0 n).
Definition fill_buf (c : perftest_context) (st : rnic) : rnic :=
  set_rn_mem (mem_write (rn_mem st) (pt_buf c) (fill_pattern (Z.to_nat (pt_buf_size c)))) st.
(** [memset(buf, 0, buf_size)] *)
Definition clear_buf (c : perftest_context) (st : rnic) : rnic :=
  set_rn_mem (mem_write (rn_mem st) (pt_buf c) (replicate (Z.to_nat (pt_buf_size c)) (Z_byte 0))) st.

Section tests.
Variables (cfg : config) (t : nat) (junk : Z).

(** The work request of a test, on the element at [sg], towards the peer's
    buffer [sd]; [rkey] is 32 bits wide, [stag] 64. *)
Definition test_wr (op : rdma_opcode) (id sg : Z) (sd : send_data) : send_wr :=
  {| swr_wr_id := id; swr_sg_list := sg; swr_num_sge := 1; swr_opcode := op;
     swr_send_flags := junk; swr_invalidate_rkey := junk; swr_remote_addr := sd_offset sd;
     swr_rkey := u32 (sd_stag sd) |}.
Definition test_sge (c : perftest_context) (lstag : Z) : sge :=
  {| sge_addr := pt_buf c; sge_length := u32 (pt_buf_size c); sge_lkey := lstag |}.
Definition put_sge (sg : Z) (g : sge) (st : rnic) : rnic :=
  set_rn_sgs (<[sg := [g]]> (rn_sgs st)) st.

Definition read_lat_init (c : perftest_context) (lstag : Z) (sd : send_data) (sg : Z) (st : rnic)
  : Z * send_wr * rnic :=
  let st := put_sge sg (test_sge c lstag) st in
  (0, test_wr RDMAP_RDMA_READ_REQ 2 sg sd, if pt_is_client c then fill_buf c st else st).
Definition read_bw_init := read_lat_init.

Definition write_lat_init (c : perftest_context) (lstag : Z) (sd : send_data) (sg : Z) (st : rnic)
  : Z * send_wr * rnic :=
  let st := put_sge sg (test_sge c lstag) st in
  (0, test_wr RDMAP_RDMA_WRITE 2 sg sd, if pt_is_client c then clear_buf c st else fill_buf c st).

(** The end marker [byte_end], at [end_addr] and described by [sg_end]. *)
Definition byte_end : Z := 0xdeadbeef.
Definition write_bw_init (c : perftest_context) (lstag : Z) (sd : send_data) (sg sg_end end_addr : Z)
    (st : rnic) : Z * send_wr * send_wr * rnic :=
  let st := put_sge sg (test_sge c lstag) st in
  let st := put_sge sg_end {| sge_addr := end_addr; sge_length := 4; sge_lkey := 0 |} st in
  (0, test_wr RDMAP_RDMA_WRITE 2 sg sd, test_wr RDMAP_RDMA_WRITE 0xffffffff sg_end sd,
   if pt_is_client c then fill_buf c st else clear_buf c st).

(** Whether a completion is the one the test waits for. *)
Definition good (op : wc_opcode) (wc : work_completion) : bool :=
  bool_decide (wce_status wc = WC_SUCCESS) && (wce_opcode wc =? wc_opcode_val op).

(** [for (i = 0; i < max_reqs; i++)]: post [n] requests; [bump] is 1 where the
    loop increments [wr_id]. *)
Fixpoint issue (post : send_wr -> rnic -> run (Z * rnic)) (n : nat) (bump : Z) (wr : send_wr)
    (st : rnic) : run (Z * send_wr * rnic) :=
  match n with
  | O => mret (0, wr, st)
  | S n =>
      '(ret, st) ← post wr st;
      let wr := {| swr_wr_id := u64 (swr_wr_id wr + bump); swr_sg_list := swr_sg_list wr;
                   swr_num_sge := swr_num_sge wr; swr_opcode := swr_opcode wr;
                   swr_send_flags := swr_send_flags wr;
                   swr_invalidate_rkey := swr_invalidate_rkey wr;
                   swr_remote_addr := swr_remote_addr wr; swr_rkey := swr_rkey wr |} in
      if ret <? 0 then mret (-1, wr, st) else issue post n bump wr st
  end.

(** Wait for [n] completions, one after the other, and check each. *)
Fixpoint collect (op : wc_opcode) (n : nat) (env : list (rnic -> rnic)) (st : rnic)
  : run (Z * rnic * list (rnic -> rnic)) :=
  match n with
  | O => mret (0, st, env)
  | S n =>
      '(wc, st, env) ← wait_completion poll_send_cq env st;
      if good op wc then collect op n env st else mret (-1, st, env)
  end.

(** One request and its completion, as the latency tests do it. *)
Definition read_lat_iter (c : perftest_context) (wr : send_wr) (env : list (rnic -> rnic)) (st : rnic)
  : run (Z * rnic * list (rnic -> rnic)) :=
  if pt_is_client c then mret (0, st, env)
  else
    '(ret, st) ← rdmap_read cfg t wr st;
    if ret <? 0 then mret (-1, st, env) else collect WC_READ_REQUEST 1 env st.

Definition read_bw_iter (c : perftest_context) (wr : send_wr) (env : list (rnic -> rnic)) (st : rnic)
  : run (Z * send_wr * rnic * list (rnic -> rnic)) :=
  if pt_is_client c then mret (0, wr, st, env)
  else
    let n := Z.to_nat (pt_max_reqs c) in
    '(ret, wr, st) ← issue (rdmap_read cfg t) n 1 wr st;
    if ret <? 0 then mret (-1, wr, st, env)
    else '(ret, st, env) ← collect WC_READ_REQUEST n env st; mret (ret, wr, st, env).

(** The two halves of [write_lat_iter]: wait for the peer's byte and put the
    old one back, or write and wait for the completion. *)
Definition write_lat_wait (c : perftest_context) (env : list (rnic -> rnic)) (st : rnic)
  : run (Z * rnic * list (rnic -> rnic)) :=
  let v := if pt_is_client c then Z_byte 0 else Z_byte 1 in
  '(st, env) ← wait_byte_ne (pt_buf c + 1) v env st;
  mret (0, set_rn_mem (mem_write (rn_mem st) (pt_buf c + 1) [v]) st, env).
Definition write_lat_post (wr : send_wr) (env : list (rnic -> rnic)) (st : rnic)
  : run (Z * rnic * list (rnic -> rnic)) :=
  '(ret, st) ← rdmap_write cfg t wr st;
  if ret <? 0 then mret (-1, st, env) else collect WC_WRITE 1 env st.
(** The client waits first, the server writes first. *)
Definition write_lat_iter (c : perftest_context) (wr : send_wr) (env : list (rnic -> rnic)) (st : rnic)
  : run (Z * rnic * list (rnic -> rnic)) :=
  if pt_is_client c then
    '(_, st, env) ← write_lat_wait c env st; write_lat_post wr env st
  else
    '(ret, st, env) ← write_lat_post wr env st;
    if ret <? 0 then mret (ret, st, env) else write_lat_wait c env st.

(** The server waits for the marker and clears it; the client writes the buffer
    [max_reqs] times and then the marker (whose post is not checked). *)
Definition write_bw_iter (c : perftest_context) (wr wr_end : send_wr) (env : list (rnic -> rnic))
    (st : rnic) : run (Z * rnic * list (rnic -> rnic)) :=
  if negb (pt_is_client c) then
    '(st, env) ← wait_byte_ne (pt_buf c) (Z_byte 0) env st;
    mret (0, set_rn_mem (mem_write (rn_mem st) (pt_buf c) (le_bytes 4 0)) st, env)
  else
    let n := Z.to_nat (pt_max_reqs c) in
    '(ret, _, st) ← issue (rdmap_write cfg t) n 0 wr st;
    if ret <? 0 then mret (-1, st, env)
    else
      '(ret, st, env) ← collect WC_WRITE n env st;
      if ret <? 0 then mret (-1, st, env)
      else '(_, st) ← rdmap_write cfg t wr_end st; collect WC_WRITE 1 env st.
End tests.

(** ** The iterations

    [test_iter] returns 0 or fails; [clock] are the readings of the clock, two per
    iteration; [sync] is what happens while the two sides synchronise. *)
Section bench.
Context {X : Type} (sync : X -> X) (test_iter : X -> run (Z * X)).

Fixpoint bench_loop (n : nat) (clock : list (Z * Z)) (total_ns : Z) (s : X)
  : run (bool * Z * X) :=
  match n, clock with
  | O, _ => mret (true, total_ns, s)
  | S _, [] => Blocked
  | S n, (start_ns, end_ns) :: clock =>
      '(ret, s) ← test_iter (sync s);
      if negb (ret =? 0) then mret (false, total_ns, s)
      else bench_loop n clock (u64 (total_ns + u64 (end_ns - start_ns))) s
  end.
End bench.
