(* ===== verification/PerftestProofs.v ===== *)
(** * The benchmark programs: what they guarantee

    Options, descriptors, the completion loops, the exchange, and the marker of
    the write bandwidth test. *)

From stdpp Require Import strings.
From S2P Require Import Prelude Endian Wire Socket Mpa Memory CQueue Cq Ddp Rdmap RdmapView Ping Perftest.

(** ** Options *)
Definition arg_s (o : opt) : option string := match o with OptS a => Some a | _ => None end.
Definition arg_p (o : opt) : option string := match o with OptP a => Some a | _ => None end.
Definition arg_b (o : opt) : option Z := match o with OptB a => Some (atoi a) | _ => None end.
Definition arg_i (o : opt) : option Z := match o with OptI a => Some (atoi a) | _ => None end.
Definition arg_r (o : opt) : option Z := match o with OptR a => Some (atoi a) | _ => None end.
Definition arg_c (o : opt) : option bool := match o with OptC => Some true | _ => None end.

(** The value of the last option [f] recognises, or [d]. *)
Definition last_arg {A} (f : opt -> option A) (opts : list opt) (d : A) : A :=
  default d (last (omap f opts)).

Lemma last_arg_cons {A} (f : opt -> option A) o opts d :
  last_arg f (o :: opts) d = last_arg f opts (default d (f o)).
Proof.
  unfold last_arg; cbn [omap list_omap]; destruct (f o) as [a|]; [|done].
  rewrite last_cons; by destruct (last (omap f opts)).
Qed.

Definition stops (o : opt) : bool := match o with OptH | OptUnknown => true | _ => false end.

Lemma argparse_loop_spec opts c :
  argparse_loop opts c =
  match find stops opts with
  | Some OptH => ParseExit
  | Some _ => ParseError
  | None => ParseOk {| pt_port := last_arg arg_p opts (pt_port c);
                       pt_ip := last_arg arg_s opts (pt_ip c);
                       pt_buf_size := last_arg arg_b opts (pt_buf_size c); pt_buf := pt_buf c;
                       pt_iters := last_arg arg_i opts (pt_iters c);
                       pt_max_reqs := last_arg arg_r opts (pt_max_reqs c);
                       pt_is_client := last_arg arg_c opts (pt_is_client c);
                       pt_serverfd := pt_serverfd c |}
  end.
Proof.
  revert c; induction opts as [|o opts IH]; intros c; [by destruct c|].
  rewrite !last_arg_cons; destruct o; cbn [argparse_loop find stops]; try done;
    rewrite IH; destruct (find stops opts) as [[]|]; done.
Qed.

(** Parsing stops at the first [-h] (exit) or unknown option (error);
    otherwise every setting is the argument of its last option, or the default:
    127.0.0.1, port 9999, 1024 bytes, 1024 iterations, 1024 requests, server. *)
Theorem argparse_spec opts c :
  argparse opts c =
  match find stops opts with
  | Some OptH => ParseExit
  | Some _ => ParseError
  | None => ParseOk {| pt_port := last_arg arg_p opts "9999"%string;
                       pt_ip := last_arg arg_s opts "127.0.0.1"%string;
                       pt_buf_size := last_arg arg_b opts 1024; pt_buf := 0;
                       pt_iters := last_arg arg_i opts 1024;
                       pt_max_reqs := last_arg arg_r opts 1024;
                       pt_is_client := last_arg arg_c opts false; pt_serverfd := pt_serverfd c |}
  end.
Proof. unfold argparse; by rewrite argparse_loop_spec. Qed.

(** ** Descriptors *)

Lemma open_close (x : Z) (open : gset Z) : x ∉ open -> ({[ x ]} ∪ open) ∖ {[ x ]} = open.
Proof.
  intros Hx; apply set_eq; intros y; rewrite elem_of_difference, elem_of_union, !elem_of_singleton.
  split; [by intros [[|] ?]|]; intros Hy; split; [by right|]; by intros ->.
Qed.

(** What [create_tcp_connection] leaves open, when the system returns
    descriptors that were not open.  A client keeps its connection on success and
    nothing on failure.  A server's first call keeps the listening socket and the
    connection; when binding fails it closes the socket but still remembers it as
    the server's.  Every later server call leaks the socket it creates and never
    uses. *)
Theorem create_tcp_connection_fds serverfd os (open : gset Z) :
  0 <= ot_socket os -> (ot_socket os ∉ open) -> (ot_accept os ∉ open) ->
  (let '(ret, _, open') := create_tcp_connection true serverfd os open in
   if ret <? 0 then open' = open else open' = {[ ret ]} ∪ open) /\
  (let '(ret, server', open') := create_tcp_connection false (-1) os open in
   if ret =? -1 then
     open' = open \/ (open' = {[ server' ]} ∪ open /\ ot_accept os = -1)
   else open' = {[ ret; server' ]} ∪ open) /\
  (serverfd <> -1 -> ot_getaddrinfo os = 0 -> ot_accept os <> -1 ->
   create_tcp_connection false serverfd os open =
   (ot_accept os, serverfd, {[ ot_accept os ]} ∪ ({[ ot_socket os ]} ∪ open))).
Proof.
  intros H0 Hs Ha; unfold create_tcp_connection; destruct (Z.ltb_spec (ot_socket os) 0); [lia|].
  split; [|split].
  - destruct (ot_getaddrinfo os =? 0); cbn; [|by apply open_close].
    destruct (ot_connect os =? -1); cbn; [by apply open_close|].
    by destruct (Z.ltb_spec (ot_socket os) 0); [lia|].
  - destruct (ot_getaddrinfo os =? 0); cbn; [|left; by apply open_close].
    destruct (ot_bind os =? 0); cbn; [|left; by apply open_close].
    destruct (ot_listen os =? 0); cbn; [|left; by apply open_close].
    destruct (ot_accept os =? -1) eqn:E; cbn; [|by rewrite E, (assoc_L (∪))].
    apply Z.eqb_eq in E; rewrite E in Ha; right; split; [|done].
    apply difference_disjoint_L; intros y [Hy%elem_of_singleton|Hy]%elem_of_union Hm%elem_of_singleton.
    + lia.
    + by subst.
  - intros Hsrv Hg Hacc; rewrite Hg; cbn [Z.eqb negb].
    rewrite (proj2 (Z.eqb_neq serverfd (-1))) by done; cbn [andb].
    by rewrite (proj2 (Z.eqb_neq (ot_accept os) (-1))) by done.
Qed.

Lemma create_tcp_connection_fds_witness :
  create_tcp_connection false 3
    {| ot_socket := 5; ot_getaddrinfo := 0; ot_connect := 0; ot_bind := 0; ot_listen := 0;
       ot_accept := 6 |} {[ 3; 4 ]} = (6, 3, {[ 6 ]} ∪ ({[ 5 ]} ∪ {[ 3; 4 ]})).
Proof.
  apply (create_tcp_connection_fds 3
    {| ot_socket := 5; ot_getaddrinfo := 0; ot_connect := 0; ot_bind := 0; ot_listen := 0;
       ot_accept := 6 |} {[ 3; 4 ]}); try lia; try done;
    apply (bool_decide_unpack _); vm_compute; reflexivity.
Defined.

(** ** Completion loops *)
Lemma poll_send_cq_sees st v :
  sees st v ->
  match try_dequeue (v_cq v) with
  | None => poll_send_cq st = Done None
  | Some (x, q) => exists h, poll_send_cq st = Done (Some (x, set_rn_heap h st)) /\
      has_view (rn_ctx st) h (with_cq q v)
  end.
Proof.
  intros (w & w' & k & H1 & H2 & H3 & H4 & H5 & H6 & H7).
  unfold poll_send_cq, send_cq, send_wq; rewrite H1; cbn [deref]; rewrite bind_Done, H5.
  cbn [deref]; rewrite !bind_Done; unfold cq_try_dequeue; rewrite H6.
  destruct (try_dequeue (v_cq v)) as [[x q]|]; [|done].
  eexists; split; [reflexivity|].
  exists w, w', {| cq_ctx := cq_ctx k; cq_q := q; cq_pending_q := cq_pending_q k |}; cbn.
  by rewrite lookup_insert_eq.
Qed.

(** Waiting returns at once when a completion is there. *)
Lemma wait_completion_now st v env :
  sees st v -> q_items (v_cq v) <> [] ->
  exists wc q h, try_dequeue (v_cq v) = Some (wc, q) /\
    wait_completion poll_send_cq env st = Done (wc, set_rn_heap h st, env) /\
    has_view (rn_ctx st) h (with_cq q v).
Proof.
  intros Hv Hne; pose proof (poll_send_cq_sees st v Hv) as Hp.
  pose proof (try_dequeue_cases (v_cq v)) as Hc.
  destruct (try_dequeue (v_cq v)) as [[wc q]|] eqn:E; [|done].
  destruct Hp as (h & Ep & Hh); exists wc, q, h; split; [done|]; split; [|done].
  by destruct env; cbn [wait_completion]; rewrite Ep.
Qed.

(** Collecting [n] completions that are all there and all good succeeds and takes
    exactly [n] of them, whichever threads put them there. *)
Lemma collect_ok op n env st v :
  sees st v -> Forall (fun wc => good op wc = true) (q_items (v_cq v)) ->
  (n <= length (q_items (v_cq v)))%nat ->
  exists q h, collect op n env st = Done (0, set_rn_heap h st, env) /\
    has_view (rn_ctx st) h (with_cq q v) /\
    length (q_items q) = (length (q_items (v_cq v)) - n)%nat.
Proof.
  revert st v; induction n as [|n IH]; intros st v Hv Hg Hn.
  { exists (v_cq v), (rn_heap st); split_all; [by destruct st|by destruct v|lia]. }
  destruct (wait_completion_now st v env Hv) as (wc & q & h & Ed & Ew & Hh).
  { by intros E; rewrite E in Hn; cbn in Hn; lia. }
  pose proof (try_dequeue_items _ _ _ Ed) as Hp.
  rewrite Hp in Hg; apply Forall_cons_1 in Hg as [Hwc Hg].
  apply Permutation_length in Hp; cbn [length] in Hp.
  cbn [collect]; rewrite Ew, bind_Done, Hwc.
  destruct (IH (set_rn_heap h st) (with_cq q v)) as (q' & h' & E & Hh' & Hl); [done|done|cbn [with_cq v_cq]; lia|].
  exists q', h'; split; [exact E|]; split; [exact Hh'|]; rewrite Hl; cbn [with_cq v_cq]; lia.
Qed.

(** A bad completion ends the loop. *)
Lemma collect_bad op n env st v :
  sees st v -> Forall (fun wc => good op wc = false) (q_items (v_cq v)) -> q_items (v_cq v) <> [] ->
  exists h, collect op (S n) env st = Done (-1, set_rn_heap h st, env).
Proof.
  intros Hv Hg Hne; destruct (wait_completion_now st v env Hv Hne) as (wc & q & h & Ed & Ew & Hh).
  apply try_dequeue_items in Ed as Hp; rewrite Hp in Hg; apply Forall_cons_1 in Hg as [Hwc _].
  exists h; cbn [collect]; by rewrite Ew, bind_Done, Hwc.
Qed.

(** The requests [issue] posts: one per turn, with consecutive ids. *)
Definition with_id (id : Z) (wr : send_wr) : send_wr :=
  {| swr_wr_id := u64 id; swr_sg_list := swr_sg_list wr; swr_num_sge := swr_num_sge wr;
     swr_opcode := swr_opcode wr; swr_send_flags := swr_send_flags wr;
     swr_invalidate_rkey := swr_invalidate_rkey wr; swr_remote_addr := swr_remote_addr wr;
     swr_rkey := swr_rkey wr |}.
Definition enqueue_all (t : nat) (wrs : list send_wr) (q : cqueue send_wr) : cqueue send_wr :=
  fold_left (fun q wr => enqueue t wr q) wrs q.

Lemma rdmap_read_sees cfg t wr st v :
  sees st v -> swr_opcode wr = RDMAP_RDMA_READ_REQ ->
  exists h, rdmap_read cfg t wr st = Done (1, set_rn_heap h st) /\
    has_view (rn_ctx st) h (with_sq (enqueue t wr (v_sq v)) v).
Proof.
  intros Hv Hop; unfold rdmap_read, assert_; rewrite bool_decide_true, orb_true_r, bind_Done by done.
  destruct (sq_enqueue_sees st v Hv t wr) as (h & E & Hh); exists h; by rewrite E, bind_Done.
Qed.

Lemma issue_reads cfg t n wr st v :
  sees st v -> swr_opcode wr = RDMAP_RDMA_READ_REQ -> in_u 64 (swr_wr_id wr) ->
  exists h, issue (rdmap_read cfg t) n 1 wr st =
      Done (0, with_id (swr_wr_id wr + Z.of_nat n) wr, set_rn_heap h st) /\
    has_view (rn_ctx st) h
      (with_sq (enqueue_all t (map (fun i => with_id (swr_wr_id wr + Z.of_nat i) wr) (seq 0 n))
                  (v_sq v)) v).
Proof.
  revert wr st v; induction n as [|n IH]; intros wr st v Hv Hop Hid.
  { exists (rn_heap st); split; [|by destruct v].
    cbn [issue]; do 3 f_equal; [|by destruct st]; f_equal.
    unfold with_id; rewrite Z.add_0_r, wrap_small by done; by destruct wr. }
  destruct (rdmap_read_sees cfg t wr st v Hv Hop) as (h & E & Hh).
  cbn [issue]; rewrite E, bind_Done; change (1 <? 0) with false; cbv iota.
  change {| swr_wr_id := u64 (swr_wr_id wr + 1); swr_sg_list := swr_sg_list wr;
            swr_num_sge := swr_num_sge wr; swr_opcode := swr_opcode wr;
            swr_send_flags := swr_send_flags wr; swr_invalidate_rkey := swr_invalidate_rkey wr;
            swr_remote_addr := swr_remote_addr wr; swr_rkey := swr_rkey wr |}
    with (with_id (swr_wr_id wr + 1) wr).
  destruct (IH (with_id (swr_wr_id wr + 1) wr) (set_rn_heap h st) _ Hh Hop) as (h' & E' & Hh').
  { apply wrap_range; lia. }
  assert (forall k, with_id (swr_wr_id (with_id (swr_wr_id wr + 1) wr) + k) (with_id (swr_wr_id wr + 1) wr)
                    = with_id (swr_wr_id wr + (1 + k)) wr) as Hw.
  { intros k; unfold with_id; cbn; f_equal; rewrite wrap_add_l; f_equal; lia. }
  exists h'; split.
  - rewrite E', Hw; do 4 f_equal; lia.
  - replace (with_sq _ v) with (with_sq (enqueue_all t
      (map (fun i => with_id (swr_wr_id (with_id (swr_wr_id wr + 1) wr) + Z.of_nat i)
                       (with_id (swr_wr_id wr + 1) wr)) (seq 0 n))
      (v_sq (with_sq (enqueue t wr (v_sq v)) v))) (with_sq (enqueue t wr (v_sq v)) v)); [exact Hh'|].
    unfold with_sq; cbn; f_equal; unfold enqueue_all; cbn [seq map fold_left].
    f_equal.
    + rewrite <- seq_shift, map_map; apply map_ext; intros i; rewrite Hw; f_equal; lia.
    + f_equal; unfold with_id; rewrite Z.add_0_r, wrap_small by done; by destruct wr.
Qed.

(** With nothing to take the loop spins until the other threads have moved. *)
Lemma collect_spins op n f env st v :
  sees st v -> q_items (v_cq v) = [] ->
  collect op (S n) (f :: env) st = collect op (S n) env (f st).
Proof.
  intros Hv He; pose proof (poll_send_cq_sees st v Hv) as Hp.
  destruct (try_dequeue (v_cq v)) as [[wc q]|] eqn:E.
  { apply try_dequeue_items in E; rewrite He in E; by apply Permutation_nil_cons in E. }
  cbn [collect wait_completion]; by rewrite Hp, bind_Done.
Qed.

(** An iteration of the read bandwidth test posts exactly [max_reqs] read
    requests, with consecutive ids, behind whatever the send queue held, then
    waits, and succeeds once the stream has produced that many successful read
    completions, from whichever threads; it consumes exactly that many and leaves
    the next id for the next iteration. *)
Theorem read_bw_iter_ok cfg t c wr f env st v v1 :
  sees st v -> swr_opcode wr = RDMAP_RDMA_READ_REQ -> in_u 64 (swr_wr_id wr) ->
  pt_is_client c = false -> 0 < pt_max_reqs c -> q_items (v_cq v) = [] ->
  (forall st1, rn_ctx st1 = rn_ctx st ->
     sees st1 (with_sq (enqueue_all t (map (fun i => with_id (swr_wr_id wr + Z.of_nat i) wr)
                         (seq 0 (Z.to_nat (pt_max_reqs c)))) (v_sq v)) v) -> sees (f st1) v1) ->
  Forall (fun wc => good WC_READ_REQUEST wc = true) (q_items (v_cq v1)) ->
  (Z.to_nat (pt_max_reqs c) <= length (q_items (v_cq v1)))%nat ->
  exists st2 q, read_bw_iter cfg t c wr (f :: env) st =
      Done (0, with_id (swr_wr_id wr + pt_max_reqs c) wr, st2, env) /\
    sees st2 (with_cq q v1) /\
    length (q_items q) = (length (q_items (v_cq v1)) - Z.to_nat (pt_max_reqs c))%nat.
Proof.
  intros Hv Hop Hid Hc Hm He Hf Hg Hn; unfold read_bw_iter; rewrite Hc.
  destruct (issue_reads cfg t (Z.to_nat (pt_max_reqs c)) wr st v Hv Hop Hid) as (h & E & Hh).
  rewrite E, bind_Done; change (0 <? 0) with false; cbv iota.
  specialize (Hf (set_rn_heap h st) eq_refl Hh); rewrite Z2Nat.id by lia.
  destruct (Z.to_nat (pt_max_reqs c)) as [|n] eqn:En; [lia|].
  rewrite (collect_spins _ _ f env (set_rn_heap h st) _ Hh He).
  destruct (collect_ok WC_READ_REQUEST (S n) env (f (set_rn_heap h st)) v1 Hf Hg Hn)
    as (q & h' & Ec & Hh' & Hl).
  rewrite Ec, bind_Done; exists (set_rn_heap h' (f (set_rn_heap h st))), q; by split_all.
Qed.

Definition read_done : work_completion :=
  set_wce_opcode (wc_opcode_val WC_READ_REQUEST) (example_wc WC_SUCCESS).
Definition bw_context : perftest_context := set_option (OptR "2"%string) (default_context 4).
Definition bw_wr : send_wr :=
  test_wr 0 RDMAP_RDMA_READ_REQ 2 64 {| sd_offset := 4096; sd_stag := 4096; sd_size := 1024 |}.

Lemma read_bw_iter_ok_witness :
  exists st2 q, read_bw_iter {| ndebug := false; rping := false |} 0 bw_context bw_wr
      [fun _ => example_rnic [Producer 2%nat [read_done; read_done]]] (example_rnic []) =
    Done (0, with_id 4 bw_wr, st2, []) /\
    sees st2 (with_cq q {| v_sq := []; v_rq := []; v_cq := [Producer 2%nat [read_done; read_done]];
                           v_pend := [] |}) /\ length (q_items q) = 0%nat.
Proof.
  assert (forall q, sees (example_rnic q) {| v_sq := []; v_rq := []; v_cq := q; v_pend := [] |}) as He.
  { intros q; exists (example_wq (SendQ []) WQT_SQ), (example_wq (RecvQ []) WQT_RQ),
      {| cq_ctx := 0; cq_q := q; cq_pending_q := [] |}; split_all; reflexivity. }
  apply (read_bw_iter_ok {| ndebug := false; rping := false |} 0 bw_context bw_wr
    (fun _ => example_rnic [Producer 2%nat [read_done; read_done]]) [] (example_rnic [])
    {| v_sq := []; v_rq := []; v_cq := []; v_pend := [] |}
    {| v_sq := []; v_rq := []; v_cq := [Producer 2%nat [read_done; read_done]]; v_pend := [] |}).
  - apply He.
  - reflexivity.
  - vm_compute; split; [discriminate|reflexivity].
  - reflexivity.
  - vm_compute; reflexivity.
  - reflexivity.
  - intros; apply He.
  - repeat constructor.
  - vm_compute; repeat constructor.
Defined.

(** ** The end marker of the write bandwidth test *)

(** What the stream does to the server's memory when a write of [bs] to [a] is
    placed. *)
Definition place (a : Z) (bs : list byte) (st : rnic) : rnic :=
  set_rn_mem (mem_write (rn_mem st) a bs) st.

Lemma mem_get_write_head m a b bs :
  zlen (b :: bs) <= 2 ^ 64 -> mem_get (mem_write m a (b :: bs)) a = b.
Proof. intros H; by rewrite mem_get_write, Z.sub_diag by done. Qed.

Lemma wait_byte_env a v f env st :
  mem_get (rn_mem st) a = v ->
  wait_byte_ne a v (f :: env) st = wait_byte_ne a v env (f st).
Proof. intros H; cbn [wait_byte_ne]; by rewrite decide_True. Qed.

Lemma wait_bulk a k bs env st :
  mem_get (rn_mem st) a = Z_byte 0 -> zlen (Z_byte 0 :: bs) <= 2 ^ 64 ->
  exists st', mem_get (rn_mem st') a = Z_byte 0 /\
    wait_byte_ne a (Z_byte 0) (replicate k (place a (Z_byte 0 :: bs)) ++ env) st =
    wait_byte_ne a (Z_byte 0) env st'.
Proof.
  intros Hm Hl; revert st Hm; induction k as [|k IH]; intros st Hm; [by exists st|].
  change (replicate (S k) ?x ++ env) with (x :: replicate k x ++ env).
  rewrite wait_byte_env by done; apply IH; cbn [place rn_mem set_rn_mem].
  by apply mem_get_write_head.
Qed.

(** The bulk writes of the write bandwidth test never look like its end
    marker: the client's fill pattern starts with a zero byte, so the server's
    wait survives any number of them, ends with the marker 0xdeadbeef, and the
    server clears all four bytes of it, ready for the next iteration. *)
Theorem write_bw_marker cfg t cs cc wr wr_end k env st :
  pt_is_client cs = false -> mem_get (rn_mem st) (pt_buf cs) = Z_byte 0 ->
  0 < pt_buf_size cc -> pt_buf_size cc <= 2 ^ 31 ->
  exists st', write_bw_iter cfg t cs wr wr_end
      (replicate k (place (pt_buf cs) (fill_pattern (Z.to_nat (pt_buf_size cc)))) ++
       place (pt_buf cs) (le_bytes 4 byte_end) :: env) st = Done (0, st', env) /\
    mem_read (rn_mem st') (pt_buf cs) 4 = replicate 4 (Z_byte 0).
Proof.
  intros Hc Hm Hn Hb; unfold write_bw_iter; rewrite Hc; cbn [negb].
  assert (exists bs, fill_pattern (Z.to_nat (pt_buf_size cc)) = Z_byte 0 :: bs /\
            zlen (Z_byte 0 :: bs) <= 2 ^ 64) as (bs & -> & Hl).
  { unfold fill_pattern; destruct (Z.to_nat (pt_buf_size cc)) as [|n] eqn:E; [lia|].
    exists (map (fun i => Z_byte (Z.of_nat i)) (seq 1 n)); split; [reflexivity|].
    unfold zlen; cbn [length]; rewrite length_map, length_seq; lia. }
  destruct (wait_bulk (pt_buf cs) k bs (place (pt_buf cs) (le_bytes 4 byte_end) :: env) st Hm Hl)
    as (st' & Hm' & ->).
  rewrite wait_byte_env by done; set (st2 := place _ _ st').
  assert (mem_get (rn_mem st2) (pt_buf cs) = Z_byte 0xef) as Hm2.
  { cbn [st2 place rn_mem set_rn_mem]; by apply (mem_get_write_head _ _ (Z_byte 0xef)). }
  assert (wait_byte_ne (pt_buf cs) (Z_byte 0) env st2 = Done (st2, env)) as ->.
  { destruct env; cbn [wait_byte_ne]; by rewrite decide_False by (rewrite Hm2; done). }
  rewrite bind_Done; eexists; split; [reflexivity|]; cbn [rn_mem set_rn_mem].
  by apply (mem_read_write _ _ (le_bytes 4 0)).
Qed.

Lemma write_bw_marker_witness :
  exists st', write_bw_iter {| ndebug := false; rping := false |} 0 (default_context 4) bw_wr bw_wr
      (replicate 2 (place 0 (fill_pattern 1024)) ++ [place 0 (le_bytes 4 byte_end)])
      (example_rnic []) = Done (0, st', []) /\
    mem_read (rn_mem st') 0 4 = replicate 4 (Z_byte 0).
Proof.
  apply (write_bw_marker {| ndebug := false; rping := false |} 0 (default_context 4)
    (default_context 4) bw_wr bw_wr 2 [] (example_rnic [])); try reflexivity.
  vm_compute; discriminate.
Defined.
