(* ===== verification/PerftestRun.v ===== *)
(** * A whole benchmark run ([perftest_run], [perftest/perftest.cpp])

    The driver's set-up, its phases and its ways out, composed from the
    components: options, buffer, queues, connections, MPA, stream, exchange,
    iterations, notification and clean-up.  The process is the set of open
    descriptors, the set of mappings and the stream; what the system and the
    other threads do is an argument.

    - [perftest_run_resources]: what each way out leaves open and mapped;
    - [bench_loop_total]: the loop runs every iteration and sums their times;
    - [client_reports_server_total]: the time the client prints is the server's;
    - [sync_exchange]: the two-way synchronisation over the second connection. *)

From stdpp Require Import strings.
From S2P Require Import Prelude Endian Wire Socket Mpa MpaConnect Memory CQueue Cq Ddp Rdmap RdmapView StreamSetup Ping Perftest PerftestProofs.

(** ** What the system answers *)

(** [or_mmap] is [None] for [MAP_FAILED].  The other members are the
    answers of [create_tcp_connection]'s calls, of [malloc] in the handshake, the
    addresses of the queues and the stream, what [rdmap_init_stream] gets, and the
    readings of the clock. *)
Record os_run := {
  or_mmap : option Z; or_tcp : os_tcp; or_tcp_sync : os_tcp; or_malloc : bool;
  or_heap : addresses; or_stream : os_stream; or_clock : list (Z * Z) }.

(** The addresses of the driver's local variables: the two descriptions, the
    total, and the elements of the two requests. *)
Record frame := { fr_mine : Z; fr_theirs : Z; fr_total : Z; fr_send_sg : Z; fr_recv_sg : Z; fr_pd : Z }.

(** The process: descriptors, mappings, completion and work queues (which live
    in the stream's state while there is one), and the stream. *)
Record proc := { ps_open : gset Z; ps_maps : gset Z; ps_heap : qheap; ps_stream : option rnic }.

(** What the driver prints at the end: the total time, and from the bandwidth
    tests the number of requests and of bytes the rates are computed from. *)
Record report := { rep_total_ns : Z; rep_rates : option (Z * Z) }.

(** [exit(0)] after the help text, or a return. *)
Inductive ended := ExitedOk (p : proc) | Returned (p : proc) (r : option report).

(** ** The tests as the driver sees them *)

(** [T] is what the test keeps in its global variables. *)
Record perf_test (T : Type) := {
  test_init : perftest_context -> Z -> send_data -> rnic -> Z * T * rnic;
  test_iter : perftest_context -> T -> list (rnic -> rnic) -> rnic ->
              run (Z * T * rnic * list (rnic -> rnic));
  test_fini : perftest_context -> run (option (Z * Z)) }.
Arguments test_init {T} _ _ _ _ _.
Arguments test_iter {T} _ _ _ _ _.
Arguments test_fini {T} _ _.

(** The latency tests print nothing more. *)
Definition lat_fini (c : perftest_context) : run (option (Z * Z)) := mret None.

(** [max_reqs * iters] is a product of two [int]s, undefined when it overflows;
    the number of bytes is computed in 64 bits. *)
Definition bw_fini (c : perftest_context) : run (option (Z * Z)) :=
  let n := pt_max_reqs c * pt_iters c in
  if (- 2 ^ 31 <=? n) && (n <? 2 ^ 31)
  then mret (Some (u64 n, u64 (u64 n * u64 (pt_buf_size c)))) else Undefined.

Section mains.
Variables (cfg : config) (t : nat) (junk sg sg_end end_addr : Z).

Definition read_lat_main : perf_test send_wr :=
  {| test_init c lstag sd st := read_lat_init junk c lstag sd sg st;
     test_iter c wr env st := '(r, st, env) ← read_lat_iter cfg t c wr env st; mret (r, wr, st, env);
     test_fini := lat_fini |}.
Definition read_bw_main : perf_test send_wr :=
  {| test_init c lstag sd st := read_bw_init junk c lstag sd sg st;
     test_iter c wr env st := read_bw_iter cfg t c wr env st;
     test_fini := bw_fini |}.
Definition write_lat_main : perf_test send_wr :=
  {| test_init c lstag sd st := write_lat_init junk c lstag sd sg st;
     test_iter c wr env st := '(r, st, env) ← write_lat_iter cfg t c wr env st; mret (r, wr, st, env);
     test_fini := lat_fini |}.
Definition write_bw_main : perf_test (send_wr * send_wr) :=
  {| test_init c lstag sd st :=
       let '(r, wr, wr_end, st) := write_bw_init junk c lstag sd sg sg_end end_addr st in
       (r, (wr, wr_end), st);
     test_iter c wrs env st :=
       '(r, st, env) ← write_bw_iter cfg t c wrs.1 wrs.2 env st; mret (r, wrs, st, env);
     test_fini := bw_fini |}.
End mains.

(** ** The phases *)

Definition alloc_buf (os : os_run) (c : perftest_context) (p : proc)
  : option (perftest_context * proc) :=
  match or_mmap os with
  | None => None
  | Some buf =>
      Some ({| pt_port := pt_port c; pt_ip := pt_ip c; pt_buf_size := pt_buf_size c; pt_buf := buf;
               pt_iters := pt_iters c; pt_max_reqs := pt_max_reqs c;
               pt_is_client := pt_is_client c; pt_serverfd := pt_serverfd c |},
            {| ps_open := ps_open p; ps_maps := {[ buf ]} ∪ ps_maps p; ps_heap := ps_heap p;
               ps_stream := ps_stream p |})
  end.

(** [send(sync_sock, &dummy, 8, 0); recv(sync_sock, &dummy, 8, 0);], results
    unchecked. *)
Definition sync_with_remote (s : sock) : sock :=
  let '(_, s) := sendmsg (le_bytes 8 0) s in
  let '(_, s) := recv false 8 s in s.

(** Meanwhile the other threads take a step. *)
Definition env_step (env : list (rnic -> rnic)) (st : rnic) : rnic * list (rnic -> rnic) :=
  match env with [] => (st, []) | f :: env => (f st, env) end.

Definition set_serverfd (fd : Z) (c : perftest_context) : perftest_context :=
  {| pt_port := pt_port c; pt_ip := pt_ip c; pt_buf_size := pt_buf_size c; pt_buf := pt_buf c;
     pt_iters := pt_iters c; pt_max_reqs := pt_max_reqs c; pt_is_client := pt_is_client c;
     pt_serverfd := fd |}.
Definition set_ps_open (v : gset Z) (p : proc) : proc :=
  {| ps_open := v; ps_maps := ps_maps p; ps_heap := ps_heap p; ps_stream := ps_stream p |}.
Definition set_ps_heap (v : qheap) (p : proc) : proc :=
  {| ps_open := ps_open p; ps_maps := ps_maps p; ps_heap := v; ps_stream := ps_stream p |}.

(** One connection: the descriptor or -1, and the server socket remembered. *)
Definition perf_connect (os : os_tcp) (c : perftest_context) (p : proc)
  : Z * perftest_context * proc :=
  let '(ret, serverfd, open) :=
    create_tcp_connection (pt_is_client c) (pt_serverfd c) os (ps_open p) in
  (ret, set_serverfd serverfd c, set_ps_open open p).

Section driver.
(** The thread, uninitialised values, and what [create_wq] does not set. *)
Variables (t : nat) (junk : Z) (junk_wq : wq) (fr : frame).

(** [max_reqs + 2], undefined when it overflows. *)
Definition num_reqs (c : perftest_context) : run Z :=
  if pt_max_reqs c + 2 <? 2 ^ 31 then mret (pt_max_reqs c + 2) else Undefined.

(** The handshake, whose result is ignored, and the stream. *)
Definition perf_stream (os : os_run) (c : perftest_context) (n : Z) (queues : Z * Z * Z * qheap)
    (m : mem) (s : sock) (msns : Z * Z * Z) (sockfd : Z) : run (Z * rnic) :=
  let s := if pt_is_client c then (mpa_client_connect (or_malloc os) [] 0 None 0 s).2
           else (mpa_server_accept (or_malloc os) [] 0 None 0 s).2 in
  app_stream junk t (or_stream os) (or_heap os).2 n (pt_buf c) (pt_buf_size c) queues m s msns sockfd.

(** The description this side sends and the one it reads back. *)
Definition my_sd (c : perftest_context) (stag : Z) : send_data :=
  {| sd_offset := u64 (pt_buf c); sd_stag := stag; sd_size := u64 (pt_buf_size c) |}.
Definition read_send_data (m : mem) (a : Z) : send_data :=
  {| sd_offset := le_Z (mem_read m a 8); sd_stag := le_Z (mem_read m (a + 8) 8);
     sd_size := le_Z (mem_read m (a + 16) 8) |}.

Definition perf_exchange (c : perftest_context) (stag : Z) (sync : sock)
    (env : list (rnic -> rnic)) (st : rnic)
  : run (send_data * sock * rnic * list (rnic -> rnic)) :=
  let st := set_rn_mem (mem_write (rn_mem st) (fr_mine fr) (send_data_bytes (my_sd c stag))) st in
  let '(f, env) := match env with [] => (id, []) | f :: env => (f, env) end in
  '(_, st, env) ← exchange t junk (fr_mine fr) (fr_theirs fr) (fr_send_sg fr) (fr_recv_sg fr) f env st;
  mret (read_send_data (rn_mem st) (fr_theirs fr), sync_with_remote sync, st, env).

Section with_test.
Context {T : Type} (test : perf_test T).

(** What the loop carries: the connection used to synchronise, the test's
    globals, the stream and the steps of the other threads. *)
Definition bench_state : Type := sock * T * rnic * list (rnic -> rnic).
Definition bench_sync (s : bench_state) : bench_state :=
  let '(sync, x, st, env) := s in
  let '(st, env) := env_step env st in (sync_with_remote sync, x, st, env).
Definition bench_iter (c : perftest_context) (s : bench_state) : run (Z * bench_state) :=
  let '(sync, x, st, env) := s in
  '(ret, x, st, env) ← test_iter test c x env st; mret (ret, (sync, x, st, env)).

(** The client receives the server's total into its own variable; the server
    sends it.  Errors are only logged. *)
Definition perf_finish (c : perftest_context) (total_ns : Z) (s : bench_state)
  : run (Z * bench_state) :=
  let '(sync, x, st, env) := s in
  let st := set_rn_mem (mem_write (rn_mem st) (fr_total fr) (le_bytes 8 total_ns)) st in
  let total (st : rnic) := le_Z (mem_read (rn_mem st) (fr_total fr) 8) in
  if pt_is_client c then
    '(_, st) ← rdmap_recv_issue t junk (fr_total fr) 8 (perf_recv_wr (fr_recv_sg fr)) st;
    let '(st, env) := env_step env st in
    let sync := sync_with_remote sync in
    '(_, st, env) ← rdmap_recv_ack env st;
    mret (total st, (sync, x, st, env))
  else
    let '(st, env) := env_step env st in
    let sync := sync_with_remote sync in
    '(_, st, env) ← rdmap_send_data t junk (fr_total fr) 8 (perf_send_wr junk 234 (fr_send_sg fr)) env st;
    mret (total st, (sync, x, st, env)).

(** [test_init] to [test_fini]; [None] when the test failed and the driver went
    straight to the clean-up. *)
Definition perf_bench (os : os_run) (c : perftest_context) (stag : Z) (their_sd : send_data)
    (sync : sock) (env : list (rnic -> rnic)) (st : rnic) : run (option report * rnic) :=
  let '(ret, x, st) := test_init test c stag their_sd st in
  if negb (ret =? 0) then mret (None, st)
  else
    '(ok, total_ns, s) ←
      bench_loop bench_sync (bench_iter c) (Z.to_nat (pt_iters c)) (or_clock os) 0 (sync, x, st, env);
    if negb ok then mret (None, s.1.2)
    else
      '(total_ns, s) ← perf_finish c total_ns s;
      rates ← test_fini test c;
      mret (Some {| rep_total_ns := total_ns; rep_rates := rates |}, s.1.2).

(** The label [cleanup]. *)
Definition perf_cleanup (c : perftest_context) (sockfd sync_sock : Z) (st : rnic) (p : proc) : proc :=
  let open := (ps_open p ∖ {[ sockfd ]}) ∖ {[ sync_sock ]} in
  {| ps_open := if pt_is_client c then open else open ∖ {[ pt_serverfd c ]};
     ps_maps := ps_maps p ∖ {[ pt_buf c ]}; ps_heap := rn_heap st;
     ps_stream := Some (rdmap_kill_stream st) |}.

(** [s] and [sync] are the two connections, [m] the memory. *)
Definition perftest_run (opts : list opt) (os : os_run) (m : mem) (msns : Z * Z * Z)
    (s sync : sock) (env : list (rnic -> rnic)) (p : proc) : run ended :=
  match argparse opts (default_context (-1)) with
  | ParseExit => mret (ExitedOk p)
  | ParseError => mret (Returned p None)
  | ParseOk c =>
      match alloc_buf os c p with
      | None => mret (Returned p None)
      | Some (c, p) =>
          n ← num_reqs c;
          let queues := app_queues junk junk_wq (fr_pd fr) (or_heap os) n (ps_heap p) in
          let p := set_ps_heap queues.2 p in
          let '(sockfd, c, p) := perf_connect (or_tcp os) c p in
          if sockfd <? 0 then mret (Returned p None)
          else
            let '(sync_sock, c, p) := perf_connect (or_tcp_sync os) c p in
            if sync_sock <? 0 then mret (Returned p None)
            else
              '(stag, st) ← perf_stream os c n queues m s msns sockfd;
              '(their_sd, sync, st, env) ← perf_exchange c stag sync env st;
              '(r, st) ← perf_bench os c stag their_sd sync env st;
              mret (Returned (perf_cleanup c sockfd sync_sock st p) r)
      end
  end.
End with_test.
End driver.

(** ** What a run leaves behind *)

(** A descriptor the system returns: an error or one that was not open. *)
Definition new_fd (fd : Z) (open : gset Z) : Prop := fd < 0 \/ fd ∉ open.
Definition new_fds (os : os_tcp) (open : gset Z) : Prop :=
  new_fd (ot_socket os) open /\ new_fd (ot_accept os) ({[ ot_socket os ]} ∪ open).

(** The descriptors a successful connection adds. *)
Definition conn_fds (c : perftest_context) (os : os_tcp) : gset Z :=
  if pt_is_client c then {[ ot_socket os ]} else {[ ot_accept os ]} ∪ {[ ot_socket os ]}.

Lemma perf_connect_adds os c p :
  let '(ret, c', p') := perf_connect os c p in
  0 <= ret ->
  ret = (if pt_is_client c then ot_socket os else ot_accept os) /\ 0 <= ot_socket os /\
  c' = set_serverfd (if pt_is_client c || negb (pt_serverfd c =? -1) then pt_serverfd c
                     else ot_socket os) c /\
  p' = set_ps_open (conn_fds c os ∪ ps_open p) p.
Proof.
  unfold perf_connect, create_tcp_connection, conn_fds.
  destruct (Z.ltb_spec (ot_socket os) 0); cbn; [lia|].
  destruct (ot_getaddrinfo os =? 0); cbn; [|lia].
  destruct (pt_is_client c); cbn.
  { destruct (ot_connect os =? -1); cbn; [lia|done]. }
  destruct (pt_serverfd c =? -1), (ot_bind os =? 0), (ot_listen os =? 0),
    (ot_accept os =? -1); cbn; try lia; rewrite (assoc_L (∪)); done.
Qed.

Lemma perf_connect_keeps os c p :
  new_fds os (ps_open p) -> (forall fd, fd ∈ ps_open p -> 0 <= fd) ->
  let '(_, _, p') := perf_connect os c p in
  ps_open p ⊆ ps_open p' /\ p' = set_ps_open (ps_open p') p.
Proof.
  intros ([Hs|Hs] & Ha) Hp; unfold perf_connect, create_tcp_connection.
  { destruct (Z.ltb_spec (ot_socket os) 0); [|lia]; by destruct p. }
  destruct (Z.ltb_spec (ot_socket os) 0); [by destruct p|].
  assert (ps_open p ⊆ ({[ot_socket os]} ∪ ps_open p) ∖ {[ot_socket os]}) as H1 by set_solver.
  assert (ps_open p ⊆ ({[ot_socket os]} ∪ ps_open p) ∖ {[-1]}) as H2.
  { intros x Hx; specialize (Hp x Hx); apply elem_of_difference; split; [set_solver|].
    intros ->%elem_of_singleton; lia. }
  destruct (ot_getaddrinfo os =? 0), (pt_is_client c), (ot_connect os =? -1),
    (pt_serverfd c =? -1), (ot_bind os =? 0), (ot_listen os =? 0), (ot_accept os =? -1);
    cbn; split; (done || set_solver).
Qed.

(** The extra socket of a server's second connection. *)
Definition leaked (c : perftest_context) (os : os_run) : gset Z :=
  if pt_is_client c then ∅ else {[ ot_socket (or_tcp_sync os) ]}.

(** What a run that started may leave behind, by whether it got its stream. *)
Definition left_behind (c : perftest_context) (os : os_run) (buf : Z) (p : proc) (e : ended) : Prop :=
  exists p' r, e = Returned p' r /\
  match ps_stream p' with
  | None => r = None /\ ps_open p ⊆ ps_open p' /\ ps_maps p' = {[ buf ]} ∪ ps_maps p /\
            queues_allocated (or_heap os) (ps_heap p')
  | Some st => ps_open p' = leaked c os ∪ ps_open p /\ ps_maps p' = ps_maps p /\
               rc_connected (rn_ctx st) = 0 /\ rn_ddp st = None
  end.

Lemma cleanup_open c os (open : gset Z) :
  new_fds (or_tcp os) open -> 0 <= ot_socket (or_tcp os) ->
  new_fds (or_tcp_sync os) (conn_fds c (or_tcp os) ∪ open) -> 0 <= ot_socket (or_tcp_sync os) ->
  (pt_is_client c = false -> 0 <= ot_accept (or_tcp os) /\ 0 <= ot_accept (or_tcp_sync os)) ->
  let ret os := if pt_is_client c then ot_socket os else ot_accept os in
  let all := conn_fds c (or_tcp_sync os) ∪ (conn_fds c (or_tcp os) ∪ open) in
  let rest := (all ∖ {[ ret (or_tcp os) ]}) ∖ {[ ret (or_tcp_sync os) ]} in
  (if pt_is_client c then rest else rest ∖ {[ ot_socket (or_tcp os) ]}) = leaked c os ∪ open.
Proof.
  unfold new_fds, new_fd, conn_fds, leaked; destruct (pt_is_client c); cbn;
    intros ([?|H1] & H2) ? ([?|H3] & H4) ? H5; try lia.
  - apply set_eq; intros x; destruct (decide (x ∈ open)); set_solver.
  - destruct (H5 eq_refl), H2 as [?|H2], H4 as [?|H4]; try lia; clear H5.
    apply set_eq; intros x; destruct (decide (x ∈ open)); set_solver.
Qed.

(** C28: When the options are accepted and the buffer is mapped, a benchmark run
    that returns has either set up a stream or not.  Without one (a connection
    failed) it prints nothing, and the buffer stays mapped, the three queues stay
    allocated and no descriptor it was given is closed.  With one, whatever
    happened in between (failed initialisation, failed iteration or success), the
    buffer is unmapped, the stream is disconnected, its DDP context is gone, and
    every descriptor of the run is closed, except, in a server, the socket its
    second connection created and never used. *)
Theorem perftest_run_resources {T} t junk junk_wq fr (test : perf_test T) opts os m msns s sync env
    p e c buf :
  argparse opts (default_context (-1)) = ParseOk c -> or_mmap os = Some buf ->
  buf ∉ ps_maps p -> (forall fd, fd ∈ ps_open p -> 0 <= fd) -> ps_stream p = None ->
  new_fds (or_tcp os) (ps_open p) ->
  new_fds (or_tcp_sync os) (conn_fds c (or_tcp os) ∪ ps_open p) ->
  perftest_run t junk junk_wq fr test opts os m msns s sync env p = Done e ->
  left_behind c os buf p e.
Proof.
  intros Hc Hb Hm Hp Hst H1 H2; revert e; fold (ensures
    (perftest_run t junk junk_wq fr test opts os m msns s sync env p) (left_behind c os buf p)).
  assert (pt_serverfd c = -1) as Hfd.
  { rewrite argparse_spec in Hc; destruct (find stops opts) as [[]|]; try done; by injection Hc as <-. }
  unfold perftest_run, alloc_buf; rewrite Hc, Hb.
  set (c1 := {| pt_port := pt_port c |}); set (p1 := {| ps_open := ps_open p |}).
  apply ensures_bind; intros n _; cbv zeta.
  set (p2 := set_ps_heap _ p1).
  assert (queues_allocated (or_heap os) (ps_heap p2)) as Hq by apply app_queues_allocated.
  pose proof (perf_connect_keeps (or_tcp os) c1 p2 H1 Hp) as K1.
  pose proof (perf_connect_adds (or_tcp os) c1 p2) as A1.
  destruct (perf_connect (or_tcp os) c1 p2) as [[sockfd c2] p3].
  destruct (Z.ltb_spec sockfd 0) as [_|Hs1].
  { apply ensures_ret; exists p3, None; split; [done|]; destruct K1 as [K1 ->]; cbn; by rewrite Hst. }
  destruct (A1 Hs1) as (E1 & G1 & -> & ->); clear A1 K1.
  change (pt_serverfd c1) with (pt_serverfd c); rewrite Hfd.
  set (c3 := set_serverfd _ c1); set (p4 := set_ps_open _ p2).
  assert (forall fd, fd ∈ ps_open p4 -> 0 <= fd) as Hp4.
  { intros fd; cbn; unfold conn_fds; cbn; destruct (pt_is_client c); set_solver. }
  pose proof (perf_connect_keeps (or_tcp_sync os) c3 p4 H2 Hp4) as K2.
  pose proof (perf_connect_adds (or_tcp_sync os) c3 p4) as A2.
  destruct (perf_connect (or_tcp_sync os) c3 p4) as [[sync_sock c4] p5].
  destruct (Z.ltb_spec sync_sock 0) as [_|Hs2].
  { apply ensures_ret; exists p5, None; split; [done|]; destruct K2 as [K2 ->]; cbn; rewrite Hst.
    split; [done|]; split; [|done]; etrans; [|exact K2]; cbn; set_solver. }
  destruct (A2 Hs2) as (E2 & G2 & -> & ->); clear A2 K2.
  apply ensures_bind; intros [stag st] _; apply ensures_bind; intros [[[sd sy] st1] env1] _.
  apply ensures_bind; intros [r st2] _; apply ensures_ret.
  eexists _, r; split; [reflexivity|]; cbn; split; [|split; [|done]].
  - rewrite E1, E2; cbn.
    pose proof (cleanup_open c os (ps_open p) H1 G1 H2 G2) as Hopen; cbn in Hopen.
    unfold c3, conn_fds in *; cbn in *.
    destruct (pt_is_client c) eqn:Ecl; cbn in *; [apply Hopen; done|].
    rewrite (proj2 (Z.eqb_neq (ot_socket (or_tcp os)) (-1))) by lia; cbn.
    apply Hopen; lia.
  - apply set_eq; intros x; destruct (decide (x ∈ ps_maps p)); set_solver.
Qed.

(** ** The iterations and the total *)

(** The time [clock] measures, from its pairs of readings. *)
Definition elapsed (clock : list (Z * Z)) : Z := foldr (fun p z => p.2 - p.1 + z) 0 clock.

Section loop.
Context {X : Type} (sync : X -> X) (test_iter : X -> run (Z * X)) (states : nat -> X).

(** [k] iterations that succeed are [k] states, each reached from the one before
    by synchronising and iterating, and their times in 64 bits. *)
Lemma bench_loop_prefix n k clock total :
  (forall i, (i < k)%nat -> test_iter (sync (states i)) = Done (0, states (S i))) ->
  (k <= length clock)%nat -> in_u 64 total ->
  bench_loop sync test_iter (k + n) clock total (states 0) =
  bench_loop sync test_iter n (drop k clock) (u64 (total + elapsed (take k clock))) (states k).
Proof.
  intros Hi; revert clock total states Hi; induction k as [|k IH]; intros clock total states' Hi Hl Ht.
  { cbn; by rewrite Z.add_0_r, wrap_small. }
  destruct clock as [|[a b] clock]; [cbn in Hl; lia|].
  cbn [Nat.add bench_loop]; rewrite (Hi 0%nat) by lia; rewrite bind_Done; cbn [Z.eqb negb].
  rewrite (IH clock _ (fun i => states' (S i))); [|by intros; apply Hi; lia|cbn in Hl; lia|apply wrap_range; lia].
  cbn [drop take elapsed foldr fst snd]; fold (elapsed (take k clock)).
  by rewrite wrap_add_r, wrap_add_l, Z.add_assoc.
Qed.
End loop.

(** The driver runs the test's initialisation once and then its iterations,
    each after a synchronisation with the peer.  If all [iters] of them succeed,
    the total it hands to the final notification is the sum of the times measured
    around them, modulo 2^64.  If the iteration after the first [k] fails, no
    further one runs, nothing is notified and nothing is printed. *)
Theorem perf_bench_spec {T} t junk fr (test : perf_test T) os c stag sd sync env st x st0 states k :
  test_init test c stag sd st = (0, x, st0) -> states 0%nat = (sync, x, st0, env) ->
  (forall i, (i < k)%nat -> bench_iter test c (bench_sync (states i)) = Done (0, states (S i))) ->
  (k <= Z.to_nat (pt_iters c) <= length (or_clock os))%nat ->
  (k = Z.to_nat (pt_iters c) ->
   perf_bench t junk fr test os c stag sd sync env st =
   ('(total_ns, s) ← perf_finish t junk fr c (u64 (elapsed (take k (or_clock os)))) (states k);
    rates ← test_fini test c;
    mret (Some {| rep_total_ns := total_ns; rep_rates := rates |}, s.1.2))) /\
  (forall ret s, (k < Z.to_nat (pt_iters c))%nat -> ret <> 0 ->
   bench_iter test c (bench_sync (states k)) = Done (ret, s) ->
   perf_bench t junk fr test os c stag sd sync env st = Done (None, s.1.2)).
Proof.
  intros Hi H0 Hk [Hn Hl]; unfold perf_bench; rewrite Hi; cbn [Z.eqb negb]; rewrite <- H0.
  split.
  - intros E; rewrite <- E, <- (Nat.add_0_r k).
    rewrite bench_loop_prefix by (done || lia || split; lia); cbn [bench_loop].
    by rewrite bind_Done, Nat.add_0_r.
  - intros ret s Hlt Hr Hs; replace (Z.to_nat (pt_iters c)) with (k + S (Z.to_nat (pt_iters c) - k - 1))%nat by lia.
    rewrite bench_loop_prefix by (done || lia || split; lia); cbn [bench_loop].
    destruct (drop k (or_clock os)) as [|[a b] l] eqn:E.
    { apply (f_equal length) in E; rewrite length_drop in E; cbn in E; lia. }
    rewrite Hs, bind_Done, (proj2 (Z.eqb_neq ret 0)) by done; reflexivity.
Qed.

(** ** The final notification *)

Lemma le_Z_le8 z : in_u 64 z -> le_Z (le_bytes 8 z) = z.
Proof. intros H; rewrite le_Z_bytes; by apply wrap_small. Qed.

Lemma poll_recv_cq_mem st wc st' : poll_recv_cq st = Done (Some (wc, st')) -> rn_mem st' = rn_mem st.
Proof.
  unfold poll_recv_cq; intros ([p c] & _ & E)%bind_Done_inv; injection E as E.
  unfold cq_try_dequeue in E; destruct (try_dequeue (cq_q c)) as [[x q]|]; [|done].
  by injection E as <- <-.
Qed.

Lemma wait_recv_now st wc st' env :
  poll_recv_cq st = Done (Some (wc, st')) -> wait_completion poll_recv_cq env st = Done (wc, st', env).
Proof. intros H; destruct env; cbn [wait_completion]; by rewrite H. Qed.

Lemma recv_ack_now st wc st' env :
  poll_recv_cq st = Done (Some (wc, st')) -> exists ret, rdmap_recv_ack env st = Done (ret, st', env).
Proof.
  intros H; unfold rdmap_recv_ack; rewrite (wait_recv_now _ _ _ _ H), bind_Done.
  destruct (bool_decide _); cbn [negb]; [|by eexists].
  destruct (_ =? _); by eexists.
Qed.

(** The server posts one request, for the eight bytes of its total, waits for a
    completion and prints its own total; the request still describes the total
    when the driver goes on. *)
Theorem server_announces_total {T} t junk fr c total sync (x : T) st f env v :
  let st0 := set_rn_mem (mem_write (rn_mem st) (fr_total fr) (le_bytes 8 total)) st in
  pt_is_client c = false -> in_u 64 total -> sees (f st0) v -> q_items (v_cq v) <> [] ->
  mem_read (rn_mem (f st0)) (fr_total fr) 8 = le_bytes 8 total ->
  exists st2 q lkey,
    perf_finish t junk fr c total (sync, x, st, f :: env) =
      Done (total, (sync_with_remote sync, x, st2, env)) /\
    sees st2 (with_cq q (with_sq (enqueue t (perf_send_wr junk 234 (fr_send_sg fr)) (v_sq v)) v)) /\
    sg_array st2 (fr_send_sg fr) 1 =
      [{| sge_addr := fr_total fr; sge_length := 8; sge_lkey := lkey |}] /\
    mem_read (rn_mem st2) (fr_total fr) 8 = le_bytes 8 total.
Proof.
  intros st0 Hc Ht Hv Hne Hm; unfold perf_finish; rewrite Hc; fold st0; cbn [env_step].
  unfold rdmap_send_data, rdmap_send; cbn [perf_send_wr swr_sg_list].
  set (st1 := set_sge junk (fr_send_sg fr) (fr_total fr) 8 (f st0)).
  assert (sees st1 v) as Hv1 by exact Hv.
  destruct (sq_enqueue_sees st1 v Hv1 t (perf_send_wr junk 234 (fr_send_sg fr))) as (h & -> & Hh).
  rewrite !bind_Done.
  destruct (wait_completion_now (set_rn_heap h st1) _ env Hh Hne) as (wc & q & h' & _ & E & Hh').
  unfold mret, run_ret; rewrite E, !bind_Done.
  eexists (set_rn_heap h' (set_rn_heap h st1)), q, _; split; [|split; [exact Hh'|split; [|exact Hm]]].
  - cbn [rn_mem set_rn_heap st1 set_sge set_rn_sgs]; rewrite Hm, le_Z_le8 by done; reflexivity.
  - unfold sg_array; cbn [rn_sgs set_rn_heap st1 set_sge set_rn_sgs]; by rewrite lookup_insert_eq.
Qed.

(** The client posts a receive for its own variable and waits: whatever its own
    measurements were, what it prints is the number the stream has placed there. *)
Theorem client_reports_server_total {T} t junk fr c total total' sync (x : T) st ddp f env v :
  pt_is_client c = true -> in_u 64 total' -> sees st v -> rn_ddp st = Some ddp ->
  (forall st1, mem_read (rn_mem (f st1)) (fr_total fr) 8 = le_bytes 8 total' /\
     exists wc st2, poll_recv_cq (f st1) = Done (Some (wc, st2))) ->
  exists st2, perf_finish t junk fr c total (sync, x, st, f :: env) =
    Done (total', (sync_with_remote sync, x, st2, env)).
Proof.
  intros Hc Ht Hv Hd Hf; unfold perf_finish; rewrite Hc.
  set (st0 := set_rn_mem _ st).
  unfold rdmap_recv_issue, rdma_post_recv, rdma_post_bufs; cbn [set_sge rn_ddp set_rn_sgs st0 set_rn_mem].
  rewrite Hd; cbn [deref]; rewrite !bind_Done.
  match goal with |- context [rq_enqueue _ _ ?s] =>
    destruct (rq_enqueue_sees s v Hv t (perf_recv_wr (fr_recv_sg fr))) as (h & -> & _) end.
  unfold mret, run_ret; rewrite !bind_Done; cbn [env_step].
  match goal with |- context [f ?s] => destruct (Hf s) as (Hm & wc & st2 & Hp);
    destruct (recv_ack_now (f s) wc st2 env Hp) as (ret & ->) end.
  rewrite bind_Done; exists st2.
  by rewrite (poll_recv_cq_mem _ _ _ Hp), Hm, le_Z_le8.
Qed.

(** ** The exchange of descriptions *)
Definition wf_send_data (d : send_data) : Prop :=
  in_u 64 (sd_offset d) /\ in_u 64 (sd_stag d) /\ in_u 64 (sd_size d).

(** A description that the stream copies from one process's memory to the
    other's is read back as it was sent. *)
Theorem send_data_roundtrip m a d :
  wf_send_data d -> read_send_data (mem_write m a (send_data_bytes d)) a = d.
Proof.
  intros (H1 & H2 & H3); set (m' := mem_write m a (send_data_bytes d)).
  assert (mem_read m' a (8 + (8 + 8)) = send_data_bytes d) as E.
  { replace (8 + (8 + 8)) with (zlen (send_data_bytes d)) by
      (unfold send_data_bytes; rewrite !zlen_app, !zlen_le_bytes; done).
    apply mem_read_write; unfold send_data_bytes; rewrite !zlen_app, !zlen_le_bytes; done. }
  rewrite !mem_read_app in E by lia; unfold send_data_bytes in E.
  assert (forall b, length (mem_read m' b 8) = length (le_bytes 8 0)) as Hlen.
  { intros b; unfold mem_read; by rewrite length_mem_read_nat. }
  apply app_inj_1 in E as [E1 E]; [|by rewrite Hlen, !length_le_bytes].
  apply app_inj_1 in E as [E2 E3]; [|by rewrite Hlen, !length_le_bytes].
  unfold read_send_data; rewrite E1, E2; replace (a + 16) with (a + 8 + 8) by lia; rewrite E3.
  rewrite !le_Z_le8 by done; by destruct d.
Qed.

(** ** The synchronisation *)

(** When the peer's eight bytes are there, a synchronisation consumes exactly
    them and adds eight bytes to what the peer will see. *)
Theorem sync_exchange s bs tl r :
  zlen bs = 8 -> rx s = RxData (bs ++ tl) :: r -> tx_plan s = [] ->
  sync_with_remote s = {| rx := RxData tl :: r; tx := tx s ++ replicate 8 (Z_byte 0); tx_plan := [] |}.
Proof.
  intros Hb Hr Hp; unfold sync_with_remote, sendmsg; rewrite Hp.
  set (s1 := {| rx := rx s |}).
  pose proof (recv_exact false bs tl r s1) as E; rewrite Hb in E.
  rewrite E; [reflexivity|exact Hr|by intros ->|done].
Qed.

(** ** A run, from the options to the clean-up *)
Module Example.
Definition opts (client : bool) : list opt :=
  (if client then [OptC] else []) ++ [OptI "1"%string; OptR "0"%string].
Definition tcp (sock acc : Z) : os_tcp :=
  {| ot_socket := sock; ot_getaddrinfo := 0; ot_connect := 0; ot_bind := 0; ot_listen := 0;
     ot_accept := acc |}.
Definition os : os_run :=
  {| or_mmap := Some 4096; or_tcp := tcp 3 4; or_tcp_sync := tcp 5 6; or_malloc := true;
     or_heap := (1, 2, 3, 4);
     or_stream := {| or_ptrs := [0x9000; 0x9100]; or_tids := (1%nat, 2%nat); or_rc := (0, 0); or_turns := fun st => st |};
     or_clock := [(1000, 1700)] |}.
Definition fr : frame :=
  {| fr_mine := 0x7000; fr_theirs := 0x7100; fr_total := 0x7200; fr_send_sg := 64; fr_recv_sg := 65;
     fr_pd := 0x7300 |}.
Definition junk_wq : wq := example_wq (SendQ []) WQT_SQ.
Definition p0 : proc :=
  {| ps_open := {[ 0; 1; 2 ]}; ps_maps := ∅; ps_heap := {| cqs := ∅; wqs := ∅ |}; ps_stream := None |}.

Definition done_wc (op : wc_opcode) : work_completion :=
  set_wce_opcode (wc_opcode_val op) (example_wc WC_SUCCESS).
Definition complete (ops : list wc_opcode) (st : rnic) : rnic :=
  fold_left (fun st op => match cq_enqueue 2 (done_wc op) st with Done st => st | _ => st end) ops st.

(** The peer's description arrives, then the test's completion (in the server),
    then the total (in the client). *)
Definition theirs : send_data := {| sd_offset := 0x8000; sd_stag := 0x8000; sd_size := 1024 |}.
Definition env (client : bool) : list (rnic -> rnic) :=
  [fun st => complete [WC_SEND; WC_SEND] (place 0x7100 (send_data_bytes theirs) st);
   fun st => st] ++
  if client then [fun st => complete [WC_SEND] (place 0x7200 (le_bytes 8 700000) st)]
  else [fun st => complete [WC_READ_REQUEST] st; fun st => complete [WC_SEND] st].

Definition peer_sock (req : bool) : sock :=
  {| rx := [RxData (encode (mpa_rr_header req 0)); RxGap]; tx := []; tx_plan := [] |}.
Definition sync_sock : sock :=
  {| rx := replicate 3 (RxData (le_bytes 8 0)); tx := []; tx_plan := [] |}.

Abbreviation run_read_lat client :=
  (perftest_run 0 0 junk_wq fr (read_lat_main {| ndebug := false; rping := false |} 0 0 66)
     (opts client) os ∅ (1, 1, 1) (peer_sock (negb client)) sync_sock (env client) p0).

(** What the run reports and which descriptors and mappings remain. *)
Definition summary (r : run ended) : option (option report * list Z * list Z) :=
  match r with
  | Done (Returned p r) => Some (r, elements (ps_open p), elements (ps_maps p))
  | _ => None
  end.

Definition is_done {A} (r : run A) : bool := match r with Done _ => true | _ => false end.
Lemma is_done_inv {A} (r : run A) : is_done r = true -> exists a, r = Done a.
Proof. destruct r; [by eexists|done..]. Qed.
Lemma run_returns : is_done (run_read_lat false) = true.
Proof. vm_compute; reflexivity. Qed.
End Example.

(** A client that reads the server's total, and a server that prints its own and
    leaves one socket open. *)
Example read_lat_client :
  Example.summary (Example.run_read_lat true) =
  Some (Some {| rep_total_ns := 700000; rep_rates := None |}, elements ({[ 0; 1; 2 ]} : gset Z), []).
Proof. vm_compute; reflexivity. Qed.
Example read_lat_server :
  Example.summary (Example.run_read_lat false) =
  Some (Some {| rep_total_ns := 700; rep_rates := None |}, elements ({[ 0; 1; 2; 5 ]} : gset Z), []).
Proof. vm_compute; reflexivity. Qed.

Lemma perftest_run_resources_witness :
  exists e c, Example.run_read_lat false = Done e /\ left_behind c Example.os 4096 Example.p0 e.
Proof.
  destruct (Example.is_done_inv _ Example.run_returns) as [e E].
  exists e, (set_option (OptR "0"%string) (set_option (OptI "1"%string) (default_context (-1)))).
  split; [exact E|]; apply (perftest_run_resources 0 0 Example.junk_wq Example.fr
    (read_lat_main {| ndebug := false; rping := false |} 0 0 66) (Example.opts false) Example.os ∅ (1, 1, 1)
    (Example.peer_sock true) Example.sync_sock (Example.env false) Example.p0 e);
    [reflexivity|reflexivity| | |reflexivity| | |exact E].
  - apply not_elem_of_empty.
  - intros fd Hfd; cbn [ps_open Example.p0] in Hfd; rewrite !elem_of_union, !elem_of_singleton in Hfd; lia.
  - split; right; apply (bool_decide_unpack _); vm_compute; reflexivity.
  - split; right; apply (bool_decide_unpack _); vm_compute; reflexivity.
Defined.

Lemma perf_bench_spec_witness :
  let c := set_option OptC (set_option (OptI "2"%string) (default_context (-1))) in
  let os := {| or_mmap := None; or_tcp := Example.tcp 3 4; or_tcp_sync := Example.tcp 5 6;
               or_malloc := true; or_heap := (1, 2, 3, 4);
               or_stream := {| or_ptrs := []; or_tids := (1%nat, 2%nat); or_rc := (0, 0); or_turns := fun st => st |}; or_clock := [(1000, 1700); (2000, 2500)] |} in
  let test := read_lat_main {| ndebug := false; rping := false |} 0 0 66 in
  let '(_, x, st) := read_lat_init 0 c 4096 Example.theirs 66 (example_rnic []) in
  perf_bench 0 0 Example.fr test os c 4096 Example.theirs Example.sync_sock [] (example_rnic []) =
  ('(total_ns, s) ← perf_finish 0 0 Example.fr c 1200
       (bench_sync (bench_sync (Example.sync_sock, x, st, [])));
   mret (Some {| rep_total_ns := total_ns; rep_rates := None |}, s.1.2)).
Proof.
  intros c os test; cbv beta iota zeta delta [read_lat_init].
  exact (proj1 (perf_bench_spec 0 0 Example.fr test os c 4096 Example.theirs Example.sync_sock []
    (example_rnic []) (test_wr 0 RDMAP_RDMA_READ_REQ 2 66 Example.theirs)
    (fill_buf c (put_sge 66 (test_sge c 4096) (example_rnic [])))
    (fun i => Nat.iter i bench_sync (Example.sync_sock, test_wr 0 RDMAP_RDMA_READ_REQ 2 66 Example.theirs,
       fill_buf c (put_sge 66 (test_sge c 4096) (example_rnic [])), []))
    2 eq_refl eq_refl
    (fun i _ => match bench_sync (Nat.iter i bench_sync _) as s
       return bench_iter test c s = Done (0, s) with (_, _, _, _) => eq_refl end)
    (conj (le_n 2) (le_n 2))) eq_refl).
Defined.
